(* ===== verification/_CoqProject ===== *)
-Q . S2P
Prelude.v
Bits.v
Varint.v
Text.v
Utf.v
RowSet.v
Like.v
Hash.v
Probe.v
Bitvec.v
MemJournal.v
Record.v
WalIndex.v
WalIter.v
WalFile.v
WalCommit.v
Sha1.v
HttpParser.v
LruCache.v
WhipWire.v
Uuid.v
WhipSettings.v
RemoteAsset.v
PushRepl.v
VfsData.v
VfsStore.v
PullRepl.v
StdMap.v
Act.v
MeshQuery.v
Mesh.v
MeshSafe.v
WhipSession.v
WhipClient.v
WhipFetch.v
AssetCache.v
TokenBucket.v
HttpReply.v
HttpConn.v
HttpThrottle.v
HttpQuery.v
HttpRange.v
HttpCaps.v
