(* ===== verification/Prelude.v ===== *)
(** * Verification of the Halcyon server libraries

    The repository holds the support libraries of the Halcyon virtual-world
    server.  Its native programs are the WHIP asset server ([src/whip-server]),
    the Aperture HTTP front end for assets ([src/aperture]) and the SQLite 3.7.0
    amalgamation that WHIP compiles in as its index store
    ([src/whip-server/sqlite/sqlite3.c]).  This library models the parts of these
    programs whose behaviour can be stated exactly, and proves what makes them
    correct.

    ** Conventions

    Code is a shallow embedding.  A C or C++ integer of width w is a [Z] with
    its conversions written out ([u8], [u16], [u32], [u64], [i32], [i64] below);
    memory and files are lists of bytes or words; a result of type [option] is
    [None] exactly when the code would read or write outside an object, follow a
    null pointer, overflow a signed counter that a theorem is about or throw out of a handler that nothing guards,
    or when a loop has used up its fuel.  Theorems that claim a
    result therefore also claim memory safety and termination.  Error codes are
    ordinary results.  The allocator, the virtual file system and other services
    outside the repository are arguments, with their contracts as hypotheses.

    ** Files

    - [Prelude]: machine integers, array access, tactics, generic lemmas.
    - [Bits]: identities between shifts, masks and arithmetic.
    - [Varint]: util.c, the variable-length and big-endian integers of the file
      format.  Round trips, equality of the unrolled decoder with the format,
      saturation of the 32-bit reader, lengths.
    - [Text]: global.c, util.c and func.c, text helpers.  Case-insensitive
      comparison is comparison of folded strings; string to integer conversion is
      exact up to the limits; quoting and hex round trips.
    - [Utf]: utf.c.  Character round trips, translation between encodings keeps the
      text and stays inside its buffer.
    - [RowSet]: rowset.c refines a finite set, also when allocations fail: a rowid for which there is no memory is
      dropped, and nothing else changes; draining is sorted; the trees are
      balanced.
    - [Like]: the LIKE and GLOB matcher of func.c agrees with a declarative token
      semantics.
    - [Hash]: hash.c on an explicit heap refines a finite map under any sequence of
      operations and allocation failures; clearing frees every element.
    - [Probe]: linear probing, shared by [Bitvec] and [WalIndex].
    - [Bitvec]: bitvec.c refines a set of page numbers; a failed allocation loses
      at most what the result code announces.
    - [MemJournal]: memjournal.c behaves as an append-only file; one call order
      makes it follow a null pointer.
    - [Record]: serial types, records and key comparison of vdbeaux.c, vdbemem.c and
      the OP_MakeRecord opcode.  Records round trip (a NaN comes back as NULL), and a count of trailing zeros that overflows its int is
      found exactly; key comparison is the
      lexicographic order of the fields; value comparison is not transitive.
    - [WalIndex]: the hash index of wal.c refines a log of page numbers under
      transactions, lost writers, rollbacks and reads.
    - [WalIter]: the merge sort and the iterator of a checkpoint visit each page once
      with its last frame.
    - [WalFile]: the log file of wal.c: checksums, frame headers, recovery and the writing
      of frames.  Recovery keeps exactly the longest valid committed prefix of the log.
    - [WalCommit]: writing and recovery together: a transaction that was committed before a
      crash is there after recovery, whatever the crash left behind it.
    - [Sha1]: [SHA1.cpp] of WHIP computes the SHA-1 function of the standard, for any
      division of the message into calls whose 32-bit sums of lengths do not wrap; the first that does makes [Update] write
      outside its buffer.
    - [HttpParser]: the request parser of Aperture accepts exactly the requests of
      its grammar, and reads them as they are written.
    - [LruCache]: [lru_cache.h] refines a list of entries in order of use.
    - [WhipWire]: the messages of the WHIP protocol, [WhipSession]: the states of a client
      connection ([CSUnauthenticated], [CSAuthenticated]).  Nothing is asked of the storage
      before the client has proved to know the password; every request is answered once, in
      order; a handler fails for two kinds of completions only: a PUT shorter than an id makes the server read outside
      a buffer, and a response of 2^31 bytes or more throws.
    - [Uuid]: the binary form of asset ids; text and binary form determine each other.
    - [VfsData]: the files of the WHIP storage: data files, SQLite index files and the pool of open
      ones, databases, in a monad with exceptions and an oracle of failures; the SQL table
      is the interface [IndexTable].
    - [VfsStore]: the storage back end ([VFSBackend], [ExistenceIndex]): queue, worker, posted handlers and
      purge timer as interleaved steps.  A get never returns a wrong asset; a global asset whose
      store was acknowledged stays on the disk, is read by the worker and is indexed by every start, and its id stays in the index unless another store of
      the id was already past the test for duplicates or a local asset has the id (a race that hides the asset until a restart is
      run as an example); every request is answered once; the index built at a start is exact; open index
      files are current; a purge ends.  Two ways to lose an asset are proved as well: an id blocked by a failed
      write, and a store at position zero.
    - [AssetCache]: the memory cache in front of the back end; both together never return a wrong asset.
    - [WhipSettings]: the accessors of [Settings.cpp] that name masters, slaves and mesh peers; boost's
      text functions are the class [BoostParse].
    - [RemoteAsset]: [RemoteAssetService], the client that replication uses, as a monad over a heap of service
      objects, the operations owed by the io service and the state of its owner.  A use of a freed object or of a null pointer is the result
      [Undefined].  Every request is answered (twice when it is made without a connection), an asset only to one who asked for it,
      for clients whose callbacks make any further calls but do not close or destroy the service; clients that do are [PushRepl] and [PullRepl].
    - [PushRepl], [PullRepl]: [PushReplicationService] and [PullReplicationService] on top of it, with their timers.  Push
      always watches its connection; every handler of pull ends; a round of pull asks for every prefix; pull stores only what was missing and
      asked for.  Two states that pull does not recover from are proved as well.
    - [StdMap]: std::map with strings for keys, as [Mesh] and [WhipClient] use it.
    - [Act]: the monad of the mesh services and of [WhipClient], and its judgements [ends] and [fuel_free].
    - [MeshQuery]: the queries of other servers ([IntraMeshQueryClient], and what [IntraMeshService] does for them).  Every query is answered
      once and in order, with what the existence index says; only configured peers are served.
    - [Mesh]: the searches on other servers ([AssetSearch], [MeshServer], [MeshQueryConnection], [MeshStorageBackend], the peers of [IntraMeshService]) on
      heaps of searches and servers with their owners.  [MeshSafe]: its invariant.  Every request is answered exactly once, only with the asset that was
      asked for, and a search that is not answered has something to wake it; every handler ends, also where servers are destroyed within [close].  A run in which a repeated
      [close] loses an asset and uses a freed search is proved as well.
    - [WhipClient]: Aperture's client of WHIP ([AssetServer.cpp], [WhipURI.cpp]).  [WhipFetch]: every request to it is answered exactly once, waiting
      requests are read for, a lost connection is made again, and one race removes from an empty queue.  Run against [WhipSession] it logs in and delivers
      the asset that the storage has.
    - [TokenBucket]: the bandwidth limit of Aperture holds in every time window.
    - [HttpReply], [HttpConn]: replies and the connection of the HTTP server.  Every message of the
      input is answered, in order, however the stream is cut into reads, as long as the handler's replies under a bucket start at offset zero; the stock
      replies do not set the offset, and a run that leaves the content is given.
    - [HttpThrottle]: a throttled reply is sent completely in a number of steps that is bounded by its length, the burst and the tokens
      that other connections take from the same bucket meanwhile; with a bandwidth of
      zero it never is.
    - [HttpQuery], [HttpRange]: query strings and byte ranges.  Exactly the first parameter is kept; the
      reply holds the bytes that its headers name.
    - [HttpCaps]: the request handler.  Every request is answered once, waits, or is dropped by one
      of two named causes; assets are served only for capabilities that were added.

    ** Bounds and fuel

    Fuel is always a quantity of the input (the length of a string, the number of
    frames in a file, the slots of a table), and the theorems show that it is
    enough.  The recursion of pull replication through its callbacks has the fixed fuel [STEP_FUEL],
    which is shown to be enough in every state; the loops of [close] have the length of the queue
    and what the callbacks can add to it.  In the mesh [close] calls itself through the query connection and the servers it destroys; its fuel
    [close_fuel] is two for each server and one more, and is shown to be enough in every reachable state.  Where the code has a 32-bit counter a theorem bounds the input
    accordingly (for example fewer than 2^31-1 frames in a log).  The version numbers of an HTTP request wrap around as 32-bit integers, which
    is what the compilers in use make of the overflow.  The second close of a data file's
    descriptor, in the destructor, is not modelled: it fails unless another thread has opened a descriptor in between.

    ** Not modelled

    Of WHIP: the start of the server and its log, the reading of the configuration file, the Windows variant of the data file, texts of status reports.  Of Aperture: the client of the cloud
    store and the idle timer of a connection.  The pager, the B-tree, the SQL compiler and the virtual machine of SQLite; file,
    socket and thread glue; the C# programs (Joke, whip-dotnet-client,
    prim-exporter, chrysalis, import-export, setuptools) and PhysX.net, a binding
    of a physics engine that is not in the repository.  In wal.c the reader locks
    ([walTryBeginRead], [walRestartLog]) are left out. *)
From stdpp Require Export base tactics list numbers option.
From Stdlib Require Export ZArith Lia.
From Stdlib Require Ascii String.

Declare Scope c_scope.
Delimit Scope c_scope with C.
#[global] Open Scope Z_scope.

Create HintDb sq discriminated.

(** * Machine-width integers

    C's fixed-width integers are modelled in [Z]; each conversion that can lose
    bits is written out with one of these functions. *)

Definition u8 (x : Z) : Z := x mod 2 ^ 8.
Definition u16 (x : Z) : Z := x mod 2 ^ 16.
Definition u32 (x : Z) : Z := x mod 2 ^ 32.
Definition u64 (x : Z) : Z := x mod 2 ^ 64.
Definition i32 (x : Z) : Z := (x + 2 ^ 31) mod 2 ^ 32 - 2 ^ 31.
Definition i64 (x : Z) : Z := (x + 2 ^ 63) mod 2 ^ 64 - 2 ^ 63.

Definition is_u8 (x : Z) : Prop := 0 <= x < 2 ^ 8.
Definition is_u32 (x : Z) : Prop := 0 <= x < 2 ^ 32.
Definition is_u64 (x : Z) : Prop := 0 <= x < 2 ^ 64.
Definition is_i32 (x : Z) : Prop := - 2 ^ 31 <= x < 2 ^ 31.
Definition is_i64 (x : Z) : Prop := - 2 ^ 63 <= x < 2 ^ 63.

(** A C truth value: anything but zero. *)
Definition truthy (x : Z) : bool := negb (x =? 0).

(** Reading [p[i]] for an array given as a list: [None] is a read outside the
    object. *)
Definition rd {A} (p : list A) (i : Z) : option A :=
  if i <? 0 then None else p !! Z.to_nat i.

(** Writing [p[i] = x]: [None] is a write outside the object. *)
Definition wr {A} (p : list A) (i : Z) (x : A) : option (list A) :=
  if (i <? 0) || (Z.of_nat (length p) <=? i) then None
  else Some (<[Z.to_nat i := x]> p).

(** SQLite result codes used across the components. *)
Definition SQLITE_OK : Z := 0.
Definition SQLITE_ERROR : Z := 1.
Definition SQLITE_NOMEM : Z := 7.
Definition SQLITE_CORRUPT : Z := 11.
Definition SQLITE_IOERR_NOMEM : Z := 3082.

(** The library functions use zero-terminated strings: [cstr s] is the byte at
    each position of [s] followed by the terminator; [chr] reads past the end of
    the bytes as the terminating zero (the model's strings hold no zero byte). *)
Definition chr (s : list Z) : Z :=
  match s with [] => 0 | c :: _ => c end.

(** The bytes of a string literal of the source. *)
Definition text (s : String.string) : list Z := map (fun a => Z.of_nat (Ascii.nat_of_ascii a)) (String.list_ascii_of_string s).

(** * Tactics *)

Ltac case_bool :=
  match goal with
  | |- context [if ?b then _ else _] => destruct b eqn:?
  | H : context [if ?b then _ else _] |- _ => destruct b eqn:?
  end.

Ltac zbool :=
  repeat match goal with
  | H : (_ && _)%bool = true |- _ => apply andb_prop in H as [? ?]
  | H : (_ || _)%bool = false |- _ => apply orb_false_elim in H as [? ?]
  | H : negb _ = true |- _ => apply negb_true_iff in H
  | H : negb _ = false |- _ => apply negb_false_iff in H
  | H : (_ =? _) = true |- _ => apply Z.eqb_eq in H
  | H : (_ =? _) = false |- _ => apply Z.eqb_neq in H
  | H : (_ <? _) = true |- _ => apply Z.ltb_lt in H
  | H : (_ <? _) = false |- _ => apply Z.ltb_ge in H
  | H : (_ <=? _) = true |- _ => apply Z.leb_le in H
  | H : (_ <=? _) = false |- _ => apply Z.leb_gt in H
  end.

(** Linear arithmetic after turning [/] and [mod] by constants into equations. *)
Ltac dlia := Z.div_mod_to_equations; lia.

(** * Generic lemmas *)

Lemma u8_small x : is_u8 x -> u8 x = x.
Proof. apply Z.mod_small. Qed.

Lemma u32_small x : is_u32 x -> u32 x = x.
Proof. apply Z.mod_small. Qed.

Lemma u64_small x : is_u64 x -> u64 x = x.
Proof. apply Z.mod_small. Qed.

Lemma i32_small x : is_i32 x -> i32 x = x.
Proof. unfold is_i32, i32. intros. rewrite Z.mod_small; lia. Qed.

Lemma i64_small x : is_i64 x -> i64 x = x.
Proof. unfold is_i64, i64. intros. rewrite Z.mod_small; lia. Qed.

Lemma u32_i32 y : u32 (i32 y) = u32 y.
Proof. unfold u32, i32. rewrite Zminus_mod_idemp_l. f_equal. lia. Qed.

Lemma u8_range x : is_u8 (u8 x).
Proof. apply Z.mod_pos_bound. lia. Qed.

Lemma u32_range x : is_u32 (u32 x).
Proof. apply Z.mod_pos_bound. lia. Qed.

Lemma u64_range x : is_u64 (u64 x).
Proof. apply Z.mod_pos_bound. lia. Qed.

#[export] Hint Resolve u8_range u32_range u64_range : sq.

Section arrays.
Context {A : Type}.
Implicit Types (p : list A) (i : Z).

Lemma rd_Some p i x : rd p i = Some x <-> 0 <= i /\ p !! Z.to_nat i = Some x.
Proof. unfold rd. case_bool; zbool; naive_solver lia. Qed.

Lemma rd_nat p (n : nat) : rd p (Z.of_nat n) = p !! n.
Proof. unfold rd. case_bool; zbool; [lia|]. by rewrite Nat2Z.id. Qed.

Lemma rd_is_Some p i : 0 <= i < Z.of_nat (length p) -> is_Some (rd p i).
Proof.
  intros [? ?]. unfold rd. case_bool; zbool; [lia|]. apply lookup_lt_is_Some_2. lia.
Qed.

Lemma rd_bound p i x : rd p i = Some x -> 0 <= i < Z.of_nat (length p).
Proof. rewrite rd_Some. intros [? ?%lookup_lt_Some]. lia. Qed.

Lemma wr_Some p i x : 0 <= i < Z.of_nat (length p) -> wr p i x = Some (<[Z.to_nat i := x]> p).
Proof. intros. unfold wr. case_bool; zbool; [|done]. apply orb_prop in Heqb as [?|?]; zbool; lia. Qed.

Lemma wr_bound p i x q : wr p i x = Some q -> 0 <= i < Z.of_nat (length p).
Proof. unfold wr. case_bool; [done|]. zbool. lia. Qed.

Lemma wr_length p i x q : wr p i x = Some q -> length q = length p.
Proof. unfold wr. case_bool; [done|]. intros [= <-]. apply length_insert. Qed.

Lemma rd_wr_eq p i x q : wr p i x = Some q -> rd q i = Some x.
Proof.
  intros Hw. pose proof (wr_bound _ _ _ _ Hw). rewrite wr_Some in Hw by done.
  injection Hw as <-. apply rd_Some. split; [lia|]. apply list_lookup_insert_eq. lia.
Qed.

Lemma rd_wr_ne p i j x q : wr p i x = Some q -> i <> j -> rd q j = rd p j.
Proof.
  intros Hw Hne. pose proof (wr_bound _ _ _ _ Hw). rewrite wr_Some in Hw by done.
  injection Hw as <-. unfold rd. case_bool; [done|]; zbool.
  apply list_lookup_insert_ne. lia.
Qed.
End arrays.

(** Testing one bit with a mask. *)
Lemma land_bit b k : 0 <= k -> truthy (Z.land b (Z.shiftl 1 k)) = Z.testbit b k.
Proof.
  intros Hk. rewrite Z.shiftl_1_l. unfold truthy.
  assert (Hl : Z.land b (2 ^ k) = if Z.testbit b k then 2 ^ k else 0).
  { apply Z.bits_inj'. intros i Hi. rewrite Z.land_spec, Z.pow2_bits_eqb by lia.
    destruct (Z.testbit b k) eqn:E; [rewrite Z.pow2_bits_eqb by lia|rewrite Z.bits_0];
      (destruct (Z.eqb_spec k i) as [<-|]; [by rewrite E|by rewrite andb_false_r]). }
  rewrite Hl. destruct (Z.testbit b k); [|done]. apply negb_true_iff, Z.eqb_neq. pose proof (Z.pow_pos_nonneg 2 k). lia.
Qed.
