(* ===== verification/Bits.v ===== *)
(** * Bits: a reflective normaliser for bit-vector expressions

    SQLite's decoders are straight-line shift-and-mask code over bytes.  This
    file gives a small expression language for such code, a symbolic evaluator
    that computes every bit of an expression as a bit of one of its byte
    variables, its soundness theorem, and the tactic [bitblast] that proves an
    equation between two such expressions by evaluating both. *)
From S2P Require Import Prelude.

(** Expressions over byte variables. [BWrap w] is truncation to [w] bits. *)
Inductive bexp :=
  | BVar (v : nat)
  | BCst (c : Z)
  | BAnd (a b : bexp)
  | BOr (a b : bexp)
  | BShl (a : bexp) (k : Z)
  | BShr (a : bexp) (k : Z)
  | BWrap (w : Z) (a : bexp).

Fixpoint denote (env : list Z) (e : bexp) : Z :=
  match e with
  | BVar v => nth v env 0
  | BCst c => c
  | BAnd a b => Z.land (denote env a) (denote env b)
  | BOr a b => Z.lor (denote env a) (denote env b)
  | BShl a k => Z.shiftl (denote env a) k
  | BShr a k => Z.shiftr (denote env a) k
  | BWrap w a => denote env a mod 2 ^ w
  end.

(** A symbolic bit: a constant, a bit of a variable, or a connective. *)
Inductive sbit :=
  | SF
  | ST
  | SV (v : nat) (i : Z)
  | SAnd (a b : sbit)
  | SOr (a b : sbit).

Fixpoint sbit_eqb (a b : sbit) : bool :=
  match a, b with
  | SF, SF => true
  | ST, ST => true
  | SV v i, SV w j => (v =? w)%nat && (i =? j)
  | SAnd a1 a2, SAnd b1 b2 => sbit_eqb a1 b1 && sbit_eqb a2 b2
  | SOr a1 a2, SOr b1 b2 => sbit_eqb a1 b1 && sbit_eqb a2 b2
  | _, _ => false
  end.

Fixpoint sden (env : list Z) (s : sbit) : bool :=
  match s with
  | SF => false
  | ST => true
  | SV v i => Z.testbit (nth v env 0) i
  | SAnd a b => sden env a && sden env b
  | SOr a b => sden env a || sden env b
  end.

Definition sand (a b : sbit) : sbit :=
  match a, b with
  | SF, _ => SF
  | _, SF => SF
  | ST, _ => b
  | _, ST => a
  | _, _ => if sbit_eqb a b then a else SAnd a b
  end.

Definition sor (a b : sbit) : sbit :=
  match a, b with
  | ST, _ => ST
  | _, ST => ST
  | SF, _ => b
  | _, SF => a
  | _, _ => if sbit_eqb a b then a else SOr a b
  end.

(** Bit [i] (for [0 <= i]) of an expression over 8-bit variables; [kn] lists
    what is known of single bits: the flag tests the code has made. *)
Definition known := list (nat * Z * bool).

Fixpoint look (kn : known) (v : nat) (i : Z) : sbit :=
  match kn with
  | [] => SV v i
  | (w, j, b) :: kn => if (v =? w)%nat && (i =? j) then (if b : bool then ST else SF) else look kn v i
  end.

Fixpoint bit (kn : known) (e : bexp) (i : Z) : sbit :=
  match e with
  | BVar v => if i <? 8 then look kn v i else SF
  | BCst c => if Z.testbit c i then ST else SF
  | BAnd a b => sand (bit kn a i) (bit kn b i)
  | BOr a b => sor (bit kn a i) (bit kn b i)
  | BShl a k => if i <? k then SF else bit kn a (i - k)
  | BShr a k => bit kn a (i + k)
  | BWrap w a => if i <? w then bit kn a i else SF
  end.

(** A bound on the position of the highest bit; [None] if a shift is by a
    negative amount or a constant is negative. *)
Fixpoint bwidth (e : bexp) : option Z :=
  match e with
  | BVar _ => Some 8
  | BCst c => if c <? 0 then None else Some (Z.log2 c + 1)
  | BAnd a b => wa ← bwidth a; wb ← bwidth b; Some (Z.max wa wb)
  | BOr a b => wa ← bwidth a; wb ← bwidth b; Some (Z.max wa wb)
  | BShl a k => wa ← bwidth a; if k <? 0 then None else Some (wa + k)
  | BShr a k => wa ← bwidth a; if k <? 0 then None else Some wa
  | BWrap w a => wa ← bwidth a; if w <? 0 then None else Some wa
  end.

Fixpoint upto (n : nat) (f : Z -> bool) : bool :=
  match n with
  | O => true
  | S n => f (Z.of_nat n) && upto n f
  end.

Definition beq (kn : known) (e1 e2 : bexp) : bool :=
  match bwidth e1, bwidth e2 with
  | Some w1, Some w2 => upto (Z.to_nat (Z.max w1 w2)) (fun i => sbit_eqb (bit kn e1 i) (bit kn e2 i))
  | _, _ => false
  end.

Definition env_ok (env : list Z) : Prop := Forall is_u8 env.
Definition known_ok (env : list Z) (kn : known) : Prop :=
  Forall (fun '(v, i, b) => Z.testbit (nth v env 0) i = b) kn.

(** ** Soundness *)

Lemma sbit_eqb_eq a b : sbit_eqb a b = true -> a = b.
Proof.
  revert b. induction a; destruct b; simpl; try done; intros H.
  - apply andb_prop in H as [H1%Nat.eqb_eq H2%Z.eqb_eq]. congruence.
  - apply andb_prop in H as [? ?]. f_equal; auto.
  - apply andb_prop in H as [? ?]. f_equal; auto.
Qed.

Lemma sand_sound env a b : sden env (sand a b) = sden env a && sden env b.
Proof.
  assert (Hc : forall a b, sden env (if sbit_eqb a b then a else SAnd a b) = sden env a && sden env b).
  { intros x y. destruct (sbit_eqb x y) eqn:E; [|done]. apply sbit_eqb_eq in E as ->. by rewrite andb_diag. }
  destruct a, b; unfold sand; try (apply Hc); simpl; by rewrite ?andb_true_r, ?andb_false_r.
Qed.

Lemma sor_sound env a b : sden env (sor a b) = sden env a || sden env b.
Proof.
  assert (Hc : forall a b, sden env (if sbit_eqb a b then a else SOr a b) = sden env a || sden env b).
  { intros x y. destruct (sbit_eqb x y) eqn:E; [|done]. apply sbit_eqb_eq in E as ->. by rewrite orb_diag. }
  destruct a, b; unfold sor; try (apply Hc); simpl; by rewrite ?orb_true_r, ?orb_false_r.
Qed.

Lemma look_sound env kn v i : known_ok env kn -> sden env (look kn v i) = Z.testbit (nth v env 0) i.
Proof.
  induction 1 as [|[[w j] b] kn Hb _ IH]; simpl; [done|]. case_bool; [|done].
  apply andb_prop in Heqb0 as [->%Nat.eqb_eq ->%Z.eqb_eq]. rewrite Hb. by destruct b.
Qed.

Lemma env_ok_nth env v : env_ok env -> is_u8 (nth v env 0).
Proof.
  intros H. destruct (nth_lookup_or_length env v 0) as [Hv|Hv].
  - by eapply Forall_lookup_1.
  - rewrite nth_overflow by lia. unfold is_u8. lia.
Qed.

Lemma testbit_above w x i : 0 <= x < 2 ^ w -> 0 <= w <= i -> Z.testbit x i = false.
Proof.
  intros Hx Hw. destruct (decide (x = 0)) as [->|]; [apply Z.bits_0|].
  apply Z.bits_above_log2; [lia|]. apply Z.log2_lt_pow2; [lia|].
  eapply Z.lt_le_trans; [apply Hx|]. apply Z.pow_le_mono_r; lia.
Qed.

Lemma bit_sound env kn e i :
  env_ok env -> known_ok env kn -> bwidth e <> None -> 0 <= i ->
  sden env (bit kn e i) = Z.testbit (denote env e) i.
Proof.
  intros Henv Hkn. revert i.
  induction e as [v|c|a IHa b IHb|a IHa b IHb|a IHa k|a IHa k|w a IHa]; simpl; intros i Hw Hi.
  - case_bool; zbool; [by apply look_sound|].
    symmetry. apply (testbit_above 8); [by apply env_ok_nth|lia].
  - by destruct (Z.testbit c i).
  - rewrite sand_sound, Z.land_spec, IHa, IHb; try done; destruct (bwidth a), (bwidth b); done.
  - rewrite sor_sound, Z.lor_spec, IHa, IHb; try done; destruct (bwidth a), (bwidth b); done.
  - destruct (bwidth a); [|done]. simpl in Hw. destruct (Z.ltb_spec k 0); [done|].
    rewrite Z.shiftl_spec by lia. case_bool; zbool; [by rewrite Z.testbit_neg_r by lia|].
    apply IHa; [done|lia].
  - destruct (bwidth a); [|done]. simpl in Hw. destruct (Z.ltb_spec k 0); [done|].
    rewrite Z.shiftr_spec by lia. apply IHa; [done|lia].
  - destruct (bwidth a); [|done]. simpl in Hw. destruct (Z.ltb_spec w 0); [done|].
    case_bool; zbool.
    + rewrite Z.mod_pow2_bits_low by lia. apply IHa; [done|lia].
    + by rewrite Z.mod_pow2_bits_high by lia.
Qed.

Lemma bwidth_sound env e w :
  env_ok env -> bwidth e = Some w -> forall i, w <= i -> 0 <= i -> Z.testbit (denote env e) i = false.
Proof.
  intros Henv. revert w.
  induction e as [v|c|a IHa b IHb|a IHa b IHb|a IHa k|a IHa k|ww a IHa]; simpl; intros w Hw i Hi Hi0.
  - injection Hw as <-. apply (testbit_above 8); [by apply env_ok_nth|lia].
  - destruct (Z.ltb_spec c 0); [done|]. injection Hw as <-.
    destruct (decide (c = 0)) as [->|]; [apply Z.bits_0|]. apply Z.bits_above_log2; lia.
  - destruct (bwidth a), (bwidth b); try done. injection Hw as <-. rewrite Z.land_spec.
    erewrite IHa; [done|done|lia|lia].
  - destruct (bwidth a), (bwidth b); try done. injection Hw as <-. rewrite Z.lor_spec.
    erewrite IHa, IHb; [done|done|lia|lia|done|lia|lia].
  - destruct (bwidth a); [|done]. simpl in Hw. destruct (Z.ltb_spec k 0); [done|]. injection Hw as <-.
    rewrite Z.shiftl_spec by lia. destruct (decide (i < k)); [by apply Z.testbit_neg_r; lia|].
    eapply IHa; [done|lia|lia].
  - destruct (bwidth a); [|done]. simpl in Hw. destruct (Z.ltb_spec k 0); [done|]. injection Hw as <-.
    rewrite Z.shiftr_spec by lia. eapply IHa; [done|lia|lia].
  - destruct (bwidth a); [|done]. simpl in Hw. destruct (Z.ltb_spec ww 0); [done|]. injection Hw as <-.
    destruct (decide (i < ww)); [rewrite Z.mod_pow2_bits_low by lia; eapply IHa; [done|lia|lia]|].
    by apply Z.mod_pow2_bits_high; lia.
Qed.

Lemma upto_sound n f i : upto n f = true -> 0 <= i < Z.of_nat n -> f i = true.
Proof.
  induction n as [|n IH]; simpl; [lia|]. intros [H1 H2]%andb_prop Hi.
  destruct (decide (i = Z.of_nat n)) as [->|]; [done|]. apply IH; [done|lia].
Qed.

Theorem beq_sound env kn e1 e2 :
  env_ok env -> known_ok env kn -> beq kn e1 e2 = true -> denote env e1 = denote env e2.
Proof.
  unfold beq. intros Henv Hkn H.
  destruct (bwidth e1) as [w1|] eqn:E1; [|done]. destruct (bwidth e2) as [w2|] eqn:E2; [|done].
  apply Z.bits_inj'. intros i Hi. destruct (decide (i < Z.max w1 w2)).
  - eapply (upto_sound _ _ i) in H; [|lia]. apply sbit_eqb_eq in H.
    rewrite <- (bit_sound env kn e1), <- (bit_sound env kn e2) by (done || congruence).
    by rewrite H.
  - erewrite !bwidth_sound by (done || lia). done.
Qed.

(** ** Reification *)

Ltac find_var x env :=
  lazymatch env with
  | x :: _ => constr:(O)
  | _ :: ?env => let n := find_var x env in constr:(S n)
  end.

Ltac reify env t :=
  lazymatch t with
  | Z.land ?a ?b => let a := reify env a in let b := reify env b in constr:(BAnd a b)
  | Z.lor ?a ?b => let a := reify env a in let b := reify env b in constr:(BOr a b)
  | Z.shiftl ?a ?k => let a := reify env a in constr:(BShl a k)
  | Z.shiftr ?a ?k => let a := reify env a in constr:(BShr a k)
  | ?a mod (2 ^ ?w) => let a := reify env a in constr:(BWrap w a)
  | _ => match t with
         | _ => let n := find_var t env in constr:(BVar n)
         | _ => constr:(BCst t)
         end
  end.

(** [bitblast env kn]: the goal is an equation between bit expressions over the
    bytes of [env]; [kn] are the known bits.  Leaves [env_ok] and [known_ok]. *)
Ltac bitblast env kn :=
  lazymatch goal with
  | |- ?l = ?r =>
      let el := reify env l in let er := reify env r in
      change (denote env el = denote env er);
      apply (beq_sound env kn); [ | | vm_compute; reflexivity]
  end.

(** The flag test [x & 0x80] of a byte, as a known bit. *)
Lemma flag_testbit x : is_u8 x -> Z.testbit x 7 = truthy (Z.land x 128).
Proof.
  intros Hx. unfold truthy. change 128 with (2 ^ 7).
  assert (Hl : Z.land x (2 ^ 7) = if Z.testbit x 7 then 2 ^ 7 else 0).
  { apply Z.bits_inj'. intros i Hi. rewrite Z.land_spec, Z.pow2_bits_eqb by lia.
    destruct (Z.eqb_spec 7 i) as [<-|].
    - destruct (Z.testbit x 7); [by rewrite Z.pow2_bits_true by lia|]. by rewrite Z.bits_0.
    - rewrite andb_false_r. destruct (Z.testbit x 7); [|by rewrite Z.bits_0].
      by rewrite Z.pow2_bits_false by lia. }
  rewrite Hl. by destruct (Z.testbit x 7).
Qed.

(** The bytes in the context, and what is known of their flag bits. *)
Ltac ctx_env acc :=
  match goal with
  | H : is_u8 ?x |- _ =>
      lazymatch acc with
      | context [x :: _] => fail
      | _ => ctx_env (x :: acc)
      end
  | _ => acc
  end.

Ltac ctx_known env n :=
  lazymatch env with
  | [] => constr:(@nil (nat * Z * bool))
  | ?x :: ?env =>
      let rest := ctx_known env (S n) in
      match goal with
      | H : Z.testbit x 7 = ?b |- _ => constr:((n, 7, b) :: rest)
      | _ => rest
      end
  end.

(** [bitblast] over the bytes of the context. *)
Ltac bitblast_bytes :=
  let env := ctx_env (@nil Z) in
  let kn := ctx_known env O in
  bitblast env kn;
  [unfold env_ok; repeat (constructor; [assumption|]); constructor
  |unfold known_ok; repeat (constructor; [assumption|]); constructor].

(** Masking with the bits from [k] up to [n]. *)
Lemma land_high_mask c k n :
  0 <= k <= n -> 0 <= c < 2 ^ n -> Z.land c (Z.shiftl (Z.ones (n - k)) k) = c / 2 ^ k * 2 ^ k.
Proof.
  intros Hk Hc. rewrite <- Z.shiftr_div_pow2, <- Z.shiftl_mul_pow2 by lia. apply Z.bits_inj'. intros i Hi.
  rewrite Z.land_spec, !Z.shiftl_spec by lia. destruct (decide (i < k)).
  - by rewrite !(Z.testbit_neg_r _ (i - k)), andb_false_r by lia.
  - rewrite Z.shiftr_spec by lia. replace (i - k + k) with i by lia.
    destruct (decide (i < n)); [rewrite Z.ones_spec_low by lia; by rewrite andb_true_r|].
    by rewrite (testbit_above n c) by lia.
Qed.

(** Masking with a field of [n] bits at position [k]. *)
Lemma land_field x n k :
  0 <= n -> 0 <= k -> Z.land x (Z.shiftl (Z.ones n) k) = (x / 2 ^ k) mod 2 ^ n * 2 ^ k.
Proof.
  intros Hn Hk. apply Z.bits_inj'. intros i Hi. rewrite Z.land_spec, Z.shiftl_spec by lia.
  destruct (decide (i < k)).
  - by rewrite Z.mul_pow2_bits_low, (Z.testbit_neg_r _ (i - k)), andb_false_r by lia.
  - rewrite Z.mul_pow2_bits by lia. destruct (decide (i - k < n)).
    + rewrite Z.ones_spec_low, Z.mod_pow2_bits_low, Z.div_pow2_bits by lia.
      replace (i - k + k) with i by lia. by rewrite andb_true_r.
    + by rewrite Z.ones_spec_high, Z.mod_pow2_bits_high, andb_false_r by lia.
Qed.
