(* ===== verification/Varint.v ===== *)
(** * Varint: variable-length and fixed-width integers of the file format

    Models the codecs of util.c in [src/whip-server/sqlite/sqlite3.c]:
    [sqlite3PutVarint], [sqlite3PutVarint32], [sqlite3GetVarint] (unrolled,
    with the three 32-bit accumulators of the source), [sqlite3GetVarint32], the
    macros [putVarint32]/[getVarint32], [sqlite3VarintLen],
    [sqlite3Get4byte]/[sqlite3Put4byte] and [get2byte]/[put2byte].  A writer
    returns the bytes it stores at [p[0..n)]; a reader takes the bytes from [p]
    on and is [None] when it would read past them. *)
From S2P Require Import Prelude Bits.

Definition SLOT_2_0 : Z := 0x001fc07f.
Definition SLOT_4_2_0 : Z := 0xf01fc07f.
Definition SQLITE_MAX_U32 : Z := 0xffffffff.

(** [a << k] on a u32 and on a u64. *)
Definition shl32 (a k : Z) : Z := u32 (Z.shiftl a k).
Definition shl64 (a k : Z) : Z := u64 (Z.shiftl a k).

(** The do-while loop that fills [buf[10]], least significant digit first. The
    fuel is the room left in [buf]. *)
Fixpoint put_loop (room : nat) (v : Z) : option (list Z) :=
  match room with
  | O => None
  | S room =>
      let c := u8 (Z.lor (Z.land v 0x7f) 0x80) in
      let v := Z.shiftr v 7 in
      if v =? 0 then Some [c] else buf ← put_loop room v; Some (c :: buf)
  end.

(** The for loop of the nine-byte case, from [p[7]] down to [p[0]]. *)
Fixpoint put_high (n : nat) (v : Z) : list Z :=
  match n with
  | O => []
  | S n => put_high n (Z.shiftr v 7) ++ [u8 (Z.lor (Z.land v 0x7f) 0x80)]
  end.

Definition sqlite3PutVarint (v : Z) : option (list Z) :=
  if truthy (Z.land v (shl64 0xff000000 32)) then
    Some (put_high 8 (Z.shiftr v 8) ++ [u8 v])
  else
    buf ← put_loop 10 v;
    match buf with
    | [] => None
    | c :: cs => Some (rev (Z.land c 0x7f :: cs))
    end.

Definition sqlite3PutVarint32 (v : Z) : option (list Z) :=
  if Z.land v (u32 (Z.lnot 0x3fff)) =? 0 then
    Some [u8 (Z.lor (Z.shiftr v 7) 0x80); u8 (Z.land v 0x7f)]
  else sqlite3PutVarint v.

Definition putVarint32 (v : Z) : option (list Z) :=
  if v <? 0x80 then Some [u8 v] else sqlite3PutVarint32 v.

Definition sqlite3GetVarint (p : list Z) : option (Z * Z) :=
  a ← rd p 0;
  (* a: p0 (unmasked) *)
  if negb (truthy (Z.land a 0x80)) then Some (1, a) else
  b ← rd p 1;
  (* b: p1 (unmasked) *)
  if negb (truthy (Z.land b 0x80)) then
    let a := Z.land a 0x7f in
    let a := shl32 a 7 in
    let a := Z.lor a b in
    Some (2, a)
  else
  c ← rd p 2;
  let a := Z.lor (shl32 a 14) c in
  (* a: p0<<14 | p2 (unmasked) *)
  if negb (truthy (Z.land a 0x80)) then
    let a := Z.land a SLOT_2_0 in
    let b := Z.land b 0x7f in
    let b := shl32 b 7 in
    let a := Z.lor a b in
    Some (3, a)
  else
  let a := Z.land a SLOT_2_0 in
  c ← rd p 3;
  let b := Z.lor (shl32 b 14) c in
  (* b: p1<<14 | p3 (unmasked) *)
  if negb (truthy (Z.land b 0x80)) then
    let b := Z.land b SLOT_2_0 in
    let a := shl32 a 7 in
    let a := Z.lor a b in
    Some (4, a)
  else
  let b := Z.land b SLOT_2_0 in
  let s := a in
  (* s: p0<<14 | p2 (masked) *)
  c ← rd p 4;
  let a := Z.lor (shl32 a 14) c in
  (* a: p0<<28 | p2<<14 | p4 (unmasked) *)
  if negb (truthy (Z.land a 0x80)) then
    let b := shl32 b 7 in
    let a := Z.lor a b in
    let s := Z.shiftr s 18 in
    Some (5, Z.lor (shl64 s 32) a)
  else
  let s := shl32 s 7 in
  let s := Z.lor s b in
  (* s: p0<<21 | p1<<14 | p2<<7 | p3 (masked) *)
  c ← rd p 5;
  let b := Z.lor (shl32 b 14) c in
  (* b: p1<<28 | p3<<14 | p5 (unmasked) *)
  if negb (truthy (Z.land b 0x80)) then
    let a := Z.land a SLOT_2_0 in
    let a := shl32 a 7 in
    let a := Z.lor a b in
    let s := Z.shiftr s 18 in
    Some (6, Z.lor (shl64 s 32) a)
  else
  c ← rd p 6;
  let a := Z.lor (shl32 a 14) c in
  (* a: p2<<28 | p4<<14 | p6 (unmasked) *)
  if negb (truthy (Z.land a 0x80)) then
    let a := Z.land a SLOT_4_2_0 in
    let b := Z.land b SLOT_2_0 in
    let b := shl32 b 7 in
    let a := Z.lor a b in
    let s := Z.shiftr s 11 in
    Some (7, Z.lor (shl64 s 32) a)
  else
  let a := Z.land a SLOT_2_0 in
  c ← rd p 7;
  let b := Z.lor (shl32 b 14) c in
  (* b: p3<<28 | p5<<14 | p7 (unmasked) *)
  if negb (truthy (Z.land b 0x80)) then
    let b := Z.land b SLOT_4_2_0 in
    let a := shl32 a 7 in
    let a := Z.lor a b in
    let s := Z.shiftr s 4 in
    Some (8, Z.lor (shl64 s 32) a)
  else
  c ← rd p 8;
  let a := Z.lor (shl32 a 15) c in
  (* a: p4<<29 | p6<<15 | p8 (unmasked) *)
  let b := Z.land b SLOT_2_0 in
  let b := shl32 b 8 in
  let a := Z.lor a b in
  let s := shl32 s 4 in
  b ← rd p (8 - 4);
  let b := Z.land b 0x7f in
  let b := Z.shiftr b 3 in
  let s := Z.lor s b in
  Some (9, Z.lor (shl64 s 32) a).

Definition sqlite3GetVarint32 (p : list Z) : option (Z * Z) :=
  a ← rd p 0;
  b ← rd p 1;
  if negb (truthy (Z.land b 0x80)) then
    let a := Z.land a 0x7f in
    let a := shl32 a 7 in
    Some (2, Z.lor a b)
  else
  c ← rd p 2;
  let a := Z.lor (shl32 a 14) c in
  if negb (truthy (Z.land a 0x80)) then
    let a := Z.land a (Z.lor (Z.shiftl 0x7f 14) 0x7f) in
    let b := Z.land b 0x7f in
    let b := shl32 b 7 in
    Some (3, Z.lor a b)
  else
  '(n, v64) ← sqlite3GetVarint p;
  if negb (Z.land v64 SQLITE_MAX_U32 =? v64) then Some (n, 0xffffffff)
  else Some (n, u32 v64).

(** The macro all callers use: the one-byte case inline. *)
Definition getVarint32 (p : list Z) : option (Z * Z) :=
  a ← rd p 0;
  if a <? 0x80 then Some (1, a) else sqlite3GetVarint32 p.

(** do { i++; v >>= 7; } while( v!=0 && ALWAYS(i<9) ); the fuel is [9 - i]. *)
Fixpoint varintLen_loop (fuel : nat) (i v : Z) : Z :=
  let i := i + 1 in
  let v := Z.shiftr v 7 in
  match fuel with
  | O => i
  | S fuel => if negb (v =? 0) && (i <? 9) then varintLen_loop fuel i v else i
  end.

Definition sqlite3VarintLen (v : Z) : Z := varintLen_loop 9 0 v.

Definition sqlite3Get4byte (p : list Z) : option Z :=
  p0 ← rd p 0; p1 ← rd p 1; p2 ← rd p 2; p3 ← rd p 3;
  Some (u32 (Z.lor (Z.lor (Z.lor (Z.shiftl p0 24) (Z.shiftl p1 16)) (Z.shiftl p2 8)) p3)).

Definition sqlite3Put4byte (v : Z) : list Z :=
  [u8 (Z.shiftr v 24); u8 (Z.shiftr v 16); u8 (Z.shiftr v 8); u8 v].

Definition get2byte (p : list Z) : option Z :=
  p0 ← rd p 0; p1 ← rd p 1; Some (Z.lor (Z.shiftl p0 8) p1).

Definition put2byte (v : Z) : list Z := [u8 (Z.shiftr v 8); u8 v].

(** ** The format, as the comment before [sqlite3PutVarint] states it

    Seven bits per byte, most significant first, the high bit set on every byte
    but the last; a ninth byte carries eight bits. [k] bytes of the flagged kind
    may still come, [i] have been read. *)
Fixpoint varint_ref (k : nat) (i acc : Z) (p : list Z) {struct p} : option (Z * Z) :=
  match p with
  | [] => None
  | c :: p =>
      match k with
      | O => Some (i + 1, Z.lor (Z.shiftl acc 8) c)
      | S k =>
          if negb (truthy (Z.land c 0x80)) then Some (i + 1, Z.lor (Z.shiftl acc 7) c)
          else varint_ref k (i + 1) (Z.lor (Z.shiftl acc 7) (Z.land c 0x7f)) p
      end
  end.

Definition varint_spec (p : list Z) : option (Z * Z) := varint_ref 8 0 0 p.

(** ** The unrolled decoder implements the format *)

Lemma land_shl32_128 x : Z.land (shl32 x 14) 0x80 = 0.
Proof.
  unfold shl32, u32. apply Z.bits_inj'. intros i Hi. rewrite Z.land_spec, Z.bits_0.
  change 0x80 with (2 ^ 7). rewrite Z.pow2_bits_eqb by lia.
  destruct (Z.eqb_spec 7 i) as [<-|]; [|by rewrite andb_false_r].
  rewrite Z.mod_pow2_bits_low, Z.shiftl_spec_low by lia. done.
Qed.

Lemma flag_shl32 x c : Z.land (Z.lor (shl32 x 14) c) 0x80 = Z.land c 0x80.
Proof. by rewrite Z.land_lor_distr_l, land_shl32_128. Qed.

(** Case on the continuation flag of byte [c], keeping it as a known bit. *)
Ltac flag_case c H :=
  rewrite ?flag_shl32;
  lazymatch goal with
  | |- context [negb (truthy (Z.land c 0x80))] =>
      let F := fresh "F" in
      pose proof (flag_testbit c H) as F;
      destruct (truthy (Z.land c 0x80)); cbn [negb]
  end.

Ltac varint_bits :=
  do 2 f_equal; unfold shl32, shl64, u32, u64, SLOT_2_0, SLOT_4_2_0; bitblast_bytes.

(** One more byte: the decoder and the specification both read it or both stop,
    and where it ends the number the two values are the same bits. *)
Ltac varint_byte Hp p c H :=
  destruct Hp as [|c p H Hp]; [first [done | by intros <-]|]; cbn [varint_ref];
  repeat match goal with |- context [rd (?x :: ?l) ?i] =>
    let r := eval cbn in ((x :: l) !! Z.to_nat i) in
    change (rd (x :: l) i) with r end;
  simpl mbind; cbv zeta.

Lemma sqlite3GetVarint_spec p : Forall is_u8 p -> sqlite3GetVarint p = varint_spec p.
Proof.
  unfold sqlite3GetVarint, varint_spec. intros Hp.
  varint_byte Hp p p0 H0. flag_case p0 H0; [|done].
  varint_byte Hp p p1 H1. flag_case p1 H1; [|varint_bits].
  varint_byte Hp p p2 H2. flag_case p2 H2; [|varint_bits].
  varint_byte Hp p p3 H3. flag_case p3 H3; [|varint_bits].
  varint_byte Hp p p4 H4. flag_case p4 H4; [|varint_bits].
  varint_byte Hp p p5 H5. flag_case p5 H5; [|varint_bits].
  varint_byte Hp p p6 H6. flag_case p6 H6; [|varint_bits].
  varint_byte Hp p p7 H7. flag_case p7 H7; [|varint_bits].
  varint_byte Hp p p8 H8. varint_bits.
Qed.

(** ** Arithmetic reading of the format *)

Lemma flag_ltb c : is_u8 c -> truthy (Z.land c 0x80) = negb (c <? 128).
Proof.
  intros Hc. rewrite <- flag_testbit by done. rewrite Z.testbit_eqb by lia.
  unfold is_u8 in Hc. destruct (Z.ltb_spec c 128); apply Z.eqb_eq || apply Z.eqb_neq;
    cbn [negb]; change (2 ^ 7) with 128; dlia.
Qed.

Lemma lor_shiftl_add acc c k : 0 <= k -> 0 <= c < 2 ^ k -> Z.lor (Z.shiftl acc k) c = acc * 2 ^ k + c.
Proof.
  intros Hk Hc. rewrite <- Z.shiftl_mul_pow2 by done. symmetry. rewrite Z.add_nocarry_lxor.
  - rewrite Z.lxor_lor; [done|]. apply Z.bits_inj'. intros i Hi. rewrite Z.land_spec, Z.bits_0.
    destruct (decide (i < k)); [by rewrite Z.shiftl_spec_low by lia|].
    rewrite (testbit_above k c) by lia. by rewrite andb_false_r.
  - apply Z.bits_inj'. intros i Hi. rewrite Z.land_spec, Z.bits_0.
    destruct (decide (i < k)); [by rewrite Z.shiftl_spec_low by lia|].
    rewrite (testbit_above k c) by lia. by rewrite andb_false_r.
Qed.

Lemma land_0x7f c : Z.land c 0x7f = c mod 128.
Proof. change 0x7f with (Z.ones 7). by rewrite Z.land_ones by lia. Qed.

Lemma land_max_u32 v : Z.land v SQLITE_MAX_U32 = v mod 2 ^ 32.
Proof. change SQLITE_MAX_U32 with (Z.ones 32). by rewrite Z.land_ones by lia. Qed.

(** One step of [varint_ref], in arithmetic. *)
Lemma varint_ref_S k i acc c p :
  is_u8 c ->
  varint_ref (S k) i acc (c :: p) =
    if c <? 128 then Some (i + 1, acc * 128 + c)
    else varint_ref k (i + 1) (acc * 128 + c mod 128) p.
Proof.
  intros Hc. cbn [varint_ref]. rewrite flag_ltb, negb_involutive by done. unfold is_u8 in Hc.
  destruct (Z.ltb_spec c 128).
  - by rewrite (lor_shiftl_add acc c 7) by (change (2 ^ 7) with 128; lia).
  - rewrite land_0x7f, (lor_shiftl_add acc _ 7); [done|lia|].
    apply Z.mod_pos_bound. lia.
Qed.

Lemma varint_ref_O i acc c p :
  is_u8 c -> varint_ref 0 i acc (c :: p) = Some (i + 1, acc * 256 + c).
Proof. intros Hc. cbn [varint_ref]. by rewrite (lor_shiftl_add acc c 8). Qed.

(** The length and the value of a decoded number. *)
Lemma varint_ref_bounds k i acc p n v :
  Forall is_u8 p -> 0 <= acc -> varint_ref k i acc p = Some (n, v) ->
  i < n <= i + Z.of_nat k + 1 /\ n - i <= Z.of_nat (length p) /\
  acc * 128 ^ (n - i - 1) <= v < (acc + 1) * 128 ^ (n - i - 1) * 256 /\
  (n - i <= Z.of_nat k -> v < (acc + 1) * 128 ^ (n - i)).
Proof.
  intros Hp. revert k i acc. induction Hp as [|c p Hc Hp IH]; intros k i acc Ha; [by destruct k|].
  destruct k as [|k].
  - rewrite varint_ref_O by done. intros [= <- <-]. unfold is_u8 in Hc.
    replace (i + 1 - i - 1) with 0 by lia. replace (i + 1 - i) with 1 by lia. cbn [length]. lia.
  - rewrite varint_ref_S by done. unfold is_u8 in Hc. case_bool; zbool.
    + intros [= <- <-]. replace (i + 1 - i - 1) with 0 by lia. replace (i + 1 - i) with 1 by lia.
      cbn [length]. lia.
    + intros (Hn & Hlen & Hv & Hk)%IH; [|pose proof (Z.mod_pos_bound c 128); lia].
      pose proof (Z.mod_pos_bound c 128).
      replace (n - i - 1) with (Z.succ (n - (i + 1) - 1)) by lia.
      rewrite Z.pow_succ_r by lia. replace (n - i) with (Z.succ (n - (i + 1))) by lia.
      rewrite (Z.pow_succ_r 128 (n - (i + 1))) by lia.
      set (P := 128 ^ (n - (i + 1) - 1)) in *. set (Q := 128 ^ (n - (i + 1))) in *.
      assert (0 < P) by (apply Z.pow_pos_nonneg; lia).
      assert (0 < Q) by (apply Z.pow_pos_nonneg; lia).
      cbn [length]. repeat split; (lia || nia).
Qed.

Lemma varint_spec_bounds p n v :
  Forall is_u8 p -> varint_spec p = Some (n, v) ->
  1 <= n <= 9 /\ n <= Z.of_nat (length p) /\ is_u64 v /\ (n <= 8 -> v < 128 ^ n).
Proof.
  intros Hp (Hn & Hl & Hv & Hk)%varint_ref_bounds; [|done|lia].
  rewrite Z.sub_0_r in *. repeat split; try lia.
  unfold is_u64. assert (128 ^ (n - 1) <= 128 ^ 8) by (apply Z.pow_le_mono_r; lia).
  change (128 ^ 8) with (2 ^ 56) in *. lia.
Qed.

Lemma varint_ref_count k i acc p n v : varint_ref k i acc p = Some (n, v) -> i < n.
Proof.
  revert k i acc. induction p as [|c p IH]; intros k i acc; [by destruct k|].
  destruct k as [|k]; simpl; [intros [= <- _]; lia|].
  case_bool; [intros [= <- _]; lia|]. intros ?%IH. lia.
Qed.

(** [getVarint32] on the number that the format spells: the two- and three-byte
    cases are decoded in place, longer ones by [sqlite3GetVarint]. *)
Lemma getVarint32_unroll p :
  Forall is_u8 p ->
  getVarint32 p = ('(n, v) ← varint_spec p;
    if n <=? 3 then Some (n, v)
    else if negb (Z.land v SQLITE_MAX_U32 =? v) then Some (n, 0xffffffff) else Some (n, u32 v)).
Proof.
  intros Hp. unfold getVarint32, sqlite3GetVarint32. rewrite (sqlite3GetVarint_spec p) by done.
  generalize (eq_refl (varint_spec p)). generalize (varint_spec p) at 2 3 4. intros r.
  unfold varint_spec.
  varint_byte Hp p p0 H0.
  rewrite <- (negb_involutive (p0 <? 128)), <- (flag_ltb p0) by done.
  flag_case p0 H0; [|by intros <-].
  varint_byte Hp p p1 H1. flag_case p1 H1; [|intros <-; simpl; varint_bits].
  varint_byte Hp p p2 H2. flag_case p2 H2; [|intros <-; simpl; varint_bits].
  intros E. destruct r as [[n v]|]; [|done]. simpl.
  apply varint_ref_count in E. destruct (Z.leb_spec n 3); [lia|done].
Qed.

Lemma saturate_u32 (n v : Z) :
  0 <= v ->
  (if negb (Z.land v SQLITE_MAX_U32 =? v) then Some (n, 0xffffffff) else Some (n, u32 v))
  = Some (n, Z.min v SQLITE_MAX_U32).
Proof.
  intros Hv. rewrite land_max_u32. unfold u32. case_bool; zbool; do 2 f_equal; unfold SQLITE_MAX_U32.
  - destruct (decide (v < 2 ^ 32)); [rewrite Z.mod_small in *; lia|lia].
  - pose proof (Z.mod_pos_bound v (2 ^ 32)). lia.
Qed.

(** ** The encoders *)

(** All digits of [put_loop], flagged, decode to the number. *)
Lemma put_loop_digit v : 0 <= v -> u8 (Z.lor (Z.land v 0x7f) 0x80) = v mod 128 + 128.
Proof.
  intros Hv. rewrite land_0x7f. pose proof (Z.mod_pos_bound v 128).
  assert (Z.lor (v mod 128) 0x80 = v mod 128 + 128) as ->.
  { rewrite Z.lor_comm. change (Z.lor 0x80 (v mod 128)) with (Z.lor (Z.shiftl 1 7) (v mod 128)).
    rewrite (lor_shiftl_add 1 _ 7); [lia|lia|]. change (2 ^ 7) with 128. lia. }
  apply u8_small. unfold is_u8. lia.
Qed.

Lemma put_loop_decodes f v buf k i acc q :
  0 <= v -> put_loop f v = Some buf -> (length buf <= k)%nat ->
  varint_ref k i acc (rev buf ++ q) =
  varint_ref (k - length buf) (i + Z.of_nat (length buf)) (acc * 128 ^ Z.of_nat (length buf) + v) q.
Proof.
  revert v buf k q. induction f as [|f IH]; intros v buf k q Hv; cbn [put_loop]; [done|].
  rewrite put_loop_digit, Z.shiftr_div_pow2 by lia. change (2 ^ 7) with 128.
  pose proof (Z.mod_pos_bound v 128). set (d := v mod 128 + 128).
  assert (Hd : is_u8 d) by (unfold is_u8; lia).
  assert (Hdm : d mod 128 = v mod 128) by (unfold d; dlia).
  case_bool; zbool.
  - intros [= <-] Hk. cbn [rev app length] in *. destruct k as [|k]; [lia|].
    rewrite varint_ref_S by done. destruct (Z.ltb_spec d 128); [lia|]. rewrite Hdm.
    rewrite Nat.sub_succ, Nat.sub_0_r. change (128 ^ Z.of_nat 1) with 128. f_equal. dlia.
  - destruct (put_loop f (v / 128)) as [b|] eqn:E; [|done]. intros [= <-] Hk. cbn [rev app length] in *.
    rewrite <- app_assoc. cbn [app]. rewrite (IH (v / 128) b) by (done || lia || apply Z.div_pos; lia).
    destruct (k - length b)%nat as [|k'] eqn:Ek; [lia|].
    rewrite varint_ref_S by done. destruct (Z.ltb_spec d 128); [lia|]. rewrite Hdm.
    replace (k - S (length b))%nat with k' by lia. f_equal; [lia|].
    rewrite Nat2Z.inj_succ, Z.pow_succ_r by lia. dlia.
Qed.

Lemma put_loop_total f n v :
  0 <= v < 128 ^ Z.of_nat n -> (0 < n <= f)%nat ->
  exists c buf, put_loop f v = Some (c :: buf) /\ c = v mod 128 + 128 /\
    (length buf < n)%nat /\ Forall is_u8 (c :: buf) /\
    (if v / 128 =? 0 then buf = [] else put_loop (f - 1) (v / 128) = Some buf).
Proof.
  revert n v. induction f as [|f IH]; intros n v Hv Hn; [lia|]. cbn [put_loop].
  rewrite put_loop_digit, Z.shiftr_div_pow2 by lia. change (2 ^ 7) with 128.
  pose proof (Z.mod_pos_bound v 128).
  assert (is_u8 (v mod 128 + 128)) by (unfold is_u8; lia).
  case_bool; zbool.
  - exists (v mod 128 + 128), []. split_and!; [done|done|simpl; lia|by apply Forall_singleton|done].
  - destruct n as [|n]; [lia|]. rewrite Nat2Z.inj_succ, Z.pow_succ_r in Hv by lia.
    destruct n as [|n]; [simpl in Hv; dlia|].
    destruct (IH (S n) (v / 128)) as (c & buf & Hb & Hc & Hlen & Hall & _); [dlia|lia|].
    exists (v mod 128 + 128), (c :: buf). rewrite Hb. simpl.
    split_and!; [done|done|lia|by constructor|by rewrite Nat.sub_0_r].
Qed.

Lemma put_high_decodes n v k i acc q :
  0 <= v -> (n <= k)%nat ->
  varint_ref k i acc (put_high n v ++ q) =
  varint_ref (k - n) (i + Z.of_nat n) (acc * 128 ^ Z.of_nat n + v mod 128 ^ Z.of_nat n) q.
Proof.
  revert v k q. induction n as [|n IH]; intros v k q Hv Hk.
  - cbn [put_high app]. rewrite Nat.sub_0_r, Z.mod_1_r. f_equal; lia.
  - cbn [put_high]. rewrite put_loop_digit, Z.shiftr_div_pow2 by lia. change (2 ^ 7) with 128.
    pose proof (Z.mod_pos_bound v 128). rewrite <- app_assoc. cbn [app].
    rewrite IH by (dlia || lia). destruct (k - n)%nat as [|k'] eqn:Ek; [lia|].
    rewrite varint_ref_S by (unfold is_u8; lia). destruct (Z.ltb_spec (v mod 128 + 128) 128); [lia|].
    replace (k - S n)%nat with k' by lia. f_equal; [lia|].
    rewrite Nat2Z.inj_succ, Z.pow_succ_r by lia.
    rewrite (Z.rem_mul_r v 128) by (apply Z.pow_nonzero || idtac; lia).
    replace ((v mod 128 + 128) mod 128) with (v mod 128) by dlia. lia.
Qed.

Lemma put_high_u8 n v : 0 <= v -> Forall is_u8 (put_high n v) /\ length (put_high n v) = n.
Proof.
  revert v. induction n as [|n IH]; intros v Hv; cbn [put_high]; [done|].
  rewrite put_loop_digit, Z.shiftr_div_pow2 by lia. change (2 ^ 7) with 128.
  pose proof (Z.mod_pos_bound v 128). destruct (IH (v / 128)) as [IH1 IH2]; [dlia|].
  rewrite length_app, IH2, Forall_app. split; [|simpl; lia].
  split; [done|]. apply Forall_singleton. unfold is_u8. lia.
Qed.

Lemma nine_byte_test v : is_u64 v -> truthy (Z.land v (shl64 0xff000000 32)) = negb (v <? 2 ^ 56).
Proof.
  intros Hv. unfold is_u64 in Hv. unfold truthy. change (shl64 0xff000000 32) with (Z.shiftl (Z.ones 8) 56).
  change (Z.ones 8) with (Z.ones (64 - 56)). rewrite land_high_mask by lia.
  destruct (Z.ltb_spec v (2 ^ 56)).
  - apply negb_false_iff, Z.eqb_eq. dlia.
  - apply negb_true_iff, Z.eqb_neq. dlia.
Qed.

(** What [sqlite3PutVarint] stores, read back by the format. *)
Lemma sqlite3PutVarint_decodes v :
  is_u64 v ->
  exists bs, sqlite3PutVarint v = Some bs /\ (1 <= length bs <= 9)%nat /\ Forall is_u8 bs /\
    forall rest, varint_spec (bs ++ rest) = Some (Z.of_nat (length bs), v).
Proof.
  intros Hv. unfold sqlite3PutVarint, varint_spec. rewrite nine_byte_test by done.
  unfold is_u64 in Hv. destruct (Z.ltb_spec v (2 ^ 56)) as [Hs|Hs]; cbn [negb].
  - destruct (put_loop_total 10 8 v) as (c & buf & Hb & -> & Hlen & Hall & Hrest);
      [change (128 ^ Z.of_nat 8) with (2 ^ 56); lia|lia|].
    rewrite Hb. simpl mbind. pose proof (Z.mod_pos_bound v 128). rewrite land_0x7f.
    replace ((v mod 128 + 128) mod 128) with (v mod 128) by dlia.
    inversion_clear Hall as [|? ? _ Hall0]. cbn [rev]. eexists; split; [done|].
    rewrite length_app, length_rev. simpl length. split; [lia|]. split.
    { apply Forall_app; split; [by apply Forall_rev|]. apply Forall_singleton. unfold is_u8. lia. }
    intros rest. rewrite <- app_assoc. cbn [app]. revert Hrest. case_bool; zbool.
    + intros ->. cbn [rev app length]. rewrite varint_ref_S by (unfold is_u8; lia).
      destruct (Z.ltb_spec (v mod 128) 128); [|lia]. do 2 f_equal. dlia.
    + intros Hl. rewrite (put_loop_decodes 9 (v / 128) buf) by (done || lia || apply Z.div_pos; lia).
      destruct (8 - length buf)%nat as [|k] eqn:Ek; [lia|].
      rewrite varint_ref_S by (unfold is_u8; lia). destruct (Z.ltb_spec (v mod 128) 128); [|lia].
      do 2 f_equal; [lia|dlia].
  - rewrite Z.shiftr_div_pow2 by lia. eexists; split; [done|].
    destruct (put_high_u8 8 (v / 2 ^ 8)) as [H1 H2]; [apply Z.div_pos; lia|].
    rewrite length_app, H2. split; [simpl; lia|]. split.
    { apply Forall_app; split; [done|]. apply Forall_singleton, u8_range. }
    intros rest. rewrite <- app_assoc. cbn [app].
    rewrite put_high_decodes by (lia || apply Z.div_pos; lia).
    change (8 - 8)%nat with O. rewrite varint_ref_O by apply u8_range.
    unfold u8. do 2 f_equal. change (128 ^ Z.of_nat 8) with (2 ^ 56).
    rewrite (Z.mod_small (v / 2 ^ 8)) by dlia. dlia.
Qed.

Lemma varintLen_loop_put f v buf n i :
  put_loop f v = Some buf -> (length buf <= S n)%nat -> 0 <= i -> i + Z.of_nat (length buf) <= 9 ->
  varintLen_loop n i v = i + Z.of_nat (length buf).
Proof.
  revert v buf n i. induction f as [|f IH]; intros v buf n i; cbn [put_loop]; [done|].
  case_bool; zbool.
  - intros [= <-] _ _ _. destruct n; simpl; [lia|]. rewrite Heqb. simpl. lia.
  - destruct (put_loop f (Z.shiftr v 7)) as [b|] eqn:E; [|done]. intros [= <-]. cbn [length].
    intros Hn Hi H9. destruct f as [|f']; [done|].
    assert (0 < length b)%nat.
    { cbn [put_loop] in E. revert E. case_bool; [intros [= <-]; simpl; lia|].
      destruct (put_loop f' _); [|done]. intros [= <-]. simpl. lia. }
    destruct n as [|n]; [lia|]. cbn [varintLen_loop].
    replace (negb (Z.shiftr v 7 =? 0)) with true by (symmetry; apply negb_true_iff, Z.eqb_neq; done).
    destruct (Z.ltb_spec (i + 1) 9); [|lia]. cbn [andb].
    rewrite (IH _ _ n (i + 1) E) by lia. lia.
Qed.

Lemma varintLen_loop_nine f i v :
  0 <= i <= 8 -> 8 - i <= Z.of_nat f -> 128 ^ (8 - i) <= v -> varintLen_loop f i v = 9.
Proof.
  revert i v. induction f as [|f IH]; intros i v Hi Hf Hv; cbn [varintLen_loop].
  - lia.
  - rewrite Z.shiftr_div_pow2 by lia. change (2 ^ 7) with 128.
    destruct (decide (i = 8)) as [->|].
    { change (8 + 1 <? 9) with false. by rewrite andb_false_r. }
    assert (128 ^ (8 - (i + 1)) <= v / 128).
    { apply Z.div_le_lower_bound; [lia|]. rewrite <- Z.pow_succ_r by lia.
      by replace (Z.succ (8 - (i + 1))) with (8 - i) by lia. }
    assert (0 < 128 ^ (8 - (i + 1))) by (apply Z.pow_pos_nonneg; lia).
    destruct (Z.eqb_spec (v / 128) 0); [lia|]. destruct (Z.ltb_spec (i + 1) 9); [|lia].
    simpl. apply IH; lia.
Qed.

Lemma land_lnot_3fff v : is_u32 v -> (Z.land v (u32 (Z.lnot 0x3fff)) =? 0) = (v <? 2 ^ 14).
Proof.
  intros Hv. unfold is_u32 in Hv. change (u32 (Z.lnot 0x3fff)) with (Z.shiftl (Z.ones 18) 14).
  change (Z.ones 18) with (Z.ones (32 - 14)). rewrite land_high_mask by lia.
  destruct (Z.ltb_spec v (2 ^ 14)); [apply Z.eqb_eq|apply Z.eqb_neq]; dlia.
Qed.

Lemma get4_cons a b c d r :
  sqlite3Get4byte (a :: b :: c :: d :: r) =
  Some (u32 (Z.lor (Z.lor (Z.lor (Z.shiftl a 24) (Z.shiftl b 16)) (Z.shiftl c 8)) d)).
Proof. reflexivity. Qed.

Lemma get2_cons a b r : get2byte (a :: b :: r) = Some (Z.lor (Z.shiftl a 8) b).
Proof. reflexivity. Qed.

Lemma put4_get4 v rest : is_u32 v -> sqlite3Get4byte (sqlite3Put4byte v ++ rest) = Some v.
Proof.
  intros Hv. unfold sqlite3Put4byte. cbn [app]. rewrite get4_cons. f_equal. unfold u8.
  rewrite !Z.shiftr_div_pow2 by lia. unfold is_u32 in Hv.
  rewrite <- !Z.lor_assoc.
  rewrite (lor_shiftl_add _ _ 8) by (lia || apply Z.mod_pos_bound; lia).
  rewrite (lor_shiftl_add _ _ 16) by dlia. rewrite (lor_shiftl_add _ _ 24) by dlia.
  change (2 ^ 24) with 16777216. change (2 ^ 16) with 65536. change (2 ^ 8) with 256.
  unfold u32. rewrite Z.mod_small; dlia.
Qed.

Lemma put2_get2 v rest : 0 <= v < 2 ^ 16 -> get2byte (put2byte v ++ rest) = Some v.
Proof.
  intros Hv. unfold put2byte. cbn [app]. rewrite get2_cons. f_equal. unfold u8. rewrite !Z.shiftr_div_pow2 by lia.
  rewrite (lor_shiftl_add _ _ 8) by (lia || apply Z.mod_pos_bound; lia). change (2 ^ 8) with 256. dlia.
Qed.

Lemma getVarint32_spec (p : list Z) (Hp : Forall is_u8 p) :
  getVarint32 p = ('(n, v) ← sqlite3GetVarint p; Some (n, Z.min v SQLITE_MAX_U32)).
Proof.
  rewrite getVarint32_unroll, sqlite3GetVarint_spec by done.
  destruct (varint_spec p) as [[n v]|] eqn:E; [|done]. simpl.
  pose proof (varint_spec_bounds _ _ _ Hp E) as (Hn & _ & Hv & Hb). unfold is_u64 in Hv.
  rewrite saturate_u32 by lia. destruct (Z.leb_spec n 3); [|done]. do 2 f_equal.
  specialize (Hb ltac:(lia)). assert (128 ^ n <= 128 ^ 3) by (apply Z.pow_le_mono_r; lia).
  unfold SQLITE_MAX_U32. lia.
Qed.

Lemma varint_len_put (v : Z) (Hv : is_u64 v) :
  exists bs, sqlite3PutVarint v = Some bs /\ sqlite3VarintLen v = Z.of_nat (length bs) /\
    (is_u32 v -> putVarint32 v = Some bs).
Proof.
  pose proof (nine_byte_test v Hv) as H9. unfold is_u64 in Hv.
  unfold sqlite3VarintLen, putVarint32, sqlite3PutVarint32.
  destruct (Z.ltb_spec v (2 ^ 56)) as [Hs|Hs]; cbn [negb] in H9.
  - destruct (put_loop_total 10 8 v) as (c & buf & Hb & Hc & Hlen & Hall & Hrest);
      [change (128 ^ Z.of_nat 8) with (2 ^ 56); lia|lia|].
    pose proof (Z.mod_pos_bound v 128).
    assert (Hput : sqlite3PutVarint v = Some (rev (v mod 128 :: buf))).
    { unfold sqlite3PutVarint. rewrite H9, Hb. simpl mbind. rewrite land_0x7f, Hc.
      by replace ((v mod 128 + 128) mod 128) with (v mod 128) by dlia. }
    exists (rev (v mod 128 :: buf)). split; [done|]. split.
    { rewrite length_rev. rewrite (varintLen_loop_put 10 v (c :: buf)) by (done || simpl; lia). simpl; lia. }
    intros H32. rewrite land_lnot_3fff by done. rewrite Hput. revert Hrest. case_bool; zbool.
    + intros ->. destruct (Z.ltb_spec v 128); [|dlia]. cbn [rev app]. rewrite u8_small by (unfold is_u8; lia).
      by rewrite Z.mod_small by lia.
    + intros Hrest. destruct (Z.ltb_spec v 128); [dlia|].
      destruct (Z.ltb_spec v (2 ^ 14)) as [H14|]; [|done]. revert Hrest. cbn [Nat.sub put_loop].
      rewrite put_loop_digit, Z.shiftr_div_pow2 by (dlia || lia). change (2 ^ 7) with 128.
      replace (v / 128 / 128) with 0 by dlia. intros [= <-]. cbn [rev app].
      rewrite Z.shiftr_div_pow2, land_0x7f by lia. change (2 ^ 7) with 128.
      rewrite (u8_small (v mod 128)) by (unfold is_u8; lia). do 2 f_equal.
      rewrite <- (put_loop_digit (v / 128)) by dlia. rewrite land_0x7f.
      by rewrite (Z.mod_small (v / 128) 128) by dlia.
  - exists (put_high 8 (Z.shiftr v 8) ++ [u8 v]). unfold sqlite3PutVarint. rewrite H9. split; [done|].
    destruct (put_high_u8 8 (Z.shiftr v 8)) as [_ H2]; [apply Z.shiftr_nonneg; lia|].
    split; [|unfold is_u32; lia]. rewrite length_app, H2.
    by apply varintLen_loop_nine; [lia|lia|change (128 ^ (8 - 0)) with (2 ^ 56); lia].
Qed.

(** Writing and reading a 32-bit number. *)
Lemma putVarint32_spec v :
  is_u32 v ->
  exists bs, putVarint32 v = Some bs /\ Forall is_u8 bs /\ sqlite3VarintLen v = Z.of_nat (length bs) /\
    (1 <= length bs <= 5)%nat /\
    forall rest, Forall is_u8 rest -> getVarint32 (bs ++ rest) = Some (Z.of_nat (length bs), v).
Proof.
  intros Hv. assert (H64 : is_u64 v) by (unfold is_u32, is_u64 in *; lia).
  destruct (varint_len_put v H64) as (bs & E & Hl & Hp). specialize (Hp Hv).
  destruct (sqlite3PutVarint_decodes v H64) as (bs' & E' & Hlen & Hb & Hd). rewrite E in E'. injection E' as <-.
  exists bs. split_and!; try done; [lia| |].
  - destruct (decide (length bs <= 5)%nat) as [|H5]; [done|exfalso].
    assert (Hv5 : sqlite3VarintLen v <= 5); [|lia]. unfold is_u32 in Hv.
    clear -Hv. unfold sqlite3VarintLen. repeat (cbn [varintLen_loop]; try (case_bool; [|lia])).
    all: zbool; rewrite !Z.shiftr_div_pow2 in * by lia; exfalso; dlia.
  - intros rest Hr. rewrite getVarint32_spec by (by apply Forall_app). rewrite sqlite3GetVarint_spec by (by apply Forall_app).
    rewrite Hd. simpl. unfold SQLITE_MAX_U32, is_u32 in *. do 2 f_equal. lia.
Qed.

(** Encoding then decoding: for every 64-bit value, [sqlite3PutVarint] stores
    between one and nine bytes, and [sqlite3GetVarint] reads exactly those bytes
    back to the same value, whatever follows them in the buffer. *)
Theorem varint_roundtrip (v : Z) (Hv : is_u64 v) :
  exists bs, sqlite3PutVarint v = Some bs /\ (1 <= length bs <= 9)%nat /\ Forall is_u8 bs /\
    forall rest, Forall is_u8 rest ->
      sqlite3GetVarint (bs ++ rest) = Some (Z.of_nat (length bs), v).
Proof.
  destruct (sqlite3PutVarint_decodes v Hv) as (bs & Hp & Hl & Hb & Hd).
  exists bs. split_and!; try done; try lia. intros rest Hr.
  rewrite sqlite3GetVarint_spec; [apply Hd|]. by apply Forall_app.
Qed.

Lemma varint_roundtrip_witness :
  is_u64 0x1234567890abcdef /\
  exists bs, sqlite3PutVarint 0x1234567890abcdef = Some bs /\ (1 <= length bs <= 9)%nat /\
    Forall is_u8 bs /\ forall rest, Forall is_u8 rest ->
      sqlite3GetVarint (bs ++ rest) = Some (Z.of_nat (length bs), 0x1234567890abcdef).
Proof.
  assert (H : is_u64 0x1234567890abcdef) by (unfold is_u64; lia).
  split; [exact H|]. exact (varint_roundtrip _ H).
Defined.

(** The unrolled decoder, with its three 32-bit accumulators and shared
    subexpressions, computes the big-endian base-128 reading of the format on
    every byte string, and stops on truncated input exactly where it does. *)
Theorem getvarint_equals_format (p : list Z) (Hp : Forall is_u8 p) :
  sqlite3GetVarint p = varint_spec p.
Proof. exact (sqlite3GetVarint_spec p Hp). Qed.

Lemma getvarint_equals_format_witness :
  Forall is_u8 [0x81; 0x82; 0x83; 0x84; 0x05] /\
  sqlite3GetVarint [0x81; 0x82; 0x83; 0x84; 0x05] = varint_spec [0x81; 0x82; 0x83; 0x84; 0x05].
Proof.
  assert (H : Forall is_u8 [0x81; 0x82; 0x83; 0x84; 0x05]) by (repeat constructor; lia).
  split; [exact H|]. exact (getvarint_equals_format _ H).
Defined.

(** [getVarint32] returns the value of the 64-bit reader clamped to the
    largest u32, and consumes the same number of bytes. *)
Theorem getVarint32_saturates (p : list Z) (Hp : Forall is_u8 p) :
  getVarint32 p = ('(n, v) ← sqlite3GetVarint p; Some (n, Z.min v SQLITE_MAX_U32)).
Proof. exact (getVarint32_spec p Hp). Qed.

Lemma getVarint32_saturates_witness :
  Forall is_u8 [0xff; 0xff; 0xff; 0xff; 0xff; 0x7f] /\
  getVarint32 [0xff; 0xff; 0xff; 0xff; 0xff; 0x7f] = Some (6, 0xffffffff).
Proof.
  assert (H : Forall is_u8 [0xff; 0xff; 0xff; 0xff; 0xff; 0x7f]) by (repeat constructor; lia).
  split; [exact H|]. rewrite (getVarint32_saturates _ H). vm_compute. reflexivity.
Defined.

(** [sqlite3VarintLen] predicts the number of bytes [sqlite3PutVarint] stores,
    and the fast path [putVarint32] stores the very same bytes for a u32. *)
Theorem varint_length_and_fast_path (v : Z) (Hv : is_u64 v) :
  exists bs, sqlite3PutVarint v = Some bs /\ sqlite3VarintLen v = Z.of_nat (length bs) /\
    (is_u32 v -> putVarint32 v = Some bs).
Proof. exact (varint_len_put v Hv). Qed.

Lemma varint_length_and_fast_path_witness :
  is_u64 300 /\ exists bs, sqlite3PutVarint 300 = Some bs /\
    sqlite3VarintLen 300 = Z.of_nat (length bs) /\ (is_u32 300 -> putVarint32 300 = Some bs).
Proof.
  assert (H : is_u64 300) by (unfold is_u64; lia).
  split; [exact H|]. exact (varint_length_and_fast_path _ H).
Defined.
