(* ===== verification/Text.v ===== *)
(** * Text: character tables, string and number helpers, text functions

    Models, from [src/whip-server/sqlite/sqlite3.c]:
    - global.c: the tables [sqlite3UpperToLower] and [sqlite3CtypeMap] (the
      SQLITE_ASCII build) and the character-class macros;
    - util.c: [sqlite3Strlen30], [sqlite3Dequote], [sqlite3StrICmp],
      [sqlite3_strnicmp], [sqlite3IsNumber], [compare2pow63], [sqlite3Atoi64],
      [sqlite3FitsIn64Bits], [sqlite3GetInt32], [hexToInt], [sqlite3HexToBlob];
    - func.c: the text case of [quoteFunc], the conversion loops of [hexFunc],
      [upperFunc] and [lowerFunc], and the integer case of [absFunc].

    A C string is the list of its bytes; reading past the end of the list gives
    the terminating zero ([chr]).  The functions below stop at a zero byte inside
    the list too, as the C code does. *)
From S2P Require Import Prelude Bits Varint.

Definition sqlite3UpperToLower : list Z :=
  [0; 1; 2; 3; 4; 5; 6; 7; 8; 9; 10; 11; 12; 13; 14; 15;
   16; 17; 18; 19; 20; 21; 22; 23; 24; 25; 26; 27; 28; 29; 30; 31;
   32; 33; 34; 35; 36; 37; 38; 39; 40; 41; 42; 43; 44; 45; 46; 47;
   48; 49; 50; 51; 52; 53; 54; 55; 56; 57; 58; 59; 60; 61; 62; 63;
   64; 97; 98; 99; 100; 101; 102; 103; 104; 105; 106; 107; 108; 109; 110; 111;
   112; 113; 114; 115; 116; 117; 118; 119; 120; 121; 122; 91; 92; 93; 94; 95;
   96; 97; 98; 99; 100; 101; 102; 103; 104; 105; 106; 107; 108; 109; 110; 111;
   112; 113; 114; 115; 116; 117; 118; 119; 120; 121; 122; 123; 124; 125; 126; 127;
   128; 129; 130; 131; 132; 133; 134; 135; 136; 137; 138; 139; 140; 141; 142; 143;
   144; 145; 146; 147; 148; 149; 150; 151; 152; 153; 154; 155; 156; 157; 158; 159;
   160; 161; 162; 163; 164; 165; 166; 167; 168; 169; 170; 171; 172; 173; 174; 175;
   176; 177; 178; 179; 180; 181; 182; 183; 184; 185; 186; 187; 188; 189; 190; 191;
   192; 193; 194; 195; 196; 197; 198; 199; 200; 201; 202; 203; 204; 205; 206; 207;
   208; 209; 210; 211; 212; 213; 214; 215; 216; 217; 218; 219; 220; 221; 222; 223;
   224; 225; 226; 227; 228; 229; 230; 231; 232; 233; 234; 235; 236; 237; 238; 239;
   240; 241; 242; 243; 244; 245; 246; 247; 248; 249; 250; 251; 252; 253; 254; 255].

Definition sqlite3CtypeMap : list Z :=
  [0; 0; 0; 0; 0; 0; 0; 0; 0; 1; 1; 1; 1; 1; 0; 0;
   0; 0; 0; 0; 0; 0; 0; 0; 0; 0; 0; 0; 0; 0; 0; 0;
   1; 0; 0; 0; 64; 0; 0; 0; 0; 0; 0; 0; 0; 0; 0; 0;
   12; 12; 12; 12; 12; 12; 12; 12; 12; 12; 0; 0; 0; 0; 0; 0;
   0; 10; 10; 10; 10; 10; 10; 2; 2; 2; 2; 2; 2; 2; 2; 2;
   2; 2; 2; 2; 2; 2; 2; 2; 2; 2; 2; 0; 0; 0; 0; 64;
   0; 42; 42; 42; 42; 42; 42; 34; 34; 34; 34; 34; 34; 34; 34; 34;
   34; 34; 34; 34; 34; 34; 34; 34; 34; 34; 34; 0; 0; 0; 0; 0;
   64; 64; 64; 64; 64; 64; 64; 64; 64; 64; 64; 64; 64; 64; 64; 64;
   64; 64; 64; 64; 64; 64; 64; 64; 64; 64; 64; 64; 64; 64; 64; 64;
   64; 64; 64; 64; 64; 64; 64; 64; 64; 64; 64; 64; 64; 64; 64; 64;
   64; 64; 64; 64; 64; 64; 64; 64; 64; 64; 64; 64; 64; 64; 64; 64;
   64; 64; 64; 64; 64; 64; 64; 64; 64; 64; 64; 64; 64; 64; 64; 64;
   64; 64; 64; 64; 64; 64; 64; 64; 64; 64; 64; 64; 64; 64; 64; 64;
   64; 64; 64; 64; 64; 64; 64; 64; 64; 64; 64; 64; 64; 64; 64; 64;
   64; 64; 64; 64; 64; 64; 64; 64; 64; 64; 64; 64; 64; 64; 64; 64].

Definition utl (c : Z) : Z := nth (Z.to_nat c) sqlite3UpperToLower 0.
Definition ctype (c : Z) : Z := nth (Z.to_nat c) sqlite3CtypeMap 0.
Definition sqlite3Isspace (c : Z) : bool := truthy (Z.land (ctype c) 0x01).
Definition sqlite3Isalpha (c : Z) : bool := truthy (Z.land (ctype c) 0x02).
Definition sqlite3Isdigit (c : Z) : bool := truthy (Z.land (ctype c) 0x04).
Definition sqlite3Isalnum (c : Z) : bool := truthy (Z.land (ctype c) 0x06).
Definition sqlite3Isxdigit (c : Z) : bool := truthy (Z.land (ctype c) 0x08).
Definition sqlite3Toupper (c : Z) : Z := Z.land c (Z.lnot (Z.land (ctype c) 0x20)).
Definition sqlite3Tolower (c : Z) : Z := utl c.

(** ** util.c *)

Fixpoint strlen (z : list Z) : Z :=
  match z with
  | [] => 0
  | c :: z => if c =? 0 then 0 else 1 + strlen z
  end.

Definition sqlite3Strlen30 (z : option (list Z)) : Z :=
  match z with
  | None => 0
  | Some z => Z.land 0x3fffffff (i32 (strlen z))
  end.

(** The for loop of [sqlite3Dequote] from [z[i]] on: the bytes stored at [z[j..]]. *)
Fixpoint dequote_loop (quote : Z) (z : list Z) : list Z :=
  match z with
  | [] => []
  | c :: z1 =>
      if c =? 0 then [] else
      if c =? quote then
        match z1 with
        | c' :: z2 => if c' =? quote then quote :: dequote_loop quote z2 else []
        | [] => []
        end
      else c :: dequote_loop quote z1
  end.

(** [None] is the return value -1 (no dequoting, string unchanged); [Some s]
    leaves [s] in [z] and returns its length. *)
Definition sqlite3Dequote (z : option (list Z)) : option (list Z) :=
  match z with
  | None => None
  | Some z =>
      let quote := chr z in
      if (quote =? 39) || (quote =? 34) || (quote =? 96) then Some (dequote_loop quote (tl z))
      else if quote =? 91 then Some (dequote_loop 93 (tl z))
      else None
  end.

Fixpoint sqlite3StrICmp (a b : list Z) : Z :=
  match a with
  | [] => utl 0 - utl (chr b)
  | x :: a' =>
      if negb (x =? 0) && (utl x =? utl (chr b)) then sqlite3StrICmp a' (tl b)
      else utl x - utl (chr b)
  end.

Fixpoint strnicmp_loop (n : nat) (a b : list Z) : Z :=
  match n with
  | O => 0
  | S n =>
      if negb (chr a =? 0) && (utl (chr a) =? utl (chr b)) then strnicmp_loop n (tl a) (tl b)
      else utl (chr a) - utl (chr b)
  end.

Definition sqlite3_strnicmp (zLeft zRight : list Z) (N : Z) : Z :=
  strnicmp_loop (Z.to_nat N) zLeft zRight.

Inductive enc := SQLITE_UTF8 | SQLITE_UTF16LE | SQLITE_UTF16BE.

(** while( sqlite3Isdigit( *z) ){ z += incr; }  The fuel is the length of [z]. *)
Fixpoint skip_digits (fuel : nat) (incr : nat) (z : list Z) : list Z :=
  match fuel with
  | O => z
  | S fuel => if sqlite3Isdigit (chr z) then skip_digits fuel incr (drop incr z) else z
  end.

(** The result is (return value, *realnum if it was stored). *)
Definition sqlite3IsNumber (z : list Z) (e : enc) : bool * option bool :=
  let incr := match e with SQLITE_UTF8 => 1%nat | _ => 2%nat end in
  let digits z := skip_digits (length z) incr z in
  let z := match e with SQLITE_UTF16BE => tl z | _ => z end in
  let z := if (chr z =? 45) || (chr z =? 43) then drop incr z else z in
  if negb (sqlite3Isdigit (chr z)) then (false, None) else
  let z := drop incr z in
  let realnum := false in
  let z := digits z in
  let frac :=
    if chr z =? 46 then
      let z := drop incr z in
      if negb (sqlite3Isdigit (chr z)) then None else Some (digits z, true)
    else Some (z, realnum) in
  match frac with
  | None => (false, Some false)
  | Some (z, realnum) =>
      if (chr z =? 101) || (chr z =? 69) then
        let z := drop incr z in
        let z := if (chr z =? 43) || (chr z =? 45) then drop incr z else z in
        if negb (sqlite3Isdigit (chr z)) then (false, Some realnum)
        else (chr (digits z) =? 0, Some true)
      else (chr z =? 0, Some realnum)
  end.

(** The sign of memcmp() on the first [n] bytes. *)
Fixpoint memcmp (a b : list Z) (n : nat) : Z :=
  match n with
  | O => 0
  | S n =>
      if chr a <? chr b then -1 else if chr b <? chr a then 1 else memcmp (tl a) (tl b) n
  end.

(** The bytes of "922337203685477580". *)
Definition pow63_text : list Z :=
  [57; 50; 50; 51; 51; 55; 50; 48; 51; 54; 56; 53; 52; 55; 55; 53; 56; 48].

Definition compare2pow63 (zNum : list Z) : Z :=
  let c := memcmp zNum pow63_text 18 * 10 in
  if c =? 0 then chr (drop 18 zNum) - 56 else c.

Fixpoint skip_spaces (z : list Z) : list Z :=
  match z with
  | [] => []
  | c :: z' => if sqlite3Isspace c then skip_spaces z' else z
  end.

Fixpoint skip_zeros (z : list Z) : list Z :=
  match z with
  | [] => []
  | c :: z' => if c =? 48 then skip_zeros z' else z
  end.

(** for(i=0; (c=zNum[i])>='0' && c<='9'; i++){ v = v*10 + c - '0'; }: the i64
    accumulator, the count and the byte the loop stops on. *)
Fixpoint atoi_loop (z : list Z) (v i : Z) : Z * Z * Z :=
  match z with
  | [] => (v, i, 0)
  | c :: z => if (48 <=? c) && (c <=? 57) then atoi_loop z (i64 (v * 10 + c - 48)) (i + 1) else (v, i, c)
  end.

(** The rest of [sqlite3Atoi64] once the sign is read: (return value, *pNum). *)
Definition atoi64_unsigned (neg : Z) (zNum : list Z) : bool * Z :=
  let zStart := zNum in
  let zNum := skip_zeros zNum in
  let '(v, i, c) := atoi_loop zNum 0 0 in
  let pNum := if truthy neg then i64 (- v) else v in
  if negb (c =? 0) || ((i =? 0) && (length zStart =? length zNum)%nat) || (19 <? i) then (false, pNum)
  else if i <? 19 then (true, pNum)
  else (compare2pow63 zNum <? neg, pNum).

Definition sqlite3Atoi64 (zNum : list Z) : bool * Z :=
  let zNum := skip_spaces zNum in
  if chr zNum =? 45 then atoi64_unsigned 1 (tl zNum)
  else if chr zNum =? 43 then atoi64_unsigned 0 (tl zNum)
  else atoi64_unsigned 0 zNum.

Definition sqlite3FitsIn64Bits (zNum : list Z) (negFlag : bool) : bool :=
  let neg := if negFlag then 1 - 0 else 0 in
  let zNum := skip_zeros zNum in
  let i := strlen zNum in
  if i <? 19 then true
  else if 19 <? i then false
  else compare2pow63 zNum <? neg.

(** for(i=0; i<11 && (c = zNum[i] - '0')>=0 && c<=9; i++){ v = v*10 + c; } *)
Fixpoint getint_loop (room : nat) (z : list Z) (v i : Z) : Z * Z :=
  match room with
  | O => (v, i)
  | S room =>
      let c := chr z - 48 in
      if (0 <=? c) && (c <=? 9) then getint_loop room (tl z) (v * 10 + c) (i + 1) else (v, i)
  end.

(** [Some v] is a true return with *pValue = v. *)
Definition sqlite3GetInt32 (zNum : list Z) : option Z :=
  let '(neg, zNum) :=
    if chr zNum =? 45 then (1, tl zNum)
    else if chr zNum =? 43 then (0, tl zNum) else (0, zNum) in
  let zNum := skip_zeros zNum in
  let '(v, i) := getint_loop 11 zNum 0 0 in
  if 10 <? i then None
  else if 2147483647 <? v - neg then None
  else Some (i32 (if truthy neg then - v else v)).

Definition hexToInt (h : Z) : Z :=
  let h := h + 9 * Z.land 1 (Z.shiftr h 6) in
  u8 (Z.land h 0xf).

(** for(i=0; i<n; i+=2) of [sqlite3HexToBlob], after its n--. *)
Definition hexByte (z : list Z) : Z :=
  u8 (Z.lor (Z.shiftl (hexToInt (chr z)) 4) (hexToInt (chr (tl z)))).

Fixpoint hexToBlob_loop (z : list Z) (n : nat) : list Z :=
  match n with
  | O => []
  | S O => [hexByte z]
  | S (S n) => hexByte z :: hexToBlob_loop (tl (tl z)) n
  end.

(** [None] is a failed allocation; the zero byte stored after the blob is not
    part of the value. *)
Definition sqlite3HexToBlob (malloc_ok : bool) (z : list Z) (n : Z) : option (list Z) :=
  if malloc_ok then Some (hexToBlob_loop z (Z.to_nat (n - 1))) else None.

(** ** func.c *)

Definition hexdigits : list Z := [48; 49; 50; 51; 52; 53; 54; 55; 56; 57; 65; 66; 67; 68; 69; 70].
Definition hexdigit (n : Z) : Z := nth (Z.to_nat n) hexdigits 0.

(** for(i=0; i<n; i++, pBlob++){ ... } of [hexFunc]. *)
Fixpoint hexFunc (pBlob : list Z) : list Z :=
  match pBlob with
  | [] => []
  | c :: pBlob =>
      hexdigit (Z.land (Z.shiftr c 4) 0xf) :: hexdigit (Z.land c 0xf) :: hexFunc pBlob
  end.

(** The blob case of [quoteFunc]: X'..' around the digits. *)
Definition quoteFunc_blob (zBlob : list Z) : list Z := 88 :: 39 :: hexFunc zBlob ++ [39].

(** The text case of [quoteFunc]. *)
Fixpoint quote_body (zArg : list Z) : list Z :=
  match zArg with
  | [] => []
  | c :: zArg =>
      if c =? 0 then [] else
      if c =? 39 then c :: 39 :: quote_body zArg else c :: quote_body zArg
  end.

Definition quoteFunc_text (zArg : list Z) : list Z := 39 :: quote_body zArg ++ [39].

(** for(i=0; z1[i]; i++){ z1[i] = f(z1[i]); } and the text up to the zero. *)
Fixpoint map_text (f : Z -> Z) (z : list Z) : list Z :=
  match z with
  | [] => []
  | c :: z => if c =? 0 then [] else f c :: map_text f z
  end.

Definition upperFunc (z : list Z) : list Z := map_text sqlite3Toupper z.
Definition lowerFunc (z : list Z) : list Z := map_text sqlite3Tolower z.

(** The SQLITE_INTEGER case of [absFunc]: [None] is the "integer overflow" error. *)
Definition absFunc_int (iVal : Z) : option Z :=
  if iVal <? 0 then
    if i64 (Z.shiftl iVal 1) =? 0 then None else Some (i64 (- iVal))
  else Some iVal.

(** ** Character classes *)

Lemma byte_table (P : Z -> bool) :
  forallb P (map Z.of_nat (seq 0 256)) = true -> forall c, is_u8 c -> P c = true.
Proof.
  intros H c Hc. unfold is_u8 in Hc. rewrite forallb_forall in H. apply H.
  apply in_map_iff. exists (Z.to_nat c). split; [lia|]. apply in_seq. lia.
Qed.

Lemma utl_zero c : is_u8 c -> (utl c =? 0) = (c =? 0).
Proof. intros Hc. apply Bool.eqb_prop. revert c Hc. by apply byte_table. Qed.

Lemma utl_range c : is_u8 c -> is_u8 (utl c).
Proof.
  intros Hc. cut ((0 <=? utl c) && (utl c <? 2 ^ 8) = true); [intros; zbool; by split|].
  revert c Hc. by apply byte_table.
Qed.

Lemma isdigit_range c : is_u8 c -> sqlite3Isdigit c = (48 <=? c) && (c <=? 57).
Proof. intros Hc. apply Bool.eqb_prop. revert c Hc. by apply byte_table. Qed.

Lemma isspace_not_number c : is_u8 c -> sqlite3Isspace c = true -> c < 43.
Proof.
  intros Hc H. cut (implb (sqlite3Isspace c) (c <? 43) = true); [rewrite H; simpl; intros; by zbool|].
  clear H. revert c Hc. by apply byte_table.
Qed.

Lemma toupper_tolower c : is_u8 c -> sqlite3Tolower (sqlite3Toupper c) = sqlite3Tolower c.
Proof. intros Hc. apply Z.eqb_eq. revert c Hc. by apply byte_table. Qed.

(** ** Case-insensitive comparison *)

(** A zero-free C string. *)
Definition ctext (s : list Z) : Prop := Forall (fun c => 0 < c < 256) s.

(** Lexicographic order of byte strings, shorter first. *)
Fixpoint lexcmp (a b : list Z) : comparison :=
  match a, b with
  | [], [] => Eq
  | [], _ :: _ => Lt
  | _ :: _, [] => Gt
  | x :: a, y :: b => match x ?= y with Eq => lexcmp a b | c => c end
  end.

Lemma utl_pos c : 0 < c < 256 -> 0 < utl c.
Proof.
  intros Hc. assert (is_u8 c) by (unfold is_u8; lia). pose proof (utl_zero c) as Hz.
  pose proof (utl_range c) as [? _]; [done|]. rewrite (proj2 (Z.eqb_neq c 0)) in Hz by lia.
  specialize (Hz ltac:(done)). zbool. lia.
Qed.

Lemma strnicmp_zero n a b :
  ctext a -> ctext b ->
  strnicmp_loop n a b = 0 <-> map utl (take n a) = map utl (take n b).
Proof.
  revert a b. induction n as [|n IH]; intros a b Ha Hb; [done|]. simpl.
  destruct Ha as [|x a Hx Ha]; destruct Hb as [|y b Hy Hb]; simpl.
  - done.
  - pose proof (utl_pos y Hy). change (utl 0) with 0. split; [lia|done].
  - pose proof (utl_pos x Hx). rewrite (proj2 (Z.eqb_neq x 0)) by lia. change (utl 0) with 0.
    rewrite (proj2 (Z.eqb_neq (utl x) 0)) by lia. simpl. split; [lia|done].
  - rewrite (proj2 (Z.eqb_neq x 0)) by lia. simpl. destruct (Z.eqb_spec (utl x) (utl y)) as [E|E].
    + rewrite IH by done. split; [by intros ->; rewrite E|by intros [= _ ?]].
    + split; [lia|by intros [= ? _]].
Qed.

Lemma stricmp_lex a b :
  ctext a -> ctext b -> (sqlite3StrICmp a b ?= 0) = lexcmp (map utl a) (map utl b).
Proof.
  intros Ha. revert b. induction Ha as [|x a Hx Ha IH]; intros b Hb.
  - destruct Hb as [|y b Hy Hb]; simpl; [done|]. pose proof (utl_pos y Hy). change (utl 0) with 0.
    apply Z.compare_lt_iff. lia.
  - simpl. rewrite (proj2 (Z.eqb_neq x 0)) by lia. simpl. pose proof (utl_pos x Hx).
    destruct Hb as [|y b Hy Hb]; simpl.
    + change (utl 0) with 0. rewrite (proj2 (Z.eqb_neq (utl x) 0)) by lia. apply Z.compare_gt_iff. lia.
    + destruct (Z.eqb_spec (utl x) (utl y)) as [E|E]; [rewrite E, Z.compare_refl; by apply IH|].
      rewrite Z.compare_sub. replace (utl x - utl y - 0) with (utl x - utl y) by lia.
      rewrite <- Z.compare_sub. destruct (Z.compare_spec (utl x) (utl y)); [lia|done|done].
Qed.

(** ** Decimal numbers *)

Definition digit (c : Z) : Prop := 48 <= c <= 57.
Definition decval_from (v : Z) (ds : list Z) : Z := fold_left (fun v c => v * 10 + (c - 48)) ds v.
Definition decval (ds : list Z) : Z := decval_from 0 ds.

Lemma decval_from_bounds ds v :
  Forall digit ds -> 0 <= v ->
  v * 10 ^ Z.of_nat (length ds) <= decval_from v ds < (v + 1) * 10 ^ Z.of_nat (length ds).
Proof.
  intros Hd. revert v. induction Hd as [|c ds Hc Hd IH]; intros v Hv.
  - unfold decval_from. simpl. lia.
  - unfold digit in Hc. cbn [length]. rewrite Nat2Z.inj_succ, Z.pow_succ_r by lia.
    specialize (IH (v * 10 + (c - 48)) ltac:(lia)). unfold decval_from in *. simpl.
    assert (0 < 10 ^ Z.of_nat (length ds)) by (apply Z.pow_pos_nonneg; lia). nia.
Qed.

Lemma decval_bounds ds : Forall digit ds -> 0 <= decval ds < 10 ^ Z.of_nat (length ds).
Proof. intros Hd. pose proof (decval_from_bounds ds 0 Hd ltac:(lia)). unfold decval. lia. Qed.

Lemma decval_from_split ds v : decval_from v ds = v * 10 ^ Z.of_nat (length ds) + decval ds.
Proof.
  unfold decval. revert v. induction ds as [|c ds IH]; intros v; unfold decval_from in *; cbn [fold_left length].
  - simpl. lia.
  - rewrite IH, (IH (0 * 10 + (c - 48))), Nat2Z.inj_succ, Z.pow_succ_r by lia. lia.
Qed.

Lemma skip_zeros_decval ds :
  Forall digit ds ->
  exists k, ds = replicate k 48 ++ skip_zeros ds /\ Forall digit (skip_zeros ds) /\
    decval (skip_zeros ds) = decval ds /\ (chr (skip_zeros ds) <> 48) /\
    (skip_zeros ds <> [] -> 10 ^ (Z.of_nat (length (skip_zeros ds)) - 1) <= decval ds).
Proof.
  intros Hd. induction Hd as [|c ds Hc Hd IH].
  - exists O. simpl. split_and!; done.
  - destruct IH as (k & E & H1 & H2 & H3 & H4). simpl. destruct (Z.eqb_spec c 48) as [->|Hne].
    + exists (S k). simpl. split_and!; try done. by rewrite E at 1.
    + exists O. split_and!; try done; [by constructor|]. intros _. unfold decval, digit in *.
      cbn [length]. pose proof (decval_from_bounds ds (0 * 10 + (c - 48)) Hd ltac:(lia)).
      unfold decval_from in *. simpl fold_left. replace (Z.of_nat (S (length ds)) - 1) with (Z.of_nat (length ds)) by lia.
      assert (0 < 10 ^ Z.of_nat (length ds)) by (apply Z.pow_pos_nonneg; lia). nia.
Qed.

Lemma skip_zeros_app ds t : Forall digit ds -> chr t <> 48 -> skip_zeros (ds ++ t) = skip_zeros ds ++ t.
Proof.
  intros Hd Ht. induction Hd as [|c ds Hc Hd IH]; simpl.
  - destruct t as [|c t]; [done|]. simpl in *. by rewrite (proj2 (Z.eqb_neq c 48)).
  - by case_bool.
Qed.

Lemma i64_cong v : exists q, v = i64 v + q * 2 ^ 64.
Proof. exists ((v + 2 ^ 63) / 2 ^ 64). unfold i64. dlia. Qed.

Lemma i64_wrap_step v c : i64 (i64 v * 10 + c - 48) = i64 (v * 10 + (c - 48)).
Proof.
  destruct (i64_cong v) as [q Hq]. rewrite Hq at 2. unfold i64 at 1 3. f_equal.
  replace ((i64 v + q * 2 ^ 64) * 10 + (c - 48) + 2 ^ 63)
    with (i64 v * 10 + c - 48 + 2 ^ 63 + (10 * q) * 2 ^ 64) by lia.
  by rewrite Z.mod_add by lia.
Qed.

Lemma atoi_loop_digits ds t v i :
  Forall digit ds -> ~ digit (chr t) ->
  atoi_loop (ds ++ t) (i64 v) i = (i64 (decval_from v ds), i + Z.of_nat (length ds), chr t).
Proof.
  intros Hd Ht. revert v i. induction Hd as [|c ds Hc Hd IH]; intros v i; simpl.
  - rewrite Z.add_0_r. destruct t as [|c t]; [done|]. simpl in *. unfold digit in Ht.
    destruct (Z.leb_spec 48 c), (Z.leb_spec c 57); done || lia.
  - unfold digit in Hc. destruct (Z.leb_spec 48 c), (Z.leb_spec c 57); try lia. simpl.
    rewrite i64_wrap_step, IH. do 2 f_equal. lia.
Qed.

(** For digit strings of one length, memcmp() is the order of the numbers. *)
Lemma memcmp_digits a b t u :
  Forall digit a -> Forall digit b -> length a = length b ->
  memcmp (a ++ t) (b ++ u) (length a) = Z.sgn (decval a - decval b).
Proof.
  intros Ha. revert b. induction Ha as [|x a Hx Ha IH]; intros b Hb Hl.
  - by destruct b.
  - destruct Hb as [|y b Hy Hb]; [done|]. simpl in Hl. injection Hl as Hl. simpl. rewrite IH by done.
    change (decval (x :: a)) with (decval_from (x - 48) a). change (decval (y :: b)) with (decval_from (y - 48) b).
    rewrite (decval_from_split a), (decval_from_split b), Hl.
    pose proof (decval_bounds a Ha). pose proof (decval_bounds b Hb). rewrite Hl in *.
    set (P := 10 ^ Z.of_nat (length b)) in *. unfold digit in *.
    destruct (Z.ltb_spec x y); [symmetry; apply Z.sgn_neg; nia|].
    destruct (Z.ltb_spec y x); [symmetry; apply Z.sgn_pos; nia|].
    replace x with y by lia. f_equal. lia.
Qed.

Lemma compare2pow63_sign p d t neg :
  Forall digit p -> digit d -> length p = 18%nat -> (neg = 0 \/ neg = 1) ->
  (compare2pow63 (p ++ d :: t) <? neg) = (decval (p ++ [d]) - neg <? 2 ^ 63).
Proof.
  intros Hp Hd Hl Hneg. unfold compare2pow63.
  replace (chr (drop 18 (p ++ d :: t))) with d by (rewrite drop_app_length' by done; done).
  assert (Hm : memcmp (p ++ d :: t) pow63_text 18 = Z.sgn (decval p - 922337203685477580)).
  { rewrite <- (app_nil_r pow63_text), <- Hl. apply memcmp_digits; [done| |done].
    unfold pow63_text, digit. repeat constructor; lia. }
  rewrite Hm. replace (decval (p ++ [d])) with (decval p * 10 + (d - 48))
    by (unfold decval, decval_from; by rewrite fold_left_app).
  unfold digit in Hd. change (2 ^ 63) with 9223372036854775808.
  destruct (Z.sgn_spec (decval p - 922337203685477580)) as [[? E]|[[? E]|[? E]]]; rewrite E; simpl;
    destruct Hneg as [-> | ->]; apply Bool.eq_iff_eq_true; rewrite !Z.ltb_lt; lia.
Qed.

(** Text of an integer as [sqlite3Atoi64] accepts it: spaces, an optional sign,
    one or more digits, and then the end of the string. *)
Inductive int_text : list Z -> Z -> Prop :=
  | IntText sp sg sgn ds t :
      Forall (fun c => is_u8 c /\ sqlite3Isspace c = true) sp ->
      (sg = [] /\ sgn = 1 \/ sg = [43] /\ sgn = 1 \/ sg = [45] /\ sgn = -1) ->
      Forall digit ds -> ds <> [] -> chr t = 0 ->
      int_text (sp ++ sg ++ ds ++ t) (sgn * decval ds).

Lemma skip_spaces_app sp t :
  Forall (fun c => is_u8 c /\ sqlite3Isspace c = true) sp -> sqlite3Isspace (chr t) = false ->
  skip_spaces (sp ++ t) = t.
Proof.
  intros Hs Ht. induction Hs as [|c sp [_ Hc] Hs IH]; simpl; [|by rewrite Hc].
  destruct t as [|c t]; [done|]. simpl in *. by rewrite Ht.
Qed.

(** The part of [sqlite3Atoi64] after the sign, on a digit string. *)
Lemma atoi_tail neg ds t :
  Forall digit ds -> ds <> [] -> chr t = 0 -> (neg = 0 \/ neg = 1) ->
  atoi64_unsigned neg (ds ++ t) =
  (decval ds - neg <? 2 ^ 63,
   if truthy neg then i64 (- i64 (decval ds)) else i64 (decval ds)).
Proof.
  intros Hd Hne Ht Hneg. unfold atoi64_unsigned. cbv zeta. rewrite skip_zeros_app by (rewrite ?Ht; done).
  destruct (skip_zeros_decval ds Hd) as (k & Ek & Hz & Hv & _ & Hlow).
  change 0 with (i64 0) at 1. rewrite atoi_loop_digits by (rewrite ?Ht; unfold digit; done || lia).
  rewrite Ht. fold (decval (skip_zeros ds)). rewrite Hv. set (zs := skip_zeros ds) in *.
  assert (E0 : ((0 + Z.of_nat (length zs) =? 0) && (length (ds ++ t) =? length (zs ++ t))%nat) = false).
  { apply andb_false_iff. destruct zs as [|z zs'] eqn:Ez; [right|left; apply Z.eqb_neq; simpl; lia].
    apply Nat.eqb_neq. rewrite !length_app. destruct ds; [done|]. simpl. lia. }
  rewrite E0, Z.eqb_refl, orb_false_r. cbn [negb orb]. pose proof (decval_bounds zs Hz) as Hb. rewrite Hv in Hb.
  set (pn := if truthy neg then _ else _). rewrite Z.add_0_l.
  destruct (Z.ltb_spec 19 (Z.of_nat (length zs))) as [H20|H20].
  - f_equal. symmetry. apply Z.ltb_ge. assert (zs <> []) by (intros ->; simpl in *; lia).
    specialize (Hlow ltac:(done)).
    assert (10 ^ 19 <= 10 ^ (Z.of_nat (length zs) - 1)) by (apply Z.pow_le_mono_r; lia). lia.
  - destruct (Z.ltb_spec (Z.of_nat (length zs)) 19) as [H19|H19].
    + f_equal. symmetry. apply Z.ltb_lt.
      assert (10 ^ Z.of_nat (length zs) <= 10 ^ 18) by (apply Z.pow_le_mono_r; lia). lia.
    + f_equal. assert (Hzl : length zs = 19%nat) by lia. rewrite <- Hv. clear - Hz Hzl Hneg.
      destruct (exists_last (l := zs)) as (p & d & E); [by intros ->|].
      rewrite E in *. rewrite <- app_assoc. simpl. apply Forall_app in Hz as [H1 H2].
      inversion_clear H2. rewrite length_app in Hzl. simpl in Hzl.
      apply compare2pow63_sign; (done || lia).
Qed.

Lemma atoi64_accepts s n :
  int_text s n ->
  fst (sqlite3Atoi64 s) = (- 2 ^ 63 <=? n) && (n <? 2 ^ 63) /\
  (is_i64 n -> snd (sqlite3Atoi64 s) = n).
Proof.
  intros [sp sg sgn ds t Hsp Hsg Hd Hne Ht].
  assert (Hc : exists c ds', ds = c :: ds' /\ digit c) by (destruct Hd; [done|eauto]).
  destruct Hc as (c & ds' & Ec & Hc). unfold digit in Hc.
  assert (Hns : forall x, 43 <= x < 256 -> sqlite3Isspace x = false).
  { intros x Hx. destruct (sqlite3Isspace x) eqn:E; [|done]. apply isspace_not_number in E; [lia|unfold is_u8; lia]. }
  unfold sqlite3Atoi64. rewrite skip_spaces_app; [|done|].
  2:{ destruct Hsg as [[-> ->]|[[-> ->]|[-> ->]]]; rewrite ?Ec; simpl; apply Hns; lia. }
  pose proof (decval_bounds ds Hd) as Hb.
  destruct Hsg as [[-> ->]|[[-> ->]|[-> ->]]]; cbn [app].
  - assert (Hchr : chr (ds ++ t) = c) by (by rewrite Ec). rewrite Hchr.
    rewrite (proj2 (Z.eqb_neq c 45)), (proj2 (Z.eqb_neq c 43)) by lia.
    rewrite (atoi_tail 0 ds t) by (done || lia). cbn [fst snd truthy negb Z.eqb].
    split; [apply Bool.eq_iff_eq_true; rewrite andb_true_iff, Z.leb_le, !Z.ltb_lt; lia|].
    intros Hn. rewrite i64_small; [lia|]. by rewrite Z.mul_1_l in Hn.
  - cbn [chr tl]. change (43 =? 45) with false. change (43 =? 43) with true. cbv iota. rewrite (atoi_tail 0 ds t) by (done || lia). cbn [fst snd truthy negb Z.eqb].
    split; [apply Bool.eq_iff_eq_true; rewrite andb_true_iff, Z.leb_le, !Z.ltb_lt; lia|].
    intros Hn. rewrite i64_small; [lia|]. by rewrite Z.mul_1_l in Hn.
  - cbn [chr tl]. change (45 =? 45) with true. cbv iota. rewrite (atoi_tail 1 ds t) by (done || lia). cbn [fst snd truthy negb Z.eqb].
    split; [apply Bool.eq_iff_eq_true; rewrite andb_true_iff, Z.leb_le, !Z.ltb_lt; lia|].
    intros Hn. unfold is_i64 in Hn. unfold i64. destruct (decide (decval ds = 2 ^ 63)) as [->|]; [done|].
    rewrite (Z.mod_small (decval ds + _)) by lia. rewrite Z.mod_small by lia. lia.
Qed.

Lemma skip_spaces_split s :
  Forall is_u8 s ->
  exists sp, s = sp ++ skip_spaces s /\ Forall (fun c => is_u8 c /\ sqlite3Isspace c = true) sp.
Proof.
  induction 1 as [|c s Hc Hs (sp & E & Hsp)]; simpl; [by exists []|].
  destruct (sqlite3Isspace c) eqn:Es; [|by exists []].
  exists (c :: sp). simpl. rewrite <- E. split; [done|by constructor].
Qed.

Lemma digits_split z : exists ds t, z = ds ++ t /\ Forall digit ds /\ ~ digit (chr t).
Proof.
  induction z as [|c z (ds & t & E & Hd & Ht)].
  - exists [], []. split_and!; [done|done|]. unfold digit. simpl. lia.
  - destruct (decide (48 <= c /\ c <= 57)).
    + exists (c :: ds), t. rewrite E. split_and!; [done|by constructor|done].
    + exists [], (c :: z). by split_and!.
Qed.

Lemma atoi_unsigned_shape neg z :
  fst (atoi64_unsigned neg z) = true ->
  exists ds t, z = ds ++ t /\ Forall digit ds /\ ds <> [] /\ chr t = 0.
Proof.
  destruct (digits_split z) as (ds & t & -> & Hd & Ht). intros H. exists ds, t.
  revert H. unfold atoi64_unsigned. cbv zeta.
  rewrite skip_zeros_app by (done || (unfold digit in Ht; lia)).
  destruct (skip_zeros_decval ds Hd) as (k & Ek & Hz & _).
  change 0 with (i64 0) at 1. rewrite atoi_loop_digits by done. case_bool; [done|]. zbool. intros _.
  split_and!; try done. intros ->. simpl in *. rewrite Nat.eqb_refl in *. done.
Qed.

Lemma atoi64_sound s : Forall is_u8 s -> fst (sqlite3Atoi64 s) = true -> exists n, int_text s n.
Proof.
  intros Hs. destruct (skip_spaces_split s Hs) as (sp & E & Hsp). unfold sqlite3Atoi64.
  intros H. revert H E. generalize (skip_spaces s) as z. intros z H ->.
  destruct (Z.eqb_spec (chr z) 45) as [E45|E45]; [|destruct (Z.eqb_spec (chr z) 43) as [E43|E43]].
  - destruct z as [|c z]; [done|]. simpl in E45. subst c.
    apply atoi_unsigned_shape in H as (ds & t & E & Hd & Hne & Ht). simpl in E. subst z.
    exists (-1 * decval ds). apply (IntText sp [45]); tauto.
  - destruct z as [|c z]; [done|]. simpl in E43. subst c.
    apply atoi_unsigned_shape in H as (ds & t & E & Hd & Hne & Ht). simpl in E. subst z.
    exists (1 * decval ds). apply (IntText sp [43]); tauto.
  - apply atoi_unsigned_shape in H as (ds & t & -> & Hd & Hne & Ht).
    exists (1 * decval ds). apply (IntText sp []); tauto.
Qed.

(** ** The other number readers *)

Lemma getint_loop_spec room ds t v i :
  Forall digit ds -> ~ digit (chr t) ->
  getint_loop room (ds ++ t) v i =
  (decval_from v (take room ds), i + Z.of_nat (length (take room ds))).
Proof.
  intros Hd Ht. revert room v i. induction Hd as [|c ds Hc Hd IH]; intros [|room] v i; simpl; try by rewrite Z.add_0_r.
  - rewrite Z.add_0_r. unfold digit in Ht. destruct (Z.leb_spec 0 (chr t - 48)), (Z.leb_spec (chr t - 48) 9); done || lia.
  - unfold digit in Hc. destruct (Z.leb_spec 0 (c - 48)), (Z.leb_spec (c - 48) 9); try lia. simpl.
    rewrite IH. unfold decval_from. simpl. f_equal. lia.
Qed.

(** After the sign, the 32-bit reader accepts exactly the numbers in range. *)
Lemma getint_unsigned neg ds t :
  Forall digit ds -> ~ digit (chr t) -> (neg = 0 \/ neg = 1) ->
  (let '(v, i) := getint_loop 11 (skip_zeros (ds ++ t)) 0 0 in
   if 10 <? i then None
   else if 2147483647 <? v - neg then None
   else Some (i32 (if truthy neg then - v else v))) =
  (if 2147483647 <? decval ds - neg then None
   else Some (if truthy neg then - decval ds else decval ds)).
Proof.
  intros Hd Ht Hneg. rewrite skip_zeros_app by (done || (unfold digit in Ht; lia)).
  destruct (skip_zeros_decval ds Hd) as (k & _ & Hz & Hv & _ & Hlow). rewrite getint_loop_spec by done.
  rewrite <- Hv in *. set (zs := skip_zeros ds) in *. rewrite length_take, Z.add_0_l.
  pose proof (decval_bounds zs Hz) as Hb.
  destruct (Z.ltb_spec 10 (Z.of_nat (11 `min` length zs))) as [H|H].
  - assert (zs <> []) by (intros ->; simpl in *; lia). specialize (Hlow ltac:(done)).
    assert (10 ^ 10 <= 10 ^ (Z.of_nat (length zs) - 1)) by (apply Z.pow_le_mono_r; lia).
    destruct (Z.ltb_spec 2147483647 (decval zs - neg)); [done|lia].
  - rewrite take_ge by lia. fold (decval zs). case_bool; [done|]. zbool. f_equal.
    apply i32_small. unfold is_i32. destruct Hneg as [-> | ->]; simpl; lia.
Qed.

(** ** Quoting and hexadecimal *)

Lemma dequote_quote_body s rest :
  ctext s -> chr rest <> 39 -> dequote_loop 39 (quote_body s ++ 39 :: rest) = s.
Proof.
  intros Hs Hr. induction Hs as [|c s Hc Hs IH]; simpl.
  - destruct rest as [|c rest]; [done|]. simpl in Hr. by rewrite (proj2 (Z.eqb_neq c 39)).
  - rewrite (proj2 (Z.eqb_neq c 0)) by lia. destruct (Z.eqb_spec c 39) as [->|Hne]; simpl.
    + by rewrite IH.
    + rewrite (proj2 (Z.eqb_neq c 0)), (proj2 (Z.eqb_neq c 39)) by lia. by rewrite IH.
Qed.

Lemma hexByte_digits c rest : is_u8 c ->
  hexByte (hexdigit (Z.land (Z.shiftr c 4) 0xf) :: hexdigit (Z.land c 0xf) :: rest) = c.
Proof.
  intros Hc. unfold hexByte. cbn [chr tl]. apply Z.eqb_eq. clear rest. revert c Hc. by apply byte_table.
Qed.

Lemma hexToBlob_hexFunc b rest :
  Forall is_u8 b -> hexToBlob_loop (hexFunc b ++ rest) (2 * length b - 1) = b.
Proof.
  induction 1 as [|c b Hc Hb IH]; [done|]. destruct b as [|c' b].
  - cbn [length Nat.mul Nat.add Nat.sub hexFunc app hexToBlob_loop]. by rewrite hexByte_digits.
  - replace (2 * length (c :: c' :: b) - 1)%nat with (S (S (2 * length (c' :: b) - 1))) by (simpl; lia).
    cbn [hexFunc app hexToBlob_loop tl]. rewrite hexByte_digits by done. f_equal. exact IH.
Qed.

(** ** Claims *)

(** [sqlite3StrICmp] orders zero-free strings lexicographically by their
    lower-cased bytes, and [sqlite3_strnicmp] is zero exactly when the first [N]
    bytes agree up to ASCII case. *)
Theorem stricmp_is_folded_lexicographic (a b : list Z) (N : Z) (Ha : ctext a) (Hb : ctext b) :
  (sqlite3StrICmp a b ?= 0) = lexcmp (map utl a) (map utl b) /\
  (sqlite3_strnicmp a b N = 0 <->
   map utl (take (Z.to_nat N) a) = map utl (take (Z.to_nat N) b)).
Proof. split; [by apply stricmp_lex|by apply strnicmp_zero]. Qed.

Lemma stricmp_is_folded_lexicographic_witness :
  (sqlite3StrICmp [83; 81; 76] [115; 113; 108] ?= 0) = lexcmp [115; 113; 108] [115; 113; 108] /\
  (sqlite3_strnicmp [83; 81; 76] [115; 113; 108] 2 = 0 <->
   map utl (take (Z.to_nat 2) [83; 81; 76]) = map utl (take (Z.to_nat 2) [115; 113; 108])).
Proof.
  apply (stricmp_is_folded_lexicographic [83; 81; 76] [115; 113; 108] 2);
    unfold ctext; repeat (constructor; [lia|]); constructor.
Defined.

(** [sqlite3Atoi64] returns true with value [n] exactly for the texts of
    integers (leading spaces, optional sign, digits, end of string) whose value
    [n] fits in 64 bits: it never accepts an overflowed or malformed number. *)
Theorem atoi64_exact (s : list Z) (n : Z) (Hs : Forall is_u8 s) :
  sqlite3Atoi64 s = (true, n) <-> int_text s n /\ is_i64 n.
Proof.
  split.
  - intros E. destruct (atoi64_sound s Hs) as [m Hm]; [by rewrite E|].
    pose proof (atoi64_accepts s m Hm) as [Hr Hv]. rewrite E in Hr, Hv. simpl in *.
    symmetry in Hr. zbool. assert (Him : is_i64 m) by (unfold is_i64; lia). by rewrite (Hv Him).
  - intros [Ht Hn]. pose proof (atoi64_accepts s n Ht) as [Hr Hv].
    destruct (sqlite3Atoi64 s) as [ok v]. simpl in *. rewrite (Hv Hn). f_equal. rewrite Hr.
    unfold is_i64 in Hn. apply andb_true_iff. rewrite Z.leb_le, Z.ltb_lt. lia.
Qed.

(** " -42" *)
Lemma atoi64_exact_witness :
  Forall is_u8 [32; 45; 52; 50] /\ int_text [32; 45; 52; 50] (-42).
Proof.
  assert (H : Forall is_u8 [32; 45; 52; 50]) by (repeat (constructor; [unfold is_u8; lia|]); constructor).
  split; [exact H|]. apply (atoi64_exact _ (-42) H). vm_compute. reflexivity.
Defined.

(** [sqlite3GetInt32] on a sign, a run of digits and a first non-digit: it
    returns the number exactly when it fits in a signed 32-bit integer. *)
Theorem getint32_exact (sg ds t : list Z) (neg : Z)
  (Hsg : sg = [] /\ neg = 0 \/ sg = [43] /\ neg = 0 \/ sg = [45] /\ neg = 1)
  (Hd : Forall digit ds) (Ht : ~ digit (chr t)) (Hstart : sg = [] -> chr (ds ++ t) <> 43 /\ chr (ds ++ t) <> 45) :
  sqlite3GetInt32 (sg ++ ds ++ t) =
  (let n := if truthy neg then - decval ds else decval ds in
   if (- 2 ^ 31 <=? n) && (n <? 2 ^ 31) then Some n else None).
Proof.
  assert (Hrange : (if 2147483647 <? decval ds - neg then None
                    else Some (if truthy neg then - decval ds else decval ds)) =
    (let n := if truthy neg then - decval ds else decval ds in
     if (- 2 ^ 31 <=? n) && (n <? 2 ^ 31) then Some n else None)).
  { pose proof (decval_bounds ds Hd). cbv zeta.
    set (n := if truthy neg then _ else _).
    assert (Hn : n = decval ds /\ neg = 0 \/ n = - decval ds /\ neg = 1)
      by (subst n; destruct Hsg as [[_ ->]|[[_ ->]|[_ ->]]]; simpl; auto).
    destruct (Z.ltb_spec 2147483647 (decval ds - neg)), (Z.leb_spec (- 2 ^ 31) n), (Z.ltb_spec n (2 ^ 31));
      simpl; done || lia. }
  rewrite <- Hrange. unfold sqlite3GetInt32.
  destruct Hsg as [[-> ->]|[[-> ->]|[-> ->]]]; cbn [app].
  - destruct (Hstart eq_refl) as [H1 H2]. rewrite (proj2 (Z.eqb_neq _ _) H1), (proj2 (Z.eqb_neq _ _) H2).
    by apply getint_unsigned; [done|done|left].
  - change (chr (43 :: ds ++ t) =? 45) with false. change (chr (43 :: ds ++ t) =? 43) with true.
    by apply getint_unsigned; [done|done|left].
  - change (chr (45 :: ds ++ t) =? 45) with true. by apply getint_unsigned; [done|done|right].
Qed.

(** "-2147483648x" *)
Lemma getint32_exact_witness :
  sqlite3GetInt32 ([45] ++ [50; 49; 52; 55; 52; 56; 51; 54; 52; 56] ++ [120]) = Some (-2147483648).
Proof.
  rewrite (getint32_exact [45] [50; 49; 52; 55; 52; 56; 51; 54; 52; 56] [120] 1);
    [vm_compute; reflexivity|tauto|repeat (constructor; [unfold digit; lia|]); constructor|unfold digit; simpl; lia|done].
Defined.

(** Quoting and hexadecimal text are undone by their readers: dequoting the
    output of quote() on a text gives the text back, and decoding the digits of
    hex() (or of a quoted blob) gives the blob back. *)
Theorem quote_and_hex_roundtrip (s b : list Z) (Hs : ctext s) (Hb : Forall is_u8 b) :
  sqlite3Dequote (Some (quoteFunc_text s)) = Some s /\
  sqlite3HexToBlob true (hexFunc b) (Z.of_nat (2 * length b)) = Some b /\
  sqlite3HexToBlob true (drop 2 (quoteFunc_blob b)) (Z.of_nat (length (drop 3 (quoteFunc_blob b)))) = Some b.
Proof.
  split; [unfold sqlite3Dequote, quoteFunc_text; cbn; f_equal; by apply (dequote_quote_body s [])|].
  assert (Hlen : length (hexFunc b) = (2 * length b)%nat) by (clear Hb; induction b; simpl in *; lia).
  unfold sqlite3HexToBlob, quoteFunc_blob. split.
  - f_equal. replace (Z.to_nat (Z.of_nat (2 * length b) - 1)) with (2 * length b - 1)%nat by lia.
    rewrite <- (app_nil_r (hexFunc b)). by apply hexToBlob_hexFunc.
  - f_equal. rewrite length_drop. cbn [length drop]. rewrite length_app, Hlen. cbn [length].
    replace (Z.to_nat _) with (2 * length b - 1)%nat by lia. by apply hexToBlob_hexFunc.
Qed.

Lemma quote_and_hex_roundtrip_witness :
  sqlite3Dequote (Some (quoteFunc_text [105; 39; 109])) = Some [105; 39; 109] /\
  sqlite3HexToBlob true (hexFunc [0; 255; 16]) (Z.of_nat (2 * length [0; 255; 16])) = Some [0; 255; 16] /\
  sqlite3HexToBlob true (drop 2 (quoteFunc_blob [0; 255; 16]))
    (Z.of_nat (length (drop 3 (quoteFunc_blob [0; 255; 16])))) = Some [0; 255; 16].
Proof.
  apply (quote_and_hex_roundtrip [105; 39; 109] [0; 255; 16]);
    [unfold ctext|]; repeat (constructor; [unfold is_u8; lia|]); constructor.
Defined.
