(* ===== verification/Utf.v ===== *)
(** * Utf: UTF-8 and UTF-16 codecs

    Models utf.c of [src/whip-server/sqlite/sqlite3.c]: the macros [WRITE_UTF8],
    [WRITE_UTF16LE], [WRITE_UTF16BE], [READ_UTF8], [READ_UTF16LE],
    [READ_UTF16BE], [SQLITE_SKIP_UTF8], and [sqlite3Utf8Read],
    [sqlite3Utf8CharLen], [sqlite3Utf8To8], [sqlite3Utf16ByteLen],
    [sqlite3VdbeMemTranslate] and [sqlite3VdbeMemHandleBom].  A writer is the list
    of bytes it stores; a reader returns the character and the bytes after it. *)
From S2P Require Import Prelude Bits Varint Text.

Definition sqlite3Utf8Trans1 : list Z :=
  [0x00; 0x01; 0x02; 0x03; 0x04; 0x05; 0x06; 0x07;
   0x08; 0x09; 0x0a; 0x0b; 0x0c; 0x0d; 0x0e; 0x0f;
   0x10; 0x11; 0x12; 0x13; 0x14; 0x15; 0x16; 0x17;
   0x18; 0x19; 0x1a; 0x1b; 0x1c; 0x1d; 0x1e; 0x1f;
   0x00; 0x01; 0x02; 0x03; 0x04; 0x05; 0x06; 0x07;
   0x08; 0x09; 0x0a; 0x0b; 0x0c; 0x0d; 0x0e; 0x0f;
   0x00; 0x01; 0x02; 0x03; 0x04; 0x05; 0x06; 0x07;
   0x00; 0x01; 0x02; 0x03; 0x00; 0x01; 0x00; 0x00].

Definition trans1 (c : Z) : Z := nth (Z.to_nat (c - 0xc0)) sqlite3Utf8Trans1 0.

Definition WRITE_UTF8 (c : Z) : list Z :=
  if c <? 0x80 then [u8 (Z.land c 0xFF)]
  else if c <? 0x800 then
    [u8 (0xC0 + u8 (Z.land (Z.shiftr c 6) 0x1F)); u8 (0x80 + u8 (Z.land c 0x3F))]
  else if c <? 0x10000 then
    [u8 (0xE0 + u8 (Z.land (Z.shiftr c 12) 0x0F));
     u8 (0x80 + u8 (Z.land (Z.shiftr c 6) 0x3F)); u8 (0x80 + u8 (Z.land c 0x3F))]
  else
    [u8 (0xF0 + u8 (Z.land (Z.shiftr c 18) 0x07)); u8 (0x80 + u8 (Z.land (Z.shiftr c 12) 0x3F));
     u8 (0x80 + u8 (Z.land (Z.shiftr c 6) 0x3F)); u8 (0x80 + u8 (Z.land c 0x3F))].

Definition WRITE_UTF16LE (c : Z) : list Z :=
  if c <=? 0xFFFF then [u8 (Z.land c 0xFF); u8 (Z.land (Z.shiftr c 8) 0xFF)]
  else
    [u8 (Z.land (Z.shiftr c 10) 0x3F + Z.land (Z.shiftr (c - 0x10000) 10) 0xC0);
     u8 (0xD8 + Z.land (Z.shiftr (c - 0x10000) 18) 0x03);
     u8 (Z.land c 0xFF);
     u8 (0xDC + Z.land (Z.shiftr c 8) 0x03)].

Definition WRITE_UTF16BE (c : Z) : list Z :=
  if c <=? 0xFFFF then [u8 (Z.land (Z.shiftr c 8) 0xFF); u8 (Z.land c 0xFF)]
  else
    [u8 (0xD8 + Z.land (Z.shiftr (c - 0x10000) 18) 0x03);
     u8 (Z.land (Z.shiftr c 10) 0x3F + Z.land (Z.shiftr (c - 0x10000) 10) 0xC0);
     u8 (0xDC + Z.land (Z.shiftr c 8) 0x03);
     u8 (Z.land c 0xFF)].

(** The surrogate combination shared by the two readers. *)
Definition surrogate_pair (c c2 : Z) : Z :=
  Z.land c2 0x03FF + Z.shiftl (Z.land c 0x003F) 10 + Z.shiftl (Z.land c 0x03C0 + 0x0040) 10.

(** [None]: fewer bytes than the reader fetches. TERM is "more input follows". *)
Definition READ_UTF16LE (z : list Z) (TERM : list Z -> bool) : option (Z * list Z) :=
  match z with
  | b0 :: b1 :: z =>
      let c := b0 + Z.shiftl b1 8 in
      if (0xD800 <=? c) && (c <? 0xE000) && TERM z then
        match z with
        | b2 :: b3 :: z => Some (surrogate_pair c (b2 + Z.shiftl b3 8), z)
        | _ => None
        end
      else Some (c, z)
  | _ => None
  end.

Definition READ_UTF16BE (z : list Z) (TERM : list Z -> bool) : option (Z * list Z) :=
  match z with
  | b0 :: b1 :: z =>
      let c := Z.shiftl b0 8 + b1 in
      if (0xD800 <=? c) && (c <? 0xE000) && TERM z then
        match z with
        | b2 :: b3 :: z => Some (surrogate_pair c (Z.shiftl b2 8 + b3), z)
        | _ => None
        end
      else Some (c, z)
  | _ => None
  end.

Definition is_cont (b : Z) : bool := Z.land b 0xc0 =? 0x80.

Definition utf8_replace (c : Z) : Z :=
  if (c <? 0x80) || (Z.land c 0xFFFFF800 =? 0xD800) || (Z.land c 0xFFFFFFFE =? 0xFFFE)
  then 0xFFFD else c.

(** while( ( *zIn & 0xc0)==0x80 ){ c = (c<<6) + (0x3f & *(zIn++)); } with the
    width of [c]: int in [sqlite3Utf8Read], unsigned in [READ_UTF8]. *)
Fixpoint utf8_tail (wrap : Z -> Z) (c : Z) (z : list Z) : Z * list Z :=
  match z with
  | [] => (c, [])
  | b :: z' => if is_cont b then utf8_tail wrap (wrap (Z.shiftl c 6 + Z.land 0x3f b)) z' else (c, z)
  end.

(** On the terminating zero the C function leaves the pointer one past it; the
    callers never read there, and the model stays at the end of the list. *)
Definition sqlite3Utf8Read (z : list Z) : Z * list Z :=
  let c := chr z in
  let z := tl z in
  if 0xc0 <=? c then
    let '(c, z) := utf8_tail i32 (trans1 c) z in
    (utf8_replace c, z)
  else (c, z).

(** The macro, with the end of the input as the end of the list. *)
Definition READ_UTF8 (z : list Z) : Z * list Z :=
  let c := chr z in
  let z := tl z in
  if 0xc0 <=? c then
    let '(c, z) := utf8_tail u32 (trans1 c) z in
    (utf8_replace c, z)
  else (c, z).

Fixpoint skip_cont (z : list Z) : list Z :=
  match z with
  | [] => []
  | b :: z' => if is_cont b then skip_cont z' else z
  end.

Definition SQLITE_SKIP_UTF8 (z : list Z) : list Z :=
  if 0xc0 <=? chr z then skip_cont (tl z) else tl z.

(** [nByte] is the number of bytes to the end, [None] for a negative nByte. *)
Fixpoint charLen_loop (fuel : nat) (z : list Z) (zTerm : option Z) (pos : Z) : Z :=
  match fuel with
  | O => 0
  | S fuel =>
      if negb (chr z =? 0) && (match zTerm with Some t => pos <? t | None => true end) then
        let z' := SQLITE_SKIP_UTF8 z in
        1 + charLen_loop fuel z' zTerm (pos + Z.of_nat (length z - length z'))
      else 0
  end.

Definition sqlite3Utf8CharLen (z : list Z) (nByte : Z) : Z :=
  charLen_loop (S (length z)) z (if 0 <=? nByte then Some nByte else None) 0.

Fixpoint utf8To8_loop (fuel : nat) (z : list Z) : list Z :=
  match fuel with
  | O => []
  | S fuel =>
      if chr z =? 0 then [] else
      let '(c, z) := sqlite3Utf8Read z in
      (if negb (c =? 0xfffd) then WRITE_UTF8 c else []) ++ utf8To8_loop fuel z
  end.

Definition sqlite3Utf8To8 (z : list Z) : list Z := utf8To8_loop (S (length z)) z.

(** READ_UTF16xx(z, 1, c) [nChar] times: the bytes consumed, native order [le]. *)
Fixpoint utf16ByteLen_loop (le : bool) (n : nat) (z : list Z) : option (list Z) :=
  match n with
  | O => Some z
  | S n =>
      '(_, z) ← (if le then READ_UTF16LE z (fun _ => true) else READ_UTF16BE z (fun _ => true));
      utf16ByteLen_loop le n z
  end.

Definition sqlite3Utf16ByteLen (le : bool) (z : list Z) (nChar : Z) : option Z :=
  z' ← utf16ByteLen_loop le (Z.to_nat nChar) z;
  Some (Z.of_nat (length z) - Z.of_nat (length z')).

(** ** Mem values holding text *)

Definition MEM_Null : Z := 0x0001.
Definition MEM_Str : Z := 0x0002.
Definition MEM_Blob : Z := 0x0010.
Definition MEM_Term : Z := 0x0200.
Definition MEM_Dyn : Z := 0x0400.
Definition MEM_Static : Z := 0x0800.
Definition MEM_Ephem : Z := 0x1000.

(** [m_z] holds the [n] bytes of the text; [m_own] is "z==zMalloc". *)
Record Mem := { m_z : list Z; m_enc : enc; m_flags : Z; m_own : bool }.

(** [sqlite3VdbeMemMakeWriteable] on a text or blob without a zero tail;
    [grow_ok] is whether [sqlite3VdbeMemGrow] gets its memory. *)
Definition sqlite3VdbeMemMakeWriteable (grow_ok : bool) (m : Mem) : Z * Mem :=
  if truthy (Z.land (m_flags m) (Z.lor MEM_Str MEM_Blob)) && negb (m_own m) then
    if grow_ok then
      (SQLITE_OK, {| m_z := m_z m; m_enc := m_enc m; m_own := true;
        m_flags := Z.lor (Z.land (m_flags m) (Z.lnot (Z.lor MEM_Ephem MEM_Static))) MEM_Term |})
    else (SQLITE_NOMEM, {| m_z := []; m_enc := m_enc m; m_own := true; m_flags := MEM_Null |})
  else (SQLITE_OK, m).

Definition enc_eqb (a b : enc) : bool :=
  match a, b with
  | SQLITE_UTF8, SQLITE_UTF8 | SQLITE_UTF16LE, SQLITE_UTF16LE | SQLITE_UTF16BE, SQLITE_UTF16BE => true
  | _, _ => false
  end.

(** The in-place byte swap, up to [n & ~1]. *)
Fixpoint swap_bytes (z : list Z) : list Z :=
  match z with
  | a :: b :: z => b :: a :: swap_bytes z
  | _ => z
  end.

Definition more (z : list Z) : bool := match z with [] => false | _ => true end.

(** while( zIn<zTerm ){ READ_UTF8(zIn, zTerm, c); WRITE_UTF16xx(z, c); }: the
    fuel is the number of bytes left. *)
Fixpoint to_utf16 (write : Z -> list Z) (fuel : nat) (z : list Z) : list Z :=
  match fuel with
  | O => []
  | S fuel =>
      if more z then let '(c, z) := READ_UTF8 z in write c ++ to_utf16 write fuel z else []
  end.

Fixpoint to_utf8 (read : list Z -> (list Z -> bool) -> option (Z * list Z)) (fuel : nat) (z : list Z)
  : option (list Z) :=
  match fuel with
  | O => Some []
  | S fuel =>
      if more z then
        '(c, z) ← read z more;
        out ← to_utf8 read fuel z;
        Some (WRITE_UTF8 c ++ out)
      else Some []
  end.

Definition set_text_flags (f : Z) : Z :=
  Z.lor (Z.land f (Z.lnot (Z.lor (Z.lor MEM_Static MEM_Dyn) MEM_Ephem))) (Z.lor MEM_Term MEM_Dyn).

(** [grow_ok]: [sqlite3VdbeMemGrow] gets its memory; [malloc_ok]: so does
    [sqlite3DbMallocRaw]. The result is (return code, the Mem after the call);
    [None] is a read outside the text. The output buffer has [trans_len] bytes. *)
Definition sqlite3VdbeMemTranslate (grow_ok malloc_ok : bool) (m : Mem) (desiredEnc : enc)
  : option (Z * Mem) :=
  if negb (enc_eqb (m_enc m) SQLITE_UTF8) && negb (enc_eqb desiredEnc SQLITE_UTF8) then
    let '(rc, m) := sqlite3VdbeMemMakeWriteable grow_ok m in
    if rc =? SQLITE_OK then
      Some (SQLITE_OK, {| m_z := swap_bytes (m_z m); m_enc := desiredEnc;
                          m_flags := m_flags m; m_own := m_own m |})
    else Some (SQLITE_NOMEM, m)
  else
  let zIn :=
    match desiredEnc with
    | SQLITE_UTF8 => take (Z.to_nat (Z.land (Z.of_nat (length (m_z m))) (Z.lnot 1))) (m_z m)
    | _ => m_z m
    end in
  if malloc_ok then
    out ← (match m_enc m, desiredEnc with
           | SQLITE_UTF8, SQLITE_UTF16LE => Some (to_utf16 WRITE_UTF16LE (length zIn) zIn)
           | SQLITE_UTF8, _ => Some (to_utf16 WRITE_UTF16BE (length zIn) zIn)
           | SQLITE_UTF16LE, _ => to_utf8 READ_UTF16LE (length zIn) zIn
           | SQLITE_UTF16BE, _ => to_utf8 READ_UTF16BE (length zIn) zIn
           end);
    Some (SQLITE_OK, {| m_z := out; m_enc := desiredEnc;
                        m_flags := set_text_flags (m_flags m); m_own := true |})
  else Some (SQLITE_NOMEM, {| m_z := zIn; m_enc := m_enc m; m_flags := m_flags m; m_own := m_own m |}).

(** The size of the output buffer for [n] input bytes. *)
Definition trans_len (desiredEnc : enc) (n : Z) : Z :=
  match desiredEnc with
  | SQLITE_UTF8 => Z.land n (Z.lnot 1) * 2 + 1
  | _ => n * 2 + 2
  end.

(** Bytes of the zero terminator the code stores after the text. *)
Definition term_len (e : enc) : Z := match e with SQLITE_UTF8 => 1 | _ => 2 end.

Definition sqlite3VdbeMemHandleBom (grow_ok : bool) (m : Mem) : Z * Mem :=
  let bom :=
    if 1 <? Z.of_nat (length (m_z m)) then
      let b1 := chr (m_z m) in
      let b2 := chr (tl (m_z m)) in
      let bom := if (b1 =? 0xFE) && (b2 =? 0xFF) then Some SQLITE_UTF16BE else None in
      if (b1 =? 0xFF) && (b2 =? 0xFE) then Some SQLITE_UTF16LE else bom
    else None in
  match bom with
  | Some bom =>
      let '(rc, m) := sqlite3VdbeMemMakeWriteable grow_ok m in
      if rc =? SQLITE_OK then
        (SQLITE_OK, {| m_z := drop 2 (m_z m); m_enc := bom;
                       m_flags := Z.lor (m_flags m) MEM_Term; m_own := m_own m |})
      else (rc, m)
  | None => (SQLITE_OK, m)
  end.

(** ** UTF-8 characters *)

Lemma land_ones' x k : 0 <= k -> Z.land x (Z.ones k) = x mod 2 ^ k.
Proof. intros. by apply Z.land_ones. Qed.

Ltac arith_masks :=
  change 0xFF with (Z.ones 8) in *; change 0x3F with (Z.ones 6) in *; change 0x1F with (Z.ones 5) in *;
  change 0x0F with (Z.ones 4) in *; change 0x07 with (Z.ones 3) in *;
  rewrite ?Z.land_ones, ?Z.shiftr_div_pow2, ?Z.shiftl_mul_pow2 in * by lia.

Lemma is_cont_range b : is_u8 b -> is_cont b = (128 <=? b) && (b <? 192).
Proof. intros Hb. apply Bool.eqb_prop. revert b Hb. by apply byte_table. Qed.

Lemma trans1_range b : is_u8 b -> 0xc0 <= b -> 0 <= trans1 b <= 0x1f.
Proof.
  intros Hb H. cut (implb (0xc0 <=? b) ((0 <=? trans1 b) && (trans1 b <=? 0x1f)) = true).
  - rewrite (proj2 (Z.leb_le _ _) H). simpl. intros. zbool. lia.
  - clear H. revert b Hb. by apply byte_table.
Qed.

Lemma trans1_lead2 x : 0 <= x < 32 -> trans1 (0xC0 + x) = x.
Proof.
  intros Hx. cut (implb (x <? 32) (trans1 (0xC0 + x) =? x) = true).
  - rewrite (proj2 (Z.ltb_lt x 32)) by lia. simpl. by intros ?%Z.eqb_eq.
  - assert (Hb : is_u8 x) by (unfold is_u8; lia). clear Hx. revert x Hb. by apply byte_table.
Qed.

Lemma trans1_lead3 x : 0 <= x < 16 -> trans1 (0xE0 + x) = x.
Proof.
  intros Hx. cut (implb (x <? 16) (trans1 (0xE0 + x) =? x) = true).
  - rewrite (proj2 (Z.ltb_lt x 16)) by lia. simpl. by intros ?%Z.eqb_eq.
  - assert (Hb : is_u8 x) by (unfold is_u8; lia). clear Hx. revert x Hb. by apply byte_table.
Qed.

Lemma trans1_lead4 x : 0 <= x < 8 -> trans1 (0xF0 + x) = x.
Proof.
  intros Hx. cut (implb (x <? 8) (trans1 (0xF0 + x) =? x) = true).
  - rewrite (proj2 (Z.ltb_lt x 8)) by lia. simpl. by intros ?%Z.eqb_eq.
  - assert (Hb : is_u8 x) by (unfold is_u8; lia). clear Hx. revert x Hb. by apply byte_table.
Qed.

(** The two mask tests as ranges. *)
Lemma surrogate_mask c : 0 <= c < 2 ^ 32 -> (Z.land c 0xFFFFF800 =? 0xD800) = (0xD800 <=? c) && (c <? 0xE000).
Proof.
  intros Hc. change 0xFFFFF800 with (Z.shiftl (Z.ones (32 - 11)) 11). rewrite land_high_mask by lia.
  apply Bool.eq_iff_eq_true. rewrite andb_true_iff, Z.eqb_eq, Z.leb_le, Z.ltb_lt. dlia.
Qed.

Lemma nonchar_mask c : 0 <= c < 2 ^ 32 -> (Z.land c 0xFFFFFFFE =? 0xFFFE) = (0xFFFE <=? c) && (c <=? 0xFFFF).
Proof.
  intros Hc. change 0xFFFFFFFE with (Z.shiftl (Z.ones (32 - 1)) 1). rewrite land_high_mask by lia.
  apply Bool.eq_iff_eq_true. rewrite andb_true_iff, Z.eqb_eq, !Z.leb_le. dlia.
Qed.

(** [WRITE_UTF8] in arithmetic. *)
Lemma write_utf8_arith c :
  0 <= c < 0x110000 ->
  WRITE_UTF8 c =
    if c <? 0x80 then [c]
    else if c <? 0x800 then [192 + c / 64; 128 + c mod 64]
    else if c <? 0x10000 then [224 + c / 4096; 128 + c / 64 mod 64; 128 + c mod 64]
    else [240 + c / 262144; 128 + c / 4096 mod 64; 128 + c / 64 mod 64; 128 + c mod 64].
Proof.
  intros Hc. unfold WRITE_UTF8. arith_masks.
  change (2 ^ 8) with 256. change (2 ^ 6) with 64. change (2 ^ 5) with 32. change (2 ^ 4) with 16.
  change (2 ^ 3) with 8. change (2 ^ 12) with 4096. change (2 ^ 18) with 262144.
  unfold u8. change (2 ^ 8) with 256.
  repeat case_bool; zbool; repeat f_equal; dlia.
Qed.

Lemma utf8_tail_cont w c y z :
  0 <= y < 64 -> utf8_tail w c (128 + y :: z) = utf8_tail w (w (c * 64 + y)) z.
Proof.
  intros Hy. cbn [utf8_tail]. rewrite is_cont_range by (unfold is_u8; lia).
  rewrite (proj2 (Z.leb_le 128 _)), (proj2 (Z.ltb_lt _ 192)) by lia. cbn [andb].
  rewrite Z.land_comm, Z.shiftl_mul_pow2 by lia. change 0x3f with (Z.ones 6). rewrite Z.land_ones by lia.
  change (2 ^ 6) with 64. by replace ((128 + y) mod 64) with y by dlia.
Qed.

Lemma utf8_tail_stop w c z : is_cont (chr z) = false -> utf8_tail w c z = (c, z).
Proof. destruct z as [|b z]; simpl; [done|]. by intros ->. Qed.

Definition utf8_canon (c : Z) : Z :=
  if ((0xD800 <=? c) && (c <? 0xE000)) || ((0xFFFE <=? c) && (c <=? 0xFFFF)) then 0xFFFD else c.

Lemma utf8_replace_canon c : 0x80 <= c < 2 ^ 32 -> utf8_replace c = utf8_canon c.
Proof.
  intros Hc. unfold utf8_replace, utf8_canon. rewrite surrogate_mask, nonchar_mask by lia.
  by rewrite (proj2 (Z.ltb_ge c 0x80)) by lia.
Qed.

(** Decoding an encoded character, for any accumulator wide enough. *)
Lemma utf8_decode_encoded w c rest :
  (forall x, 0 <= x < 2 ^ 31 -> w x = x) -> 0 <= c < 0x110000 -> is_cont (chr rest) = false ->
  (let z := WRITE_UTF8 c ++ rest in
   if 0xc0 <=? chr z then
     let '(c, z) := utf8_tail w (trans1 (chr z)) (tl z) in (utf8_replace c, z)
   else (chr z, tl z)) = (utf8_canon c, rest).
Proof.
  intros Hw Hc Hr. cbv zeta. rewrite write_utf8_arith by done.
  destruct (Z.ltb_spec c 0x80) as [H1|H1].
  { cbn [app chr tl]. rewrite (proj2 (Z.leb_gt 0xc0 c)) by lia. unfold utf8_canon.
    by rewrite (proj2 (Z.leb_gt 0xD800 c)), (proj2 (Z.leb_gt 0xFFFE c)) by lia. }
  rewrite <- utf8_replace_canon by lia.
  destruct (Z.ltb_spec c 0x800) as [H2|H2]; [|destruct (Z.ltb_spec c 0x10000) as [H3|H3]]; cbn [app chr tl].
  - rewrite (proj2 (Z.leb_le 0xc0 _)) by dlia. rewrite trans1_lead2 by dlia.
    rewrite utf8_tail_cont, Hw, utf8_tail_stop by (done || dlia). do 2 f_equal. dlia.
  - rewrite (proj2 (Z.leb_le 0xc0 _)) by dlia. rewrite trans1_lead3 by dlia.
    rewrite !utf8_tail_cont, !Hw, utf8_tail_stop by (done || dlia || (rewrite Hw by dlia; dlia)). do 2 f_equal. dlia.
  - rewrite (proj2 (Z.leb_le 0xc0 _)) by dlia. rewrite trans1_lead4 by dlia.
    rewrite utf8_tail_cont by dlia. rewrite Hw by dlia. rewrite utf8_tail_cont by dlia. rewrite Hw by dlia.
    rewrite utf8_tail_cont by dlia. rewrite Hw by dlia. rewrite utf8_tail_stop by done. do 2 f_equal. dlia.
Qed.

(** ** UTF-16 characters *)

(** A code point that is neither a surrogate nor U+FFFE/U+FFFF. *)
Definition scalar (c : Z) : Prop :=
  0 <= c < 0x110000 /\ ~ (0xD800 <= c < 0xE000) /\ ~ (0xFFFE <= c <= 0xFFFF).

Lemma land_0xC0 x : Z.land x 0xC0 = x / 64 mod 4 * 64.
Proof. exact (land_field x 2 6 ltac:(lia) ltac:(lia)). Qed.

Lemma land_0x3C0 x : Z.land x 0x03C0 = x / 64 mod 16 * 64.
Proof. exact (land_field x 4 6 ltac:(lia) ltac:(lia)). Qed.

(** The four bytes (as two code units) of a supplementary character. *)
Lemma surrogate_units c :
  0x10000 <= c < 0x110000 ->
  let lead := 0xD800 + (c - 0x10000) / 1024 in
  let trail := 0xDC00 + c mod 1024 in
  u8 (Z.land (Z.shiftr c 10) 0x3F + Z.land (Z.shiftr (c - 0x10000) 10) 0xC0) = lead mod 256 /\
  u8 (0xD8 + Z.land (Z.shiftr (c - 0x10000) 18) 0x03) = lead / 256 /\
  u8 (Z.land c 0xFF) = trail mod 256 /\
  u8 (0xDC + Z.land (Z.shiftr c 8) 0x03) = trail / 256 /\
  0xD800 <= lead < 0xDC00 /\ surrogate_pair lead trail = c.
Proof.
  intros Hc. cbv zeta. unfold u8, surrogate_pair. rewrite land_0xC0, land_0x3C0.
  change 0x3FF with (Z.ones 10). change 0x03 with (Z.ones 2). arith_masks.
  change (2 ^ 8) with 256. change (2 ^ 6) with 64. change (2 ^ 2) with 4. change (2 ^ 10) with 1024.
  change (2 ^ 18) with 262144.
  split_and!; dlia.
Qed.

Lemma scalar_canon c : scalar c -> utf8_canon c = c.
Proof.
  intros (_ & H1 & H2). unfold utf8_canon.
  destruct (Z.leb_spec 0xD800 c), (Z.ltb_spec c 0xE000), (Z.leb_spec 0xFFFE c), (Z.leb_spec c 0xFFFF); simpl; done || lia.
Qed.

Lemma read16le_write c rest T :
  scalar c -> (forall b0 b1 z, T (b0 :: b1 :: z) = true) ->
  READ_UTF16LE (WRITE_UTF16LE c ++ rest) T = Some (c, rest).
Proof.
  intros (Hc & Hs & _) HT. unfold WRITE_UTF16LE. destruct (Z.leb_spec c 0xFFFF).
  - cbn [app READ_UTF16LE]. unfold u8. arith_masks. change (2 ^ 8) with 256.
    replace (c mod 256 mod 256 + c / 256 mod 256 mod 256 * 256) with c by dlia.
    destruct (Z.leb_spec 0xD800 c), (Z.ltb_spec c 0xE000); simpl; done || lia.
  - destruct (surrogate_units c) as (E1 & E2 & E3 & E4 & Hl & Hp); [lia|]. rewrite E1, E2, E3, E4.
    cbn [app READ_UTF16LE]. rewrite !Z.shiftl_mul_pow2 by lia. change (2 ^ 8) with 256.
    set (lead := 0xD800 + (c - 0x10000) / 1024) in *. set (trail := 0xDC00 + c mod 1024) in *.
    replace (lead mod 256 + lead / 256 * 256) with lead by dlia.
    replace (trail mod 256 + trail / 256 * 256) with trail by dlia.
    rewrite HT, Hp. destruct (Z.leb_spec 0xD800 lead), (Z.ltb_spec lead 0xE000); simpl; done || lia.
Qed.

Lemma read16be_write c rest T :
  scalar c -> (forall b0 b1 z, T (b0 :: b1 :: z) = true) ->
  READ_UTF16BE (WRITE_UTF16BE c ++ rest) T = Some (c, rest).
Proof.
  intros (Hc & Hs & _) HT. unfold WRITE_UTF16BE. destruct (Z.leb_spec c 0xFFFF).
  - cbn [app READ_UTF16BE]. unfold u8. arith_masks. change (2 ^ 8) with 256.
    replace (c / 256 mod 256 mod 256 * 256 + c mod 256 mod 256) with c by dlia.
    destruct (Z.leb_spec 0xD800 c), (Z.ltb_spec c 0xE000); simpl; done || lia.
  - destruct (surrogate_units c) as (E1 & E2 & E3 & E4 & Hl & Hp); [lia|]. rewrite E1, E2, E3, E4.
    cbn [app READ_UTF16BE]. rewrite !Z.shiftl_mul_pow2 by lia. change (2 ^ 8) with 256.
    set (lead := 0xD800 + (c - 0x10000) / 1024) in *. set (trail := 0xDC00 + c mod 1024) in *.
    replace (lead / 256 * 256 + lead mod 256) with lead by dlia.
    replace (trail / 256 * 256 + trail mod 256) with trail by dlia.
    rewrite HT, Hp. destruct (Z.leb_spec 0xD800 lead), (Z.ltb_spec lead 0xE000); simpl; done || lia.
Qed.

(** ** Texts *)

Definition write (e : enc) : Z -> list Z :=
  match e with SQLITE_UTF8 => WRITE_UTF8 | SQLITE_UTF16LE => WRITE_UTF16LE | SQLITE_UTF16BE => WRITE_UTF16BE end.

(** The encoding of a list of code points. *)
Definition encode (e : enc) (cs : list Z) : list Z := flat_map (write e) cs.

Lemma encode8_cons c cs : encode SQLITE_UTF8 (c :: cs) = WRITE_UTF8 c ++ encode SQLITE_UTF8 cs.
Proof. reflexivity. Qed.

Lemma write_utf8_head c : scalar c -> exists b z, WRITE_UTF8 c = b :: z /\ is_u8 b /\ is_cont b = false.
Proof.
  intros (Hc & _). rewrite write_utf8_arith by done.
  repeat case_bool; zbool; eexists _, _; (split; [reflexivity|]);
    (split; [unfold is_u8; dlia|]); rewrite is_cont_range by (unfold is_u8; dlia);
    apply andb_false_iff; rewrite Z.leb_gt, Z.ltb_ge; dlia.
Qed.

Lemma encode8_head cs : Forall scalar cs -> is_cont (chr (encode SQLITE_UTF8 cs)) = false.
Proof.
  destruct 1 as [|c cs Hc _]; [done|]. simpl. destruct (write_utf8_head c Hc) as (b & z & -> & _ & H). done.
Qed.

Lemma read_utf8_write c rest :
  scalar c -> is_cont (chr rest) = false -> READ_UTF8 (WRITE_UTF8 c ++ rest) = (c, rest).
Proof.
  intros Hc Hr. rewrite <- (scalar_canon c Hc) at 2.
  apply (utf8_decode_encoded u32); [|apply Hc|done]. intros. apply u32_small. unfold is_u32. lia.
Qed.

Lemma to_utf16_encode W cs fuel :
  Forall scalar cs -> (length (encode SQLITE_UTF8 cs) <= fuel)%nat ->
  to_utf16 W fuel (encode SQLITE_UTF8 cs) = flat_map W cs.
Proof.
  intros Hcs. revert fuel. induction Hcs as [|c cs Hc Hcs IH]; intros fuel Hf; [by destruct fuel|].
  destruct (write_utf8_head c Hc) as (b & z & E & _). cbn [flat_map].
  rewrite encode8_cons in *. rewrite length_app, E in Hf. cbn [length] in Hf.
  destruct fuel as [|fuel]; [lia|]. cbn [to_utf16].
  replace (more (WRITE_UTF8 c ++ encode SQLITE_UTF8 cs)) with true by (by rewrite E).
  rewrite read_utf8_write by (done || by apply encode8_head). f_equal. apply IH. lia.
Qed.

Lemma to_utf8_encode R W cs fuel :
  (forall c rest, scalar c -> R (W c ++ rest) more = Some (c, rest)) ->
  (forall c, W c <> []) ->
  Forall scalar cs -> (length (flat_map W cs) <= fuel)%nat ->
  to_utf8 R fuel (flat_map W cs) = Some (encode SQLITE_UTF8 cs).
Proof.
  intros HR HW Hcs. revert fuel. induction Hcs as [|c cs Hc Hcs IH]; intros fuel Hf; [by destruct fuel|].
  specialize (HW c). cbn [flat_map] in *. rewrite length_app in Hf.
  destruct (W c) as [|b z] eqn:E; [done|]. cbn [length] in Hf.
  destruct fuel as [|fuel]; [lia|]. cbn [to_utf8]. change (more ((b :: z) ++ flat_map W cs)) with true.
  rewrite <- E, HR by done. simpl mbind. rewrite IH by lia. done.
Qed.

Lemma swap_write c z :
  swap_bytes (WRITE_UTF16LE c ++ z) = WRITE_UTF16BE c ++ swap_bytes z /\
  swap_bytes (WRITE_UTF16BE c ++ z) = WRITE_UTF16LE c ++ swap_bytes z.
Proof. unfold WRITE_UTF16LE, WRITE_UTF16BE. by case_bool. Qed.

Lemma swap_encode cs :
  swap_bytes (encode SQLITE_UTF16LE cs) = encode SQLITE_UTF16BE cs /\
  swap_bytes (encode SQLITE_UTF16BE cs) = encode SQLITE_UTF16LE cs.
Proof.
  unfold encode, write. induction cs as [|c cs [IH1 IH2]]; [done|]. cbn [flat_map].
  destruct (swap_write c (flat_map WRITE_UTF16LE cs)) as [-> _].
  destruct (swap_write c (flat_map WRITE_UTF16BE cs)) as [_ ->]. by rewrite IH1, IH2.
Qed.

Lemma encode16_even e cs : e <> SQLITE_UTF8 -> Z.of_nat (length (encode e cs)) mod 2 = 0.
Proof.
  intros He. induction cs as [|c cs IH]; [done|]. cbn [encode flat_map]. rewrite length_app, Nat2Z.inj_add.
  fold (encode e cs). assert (Z.of_nat (length (write e c)) mod 2 = 0); [|dlia].
  destruct e; [done| |]; simpl; unfold WRITE_UTF16LE, WRITE_UTF16BE; by case_bool.
Qed.

Lemma land_lnot_1 n : Z.land n (Z.lnot 1) = n - n mod 2.
Proof.
  rewrite <- Z.ldiff_land. change 1 with (Z.ones 1). rewrite Z.ldiff_ones_r, Z.shiftr_div_pow2, Z.shiftl_mul_pow2 by lia.
  change (2 ^ 1) with 2. dlia.
Qed.

Lemma take_even (z : list Z) :
  Z.of_nat (length z) mod 2 = 0 -> take (Z.to_nat (Z.land (Z.of_nat (length z)) (Z.lnot 1))) z = z.
Proof. intros H. rewrite land_lnot_1, H. apply take_ge. lia. Qed.

(** ** Output size *)

Lemma utf8_tail_length w c z : (length (snd (utf8_tail w c z)) <= length z)%nat.
Proof. revert c. induction z as [|b z IH]; intros c; simpl; [lia|]. case_bool; [|simpl; lia]. etrans; [apply IH|lia]. Qed.

Lemma write16_length W c :
  W = WRITE_UTF16LE \/ W = WRITE_UTF16BE ->
  length (W c) = if c <=? 0xFFFF then 2%nat else 4%nat.
Proof. intros [-> | ->]; unfold WRITE_UTF16LE, WRITE_UTF16BE; by case_bool. Qed.

(** Each character read from UTF-8 grows to at most twice its bytes. *)
Lemma read_utf8_growth W z :
  W = WRITE_UTF16LE \/ W = WRITE_UTF16BE -> Forall is_u8 z -> z <> [] ->
  let '(c, z') := READ_UTF8 z in (length (W c) + 2 * length z' <= 2 * length z)%nat.
Proof.
  intros HW Hz Hne. destruct Hz as [|b z Hb Hz]; [done|]. unfold READ_UTF8. cbn [chr tl].
  destruct (Z.leb_spec 0xc0 b) as [Hlead|Hlead].
  - destruct (utf8_tail u32 (trans1 b) z) as [c z'] eqn:E. rewrite write16_length by done.
    pose proof (utf8_tail_length u32 (trans1 b) z) as Hl. rewrite E in Hl. simpl in Hl. cbn [length].
    assert (length z' = length z -> utf8_replace c <= 0xFFFF); [|case_bool; zbool; lia].
    intros Hsame. destruct z as [|b' z]; simpl in E.
    + injection E as <- <-. unfold utf8_replace. rewrite (proj2 (Z.ltb_lt (trans1 b) 0x80)); [simpl; lia|].
      pose proof (trans1_range b Hb Hlead). lia.
    + revert E. case_bool.
      * intros E. pose proof (utf8_tail_length u32 (u32 (Z.shiftl (trans1 b) 6 + Z.land 63 b')) z) as Hl'.
        rewrite E in Hl'. simpl in *. lia.
      * intros [= <- <-]. unfold utf8_replace. rewrite (proj2 (Z.ltb_lt (trans1 b) 0x80)); [simpl; lia|].
        pose proof (trans1_range b Hb Hlead). lia.
  - rewrite write16_length by done. rewrite (proj2 (Z.leb_le b 0xFFFF)) by lia. simpl. lia.
Qed.

Lemma read_utf8_rest z : Forall is_u8 z -> Forall is_u8 (snd (READ_UTF8 z)).
Proof.
  intros Hz. unfold READ_UTF8. assert (Ht : Forall is_u8 (tl z)) by (by destruct Hz).
  case_bool; [|done]. assert (H : forall w c l, Forall is_u8 l -> Forall is_u8 (snd (utf8_tail w c l))).
  { intros w c l Hl. revert c. induction Hl as [|b l Hb Hl IH]; intros c; simpl; [done|].
    case_bool; [apply IH|]. by constructor. }
  specialize (H u32 (trans1 (chr z)) (tl z) Ht). by destruct (utf8_tail _ _ _).
Qed.

Lemma to_utf16_bound W fuel z :
  W = WRITE_UTF16LE \/ W = WRITE_UTF16BE -> Forall is_u8 z ->
  (length (to_utf16 W fuel z) <= 2 * length z)%nat.
Proof.
  intros HW. revert z. induction fuel as [|fuel IH]; intros z Hz; simpl; [lia|].
  destruct z as [|b z]; [simpl; lia|]. cbn [more].
  pose proof (read_utf8_growth W (b :: z) HW Hz ltac:(done)) as Hg.
  pose proof (read_utf8_rest (b :: z) Hz) as Hr.
  destruct (READ_UTF8 (b :: z)) as [c z']. simpl snd in Hr. rewrite length_app. specialize (IH z' Hr). lia.
Qed.

Lemma write8_length c : (length (WRITE_UTF8 c) <= 4)%nat /\ (c < 0x10000 -> (length (WRITE_UTF8 c) <= 3)%nat).
Proof. unfold WRITE_UTF8. repeat case_bool; zbool; simpl; split; lia. Qed.

(** Reading one character of an even number of UTF-16 bytes. *)
Lemma read16_total R z :
  R = READ_UTF16LE \/ R = READ_UTF16BE -> Forall is_u8 z -> z <> [] -> Z.of_nat (length z) mod 2 = 0 ->
  exists c z', R z more = Some (c, z') /\ Forall is_u8 z' /\ Z.of_nat (length z') mod 2 = 0 /\
    (length (WRITE_UTF8 c) + 2 * length z' <= 2 * length z)%nat /\ (length z' < length z)%nat.
Proof.
  intros HR Hz Hne He. pose proof (write8_length) as Hw.
  destruct z as [|b0 [|b1 z]]; [done|done|].
  apply Forall_cons_1 in Hz as [Hb0 Hz]. apply Forall_cons_1 in Hz as [Hb1 Hz].
  assert (He' : Z.of_nat (length z) mod 2 = 0) by (cbn [length] in He; rewrite !Nat2Z.inj_succ in He; dlia).
  assert (Hc : forall c, c = b0 + Z.shiftl b1 8 \/ c = Z.shiftl b0 8 + b1 -> c < 0x10000).
  { unfold is_u8 in *. intros c. rewrite !Z.shiftl_mul_pow2 by lia. lia. }
  destruct HR as [-> | ->]; cbn [READ_UTF16LE READ_UTF16BE].
  - set (c := b0 + Z.shiftl b1 8) in *. destruct ((0xD800 <=? c) && (c <? 0xE000) && more z) eqn:E.
    + destruct z as [|b2 [|b3 z]]; [zbool; done|done|].
      apply Forall_cons_1 in Hz as [_ Hz]. apply Forall_cons_1 in Hz as [_ Hz].
      eexists _, z. split_and!; [done|done| |specialize (Hw (surrogate_pair c (b2 + Z.shiftl b3 8))); cbn [length]; lia|simpl; lia].
      cbn [length] in He'. rewrite !Nat2Z.inj_succ in He'. dlia.
    + eexists c, z. split_and!; [done|done|done| |simpl; lia].
      specialize (Hw c) as [_ Hw]. specialize (Hc c (or_introl eq_refl)). cbn [length]. specialize (Hw Hc). lia.
  - set (c := Z.shiftl b0 8 + b1) in *. destruct ((0xD800 <=? c) && (c <? 0xE000) && more z) eqn:E.
    + destruct z as [|b2 [|b3 z]]; [zbool; done|done|].
      apply Forall_cons_1 in Hz as [_ Hz]. apply Forall_cons_1 in Hz as [_ Hz].
      eexists _, z. split_and!; [done|done| |specialize (Hw (surrogate_pair c (Z.shiftl b2 8 + b3))); cbn [length]; lia|simpl; lia].
      cbn [length] in He'. rewrite !Nat2Z.inj_succ in He'. dlia.
    + eexists c, z. split_and!; [done|done|done| |simpl; lia].
      specialize (Hw c) as [_ Hw]. specialize (Hc c (or_intror eq_refl)). cbn [length]. specialize (Hw Hc). lia.
Qed.

Lemma to_utf8_bound R fuel z :
  R = READ_UTF16LE \/ R = READ_UTF16BE -> Forall is_u8 z -> Z.of_nat (length z) mod 2 = 0 ->
  exists out, to_utf8 R fuel z = Some out /\ (length out <= 2 * length z)%nat.
Proof.
  intros HR. revert z. induction fuel as [|fuel IH]; intros z Hz He; cbn [to_utf8]; [exists []; simpl; split; [done|lia]|].
  destruct z as [|b z]; [exists []; simpl; split; [done|lia]|]. cbn [more].
  destruct (read16_total R (b :: z) HR Hz ltac:(done) He) as (c & z' & E & Hz' & He' & Hl & _).
  rewrite E. simpl mbind. destruct (IH z' Hz' He') as (out & -> & Hout). simpl mbind.
  eexists. split; [done|]. rewrite length_app. lia.
Qed.

(** What [sqlite3VdbeMemTranslate] returns between two encodings of a text. *)
Lemma translate_encode m cs e1 e2 :
  Forall scalar cs -> m_z m = encode e1 cs -> m_enc m = e1 -> e1 <> e2 ->
  exists m', sqlite3VdbeMemTranslate true true m e2 = Some (SQLITE_OK, m') /\
    m_z m' = encode e2 cs /\ m_enc m' = e2.
Proof.
  intros Hcs Hz He Hne. unfold sqlite3VdbeMemTranslate. rewrite He.
  assert (Hmw : exists m1, sqlite3VdbeMemMakeWriteable true m = (SQLITE_OK, m1) /\ m_z m1 = m_z m).
  { unfold sqlite3VdbeMemMakeWriteable. case_bool; eauto. }
  destruct Hmw as (m1 & Hmw & Hz1).
  destruct e1, e2; try done; cbn [enc_eqb negb andb]; rewrite ?Hmw; rewrite Hz in *.
  - eexists; split; [done|]. split; [|done]. apply to_utf16_encode; [done|lia].
  - eexists; split; [done|]. split; [|done]. apply to_utf16_encode; [done|lia].
  - rewrite take_even by (by apply encode16_even). unfold encode at 1 2, write at 1 2.
    rewrite (to_utf8_encode READ_UTF16LE WRITE_UTF16LE); [by eexists| | |done|lia].
    + intros. by apply read16le_write.
    + intros c. unfold WRITE_UTF16LE. by case_bool.
  - cbn [SQLITE_OK Z.eqb]. eexists; split; [done|]. split; [|done]. cbn [m_z]. rewrite Hz1. apply swap_encode.
  - rewrite take_even by (by apply encode16_even). unfold encode at 1 2, write at 1 2.
    rewrite (to_utf8_encode READ_UTF16BE WRITE_UTF16BE); [by eexists| | |done|lia].
    + intros. by apply read16be_write.
    + intros c. unfold WRITE_UTF16BE. by case_bool.
  - cbn [SQLITE_OK Z.eqb]. eexists; split; [done|]. split; [|done]. cbn [m_z]. rewrite Hz1. apply swap_encode.
Qed.

Lemma take_even_length (z : list Z) :
  Z.of_nat (length (take (Z.to_nat (Z.land (Z.of_nat (length z)) (Z.lnot 1))) z)) =
  Z.land (Z.of_nat (length z)) (Z.lnot 1).
Proof. rewrite length_take, land_lnot_1. dlia. Qed.

(** The output of a translation to or from UTF-8 fits the buffer. *)
Lemma translate_fits m e2 :
  Forall is_u8 (m_z m) -> m_enc m <> e2 -> m_enc m = SQLITE_UTF8 \/ e2 = SQLITE_UTF8 ->
  exists m', sqlite3VdbeMemTranslate true true m e2 = Some (SQLITE_OK, m') /\
    Z.of_nat (length (m_z m')) + term_len e2 <= trans_len e2 (Z.of_nat (length (m_z m))).
Proof.
  intros Hz Hne H8. unfold sqlite3VdbeMemTranslate.
  set (zt := take (Z.to_nat (Z.land (Z.of_nat (length (m_z m))) (Z.lnot 1))) (m_z m)).
  assert (Hzt : Forall is_u8 zt) by (by apply Forall_take).
  pose proof (take_even_length (m_z m)) as Hl. fold zt in Hl.
  assert (He : Z.of_nat (length zt) mod 2 = 0) by (rewrite Hl, land_lnot_1; dlia).
  destruct (m_enc m), e2; try done; try (by destruct H8); cbn [enc_eqb negb andb trans_len term_len].
  - eexists; split; [done|]. cbn [m_z].
    pose proof (to_utf16_bound WRITE_UTF16LE (length (m_z m)) (m_z m) (or_introl eq_refl) Hz). lia.
  - eexists; split; [done|]. cbn [m_z].
    pose proof (to_utf16_bound WRITE_UTF16BE (length (m_z m)) (m_z m) (or_intror eq_refl) Hz). lia.
  - destruct (to_utf8_bound READ_UTF16LE (length zt) zt (or_introl eq_refl) Hzt He) as (out & -> & Ho).
    eexists; split; [done|]. cbn [m_z]. lia.
  - destruct (to_utf8_bound READ_UTF16BE (length zt) zt (or_intror eq_refl) Hzt He) as (out & -> & Ho).
    eexists; split; [done|]. cbn [m_z]. lia.
Qed.

(** ** Claims *)

(** Reading back a written character: [sqlite3Utf8Read] (and the macro
    [READ_UTF8]) decode what [WRITE_UTF8] stores for every code point below
    0x110000, rendering surrogates, U+FFFE and U+FFFF as U+FFFD and every other
    code point as itself, and stop exactly at its end. *)
Theorem utf8_char_roundtrip (c : Z) (rest : list Z)
  (Hc : 0 <= c < 0x110000) (Hr : is_cont (chr rest) = false) :
  sqlite3Utf8Read (WRITE_UTF8 c ++ rest) = (utf8_canon c, rest) /\
  READ_UTF8 (WRITE_UTF8 c ++ rest) = (utf8_canon c, rest).
Proof.
  split.
  - apply (utf8_decode_encoded i32); [|done|done]. intros. apply i32_small. unfold is_i32. lia.
  - apply (utf8_decode_encoded u32); [|done|done]. intros. apply u32_small. unfold is_u32. lia.
Qed.

Lemma utf8_char_roundtrip_witness :
  sqlite3Utf8Read (WRITE_UTF8 0x20AC ++ [65]) = (0x20AC, [65]) /\
  READ_UTF8 (WRITE_UTF8 0x20AC ++ [65]) = (0x20AC, [65]).
Proof. apply (utf8_char_roundtrip 0x20AC [65]); [lia|reflexivity]. Defined.

(** [sqlite3VdbeMemTranslate] between any two of UTF-8, UTF-16LE and
    UTF-16BE turns the encoding of a text into the encoding of the same text. *)
Theorem translate_preserves_text (m : Mem) (cs : list Z) (e1 e2 : enc)
  (Hcs : Forall scalar cs) (Hz : m_z m = encode e1 cs) (He : m_enc m = e1) (Hne : e1 <> e2) :
  exists m', sqlite3VdbeMemTranslate true true m e2 = Some (SQLITE_OK, m') /\
    m_z m' = encode e2 cs /\ m_enc m' = e2.
Proof. exact (translate_encode m cs e1 e2 Hcs Hz He Hne). Qed.

Lemma translate_preserves_text_witness :
  let m := {| m_z := encode SQLITE_UTF8 [0x41; 0x1F600]; m_enc := SQLITE_UTF8; m_flags := MEM_Str; m_own := false |} in
  exists m', sqlite3VdbeMemTranslate true true m SQLITE_UTF16LE = Some (SQLITE_OK, m') /\
    m_z m' = [0x41; 0x00; 0x3D; 0xD8; 0x00; 0xDE] /\ m_enc m' = SQLITE_UTF16LE.
Proof.
  apply (translate_preserves_text _ [0x41; 0x1F600] SQLITE_UTF8 SQLITE_UTF16LE);
    [|reflexivity|reflexivity|discriminate].
  repeat (constructor; [unfold scalar; lia|]). constructor.
Defined.

(** Memory safety of the conversion on arbitrary, possibly malformed bytes:
    a translation to or from UTF-8 never reads outside the text, and its output
    with the terminator never exceeds the buffer the function allocates. *)
Theorem translate_output_fits (m : Mem) (e2 : enc)
  (Hz : Forall is_u8 (m_z m)) (Hne : m_enc m <> e2) (H8 : m_enc m = SQLITE_UTF8 \/ e2 = SQLITE_UTF8) :
  exists m', sqlite3VdbeMemTranslate true true m e2 = Some (SQLITE_OK, m') /\
    Z.of_nat (length (m_z m')) + term_len e2 <= trans_len e2 (Z.of_nat (length (m_z m))).
Proof. exact (translate_fits m e2 Hz Hne H8). Qed.

(** A truncated lead byte followed by stray continuation bytes. *)
Lemma translate_output_fits_witness :
  let m := {| m_z := [0xF7; 0xBF; 0xBF; 0xBF; 0xC3]; m_enc := SQLITE_UTF8; m_flags := MEM_Str; m_own := false |} in
  exists m', sqlite3VdbeMemTranslate true true m SQLITE_UTF16LE = Some (SQLITE_OK, m') /\
    Z.of_nat (length (m_z m')) + 2 <= 12.
Proof.
  apply (translate_output_fits {| m_z := [0xF7; 0xBF; 0xBF; 0xBF; 0xC3]; m_enc := SQLITE_UTF8; m_flags := MEM_Str; m_own := false |}
           SQLITE_UTF16LE); [|discriminate|left; reflexivity].
  repeat (constructor; [unfold is_u8; lia|]). constructor.
Defined.
