(* ===== verification/RowSet.v ===== *)
(** * RowSet: sets of rowids with batched membership tests

    Models rowset.c of [src/whip-server/sqlite/sqlite3.c].  The entries on the
    [pEntry] list (linked through [pRight]) are a list, the binary tree [pTree]
    is an inductive tree; both own their nodes, so no node is on two structures.
    [pLast] is the value of the entry it points to.  The source of fresh entries
    is kept as the counters [nFresh] and [nChunk]. *)
From Stdlib Require Import Sorting.Sorted.
From S2P Require Import Prelude.
From stdpp Require Import list gmap.
#[local] Open Scope Z_scope.

Inductive tree :=
  | Leaf
  | Node (pLeft : tree) (v : Z) (pRight : tree).

Record RowSet := {
  nChunk : Z;              (* length of the pChunk list *)
  pEntry : list Z;
  pLast : option Z;
  pTree : tree;
  nFresh : Z;
  isSorted : bool;
  iBatch : Z
}.

(** (1024-8)/sizeof(struct RowSetEntry) with 8-byte pointers *)
Definition ROWSET_ENTRY_PER_CHUNK : Z := (1024 - 8) / 24.

(** [N] is the size of the bulk memory, [hdr] is ROUND8(sizeof(RowSet)). *)
Definition sqlite3RowSetInit (N hdr : Z) : RowSet :=
  {| nChunk := 0; pEntry := []; pLast := None; pTree := Leaf;
     nFresh := u16 ((N - hdr) / 24); isSorted := true; iBatch := 0 |}.

Definition sqlite3RowSetClear (p : RowSet) : RowSet :=
  {| nChunk := 0; pEntry := []; pLast := None; pTree := Leaf;
     nFresh := 0; isSorted := true; iBatch := iBatch p |}.

(** [malloc_ok]: whether a needed chunk can be allocated. *)
Definition sqlite3RowSetInsert (malloc_ok : bool) (p : RowSet) (rowid : Z) : RowSet :=
  let fresh :=
    if nFresh p =? 0 then
      if malloc_ok then Some (nChunk p + 1, ROWSET_ENTRY_PER_CHUNK) else None
    else Some (nChunk p, nFresh p) in
  match fresh with
  | None => p
  | Some (nChunk, nFresh) =>
      let sorted :=
        match pLast p with
        | Some last => if isSorted p && (rowid <=? last) then false else isSorted p
        | None => isSorted p
        end in
      let entries := match pLast p with Some _ => pEntry p ++ [rowid] | None => [rowid] end in
      {| nChunk := nChunk; pEntry := entries; pLast := Some rowid; pTree := pTree p;
         nFresh := nFresh - 1; isSorted := sorted; iBatch := iBatch p |}
  end.

Fixpoint rowSetMerge (pA : list Z) : list Z -> list Z :=
  fix go (pB : list Z) : list Z :=
    match pA, pB with
    | [], _ => pB
    | _, [] => pA
    | a :: pA', b :: pB' =>
        if a <? b then a :: rowSetMerge pA' pB
        else if b <? a then b :: go pB'
        else rowSetMerge pA' pB
    end.

(** for(i=0; aBucket[i]; i++){ ... } aBucket[i] = pEntry; a NULL bucket is the
    empty list, [None] is a store past the last bucket. *)
Fixpoint bucket_add (aBucket : list (list Z)) (e : list Z) : option (list (list Z)) :=
  match aBucket with
  | [] => None
  | [] :: bs => Some (e :: bs)
  | b :: bs => bs' ← bucket_add bs (rowSetMerge b e); Some ([] :: bs')
  end.

Fixpoint sort_loop (aBucket : list (list Z)) (entries : list Z) : option (list (list Z)) :=
  match entries with
  | [] => Some aBucket
  | e :: entries => bs ← bucket_add aBucket [e]; sort_loop bs entries
  end.

Definition rowSetSort (p : RowSet) : option RowSet :=
  bs ← sort_loop (replicate 40 []) (pEntry p);
  Some {| nChunk := nChunk p; pEntry := fold_left rowSetMerge bs []; pLast := None; pTree := pTree p;
          nFresh := nFresh p; isSorted := true; iBatch := iBatch p |}.

Fixpoint rowSetTreeToList (pIn : tree) : list Z :=
  match pIn with
  | Leaf => []
  | Node l v r => rowSetTreeToList l ++ v :: rowSetTreeToList r
  end.

(** [k] is [iDepth - 1]. *)
Fixpoint rowSetNDeepTree (k : nat) (list0 : list Z) : tree * list Z :=
  match list0 with
  | [] => (Leaf, [])
  | x :: rest =>
      match k with
      | O => (Node Leaf x Leaf, rest)
      | S k =>
          let '(l, list1) := rowSetNDeepTree k list0 in
          match list1 with
          | [] => (l, [])
          | v :: list2 => let '(r, list3) := rowSetNDeepTree k list2 in (Node l v r, list3)
          end
      end
  end.

(** for(iDepth=1; pList; iDepth++); the fuel is the length of [pList]. *)
Fixpoint listToTree_loop (fuel : nat) (k : nat) (p : tree) (pList : list Z) : tree :=
  match fuel, pList with
  | S fuel, v :: rest =>
      let '(r, rest') := rowSetNDeepTree k rest in
      listToTree_loop fuel (S k) (Node p v r) rest'
  | _, _ => p
  end.

Definition rowSetListToTree (pList : list Z) : tree :=
  match pList with
  | [] => Leaf
  | v :: rest => listToTree_loop (length rest) 0 (Node Leaf v Leaf) rest
  end.

Definition is_leaf (t : tree) : bool := match t with Leaf => true | _ => false end.

Definition rowSetToList (p : RowSet) : option RowSet :=
  p ← (if isSorted p then Some p else rowSetSort p);
  Some (if is_leaf (pTree p) then p else
    {| nChunk := nChunk p; pEntry := rowSetMerge (pEntry p) (rowSetTreeToList (pTree p));
       pLast := pLast p; pTree := Leaf; nFresh := nFresh p; isSorted := isSorted p; iBatch := iBatch p |}).

Definition set_pEntry (p : RowSet) (l : list Z) : RowSet :=
  {| nChunk := nChunk p; pEntry := l; pLast := pLast p; pTree := pTree p;
     nFresh := nFresh p; isSorted := isSorted p; iBatch := iBatch p |}.

(** (the smallest rowid if any, the set after the call) *)
Definition sqlite3RowSetNext (p : RowSet) : option (option Z * RowSet) :=
  p ← rowSetToList p;
  match pEntry p with
  | v :: rest =>
      let p := set_pEntry p rest in
      Some (Some v, match rest with [] => sqlite3RowSetClear p | _ => p end)
  | [] => Some (None, p)
  end.

Fixpoint tree_search (p : tree) (iRowid : Z) : bool :=
  match p with
  | Leaf => false
  | Node l v r =>
      if v <? iRowid then tree_search r iRowid
      else if iRowid <? v then tree_search l iRowid
      else true
  end.

Definition sqlite3RowSetTest (p : RowSet) (b : Z) (iRowid : Z) : option (bool * RowSet) :=
  p ← (if negb (b =? iBatch p) then
         p ← (match pEntry p with
              | [] => Some p
              | _ :: _ =>
                  p ← rowSetToList p;
                  Some {| nChunk := nChunk p; pEntry := []; pLast := None;
                          pTree := rowSetListToTree (pEntry p); nFresh := nFresh p;
                          isSorted := isSorted p; iBatch := iBatch p |}
              end);
         Some {| nChunk := nChunk p; pEntry := pEntry p; pLast := pLast p; pTree := pTree p;
                 nFresh := nFresh p; isSorted := isSorted p; iBatch := b |}
       else Some p);
  Some (tree_search (pTree p) iRowid, p).

(** ** Sorted merge *)

Notation strict := (StronglySorted Z.lt).

Lemma rowSetMerge_elem a b x : In x (rowSetMerge a b) <-> In x a \/ In x b.
Proof.
  revert b. induction a as [|y a IH]; intros b; [destruct b; simpl; tauto|].
  induction b as [|z b IHb]; [simpl; tauto|]. cbn [rowSetMerge].
  destruct (Z.ltb_spec y z); [cbn [In]; rewrite IH; cbn [In]; tauto|].
  destruct (Z.ltb_spec z y); [cbn [In]; cbn [rowSetMerge] in IHb; rewrite IHb; cbn [In]; tauto|].
  assert (y = z) by lia. subst. rewrite IH. cbn [In]. tauto.
Qed.

Lemma strict_Forall_le x y l : x <= y -> Forall (Z.lt y) l -> Forall (Z.lt x) l.
Proof. intros H Hl. eapply Forall_impl; [done|]. simpl. lia. Qed.

Lemma strict_cons x l : strict (x :: l) <-> strict l /\ Forall (Z.lt x) l.
Proof. split; [by intros [? ?]%StronglySorted_inv|intros [? ?]; by constructor]. Qed.

Lemma Forall_merge P a b : Forall P a -> Forall P b -> Forall P (rowSetMerge a b).
Proof.
  rewrite !List.Forall_forall. intros ? ? x [?|?]%rowSetMerge_elem; auto.
Qed.

Lemma rowSetMerge_strict a b : strict a -> strict b -> strict (rowSetMerge a b).
Proof.
  intros Ha. revert b. induction a as [|y a IH]; intros b Hb; [by destruct b|].
  apply strict_cons in Ha as [Ha Hya]. specialize (IH Ha).
  induction b as [|z b IHb]; [by apply strict_cons|].
  pose proof Hb as Hzb. apply strict_cons in Hb as [Hb Hz]. cbn [rowSetMerge].
  destruct (Z.ltb_spec y z).
  - apply strict_cons. split; [by apply IH|]. apply Forall_merge; [done|].
    constructor; [done|]. eapply strict_Forall_le; [|done]. lia.
  - destruct (Z.ltb_spec z y); [|by apply IH].
    apply strict_cons. split; [by apply IHb|]. apply (Forall_merge (Z.lt z) (y :: a) b); [|done].
    constructor; [done|]. eapply strict_Forall_le; [|done]. lia.
Qed.

(** ** The bucket sort *)

Definition occupied (b : list Z) : Z := match b with [] => 0 | _ => 1 end.

(** The occupied buckets read as a binary number: the entries sorted so far. *)
Fixpoint bucket_count (bs : list (list Z)) : Z :=
  match bs with [] => 0 | b :: bs => occupied b + 2 * bucket_count bs end.

Lemma bucket_count_bound bs : 0 <= bucket_count bs < 2 ^ Z.of_nat (length bs).
Proof.
  induction bs as [|b bs IH]; [simpl; lia|]. cbn [bucket_count length].
  rewrite Nat2Z.inj_succ, Z.pow_succ_r by lia. destruct b; simpl occupied; lia.
Qed.

Lemma bucket_add_spec bs e :
  e <> [] -> strict e -> Forall strict bs -> bucket_count bs + 1 < 2 ^ Z.of_nat (length bs) ->
  exists bs', bucket_add bs e = Some bs' /\ length bs' = length bs /\ Forall strict bs' /\
    bucket_count bs' = bucket_count bs + 1 /\
    (forall x, In x (concat bs') <-> In x e \/ In x (concat bs)).
Proof.
  revert e. induction bs as [|b bs IH]; intros e Hne He Hbs Hc; [simpl in Hc; lia|].
  inversion_clear Hbs as [|? ? Hb Hbs']. cbn [bucket_count length] in Hc.
  rewrite Nat2Z.inj_succ, Z.pow_succ_r in Hc by lia. destruct b as [|v b].
  - exists (e :: bs). cbn [bucket_add bucket_count length concat]. split_and!; try done; [by constructor| |].
    + destruct e; [done|]. simpl. lia.
    + intros x. rewrite in_app_iff. cbn [app]. tauto.
  - simpl occupied in Hc. cbn [bucket_add].
    assert (Hm : rowSetMerge (v :: b) e <> []).
    { intros E. assert (Hin : In v (rowSetMerge (v :: b) e)) by (apply rowSetMerge_elem; left; by left).
      by rewrite E in Hin. }
    destruct (IH (rowSetMerge (v :: b) e)) as (bs' & -> & Hl & Hs & Hc' & Hin); try done.
    { by apply rowSetMerge_strict. } { lia. }
    exists ([] :: bs'). simpl. split_and!; [done|lia|repeat constructor; done|simpl in *; lia|].
    intros x. rewrite Hin, rowSetMerge_elem. cbn [In]. rewrite in_app_iff. tauto.
Qed.

Lemma sort_loop_spec bs l :
  Forall strict bs -> bucket_count bs + Z.of_nat (length l) < 2 ^ Z.of_nat (length bs) ->
  exists bs', sort_loop bs l = Some bs' /\ Forall strict bs' /\
    (forall x, In x (concat bs') <-> In x l \/ In x (concat bs)).
Proof.
  revert bs. induction l as [|e l IH]; intros bs Hbs Hc; simpl.
  - exists bs. split_and!; [done|done|tauto].
  - cbn [length] in Hc. destruct (bucket_add_spec bs [e]) as (bs1 & -> & Hl & Hs & Hc1 & Hin1); try done.
    { by repeat constructor. } { lia. }
    simpl. destruct (IH bs1 Hs) as (bs' & -> & Hs' & Hin); [rewrite Hl, Hc1; lia|].
    exists bs'. split_and!; [done|done|]. intros x. rewrite Hin, Hin1. cbn [In]. tauto.
Qed.

Lemma fold_merge_spec bs acc :
  Forall strict bs -> strict acc ->
  strict (fold_left rowSetMerge bs acc) /\
  (forall x, In x (fold_left rowSetMerge bs acc) <-> In x acc \/ In x (concat bs)).
Proof.
  intros Hbs. revert acc. induction Hbs as [|b bs Hb Hbs IH]; intros acc Hacc; simpl.
  - split; [done|tauto].
  - destruct (IH (rowSetMerge acc b)) as [H1 H2]; [by apply rowSetMerge_strict|].
    split; [done|]. intros x. rewrite H2, rowSetMerge_elem, in_app_iff. tauto.
Qed.

Lemma rowSetSort_spec p :
  Z.of_nat (length (pEntry p)) < 2 ^ 40 ->
  exists p', rowSetSort p = Some p' /\ strict (pEntry p') /\ pTree p' = pTree p /\ isSorted p' = true /\
    iBatch p' = iBatch p /\ nFresh p' = nFresh p /\ (forall x, In x (pEntry p') <-> In x (pEntry p)).
Proof.
  intros Hl. unfold rowSetSort.
  destruct (sort_loop_spec (replicate 40 []) (pEntry p)) as (bs & -> & Hs & Hin).
  { apply Forall_replicate. constructor. } { simpl bucket_count. exact Hl. }
  simpl. destruct (fold_merge_spec bs [] Hs) as [H1 H2]; [constructor|].
  eexists. split; [done|]. cbn [pEntry pTree isSorted iBatch nFresh]. split_and!; try done.
  intros x. rewrite H2, Hin. simpl. tauto.
Qed.

(** ** The balanced tree *)

Fixpoint size (t : tree) : Z :=
  match t with Leaf => 0 | Node l _ r => size l + 1 + size r end.

Fixpoint depth (t : tree) : nat :=
  match t with Leaf => O | Node l _ r => S (Nat.max (depth l) (depth r)) end.

Lemma size_inorder t : size t = Z.of_nat (length (rowSetTreeToList t)).
Proof. induction t as [|l IHl v r IHr]; [done|]. simpl. rewrite length_app. simpl. lia. Qed.

(** The tree built from a list, followed by the entries left over, is the list;
    the tree is complete or the list is used up. *)
Lemma rowSetNDeepTree_spec k l t rest :
  rowSetNDeepTree k l = (t, rest) ->
  rowSetTreeToList t ++ rest = l /\ (depth t <= S k)%nat /\
  (rest <> [] -> size t = 2 ^ (Z.of_nat k + 1) - 1).
Proof.
  revert l t rest. induction k as [|k IH]; intros [|x l] t rest; cbn [rowSetNDeepTree].
  1,3: intros [= <- <-]; simpl; split_and!; [done|lia|done].
  - intros [= <- <-]. done.
  - destruct (rowSetNDeepTree k (x :: l)) as [tl [|v l2]] eqn:E1;
      destruct (IH _ _ _ E1) as (Hl & Hd & Hs).
    { intros [= <- <-]. split_and!; [done|lia|done]. }
    destruct (rowSetNDeepTree k l2) as [tr l3] eqn:E2; destruct (IH _ _ _ E2) as (Hr & Hd2 & Hs2).
    intros [= <- <-]. cbn [rowSetTreeToList depth size]. split_and!; [|lia|].
    + rewrite <- Hl, <- Hr, <- app_assoc. done.
    + intros Hne. rewrite Hs by done. rewrite (Hs2 Hne).
      replace (Z.of_nat (S k) + 1) with (Z.succ (Z.of_nat k + 1)) by lia.
      rewrite Z.pow_succ_r by lia. lia.
Qed.

Lemma listToTree_loop_spec fuel k p l :
  (length l <= fuel)%nat -> (depth p = S k)%nat -> 2 ^ Z.of_nat k <= size p ->
  (l <> [] -> size p = 2 ^ (Z.of_nat k + 1) - 1) ->
  let t := listToTree_loop fuel k p l in
  rowSetTreeToList t = rowSetTreeToList p ++ l /\ 2 ^ (Z.of_nat (depth t) - 1) <= size t.
Proof.
  revert k p l. induction fuel as [|fuel IH]; intros k p [|v l] Hf Hd Hs Hc; simpl in Hf; try lia.
  1,2: cbn; rewrite app_nil_r; split; [done|]; rewrite Hd; by replace (Z.of_nat (S k) - 1) with (Z.of_nat k) by lia.
  cbn [listToTree_loop]. destruct (rowSetNDeepTree k l) as [r rest] eqn:E.
  destruct (rowSetNDeepTree_spec _ _ _ _ E) as (Hr & Hdr & Hsr). specialize (Hc ltac:(done)).
  assert (Hz : 2 ^ (Z.of_nat k + 1) = 2 ^ Z.of_nat (S k)) by (f_equal; lia).
  assert (Hp : 2 ^ (Z.of_nat (S k) + 1) = 2 * 2 ^ Z.of_nat (S k))
    by (rewrite Z.pow_add_r; lia).
  assert (Hr0 : 0 <= size r) by (rewrite size_inorder; lia).
  destruct (IH (S k) (Node p v r) rest) as [H1 H2].
  - apply (f_equal length) in Hr. rewrite length_app in Hr. lia.
  - cbn [depth]. lia.
  - cbn [size]. lia.
  - intros Hne. cbn [size]. rewrite (Hsr Hne). lia.
  - split; [|done]. rewrite H1. cbn [rowSetTreeToList]. by rewrite <- Hr, <- app_assoc.
Qed.

Lemma rowSetListToTree_inorder l : rowSetTreeToList (rowSetListToTree l) = l.
Proof.
  destruct l as [|v l]; [done|]. cbn [rowSetListToTree].
  destruct (listToTree_loop_spec (length l) 0 (Node Leaf v Leaf) l) as [H _]; simpl; try done; lia.
Qed.

(** Searching a tree whose in-order list ascends finds exactly its values. *)
Lemma strict_app a v b :
  strict (a ++ v :: b) ->
  strict a /\ strict b /\ Forall (fun x => x < v) a /\ Forall (Z.lt v) b.
Proof.
  induction a as [|x a IH]; cbn [app]; rewrite strict_cons; [intros [? ?]; split_and!; by try constructor|].
  intros [(? & ? & ? & ?)%IH Hx]. apply Forall_app in Hx as [? Hv]. inversion Hv; subst.
  split_and!; try done; [by apply strict_cons|by constructor].
Qed.

Lemma tree_search_iff t x :
  strict (rowSetTreeToList t) -> tree_search t x = true <-> In x (rowSetTreeToList t).
Proof.
  induction t as [|l IHl v r IHr]; cbn [rowSetTreeToList tree_search]; [done|].
  intros (Hl & Hr & Hlv & Hrv)%strict_app. rewrite List.Forall_forall in Hlv, Hrv.
  rewrite in_app_iff. cbn [In]. specialize (Hlv x). specialize (Hrv x).
  destruct (Z.ltb_spec v x); [rewrite IHr by done; intuition lia|].
  destruct (Z.ltb_spec x v); [rewrite IHl by done; intuition lia|intuition lia].
Qed.

(** ** The abstract set

    What the comment above [struct RowSet] promises: the set of all rowids, the
    part a test may see, and the batch number of the last test; and the number of entries
    that are left before memory is needed.  An insertion that needs memory and does not get it
    changes nothing: the caller learns of it by the flag [mallocFailed] of the connection. *)

Record spec := { all : gset Z; visible : gset Z; batch : Z; room : Z }.

(** [malloc_ok] is the answer of the allocator, if it is asked. *)
Inductive op := Insert (rowid : Z) (malloc_ok : bool) | Test (b rowid : Z).

Definition spec_step (s : spec) (o : op) : list bool * spec :=
  match o with
  | Insert x malloc_ok =>
      ([], if (room s =? 0) && negb malloc_ok then s
           else {| all := {[x]} ∪ all s; visible := visible s; batch := batch s; room := (if room s =? 0 then ROWSET_ENTRY_PER_CHUNK else room s) - 1 |})
  | Test b x =>
      let vis := if b =? batch s then visible s else all s in
      ([bool_decide (x ∈ vis)], {| all := all s; visible := vis; batch := b; room := room s |})
  end.

Fixpoint spec_run (s : spec) (ops : list op) : list bool * spec :=
  match ops with
  | [] => ([], s)
  | o :: ops =>
      let '(r, s) := spec_step s o in let '(rs, s) := spec_run s ops in (r ++ rs, s)
  end.

Definition step (p : RowSet) (o : op) : option (list bool * RowSet) :=
  match o with
  | Insert x malloc_ok => Some ([], sqlite3RowSetInsert malloc_ok p x)
  | Test b x => '(r, p) ← sqlite3RowSetTest p b x; Some ([r], p)
  end.

Fixpoint run (p : RowSet) (ops : list op) : option (list bool * RowSet) :=
  match ops with
  | [] => Some ([], p)
  | o :: ops => '(r, p) ← step p o; '(rs, p) ← run p ops; Some (r ++ rs, p)
  end.

(** Taking the smallest element until the set is empty. *)
Fixpoint drain (fuel : nat) (p : RowSet) : option (list Z) :=
  match fuel with
  | O => None
  | S fuel =>
      '(r, p) ← sqlite3RowSetNext p;
      match r with None => Some [] | Some v => vs ← drain fuel p; Some (v :: vs) end
  end.

(** The representation invariant and what the state represents; [n] bounds the
    number of entries. *)
Record repr (n : Z) (p : RowSet) (s : spec) : Prop := {
  repr_tree : strict (rowSetTreeToList (pTree p));
  repr_sorted : isSorted p = true -> strict (pEntry p);
  repr_last : pLast p = last (pEntry p);
  repr_visible x : x ∈ visible s <-> In x (rowSetTreeToList (pTree p));
  repr_all x : x ∈ all s <-> In x (pEntry p) \/ In x (rowSetTreeToList (pTree p));
  repr_batch : iBatch p = batch s;
  repr_room : nFresh p = room s;
  repr_length : Z.of_nat (length (pEntry p)) <= n
}.

Lemma strict_snoc l x last0 :
  strict l -> last l = Some last0 -> last0 < x -> strict (l ++ [x]).
Proof.
  intros Hl. revert last0. induction Hl as [|y l Hl IH Hy]; intros last0 Hlast Hx; [done|].
  cbn [app]. apply strict_cons. destruct l as [|z l].
  - injection Hlast as ->. split; [repeat constructor|by repeat constructor].
  - rewrite last_cons_cons in Hlast. split; [by eapply IH|].
    apply Forall_app. split; [done|]. constructor; [|done].
    apply last_Some in Hlast as [l' E]. rewrite E in Hy. apply Forall_app in Hy as [_ Hy].
    inversion Hy; subst. lia.
Qed.

Lemma rowSetToList_spec n p s :
  repr n p s -> n < 2 ^ 40 ->
  exists p', rowSetToList p = Some p' /\ pTree p' = Leaf /\ strict (pEntry p') /\ isSorted p' = true /\
    iBatch p' = iBatch p /\ nFresh p' = nFresh p /\ (forall x, In x (pEntry p') <-> x ∈ all s).
Proof.
  intros [Ht Hs Hl Hv Ha Hb Hro Hn] Hlt. unfold rowSetToList.
  assert (exists q, (if isSorted p then Some p else rowSetSort p) = Some q /\ strict (pEntry q) /\
    pTree q = pTree p /\ isSorted q = true /\ iBatch q = iBatch p /\ nFresh q = nFresh p /\
    (forall x, In x (pEntry q) <-> In x (pEntry p))) as (q & -> & Hq & Et & Es & Eb & Ef & Hin).
  { destruct (isSorted p) eqn:E; [exists p; split_and!; by auto|]. apply rowSetSort_spec. lia. }
  simpl. rewrite <- Et in *. clear Et. eexists. split; [done|].
  destruct (pTree q) as [|l v r] eqn:E; cbn [is_leaf pEntry pTree isSorted iBatch nFresh]; split_and!; try done.
  - intros x. rewrite Hin, Ha. simpl. tauto.
  - by apply rowSetMerge_strict.
  - intros x. by rewrite rowSetMerge_elem, Hin, Ha.
Qed.

Lemma repr_le n n' p s : n <= n' -> repr n p s -> repr n' p s.
Proof. intros Hn [Ht Hs Hl Hv Ha Hb Hro Hlen]. split; try done. lia. Qed.

Lemma insert_repr n p s x malloc_ok :
  repr n p s -> exists s', spec_step s (Insert x malloc_ok) = ([], s') /\ repr (n + 1) (sqlite3RowSetInsert malloc_ok p x) s'.
Proof.
  intros Hr. eexists. split; [done|]. rewrite <- (repr_room _ _ _ Hr). unfold sqlite3RowSetInsert.
  destruct ((nFresh p =? 0) && negb malloc_ok) eqn:Efail.
  { apply andb_prop in Efail as [-> Em]. destruct malloc_ok; [done|]. apply (repr_le n); [lia|done]. }
  assert (Hfresh : (if nFresh p =? 0 then if malloc_ok then Some (nChunk p + 1, ROWSET_ENTRY_PER_CHUNK) else None else Some (nChunk p, nFresh p)) =
    Some (if nFresh p =? 0 then nChunk p + 1 else nChunk p, if nFresh p =? 0 then ROWSET_ENTRY_PER_CHUNK else nFresh p)) by (by destruct (nFresh p =? 0), malloc_ok).
  rewrite Hfresh. clear Hfresh Efail. destruct Hr as [Ht Hs Hl Hv Ha Hb Hro Hn].
  assert (Hent : (match pLast p with Some _ => pEntry p ++ [x] | None => [x] end) = pEntry p ++ [x]).
  { rewrite Hl. destruct (last (pEntry p)) eqn:E; [done|]. by apply last_None in E as ->. }
  rewrite Hent. split; destruct (nFresh p =? 0);
    cbn [isSorted pEntry pLast pTree all visible iBatch batch nFresh room]; try done.
  1,2: destruct (pLast p) as [z|] eqn:E; [|].
  1,3: case_bool; [done|]; intros E1; rewrite E1 in Heqb; cbn in Heqb; zbool;
    eapply strict_snoc; [by apply Hs|by rewrite <- Hl|lia].
  1,2: intros _; symmetry in Hl; apply last_None in Hl as ->; repeat constructor.
  all: try (by rewrite last_snoc).
  all: try (intros y; rewrite elem_of_union, elem_of_singleton, Ha, in_app_iff; cbn [In]; intuition congruence).
  all: rewrite length_app; simpl; lia.
Qed.

Lemma test_repr n p s b x :
  repr n p s -> 0 <= n < 2 ^ 40 ->
  exists r p' s', sqlite3RowSetTest p b x = Some (r, p') /\ spec_step s (Test b x) = ([r], s') /\ repr n p' s'.
Proof.
  intros Hr Hn. unfold sqlite3RowSetTest. cbn [spec_step]. rewrite <- (repr_batch _ _ _ Hr).
  destruct (Z.eqb_spec b (iBatch p)) as [->|Hne]; cbn [negb].
  { simpl. eexists _, _, _. split_and!; [done| |].
    - f_equal. f_equal. apply eq_true_iff_eq. rewrite bool_decide_eq_true, tree_search_iff by apply Hr.
      apply Hr.
    - destruct Hr. by split. }
  destruct (pEntry p) as [|e es] eqn:He.
  - simpl. eexists _, _, _. split_and!; [done| |].
    + f_equal. f_equal. apply eq_true_iff_eq. rewrite bool_decide_eq_true, tree_search_iff by apply Hr.
      rewrite (repr_all _ _ _ Hr x), He. simpl. tauto.
    + destruct Hr as [Ht Hs Hl Hv Ha Hb Hro Hlen]. split; cbn; try done; try (by rewrite ?He in * ).
      intros y. rewrite Ha, He. simpl. tauto.
  - destruct (rowSetToList_spec _ _ _ Hr) as (q & -> & Et & Hq & Es & Eb & Ef & Hin); [lia|].
    simpl. eexists _, _, _. split_and!; [done| |].
    + f_equal. f_equal. apply eq_true_iff_eq.
      rewrite bool_decide_eq_true, tree_search_iff; rewrite rowSetListToTree_inorder; [|done]. by rewrite Hin.
    + pose proof (repr_room _ _ _ Hr). split; cbn [isSorted pEntry pLast pTree all visible iBatch batch nFresh room]; rewrite ?rowSetListToTree_inorder; try done.
      all: first [by constructor | congruence | intros y; rewrite Hin; simpl; tauto | simpl; lia].
Qed.

Definition is_insert (o : op) : bool := match o with Insert _ _ => true | Test _ _ => false end.

Definition inserts (ops : list op) : Z := Z.of_nat (length (filter is_insert ops)).

Lemma run_repr ops : forall n p s,
  repr n p s -> 0 <= n -> n + inserts ops < 2 ^ 40 ->
  exists r p' s', run p ops = Some (r, p') /\ spec_run s ops = (r, s') /\ repr (n + inserts ops) p' s'.
Proof.
  induction ops as [|[x ok|b x] ops IH]; intros n p s Hr Hn Hlt.
  - exists [], p, s. unfold inserts. simpl. by rewrite Z.add_0_r.
  - assert (Hi : inserts (Insert x ok :: ops) = 1 + inserts ops) by (unfold inserts; simpl; lia).
    rewrite Hi in *. destruct (insert_repr n p s x ok Hr) as (s1 & Es & Hr1).
    destruct (IH (n + 1) _ s1 Hr1) as (r & p' & s' & E1 & E2 & Hr'); [lia|lia|].
    exists r, p', s'. cbn [run spec_run step]. rewrite Es. simpl. rewrite E1, E2. simpl.
    split_and!; try done. by replace (n + (1 + inserts ops)) with (n + 1 + inserts ops) by lia.
  - change (inserts (Test b x :: ops)) with (inserts ops) in *.
    assert (0 <= inserts ops) by (unfold inserts; lia).
    destruct (test_repr n p s b x Hr) as (r1 & p1 & s1 & E & Es & Hr1); [lia|].
    destruct (IH n p1 s1 Hr1) as (r & p' & s' & E1 & E2 & Hr'); [lia|lia|].
    exists (r1 :: r), p', s'. cbn [run spec_run step]. rewrite E, Es. simpl. rewrite E1, E2. done.
Qed.

Definition spec_empty (N hdr : Z) : spec := {| all := ∅; visible := ∅; batch := 0; room := u16 ((N - hdr) / 24) |}.

Lemma init_repr N hdr : repr 0 (sqlite3RowSetInit N hdr) (spec_empty N hdr).
Proof. split; simpl; try done; try (by constructor); set_solver. Qed.

(** Draining a set that is already one ascending list. *)
Lemma drain_list l : forall p fuel,
  pEntry p = l -> isSorted p = true -> pTree p = Leaf -> (length l < fuel)%nat -> drain fuel p = Some l.
Proof.
  induction l as [|v l IH]; intros p [|fuel] El Es Et Hf; simpl in Hf; try lia;
    cbn [drain]; unfold sqlite3RowSetNext, rowSetToList; rewrite Es; simpl; rewrite Et; simpl; rewrite El; simpl; [done|].
  rewrite (IH _ fuel); [done| | | |lia]; by destruct l.
Qed.

(** C33. Every sequence of INSERT and TEST primitives on a RowSet, from its
    initialisation, gives the answers of the abstract set: a test with a new
    batch number sees everything inserted before it, one with the current batch
    number sees only what was inserted before the batch number last changed.
    The allocator may fail at any insertion; exactly the rowids whose insertion needs a new chunk and does
    not get it are missing from the set.
    The code's 40 sort buckets are enough for fewer than 2^40 insertions, so no
    store past [aBucket] happens. *)
Theorem rowset_refines_set N hdr ops :
  inserts ops < 2 ^ 40 ->
  exists p, run (sqlite3RowSetInit N hdr) ops = Some (fst (spec_run (spec_empty N hdr) ops), p).
Proof.
  intros Hi. destruct (run_repr ops 0 _ _ (init_repr N hdr)) as (r & p & s & E1 & E2 & _); [lia|lia|].
  exists p. by rewrite E1, E2.
Qed.

Lemma rowset_refines_set_witness :
  exists p, run (sqlite3RowSetInit 64 64) [Insert 5 false; Insert 7 true; Insert 3 false; Test 1 3; Insert 9 true; Test 1 9; Test 2 9; Test 2 5]
    = Some ([true; false; true; false], p).
Proof.
  apply (rowset_refines_set 64 64 [Insert 5 false; Insert 7 true; Insert 3 false; Test 1 3; Insert 9 true; Test 1 9; Test 2 9; Test 2 5]).
  vm_compute. reflexivity.
Defined.

(** After any sequence of INSERT and TEST primitives, taking the smallest
    element until none is left returns every rowid of the set exactly once, in
    strictly ascending order, and then reports the set empty. *)
Theorem rowset_drains_sorted N hdr ops r p :
  inserts ops < 2 ^ 40 -> run (sqlite3RowSetInit N hdr) ops = Some (r, p) ->
  exists l fuel, drain fuel p = Some l /\ strict l /\
    (forall x, In x l <-> x ∈ all (snd (spec_run (spec_empty N hdr) ops))).
Proof.
  intros Hi Hrun. destruct (run_repr ops 0 _ _ (init_repr N hdr)) as (r' & p' & s & E1 & E2 & Hr); [lia|lia|].
  rewrite Hrun in E1. injection E1 as <- <-. rewrite E2. cbn [snd].
  destruct (rowSetToList_spec _ _ _ Hr) as (q & Eq & Et & Hq & Es & Eb & _ & Hin); [lia|].
  exists (pEntry q), (S (length (pEntry q))). split_and!; [|done|done].
  assert (Hd : sqlite3RowSetNext p = sqlite3RowSetNext q).
  { unfold sqlite3RowSetNext. rewrite Eq. unfold rowSetToList. rewrite Es. simpl. by rewrite Et. }
  rewrite <- (drain_list (pEntry q) q (S (length (pEntry q)))) by (done || lia).
  cbn [drain]. by rewrite Hd.
Qed.

Lemma rowset_drains_sorted_witness :
  exists l fuel p, run (sqlite3RowSetInit 64 64) [Insert 7 true; Insert 3 true; Test 1 3; Insert 9 true; Insert 3 true] = Some ([true], p) /\
    drain fuel p = Some l /\ strict l.
Proof.
  destruct (run (sqlite3RowSetInit 64 64) [Insert 7 true; Insert 3 true; Test 1 3; Insert 9 true; Insert 3 true]) as [[r p]|] eqn:E;
    [|discriminate (eq_trans (eq_sym E) ltac:(vm_compute; reflexivity))].
  assert (Hr : r = [true]) by (vm_compute in E; congruence).
  destruct (rowset_drains_sorted 64 64 [Insert 7 true; Insert 3 true; Test 1 3; Insert 9 true; Insert 3 true] r p)
    as (l & fuel & Hd & Hs & _); [vm_compute; reflexivity|exact E|].
  exists l, fuel, p. split; [by rewrite <- Hr|]. split; [exact Hd|exact Hs].
Defined.

(** The tree built for the tests of a batch holds exactly the sorted list it
    was built from and is balanced: a tree of depth d holds at least 2^(d-1)
    entries, so a test costs a logarithmic number of comparisons. *)
Theorem rowset_tree_balanced l :
  l <> [] ->
  rowSetTreeToList (rowSetListToTree l) = l /\
  2 ^ (Z.of_nat (depth (rowSetListToTree l)) - 1) <= Z.of_nat (length l).
Proof.
  intros Hne. split; [apply rowSetListToTree_inorder|]. destruct l as [|v l]; [done|]. cbn [rowSetListToTree].
  destruct (listToTree_loop_spec (length l) 0 (Node Leaf v Leaf) l) as [H1 H2]; simpl; try done; try lia.
  rewrite size_inorder, H1 in H2. done.
Qed.

Lemma rowset_tree_balanced_witness :
  2 ^ (Z.of_nat (depth (rowSetListToTree [1; 2; 3; 4; 5])) - 1) <= 5.
Proof. apply (rowset_tree_balanced [1; 2; 3; 4; 5]). discriminate. Defined.
