(* ===== verification/Like.v ===== *)
(** * Like: the LIKE and GLOB operators

    Models [patternCompare] and [likeFunc] of func.c in
    [src/whip-server/sqlite/sqlite3.c].  Patterns and strings are zero-terminated
    byte strings, given as the list of their bytes before the terminator; [chr]
    and [sqlite3Utf8Read] return zero at its end.  The main loop is fuelled by
    the length of the pattern, the search loops by the length of the string. *)
From S2P Require Import Prelude Text Utf.

Record compareInfo := { matchAll : Z; matchOne : Z; matchSet : Z; noCase : bool }.

Definition globInfo := {| matchAll := 42; matchOne := 63; matchSet := 91; noCase := false |}.
Definition likeInfoNorm := {| matchAll := 37; matchOne := 95; matchSet := 0; noCase := true |}.
Definition likeInfoAlt := {| matchAll := 37; matchOne := 95; matchSet := 0; noCase := false |}.

Definition GlogUpperToLower (a : Z) : Z := if a <? 0x80 then utl a else a.

(** The comparison's view of a character. *)
Definition folded (pInfo : compareInfo) (c : Z) : Z :=
  if noCase pInfo then GlogUpperToLower c else c.

(** The loop over a run of wildcards: [None] is the early return 0, otherwise
    the character that ends the run, the pattern after it and the string. *)
Fixpoint wildcard_run (pInfo : compareInfo) (fuel : nat) (zPattern zString : list Z)
    : option (Z * list Z * list Z) :=
  match fuel with
  | O => None
  | S fuel =>
      let '(c, zPattern) := sqlite3Utf8Read zPattern in
      if (c =? matchAll pInfo) || (c =? matchOne pInfo) then
        if c =? matchOne pInfo then
          let '(c2, zString) := sqlite3Utf8Read zString in
          if c2 =? 0 then None else wildcard_run pInfo fuel zPattern zString
        else wildcard_run pInfo fuel zPattern zString
      else Some (c, zPattern, zString)
  end.

(** while( c2 && c2!=']' ): the members of a set against the character [c];
    the last [c2], [seen] and the pattern after it. *)
Fixpoint set_loop (fuel : nat) (c c2 prior_c : Z) (seen : bool) (zPattern : list Z)
    : Z * bool * list Z :=
  match fuel with
  | O => (c2, seen, zPattern)
  | S fuel =>
      if negb (c2 =? 0) && negb (c2 =? 93) then
        if (c2 =? 45) && negb (chr zPattern =? 93) && negb (chr zPattern =? 0) && (0 <? prior_c) then
          let '(c2, zPattern) := sqlite3Utf8Read zPattern in
          let seen := if (prior_c <=? c) && (c <=? c2) then true else seen in
          let '(c2, zPattern) := sqlite3Utf8Read zPattern in
          set_loop fuel c c2 0 seen zPattern
        else
          let seen := if c =? c2 then true else seen in
          let prior_c := c2 in
          let '(c2, zPattern) := sqlite3Utf8Read zPattern in
          set_loop fuel c c2 prior_c seen zPattern
      else (c2, seen, zPattern)
  end.

(** The branch for '[': whether [c] is in the set, and the pattern after it. *)
Definition match_set (c : Z) (zPattern : list Z) : option (list Z) :=
  let '(c2, zPattern) := sqlite3Utf8Read zPattern in
  let '(invert, c2, zPattern) :=
    if c2 =? 94 then let '(c2, zPattern) := sqlite3Utf8Read zPattern in (true, c2, zPattern)
    else (false, c2, zPattern) in
  let '(seen, c2, zPattern) :=
    if c2 =? 93 then let '(c2', zPattern) := sqlite3Utf8Read zPattern in (c =? 93, c2', zPattern)
    else (false, c2, zPattern) in
  let '(c2, seen, zPattern) := set_loop (S (length zPattern)) c c2 0 seen zPattern in
  if (c2 =? 0) || negb (xorb seen invert) then None else Some zPattern.

Section compare.
Variables (pInfo : compareInfo) (esc : Z).

(** The search loops after a run of wildcards; [rec] is the recursive call. *)
Section search.
Variable rec : list Z -> list Z -> option bool.

(** while( *zString && patternCompare(&zPattern[-1],zString,pInfo,esc)==0 ) *)
Fixpoint search_set (fuel : nat) (zPattern zString : list Z) : option bool :=
  match fuel with
  | O => None
  | S fuel =>
      match zString with
      | [] => Some false
      | _ :: _ =>
          r ← rec (matchSet pInfo :: zPattern) zString;
          if r : bool then Some true else search_set fuel zPattern (SQLITE_SKIP_UTF8 zString)
      end
  end.

(** while( (c2 = sqlite3Utf8Read(zString,&zString))!=0 ), with the inner search
    for the next [c] as further iterations. *)
Fixpoint search_char (fuel : nat) (c : Z) (zPattern zString : list Z) : option bool :=
  match fuel with
  | O => None
  | S fuel =>
      let '(c2, zString) := sqlite3Utf8Read zString in
      if c2 =? 0 then Some false
      else if negb (folded pInfo c2 =? folded pInfo c) then search_char fuel c zPattern zString
      else
        r ← rec zPattern zString;
        if r : bool then Some true else search_char fuel c zPattern zString
  end.
End search.

Fixpoint patternCompare_loop (fuel : nat) (prevEscape : bool) (zPattern zString : list Z)
    : option bool :=
  match fuel with
  | O => None
  | S fuel =>
      let '(c, zPattern) := sqlite3Utf8Read zPattern in
      if c =? 0 then Some (chr zString =? 0)
      else if negb prevEscape && (c =? matchAll pInfo) then
        match wildcard_run pInfo (S (length zPattern)) zPattern zString with
        | None => Some false
        | Some (c, zPattern, zString) =>
            let search c zPattern :=
              search_char (patternCompare_loop fuel false) (S (length zString)) c zPattern zString in
            if c =? 0 then Some true
            else if c =? esc then
              let '(c, zPattern) := sqlite3Utf8Read zPattern in
              if c =? 0 then Some false else search c zPattern
            else if c =? matchSet pInfo then
              search_set (patternCompare_loop fuel false) (S (length zString)) zPattern zString
            else search c zPattern
        end
      else if negb prevEscape && (c =? matchOne pInfo) then
        let '(c2, zString) := sqlite3Utf8Read zString in
        if c2 =? 0 then Some false else patternCompare_loop fuel prevEscape zPattern zString
      else if c =? matchSet pInfo then
        let '(c, zString) := sqlite3Utf8Read zString in
        if c =? 0 then Some false
        else match match_set c zPattern with
             | None => Some false
             | Some zPattern => patternCompare_loop fuel prevEscape zPattern zString
             end
      else if (esc =? c) && negb prevEscape then patternCompare_loop fuel true zPattern zString
      else
        let '(c2, zString) := sqlite3Utf8Read zString in
        if negb (folded pInfo c =? folded pInfo c2) then Some false
        else patternCompare_loop fuel false zPattern zString
  end.

Definition patternCompare (zPattern zString : list Z) : option bool :=
  patternCompare_loop (S (length zPattern)) false zPattern zString.
End compare.

(** What a call of the SQL function leaves in its context. *)
Inductive like_result :=
  | ResultInt (b : bool)
  | ResultNull
  | ResultError (msg : nat).   (* 0: pattern too complex, 1: bad ESCAPE *)

(** [None] is a SQL NULL argument; [zEsc] is [None] when there are two
    arguments. *)
Definition likeFunc (pInfo : compareInfo) (limit : Z) (zB zA : option (list Z))
    (zEsc : option (option (list Z))) : option like_result :=
  let nPat := match zB with Some z => Z.of_nat (length z) | None => 0 end in
  if limit <? nPat then Some (ResultError 0)
  else
    let compare escape :=
      match zA, zB with
      | Some zA, Some zB => b ← patternCompare pInfo escape zB zA; Some (ResultInt b)
      | _, _ => Some ResultNull
      end in
    match zEsc with
    | None => compare 0
    | Some None => Some ResultNull
    | Some (Some z) =>
        if negb (sqlite3Utf8CharLen z (-1) =? 1) then Some (ResultError 1)
        else compare (fst (sqlite3Utf8Read z))
    end.

(** ** What a pattern means

    A pattern is a sequence of tokens over characters; [decode] is the sequence
    of characters of a byte string. *)

Inductive item := Single (c : Z) | Range (lo hi : Z).

Inductive token :=
  | Any
  | One
  | Lit (c : Z)
  | Set_ (invert : bool) (items : list item)
  | Never.                                     (* matches nothing *)

Definition covers (c : Z) (i : item) : bool :=
  match i with Single d => c =? d | Range lo hi => (lo <=? c) && (c <=? hi) end.

Fixpoint decode_loop (fuel : nat) (z : list Z) : list Z :=
  match fuel, z with
  | S fuel, _ :: _ => let '(c, z) := sqlite3Utf8Read z in c :: decode_loop fuel z
  | _, _ => []
  end.

Definition decode (z : list Z) : list Z := decode_loop (length z) z.

(** The token grammar is over characters; only [zPattern[0]] is a byte, which
    for ']' and the end of the pattern is the next character. *)
Fixpoint set_items (prior : option Z) (cs : list Z) : option (list item * list Z) :=
  match cs with
  | [] => None
  | c :: rest =>
      if c =? 93 then Some ([], rest)
      else match prior, rest with
           | Some lo, hi :: rest' =>
               if (c =? 45) && negb (hi =? 93) then
                 '(its, r) ← set_items None rest'; Some (Range lo hi :: its, r)
               else '(its, r) ← set_items (Some c) rest; Some (Single c :: its, r)
           | _, _ => '(its, r) ← set_items (Some c) rest; Some (Single c :: its, r)
           end
  end.

Definition parse_set (cs : list Z) : option (bool * list item * list Z) :=
  let '(invert, cs) := match cs with [] => (false, []) | c :: r => if c =? 94 then (true, r) else (false, cs) end in
  let '(first, cs) := match cs with [] => ([], []) | c :: r => if c =? 93 then ([Single 93], r) else ([], cs) end in
  '(its, rest) ← set_items None cs; Some (invert, first ++ its, rest).

Section tokens.
Variables (pInfo : compareInfo) (esc : Z).

(** An escape character at the end of the pattern is ignored, except after a
    run of wildcards that has a [matchAll], where nothing matches. *)
Fixpoint tokens (fuel : nat) (after_all : bool) (cs : list Z) : list token :=
  match fuel, cs with
  | S fuel, c :: cs =>
      if c =? matchAll pInfo then Any :: tokens fuel true cs
      else if c =? matchOne pInfo then One :: tokens fuel after_all cs
      else if c =? matchSet pInfo then
        match parse_set cs with
        | None => [Never]
        | Some (invert, items, rest) => Set_ invert items :: tokens fuel false rest
        end
      else if c =? esc then
        match cs with
        | [] => if after_all then [Never] else []
        | d :: cs => Lit d :: tokens fuel false cs
        end
      else Lit c :: tokens fuel false cs
  | _, _ => []
  end.

Inductive matches : list token -> list Z -> Prop :=
  | matches_nil : matches [] []
  | matches_any_none ts s : matches ts s -> matches (Any :: ts) s
  | matches_any_more ts c s : matches (Any :: ts) s -> matches (Any :: ts) (c :: s)
  | matches_one ts c s : matches ts s -> matches (One :: ts) (c :: s)
  | matches_lit a ts c s : folded pInfo a = folded pInfo c -> matches ts s -> matches (Lit a :: ts) (c :: s)
  | matches_set inv items ts c s :
      xorb (existsb (covers c) items) inv = true -> matches ts s -> matches (Set_ inv items :: ts) (c :: s).
End tokens.

Definition pattern_tokens (pInfo : compareInfo) (esc : Z) (zPattern : list Z) : list token :=
  tokens pInfo esc (length zPattern) false (decode zPattern).

(** ** Reading characters *)

Lemma utf8_replace_big c : 0x80 <= utf8_replace c.
Proof. unfold utf8_replace. case_bool; [lia|]. zbool. lia. Qed.

Lemma ctext_tail w c z : ctext z -> ctext (snd (utf8_tail w c z)).
Proof.
  intros Hz. revert c. induction Hz as [|b z Hb Hz IH]; intros c; simpl; [constructor|].
  case_bool; [apply IH|]. by constructor.
Qed.

Lemma skip_cont_tail w c z : skip_cont z = snd (utf8_tail w c z).
Proof. revert c. induction z as [|b z IH]; intros c; [done|]. simpl. case_bool; [apply IH|done]. Qed.

(** One step of [sqlite3Utf8Read] inside the string. *)
Lemma read_cons b z :
  ctext (b :: z) ->
  exists c z', sqlite3Utf8Read (b :: z) = (c, z') /\ SQLITE_SKIP_UTF8 (b :: z) = z' /\ 0 < c /\
    (length z' <= length z)%nat /\ ctext z' /\ (c < 0x80 \/ b < 0x80 -> c = b /\ z' = z).
Proof.
  intros Hz. inversion_clear Hz as [|? ? Hb Hz']. unfold sqlite3Utf8Read, SQLITE_SKIP_UTF8. cbn [chr tl].
  destruct (Z.leb_spec 0xc0 b); [|exists b, z; split_and!; (done || lia)].
  destruct (utf8_tail i32 (trans1 b) z) as [c z'] eqn:E. exists (utf8_replace c), z'.
  pose proof (utf8_replace_big c). pose proof (utf8_tail_length i32 (trans1 b) z) as Hl.
  pose proof (ctext_tail i32 (trans1 b) z Hz') as Ht. rewrite E in Hl, Ht. simpl in Hl, Ht.
  split_and!; try done; try lia.
  by rewrite (skip_cont_tail i32 (trans1 b)), E.
Qed.

Lemma read_nil : sqlite3Utf8Read [] = (0, []).
Proof. reflexivity. Qed.

Lemma decode_fuel n m z : ctext z -> (length z <= n)%nat -> (length z <= m)%nat -> decode_loop n z = decode_loop m z.
Proof.
  revert m z. induction n as [|n IH]; intros m z Hz Hn Hm; destruct z as [|b z]; simpl in Hn, Hm; try lia.
  1,2: by destruct m.
  destruct m as [|m]; [lia|]. simpl. destruct (read_cons b z Hz) as (c & z' & -> & _ & _ & Hl & Hz' & _).
  f_equal. apply IH; [done|lia|lia].
Qed.

Lemma decode_cons b z c z' :
  ctext (b :: z) -> sqlite3Utf8Read (b :: z) = (c, z') -> decode (b :: z) = c :: decode z'.
Proof.
  intros Hz E. unfold decode. cbn [length decode_loop]. rewrite E. f_equal.
  destruct (read_cons b z Hz) as (c1 & z1 & E1 & _ & _ & Hl & Hz' & _). rewrite E in E1. injection E1 as <- <-.
  by apply decode_fuel; try lia.
Qed.

(** The two ways a read can go, for a case analysis on any string. *)
Inductive read_view (z : list Z) : Z -> list Z -> list Z -> Prop :=
  | read_end : z = [] -> read_view z 0 [] []
  | read_char c z' :
      0 < c -> (length z' < length z)%nat -> ctext z' -> decode z = c :: decode z' ->
      SQLITE_SKIP_UTF8 z = z' -> (c < 0x80 \/ chr z < 0x80 -> z = c :: z') ->
      read_view z c z' (c :: decode z').

Lemma read_cases z : ctext z -> read_view z (fst (sqlite3Utf8Read z)) (snd (sqlite3Utf8Read z)) (decode z).
Proof.
  intros Hz. destruct z as [|b z]; [by constructor|].
  destruct (read_cons b z Hz) as (c & z' & E & Es & Hc & Hl & Hz' & Ha). rewrite E, (decode_cons _ _ _ _ Hz E). cbn [fst snd].
  constructor; try done; [simpl; lia|by apply decode_cons|].
  cbn [chr]. by intros [-> ->]%Ha.
Qed.

Lemma read_nonzero z c z' :
  ctext z -> sqlite3Utf8Read z = (c, z') -> c <> 0 ->
  0 < c /\ (length z' < length z)%nat /\ ctext z' /\ decode z = c :: decode z' /\ SQLITE_SKIP_UTF8 z = z' /\
  (c < 0x80 -> z = c :: z').
Proof.
  intros Hz E Hc. pose proof (read_cases z Hz) as Hv. rewrite E in Hv. cbn [fst snd] in Hv.
  destruct Hv; [done|]. split_and!; auto.
Qed.

Lemma read_zero z z' : ctext z -> sqlite3Utf8Read z = (0, z') -> z = [].
Proof.
  intros Hz E. pose proof (read_cases z Hz) as Hv. rewrite E in Hv. cbn [fst snd] in Hv.
  inversion Hv; [done|lia].
Qed.

Lemma decode_length z : ctext z -> (length (decode z) <= length z)%nat.
Proof.
  remember (length z) as n eqn:En. revert z En. induction n as [n IH] using lt_wf_ind. intros z -> Hz.
  destruct (read_cases z Hz) as [|c z' Hc Hl Hz' _ _ _]; subst; simpl; [lia|].
  specialize (IH _ Hl z' eq_refl Hz'). lia.
Qed.

Lemma folded_zero pInfo c : 0 <= c -> folded pInfo c = 0 <-> c = 0.
Proof.
  intros Hc. unfold folded, GlogUpperToLower. case_bool; [|done]. case_bool; [|done]. zbool.
  pose proof (utl_zero c ltac:(unfold is_u8; lia)). destruct (Z.eqb_spec (utl c) 0), (Z.eqb_spec c 0); try done; lia.
Qed.

(** ** Character sets *)

Definition pending (c2 : Z) (z : list Z) : list Z := if c2 =? 0 then [] else c2 :: decode z.

Lemma pending_read z : ctext z -> pending (fst (sqlite3Utf8Read z)) (snd (sqlite3Utf8Read z)) = decode z.
Proof.
  intros Hz. destruct (read_cases z Hz) as [->|c z' Hc ? ? ? ?]; [done|].
  unfold pending. by rewrite (proj2 (Z.eqb_neq c 0)) by lia.
Qed.

Lemma read_ctext z : ctext z ->
  ctext (snd (sqlite3Utf8Read z)) /\ 0 <= fst (sqlite3Utf8Read z) /\
  (length (snd (sqlite3Utf8Read z)) <= length z)%nat /\
  ((length (snd (sqlite3Utf8Read z)) < length z)%nat \/ fst (sqlite3Utf8Read z) = 0).
Proof.
  intros Hz. destruct (read_cases z Hz) as [->|c z' Hc ? ? ? ?]; simpl; split_and!; first [done | lia | by constructor].
Qed.

Definition prior_of (o : option Z) : Z := match o with Some p => p | None => 0 end.

(** Whether '-' makes a range: the byte test of the code and the character test
    of the grammar. *)
Lemma range_test P : ctext P ->
  negb (chr P =? 93) && negb (chr P =? 0) = match decode P with [] => false | hi :: _ => negb (hi =? 93) end.
Proof.
  intros HP. destruct (read_cases P HP) as [->|c z' Hc Hl Hz E Es Ha]; [done|].
  destruct P as [|b P]; [simpl in Hl; lia|]. inversion_clear HP as [|? ? Hb _]. cbn [chr] in *.
  rewrite (proj2 (Z.eqb_neq b 0)) by lia. rewrite andb_true_r. f_equal. apply eq_true_iff_eq. rewrite !Z.eqb_eq.
  split; intros ->; specialize (Ha ltac:(lia)); congruence.
Qed.

Lemma set_loop_spec fuel : forall c c2 prior seen P,
  ctext P -> 0 <= c2 -> (length P < fuel)%nat \/ c2 = 0 -> (forall p, prior = Some p -> 0 < p) ->
  let '(c2', seen', P') := set_loop fuel c c2 (prior_of prior) seen P in
  match set_items prior (pending c2 P) with
  | None => c2' = 0
  | Some (its, rest) =>
      c2' = 93 /\ seen' = seen || existsb (covers c) its /\ rest = decode P' /\ ctext P' /\ (length P' <= length P)%nat
  end.
Proof.
  induction fuel as [|fuel IH]; intros c c2 prior seen P HP Hc2 Hf Hprior.
  { destruct Hf as [?| ->]; [lia|]. done. }
  cbn [set_loop]. unfold pending. destruct (Z.eqb_spec c2 0) as [->|Hne]; [done|]. cbn [negb andb].
  cbn [set_items]. destruct (Z.eqb_spec c2 93) as [->|Hn93]; cbn [negb].
  { split_and!; try done. by rewrite orb_false_r. }
  destruct Hf as [Hf|?]; [|done].
  assert (Hsingle : forall seen0,
    seen0 = (if c =? c2 then true else seen) ->
    let '(c2', seen', P') := (let '(d, P) := sqlite3Utf8Read P in set_loop fuel c d c2 seen0 P) in
    match '(its, r) ← set_items (Some c2) (decode P); Some (Single c2 :: its, r) with
    | None => c2' = 0
    | Some (its, rest) =>
        c2' = 93 /\ seen' = seen || existsb (covers c) its /\ rest = decode P' /\ ctext P' /\ (length P' <= length P)%nat
    end).
  { intros seen0 ->. pose proof (read_ctext P HP) as (HP' & Hd0 & Hl & Hl'). rewrite <- (pending_read P HP).
    destruct (sqlite3Utf8Read P) as [d P1]. cbn [fst snd] in *.
    specialize (IH c d (Some c2) (if c =? c2 then true else seen) P1 HP' Hd0 ltac:(lia)). cbn [prior_of] in IH.
    specialize (IH ltac:(intros ? [= <-]; lia)). destruct (set_loop _ _ _ _ _ _) as [[c2' seen'] P'].
    destruct (set_items _ _) as [[its rest]|]; [|done]. simpl. destruct IH as (-> & -> & -> & ? & ?).
    split_and!; try done; [|lia]. destruct (c =? c2), seen; done. }
  rewrite <- (andb_assoc (c2 =? 45)), (range_test P HP).
  destruct prior as [lo|]; cbn [prior_of] in *.
  2: { rewrite !andb_false_r. by apply Hsingle. }
  specialize (Hprior lo eq_refl). rewrite (proj2 (Z.ltb_lt 0 lo)) by lia. rewrite andb_true_r.
  revert Hsingle. pose proof (read_cases P HP) as Hv. destruct (sqlite3Utf8Read P) as [hi P1] eqn:E. cbn [fst snd] in Hv.
  destruct Hv as [->|hi P1 Hhi Hl HP1 Ed _ _].
  { rewrite andb_false_r. intros Hs. by apply Hs. }
  destruct ((c2 =? 45) && negb (hi =? 93)); [|intros Hs; by apply Hs]. intros _.
  pose proof (read_ctext P1 HP1) as (HP' & Hd0 & Hl1 & Hl'). rewrite <- (pending_read P1 HP1).
  destruct (sqlite3Utf8Read P1) as [d P2]. cbn [fst snd] in *.
  specialize (IH c d None (if (lo <=? c) && (c <=? hi) then true else seen) P2 HP' Hd0 ltac:(lia)). cbn [prior_of] in IH.
  specialize (IH ltac:(done)). destruct (set_loop _ _ _ _ _ _) as [[c2' seen'] P'].
  destruct (set_items _ _) as [[its rest]|]; [|done]. simpl. destruct IH as (-> & -> & -> & ? & ?).
  split_and!; try done; [|lia]. destruct (_ && _), seen; done.
Qed.


(** The optional '^', and the optional ']' that is a member of the set. *)
Lemma pending_skip (A : Type) (k : Z) (yes no : A) c2 z1 :
  0 < k < 0x80 -> ctext z1 -> 0 <= c2 ->
  let '(a, c3, z2) := if c2 =? k then let '(c3, z2) := sqlite3Utf8Read z1 in (yes, c3, z2) else (no, c2, z1) in
  (match pending c2 z1 with [] => (no, []) | c :: r => if c =? k then (yes, r) else (no, pending c2 z1) end)
    = (a, pending c3 z2) /\ ctext z2 /\ 0 <= c3 /\ (length z2 <= length z1)%nat.
Proof.
  intros Hk Hz Hc. pose proof (pending_read z1 Hz) as Hp. pose proof (read_ctext z1 Hz) as (? & ? & ? & _).
  unfold pending at 1 2. destruct (Z.eqb_spec c2 0) as [->|Hn0].
  { rewrite (proj2 (Z.eqb_neq 0 k)) by lia. split_and!; (done || lia). }
  destruct (Z.eqb_spec c2 k) as [->|Hne].
  - destruct (sqlite3Utf8Read z1) as [c3 z3]. cbn [fst snd] in *. split_and!; try done; by rewrite Hp.
  - unfold pending. rewrite (proj2 (Z.eqb_neq c2 0)) by lia. by split_and!.
Qed.

Lemma match_set_spec c P :
  ctext P ->
  match parse_set (decode P) with
  | None => match_set c P = None
  | Some (inv, items, rest) =>
      exists P', rest = decode P' /\ ctext P' /\ (length P' <= length P)%nat /\
        match_set c P = if xorb (existsb (covers c) items) inv then Some P' else None
  end.
Proof.
  intros HP. unfold match_set, parse_set.
  pose proof (read_ctext P HP) as (HP1 & Hc2 & Hl1 & _). rewrite <- (pending_read P HP).
  destruct (sqlite3Utf8Read P) as [c2 P1]. cbn [fst snd] in *.
  pose proof (pending_skip bool 94 true false c2 P1 ltac:(lia) HP1 Hc2) as H1.
  destruct (if c2 =? 94 then _ else _) as [[inv c3] P2]. destruct H1 as (-> & HP2 & Hc3 & Hl2).
  pose proof (pending_skip (list item) 93 [Single 93] [] c3 P2 ltac:(lia) HP2 Hc3) as H2.
  pose proof (pending_skip bool 93 (c =? 93) false c3 P2 ltac:(lia) HP2 Hc3) as H3.
  assert (Hcov : forall first c4 P3, (if c3 =? 93 then let '(c3, z2) := sqlite3Utf8Read P2 in ([Single 93], c3, z2)
      else ([], c3, P2)) = (first, c4, P3) ->
    (if c3 =? 93 then let '(c3, z2) := sqlite3Utf8Read P2 in (c =? 93, c3, z2) else (false, c3, P2))
      = (existsb (covers c) first, c4, P3)).
  { intros first c4 P3. case_bool; [destruct (sqlite3Utf8Read P2)|]; intros [= <- <- <-]; simpl; by rewrite ?orb_false_r. }
  destruct (if c3 =? 93 then let '(_, _) := _ in ([Single 93], _, _) else _) as [[first c4] P3].
  rewrite (Hcov _ _ _ eq_refl) in *. destruct H2 as (-> & HP3 & Hc4 & Hl3). clear H3 Hcov.
  pose proof (set_loop_spec (S (length P3)) c c4 None (existsb (covers c) first) P3 HP3 Hc4 ltac:(lia) ltac:(done)) as H4.
  cbn [prior_of] in H4. destruct (set_loop _ _ _ _ _ _) as [[c5 seen] P4].
  destruct (set_items None _) as [[its rest]|]; simpl.
  - destruct H4 as (-> & -> & -> & ? & ?). exists P4. split_and!; try done; [lia|].
    rewrite existsb_app. cbn [Z.eqb orb]. by destruct (xorb _ _).
  - by subst c5.
Qed.

(** ** Tokens *)

Lemma set_items_length cs : forall prior its rest, set_items prior cs = Some (its, rest) -> (length rest < length cs)%nat.
Proof.
  induction cs as [cs IH] using (induction_ltof1 _ (@length Z)). unfold ltof in IH. intros prior its rest.
  destruct cs as [|c cs]; [done|]. cbn [set_items].
  assert (Hs : ('(its, r) ← set_items (Some c) cs; Some (Single c :: its, r)) = Some (its, rest) ->
    (length rest < length (c :: cs))%nat).
  { destruct (set_items (Some c) cs) as [[its' r]|] eqn:E; [|done]. simpl. intros [= _ <-].
    apply IH in E; simpl; lia. }
  case_bool; [intros [= _ <-]; simpl; lia|]. destruct prior as [lo|]; [|done]. destruct cs as [|hi cs]; [done|].
  case_bool; [|done]. destruct (set_items None cs) as [[its' r]|] eqn:E; [|done]. simpl. intros [= _ <-].
  apply IH in E; simpl in *; lia.
Qed.

Lemma parse_set_length cs inv items rest : parse_set cs = Some (inv, items, rest) -> (length rest < length cs)%nat.
Proof.
  unfold parse_set. intros H.
  assert (Hk : forall A k (yes no : A) cs x cs', match cs with [] => (no, []) | c :: r => if c =? k then (yes, r) else (no, cs) end
    = (x, cs') -> (length cs' <= length cs)%nat).
  { intros A k yes no [|c l] x cs'; [intros [= _ <-]; done|]. case_bool; intros [= _ <-]; simpl; lia. }
  destruct (match cs with [] => (false, []) | c :: r => if c =? 94 then (true, r) else (false, cs) end) as [i cs1] eqn:E1.
  destruct (match cs1 with [] => ([], []) | c :: r => if c =? 93 then ([Single 93], r) else ([], cs1) end) as [f cs2] eqn:E2.
  apply Hk in E1, E2. destruct (set_items None cs2) as [[its r]|] eqn:E; [|done]. simpl in H. injection H as _ _ <-.
  apply set_items_length in E. lia.
Qed.

Section correct.
Variables (pInfo : compareInfo) (esc : Z).

(** The tables of the program and their use: LIKE has no sets, GLOB has no
    escape character. *)
Definition info_ok : Prop :=
  0 < matchAll pInfo /\ 0 < matchOne pInfo /\ matchOne pInfo <> matchAll pInfo /\ 0 <= matchSet pInfo < 0x80 /\ (matchSet pInfo = 0 \/ esc = 0).

Definition toks (a : bool) (cs : list Z) : list token := tokens pInfo esc (length cs) a cs.

Lemma tokens_fuel n m a cs :
  (length cs <= n)%nat -> (length cs <= m)%nat -> tokens pInfo esc n a cs = tokens pInfo esc m a cs.
Proof.
  revert m a cs. induction n as [|n IH]; intros m a cs Hn Hm; destruct cs as [|c cs]; simpl in Hn, Hm; try lia.
  1,2: by destruct m.
  destruct m as [|m]; [lia|]. cbn [tokens]. case_bool; [f_equal; apply IH; lia|]. case_bool; [f_equal; apply IH; lia|].
  case_bool.
  { destruct (parse_set cs) as [[[inv items] rest]|] eqn:E; [|done]. apply parse_set_length in E. f_equal. apply IH; lia. }
  case_bool; [|f_equal; apply IH; lia]. destruct cs as [|d cs]; [done|]. simpl in *. f_equal. apply IH; lia.
Qed.

Lemma toks_cons a c cs :
  toks a (c :: cs) =
    if c =? matchAll pInfo then Any :: toks true cs
    else if c =? matchOne pInfo then One :: toks a cs
    else if c =? matchSet pInfo then
      match parse_set cs with None => [Never] | Some (invert, items, rest) => Set_ invert items :: toks false rest end
    else if c =? esc then
      match cs with [] => if a then [Never] else [] | d :: cs => Lit d :: toks false cs end
    else Lit c :: toks false cs.
Proof.
  unfold toks. cbn [length tokens]. repeat (case_bool; [done|]).
  case_bool; [destruct (parse_set cs) as [[[inv items] rest]|] eqn:E; [|done]; apply parse_set_length in E|
    case_bool; [destruct cs as [|d cs]; [done|]|done]].
  all: f_equal; apply tokens_fuel; simpl in *; lia.
Qed.

(** ** Runs of wildcards *)

Lemma any_any ts s : matches pInfo (Any :: Any :: ts) s <-> matches pInfo (Any :: ts) s.
Proof.
  split; [|by constructor]. intros H. remember (Any :: Any :: ts) as l eqn:El.
  induction H; try done; injection El as ->; [done|]. apply matches_any_more. by apply IHmatches.
Qed.

Lemma any_iff ts s : matches pInfo (Any :: ts) s <-> exists s1 s2, s = s1 ++ s2 /\ matches pInfo ts s2.
Proof.
  split.
  - intros H. remember (Any :: ts) as l eqn:El. induction H; try done; injection El as ->.
    + by exists [], s.
    + destruct IHmatches as (s1 & s2 & -> & ?); [done|]. by exists (c :: s1), s2.
  - intros (s1 & s2 & -> & H). induction s1; by constructor.
Qed.

Lemma any_nil ts : matches pInfo (Any :: ts) [] <-> matches pInfo ts [].
Proof.
  rewrite any_iff. split; [intros (s1 & s2 & E & H); symmetry in E; by apply app_eq_nil in E as [-> ->]|].
  intros H. by exists [], [].
Qed.

Lemma any_cons ts c s : matches pInfo (Any :: ts) (c :: s) <-> matches pInfo ts (c :: s) \/ matches pInfo (Any :: ts) s.
Proof. split; [inversion 1; auto|intros [?|?]; by constructor]. Qed.

Lemma one_iff ts s : matches pInfo (One :: ts) s <-> exists c s', s = c :: s' /\ matches pInfo ts s'.
Proof. split; [inversion 1; eauto|intros (? & ? & -> & ?); by constructor]. Qed.

Lemma any_one ts s : matches pInfo (Any :: One :: ts) s <-> exists c s', s = c :: s' /\ matches pInfo (Any :: ts) s'.
Proof.
  induction s as [|c s IH]; [rewrite any_nil, one_iff; naive_solver|].
  rewrite any_cons, one_iff, IH. split.
  - intros [(? & ? & [= <- <-] & ?)|(? & ? & -> & ?)]; eexists _, _; (split; [done|]); [by apply matches_any_none|by apply matches_any_more].
  - intros (? & ? & [= <- <-] & H). destruct s as [|d s]; [rewrite any_nil in H; left; eauto|].
    rewrite any_cons in H. destruct H as [?|?]; [left|right]; eauto.
Qed.

Lemma lit_iff a ts s :
  matches pInfo (Lit a :: ts) s <-> exists c s', s = c :: s' /\ folded pInfo a = folded pInfo c /\ matches pInfo ts s'.
Proof. split; [inversion 1; eauto 6|intros (? & ? & -> & ? & ?); by constructor]. Qed.

Lemma set_iff inv items ts s :
  matches pInfo (Set_ inv items :: ts) s <->
  exists c s', s = c :: s' /\ xorb (existsb (covers c) items) inv = true /\ matches pInfo ts s'.
Proof. split; [inversion 1; eauto 6|intros (? & ? & -> & ? & ?); by constructor]. Qed.

Lemma never_iff ts s : ~ matches pInfo (Never :: ts) s.
Proof. inversion 1. Qed.

Lemma nil_iff s : matches pInfo [] s <-> s = [].
Proof. split; [by inversion 1|intros ->; constructor]. Qed.

(** The run of wildcards keeps what is matched; [P'] is where its last read
    started. *)
Lemma wildcard_run_spec fuel : forall P S,
  info_ok -> ctext P -> ctext S -> (length P < fuel)%nat ->
  match wildcard_run pInfo fuel P S with
  | None => ~ matches pInfo (Any :: toks true (decode P)) (decode S)
  | Some (c, P1, S1) =>
      exists P', sqlite3Utf8Read P' = (c, P1) /\ ctext P' /\ ctext S1 /\ (length P' <= length P)%nat /\
        c <> matchAll pInfo /\ c <> matchOne pInfo /\
        (matches pInfo (Any :: toks true (decode P)) (decode S) <->
         matches pInfo (Any :: toks true (decode P')) (decode S1))
  end.
Proof.
  intros P S (HA & HO & HOA & _). revert P S.
  induction fuel as [|fuel IH]; intros P S HP HS Hf; [lia|]. cbn [wildcard_run].
  destruct (sqlite3Utf8Read P) as [c P1] eqn:EP.
  assert (Hgo : forall S0, ctext S0 -> (length P1 < length P)%nat -> ctext P1 ->
    (matches pInfo (Any :: toks true (decode P)) (decode S) <-> matches pInfo (Any :: toks true (decode P1)) (decode S0)) ->
    match wildcard_run pInfo fuel P1 S0 with
    | None => ~ matches pInfo (Any :: toks true (decode P)) (decode S)
    | Some (c, P1', S1) =>
        exists P', sqlite3Utf8Read P' = (c, P1') /\ ctext P' /\ ctext S1 /\ (length P' <= length P)%nat /\
          c <> matchAll pInfo /\ c <> matchOne pInfo /\
          (matches pInfo (Any :: toks true (decode P)) (decode S) <->
           matches pInfo (Any :: toks true (decode P')) (decode S1))
    end).
  { intros S0 HS0 Hl HP1 Heq. specialize (IH P1 S0 HP1 HS0 ltac:(lia)).
    destruct (wildcard_run _ _ _ _) as [[[c' P1'] S1]|]; [|by rewrite Heq].
    destruct IH as (P' & ? & ? & ? & ? & ? & ? & IH). exists P'. rewrite Heq. split_and!; by try lia. }
  destruct (Z.eqb_spec c (matchOne pInfo)) as [->|HnO].
  - destruct (read_nonzero _ _ _ HP EP ltac:(lia)) as (Hc & Hl & HP1 & Ed & _). rewrite orb_true_r. rewrite Ed in Hgo |- *.
    rewrite toks_cons, Z.eqb_refl, (proj2 (Z.eqb_neq _ _) HOA) in Hgo |- *.
    destruct (sqlite3Utf8Read S) as [c2 S1] eqn:ES. destruct (Z.eqb_spec c2 0) as [->|Hc2].
    { apply read_zero in ES as ->; [|done]. rewrite any_one. naive_solver. }
    destruct (read_nonzero _ _ _ HS ES Hc2) as (_ & _ & HS1 & EdS & _). apply Hgo; try done. rewrite any_one, EdS. naive_solver.
  - rewrite orb_false_r. destruct (Z.eqb_spec c (matchAll pInfo)) as [->|HnA]; [|by exists P].
    destruct (read_nonzero _ _ _ HP EP ltac:(lia)) as (Hc & Hl & HP1 & Ed & _). apply Hgo; try done.
    rewrite Ed, toks_cons, Z.eqb_refl. apply any_any.
Qed.

(** A recursive call that decides [ts] on every string. *)
Definition decides (f : list Z -> option bool) (ts : list token) : Prop :=
  forall S, ctext S -> exists b, f S = Some b /\ (b = true <-> matches pInfo ts (decode S)).

Lemma search_char_spec rec fuel c P ts :
  decides (rec P) ts -> forall S, ctext S -> (length S < fuel)%nat ->
  exists b, search_char pInfo rec fuel c P S = Some b /\ (b = true <-> matches pInfo (Any :: Lit c :: ts) (decode S)).
Proof.
  intros Hrec. induction fuel as [|fuel IH]; intros S HS Hf; [lia|]. cbn [search_char].
  destruct (sqlite3Utf8Read S) as [c2 S1] eqn:ES. destruct (Z.eqb_spec c2 0) as [->|Hc2].
  { apply read_zero in ES as ->; [|done]. exists false. rewrite any_nil, lit_iff. naive_solver. }
  destruct (read_nonzero _ _ _ HS ES Hc2) as (_ & Hl & HS1 & -> & _).
  pose proof (any_cons (Lit c :: ts) c2 (decode S1)) as Hm. rewrite lit_iff in Hm.
  destruct (IH S1 HS1 ltac:(lia)) as (b & -> & Hb). destruct (Z.eqb_spec (folded pInfo c2) (folded pInfo c)) as [He|Hne]; cbn [negb].
  - destruct (Hrec S1 HS1) as (r & -> & Hr). simpl. destruct r.
    + exists true. naive_solver.
    + exists b. split; [done|]. rewrite Hb, Hm. naive_solver.
  - exists b. split; [done|]. rewrite Hb, Hm. naive_solver.
Qed.

Lemma search_set_spec rec fuel P ts :
  decides (rec (matchSet pInfo :: P)) ts -> ~ matches pInfo ts [] -> forall S, ctext S -> (length S < fuel)%nat ->
  exists b, search_set pInfo rec fuel P S = Some b /\ (b = true <-> matches pInfo (Any :: ts) (decode S)).
Proof.
  intros Hrec Hne. induction fuel as [|fuel IH]; intros S HS Hf; [lia|]. cbn [search_set].
  destruct S as [|x S]; [exists false; by rewrite any_nil|].
  destruct (read_cons x S HS) as (c & S1 & E & -> & Hc & Hl & HS1 & _). simpl in Hf.
  destruct (IH S1 HS1 ltac:(lia)) as (b & -> & Hb). destruct (Hrec _ HS) as (r & -> & Hr).
  rewrite (decode_cons _ _ _ _ HS E) in Hr |- *. pose proof (any_cons ts c (decode S1)) as Hm. simpl. destruct r.
  - exists true. naive_solver.
  - exists b. split; [done|]. rewrite Hb, Hm. naive_solver.
Qed.

(** The tokens left for the main loop: after an escape the next character is
    taken literally. *)
Definition loop_toks (prevEscape : bool) (cs : list Z) : list token :=
  if prevEscape then match cs with [] => [] | d :: cs => Lit d :: toks false cs end else toks false cs.

Lemma after_run fuel S c P1 P' :
  info_ok -> (forall P, ctext P -> (length P < fuel)%nat -> decides (patternCompare_loop pInfo esc fuel false P) (toks false (decode P))) ->
  ctext S -> ctext P' -> (length P' < fuel)%nat -> sqlite3Utf8Read P' = (c, P1) -> c <> matchAll pInfo -> c <> matchOne pInfo ->
  let search c P := search_char pInfo (patternCompare_loop pInfo esc fuel false) (Datatypes.S (length S)) c P S in
  exists b,
    (if c =? 0 then Some true
     else if c =? esc then
       let '(c, P) := sqlite3Utf8Read P1 in if c =? 0 then Some false else search c P
     else if c =? matchSet pInfo then
       search_set pInfo (patternCompare_loop pInfo esc fuel false) (Datatypes.S (length S)) P1 S
     else search c P1) = Some b /\
    (b = true <-> matches pInfo (Any :: toks true (decode P')) (decode S)).
Proof.
  intros (_ & _ & _ & Hset & Hexc) IH HS HP' Hl E HnA HnO. cbv zeta.
  destruct (Z.eqb_spec c 0) as [->|Hc].
  { apply read_zero in E as ->; [|done]. exists true. split; [done|]. rewrite any_iff. split; [|done].
    intros _. exists (decode S), []. rewrite app_nil_r. split; [done|constructor]. }
  destruct (read_nonzero _ _ _ HP' E Hc) as (Hpos & Hl1 & HP1 & Ed & _ & Hascii).
  assert (Hsearch : forall d P, ctext P -> (length P < fuel)%nat -> toks true (decode P') = Lit d :: toks false (decode P) ->
    exists b, search_char pInfo (patternCompare_loop pInfo esc fuel false) (Datatypes.S (length S)) d P S = Some b /\
      (b = true <-> matches pInfo (Any :: toks true (decode P')) (decode S))).
  { intros d P HP Hf ->. apply search_char_spec; [by apply IH|done|lia]. }
  assert (Htoks : forall a, toks a (decode P') = if c =? matchSet pInfo then
      match parse_set (decode P1) with None => [Never] | Some (invert, items, rest) => Set_ invert items :: toks false rest end
    else if c =? esc then
      match decode P1 with [] => if a then [Never] else [] | d :: cs => Lit d :: toks false cs end
    else Lit c :: toks false (decode P1)).
  { intros a. rewrite Ed, toks_cons. by rewrite (proj2 (Z.eqb_neq _ _) HnA), (proj2 (Z.eqb_neq _ _) HnO). }
  destruct (Z.eqb_spec c esc) as [->|Hne].
  - assert (Hms : (esc =? matchSet pInfo) = false) by (apply Z.eqb_neq; lia). rewrite Hms in Htoks.
    destruct (sqlite3Utf8Read P1) as [d P2] eqn:E2. destruct (Z.eqb_spec d 0) as [->|Hd].
    + apply read_zero in E2 as ->; [|done]. exists false. split; [done|]. rewrite Htoks. simpl.
      split; [done|]. rewrite any_iff. intros (? & ? & _ & H). by apply never_iff in H.
    + destruct (read_nonzero _ _ _ HP1 E2 Hd) as (_ & Hl2 & HP2 & Ed2 & _).
      apply Hsearch; [done|lia|]. by rewrite Htoks, Ed2.
  - destruct (Z.eqb_spec c (matchSet pInfo)) as [->|Hns].
    + apply search_set_spec; [| |done|lia].
      * rewrite <- Hascii by lia. rewrite (Htoks true), <- (Htoks false). by apply IH.
      * rewrite Htoks. destruct (parse_set (decode P1)) as [[[inv items] rest]|]; [|apply never_iff].
        rewrite set_iff. naive_solver.
    + apply Hsearch; [done|lia|by rewrite Htoks].
Qed.

Lemma patternCompare_loop_spec fuel : forall prevEscape P,
  info_ok -> (prevEscape = true -> esc <> 0) -> ctext P -> (length P < fuel)%nat ->
  decides (patternCompare_loop pInfo esc fuel prevEscape P) (loop_toks prevEscape (decode P)).
Proof.
  induction fuel as [|fuel IH]; intros pe P Hi Hpe HP Hf S HS; [lia|]. cbn [patternCompare_loop].
  pose proof Hi as (HA & HO & HOA & Hset & Hexc).
  destruct (sqlite3Utf8Read P) as [c P1] eqn:EP. destruct (Z.eqb_spec c 0) as [->|Hc].
  { apply read_zero in EP as ->; [|done]. eexists. split; [done|].
    replace (loop_toks pe (decode [])) with (@nil token) by (by destruct pe). rewrite nil_iff.
    destruct S as [|x S]; [done|]. inversion_clear HS. cbn [chr]. rewrite Z.eqb_eq.
    split; [lia|]. intros E. destruct (read_cons x S) as (c & z & Er & _); [by constructor|].
    rewrite (decode_cons _ _ _ _ ltac:(by constructor) Er) in E. done. }
  destruct (read_nonzero _ _ _ HP EP Hc) as (Hpos & Hl1 & HP1 & Ed & _ & Hascii). rewrite Ed.
  destruct (negb pe && (c =? matchAll pInfo)) eqn:E1.
  { apply andb_prop in E1 as [->%negb_true_iff ->%Z.eqb_eq]. cbn [loop_toks]. rewrite toks_cons, Z.eqb_refl.
    pose proof (wildcard_run_spec (Datatypes.S (length P1)) P1 S Hi HP1 HS ltac:(lia)) as Hw.
    destruct (wildcard_run _ _ _ _) as [[[c P2] S2]|]; [|exists false; naive_solver].
    destruct Hw as (P' & E & HP' & HS2 & Hl' & HnA & HnO & Hiff).
    destruct (after_run fuel S2 c P2 P' Hi) as (b & Hb & Hm); try done; [|lia|exists b; by rewrite Hiff].
    intros Q HQ Hq. by apply (IH false Q). }
  destruct (negb pe && (c =? matchOne pInfo)) eqn:E2.
  { apply andb_prop in E2 as [->%negb_true_iff ->%Z.eqb_eq]. cbn [loop_toks].
    rewrite toks_cons, Z.eqb_refl, (proj2 (Z.eqb_neq _ _) HOA).
    destruct (sqlite3Utf8Read S) as [c2 S1] eqn:ES. destruct (Z.eqb_spec c2 0) as [->|Hc2].
    { apply read_zero in ES as ->; [|done]. exists false. rewrite one_iff. naive_solver. }
    destruct (read_nonzero _ _ _ HS ES Hc2) as (_ & _ & HS1 & -> & _).
    destruct (IH false P1 Hi ltac:(done) HP1 ltac:(lia) S1 HS1) as (b & -> & Hb). exists b. rewrite one_iff. naive_solver. }
  assert (Htoks : loop_toks pe (c :: decode P1) = if pe then Lit c :: toks false (decode P1) else
    if c =? matchSet pInfo then
      match parse_set (decode P1) with None => [Never] | Some (invert, items, rest) => Set_ invert items :: toks false rest end
    else if c =? esc then loop_toks true (decode P1) else Lit c :: toks false (decode P1)).
  { destruct pe; [done|]. cbn [loop_toks negb andb] in *. rewrite toks_cons, E1, E2. by destruct (decode P1). }
  rewrite Htoks. clear Htoks. destruct (Z.eqb_spec c (matchSet pInfo)) as [->|Hns].
  { destruct pe; [specialize (Hpe eq_refl); lia|]. destruct (sqlite3Utf8Read S) as [c2 S1] eqn:ES.
    assert (Hx : matches pInfo [Never] (decode S) <-> False) by (split; [apply never_iff|done]).
    pose proof (match_set_spec c2 P1 HP1) as Hm. destruct (Z.eqb_spec c2 0) as [->|Hc2].
    { apply read_zero in ES as ->; [|done]. exists false. split; [done|].
      destruct (parse_set _) as [[[inv items] rest]|]; [rewrite set_iff; naive_solver|by rewrite Hx]. }
    destruct (read_nonzero _ _ _ HS ES Hc2) as (_ & _ & HS1 & EdS & _).
    destruct (parse_set (decode P1)) as [[[inv items] rest]|]; [|rewrite Hm; exists false; by rewrite Hx].
    destruct Hm as (P' & -> & HP' & Hl' & ->). rewrite EdS.
    destruct (xorb _ inv) eqn:Ex; [|exists false; rewrite set_iff; naive_solver].
    destruct (IH false P' Hi ltac:(done) HP' ltac:(lia) S1 HS1) as (b & -> & Hb). exists b. rewrite set_iff. naive_solver. }
  rewrite (Z.eqb_sym esc c). destruct ((c =? esc) && negb pe) eqn:E3.
  { apply andb_prop in E3 as [->%Z.eqb_eq ->%negb_true_iff]. rewrite Z.eqb_refl.
    by apply IH; try lia. }
  assert (Hlit : (if pe then Lit c :: toks false (decode P1) else
    if c =? esc then loop_toks true (decode P1) else Lit c :: toks false (decode P1)) = Lit c :: toks false (decode P1)).
  { destruct pe; [done|]. cbn [negb] in E3. rewrite andb_true_r in E3. by rewrite E3. }
  rewrite Hlit. clear Hlit E3. destruct (sqlite3Utf8Read S) as [c2 S1] eqn:ES.
  destruct (Z.eqb_spec c2 0) as [->|Hc2].
  { apply read_zero in ES as ->; [|done]. exists false. rewrite lit_iff.
    rewrite (proj2 (Z.eqb_neq _ _)); [naive_solver|]. rewrite (proj2 (folded_zero pInfo 0 ltac:(lia)) eq_refl).
    rewrite folded_zero by lia. lia. }
  destruct (read_nonzero _ _ _ HS ES Hc2) as (_ & _ & HS1 & -> & _).
  destruct (Z.eqb_spec (folded pInfo c) (folded pInfo c2)); cbn [negb]; [|exists false; rewrite lit_iff; naive_solver].
  destruct (IH false P1 Hi ltac:(done) HP1 ltac:(lia) S1 HS1) as (b & -> & Hb). exists b. rewrite lit_iff. naive_solver.
Qed.
End correct.

Lemma patternCompare_spec pInfo esc P S :
  info_ok pInfo esc -> ctext P -> ctext S ->
  exists b, patternCompare pInfo esc P S = Some b /\
    (b = true <-> matches pInfo (pattern_tokens pInfo esc P) (decode S)).
Proof.
  intros Hi HP HS. unfold patternCompare, pattern_tokens.
  rewrite (tokens_fuel pInfo esc _ (length (decode P))) by (apply decode_length in HP; lia).
  by apply (patternCompare_loop_spec pInfo esc (Datatypes.S (length P)) false P); try lia.
Qed.

(** C34. Whatever the pattern and the string, [patternCompare] returns, and it
    returns true exactly when the pattern, read as a sequence of tokens, matches
    the string's characters: '%' or '*' any number of characters, '_' or '?' one,
    a set one character in (or not in) its members and ranges, anything else the
    character itself, up to ASCII case for LIKE.  This covers the backtracking
    after a wildcard and the optimised search for the character after it. *)
Theorem pattern_compare_correct pInfo esc P S :
  info_ok pInfo esc -> ctext P -> ctext S ->
  exists b, patternCompare pInfo esc P S = Some b /\
    (b = true <-> matches pInfo (pattern_tokens pInfo esc P) (decode S)).
Proof. apply patternCompare_spec. Qed.

Lemma pattern_compare_correct_witness :
  matches globInfo [Lit 97; Any; Set_ true [Single 48; Range 48 57]; One] (decode [97; 49; 98; 195; 169]).
Proof.
  destruct (pattern_compare_correct globInfo 0 [97; 42; 91; 94; 48; 45; 57; 93; 63] [97; 49; 98; 195; 169])
    as (b & E & Hb); [unfold info_ok; simpl; lia|repeat constructor; lia|repeat constructor; lia|].
  vm_compute in E. injection E as <-. exact (proj1 Hb eq_refl).
Defined.

(** ** The SQL functions *)

Lemma info_ok_glob : info_ok globInfo 0.
Proof. unfold info_ok. simpl. lia. Qed.

Lemma info_ok_like esc : info_ok likeInfoNorm esc /\ info_ok likeInfoAlt esc.
Proof. unfold info_ok. simpl. lia. Qed.

(** The LIKE operator on non-NULL text: a pattern over the limit and an
    ESCAPE string that is not one character are reported as errors, whatever the
    other arguments; otherwise the result is 1 exactly when the pattern, with the
    escape character if there is one, matches ignoring ASCII case. *)
Theorem like_func_correct limit P S (zEsc : option (list Z)) :
  ctext P -> ctext S ->
  let r := likeFunc likeInfoNorm limit (Some P) (Some S) (option_map Some zEsc) in
  if limit <? Z.of_nat (length P) then r = Some (ResultError 0)
  else match zEsc with
       | Some z =>
           if sqlite3Utf8CharLen z (-1) =? 1 then
             exists b, r = Some (ResultInt b) /\
               (b = true <-> matches likeInfoNorm (pattern_tokens likeInfoNorm (fst (sqlite3Utf8Read z)) P) (decode S))
           else r = Some (ResultError 1)
       | None =>
           exists b, r = Some (ResultInt b) /\
             (b = true <-> matches likeInfoNorm (pattern_tokens likeInfoNorm 0 P) (decode S))
       end.
Proof.
  intros HP HS. unfold likeFunc. destruct (limit <? _); [done|]. cbv zeta.
  destruct zEsc as [z|]; cbn [option_map]; [destruct (_ =? 1); cbn [negb]; [|done]|];
    (edestruct patternCompare_spec as (b & -> & Hb); [apply info_ok_like|done|done|by exists b]).
Qed.

Lemma like_func_correct_witness :
  matches likeInfoNorm [Lit 97; Lit 37; Any] (decode [65; 37; 120]).
Proof.
  pose proof (like_func_correct 50000 [97; 92; 37; 37] [65; 37; 120] (Some [92])
    ltac:(repeat constructor; lia) ltac:(repeat constructor; lia)) as H.
  destruct H as (b & E & Hb). vm_compute in E. injection E as <-. exact (proj1 Hb eq_refl).
Defined.
