(* ===== verification/Hash.v ===== *)
(** * Hash: the generic hash table

    Models hash.c of [src/whip-server/sqlite/sqlite3.c] on an explicit heap of
    elements: the doubly linked list of all elements, the bucket array whose
    entries point into that list, and every pointer update.  A NULL pointer is
    [None]; an operation returns [None] when it would dereference a pointer to no
    element or index outside the bucket array.  [data] is the client's pointer,
    0 for NULL.  Element counts are unbounded integers: each counted element is
    an allocation.  The results of [sqlite3Malloc] are arguments of the
    operations. *)
From S2P Require Import Prelude Text.
From stdpp Require Import list gmap.
#[local] Open Scope Z_scope.

Notation loc := positive.

(** nKey is the length of [pKey]. *)
Record HashElem := { next : option loc; prev : option loc; data : Z; pKey : list Z }.

Definition nKey (e : HashElem) : Z := Z.of_nat (length (pKey e)).

Record Hash := {
  htsize : Z;
  count : Z;
  first : option loc;
  ht : option (list (Z * option loc));   (* struct _ht: count, chain *)
  heap : gmap loc HashElem
}.

Definition set_next (l : loc) (v : option loc) (m : gmap loc HashElem) : option (gmap loc HashElem) :=
  e ← m !! l; Some (<[l := {| next := v; prev := prev e; data := data e; pKey := pKey e |}]> m).

Definition set_prev (l : loc) (v : option loc) (m : gmap loc HashElem) : option (gmap loc HashElem) :=
  e ← m !! l; Some (<[l := {| next := next e; prev := v; data := data e; pKey := pKey e |}]> m).

Definition set_key_data (l : loc) (k : list Z) (d : Z) (m : gmap loc HashElem) : option (gmap loc HashElem) :=
  e ← m !! l; Some (<[l := {| next := next e; prev := prev e; data := d; pKey := k |}]> m).

Definition sqlite3HashInit : Hash := {| htsize := 0; count := 0; first := None; ht := None; heap := ∅ |}.

(** while( elem ){ next_elem = elem->next; sqlite3_free(elem); elem = next_elem; } *)
Fixpoint free_loop (fuel : nat) (elem : option loc) (m : gmap loc HashElem) : option (gmap loc HashElem) :=
  match elem with
  | None => Some m
  | Some l =>
      match fuel with
      | O => None
      | S fuel => e ← m !! l; free_loop fuel (next e) (delete l m)
      end
  end.

Definition sqlite3HashClear (pH : Hash) : option Hash :=
  m ← free_loop (size (heap pH)) (first pH) (heap pH);
  Some {| htsize := 0; count := 0; first := None; ht := None; heap := m |}.

Definition strHash (z : list Z) : Z :=
  u32 (fold_left (fun h c => i32 (Z.lxor (Z.lxor (Z.shiftl h 3) h) (utl c))) z 0).

(** if( pHead ){ ... }: link [x] before [hd]; the heap and pH->first. *)
Definition splice (m : gmap loc HashElem) (fst0 : option loc) (x hd : loc) : option (gmap loc HashElem * option loc) :=
  m ← set_next x (Some hd) m;
  ehd ← m !! hd;
  m ← set_prev x (prev ehd) m;
  '(m, fst) ← match prev ehd with
              | Some p => m ← set_next p (Some x) m; Some (m, fst0)
              | None => Some (m, Some x)
              end;
  m ← set_prev hd (Some x) m; Some (m, fst).

Definition insertElement (pH : Hash) (pEntry : option Z) (pNew : loc) : option Hash :=
  '(pHead, ht') ← match pEntry with
                  | Some h =>
                      tbl ← ht pH; '(cnt, chain) ← rd tbl h;
                      tbl' ← wr tbl h (cnt + 1, Some pNew);
                      Some (if cnt =? 0 then None else chain, Some tbl')
                  | None => Some (None, ht pH)
                  end;
  match pHead with
  | Some hd =>
      '(m, fst) ← splice (heap pH) (first pH) pNew hd;
      Some {| htsize := htsize pH; count := count pH; first := fst; ht := ht'; heap := m |}
  | None =>
      m ← set_next pNew (first pH) (heap pH);
      m ← match first pH with Some f => set_prev f (Some pNew) m | None => Some m end;
      m ← set_prev pNew None m;
      Some {| htsize := htsize pH; count := count pH; first := Some pNew; ht := ht'; heap := m |}
  end.

Definition SQLITE_MALLOC_SOFT_LIMIT : Z := 1024.
Definition sizeof_ht : Z := 16.

(** for(elem=pH->first, pH->first=0; elem; elem = next_elem) *)
Fixpoint rehash_loop (fuel : nat) (elem : option loc) (new_size : Z) (pH : Hash) : option Hash :=
  match elem with
  | None => Some pH
  | Some l =>
      match fuel with
      | O => None
      | S fuel =>
          e ← heap pH !! l;
          let h := strHash (pKey e) mod new_size in
          pH ← insertElement pH (Some h) l;
          rehash_loop fuel (next e) new_size pH
      end
  end.

(** [malloc new_size] is the number of entries the allocation for [new_size]
    entries has room for, [None] when it fails. *)
Definition rehash (malloc : Z -> option Z) (pH : Hash) (new_size : Z) : option (bool * Hash) :=
  let new_size :=
    if SQLITE_MALLOC_SOFT_LIMIT <? new_size * sizeof_ht then SQLITE_MALLOC_SOFT_LIMIT / sizeof_ht
    else new_size in
  if new_size =? htsize pH then Some (false, pH)
  else match malloc new_size with
       | None => Some (false, pH)
       | Some new_size =>
           pH' ← rehash_loop (size (heap pH)) (first pH) new_size
             {| htsize := new_size; count := count pH; first := None;
                ht := Some (replicate (Z.to_nat new_size) (0, None)); heap := heap pH |};
           Some (true, pH')
       end.

(** while( count-- && elem ) *)
Fixpoint find_loop (cnt : nat) (elem : option loc) (key : list Z) (m : gmap loc HashElem)
    : option (option loc) :=
  match cnt, elem with
  | S cnt, Some l =>
      e ← m !! l;
      if (nKey e =? Z.of_nat (length key)) && (sqlite3_strnicmp (pKey e) key (Z.of_nat (length key)) =? 0)
      then Some (Some l) else find_loop cnt (next e) key m
  | _, _ => Some None
  end.

Definition findElementGivenHash (pH : Hash) (key : list Z) (h : Z) : option (option loc) :=
  match ht pH with
  | Some tbl => '(cnt, chain) ← rd tbl h; find_loop (Z.to_nat cnt) chain key (heap pH)
  | None => find_loop (Z.to_nat (count pH)) (first pH) key (heap pH)
  end.

(** Take [e] out of the list; the heap and pH->first. *)
Definition unlink (m : gmap loc HashElem) (fst0 : option loc) (e : HashElem) : option (gmap loc HashElem * option loc) :=
  '(m, fst) ← match prev e with
              | Some p => m ← set_next p (next e) m; Some (m, fst0)
              | None => Some (m, next e)
              end;
  m ← match next e with Some n => set_prev n (prev e) m | None => Some m end;
  Some (m, fst).

Definition removeElementGivenHash (pH : Hash) (elem : loc) (h : Z) : option Hash :=
  e ← heap pH !! elem;
  '(m, fst) ← unlink (heap pH) (first pH) e;
  ht' ← match ht pH with
        | Some tbl =>
            '(cnt, chain) ← rd tbl h;
            let chain := if decide (chain = Some elem) then next e else chain in
            tbl' ← wr tbl h (cnt - 1, chain); Some (Some tbl')
        | None => Some None
        end;
  let pH := {| htsize := htsize pH; count := count pH - 1; first := fst; ht := ht'; heap := delete elem m |} in
  if count pH <=? 0 then sqlite3HashClear pH else Some pH.

Definition sqlite3HashFind (pH : Hash) (key : list Z) : option Z :=
  let h := match ht pH with Some _ => strHash key mod htsize pH | None => 0 end in
  elem ← findElementGivenHash pH key h;
  match elem with Some l => e ← heap pH !! l; Some (data e) | None => Some 0 end.

(** [malloc] is the allocator of [rehash], [new_elem] the element allocated if
    one is needed, [None] when that fails. *)
Definition sqlite3HashInsert (malloc : Z -> option Z) (new_elem : option loc) (pH : Hash) (key : list Z) (d : Z)
    : option (Z * Hash) :=
  let h := if truthy (htsize pH) then strHash key mod htsize pH else 0 in
  elem ← findElementGivenHash pH key h;
  match elem with
  | Some l =>
      e ← heap pH !! l;
      if d =? 0 then pH ← removeElementGivenHash pH l h; Some (data e, pH)
      else
        m ← set_key_data l key d (heap pH);
        Some (data e, {| htsize := htsize pH; count := count pH; first := first pH; ht := ht pH; heap := m |})
  | None =>
      if d =? 0 then Some (0, pH)
      else match new_elem with
      | None => Some (d, pH)
      | Some l =>
          let pH := {| htsize := htsize pH; count := count pH + 1; first := first pH; ht := ht pH;
                       heap := <[l := {| next := None; prev := None; data := d; pKey := key |}]> (heap pH) |} in
          '(rehashed, pH) ← (if (10 <=? count pH) && (2 * htsize pH <? count pH)
                             then rehash malloc pH (count pH * 2) else Some (false, pH));
          let h := if rehashed : bool then strHash key mod htsize pH else h in
          pH ← insertElement pH (match ht pH with Some _ => Some h | None => None end) l;
          Some (0, pH)
      end
  end.

(** ** Doubly linked segments *)

Definition head_or (l : list loc) (n : option loc) : option loc := match l with [] => n | x :: _ => Some x end.

Definition last_or (p : option loc) (l : list loc) : option loc :=
  match last l with Some x => Some x | None => p end.

(** The elements at [l] are linked in this order; [p] and [n] are the neighbours
    at the ends. *)
Fixpoint seg (m : gmap loc HashElem) (p : option loc) (l : list loc) (n : option loc) : Prop :=
  match l with
  | [] => True
  | x :: l => (exists e, m !! x = Some e /\ prev e = p /\ next e = head_or l n) /\ seg m (Some x) l n
  end.

Lemma seg_app m p l1 l2 n :
  seg m p (l1 ++ l2) n <-> seg m p l1 (head_or l2 n) /\ seg m (last_or p l1) l2 n.
Proof.
  revert p. induction l1 as [|x l1 IH]; intros p; [simpl; tauto|]. cbn [app seg]. rewrite IH.
  replace (head_or (l1 ++ l2) n) with (head_or l1 (head_or l2 n)) by (by destruct l1).
  replace (last_or p (x :: l1)) with (last_or (Some x) l1); [tauto|].
  unfold last_or. destruct l1 as [|y l1]; [done|]. rewrite last_cons_cons.
  by destruct (last (y :: l1)) eqn:E; [|apply last_None in E].
Qed.

Lemma seg_frame m m' p l n :
  (forall x, x ∈ l -> m' !! x = m !! x) -> seg m p l n -> seg m' p l n.
Proof.
  revert p. induction l as [|x l IH]; intros p Hf; [done|]. intros [(e & He & ? & ?) Hs]. split.
  - exists e. rewrite Hf by set_solver. done.
  - apply IH; [|done]. intros y Hy. apply Hf. set_solver.
Qed.

Lemma seg_lookup m p l n x : seg m p l n -> x ∈ l -> is_Some (m !! x).
Proof.
  revert p. induction l as [|y l IH]; intros p; [set_solver|]. intros [(e & He & _) Hs] Hx.
  apply elem_of_cons in Hx as [->|Hx]; eauto.
Qed.

(** What the links do not change. *)
Definition kd (m : gmap loc HashElem) : gmap loc (list Z * Z) := (fun e => (pKey e, data e)) <$> m.

Lemma kd_insert m l e e' :
  m !! l = Some e -> pKey e' = pKey e -> data e' = data e -> kd (<[l := e']> m) = kd m.
Proof.
  intros He Hk Hd. unfold kd. rewrite fmap_insert. apply insert_id. rewrite lookup_fmap, He. simpl. by rewrite Hk, Hd.
Qed.

Lemma set_next_spec m l e v :
  m !! l = Some e ->
  exists m', set_next l v m = Some m' /\ kd m' = kd m /\
    m' = <[l := {| next := v; prev := prev e; data := data e; pKey := pKey e |}]> m.
Proof. intros He. unfold set_next. rewrite He. eexists. split_and!; [done| |done]. by eapply kd_insert. Qed.

Lemma set_prev_spec m l e v :
  m !! l = Some e ->
  exists m', set_prev l v m = Some m' /\ kd m' = kd m /\
    m' = <[l := {| next := next e; prev := v; data := data e; pKey := pKey e |}]> m.
Proof. intros He. unfold set_prev. rewrite He. eexists. split_and!; [done| |done]. by eapply kd_insert. Qed.

Lemma kd_lookup m m' l e : kd m' = kd m -> m !! l = Some e -> exists e', m' !! l = Some e' /\ pKey e' = pKey e /\ data e' = data e.
Proof.
  intros Hk He. assert (H : kd m' !! l = Some (pKey e, data e)) by (rewrite Hk; unfold kd; by rewrite lookup_fmap, He).
  unfold kd in H. rewrite lookup_fmap in H. destruct (m' !! l) as [e'|]; [|done]. injection H as ? ?. by exists e'.
Qed.

Ltac links := cbn [seg head_or last_or last next prev data pKey app] in *; simplify_map_eq.

Lemma link_front m L x e :
  seg m None L None -> NoDup L -> x ∉ L -> m !! x = Some e ->
  exists m1 m2 m3, set_next x (head_or L None) m = Some m1 /\
    match head_or L None with Some f => set_prev f (Some x) m1 | None => Some m1 end = Some m2 /\
    set_prev x None m2 = Some m3 /\ seg m3 None (x :: L) None /\ kd m3 = kd m /\
    (forall y, y ∉ x :: L -> m3 !! y = m !! y).
Proof.
  intros Hs Hnd Hx He. destruct (set_next_spec m x e (head_or L None) He) as (m1 & -> & K1 & E1).
  destruct L as [|f L]; cbn [head_or].
  - destruct (set_prev_spec m1 x _ None ltac:(rewrite E1; apply lookup_insert_eq)) as (m3 & E3' & K3 & E3).
    exists m1, m1, m3. split_and!; try done; [|congruence|].
    + split; [|done]. rewrite E3. eexists. split; [apply lookup_insert_eq|done].
    + intros y Hy. rewrite E3, E1, !lookup_insert_ne by set_solver. done.
  - destruct Hs as [(ef & Hf & Hp & Hn) Hs]. apply NoDup_cons in Hnd as [Hfl Hnd].
    assert (Hxf : x <> f) by set_solver.
    destruct (set_prev_spec m1 f ef (Some x)) as (m2 & E2' & K2 & E2); [rewrite E1; by rewrite lookup_insert_ne|].
    destruct (set_prev_spec m2 x _ None ltac:(rewrite E2, E1, lookup_insert_ne by done; apply lookup_insert_eq)) as (m3 & E3' & K3 & E3).
    exists m1, m2, m3. split_and!; try done; [|congruence|].
    + split; [rewrite E3; eexists; split; [apply lookup_insert_eq|done]|]. split.
      { rewrite E3, E2. rewrite lookup_insert_ne, lookup_insert_eq by done. eexists. split; [done|]. done. }
      eapply seg_frame; [|done]. intros y Hy. rewrite E3, E2, E1, !lookup_insert_ne by set_solver. done.
    + intros y Hy. rewrite E3, E2, E1, !lookup_insert_ne by set_solver. done.
Qed.

Lemma link_middle m L1 hd L2 x e :
  seg m None (L1 ++ hd :: L2) None -> NoDup (L1 ++ hd :: L2) -> x ∉ L1 ++ hd :: L2 -> m !! x = Some e ->
  exists m', splice m (head_or (L1 ++ hd :: L2) None) x hd = Some (m', head_or (L1 ++ x :: hd :: L2) None) /\
    seg m' None (L1 ++ x :: hd :: L2) None /\ kd m' = kd m /\
    (forall y, y ∉ L1 ++ x :: hd :: L2 -> m' !! y = m !! y).
Proof.
  intros Hs Hnd Hx He. apply seg_app in Hs as [Hs1 Hs2]. destruct Hs2 as [(eh & Hh & Hp & Hn) Hs2].
  assert (Hxh : x <> hd) by set_solver. apply NoDup_app in Hnd as (Hnd1 & Hdisj & Hnd2).
  apply NoDup_cons in Hnd2 as [Hh2 Hnd2]. unfold splice.
  destruct (set_next_spec m x e (Some hd) He) as (m1 & -> & K1 & E1). simpl.
  assert (Hh1 : m1 !! hd = Some eh) by (by rewrite E1, lookup_insert_ne). rewrite Hh1. simpl. rewrite Hp.
  destruct (set_prev_spec m1 x _ (last_or None L1) ltac:(rewrite E1; apply lookup_insert_eq)) as (m2 & -> & K2 & E2). simpl in *.
  assert (Hm2 : forall y, y <> x -> m2 !! y = m !! y) by (intros; by rewrite E2, E1, !lookup_insert_ne).
  assert (Hx2 : exists e2, m2 !! x = Some e2 /\ prev e2 = last_or None L1 /\ next e2 = Some hd)
    by (rewrite E2, lookup_insert_eq; eauto).
  rewrite K1 in K2. clear K1 E1 E2 Hh1 m1. destruct Hx2 as (e2 & Hx2 & Hpx & Hnx).
  destruct L1 as [|p L1 _] using rev_ind.
  - simpl in *. destruct (set_prev_spec m2 hd eh (Some x)) as (m3 & -> & K3 & E3); [by rewrite Hm2|].
    exists m3. split; [done|]. split; [|split; [congruence|]].
    + split_and!; [exists e2; by rewrite E3, lookup_insert_ne|rewrite E3, lookup_insert_eq; by eexists|].
      eapply seg_frame; [|done]. intros y Hy. rewrite E3, lookup_insert_ne, Hm2; set_solver.
    + intros y Hy. rewrite E3, lookup_insert_ne, Hm2; set_solver.
  - replace (last_or None (L1 ++ [p])) with (Some p) in * by (unfold last_or; by rewrite last_snoc).
    apply seg_app in Hs1 as [Hs1 [(ep & Hpe & Hpp & Hpn) _]].
    assert (Hxp : x <> p) by set_solver. assert (Hpd : p <> hd) by set_solver.
    destruct (set_next_spec m2 p ep (Some x)) as (m3 & -> & K3 & E3); [by rewrite Hm2|]. simpl.
    destruct (set_prev_spec m3 hd eh (Some x)) as (m4 & -> & K4 & E4);
      [rewrite E3, lookup_insert_ne, Hm2 by done; done|]. simpl.
    apply NoDup_app in Hnd1 as (Hnd1 & Hp1 & _).
    assert (Hm4 : forall y, y <> x -> y <> p -> y <> hd -> m4 !! y = m !! y)
      by (intros; rewrite E4, E3, !lookup_insert_ne, Hm2 by done; done).
    exists m4. split; [|split; [apply seg_app; split; [apply seg_app; split|]|split; [congruence|]]].
    + do 2 f_equal. destruct L1; done.
    + eapply seg_frame; [|exact Hs1]. intros y Hy. apply Hm4; set_solver.
    + split; [|done]. exists {| next := Some x; prev := prev ep; data := data ep; pKey := pKey ep |}.
      rewrite E4, lookup_insert_ne, E3, lookup_insert_eq by done. done.
    + replace (last_or None (L1 ++ [p])) with (Some p) by (unfold last_or; by rewrite last_snoc).
      split; [exists e2; by rewrite E4, lookup_insert_ne, E3, lookup_insert_ne|split; [rewrite E4, lookup_insert_eq; by eexists|]].
      eapply seg_frame; [|done]. intros y Hy. apply Hm4; set_solver.
    + intros y Hy. apply Hm4; set_solver.
Qed.

(** ** Buckets *)

Definition khash (m : gmap loc HashElem) (sz : Z) (x : loc) : Z :=
  match m !! x with Some e => strHash (pKey e) mod sz | None => -1 end.

Lemma khash_kd m m' sz x : kd m' = kd m -> khash m' sz x = khash m sz x.
Proof.
  intros Hk. unfold khash. destruct (m !! x) as [e|] eqn:E.
  - destruct (kd_lookup m m' x e Hk E) as (e' & -> & -> & _). done.
  - destruct (m' !! x) as [e'|] eqn:E'; [|done].
    destruct (kd_lookup m' m x e' (eq_sym Hk) E') as (? & ? & _). congruence.
Qed.

(** Each entry counts its elements, which are consecutive in the list and start
    at its chain pointer. *)
Definition entry_ok (m : gmap loc HashElem) (sz h : Z) (L : list loc) (ent : Z * option loc) : Prop :=
  exists L1 B L2, L = L1 ++ B ++ L2 /\
    Forall (fun x => khash m sz x <> h) L1 /\ Forall (fun x => khash m sz x = h) B /\
    Forall (fun x => khash m sz x <> h) L2 /\
    ent.1 = Z.of_nat (length B) /\ (B <> [] -> ent.2 = head_or B None).

Definition table_ok (m : gmap loc HashElem) (sz : Z) (tbl : list (Z * option loc)) (L : list loc) : Prop :=
  sz = Z.of_nat (length tbl) /\ 0 < sz /\ forall h ent, rd tbl h = Some ent -> entry_ok m sz h L ent.

Lemma entry_ok_ext m m' sz h L ent :
  (forall x, x ∈ L -> khash m' sz x = khash m sz x) -> entry_ok m sz h L ent -> entry_ok m' sz h L ent.
Proof.
  intros Hk (L1 & B & L2 & -> & H1 & HB & H2 & Hc & Hh). exists L1, B, L2. rewrite Forall_forall in H1, HB, H2.
  split_and!; try done; apply Forall_forall; intros x Hx; rewrite Hk by set_solver; auto.
Qed.

Lemma entry_front m sz h L x ent :
  khash m sz x <> h -> entry_ok m sz h L ent -> entry_ok m sz h (x :: L) ent.
Proof.
  intros Hx (L1 & B & L2 & -> & H1 & HB & H2 & Hc & Hh). exists (x :: L1), B, L2. split_and!; try done. by constructor.
Qed.

(** An element of another bucket put before an element of another bucket. *)
Lemma entry_insert m sz h A x y R ent :
  khash m sz x <> h -> khash m sz y <> h -> entry_ok m sz h (A ++ y :: R) ent -> entry_ok m sz h (A ++ x :: y :: R) ent.
Proof.
  intros Hx Hy (L1 & B & L2 & E & H1 & HB & H2 & Hc & Hh).
  apply app_eq_inv in E as [(k & -> & E)|(k & -> & E)].
  - apply app_eq_inv in E as [(k' & -> & E)|(k' & -> & E)].
    + destruct k' as [|z k'].
      * simpl in E. exists L1, k, (x :: y :: R). rewrite app_nil_r in *. rewrite <- app_assoc. split_and!; try done.
        constructor; [done|]. by rewrite E.
      * simpl in E. injection E as -> ->. apply Forall_app in HB as [_ HB]. by inversion HB.
    + exists L1, B, (k' ++ x :: y :: R). rewrite E in *. split_and!; try done; [by rewrite <- !app_assoc|].
      apply Forall_app in H2 as [? ?]. apply Forall_app. split; [done|]. by constructor.
  - exists (A ++ x :: k), B, L2. split_and!; try done; [rewrite <- app_assoc; simpl; by rewrite E|].
    apply Forall_app in H1 as [? ?]. apply Forall_app. split; [done|]. by constructor.
Qed.

(** A new element at the front of its bucket, or of the list if that is empty. *)
Lemma entry_own m sz h L x ent :
  khash m sz x = h -> entry_ok m sz h L ent ->
  match (if ent.1 =? 0 then None else ent.2) with
  | Some hd => exists A R, L = A ++ hd :: R /\ khash m sz hd = h /\
      entry_ok m sz h (A ++ x :: hd :: R) (ent.1 + 1, Some x)
  | None => entry_ok m sz h (x :: L) (ent.1 + 1, Some x)
  end.
Proof.
  intros Hx (L1 & B & L2 & -> & H1 & HB & H2 & Hc & Hh). rewrite Hc. destruct B as [|hd B]; cbn [length].
  - exists [], [x], (L1 ++ L2). simpl. split_and!; try done; [by constructor|by apply Forall_app].
  - rewrite (proj2 (Z.eqb_neq _ _)) by lia. rewrite Hh by done. cbn [head_or]. exists L1, (B ++ L2).
    inversion HB; subst. split_and!; [done|done|]. exists L1, (x :: hd :: B), L2.
    split_and!; try done; [by constructor|cbn [fst length]; lia].
Qed.

(** The table as a data structure: the list of all elements, linked both ways
    from [first], and the buckets over it. *)
Definition struct_ok (pH : Hash) (L : list loc) : Prop :=
  seg (heap pH) None L None /\ NoDup L /\ first pH = head_or L None /\
  match ht pH with Some tbl => table_ok (heap pH) (htsize pH) tbl L | None => htsize pH = 0 end.

Definition entry_index (pH : Hash) (e : HashElem) : option Z :=
  match ht pH with Some _ => Some (strHash (pKey e) mod htsize pH) | None => None end.

Lemma rd_in_range {A} (tbl : list A) h : 0 <= h < Z.of_nat (length tbl) -> exists a, rd tbl h = Some a.
Proof. intros H. by apply rd_is_Some in H. Qed.

Lemma insertElement_spec pH L x e :
  struct_ok pH L -> x ∉ L -> heap pH !! x = Some e ->
  exists pH' L', insertElement pH (entry_index pH e) x = Some pH' /\ struct_ok pH' L' /\ L' ≡ₚ x :: L /\
    kd (heap pH') = kd (heap pH) /\ htsize pH' = htsize pH /\ count pH' = count pH /\
    (is_Some (ht pH') <-> is_Some (ht pH)) /\ (forall y, y ∉ x :: L -> heap pH' !! y = heap pH !! y).
Proof.
  intros (Hs & Hnd & Hf & Ht) Hx He. unfold entry_index, insertElement.
  destruct (link_front _ L x e Hs Hnd Hx He) as (m1 & m2 & m3 & E1 & E2 & E3 & Hs3 & K3 & F3).
  destruct (ht pH) as [tbl|] eqn:Etbl; simpl.
  2: { rewrite Hf, E1. simpl. rewrite E2. simpl. rewrite E3. simpl. eexists _, (x :: L).
       split; [done|]. unfold struct_ok. cbn [heap first ht htsize count].
       split_and!; try done; by apply NoDup_cons. }
  destruct Ht as (Hsz & Hpos & Hent). set (h := strHash (pKey e) mod htsize pH).
  assert (Hh : 0 <= h < Z.of_nat (length tbl)) by (rewrite <- Hsz; apply Z.mod_pos_bound; lia).
  destruct (rd_in_range tbl h Hh) as [[cnt chain] Erd]. rewrite Erd. simpl. rewrite wr_Some by done. simpl.
  assert (Hkx : khash (heap pH) (htsize pH) x = h) by (unfold khash; by rewrite He).
  pose proof (entry_own _ _ _ L x _ Hkx (Hent _ _ Erd)) as Hown. cbn [fst snd] in Hown.
  set (tbl' := <[Z.to_nat h := (cnt + 1, Some x)]> tbl).
  assert (Htbl : forall m' L', kd m' = kd (heap pH) -> entry_ok (heap pH) (htsize pH) h L' (cnt + 1, Some x) ->
    (forall h' ent, h' <> h -> entry_ok (heap pH) (htsize pH) h' L ent -> entry_ok (heap pH) (htsize pH) h' L' ent) ->
    table_ok m' (htsize pH) tbl' L').
  { intros m' L' Hk Ho Hoth. split; [unfold tbl'; by rewrite length_insert|]. split; [done|]. intros h' ent Hr.
    apply (entry_ok_ext (heap pH)); [intros; by apply khash_kd|]. destruct (decide (h' = h)) as [->|Hne].
    - rewrite (rd_wr_eq tbl h (cnt + 1, Some x) tbl') in Hr by (by rewrite wr_Some). by injection Hr as <-.
    - rewrite (rd_wr_ne tbl h h' (cnt + 1, Some x) tbl') in Hr by (done || by rewrite wr_Some). auto. }
  destruct (if cnt =? 0 then None else chain) as [hd|].
  - destruct Hown as (A & R & -> & Hkd & Ho).
    destruct (link_middle (heap pH) A hd R x e Hs Hnd Hx He) as (m' & Esp & Hs' & K' & F').
    rewrite Hf, Esp. simpl. eexists _, (A ++ x :: hd :: R). split; [done|].
    assert (Hp : A ++ x :: hd :: R ≡ₚ x :: A ++ hd :: R) by (symmetry; apply Permutation_middle).
    unfold struct_ok. cbn [heap first ht htsize count]. split_and!; try done.
    + rewrite Hp. by apply NoDup_cons.
    + apply Htbl; try done. intros h' ent Hne. apply entry_insert; congruence.
    + intros y Hy. apply F'. by rewrite Hp.
  - rewrite Hf, E1. simpl. rewrite E2. simpl. rewrite E3. simpl. eexists _, (x :: L). split; [done|].
    unfold struct_ok. cbn [heap first ht htsize count]. split_and!; try done.
    + by apply NoDup_cons.
    + apply Htbl; try done. intros h' ent Hne. apply entry_front. congruence.
Qed.

(** ** Rehashing *)

(** Only the [next] pointers: the part of the old list that is still to move. *)
Fixpoint nexts (m : gmap loc HashElem) (l : list loc) : Prop :=
  match l with [] => True | x :: l => (exists e, m !! x = Some e /\ next e = head_or l None) /\ nexts m l end.

Lemma seg_nexts m p l : seg m p l None -> nexts m l.
Proof. revert p. induction l as [|x l IH]; intros p; [done|]. intros [(e & ? & _ & ?) Hs]. split; [by exists e|by eapply IH]. Qed.

Lemma nexts_frame m m' l : (forall x, x ∈ l -> m' !! x = m !! x) -> nexts m l -> nexts m' l.
Proof.
  induction l as [|x l IH]; intros Hf; [done|]. intros [(e & He & ?) Hs]. split.
  - exists e. rewrite Hf by set_solver. done.
  - apply IH; [|done]. intros y Hy. apply Hf. set_solver.
Qed.

Lemma rehash_loop_spec rest : forall fuel pH L,
  struct_ok pH L -> is_Some (ht pH) -> nexts (heap pH) rest -> NoDup rest -> (forall x, x ∈ rest -> x ∉ L) ->
  (length rest <= fuel)%nat ->
  exists pH' L', rehash_loop fuel (head_or rest None) (htsize pH) pH = Some pH' /\ struct_ok pH' L' /\
    L' ≡ₚ rest ++ L /\ kd (heap pH') = kd (heap pH) /\ htsize pH' = htsize pH /\ count pH' = count pH /\
    is_Some (ht pH') /\ (forall y, y ∉ rest ++ L -> heap pH' !! y = heap pH !! y).
Proof.
  induction rest as [|x rest IH]; intros fuel pH L Hok Hht Hn Hnd Hdisj Hf.
  { exists pH, L. destruct fuel; simpl; by split_and!. }
  destruct fuel as [|fuel]; [simpl in Hf; lia|]. destruct Hn as [(e & He & Hnx) Hn].
  apply NoDup_cons in Hnd as [Hxr Hnd]. cbn [head_or rehash_loop]. rewrite He. simpl. rewrite Hnx.
  destruct (insertElement_spec pH L x e Hok ltac:(apply Hdisj; set_solver) He)
    as (pH1 & L1 & E1 & Hok1 & HP1 & K1 & Hsz1 & Hc1 & Hht1 & F1).
  unfold entry_index in E1. destruct Hht as [tbl Etbl]. rewrite Etbl in E1. rewrite E1. simpl. rewrite <- Hsz1.
  destruct (IH fuel pH1 L1) as (pH' & L' & E' & Hok' & HP' & K' & Hsz' & Hc' & Hht' & F'); try done.
  - apply Hht1. by rewrite Etbl.
  - eapply nexts_frame; [|done]. intros y Hy. apply F1. pose proof (Hdisj y). set_solver.
  - intros y Hy. rewrite HP1. pose proof (Hdisj y). set_solver.
  - simpl in Hf. lia.
  - exists pH', L'. split_and!; try done; try congruence.
    + rewrite HP', HP1. cbn [app]. symmetry. apply Permutation_middle.
    + intros y Hy. rewrite F', F1; [done| |]; [set_solver|]. rewrite HP1. set_solver.
Qed.

(** ** Lookup *)

Definition fkey (k : list Z) : list Z := map utl k.

Definition kmatch (m : gmap loc HashElem) (key : list Z) (x : loc) : Prop :=
  exists e, m !! x = Some e /\ fkey (pKey e) = fkey key.

Definition keys_ok (m : gmap loc HashElem) : Prop := forall x e, m !! x = Some e -> ctext (pKey e) /\ data e <> 0.

Lemma strHash_fkey a b : fkey a = fkey b -> strHash a = strHash b.
Proof.
  unfold strHash. intros H. f_equal. generalize 0. revert b H.
  induction a as [|x a IH]; intros [|y b]; try done. intros [= Hxy H] h. simpl. rewrite Hxy. by apply IH.
Qed.

Lemma key_test a key :
  ctext a -> ctext key ->
  (Z.of_nat (length a) =? Z.of_nat (length key)) && (sqlite3_strnicmp a key (Z.of_nat (length key)) =? 0) = true
  <-> fkey a = fkey key.
Proof.
  intros Ha Hk. rewrite andb_true_iff, !Z.eqb_eq. unfold sqlite3_strnicmp. rewrite strnicmp_zero, Nat2Z.id by done.
  split.
  - intros [Hl H]. assert (El : length a = length key) by lia. rewrite !take_ge in H by lia. done.
  - intros H. assert (El : length a = length key) by (apply (f_equal length) in H; unfold fkey in H; by rewrite !length_map in H).
    split; [lia|]. rewrite !take_ge by lia. done.
Qed.

Lemma find_loop_spec m key B : forall p rest n,
  keys_ok m -> ctext key -> seg m p (B ++ rest) n ->
  exists r, find_loop (length B) (head_or (B ++ rest) n) key m = Some r /\
    match r with Some x => x ∈ B /\ kmatch m key x | None => forall x, x ∈ B -> ~ kmatch m key x end.
Proof.
  induction B as [|x B IH]; intros p rest n Hk Hkey Hs; [by exists None; split; [|set_solver]|].
  destruct Hs as [(e & He & _ & Hn) Hs]. cbn [length head_or app find_loop]. rewrite He. simpl. rewrite Hn. unfold nKey.
  pose proof (key_test (pKey e) key (proj1 (Hk x e He)) Hkey) as Ht. case_bool.
  - exists (Some x). split; [done|]. split; [set_solver|]. exists e. tauto.
  - destruct (IH (Some x) rest n Hk Hkey Hs) as (r & -> & Hr). exists r. split; [done|].
    destruct r as [y|]; [destruct Hr; split; [set_solver|done]|].
    intros y [->|Hy]%elem_of_cons; [|auto]. intros (e' & He' & E). rewrite He in He'. injection He' as <-.
    apply Ht in E. congruence.
Qed.

Definition hash_index (pH : Hash) (key : list Z) : Z :=
  match ht pH with Some _ => strHash key mod htsize pH | None => 0 end.

Lemma find_spec pH L key :
  struct_ok pH L -> count pH = Z.of_nat (length L) -> keys_ok (heap pH) -> ctext key ->
  exists r, findElementGivenHash pH key (hash_index pH key) = Some r /\
    match r with Some x => x ∈ L /\ kmatch (heap pH) key x | None => forall x, x ∈ L -> ~ kmatch (heap pH) key x end.
Proof.
  intros (Hs & Hnd & Hf & Ht) Hc Hk Hkey. unfold findElementGivenHash, hash_index.
  destruct (ht pH) as [tbl|].
  - destruct Ht as (Hsz & Hpos & Hent). set (h := strHash key mod htsize pH).
    assert (Hh : 0 <= h < Z.of_nat (length tbl)) by (rewrite <- Hsz; apply Z.mod_pos_bound; lia).
    destruct (rd_in_range tbl h Hh) as [[cnt chain] Erd]. rewrite Erd. simpl.
    destruct (Hent _ _ Erd) as (L1 & B & L2 & -> & H1 & HB & H2 & Hcnt & Hch). cbn [fst snd] in *.
    assert (Hloop : exists r, find_loop (length B) chain key (heap pH) = Some r /\
      match r with Some x => x ∈ B /\ kmatch (heap pH) key x | None => forall x, x ∈ B -> ~ kmatch (heap pH) key x end).
    { destruct B as [|b B]; [exists None; split; [by destruct chain|set_solver]|]. rewrite Hch by done.
      apply seg_app in Hs as [_ Hs]. by eapply (find_loop_spec _ key (b :: B)). }
    destruct Hloop as (r & Er & Hr). rewrite Hcnt, Nat2Z.id, Er. exists r. split; [done|].
    destruct r as [x|]; [destruct Hr; split; [set_solver|done]|].
    intros x Hx Hm. assert (Hkh : khash (heap pH) (htsize pH) x = h).
    { destruct Hm as (e & He & E). unfold khash. rewrite He. unfold h. by rewrite (strHash_fkey _ _ E). }
    rewrite Forall_forall in H1, H2. rewrite !elem_of_app in Hx. naive_solver.
  - rewrite Hf, Hc, Nat2Z.id. destruct (find_loop_spec (heap pH) key L None [] None Hk Hkey) as (r & Er & Hr);
      [by rewrite app_nil_r|]. rewrite app_nil_r in Er. by exists r.
Qed.

(** ** Removal *)

Lemma unlink_spec m A x R e :
  seg m None (A ++ x :: R) None -> NoDup (A ++ x :: R) -> m !! x = Some e ->
  exists m', unlink m (head_or (A ++ x :: R) None) e = Some (m', head_or (A ++ R) None) /\
    kd m' = kd m /\ seg (delete x m') None (A ++ R) None /\ next e = head_or R None.
Proof.
  intros Hs Hnd He. apply seg_app in Hs as [HsA [(e' & He' & Hp & Hn) HsR]]. rewrite He in He'. injection He' as <-.
  apply NoDup_app in Hnd as (HndA & Hdisj & HndR). apply NoDup_cons in HndR as [HxR HndR].
  unfold unlink. rewrite Hp, Hn.
  (* the predecessor *)
  assert (exists m1, match last_or None A with
      | Some p => m1 ← set_next p (head_or R None) m; Some (m1, head_or (A ++ x :: R) None)
      | None => Some (m, head_or R None) end = Some (m1, head_or (A ++ R) None) /\ kd m1 = kd m /\
      seg m1 None A (head_or R None) /\ (forall y, y ∉ A -> m1 !! y = m !! y)) as (m1 & -> & K1 & HsA1 & F1).
  { destruct A as [|p A _] using rev_ind; [by exists m|].
    replace (last_or None (A ++ [p])) with (Some p) by (unfold last_or; by rewrite last_snoc).
    apply seg_app in HsA as [HsA [(ep & Hpe & Hpp & Hpn) _]]. apply NoDup_app in HndA as (HndA & HpA & _).
    destruct (set_next_spec m p ep (head_or R None) Hpe) as (m1 & -> & K1 & E1). simpl. exists m1.
    split; [do 2 f_equal; by destruct A|]. split; [done|]. split.
    - apply seg_app. split; [eapply seg_frame; [|exact HsA]; intros y Hy; rewrite E1, lookup_insert_ne; set_solver|].
      split; [|done]. rewrite E1, lookup_insert_eq. by eexists.
    - intros y Hy. rewrite E1, lookup_insert_ne; set_solver. }
  simpl. destruct R as [|n R]; cbn [head_or] in *.
  - exists m1. rewrite !app_nil_r in *. split; [done|]. split; [done|]. split; [|done].
    eapply seg_frame; [|exact HsA1]. intros y Hy. rewrite lookup_delete_ne; set_solver.
  - destruct HsR as [(en & Hen & Hnp & Hnn) HsR]. apply NoDup_cons in HndR as [HnR HndR].
    destruct (set_prev_spec m1 n en (last_or None A)) as (m2 & -> & K2 & E2); [rewrite F1; set_solver|].
    exists m2. split; [done|]. split; [congruence|]. split; [|done]. apply seg_app. split; [|split].
    + eapply seg_frame; [|exact HsA1]. intros y Hy. rewrite lookup_delete_ne, E2, lookup_insert_ne; set_solver.
    + rewrite lookup_delete_ne, E2, lookup_insert_eq by set_solver. by eexists.
    + eapply seg_frame; [|exact HsR]. intros y Hy.
      rewrite lookup_delete_ne, E2, lookup_insert_ne, F1; set_solver.
Qed.

(** The bucket of a removed element, and the others. *)
Lemma entry_remove m sz h A x R ent :
  khash m sz x <> h -> entry_ok m sz h (A ++ x :: R) ent -> entry_ok m sz h (A ++ R) ent.
Proof.
  intros Hx (L1 & B & L2 & E & H1 & HB & H2 & Hc & Hh).
  apply app_eq_inv in E as [(k & -> & E)|(k & -> & E)].
  - apply app_eq_inv in E as [(k' & -> & E)|(k' & -> & E)].
    + destruct k' as [|z k'].
      * simpl in E. exists L1, k, R. rewrite app_nil_r in *. rewrite <- app_assoc. rewrite <- E in H2.
        inversion H2. by split_and!.
      * simpl in E. injection E as -> ->. apply Forall_app in HB as [_ HB]. by inversion HB.
    + exists L1, B, (k' ++ R). rewrite E in *. split_and!; try done; [by rewrite <- !app_assoc|].
      apply Forall_app in H2 as [? H2]. inversion H2. by apply Forall_app.
  - destruct k as [|z k].
    + simpl in E. destruct B as [|b B]; [|injection E as -> ->; by inversion HB].
      exists A, [], R. rewrite app_nil_r in *. simpl in *. rewrite <- E in H2. inversion H2. by split_and!.
    + injection E as -> ->. exists (A ++ k), B, L2. split_and!; try done; [by rewrite <- app_assoc|].
      apply Forall_app in H1 as [? H1]. inversion H1. by apply Forall_app.
Qed.

Lemma entry_remove_own m sz h A x R ent nx :
  NoDup (A ++ x :: R) -> khash m sz x = h -> nx = head_or R None -> entry_ok m sz h (A ++ x :: R) ent ->
  entry_ok m sz h (A ++ R) (ent.1 - 1, if decide (ent.2 = Some x) then nx else ent.2).
Proof.
  intros Hnd Hx -> (L1 & B & L2 & E & H1 & HB & H2 & Hc & Hh).
  assert (HxB : x ∈ B).
  { assert (Hin : x ∈ L1 ++ B ++ L2) by (rewrite <- E; set_solver). rewrite Forall_forall in H1, H2.
    rewrite !elem_of_app in Hin. naive_solver. }
  apply list_elem_of_split in HxB as (B1 & B2 & ->). rewrite <- app_assoc in E. cbn [app] in E.
  rewrite app_assoc in E.
  assert (A = L1 ++ B1 /\ R = B2 ++ L2) as [-> ->].
  { rewrite E in Hnd. apply app_eq_inv in E as [(k & -> & E)|(k & E1 & E)].
    - destruct k as [|z k]; [rewrite app_nil_r; by injection E as ->|]. injection E as <- E.
      apply NoDup_app in Hnd as (_ & _ & Hnd). apply NoDup_cons in Hnd as [Hn _]. rewrite E in Hn. set_solver.
    - destruct k as [|z k]; [rewrite app_nil_r in E1; injection E as ->; by subst|]. injection E as <- E.
      rewrite E1 in Hnd. apply NoDup_app in Hnd as (_ & Hd & _). exfalso. apply (Hd x); set_solver. }
  apply Forall_app in HB as [HB1 HB2]. inversion HB2; subst.
  exists L1, (B1 ++ B2), L2. rewrite <- !app_assoc. split_and!; try done.
  - by apply Forall_app.
  - cbn [fst]. rewrite Hc. rewrite !length_app. simpl. lia.
  - intros Hne. cbn [snd]. rewrite Hh by (by destruct B1). destruct B1 as [|b B1]; cbn [app head_or].
    + rewrite decide_True by done. by destruct B2.
    + rewrite decide_False; [done|]. intros [= ->]. apply NoDup_app in Hnd as (_ & Hd & _).
      apply (Hd x); set_solver.
Qed.


Lemma free_loop_spec l : forall fuel m,
  nexts m l -> NoDup l -> (length l <= fuel)%nat ->
  exists m', free_loop fuel (head_or l None) m = Some m' /\
    (forall y, m' !! y = if decide (y ∈ l) then None else m !! y).
Proof.
  induction l as [|x l IH]; intros fuel m Hn Hnd Hf.
  { exists m. split; [by destruct fuel|]. intros y. by rewrite decide_False by set_solver. }
  destruct fuel as [|fuel]; [simpl in Hf; lia|]. destruct Hn as [(e & He & Hnx) Hn].
  apply NoDup_cons in Hnd as [Hx Hnd]. cbn [head_or free_loop]. rewrite He. simpl. rewrite Hnx.
  destruct (IH fuel (delete x m)) as (m' & -> & Hm'); [|done|simpl in Hf; lia|].
  - eapply nexts_frame; [|done]. intros y Hy. rewrite lookup_delete_ne; set_solver.
  - exists m'. split; [done|]. intros y. rewrite Hm'. destruct (decide (y = x)) as [->|Hne].
    + rewrite lookup_delete_eq. rewrite (decide_True (P := x ∈ x :: l)) by set_solver. by destruct (decide _).
    + rewrite lookup_delete_ne by done. apply decide_ext. set_solver.
Qed.

Lemma remove_spec pH L x e :
  struct_ok pH L -> count pH = Z.of_nat (length L) -> x ∈ L -> heap pH !! x = Some e ->
  exists pH' L', removeElementGivenHash pH x (hash_index pH (pKey e)) = Some pH' /\ struct_ok pH' L' /\
    L ≡ₚ x :: L' /\ count pH' = Z.of_nat (length L') /\ kd (heap pH') = delete x (kd (heap pH)).
Proof.
  intros (Hs & Hnd & Hf & Ht) Hc (A & R & ->)%list_elem_of_split He. unfold removeElementGivenHash. rewrite He. simpl.
  destruct (unlink_spec (heap pH) A x R e Hs Hnd He) as (m & Eu & K & Hs' & Hnx). rewrite Hf, Eu. simpl.
  assert (Hnd' : NoDup (A ++ R) /\ x ∉ A ++ R) by (rewrite <- Permutation_middle in Hnd; apply NoDup_cons in Hnd; tauto).
  assert (Hlen : Z.of_nat (length (A ++ x :: R)) = Z.of_nat (length (A ++ R)) + 1)
    by (rewrite !length_app; simpl; lia).
  assert (Hkh : forall sz y, y ∈ A ++ R -> khash (delete x m) sz y = khash (heap pH) sz y).
  { intros sz y Hy. rewrite <- (khash_kd (heap pH) m) by done. unfold khash. rewrite lookup_delete_ne; [done|].
    intros <-. by apply (proj2 Hnd'). }
  assert (exists ht', match ht pH with
      | Some tbl => '(cnt, chain) ← rd tbl (hash_index pH (pKey e));
          tbl' ← wr tbl (hash_index pH (pKey e)) (cnt - 1, if decide (chain = Some x) then next e else chain); Some (Some tbl')
      | None => Some None end = Some ht' /\
      match ht' with Some tbl => table_ok (delete x m) (htsize pH) tbl (A ++ R) | None => htsize pH = 0 end) as (ht' & -> & Ht').
  { unfold hash_index. destruct (ht pH) as [tbl|]; [|by exists None]. destruct Ht as (Hsz & Hpos & Hent).
    set (h := strHash (pKey e) mod htsize pH).
    assert (Hh : 0 <= h < Z.of_nat (length tbl)) by (rewrite <- Hsz; apply Z.mod_pos_bound; lia).
    destruct (rd_in_range tbl h Hh) as [[cnt chain] Erd]. rewrite Erd. simpl. rewrite wr_Some by done. simpl.
    eexists. split; [done|]. split; [by rewrite length_insert|]. split; [done|]. intros h' ent Hr.
    apply (entry_ok_ext (heap pH)); [by apply Hkh|].
    assert (Hkx : khash (heap pH) (htsize pH) x = h) by (unfold khash; by rewrite He).
    set (e' := (cnt - 1, if decide (chain = Some x) then next e else chain)) in *.
    destruct (decide (h' = h)) as [->|Hne].
    - rewrite (rd_wr_eq tbl h e') in Hr by (by rewrite wr_Some). injection Hr as <-.
      apply (entry_remove_own _ _ _ A x R (cnt, chain) (next e)); auto.
    - rewrite (rd_wr_ne tbl h h' e') in Hr by (done || by rewrite wr_Some).
      apply (entry_remove _ _ _ A x R); [congruence|auto]. }
  simpl. assert (Kd : kd (delete x m) = delete x (kd (heap pH))) by (rewrite <- K; unfold kd; by rewrite fmap_delete).
  assert (Hperm : A ++ x :: R ≡ₚ x :: A ++ R) by (symmetry; apply Permutation_middle).
  rewrite Hc, Hlen. replace (Z.of_nat (length (A ++ R)) + 1 - 1) with (Z.of_nat (length (A ++ R))) by lia.
  destruct (Z.leb_spec (Z.of_nat (length (A ++ R))) 0) as [Hz|Hz].
  - assert (HAR : A ++ R = []) by (apply length_zero_iff_nil; lia). rewrite HAR in *.
    unfold sqlite3HashClear. cbn [heap first head_or]. eexists _, []. split.
    { destruct (size (delete x m)); done. }
    unfold struct_ok. cbn [heap first ht htsize count]. split_and!; try done; constructor.
  - eexists _, (A ++ R). split; [done|]. unfold struct_ok. cbn [heap first ht htsize count]. split_and!; try done. tauto.
Qed.

(** ** The abstract map *)

(** The table maps lower-cased keys to data; [c] is the heap without links. *)
Record content (c : gmap loc (list Z * Z)) (mp : gmap (list Z) Z) : Prop := {
  content_elem x k d : c !! x = Some (k, d) -> ctext k /\ d <> 0 /\ mp !! fkey k = Some d;
  content_map f d : mp !! f = Some d -> exists x k, c !! x = Some (k, d) /\ fkey k = f;
  content_unique x y k d k' d' : c !! x = Some (k, d) -> c !! y = Some (k', d') -> fkey k = fkey k' -> x = y
}.

Lemma content_empty : content ∅ ∅.
Proof. split; intros *; by rewrite ?lookup_empty. Qed.

Lemma content_new c mp x k d :
  content c mp -> c !! x = None -> mp !! fkey k = None -> ctext k -> d <> 0 ->
  content (<[x := (k, d)]> c) (<[fkey k := d]> mp).
Proof.
  intros [He Hm Hu] Hx Hk Hck Hd. split.
  - intros y k' d' H. destruct (decide (x = y)) as [->|Hne]; simplify_map_eq; [done|].
    destruct (He _ _ _ H) as (? & ? & Hl). split_and!; try done.
    rewrite lookup_insert_ne; [done|]. congruence.
  - intros f d' H. destruct (decide (fkey k = f)) as [<-|Hne]; simplify_map_eq; [by exists x, k; simplify_map_eq|].
    destruct (Hm _ _ H) as (y & k' & Hy & Hf). exists y, k'. split; [|done]. rewrite lookup_insert_ne; congruence.
  - intros y z k1 d1 k2 d2 H1 H2 E. destruct (decide (x = y)) as [<-|]; destruct (decide (x = z)) as [<-|];
      simplify_map_eq; try done;
      [apply He in H2|apply He in H1|by eapply Hu]; destruct_and!; congruence.
Qed.

Lemma content_del c mp x k d :
  content c mp -> c !! x = Some (k, d) -> content (delete x c) (delete (fkey k) mp).
Proof.
  intros [He Hm Hu] Hx. split.
  - intros y k' d' H. apply lookup_delete_Some in H as [Hne H]. destruct (He _ _ _ H) as (? & ? & Hl).
    split_and!; try done. rewrite lookup_delete_ne; [done|]. intros E. by apply Hne, (Hu _ _ _ _ _ _ Hx H).
  - intros f d' H. apply lookup_delete_Some in H as [Hne H]. destruct (Hm _ _ H) as (y & k' & Hy & Hf).
    exists y, k'. split; [|done]. rewrite lookup_delete_ne; [done|]. intros ->. congruence.
  - intros y z k1 d1 k2 d2 H1 H2. apply lookup_delete_Some in H1 as [_ H1]. apply lookup_delete_Some in H2 as [_ H2].
    by eapply Hu.
Qed.

Lemma content_set c mp x k0 d0 k d :
  content c mp -> c !! x = Some (k0, d0) -> fkey k0 = fkey k -> ctext k -> d <> 0 ->
  content (<[x := (k, d)]> c) (<[fkey k := d]> mp).
Proof.
  intros Hc Hx Hk Hck Hd. pose proof (content_del _ _ _ _ _ Hc Hx) as Hdel. rewrite Hk in Hdel.
  rewrite <- insert_delete_eq, <- (insert_delete_eq mp). apply content_new; try done; apply lookup_delete_eq.
Qed.

Definition models (pH : Hash) (mp : gmap (list Z) Z) : Prop :=
  exists L, struct_ok pH L /\ count pH = Z.of_nat (length L) /\ (forall x, is_Some (heap pH !! x) <-> x ∈ L) /\
    content (kd (heap pH)) mp.

Lemma init_models : models sqlite3HashInit ∅.
Proof.
  exists []. split_and!; [|done| |apply content_empty].
  - unfold struct_ok. simpl. split_and!; try done. constructor.
  - intros x. simpl. rewrite lookup_empty. split; [by intros []|set_solver].
Qed.

Lemma content_heap m mp x e : content (kd m) mp -> m !! x = Some e -> ctext (pKey e) /\ data e <> 0 /\ mp !! fkey (pKey e) = Some (data e).
Proof. intros Hc He. apply (content_elem _ _ Hc x). unfold kd. by rewrite lookup_fmap, He. Qed.

Lemma content_keys m mp : content (kd m) mp -> keys_ok m.
Proof. intros Hc x e He. destruct (content_heap _ _ _ _ Hc He) as (? & ? & _). done. Qed.

(** What a search finds, in terms of the map. *)
Lemma find_models pH mp L key :
  struct_ok pH L -> count pH = Z.of_nat (length L) -> (forall x, is_Some (heap pH !! x) <-> x ∈ L) ->
  content (kd (heap pH)) mp -> ctext key ->
  exists r, findElementGivenHash pH key (hash_index pH key) = Some r /\
    match r with
    | Some x => x ∈ L /\ exists e, heap pH !! x = Some e /\ fkey (pKey e) = fkey key /\ mp !! fkey key = Some (data e)
    | None => mp !! fkey key = None
    end.
Proof.
  intros Hs Hc Hd Hcon Hkey. destruct (find_spec pH L key Hs Hc (content_keys _ _ Hcon) Hkey) as (r & Er & Hr).
  exists r. split; [done|]. destruct r as [x|].
  - destruct Hr as [Hx (e & He & E)]. split; [done|]. exists e. split_and!; try done.
    rewrite <- E. by eapply content_heap.
  - apply eq_None_not_Some. intros [d Hm]. destruct (content_map _ _ Hcon _ _ Hm) as (x & k & Hx & Hf).
    unfold kd in Hx. rewrite lookup_fmap in Hx. destruct (heap pH !! x) as [e|] eqn:E; [|done]. injection Hx as <- <-.
    apply (Hr x); [apply Hd; by rewrite E|by exists e].
Qed.

Lemma hash_index_insert pH L key :
  struct_ok pH L -> (if truthy (htsize pH) then strHash key mod htsize pH else 0) = hash_index pH key.
Proof.
  intros (_ & _ & _ & Ht). unfold hash_index, truthy. destruct (ht pH).
  - destruct Ht as (_ & ? & _). by rewrite (proj2 (Z.eqb_neq _ _)) by lia.
  - by rewrite Ht.
Qed.

(** A sane allocator: the room for the requested entries. *)
Definition malloc_ok (malloc : Z -> option Z) : Prop := forall n n', malloc n = Some n' -> n <= n'.

Lemma rehash_spec malloc pH L n :
  malloc_ok malloc -> struct_ok pH L -> 0 < n -> (forall x, x ∈ L -> is_Some (heap pH !! x)) ->
  exists b pH' L', rehash malloc pH n = Some (b, pH') /\ struct_ok pH' L' /\ L' ≡ₚ L /\
    kd (heap pH') = kd (heap pH) /\ count pH' = count pH /\
    (if b : bool then is_Some (ht pH') else pH' = pH) /\ (forall y, y ∉ L -> heap pH' !! y = heap pH !! y).
Proof.
  intros Hm Hok Hn Hin. unfold rehash. set (n1 := if _ <? _ then _ else n).
  assert (Hn1 : 0 < n1) by (unfold n1; case_bool; [done|lia]).
  assert (Hsame : exists b pH' L', Some (false, pH) = Some (b, pH') /\ struct_ok pH' L' /\ L' ≡ₚ L /\
    kd (heap pH') = kd (heap pH) /\ count pH' = count pH /\
    (if b : bool then is_Some (ht pH') else pH' = pH) /\ (forall y, y ∉ L -> heap pH' !! y = heap pH !! y))
    by (exists false, pH, L; by split_and!).
  case_bool; [done|]. destruct (malloc n1) as [n2|] eqn:E; [|done]. clear Hsame.
  apply Hm in E. destruct Hok as (Hs & Hnd & Hf & Ht). rewrite Hf.
  set (pH0 := {| htsize := n2; count := count pH; first := None; ht := Some (replicate (Z.to_nat n2) (0, None)); heap := heap pH |}).
  destruct (rehash_loop_spec L (size (heap pH)) pH0 []) as (pH' & L' & Er & Hok' & HP & K & Hsz & Hc & Hht & F); try done.
  - unfold struct_ok, pH0. cbn [heap first ht htsize]. split_and!; [done|constructor|done|].
    split; [rewrite length_replicate; lia|]. split; [lia|]. intros h ent [_ Hr]%rd_Some.
    apply lookup_replicate in Hr as [-> _]. exists [], [], []. by split_and!.
  - by apply seg_nexts in Hs.
  - intros x _. set_solver.
  - rewrite <- (size_list_to_set (C := gset loc) L), <- size_dom by done. apply subseteq_size.
    intros x Hx%elem_of_list_to_set. by apply elem_of_dom, Hin.
  - change (htsize pH0) with n2 in Er. rewrite Er. simpl. exists true, pH', L'. rewrite app_nil_r in HP.
    split_and!; try done. intros y Hy. apply F. by rewrite app_nil_r.
Qed.

(** What [sqlite3HashInsert] promises; [ok] is whether an element could be
    allocated. *)
Definition spec_insert (mp : gmap (list Z) Z) (key : list Z) (d : Z) (ok : bool) : Z * gmap (list Z) Z :=
  match mp !! fkey key with
  | Some old => (old, if d =? 0 then delete (fkey key) mp else <[fkey key := d]> mp)
  | None => if d =? 0 then (0, mp) else if ok then (0, <[fkey key := d]> mp) else (d, mp)
  end.


Lemma seg_update m x e e' p l n :
  m !! x = Some e -> next e' = next e -> prev e' = prev e -> seg m p l n -> seg (<[x := e']> m) p l n.
Proof.
  intros He Hn Hp. revert p. induction l as [|y l IH]; intros p; [done|]. intros [(ey & Hy & ? & ?) Hs].
  split; [|by apply IH]. destruct (decide (x = y)) as [<-|Hne].
  - exists e'. rewrite lookup_insert_eq. rewrite He in Hy. injection Hy as <-. by rewrite Hn, Hp.
  - exists ey. by rewrite lookup_insert_ne.
Qed.

Lemma struct_update pH L x e k d :
  struct_ok pH L -> heap pH !! x = Some e -> fkey k = fkey (pKey e) ->
  struct_ok {| htsize := htsize pH; count := count pH; first := first pH; ht := ht pH;
    heap := <[x := {| next := next e; prev := prev e; data := d; pKey := k |}]> (heap pH) |} L.
Proof.
  intros (Hs & Hnd & Hf & Ht) He Hk. unfold struct_ok. cbn [heap first ht htsize].
  split; [by eapply seg_update|]. split_and!; try done. destruct (ht pH) as [tbl|]; [|done].
  destruct Ht as (? & ? & Hent). split_and!; try done. intros h ent Hr.
  apply (entry_ok_ext (heap pH)); [|auto]. intros y _. unfold khash. destruct (decide (x = y)) as [<-|].
  - rewrite lookup_insert_eq, He. simpl. by rewrite (strHash_fkey _ _ Hk).
  - by rewrite lookup_insert_ne.
Qed.

(** A new element in the heap that is on no list yet. *)
Lemma struct_alloc pH L x e c :
  struct_ok pH L -> x ∉ L ->
  struct_ok {| htsize := htsize pH; count := c; first := first pH; ht := ht pH; heap := <[x := e]> (heap pH) |} L.
Proof.
  intros (Hs & Hnd & Hf & Ht) Hx. unfold struct_ok. cbn [heap first ht htsize].
  split; [eapply seg_frame; [|done]; intros y Hy; rewrite lookup_insert_ne; set_solver|]. split_and!; try done.
  destruct (ht pH) as [tbl|]; [|done]. destruct Ht as (? & ? & Hent). split_and!; try done. intros h ent Hr.
  apply (entry_ok_ext (heap pH)); [|auto]. intros y Hy. unfold khash. rewrite lookup_insert_ne; set_solver.
Qed.

Lemma kd_alloc m x e : kd (<[x := e]> m) = <[x := (pKey e, data e)]> (kd m).
Proof. unfold kd. by rewrite fmap_insert. Qed.

Lemma kd_is_Some m x : is_Some (kd m !! x) <-> is_Some (m !! x).
Proof. unfold kd. rewrite lookup_fmap. apply fmap_is_Some. Qed.

Lemma insert_new_models malloc pH mp L x key d b pH1 L1 :
  struct_ok pH L -> count pH = Z.of_nat (length L) -> (forall y, is_Some (heap pH !! y) <-> y ∈ L) ->
  content (kd (heap pH)) mp -> ctext key -> d <> 0 -> mp !! fkey key = None -> x ∉ L ->
  let e := {| next := None; prev := None; data := d; pKey := key |} in
  let pH0 := {| htsize := htsize pH; count := count pH + 1; first := first pH; ht := ht pH; heap := <[x := e]> (heap pH) |} in
  (if (10 <=? count pH0) && (2 * htsize pH0 <? count pH0) then rehash malloc pH0 (count pH0 * 2) else Some (false, pH0)) = Some (b, pH1) ->
  struct_ok pH1 L1 -> L1 ≡ₚ L -> kd (heap pH1) = kd (heap pH0) -> count pH1 = count pH0 ->
  (if b : bool then is_Some (ht pH1) else pH1 = pH0) -> heap pH1 !! x = Some e ->
  exists pH', insertElement pH1 (match ht pH1 with Some _ => Some (if b then strHash key mod htsize pH1 else hash_index pH key)
      | None => None end) x = Some pH' /\ models pH' (<[fkey key := d]> mp).
Proof.
  intros Hs Hc Hd Hcon Hkey Hd0 Hmp Hx e pH0 _ Hs1 HP K1 Hc1 Hb He.
  destruct (insertElement_spec pH1 L1 x e Hs1 ltac:(by rewrite HP) He) as (pH' & L' & E & Hs' & HP' & K' & Hsz' & Hc' & _ & F').
  exists pH'. split.
  - rewrite <- E. unfold entry_index. cbn [pKey e]. f_equal. destruct (ht pH1) eqn:Et; [|done]. f_equal.
    destruct b; [done|]. subst pH1. unfold hash_index. cbn [ht htsize pH0] in *. by rewrite Et.
  - exists L'. split; [done|]. split.
    { rewrite Hc', Hc1. unfold pH0. cbn [count]. apply Permutation_length in HP, HP'. simpl in HP'. lia. }
    split.
    { intros y. rewrite <- kd_is_Some, K', K1, kd_is_Some. unfold pH0. cbn [heap].
      rewrite HP', HP, elem_of_cons, <- Hd. destruct (decide (x = y)) as [<-|].
      - rewrite lookup_insert_eq. naive_solver.
      - rewrite lookup_insert_ne by done. naive_solver. }
    rewrite K', K1. unfold pH0. cbn [heap]. rewrite kd_alloc. cbn [pKey data e].
    apply content_new; try done. apply eq_None_not_Some. rewrite kd_is_Some, Hd. done.
Qed.

Lemma insert_models malloc new_elem pH mp key d :
  models pH mp -> malloc_ok malloc -> (forall x, new_elem = Some x -> heap pH !! x = None) -> ctext key ->
  let '(r, mp') := spec_insert mp key d (bool_decide (is_Some new_elem)) in
  exists pH', sqlite3HashInsert malloc new_elem pH key d = Some (r, pH') /\ models pH' mp'.
Proof.
  intros (L & Hs & Hc & Hd & Hcon) Hm Hfresh Hkey. unfold spec_insert, sqlite3HashInsert.
  rewrite (hash_index_insert pH L key Hs).
  destruct (find_models pH mp L key Hs Hc Hd Hcon Hkey) as (r & -> & Hr). cbn [mbind option_bind]. destruct r as [x|].
  - destruct Hr as (Hx & e & He & Hk & ->). rewrite He. simpl. destruct (Z.eqb_spec d 0) as [->|Hd0].
    + replace (hash_index pH key) with (hash_index pH (pKey e)) by (unfold hash_index; by rewrite (strHash_fkey _ _ Hk)).
      destruct (remove_spec pH L x e Hs Hc Hx He) as (pH' & L' & -> & Hs' & HP & Hc' & K). simpl.
      exists pH'. split; [done|]. exists L'. split_and!; try done.
      * intros y. rewrite <- kd_is_Some, K. assert (Hnd : NoDup L) by apply Hs. rewrite HP in Hnd.
        apply NoDup_cons in Hnd as [Hx' _]. destruct (decide (x = y)) as [<-|Hne].
        -- rewrite lookup_delete_eq. split; [by intros []|done].
        -- rewrite lookup_delete_ne, kd_is_Some, Hd, HP by done. set_solver.
      * rewrite K, <- Hk. eapply content_del; [done|]. unfold kd. by rewrite lookup_fmap, He.
    + unfold set_key_data. rewrite He. simpl. eexists. split; [done|]. exists L. cbn [heap count].
      split; [by apply struct_update|]. split_and!; try done.
      * intros y. rewrite <- Hd. destruct (decide (x = y)) as [<-|]; [rewrite lookup_insert_eq, He|by rewrite lookup_insert_ne].
        split; by eauto.
      * rewrite kd_alloc. cbn [pKey data]. eapply (content_set _ _ _ (pKey e) (data e)); try done.
        unfold kd. by rewrite lookup_fmap, He.
  - rewrite Hr. destruct (Z.eqb_spec d 0) as [->|Hd0]; [exists pH; split; [done|by exists L]|].
    destruct new_elem as [x|]; cbn [bool_decide]; [|rewrite bool_decide_false by (by intros []); exists pH; split; [done|by exists L]].
    rewrite bool_decide_true by done. specialize (Hfresh x eq_refl).
    assert (Hx : x ∉ L) by (rewrite <- Hd, Hfresh; by intros []).
    set (e := {| next := None; prev := None; data := d; pKey := key |}).
    set (pH0 := {| htsize := htsize pH; count := count pH + 1; first := first pH; ht := ht pH; heap := <[x := e]> (heap pH) |}).
    assert (Hs0 : struct_ok pH0 L) by (by apply struct_alloc).
    assert (exists b pH1 L1,
      (if (10 <=? count pH0) && (2 * htsize pH0 <? count pH0) then rehash malloc pH0 (count pH0 * 2) else Some (false, pH0)) = Some (b, pH1) /\
      struct_ok pH1 L1 /\ L1 ≡ₚ L /\ kd (heap pH1) = kd (heap pH0) /\ count pH1 = count pH0 /\
      (if b : bool then is_Some (ht pH1) else pH1 = pH0) /\ (forall y, y ∉ L -> heap pH1 !! y = heap pH0 !! y))
      as (b & pH1 & L1 & E1 & Hs1 & HP1 & K1 & Hc1 & Hb & F1).
    { case_bool; [|exists false, pH0, L; by split_and!]. apply rehash_spec; try done; [zbool; unfold pH0 in *; cbn [count] in *; lia|].
      intros y Hy. unfold pH0. cbn [heap]. rewrite lookup_insert_ne by (intros <-; done). by apply Hd. }
    rewrite E1. simpl.
    destruct (insert_new_models malloc pH mp L x key d b pH1 L1) as (pH' & -> & Hmod); try done.
    { rewrite F1 by done. unfold pH0. cbn [heap]. apply lookup_insert_eq. }
    exists pH'. by split.
Qed.

Lemma find_value pH mp key : models pH mp -> ctext key -> sqlite3HashFind pH key = Some (default 0 (mp !! fkey key)).
Proof.
  intros (L & Hs & Hc & Hd & Hcon) Hkey. unfold sqlite3HashFind. fold (hash_index pH key).
  destruct (find_models pH mp L key Hs Hc Hd Hcon Hkey) as (r & -> & Hr). simpl. destruct r as [x|].
  - destruct Hr as (_ & e & -> & _ & ->). done.
  - by rewrite Hr.
Qed.

(** ** Sequences of insertions and removals

    Each step inserts (or, with data 0, removes) under a key; its flag says
    whether an element can be allocated.  Allocations return unused addresses. *)

Record insertion := { key : list Z; value : Z; can_alloc : bool }.

Definition hash_step (malloc : Z -> option Z) (pH : Hash) (i : insertion) : option (Z * Hash) :=
  sqlite3HashInsert malloc (if can_alloc i then Some (fresh (dom (heap pH))) else None) pH (key i) (value i).

Fixpoint hash_run (malloc : Z -> option Z) (pH : Hash) (ops : list insertion) : option (list Z * Hash) :=
  match ops with
  | [] => Some ([], pH)
  | i :: ops => '(r, pH) ← hash_step malloc pH i; '(rs, pH) ← hash_run malloc pH ops; Some (r :: rs, pH)
  end.

Fixpoint map_run (mp : gmap (list Z) Z) (ops : list insertion) : list Z * gmap (list Z) Z :=
  match ops with
  | [] => ([], mp)
  | i :: ops =>
      let '(r, mp) := spec_insert mp (key i) (value i) (can_alloc i) in
      let '(rs, mp) := map_run mp ops in (r :: rs, mp)
  end.

Lemma hash_run_models malloc ops : forall pH mp,
  malloc_ok malloc -> Forall (fun i => ctext (key i)) ops -> models pH mp ->
  exists pH', hash_run malloc pH ops = Some ((map_run mp ops).1, pH') /\ models pH' (map_run mp ops).2.
Proof.
  induction ops as [|i ops IH]; intros pH mp Hm Hk Hmod; [by exists pH|].
  inversion_clear Hk as [|? ? Hki Hk']. cbn [hash_run map_run]. unfold hash_step.
  assert (Hfresh : forall x, (if can_alloc i then Some (fresh (dom (heap pH))) else None) = Some x -> heap pH !! x = None).
  { intros x. destruct (can_alloc i); [|done]. intros [= <-]. apply not_elem_of_dom, is_fresh. }
  pose proof (insert_models malloc _ pH mp (key i) (value i) Hmod Hm Hfresh Hki) as Hins.
  replace (bool_decide _) with (can_alloc i) in Hins
    by (destruct (can_alloc i); [by rewrite bool_decide_true|rewrite bool_decide_false; [done|by intros []]]).
  destruct (spec_insert mp (key i) (value i) (can_alloc i)) as [r mp1]. destruct Hins as (pH1 & -> & Hmod1).
  simpl. destruct (IH pH1 mp1 Hm Hk' Hmod1) as (pH' & -> & Hmod'). simpl.
  destruct (map_run mp1 ops) as [rs mp']. by exists pH'.
Qed.

(** C35. From an empty table, every sequence of insertions, replacements and
    removals runs without dereferencing a bad pointer, returns the previous data
    of each key (or the new data, when no element can be allocated), and leaves a
    table in which every lookup returns what a map from case-folded keys to data
    holds; this covers the switch from linear search to buckets, every rehash and
    failed allocations. *)
Theorem hash_refines_map malloc ops :
  malloc_ok malloc -> Forall (fun i => ctext (key i)) ops ->
  exists pH, hash_run malloc sqlite3HashInit ops = Some ((map_run ∅ ops).1, pH) /\
    forall k, ctext k -> sqlite3HashFind pH k = Some (default 0 ((map_run ∅ ops).2 !! fkey k)).
Proof.
  intros Hm Hk. destruct (hash_run_models malloc ops _ _ Hm Hk init_models) as (pH & E & Hmod).
  exists pH. split; [done|]. intros k Hck. by apply find_value.
Qed.

Definition demo_ops : list insertion :=
  [ {| key := [65; 98]; value := 7; can_alloc := true |}; {| key := [97; 66]; value := 8; can_alloc := true |};
    {| key := [99]; value := 9; can_alloc := false |}; {| key := [65; 66]; value := 0; can_alloc := true |} ] ++
  map (fun i => {| key := [65 + Z.of_nat i]; value := 1 + Z.of_nat i; can_alloc := true |}) (seq 0 20).

Lemma hash_refines_map_witness :
  exists pH, hash_run (fun n => Some n) sqlite3HashInit demo_ops = Some ([0; 7; 9; 8] ++ replicate 20 0, pH) /\
    sqlite3HashFind pH [100] = Some 4.
Proof.
  destruct (hash_refines_map (fun n => Some n) demo_ops) as (pH & E & Hf).
  - intros n n' [= <-]. lia.
  - unfold demo_ops, ctext. repeat (constructor; [repeat (constructor; [simpl; lia|]); constructor|]). constructor.
  - exists pH. split.
    + rewrite E. assert (H : (map_run ∅ demo_ops).1 = [0; 7; 9; 8] ++ replicate 20 0) by (vm_compute; reflexivity).
      rewrite H. reflexivity.
    + rewrite (Hf [100] ltac:(repeat constructor; lia)). vm_compute. reflexivity.
Defined.

(** Clearing any table built by insertions and removals frees every element
    it holds (the heap is empty afterwards) and leaves an empty table. *)
Theorem hash_clear_frees malloc ops pH r :
  malloc_ok malloc -> Forall (fun i => ctext (key i)) ops ->
  hash_run malloc sqlite3HashInit ops = Some (r, pH) ->
  sqlite3HashClear pH = Some sqlite3HashInit.
Proof.
  intros Hm Hk Hrun. destruct (hash_run_models malloc ops _ _ Hm Hk init_models) as (pH' & E & Hmod).
  rewrite Hrun in E. injection E as _ <-. destruct Hmod as (L & (Hs & Hnd & Hf & _) & _ & Hd & _).
  unfold sqlite3HashClear. rewrite Hf.
  destruct (free_loop_spec L (size (heap pH)) (heap pH)) as (m' & -> & Hm'); [by eapply seg_nexts|done| |].
  - rewrite <- (size_list_to_set (C := gset loc) L), <- size_dom by done. apply subseteq_size.
    intros x Hx%elem_of_list_to_set. by apply elem_of_dom, Hd.
  - simpl. unfold sqlite3HashInit. do 2 f_equal. apply map_eq. intros x. rewrite Hm', lookup_empty.
    destruct (decide (x ∈ L)) as [|Hx]; [done|]. apply eq_None_not_Some. by rewrite Hd.
Qed.

Lemma hash_clear_frees_witness :
  exists pH r, hash_run (fun n => Some n) sqlite3HashInit demo_ops = Some (r, pH) /\
    sqlite3HashClear pH = Some sqlite3HashInit.
Proof.
  destruct (hash_run (fun n => Some n) sqlite3HashInit demo_ops) as [[r pH]|] eqn:E;
    [|discriminate (eq_trans (eq_sym E) ltac:(vm_compute; reflexivity))].
  exists pH, r. split; [reflexivity|]. apply (hash_clear_frees (fun n => Some n) demo_ops pH r).
  - intros n n' [= <-]. lia.
  - unfold demo_ops, ctext. repeat (constructor; [repeat (constructor; [simpl; lia|]); constructor|]). constructor.
  - exact E.
Defined.
