(* ===== verification/Probe.v ===== *)
(** * Probe: linear probing in a table of [N] slots

    Two components keep open-addressed hash tables that are searched by linear
    probing: the sparse bitmaps of bitvec.c and the wal-index of wal.c.  This
    file holds what their proofs share: the table as a cycle of [N] slots in
    which zero is an empty slot, runs of occupied slots, the first empty slot
    after a hash, and the count of occupied slots. *)
From S2P Require Import Prelude.
From stdpp Require Import list.
#[local] Open Scope Z_scope.

(** The slot [x] positions along, as a cycle. *)
Definition slot (N : Z) (a : list Z) (x : Z) : Z := default 0 (rd a (x mod N)).

(** The [k] slots from [h] on are occupied. *)
Definition filled (N : Z) (a : list Z) (h k : Z) : Prop := forall j, 0 <= j < k -> slot N a (h + j) <> 0.

(** The number of occupied slots. *)
Fixpoint nzc (a : list Z) : Z := match a with [] => 0 | v :: a => (if truthy v then 1 else 0) + nzc a end.

Lemma nzc_bound a : 0 <= nzc a <= Z.of_nat (length a).
Proof. induction a as [|v a IH]; simpl; [lia|]. destruct (truthy v); lia. Qed.

Lemma nzc_full a : 0 ∉ a -> nzc a = Z.of_nat (length a).
Proof.
  induction a as [|v a IH]; [done|]. intros H. apply not_elem_of_cons in H as [Hv Ha]. simpl. unfold truthy.
  rewrite (proj2 (Z.eqb_neq v 0)) by done. simpl. rewrite IH by done. lia.
Qed.

Lemma nzc_insert a i v : a !! i = Some 0 -> v <> 0 -> nzc (<[i := v]> a) = nzc a + 1.
Proof.
  revert i. induction a as [|w a IH]; intros [|i] Hi Hv; try done; simpl in *.
  - injection Hi as ->. unfold truthy. rewrite (proj2 (Z.eqb_neq v 0)) by done. simpl. lia.
  - rewrite IH by done. lia.
Qed.

Lemma nzc_zeros n : nzc (replicate n 0) = 0.
Proof. induction n; simpl; lia. Qed.

Section probing.
Context (N : Z) (HN : 0 < N).

Lemma rd_at a x : Z.of_nat (length a) = N -> rd a (x mod N) = Some (slot N a x).
Proof using HN.
  intros Hl. unfold slot. pose proof (Z.mod_pos_bound x N HN).
  destruct (rd_is_Some a (x mod N)) as [v ->]; [lia|done].
Qed.

Lemma at_mod a x : slot N a (x mod N) = slot N a x.
Proof using HN. unfold slot. rewrite Z.mod_mod by lia. done. Qed.

Lemma at_congr a x y : x mod N = y mod N -> slot N a x = slot N a y.
Proof using Type. unfold slot. by intros ->. Qed.

Lemma elem_of_at a v : Z.of_nat (length a) = N -> v ∈ a <-> exists x, 0 <= x < N /\ slot N a x = v.
Proof using HN.
  intros Hl. rewrite list_elem_of_lookup. split.
  - intros (i & Hi). pose proof (lookup_lt_Some _ _ _ Hi). exists (Z.of_nat i). split; [lia|].
    unfold slot. rewrite Z.mod_small by lia. by rewrite rd_nat, Hi.
  - intros (x & Hx & <-). exists (Z.to_nat x). pose proof (rd_at a x Hl) as H. rewrite Z.mod_small in H by lia.
    by apply rd_Some in H as [_ ?].
Qed.

Lemma nzc_zero a : Z.of_nat (length a) = N -> nzc a < N -> exists x, 0 <= x < N /\ slot N a x = 0.
Proof using HN.
  intros Hl Hn. apply elem_of_at; [done|]. destruct (decide (0 ∈ a)) as [|H]; [done|]. exfalso.
  rewrite nzc_full in Hn by done. lia.
Qed.

Lemma first_zero a h :
  (exists x, slot N a x = 0) -> exists k, 0 <= k < N /\ slot N a (h + k) = 0 /\ filled N a h k.
Proof using HN.
  intros [x Hx].
  assert (Hmin : forall n : nat, filled N a h (Z.of_nat n) \/
    exists k, 0 <= k < Z.of_nat n /\ slot N a (h + k) = 0 /\ filled N a h k).
  { induction n as [|n [IH|(k & ? & ?)]]; [left; intros j Hj; lia| |right; exists k; split; [lia|done]].
    destruct (decide (slot N a (h + Z.of_nat n) = 0)) as [E|E]; [right; exists (Z.of_nat n); split_and!; (lia || done)|].
    left. intros j Hj. destruct (decide (j = Z.of_nat n)) as [->|]; [done|]. apply IH. lia. }
  destruct (Hmin (Z.to_nat N)) as [Hf|(k & Hk & Hz)]; [exfalso|exists k; split; [lia|done]].
  pose proof (Z.mod_pos_bound (x - h) N HN). apply (Hf ((x - h) mod N)); [lia|].
  rewrite <- Hx. apply at_congr. rewrite Z.add_mod_idemp_r by lia. f_equal. lia.
Qed.

Lemma filled_tail a h k : filled N a h k -> filled N a (h + 1) (k - 1).
Proof using Type. intros Hf j Hj. replace (h + 1 + j) with (h + (j + 1)) by lia. apply Hf. lia. Qed.

Lemma at_insert a s v x :
  Z.of_nat (length a) = N ->
  slot N (<[Z.to_nat (s mod N) := v]> a) x = if decide (x mod N = s mod N) then v else slot N a x.
Proof using HN.
  intros Hl. pose proof (Z.mod_pos_bound s N HN). pose proof (Z.mod_pos_bound x N HN).
  unfold slot, rd. rewrite (proj2 (Z.ltb_ge (x mod N) 0)) by lia. destruct (decide _) as [->|Hne].
  - by rewrite list_lookup_insert_eq by lia.
  - by rewrite list_lookup_insert_ne by lia.
Qed.

(** A run of occupied slots, shorter than the table, is no longer than the count of occupied slots. *)
Lemma filled_clear a h k :
  Z.of_nat (length a) = N -> 0 < k <= N -> filled N a h k ->
  let a' := <[Z.to_nat (h mod N) := 0]> a in
  nzc a' = nzc a - 1 /\ filled N a' (h + 1) (k - 1) /\ length a' = length a.
Proof using HN.
  intros Hl Hk Hf. cbv zeta. pose proof (Z.mod_pos_bound h N HN) as Hm.
  assert (Ha : <[Z.to_nat (h mod N) := slot N a h]> (<[Z.to_nat (h mod N) := 0]> a) = a).
  { rewrite list_insert_insert_eq. apply list_insert_id. pose proof (rd_at a h Hl) as Hr. by apply rd_Some in Hr as [_ ?]. }
  split_and!.
  - assert (nzc (<[Z.to_nat (h mod N) := slot N a h]> (<[Z.to_nat (h mod N) := 0]> a))
            = nzc (<[Z.to_nat (h mod N) := 0]> a) + 1) as E; [apply nzc_insert|rewrite Ha in E; lia].
    + apply list_lookup_insert_eq. lia.
    + pose proof (Hf 0 ltac:(lia)) as H0. by rewrite Z.add_0_r in H0.
  - intros j Hj. rewrite at_insert by done. case_decide as E; [exfalso|].
    + assert (Hz : (1 + j) mod N = 0).
      { replace (1 + j) with ((h + 1 + j) - h) by lia. rewrite Zminus_mod, E, Z.sub_diag. apply Zmod_0_l. }
      rewrite Z.mod_small in Hz; lia.
    + replace (h + 1 + j) with (h + (j + 1)) by lia. apply Hf. lia.
  - apply length_insert.
Qed.

Lemma filled_le_nzc a h k : Z.of_nat (length a) = N -> 0 <= k <= N -> filled N a h k -> k <= nzc a.
Proof using HN.
  intros Hl [Hk0 HkN] Hf. revert a h Hl HkN Hf. pattern k. apply natlike_ind; [| |done].
  - intros a h _ _ _. apply nzc_bound.
  - intros n Hn IH a h Hl HkN Hf. destruct (filled_clear a h (Z.succ n)) as (E & Hf' & Hlen); try done; [lia|].
    enough (n <= nzc (<[Z.to_nat (h mod N) := 0]> a)) by lia.
    apply (IH _ (h + 1)); [by rewrite Hlen|lia|]. by replace n with (Z.succ n - 1) by lia.
Qed.
End probing.
