(* ===== verification/Bitvec.v ===== *)
(** * Bitvec: sparse bitmaps of page numbers

    Models bitvec.c of [src/whip-server/sqlite/sqlite3.c] for 8-byte pointers:
    the three representations (bitmap, hash table with linear probing, array of
    sub-bitmaps), the switch from hash table to sub-bitmaps, and failed
    allocations.  [None] is an access outside an array, a read of the wrong
    member of the union, or a loop that does not end within its fuel: 252 probes
    for the hash loops, and [DEPTH] for the descent into sub-bitmaps, which is
    enough for every 32-bit size because each level divides the size by 126. *)
From S2P Require Import Prelude Probe.
From stdpp Require Import list gmap.
#[local] Open Scope Z_scope.

Definition BITVEC_SZ : Z := 8 * 128.
Definition BITVEC_USIZE : Z := (BITVEC_SZ - 3 * 4) / 8 * 8.
Definition BITVEC_SZELEM : Z := 8.
Definition BITVEC_NELEM : Z := BITVEC_USIZE / 1.
Definition BITVEC_NBIT : Z := BITVEC_NELEM * BITVEC_SZELEM.
Definition BITVEC_NINT : Z := BITVEC_USIZE / 4.
Definition BITVEC_MXHASH : Z := BITVEC_NINT / 2.
Definition BITVEC_HASH (x : Z) : Z := x * 1 mod BITVEC_NINT.
Definition BITVEC_NPTR : Z := BITVEC_USIZE / 8.

Inductive Bitvec : Type := mkBitvec (iSize nSet iDivisor : Z) (u : payload)
with payload : Type :=
  | aBitmap (a : list Z)
  | aHash (a : list Z)
  | apSub (a : list (option Bitvec)).

Definition iSize (p : Bitvec) : Z := let '(mkBitvec s _ _ _) := p in s.

(** The allocator: whether each next allocation succeeds; when the list is used
    up, all do. *)
Definition alloc (o : list bool) : bool * list bool := match o with [] => (true, []) | b :: o => (b, o) end.

(** A zeroed object is an empty bitmap or hash table, according to its size. *)
Definition zeroed (iSize : Z) : payload :=
  if iSize <=? BITVEC_NBIT then aBitmap (replicate (Z.to_nat BITVEC_NELEM) 0)
  else aHash (replicate (Z.to_nat BITVEC_NINT) 0).

Definition sqlite3BitvecCreate (o : list bool) (iSize : Z) : option Bitvec * list bool :=
  let '(ok, o) := alloc o in
  (if ok then Some (mkBitvec iSize 0 0 (zeroed iSize)) else None, o).

Definition DEPTH : nat := 8.

(** while( p->u.aHash[h] ){ if( p->u.aHash[h]==i ) return 1; h = (h+1) % BITVEC_NINT; } *)
Fixpoint probe_test (fuel : nat) (a : list Z) (h i : Z) : option bool :=
  match fuel with
  | O => None
  | S fuel =>
      v ← rd a h;
      if v =? 0 then Some false else if v =? i then Some true
      else probe_test fuel a ((h + 1) mod BITVEC_NINT) i
  end.

(** [i] is the bit number less one. *)
Fixpoint test_at (fuel : nat) (p : Bitvec) (i : Z) : option bool :=
  match fuel with
  | O => None
  | S fuel =>
      let '(mkBitvec iSize _ iDivisor u) := p in
      if truthy iDivisor then
        match u with
        | apSub a =>
            q ← rd a (i / iDivisor);
            match q with None => Some false | Some q => test_at fuel q (i mod iDivisor) end
        | _ => None
        end
      else if iSize <=? BITVEC_NBIT then
        match u with
        | aBitmap a =>
            b ← rd a (i / BITVEC_SZELEM);
            Some (truthy (Z.land b (Z.shiftl 1 (Z.land i (BITVEC_SZELEM - 1)))))
        | _ => None
        end
      else match u with aHash a => probe_test (Z.to_nat BITVEC_NINT) a (BITVEC_HASH i) (i + 1) | _ => None end
  end.

Definition sqlite3BitvecTest (p : option Bitvec) (i : Z) : option bool :=
  match p with
  | None => Some false
  | Some p => if (iSize p <? i) || (i =? 0) then Some false else test_at DEPTH p (i - 1)
  end.

Definition next_slot (h : Z) : Z := let h := h + 1 in if BITVEC_NINT <=? h then 0 else h.

(** do { if( aHash[h]==i ) return; h++; ... } while( aHash[h] ): [Some None] is
    the return, otherwise the free slot. *)
Fixpoint probe_set (fuel : nat) (a : list Z) (h i : Z) : option (option Z) :=
  match fuel with
  | O => None
  | S fuel =>
      v ← rd a h;
      if v =? i then Some None
      else
        let h := next_slot h in
        v ← rd a h;
        if truthy v then probe_set fuel a h i else Some (Some h)
  end.

(** The calls of [sqlite3BitvecSet] for the values of the old hash table;
    [set] is that function for a bit number less one. *)
Fixpoint set_all (set : Bitvec -> Z -> list bool -> option (Z * Bitvec * list bool))
    (aiValues : list Z) (rc : Z) (p : Bitvec) (o : list bool) : option (Z * Bitvec * list bool) :=
  match aiValues with
  | [] => Some (rc, p, o)
  | v :: aiValues =>
      if truthy v then '(rc', p, o) ← set p (v - 1) o; set_all set aiValues (Z.lor rc rc') p o
      else set_all set aiValues rc p o
  end.

Fixpoint set_at (fuel : nat) (p : Bitvec) (i : Z) (o : list bool) : option (Z * Bitvec * list bool) :=
  match fuel with
  | O => None
  | S fuel =>
      let '(mkBitvec iSize nSet iDivisor u) := p in
      if (BITVEC_NBIT <? iSize) && truthy iDivisor then
        match u with
        | apSub a =>
            let bin := i / iDivisor in
            let i := i mod iDivisor in
            q ← rd a bin;
            let '(q, o) := match q with None => sqlite3BitvecCreate o iDivisor | Some q => (Some q, o) end in
            match q with
            | None => Some (SQLITE_NOMEM, p, o)
            | Some q =>
                '(rc, q, o) ← set_at fuel q i o;
                a ← wr a bin (Some q);
                Some (rc, mkBitvec iSize nSet iDivisor (apSub a), o)
            end
        | _ => None
        end
      else if iSize <=? BITVEC_NBIT then
        match u with
        | aBitmap a =>
            b ← rd a (i / BITVEC_SZELEM);
            a ← wr a (i / BITVEC_SZELEM) (u8 (Z.lor b (Z.shiftl 1 (Z.land i (BITVEC_SZELEM - 1)))));
            Some (SQLITE_OK, mkBitvec iSize nSet iDivisor (aBitmap a), o)
        | _ => None
        end
      else
        match u with
        | aHash a =>
            let h := BITVEC_HASH i in
            let i := i + 1 in
            let set_end h :=
              a ← wr a h i; Some (SQLITE_OK, mkBitvec iSize (nSet + 1) iDivisor (aHash a), o) in
            let set_rehash h :=
              if BITVEC_MXHASH <=? nSet then
                let '(ok, o) := alloc o in
                if negb ok then Some (SQLITE_NOMEM, p, o)
                else
                  let div := u32 (iSize + BITVEC_NPTR - 1) / BITVEC_NPTR in
                  let p := mkBitvec iSize nSet div (apSub (replicate (Z.to_nat BITVEC_NPTR) None)) in
                  '(rc, p, o) ← set_at fuel p (i - 1) o;
                  set_all (set_at fuel) a rc p o
              else set_end h in
            v ← rd a h;
            if negb (truthy v) then
              if nSet <? BITVEC_NINT - 1 then set_end h else set_rehash h
            else
              r ← probe_set (Z.to_nat BITVEC_NINT) a h i;
              match r with None => Some (SQLITE_OK, p, o) | Some h => set_rehash h end
        | _ => None
        end
  end.

(** (result code, the bitvec after the call, the allocator) *)
Definition sqlite3BitvecSet (p : option Bitvec) (i : Z) (o : list bool) : option (Z * option Bitvec * list bool) :=
  match p with
  | None => Some (SQLITE_OK, None, o)
  | Some p => '(rc, p, o) ← set_at DEPTH p (i - 1) o; Some (rc, Some p, o)
  end.

(** while( p->u.aHash[h] ){ h++; if( h>=BITVEC_NINT ) h = 0; } *)
Fixpoint probe_free (fuel : nat) (a : list Z) (h : Z) : option Z :=
  match fuel with
  | O => None
  | S fuel => v ← rd a h; if truthy v then probe_free fuel a (next_slot h) else Some h
  end.

(** The loop of [sqlite3BitvecClear] that rebuilds the hash table without [i]. *)
Fixpoint rebuild (aiValues : list Z) (i nSet : Z) (a : list Z) : option (Z * list Z) :=
  match aiValues with
  | [] => Some (nSet, a)
  | v :: aiValues =>
      if truthy v && negb (v =? i) then
        h ← probe_free (Z.to_nat BITVEC_NINT) a (BITVEC_HASH (v - 1));
        a ← wr a h v;
        rebuild aiValues i (nSet + 1) a
      else rebuild aiValues i nSet a
  end.

Fixpoint clear_at (fuel : nat) (p : Bitvec) (i : Z) : option Bitvec :=
  match fuel with
  | O => None
  | S fuel =>
      let '(mkBitvec iSize nSet iDivisor u) := p in
      if truthy iDivisor then
        match u with
        | apSub a =>
            let bin := i / iDivisor in
            q ← rd a bin;
            match q with
            | None => Some p
            | Some q =>
                q ← clear_at fuel q (i mod iDivisor);
                a ← wr a bin (Some q);
                Some (mkBitvec iSize nSet iDivisor (apSub a))
            end
        | _ => None
        end
      else if iSize <=? BITVEC_NBIT then
        match u with
        | aBitmap a =>
            b ← rd a (i / BITVEC_SZELEM);
            a ← wr a (i / BITVEC_SZELEM) (u8 (Z.land b (Z.lnot (Z.shiftl 1 (Z.land i (BITVEC_SZELEM - 1))))));
            Some (mkBitvec iSize nSet iDivisor (aBitmap a))
        | _ => None
        end
      else
        match u with
        | aHash a =>
            '(nSet, a) ← rebuild a (i + 1) 0 (replicate (Z.to_nat BITVEC_NINT) 0);
            Some (mkBitvec iSize nSet iDivisor (aHash a))
        | _ => None
        end
  end.

Definition sqlite3BitvecClear (p : option Bitvec) (i : Z) : option (option Bitvec) :=
  match p with
  | None => Some None
  | Some p => p ← clear_at DEPTH p (i - 1); Some (Some p)
  end.

Definition sqlite3BitvecSize (p : Bitvec) : Z := iSize p.

(** The number of objects [sqlite3BitvecDestroy] frees, with the recursion of
    the code. *)
Fixpoint sqlite3BitvecDestroy (fuel : nat) (p : option Bitvec) : option Z :=
  match p, fuel with
  | None, _ => Some 0
  | _, O => None
  | Some (mkBitvec _ _ iDivisor u), S fuel =>
      if truthy iDivisor then
        match u with
        | apSub a =>
            n ← fold_left (fun acc q => n ← acc; k ← sqlite3BitvecDestroy fuel q; Some (n + k)) a (Some 0);
            Some (n + 1)
        | _ => None
        end
      else Some 1
  end.

(** ** Linear probing *)

Lemma NINT_252 : BITVEC_NINT = 252. Proof. reflexivity. Qed.

#[local] Notation at_ := (slot 252).
#[local] Notation filled := (filled 252).

(** Every value can be reached from its hash without crossing an empty slot. *)
Definition hash_inv (a : list Z) : Prop :=
  Z.of_nat (length a) = 252 /\
  forall x, at_ a x <> 0 -> exists j, 0 <= j < 252 /\ (at_ a x - 1 + j) mod 252 = x mod 252 /\ filled a (at_ a x - 1) j.

Lemma next_slot_mod h : next_slot (h mod 252) = (h + 1) mod 252.
Proof.
  unfold next_slot. rewrite NINT_252. pose proof (Z.mod_pos_bound h 252 ltac:(lia)).
  rewrite <- Z.add_mod_idemp_l by lia. case_bool; zbool; [|by rewrite (Z.mod_small (h mod 252 + 1)) by lia].
  replace (h mod 252 + 1) with 252 by lia. done.
Qed.

Lemma probe_test_spec a i : forall fuel h k,
  Z.of_nat (length a) = 252 -> 0 <= k < Z.of_nat fuel -> at_ a (h + k) = 0 -> filled a h k -> i <> 0 ->
  exists b, probe_test fuel a (h mod 252) i = Some b /\ (b = true <-> exists j, 0 <= j < k /\ at_ a (h + j) = i).
Proof.
  induction fuel as [|fuel IH]; intros h k Hl Hk Hz Hf Hi; [lia|]. cbn [probe_test]. rewrite (rd_at 252) by done. simpl.
  destruct (decide (k = 0)) as [->|Hk0].
  { rewrite Z.add_0_r in Hz. rewrite Hz. exists false. split; [done|]. split; [done|]. intros (j & ? & _). lia. }
  pose proof (Hf 0 ltac:(lia)) as H0. rewrite Z.add_0_r in H0. rewrite (proj2 (Z.eqb_neq _ _) H0).
  destruct (Z.eqb_spec (at_ a h) i) as [E|E].
  { exists true. split; [done|]. split; [|done]. intros _. exists 0. rewrite Z.add_0_r. split; [lia|done]. }
  rewrite NINT_252, Z.add_mod_idemp_l by lia.
  destruct (IH (h + 1) (k - 1) Hl) as (b & -> & Hb); try done; [lia|by replace (h + 1 + (k - 1)) with (h + k) by lia|by apply filled_tail|].
  exists b. split; [done|]. rewrite Hb. split.
  - intros (j & Hj & Ej). exists (j + 1). split; [lia|]. by replace (h + (j + 1)) with (h + 1 + j) by lia.
  - intros (j & Hj & Ej). destruct (decide (j = 0)) as [->|]; [by rewrite Z.add_0_r in Ej|].
    exists (j - 1). split; [lia|]. by replace (h + 1 + (j - 1)) with (h + j) by lia.
Qed.

Lemma probe_set_spec a i : forall fuel h k,
  Z.of_nat (length a) = 252 -> 0 < k < Z.of_nat fuel -> at_ a (h + k) = 0 -> filled a h k ->
  exists r, probe_set fuel a (h mod 252) i = Some r /\
    match r with
    | None => exists j, 0 <= j < k /\ at_ a (h + j) = i
    | Some s => s = (h + k) mod 252
    end.
Proof.
  induction fuel as [|fuel IH]; intros h k Hl Hk Hz Hf; [lia|]. cbn [probe_set]. rewrite (rd_at 252) by done. simpl.
  destruct (Z.eqb_spec (at_ a h) i) as [E|E].
  { exists None. split; [done|]. exists 0. rewrite Z.add_0_r. split; [lia|done]. }
  rewrite next_slot_mod, (rd_at 252) by done. simpl. unfold truthy. destruct (decide (k = 1)) as [->|Hk1].
  { rewrite Hz. simpl. by eexists. }
  pose proof (Hf 1 ltac:(lia)) as H1. rewrite (proj2 (Z.eqb_neq _ _) H1). simpl.
  destruct (IH (h + 1) (k - 1) Hl) as (r & -> & Hr); try done;
    [lia|by replace (h + 1 + (k - 1)) with (h + k) by lia|by apply filled_tail|].
  exists r. split; [done|]. destruct r as [s|].
  - rewrite Hr. f_equal. lia.
  - destruct Hr as (j & Hj & Ej). exists (j + 1). split; [lia|]. by replace (h + (j + 1)) with (h + 1 + j) by lia.
Qed.

Lemma probe_free_spec a : forall fuel h k,
  Z.of_nat (length a) = 252 -> 0 <= k < Z.of_nat fuel -> at_ a (h + k) = 0 -> filled a h k ->
  probe_free fuel a (h mod 252) = Some ((h + k) mod 252).
Proof.
  induction fuel as [|fuel IH]; intros h k Hl Hk Hz Hf; [lia|]. cbn [probe_free]. rewrite (rd_at 252) by done. simpl.
  unfold truthy. destruct (decide (k = 0)) as [->|Hk0].
  { rewrite Z.add_0_r in *. by rewrite Hz. }
  pose proof (Hf 0 ltac:(lia)) as H0. rewrite Z.add_0_r in H0. rewrite (proj2 (Z.eqb_neq _ _) H0). simpl.
  rewrite next_slot_mod, (IH (h + 1) (k - 1) Hl); [do 2 f_equal; lia|lia| |by apply filled_tail].
  by replace (h + 1 + (k - 1)) with (h + k) by lia.
Qed.

(** A lookup in a table with an empty slot finds exactly its values. *)
Lemma probe_test_elem a v :
  hash_inv a -> nzc a < 252 -> 0 < v ->
  exists b, probe_test 252 a (BITVEC_HASH (v - 1)) v = Some b /\ (b = true <-> v ∈ a).
Proof.
  intros [Hl Hinv] Hn Hv. destruct (nzc_zero 252 eq_refl a Hl Hn) as (x & _ & Hx).
  destruct (first_zero 252 eq_refl a (v - 1) (ex_intro _ x Hx)) as (k & Hk & Hz & Hf).
  unfold BITVEC_HASH. rewrite Z.mul_1_r, NINT_252.
  destruct (probe_test_spec a v 252 (v - 1) k) as (b & -> & Hb); try done; [lia|].
  exists b. split; [done|]. rewrite Hb, (elem_of_at 252) by done. split.
  - intros (j & Hj & Ej). exists ((v - 1 + j) mod 252). rewrite at_mod by lia. split; [apply Z.mod_pos_bound; lia|done].
  - intros (y & Hy & Ey). destruct (Hinv y ltac:(lia)) as (j & Hj & Em & Hfj). rewrite Ey in *.
    assert (Hat : at_ a (v - 1 + j) = v) by (rewrite <- Ey at 2; by apply at_congr).
    exists j. split; [|done]. split; [lia|]. destruct (decide (j < k)) as [|Hge]; [lia|].
    destruct (decide (j = k)) as [->|]; [lia|]. exfalso. apply (Hfj k); [lia|done].
Qed.

(** Storing a value at the first empty slot after its hash. *)
Lemma store_inv a v k :
  hash_inv a -> v <> 0 -> 0 <= k < 252 -> at_ a (v - 1 + k) = 0 -> filled a (v - 1) k ->
  let a' := <[Z.to_nat ((v - 1 + k) mod 252) := v]> a in
  wr a ((v - 1 + k) mod 252) v = Some a' /\ hash_inv a' /\ nzc a' = nzc a + 1 /\
  (forall w, w <> 0 -> w ∈ a' <-> w = v \/ w ∈ a).
Proof.
  intros [Hl Hinv] Hv Hk Hz Hf. pose proof (Z.mod_pos_bound (v - 1 + k) 252 ltac:(lia)) as Hs. cbv zeta.
  assert (Hfill : forall h j, filled a h j -> filled (<[Z.to_nat ((v - 1 + k) mod 252) := v]> a) h j).
  { intros h j Hfj i Hi. rewrite (at_insert 252) by done. case_decide; [done|]. by apply Hfj. }
  split; [by rewrite wr_Some by lia|]. split; [split; [by rewrite length_insert|]|split].
  - intros x. rewrite (at_insert 252) by done. destruct (decide (x mod 252 = (v - 1 + k) mod 252)) as [E|E].
    + intros _. exists k. rewrite E. split_and!; try lia. by apply Hfill.
    + intros Hx. destruct (Hinv x Hx) as (j & ? & ? & ?). exists j. split_and!; try done; try lia. by apply Hfill.
  - apply nzc_insert; [|done]. pose proof (rd_at 252 eq_refl a (v - 1 + k) Hl) as Hr. rewrite Hz in Hr. by apply rd_Some in Hr as [_ ?].
  - intros w Hw. rewrite !(elem_of_at 252) by (by rewrite ?length_insert). split.
    + intros (x & Hx & E). rewrite at_insert in E by done. case_decide; [by left|right; by exists x].
    + intros [->|(x & Hx & E)].
      * exists ((v - 1 + k) mod 252). split; [done|]. rewrite at_mod, (at_insert 252) by done. by rewrite decide_True.
      * exists x. split; [done|]. rewrite (at_insert 252) by done. case_decide as Hd; [|done].
        exfalso. apply Hw. rewrite <- E, <- Hz. by apply at_congr.
Qed.

Lemma rebuild_spec l i : forall n a,
  hash_inv a -> n = nzc a -> nzc a + nzc l < 252 ->
  exists a', rebuild l i n a = Some (nzc a', a') /\ hash_inv a' /\ nzc a' <= nzc a + nzc l /\
    (forall w, w <> 0 -> w ∈ a' <-> w ∈ a \/ (w ∈ l /\ w <> i)).
Proof.
  induction l as [|v l IH]; intros n a Ha -> Hn; cbn [rebuild nzc] in *.
  { exists a. split_and!; try done; try lia. intros w _. set_solver. }
  pose proof (nzc_bound l) as Hb. unfold truthy in *. destruct (Z.eqb_spec v 0) as [->|Hv]; cbn [negb andb] in *.
  { destruct (IH (nzc a) a) as (a' & -> & ? & ? & Hw); [done|done|lia|]. exists a'. split_and!; try done; try lia.
    intros w Hw0. rewrite Hw by done. set_solver. }
  destruct (Z.eqb_spec v i) as [->|Hvi]; cbn [negb].
  { destruct (IH (nzc a) a) as (a' & -> & ? & ? & Hw); [done|done|lia|]. exists a'. split_and!; try done; try lia.
    intros w Hw0. rewrite Hw by done. set_solver. }
  pose proof Ha as [Hl _]. destruct (nzc_zero 252 eq_refl a Hl ltac:(lia)) as (x & _ & Hx).
  destruct (first_zero 252 eq_refl a (v - 1) (ex_intro _ x Hx)) as (k & Hk & Hz & Hf).
  unfold BITVEC_HASH. rewrite Z.mul_1_r, NINT_252, (probe_free_spec a _ (v - 1) k) by (done || lia). simpl.
  destruct (store_inv a v k Ha Hv Hk Hz Hf) as (-> & Ha' & Hn' & Hin). simpl.
  destruct (IH (nzc a + 1) _ Ha') as (a' & -> & ? & ? & Hw); [lia|lia|]. exists a'. split_and!; try done; try lia.
  intros w Hw0. rewrite Hw, Hin by done. set_solver.
Qed.

(** ** The representation invariant

    [n] bounds the levels of sub-bitmaps; [has n p i] says bit number [i+1] is
    set. *)

Fixpoint wf (n : nat) (p : Bitvec) : Prop :=
  let '(mkBitvec sz nSet div u) := p in
  0 <= sz <= 8064 * 126 ^ Z.of_nat n /\ sz < 2 ^ 32 - 125 /\
  match u with
  | aBitmap a => sz <= 8064 /\ div = 0 /\ length a = 1008%nat /\ Forall is_u8 a
  | aHash a =>
      8064 < sz /\ div = 0 /\ hash_inv a /\ nSet = nzc a /\ nSet <= 251 /\ Forall (fun v => 0 <= v <= sz) a
  | apSub a =>
      match n with
      | O => False
      | S n =>
          8064 < sz /\ div = (sz + 125) / 126 /\ length a = 126%nat /\
          forall bin q, rd a bin = Some (Some q) -> wf n q /\ iSize q = div
      end
  end.

Fixpoint has (n : nat) (p : Bitvec) (i : Z) : Prop :=
  let '(mkBitvec _ _ div u) := p in
  match u with
  | aBitmap a => exists b, rd a (i / 8) = Some b /\ Z.testbit b (i mod 8) = true
  | aHash a => i + 1 ∈ a
  | apSub a =>
      match n with
      | O => False
      | S n => exists q, rd a (i / div) = Some (Some q) /\ has n q (i mod div)
      end
  end.

Ltac consts :=
  change BITVEC_NBIT with 8064 in *; change BITVEC_NINT with 252 in *; change BITVEC_MXHASH with 126 in *;
  change BITVEC_NPTR with 126 in *; change BITVEC_SZELEM with 8 in *; change BITVEC_NELEM with 1008 in *;
  change (Z.to_nat 252) with 252%nat in *; change (Z.to_nat 126) with 126%nat in *; change (Z.to_nat 1008) with 1008%nat in *.

Lemma land_7 i : Z.land i 7 = i mod 8.
Proof. change 7 with (Z.ones 3). by rewrite Z.land_ones by lia. Qed.

Lemma sub_index sz i : 8064 < sz -> 0 <= i < sz ->
  let div := (sz + 125) / 126 in 0 < div /\ 0 <= i / div < 126 /\ 0 <= i mod div < div.
Proof.
  intros Hsz Hi. cbv zeta. assert (Hd : 0 < (sz + 125) / 126) by (apply Z.div_str_pos; lia).
  split; [done|]. split; [|by apply Z.mod_pos_bound]. split; [apply Z.div_pos; lia|].
  apply Z.div_lt_upper_bound; [done|]. pose proof (Z.div_mod (sz + 125) 126 ltac:(lia)).
  pose proof (Z.mod_pos_bound (sz + 125) 126 ltac:(lia)). lia.
Qed.

Lemma test_at_has n : forall fuel p i,
  wf n p -> 0 <= i < iSize p -> (n < fuel)%nat ->
  exists b, test_at fuel p i = Some b /\ (b = true <-> has n p i).
Proof.
  induction n as [|n IH]; intros [|fuel] [sz nSet div u] i Hwf Hi Hf; try lia; cbn [iSize] in Hi;
    destruct Hwf as (Hsz & Hmax & Hu); cbn [test_at has]; destruct u as [a|a|a]; try done; consts.
  all: try (destruct Hu as (Hs & -> & Hl & Hb); change (truthy 0) with false; cbn iota;
    rewrite (proj2 (Z.leb_le sz 8064)) by lia;
    destruct (rd_is_Some a (i / 8)) as [b Hr]; [split; [apply Z.div_pos; lia|apply Z.div_lt_upper_bound; lia]|];
    rewrite Hr; simpl; change (8 - 1) with 7; rewrite land_7, land_bit by (apply Z.mod_pos_bound; lia);
    eexists; (split; [done|]); split; [intros ?; by exists b|by intros (? & [= <-] & ?)]).
  1: { simpl in Hsz. destruct Hu as (? & _). lia. }
  - destruct Hu as (Hs & -> & Hinv & -> & Hn & Hv). change (truthy 0) with false. cbn iota.
    rewrite (proj2 (Z.leb_gt sz 8064)) by lia.
    destruct (probe_test_elem a (i + 1) Hinv) as (b & Hp & Hb); [lia|lia|].
    replace (i + 1 - 1) with i in Hp by lia. rewrite Hp. by exists b.
  - destruct Hu as (Hs & -> & Hl & Hq). destruct (sub_index sz i Hs Hi) as (Hd & Hbin & Hmod).
    unfold truthy. rewrite (proj2 (Z.eqb_neq ((sz + 125) / 126) 0)) by lia. cbn [negb].
    destruct (rd_is_Some a (i / ((sz + 125) / 126))) as [q Hr]; [lia|]. rewrite Hr. simpl. destruct q as [q|].
    + destruct (Hq _ _ Hr) as [Hwq Hsq]. destruct (IH fuel q (i mod ((sz + 125) / 126)) Hwq) as (b & -> & Hb); [lia|lia|].
      exists b. split; [done|]. rewrite Hb. split; [intros ?; by exists q|by intros (? & [= <-] & ?)].
    + exists false. split; [done|]. split; [done|]. by intros (? & ? & ?).
Qed.

(** ** Setting a bit *)

Definition is_sub (p : Bitvec) : Prop := let '(mkBitvec _ _ _ u) := p in match u with apSub _ => True | _ => False end.

(** What a call that sets bit [i+1] of [p] does. *)
Definition set_post (n : nat) (p : Bitvec) (i : Z) (o : list bool) (r : option (Z * Bitvec * list bool)) : Prop :=
  exists rc p' o', r = Some (rc, p', o') /\ wf n p' /\ iSize p' = iSize p /\ (is_sub p -> is_sub p') /\
    (rc = SQLITE_OK \/ rc = SQLITE_NOMEM) /\ (o = [] -> rc = SQLITE_OK /\ o' = []) /\
    (forall j, 0 <= j < iSize p -> has n p' j -> j = i \/ has n p j) /\
    (rc = SQLITE_OK -> forall j, 0 <= j < iSize p -> j = i \/ has n p j -> has n p' j).

Lemma div_mod_8_inj i j : i / 8 = j / 8 -> i mod 8 = j mod 8 -> i = j.
Proof. intros Hd Hm. rewrite (Z.div_mod i 8), (Z.div_mod j 8) by lia. lia. Qed.

Lemma testbit_u8_set b k m :
  0 <= k < 8 -> 0 <= m < 8 -> Z.testbit (u8 (Z.lor b (Z.shiftl 1 k))) m = (k =? m) || Z.testbit b m.
Proof.
  intros Hk Hm. unfold u8. rewrite Z.mod_pow2_bits_low, Z.lor_spec, Z.shiftl_1_l, Z.pow2_bits_eqb by lia. apply orb_comm.
Qed.

Lemma testbit_u8_clear b k m :
  0 <= k < 8 -> 0 <= m < 8 -> Z.testbit (u8 (Z.land b (Z.lnot (Z.shiftl 1 k)))) m = negb (k =? m) && Z.testbit b m.
Proof.
  intros Hk Hm. unfold u8. rewrite Z.mod_pow2_bits_low, Z.land_spec, Z.lnot_spec, Z.shiftl_1_l, Z.pow2_bits_eqb by lia.
  apply andb_comm.
Qed.

(** Changing one bit of a byte array, and the other bits. *)
Lemma bit_update a i b b' (P : bool -> Prop) j :
  rd a (i / 8) = Some b -> 0 <= i ->
  (forall m, 0 <= m < 8 -> m <> i mod 8 -> Z.testbit b' m = Z.testbit b m) ->
  j <> i -> 0 <= j ->
  (exists c, rd (<[Z.to_nat (i / 8) := b']> a) (j / 8) = Some c /\ P (Z.testbit c (j mod 8))) <->
  (exists c, rd a (j / 8) = Some c /\ P (Z.testbit c (j mod 8))).
Proof.
  intros Hr Hi Hoth Hj Hj0. pose proof (rd_bound _ _ _ Hr) as Hbnd.
  pose proof (Z.mod_pos_bound j 8 ltac:(lia)). destruct (decide (j / 8 = i / 8)) as [E|E].
  - assert (Hm : j mod 8 <> i mod 8) by (intros Hm; apply Hj; by apply div_mod_8_inj).
    rewrite E, Hr, (rd_wr_eq a (i / 8) b') by (by apply wr_Some).
    split; intros (c & [= <-] & Hp); eexists; (split; [done|]); [by rewrite <- Hoth|by rewrite Hoth].
  - by rewrite (rd_wr_ne a (i / 8) (j / 8) b') by (done || by apply wr_Some).
Qed.

Lemma set_bitmap n fuel sz nSet a i o :
  wf n (mkBitvec sz nSet 0 (aBitmap a)) -> 0 <= i < sz ->
  set_post n (mkBitvec sz nSet 0 (aBitmap a)) i o (set_at (S fuel) (mkBitvec sz nSet 0 (aBitmap a)) i o).
Proof.
  intros Hwf Hi. assert (Hu : 0 <= sz <= 8064 * 126 ^ Z.of_nat n /\ sz < 2 ^ 32 - 125 /\ sz <= 8064 /\ length a = 1008%nat /\ Forall is_u8 a)
    by (destruct n; simpl in Hwf; destruct_and!; by split_and!).
  destruct Hu as (Hsz & Hmax & Hs & Hl & Hb). cbn [set_at]. consts. change (truthy 0) with false. rewrite andb_false_r.
  rewrite (proj2 (Z.leb_le sz 8064)) by lia.
  assert (Hr : 0 <= i / 8 < Z.of_nat (length a)) by (split; [apply Z.div_pos; lia|apply Z.div_lt_upper_bound; lia]).
  destruct (rd_is_Some a _ Hr) as [b Er]. rewrite Er. simpl. rewrite wr_Some by done. simpl.
  change (8 - 1) with 7. rewrite land_7. pose proof (Z.mod_pos_bound i 8 ltac:(lia)) as Him.
  set (b' := u8 _). eexists _, _, _. split; [done|].
  assert (Hoth : forall m, 0 <= m < 8 -> m <> i mod 8 -> Z.testbit b' m = Z.testbit b m).
  { intros m Hm Hne. unfold b'. rewrite testbit_u8_set by lia. by rewrite (proj2 (Z.eqb_neq _ _)) by lia. }
  assert (Hhas : forall j, 0 <= j < sz -> (exists c, rd (<[Z.to_nat (i / 8) := b']> a) (j / 8) = Some c /\ Z.testbit c (j mod 8) = true)
    <-> j = i \/ (exists c, rd a (j / 8) = Some c /\ Z.testbit c (j mod 8) = true)).
  { intros j Hj. destruct (decide (j = i)) as [->|Hne].
    - rewrite (rd_wr_eq a (i / 8) b') by (by apply wr_Some). split; [by left|]. intros _. eexists. split; [done|].
      unfold b'. rewrite testbit_u8_set by lia. by rewrite Z.eqb_refl.
    - rewrite (bit_update a i b b' (fun c => c = true)) by (done || lia). naive_solver. }
  assert (Hwf' : wf n (mkBitvec sz nSet 0 (aBitmap (<[Z.to_nat (i / 8) := b']> a)))).
  { assert (Forall is_u8 (<[Z.to_nat (i / 8) := b']> a)) by (apply Forall_insert; [done|apply u8_range]).
    destruct n; cbn [wf]; rewrite length_insert; split_and!; (done || lia). }
  split; [done|]. cbn [iSize]. split_and!; try done; [by left| |]; destruct n; cbn [has]; intros; by apply Hhas.
Qed.

Lemma created_wf n sz : 0 <= sz <= 8064 * 126 ^ Z.of_nat n -> sz < 2 ^ 32 - 125 ->
  wf n (mkBitvec sz 0 0 (zeroed sz)) /\ forall j, 0 <= j -> ~ has n (mkBitvec sz 0 0 (zeroed sz)) j.
Proof.
  intros Hsz Hmax. unfold zeroed. consts. destruct (Z.leb_spec sz 8064).
  - split.
    + assert (length (replicate 1008 0) = 1008%nat) by apply length_replicate.
      assert (Forall is_u8 (replicate 1008 0)) by (apply Forall_replicate; unfold is_u8; lia).
      destruct n; cbn [wf]; split_and!; (done || lia).
    + intros j Hj. assert (~ exists b, rd (replicate 1008 0) (j / 8) = Some b /\ Z.testbit b (j mod 8) = true);
        [|by destruct n].
      intros (b & [_ [-> _]%lookup_replicate]%rd_Some & Ht). by rewrite Z.bits_0 in Ht.
  - assert (Hat : forall x, at_ (replicate 252 0) x = 0).
    { intros x. unfold slot, rd. case_bool; [done|]. destruct (replicate 252 0 !! _) eqn:E; [|done].
      by apply lookup_replicate in E as [-> _]. }
    assert (Hinv : hash_inv (replicate 252 0)) by (split; [by rewrite length_replicate|intros x; by rewrite Hat]).
    split.
    + assert (Forall (fun v => 0 <= v <= sz) (replicate 252 0)) by (apply Forall_replicate; lia).
      assert (nzc (replicate 252 0) = 0) as Hz by reflexivity.
      destruct n; cbn [wf]; rewrite Hz; split_and!; (done || lia).
    + intros j Hj. assert (~ j + 1 ∈ replicate 252 0); [|by destruct n].
      intros Hin%elem_of_replicate. lia.
Qed.

(** Replacing one sub-bitmap. *)
Lemma sub_update n sz nSet a bin q q' div :
  wf (S n) (mkBitvec sz nSet div (apSub a)) -> rd a bin = Some q -> wf n q' -> iSize q' = div ->
  wf (S n) (mkBitvec sz nSet div (apSub (<[Z.to_nat bin := Some q']> a))).
Proof.
  intros (Hsz & Hmax & Hs & -> & Hl & Hq) Hr Hw' Hs'. pose proof (rd_bound _ _ _ Hr). cbn [wf]. split_and!; try done; try lia.
  - by rewrite length_insert.
  - intros bin' q0 Hr'. destruct (decide (bin' = bin)) as [->|Hne].
    + rewrite (rd_wr_eq a bin (Some q')) in Hr' by (by apply wr_Some). by injection Hr' as <-.
    + rewrite (rd_wr_ne a bin bin' (Some q')) in Hr' by (done || by apply wr_Some). by eapply Hq.
Qed.

Lemma sub_has n sz nSet a bin q' div j :
  0 <= bin < Z.of_nat (length a) ->
  has (S n) (mkBitvec sz nSet div (apSub (<[Z.to_nat bin := Some q']> a))) j <->
  if decide (j / div = bin) then has n q' (j mod div) else has (S n) (mkBitvec sz nSet div (apSub a)) j.
Proof.
  intros Hb. cbn [has]. case_decide as E.
  - rewrite E, (rd_wr_eq a bin (Some q')) by (by apply wr_Some). split; [by intros (? & [= <-] & ?)|by exists q'].
  - by rewrite (rd_wr_ne a bin (j / div) (Some q')) by (done || by apply wr_Some).
Qed.

Lemma div_eq_mod div i j : i / div = j / div -> (i mod div = j mod div <-> i = j).
Proof.
  intros Hd. split; [|by intros ->]. intros Hm. destruct (decide (div = 0)) as [->|]; [by rewrite !Zmod_0_r in Hm|].
  rewrite (Z.div_mod i div), (Z.div_mod j div) by done. by rewrite Hd, Hm.
Qed.

Lemma set_sub n fuel :
  (forall q i o, wf n q -> 0 <= i < iSize q -> set_post n q i o (set_at fuel q i o)) ->
  forall p i o, wf (S n) p -> is_sub p -> 0 <= i < iSize p -> set_post (S n) p i o (set_at (S fuel) p i o).
Proof.
  intros IH [sz nSet div [a|a|a]] i o Hwf Hsub Hi; try done. pose proof Hwf as (Hsz & Hmax & Hs & Hdiv & Hl & Hq).
  cbn [iSize] in Hi. destruct (sub_index sz i Hs Hi) as (Hd & Hbin & Hmod). rewrite <- Hdiv in *.
  cbn [set_at]. consts. unfold truthy. rewrite (proj2 (Z.ltb_lt 8064 sz)), (proj2 (Z.eqb_neq div 0)) by lia. cbn [negb andb].
  destruct (rd_is_Some a (i / div)) as [q Hr]; [lia|]. rewrite Hr. cbn [mbind option_bind].
  assert (Hcase : forall q0 o0, wf n q0 -> iSize q0 = div ->
    (forall j, 0 <= j < sz -> j / div = i / div -> has n q0 (j mod div) <-> has (S n) (mkBitvec sz nSet div (apSub a)) j) ->
    (o = [] -> o0 = []) ->
    set_post (S n) (mkBitvec sz nSet div (apSub a)) i o
      ('(rc, q, o) ← set_at fuel q0 (i mod div) o0; a ← wr a (i / div) (Some q);
       Some (rc, mkBitvec sz nSet div (apSub a), o))).
  { intros q0 o0 Hw0 Hs0 Hh0 Ho0.
    destruct (IH q0 (i mod div) o0 Hw0 ltac:(lia)) as (rc & q' & o' & -> & Hw' & Hs' & _ & Hrc & Hoo & Hsub1 & Hsub2).
    cbn [mbind option_bind]. rewrite wr_Some by lia. cbn [mbind option_bind]. eexists rc, _, o'. split; [done|].
    rewrite Hs0 in *. split; [by eapply sub_update|]. cbn [iSize]. split_and!; try done; [intros Ho; by apply Hoo, Ho0| |].
    - intros j Hj. rewrite sub_has by lia. case_decide as E; [|by right].
      intros [Hji|Hh]%Hsub1; [left; by apply (div_eq_mod div)|right; by apply Hh0|by apply Z.mod_pos_bound].
    - intros Hok j Hj Hor. rewrite sub_has by lia. case_decide as E; [|destruct Hor as [->|]; done].
      apply Hsub2; [done|by apply Z.mod_pos_bound|]. destruct Hor as [->|Hh]; [by left|right; by apply Hh0]. }
  destruct q as [q|].
  - destruct (Hq _ _ Hr) as [Hwq Hsq]. apply Hcase; try done. intros j Hj E. cbn [has]. rewrite E, Hr.
    split; [by exists q|by intros (? & [= <-] & ?)].
  - unfold sqlite3BitvecCreate. destruct (alloc o) as [ok o1] eqn:Eo. destruct ok.
    + assert (Hdb : div <= 8064 * 126 ^ Z.of_nat n).
      { rewrite Hdiv. apply Z.lt_succ_r, Z.div_lt_upper_bound; [lia|]. rewrite Nat2Z.inj_succ, Z.pow_succ_r in Hsz by lia. lia. }
      destruct (created_wf n div) as [Hc Hch]; [lia|dlia|].
      apply Hcase; try done; [|by intros ->; injection Eo as <-]. intros j Hj E. split; [by intros ?%Hch; [|apply Z.mod_pos_bound]|].
      cbn [has]. rewrite E, Hr. by intros (? & ? & ?).
    + eexists _, _, _. split; [done|]. cbn [iSize]. split_and!; try done; [by right|by intros ->|by right].
Qed.

Lemma set_all_spec N set l : forall rc p o,
  (forall p i o, wf N p -> is_sub p -> 0 <= i < iSize p -> set_post N p i o (set p i o)) ->
  wf N p -> is_sub p -> Forall (fun v => 0 <= v <= iSize p) l -> rc = SQLITE_OK \/ rc = SQLITE_NOMEM ->
  exists rc' p' o', set_all set l rc p o = Some (rc', p', o') /\ wf N p' /\ iSize p' = iSize p /\ is_sub p' /\
    (rc' = SQLITE_OK \/ rc' = SQLITE_NOMEM) /\ (o = [] -> rc' = rc /\ o' = []) /\ (rc' = SQLITE_OK -> rc = SQLITE_OK) /\
    (forall j, 0 <= j < iSize p -> has N p' j -> has N p j \/ j + 1 ∈ l) /\
    (rc' = SQLITE_OK -> forall j, 0 <= j < iSize p -> has N p j \/ j + 1 ∈ l -> has N p' j).
Proof.
  induction l as [|v l IH]; intros rc p o Hset Hw Hs Hl Hrc; cbn [set_all].
  { exists rc, p, o. split_and!; try done; set_solver. }
  inversion_clear Hl as [|? ? Hv Hl']. unfold truthy. destruct (Z.eqb_spec v 0) as [->|Hv0]; cbn [negb].
  { destruct (IH rc p o Hset Hw Hs Hl' Hrc) as (rc' & p' & o' & -> & ? & ? & ? & ? & ? & ? & H1 & H2).
    exists rc', p', o'. split_and!; try done; [intros j Hj Hh; specialize (H1 j Hj Hh); set_solver|].
    intros E j Hj [?|Hin]; [auto|]. apply elem_of_cons in Hin as [?|?]; [lia|auto]. }
  destruct (Hset p (v - 1) o Hw Hs ltac:(lia)) as (rc1 & p1 & o1 & -> & Hw1 & Hs1 & Hsub1 & Hrc1 & Ho1 & Ha1 & Hb1).
  cbn [mbind option_bind].
  assert (Hlor : (Z.lor rc rc1 = SQLITE_OK \/ Z.lor rc rc1 = SQLITE_NOMEM) /\ (Z.lor rc rc1 = SQLITE_OK -> rc = SQLITE_OK /\ rc1 = SQLITE_OK) /\
    (rc1 = SQLITE_OK -> Z.lor rc rc1 = rc)).
  { destruct Hrc as [->| ->]; destruct Hrc1 as [->| ->]; cbv; split_and!; auto; done. }
  destruct Hlor as (Hl1 & Hl2 & Hl3).
  destruct (IH (Z.lor rc rc1) p1 o1 Hset Hw1 (Hsub1 Hs)) as (rc' & p' & o' & -> & Hw' & Hs' & Hsub' & Hrc' & Ho' & Hk & H1 & H2);
    [by rewrite Hs1|done|].
  exists rc', p', o'. rewrite Hs1 in *. split_and!; try done.
  - intros ->. destruct (Ho1 eq_refl) as [-> ->]. destruct (Ho' eq_refl) as [-> ->]. rewrite Hl3 by done. done.
  - intros E. by apply Hl2, Hk.
  - intros j Hj Hh. destruct (H1 j Hj Hh) as [Hp1|Hin]; [|right; set_solver].
    destruct (Ha1 j Hj Hp1) as [->|?]; [right; apply elem_of_cons; left; lia|by left].
  - intros E j Hj Hor. apply H2; [done|done|]. destruct Hor as [?|[?|?]%elem_of_cons]; [left|left|by right];
      (apply Hb1; [by apply Hl2, Hk|done|]); [by right|left; lia].
Qed.

Definition rehash (fuel : nat) (sz nSet : Z) (a : list Z) (i : Z) (o : list bool) : option (Z * Bitvec * list bool) :=
  let p := mkBitvec sz nSet (u32 (sz + 126 - 1) / 126) (apSub (replicate 126 None)) in
  '(rc, p, o) ← set_at fuel p (i + 1 - 1) o; set_all (set_at fuel) a rc p o.

Lemma sub_rehash_spec n fuel sz nSet a i o :
  (forall p i o, wf (S n) p -> is_sub p -> 0 <= i < iSize p -> set_post (S n) p i o (set_at fuel p i o)) ->
  wf (S n) (mkBitvec sz nSet 0 (aHash a)) -> 0 <= i < sz ->
  set_post (S n) (mkBitvec sz nSet 0 (aHash a)) i o (rehash fuel sz nSet a i o).
Proof.
  intros Hset (Hsz & Hmax & Hs & _ & Hinv & Hn & Hn1 & Hv) Hi. unfold rehash.
  replace (u32 (sz + 126 - 1)) with (sz + 125) by (rewrite u32_small; unfold is_u32; lia).
  replace (i + 1 - 1) with i by lia.
  set (p0 := mkBitvec sz nSet ((sz + 125) / 126) (apSub (replicate 126 None))).
  assert (Hnone : forall bin (q : Bitvec), rd (replicate 126 None) bin = Some (Some q) -> False)
    by (intros bin q [_ [? _]%lookup_replicate]%rd_Some; done).
  assert (Hw0 : wf (S n) p0).
  { unfold p0. cbn [wf]. split_and!; try done; try lia. intros bin q Hr. by apply Hnone in Hr. }
  assert (Hh0 : forall j, ~ has (S n) p0 j) by (intros j (q & Hr & _); by apply Hnone in Hr).
  destruct (Hset p0 i o Hw0 I Hi) as (rc & p1 & o1 & -> & Hw1 & Hs1 & Hsub1 & Hrc1 & Ho1 & Ha1 & Hb1).
  cbn [mbind option_bind].
  destruct (set_all_spec (S n) (set_at fuel) a rc p1 o1 Hset Hw1 (Hsub1 I)) as (rc' & p' & o' & -> & Hw' & Hs' & Hsub' & Hrc' & Ho' & Hk & H1 & H2);
    [by rewrite Hs1|done|].
  exists rc', p', o'. rewrite Hs1 in *. cbn [iSize p0] in *. split; [done|]. split_and!; try done.
  - intros ->. destruct (Ho1 eq_refl) as [-> ->]. by destruct (Ho' eq_refl) as [-> ->].
  - intros j Hj Hh. destruct (H1 j Hj Hh) as [Hp1|Hin]; [|by right].
    destruct (Ha1 j Hj Hp1) as [->|Hbad]; [by left|by apply Hh0 in Hbad].
  - intros E j Hj [->|Hin]; apply H2; try done; [left; apply Hb1; auto|by right].
Qed.

Lemma set_hash n fuel sz nSet a i o :
  (forall p i o, wf (S n) p -> is_sub p -> 0 <= i < iSize p -> set_post (S n) p i o (set_at fuel p i o)) ->
  wf (S n) (mkBitvec sz nSet 0 (aHash a)) -> 0 <= i < sz ->
  set_post (S n) (mkBitvec sz nSet 0 (aHash a)) i o (set_at (S fuel) (mkBitvec sz nSet 0 (aHash a)) i o).
Proof.
  intros Hset Hwf Hi. pose proof Hwf as (Hsz & Hmax & Hs & _ & Hinv & Hn & Hn1 & Hv). pose proof Hinv as [Hl _].
  cbn [set_at]. consts. change (truthy 0) with false. rewrite andb_false_r, (proj2 (Z.leb_gt sz 8064)) by lia.
  destruct (nzc_zero 252 eq_refl a Hl ltac:(lia)) as (x & _ & Hx).
  destruct (first_zero 252 eq_refl a i (ex_intro _ x Hx)) as (k & Hk & Hz & Hf).
  unfold BITVEC_HASH. consts. rewrite Z.mul_1_r, rd_at by done. cbn [mbind option_bind]. unfold truthy. rewrite negb_involutive.
  assert (Hend : nSet < 251 -> set_post (S n) (mkBitvec sz nSet 0 (aHash a)) i o
    (a' ← wr a ((i + k) mod 252) (i + 1); Some (SQLITE_OK, mkBitvec sz (nSet + 1) 0 (aHash a'), o))).
  { intros Hlt. replace (i + k) with (i + 1 - 1 + k) by lia.
    destruct (store_inv a (i + 1) k Hinv) as (-> & Hinv' & Hn' & Hin); [lia|lia|by replace (i + 1 - 1) with i by lia..|].
    cbn [mbind option_bind]. set (a' := <[_ := _]> a) in *. eexists _, _, _. split; [done|].
    split; [|cbn [iSize has]; split_and!; try done; [by left| |]].
    - cbn [wf]. split_and!; try done; try lia. apply Forall_forall. intros v Hv'. destruct (decide (v = 0)) as [->|Hv0]; [lia|].
      apply Hin in Hv' as [->|Hv']; [lia| |done]. rewrite Forall_forall in Hv. by apply Hv.
    - intros j Hj Hh. apply Hin in Hh as [?|?]; [left; lia|by right|lia].
    - intros _ j Hj Hor. apply Hin; [lia|]. destruct Hor as [->|?]; [by left|by right]. }
  assert (Hre : forall X, (nSet < 126 -> set_post (S n) (mkBitvec sz nSet 0 (aHash a)) i o X) ->
    set_post (S n) (mkBitvec sz nSet 0 (aHash a)) i o
     (if 126 <=? nSet then
        let '(ok, o) := alloc o in
        if negb ok then Some (SQLITE_NOMEM, mkBitvec sz nSet 0 (aHash a), o) else rehash fuel sz nSet a i o
      else X)).
  { intros X HX. destruct (Z.leb_spec 126 nSet); [|by apply HX]. destruct (alloc o) as [ok o1] eqn:Eo. destruct ok; cbn [negb].
    - destruct (sub_rehash_spec n fuel sz nSet a i o1 Hset Hwf Hi) as (rc & p' & o' & -> & ? & ? & ? & ? & Ho & ? & ?).
      exists rc, p', o'. split_and!; try done. intros ->. injection Eo as <-. auto.
    - eexists _, _, _. split; [done|]. split; [done|]. split_and!; try done; [by right|by intros ->|by right]. }
  destruct (Z.eqb_spec (at_ a i) 0) as [E0|E0].
  - assert (k = 0) as ->. { destruct (decide (k = 0)); [done|]. exfalso. apply (Hf 0); [lia|]. by rewrite Z.add_0_r. }
    rewrite Z.add_0_r in *. destruct (Z.ltb_spec nSet (252 - 1)); [apply Hend; lia|]. apply Hre. lia.
  - assert (0 < k). { destruct (decide (k = 0)) as [->|]; [by rewrite Z.add_0_r in Hz|lia]. }
    destruct (probe_set_spec a (i + 1) 252 i k Hl) as (r & -> & Hr); [lia|done|done|]. cbn [mbind option_bind]. destruct r as [h|].
    + rewrite Hr. apply Hre. intros. apply Hend. lia.
    + destruct Hr as (j & Hj & Ej). eexists _, _, _. split; [done|]. split; [done|]. split_and!; try done; [by left|by right|].
      intros _ j' Hj' [->|?]; [|done]. cbn [has]. apply (elem_of_at 252); [done|done|]. exists ((i + j) mod 252).
      rewrite at_mod by lia. split; [apply Z.mod_pos_bound; lia|done].
Qed.

(** [2 * n + 1] calls are enough for [n] levels: one to switch to sub-bitmaps and
    one to descend at each. *)
Lemma set_at_spec n : forall fuel p i o,
  (2 * n + 1 <= fuel)%nat -> wf n p -> 0 <= i < iSize p -> set_post n p i o (set_at fuel p i o).
Proof.
  induction n as [|n IH]; intros fuel [sz nSet div u] i o Hf Hwf Hi; (destruct fuel as [|fuel]; [lia|]).
  - destruct u as [a|a|a]; pose proof Hwf as (Hsz & _ & Hu); [|simpl in Hsz; destruct_and!; lia|done].
    assert (div = 0) as -> by (by destruct_and!). by apply set_bitmap.
  - assert (Hsub : forall f p i o, (2 * n + 2 <= f)%nat -> wf (S n) p -> is_sub p -> 0 <= i < iSize p ->
      set_post (S n) p i o (set_at f p i o)).
    { intros [|f] q j o' Hf'; [lia|]. apply set_sub. intros. apply IH; [lia|done|done]. }
    destruct u as [a|a|a].
    + assert (div = 0) as -> by (by destruct Hwf; destruct_and!). by apply set_bitmap.
    + assert (div = 0) as -> by (by destruct Hwf; destruct_and!). apply set_hash; try done. intros. apply Hsub; (done || lia).
    + apply Hsub; try done. lia.
Qed.

(** ** Clearing a bit *)

Lemma clear_bitmap n sz nSet a i fuel :
  wf n (mkBitvec sz nSet 0 (aBitmap a)) -> 0 <= i < sz ->
  exists p', clear_at (S fuel) (mkBitvec sz nSet 0 (aBitmap a)) i = Some p' /\ wf n p' /\ iSize p' = sz /\
    (forall j, 0 <= j < sz -> has n p' j <-> j <> i /\ has n (mkBitvec sz nSet 0 (aBitmap a)) j).
Proof.
  intros Hwf Hi. assert (Hu : 0 <= sz <= 8064 * 126 ^ Z.of_nat n /\ sz < 2 ^ 32 - 125 /\ sz <= 8064 /\ length a = 1008%nat /\ Forall is_u8 a)
    by (destruct n; simpl in Hwf; destruct_and!; by split_and!).
  destruct Hu as (Hsz & Hmax & Hs & Hl & Hb). cbn [clear_at]. consts. change (truthy 0) with false.
  rewrite (proj2 (Z.leb_le sz 8064)) by lia.
  assert (Hr : 0 <= i / 8 < Z.of_nat (length a)) by (split; [apply Z.div_pos; lia|apply Z.div_lt_upper_bound; lia]).
  destruct (rd_is_Some a _ Hr) as [b Er]. rewrite Er. simpl. rewrite wr_Some by done. simpl.
  change (8 - 1) with 7. rewrite land_7. pose proof (Z.mod_pos_bound i 8 ltac:(lia)) as Him. set (b' := u8 _).
  assert (Hoth : forall m, 0 <= m < 8 -> m <> i mod 8 -> Z.testbit b' m = Z.testbit b m).
  { intros m Hm Hne. unfold b'. rewrite testbit_u8_clear by lia. by rewrite (proj2 (Z.eqb_neq _ _)) by lia. }
  eexists. split; [done|]. split; [|split; [done|]].
  - assert (Forall is_u8 (<[Z.to_nat (i / 8) := b']> a)) by (apply Forall_insert; [done|apply u8_range]).
    destruct n; cbn [wf]; rewrite length_insert; split_and!; (done || lia).
  - intros j Hj. assert (Hh : (exists c, rd (<[Z.to_nat (i / 8) := b']> a) (j / 8) = Some c /\ Z.testbit c (j mod 8) = true)
      <-> j <> i /\ (exists c, rd a (j / 8) = Some c /\ Z.testbit c (j mod 8) = true)); [|by destruct n].
    destruct (decide (j = i)) as [->|Hne].
    + rewrite (rd_wr_eq a (i / 8) b') by (by apply wr_Some). split; [|by intros []]. intros (c & [= <-] & Ht).
      unfold b' in Ht. rewrite testbit_u8_clear, Z.eqb_refl in Ht by lia. done.
    + rewrite (bit_update a i b b' (fun c => c = true)) by (done || lia). naive_solver.
Qed.

Lemma clear_at_spec n : forall fuel p i,
  wf n p -> 0 <= i < iSize p -> (n < fuel)%nat ->
  exists p', clear_at fuel p i = Some p' /\ wf n p' /\ iSize p' = iSize p /\
    (forall j, 0 <= j < iSize p -> has n p' j <-> j <> i /\ has n p j).
Proof.
  induction n as [|n IH]; intros [|fuel] [sz nSet div u] i Hwf Hi Hf; try lia; cbn [iSize] in *.
  { destruct u as [a|a|a]; pose proof Hwf as (Hsz & _ & Hu); [|simpl in Hsz; destruct_and!; lia|done].
    assert (div = 0) as -> by (by destruct_and!). by apply clear_bitmap. }
  destruct u as [a|a|a]; pose proof Hwf as (Hsz & Hmax & Hu).
  - assert (div = 0) as -> by (by destruct_and!). by apply clear_bitmap.
  - destruct Hu as (Hs & -> & Hinv & Hn & Hn1 & Hv). cbn [clear_at]. consts. change (truthy 0) with false. cbn iota.
    rewrite (proj2 (Z.leb_gt sz 8064)) by lia.
    destruct (created_wf (S n) sz Hsz Hmax) as [Hwz _]. unfold zeroed in Hwz. consts.
    rewrite (proj2 (Z.leb_gt sz 8064)) in Hwz by lia. destruct Hwz as (_ & _ & _ & _ & Hz & _).
    destruct (rebuild_spec a (i + 1) 0 (replicate 252 0) Hz) as (a' & -> & Hinv' & Hn' & Hin); [done|change (nzc (replicate 252 0)) with 0; lia|].
    change (nzc (replicate 252 0)) with 0 in Hn'. cbn [mbind option_bind]. eexists. split; [done|].
    assert (Hin' : forall w, w <> 0 -> w ∈ a' <-> w ∈ a /\ w <> i + 1).
    { intros w Hw. rewrite Hin by done. split; [intros [[? _]%elem_of_replicate|?]; [lia|done]|by right]. }
    split; [|split; [done|]].
    + cbn [wf]. split_and!; try done; try lia. apply Forall_forall. intros v Hv'. destruct (decide (v = 0)) as [->|Hv0]; [lia|].
      apply Hin' in Hv' as [Hv' _]; [|done]. rewrite Forall_forall in Hv. by apply Hv.
    + intros j Hj. cbn [has]. rewrite Hin' by lia. split; intros [? ?]; (split; [lia || done|done || lia]).
  - destruct Hu as (Hs & Hdiv & Hl & Hq). destruct (sub_index sz i Hs Hi) as (Hd & Hbin & Hmod). rewrite <- Hdiv in *.
    cbn [clear_at]. unfold truthy. rewrite (proj2 (Z.eqb_neq div 0)) by lia. cbn [negb].
    destruct (rd_is_Some a (i / div)) as [q Hr]; [lia|]. rewrite Hr. cbn [mbind option_bind]. destruct q as [q|].
    + destruct (Hq _ _ Hr) as [Hwq Hsq]. destruct (IH fuel q (i mod div) Hwq) as (q' & -> & Hw' & Hs' & Hh'); [lia|lia|].
      cbn [mbind option_bind]. rewrite wr_Some by lia. cbn [mbind option_bind]. eexists. split; [done|].
      split; [eapply sub_update; (done || congruence)|]. split; [done|]. intros j Hj. rewrite sub_has by lia. case_decide as E.
      * rewrite Hh' by (rewrite Hsq; by apply Z.mod_pos_bound). rewrite (div_eq_mod div j i E). cbn [has]. rewrite E, Hr.
        split; [intros [? ?]; split; [done|by exists q]|intros (? & ? & [= <-] & ?); done].
      * split; [intros ?; split; [congruence|done]|by intros []].
    + exists (mkBitvec sz nSet div (apSub a)). split; [done|]. split; [done|]. split; [done|]. intros j Hj.
      split; [|by intros []]. intros Hh. split; [|done]. intros ->. destruct Hh as (? & Hr' & _). congruence.
Qed.

(** ** The abstract set *)

(** Sizes below [2^32 - 125] need at most three levels. *)
Definition bits (p : Bitvec) (s : gset Z) : Prop :=
  wf 3 p /\ forall i, i ∈ s <-> 1 <= i <= iSize p /\ has 3 p (i - 1).

Inductive bv_op := BSet (i : Z) | BClear (i : Z) | BTest (i : Z).

Definition in_range (sz : Z) (o : bv_op) : Prop :=
  match o with BSet i | BClear i => 1 <= i <= sz | BTest i => 0 <= i end.

(** A run without failed allocations; the results are those of the tests and, for
    a set, whether it returned SQLITE_OK. *)
Fixpoint bv_run (p : Bitvec) (ops : list bv_op) : option (list bool * Bitvec) :=
  match ops with
  | [] => Some ([], p)
  | o :: ops =>
      '(r, p) ← match o with
                | BSet i => '(rc, p, _) ← sqlite3BitvecSet (Some p) i []; p ← p; Some ([rc =? SQLITE_OK], p)
                | BClear i => p ← sqlite3BitvecClear (Some p) i; p ← p; Some ([], p)
                | BTest i => b ← sqlite3BitvecTest (Some p) i; Some ([b], p)
                end;
      '(rs, p) ← bv_run p ops; Some (r ++ rs, p)
  end.

Fixpoint set_run (s : gset Z) (ops : list bv_op) : list bool * gset Z :=
  match ops with
  | [] => ([], s)
  | o :: ops =>
      let '(r, s) := match o with
                     | BSet i => ([true], {[i]} ∪ s)
                     | BClear i => ([], s ∖ {[i]})
                     | BTest i => ([bool_decide (i ∈ s)], s)
                     end in
      let '(rs, s) := set_run s ops in (r ++ rs, s)
  end.

Lemma test_bits p s i : bits p s -> 0 <= i -> sqlite3BitvecTest (Some p) i = Some (bool_decide (i ∈ s)).
Proof.
  intros [Hw Hs] Hi. unfold sqlite3BitvecTest. specialize (Hs i). case_bool.
  - rewrite bool_decide_false; [done|]. rewrite Hs. apply orb_prop in Heqb as [?|?]; zbool; lia.
  - zbool. destruct (test_at_has 3 DEPTH p (i - 1) Hw) as (b & -> & Hb); [lia|unfold DEPTH; lia|]. f_equal.
    apply eq_true_iff_eq. rewrite bool_decide_eq_true, Hs, Hb. split; [intros ?; split; [lia|done]|by intros []].
Qed.

Lemma set_bits p s i o :
  bits p s -> 1 <= i <= iSize p ->
  exists rc p' o' s', sqlite3BitvecSet (Some p) i o = Some (rc, Some p', o') /\ iSize p' = iSize p /\ bits p' s' /\
    (rc = SQLITE_OK \/ rc = SQLITE_NOMEM) /\ s' ⊆ {[i]} ∪ s /\ (rc = SQLITE_OK -> s' = {[i]} ∪ s) /\ (o = [] -> rc = SQLITE_OK).
Proof.
  intros [Hw Hs] Hi. unfold sqlite3BitvecSet.
  destruct (set_at_spec 3 DEPTH p (i - 1) o) as (rc & p' & o' & -> & Hw' & Hs' & _ & Hrc & Ho & H1 & H2); [unfold DEPTH; lia|done|lia|].
  cbn [mbind option_bind].
  set (f := fun j => match test_at DEPTH p' (j - 1) with Some b => b | None => false end).
  assert (Hf : forall j, 1 <= j <= iSize p -> f j = true <-> has 3 p' (j - 1)).
  { intros j Hj. unfold f. destruct (test_at_has 3 DEPTH p' (j - 1) Hw') as (b & -> & Hb); [lia|unfold DEPTH; lia|done]. }
  exists rc, p', o', (filter (fun j => f j = true) ({[i]} ∪ s)).
  assert (Hmem : forall j, j ∈ filter (fun j => f j = true) ({[i]} ∪ s) <-> 1 <= j <= iSize p' /\ has 3 p' (j - 1)).
  { intros j. rewrite elem_of_filter, elem_of_union, elem_of_singleton, Hs, Hs'. split.
    - intros [Hfj Hor]. assert (Hj : 1 <= j <= iSize p) by (destruct Hor as [->|[? _]]; lia). split; [done|by apply Hf].
    - intros [Hj Hh]. split; [by apply Hf|]. destruct (H1 (j - 1) ltac:(lia) Hh) as [E|?]; [left; lia|by right]. }
  split; [reflexivity|]. split; [exact Hs'|]. split; [exact (conj Hw' Hmem)|]. split; [exact Hrc|].
  split; [intros j Hj; by apply elem_of_filter in Hj as [_ ?]|]. split; [|intros Ho0; by apply Ho].
  intros E. apply set_eq. intros j. rewrite Hmem, elem_of_union, elem_of_singleton, Hs, Hs'. split.
  - intros [Hj Hh]. destruct (H1 (j - 1) ltac:(lia) Hh) as [?|?]; [left; lia|by right].
  - intros Hor. assert (Hj : 1 <= j <= iSize p) by (destruct Hor as [->|[? _]]; lia). split; [done|].
    apply H2; [done|lia|]. destruct Hor as [->|[_ ?]]; [by left|by right].
Qed.

Lemma clear_bits p s i :
  bits p s -> 1 <= i <= iSize p ->
  exists p', sqlite3BitvecClear (Some p) i = Some (Some p') /\ iSize p' = iSize p /\ bits p' (s ∖ {[i]}).
Proof.
  intros [Hw Hs] Hi. unfold sqlite3BitvecClear.
  destruct (clear_at_spec 3 DEPTH p (i - 1) Hw) as (p' & -> & Hw' & Hs' & Hh); [lia|unfold DEPTH; lia|].
  exists p'. split; [reflexivity|]. split; [exact Hs'|]. split; [exact Hw'|]. intros j. rewrite elem_of_difference, elem_of_singleton, Hs, Hs'. split.
  - intros [[Hj Hhj] Hne]. split; [done|]. apply Hh; [lia|]. split; [lia|done].
  - intros [Hj Hhj]. apply Hh in Hhj as [Hne Hhj]; [|lia]. split; [done|]. intros ->. lia.
Qed.

Lemma create_bits sz : 0 <= sz < 2 ^ 32 - 125 -> bits (mkBitvec sz 0 0 (zeroed sz)) ∅.
Proof.
  intros Hsz. destruct (created_wf 3 sz) as [Hw Hh]; [simpl; lia|lia|]. split; [done|].
  intros i. split; [set_solver|]. intros [Hi Hb]. cbn [iSize] in Hi. by apply Hh in Hb; [|lia].
Qed.

Lemma bv_run_bits ops : forall p s,
  bits p s -> Forall (in_range (iSize p)) ops ->
  exists p', bv_run p ops = Some ((set_run s ops).1, p') /\ iSize p' = iSize p /\ bits p' (set_run s ops).2.
Proof.
  induction ops as [|o ops IH]; intros p s Hb Hr; [by exists p|]. inversion_clear Hr as [|? ? Ho Hr'].
  cbn [bv_run set_run]. destruct o as [i|i|i]; cbn [in_range] in Ho.
  - destruct (set_bits p s i [] Hb Ho) as (rc & p1 & o1 & s1 & -> & Hs1 & Hb1 & _ & _ & H1 & H2).
    rewrite H2 in * by done. rewrite H1 in * by done. simpl.
    destruct (IH p1 _ Hb1) as (p' & -> & Hs' & Hb'); [by rewrite Hs1|]. simpl. destruct (set_run _ ops). exists p'. split_and!; (done || congruence).
  - destruct (clear_bits p s i Hb Ho) as (p1 & -> & Hs1 & Hb1). simpl.
    destruct (IH p1 _ Hb1) as (p' & -> & Hs' & Hb'); [by rewrite Hs1|]. simpl. destruct (set_run _ ops). exists p'. split_and!; (done || congruence).
  - rewrite (test_bits p s i Hb Ho). simpl. destruct (IH p s Hb Hr') as (p' & -> & Hs' & Hb'). simpl.
    destruct (set_run s ops). by exists p'.
Qed.

(** C36. From a new bitvec of any size below 2^32-125, every sequence of sets,
    clears and tests gives the answers of a set of integers: whatever the
    representation in use and through every switch from hash table to sub-bitmaps
    (in which all hashed values are inserted again), no array is accessed out of
    bounds, no probe loop runs forever and, while memory can be allocated, every
    set succeeds. *)
Theorem bitvec_refines_set sz ops :
  0 <= sz < 2 ^ 32 - 125 -> Forall (in_range sz) ops ->
  exists p0 p, sqlite3BitvecCreate [] sz = (Some p0, []) /\ bv_run p0 ops = Some ((set_run ∅ ops).1, p).
Proof.
  intros Hsz Hops. eexists. destruct (bv_run_bits ops _ ∅ (create_bits sz Hsz) Hops) as (p & Hr & _).
  exists p. split; [reflexivity|exact Hr].
Qed.

Definition demo_bits : list bv_op :=
  map (fun k => BSet (1 + 700 * Z.of_nat k)) (seq 0 130) ++ [BClear 701; BTest 1; BTest 701; BTest 90301; BTest 2].

Lemma bitvec_refines_set_witness :
  exists p0 p, sqlite3BitvecCreate [] 100000 = (Some p0, []) /\
    bv_run p0 demo_bits = Some (replicate 130 true ++ [true; false; true; false], p).
Proof.
  destruct (bitvec_refines_set 100000 demo_bits) as (p0 & p & E1 & E2).
  - lia.
  - unfold demo_bits. apply Forall_app. split.
    + apply Forall_forall. intros o [k [-> Hk]]%list_elem_of_fmap. apply elem_of_seq in Hk. simpl. lia.
    + repeat (constructor; [simpl; lia|]). constructor.
  - exists p0, p. split; [exact E1|]. rewrite E2.
    assert (H : (set_run ∅ demo_bits).1 = replicate 130 true ++ [true; false; true; false]) by (vm_compute; reflexivity).
    rewrite H. reflexivity.
Defined.

(** When allocations fail, setting a bit of any bitvec returns SQLITE_OK or
    SQLITE_NOMEM; in both cases no other bit appears, and after SQLITE_OK exactly
    the requested bit was added. *)
Theorem bitvec_set_failure sz ops r p i o :
  0 <= sz < 2 ^ 32 - 125 -> Forall (in_range sz) ops ->
  bv_run (mkBitvec sz 0 0 (zeroed sz)) ops = Some (r, p) -> 1 <= i <= sz ->
  exists rc p' o', sqlite3BitvecSet (Some p) i o = Some (rc, Some p', o') /\
    (rc = SQLITE_OK \/ rc = SQLITE_NOMEM) /\
    forall j, 0 <= j -> exists b b', sqlite3BitvecTest (Some p) j = Some b /\ sqlite3BitvecTest (Some p') j = Some b' /\
      (b' = true -> j = i \/ b = true) /\ (rc = SQLITE_OK -> b' = bool_decide (j = i) || b).
Proof.
  intros Hsz Hops Hrun Hi. destruct (bv_run_bits ops _ ∅ (create_bits sz Hsz) Hops) as (p1 & Hr & Hs & Hb).
  rewrite Hrun in Hr. injection Hr as _ <-. cbn [iSize] in Hs.
  destruct (set_bits p _ i o Hb ltac:(lia)) as (rc & p' & o' & s' & E & _ & Hb' & Hrc & Hsub & Hok & _).
  exists rc, p', o'. split; [exact E|]. split; [exact Hrc|]. intros j Hj. eexists _, _.
  split; [by apply test_bits|]. split; [by apply test_bits|]. rewrite bool_decide_eq_true. split.
  - intros Hin. rewrite bool_decide_eq_true. apply Hsub, elem_of_union in Hin as [?%elem_of_singleton|?]; [by left|by right].
  - intros Erc. rewrite (Hok Erc). apply eq_true_iff_eq.
    rewrite orb_true_iff, !bool_decide_eq_true, elem_of_union, elem_of_singleton. done.
Qed.

Lemma bitvec_set_failure_witness :
  exists p rc p' o', bv_run (mkBitvec 100000 0 0 (zeroed 100000)) demo_bits = Some (replicate 130 true ++ [true; false; true; false], p) /\
    sqlite3BitvecSet (Some p) 99999 [false] = Some (rc, Some p', o') /\ (rc = SQLITE_OK \/ rc = SQLITE_NOMEM).
Proof.
  destruct (bv_run (mkBitvec 100000 0 0 (zeroed 100000)) demo_bits) as [[r p]|] eqn:E;
    [|discriminate (eq_trans (eq_sym E) ltac:(vm_compute; reflexivity))].
  assert (Hr : r = replicate 130 true ++ [true; false; true; false]) by (vm_compute in E; injection E as <- _; reflexivity).
  destruct (bitvec_set_failure 100000 demo_bits r p 99999 [false]) as (rc & p' & o' & Es & Hrc & _).
  - lia.
  - unfold demo_bits. apply Forall_app. split.
    + apply Forall_forall. intros o [k [-> Hk]]%list_elem_of_fmap. apply elem_of_seq in Hk. simpl. lia.
    + repeat (constructor; [simpl; lia|]). constructor.
  - exact E.
  - lia.
  - exists p, rc, p', o'. split; [by rewrite Hr|]. split; [exact Es|exact Hrc].
Defined.

(** Above that size the divisor computed for the sub-bitmaps wraps around: for the
    largest size it is zero. *)
Lemma bitvec_divisor_wraps : u32 ((2 ^ 32 - 1) + BITVEC_NPTR - 1) / BITVEC_NPTR = 0.
Proof. reflexivity. Qed.
