(* ===== verification/MemJournal.v ===== *)
(** * MemJournal: in-memory rollback journals

    Models memjournal.c of [src/whip-server/sqlite/sqlite3.c].  The chunks are
    the list reached from [pFirst] through [pNext]; a pointer to a chunk is its
    position in that list, [None] is NULL.  [None] as a result is a use of a NULL
    chunk.  The content of a newly allocated chunk is unspecified: [junk]. *)
From S2P Require Import Prelude.
From stdpp Require Import list.
#[local] Open Scope Z_scope.

(** 1024-sizeof(FileChunk pointer) with 8-byte pointers *)
Definition JOURNAL_CHUNKSIZE : Z := 1024 - 8.

Record FilePoint := { iOffset : Z; pChunk : option Z }.

Record MemJournal := { chunks : list (list Z); endpoint : FilePoint; readpoint : FilePoint }.

Definition sqlite3MemJournalOpen : MemJournal :=
  {| chunks := []; endpoint := {| iOffset := 0; pChunk := None |}; readpoint := {| iOffset := 0; pChunk := None |} |}.

Definition pFirst (p : MemJournal) : option Z := match chunks p with [] => None | _ => Some 0 end.

Definition pNext (p : MemJournal) (c : Z) : option Z :=
  if c + 1 <? Z.of_nat (length (chunks p)) then Some (c + 1) else None.

(** for(pChunk=p->pFirst; pChunk && (iOff+JOURNAL_CHUNKSIZE)<=iOfst; pChunk=pChunk->pNext) *)
Fixpoint seek_loop (p : MemJournal) (fuel : nat) (pChunk : option Z) (iOff iOfst : Z) : option Z :=
  match fuel, pChunk with
  | S fuel, Some c =>
      if iOff + JOURNAL_CHUNKSIZE <=? iOfst
      then seek_loop p fuel (pNext p c) (iOff + JOURNAL_CHUNKSIZE) iOfst
      else Some c
  | _, _ => pChunk
  end.

(** memcpy(zOut, &pChunk->zChunk[iChunkOffset], nCopy) *)
Definition chunk_bytes (p : MemJournal) (pChunk : option Z) (iChunkOffset nCopy : Z) : option (list Z) :=
  c ← pChunk; z ← rd (chunks p) c;
  Some (take (Z.to_nat nCopy) (drop (Z.to_nat iChunkOffset) z)).

(** The do loop of memjrnlRead: the bytes copied and the last pChunk. *)
Fixpoint read_loop (p : MemJournal) (fuel : nat) (pChunk : option Z) (nRead iChunkOffset : Z)
    : option (list Z * option Z) :=
  match fuel with
  | O => None
  | S fuel =>
      let iSpace := JOURNAL_CHUNKSIZE - iChunkOffset in
      let nCopy := Z.min nRead (JOURNAL_CHUNKSIZE - iChunkOffset) in
      z ← chunk_bytes p pChunk iChunkOffset nCopy;
      let nRead := nRead - iSpace in
      if 0 <=? nRead then
        c ← pChunk;
        match pNext p c with
        | None => Some (z, None)
        | Some c =>
            if 0 <? nRead then '(zs, c) ← read_loop p fuel (Some c) nRead 0; Some (z ++ zs, c)
            else Some (z, Some c)
        end
      else Some (z, pChunk)
  end.

Definition memjrnlRead (p : MemJournal) (iAmt iOfst : Z) : option (list Z * MemJournal) :=
  let pChunk :=
    if negb (iOffset (readpoint p) =? iOfst) || (iOfst =? 0)
    then seek_loop p (length (chunks p)) (pFirst p) 0 iOfst
    else pChunk (readpoint p) in
  '(z, c) ← read_loop p (S (length (chunks p))) pChunk iAmt (iOfst mod JOURNAL_CHUNKSIZE);
  Some (z, {| chunks := chunks p; endpoint := endpoint p; readpoint := {| iOffset := iOfst + iAmt; pChunk := c |} |}).

(** memcpy(&zChunk[iChunkOffset], zWrite, iSpace) *)
Definition overwrite (z : list Z) (iChunkOffset : Z) (data : list Z) : list Z :=
  take (Z.to_nat iChunkOffset) z ++ data ++ drop (Z.to_nat iChunkOffset + length data) z.

(** [allocs]: whether each next allocation succeeds, all do once it is used up. *)
Fixpoint write_loop (fuel : nat) (junk : Z) (allocs : list bool) (p : MemJournal) (zWrite : list Z)
    : option (Z * MemJournal) :=
  match fuel with
  | O => None
  | S fuel =>
      if Z.of_nat (length zWrite) <=? 0 then Some (SQLITE_OK, p)
      else
        let iChunkOffset := iOffset (endpoint p) mod JOURNAL_CHUNKSIZE in
        let iSpace := Z.min (Z.of_nat (length zWrite)) (JOURNAL_CHUNKSIZE - iChunkOffset) in
        let extended :=
          if iChunkOffset =? 0 then
            if match allocs with b :: _ => b | [] => true end then
              let new := replicate (Z.to_nat JOURNAL_CHUNKSIZE) junk in
              match pChunk (endpoint p) with
              | Some c => Some (take (S (Z.to_nat c)) (chunks p) ++ [new], Some (c + 1), tl allocs)
              | None => Some ([new], Some 0, tl allocs)
              end
            else None
          else Some (chunks p, pChunk (endpoint p), allocs) in
        match extended with
        | None => Some (SQLITE_IOERR_NOMEM, p)
        | Some (cs, endChunk, allocs) =>
            c ← endChunk; z ← rd cs c;
            cs ← wr cs c (overwrite z iChunkOffset (take (Z.to_nat iSpace) zWrite));
            write_loop fuel junk allocs
              {| chunks := cs; endpoint := {| iOffset := iOffset (endpoint p) + iSpace; pChunk := endChunk |};
                 readpoint := readpoint p |} (drop (Z.to_nat iSpace) zWrite)
        end
  end.

Definition memjrnlWrite (junk : Z) (allocs : list bool) (p : MemJournal) (zBuf : list Z) : option (Z * MemJournal) :=
  write_loop (S (length zBuf)) junk allocs p zBuf.

Definition memjrnlTruncate (p : MemJournal) : Z * MemJournal := (SQLITE_OK, sqlite3MemJournalOpen).

Definition memjrnlClose (p : MemJournal) : Z * MemJournal := (SQLITE_OK, snd (memjrnlTruncate p)).

Definition memjrnlSync (p : MemJournal) : Z := SQLITE_OK.

Definition memjrnlFileSize (p : MemJournal) : Z := iOffset (endpoint p).

(** ** The file a journal stands for *)

Definition flat (p : MemJournal) : list Z := concat (chunks p).

Definition file (p : MemJournal) : list Z := take (Z.to_nat (iOffset (endpoint p))) (flat p).

(** The read position is at the start, at the chunk that holds its offset, or
    NULL at the end of some chunk. *)
Definition readpoint_ok (p : MemJournal) : Prop :=
  match pChunk (readpoint p) with
  | Some c => 0 <= iOffset (readpoint p) /\ c = iOffset (readpoint p) / 1016 /\ c < Z.of_nat (length (chunks p))
  | None => True
  end.

Record journal_ok (p : MemJournal) : Prop := {
  ok_chunk : Forall (fun z => length z = 1016%nat) (chunks p);
  ok_end_pos : 0 <= iOffset (endpoint p);
  ok_end : (Z.of_nat (length (chunks p)) - 1) * 1016 < iOffset (endpoint p) <= Z.of_nat (length (chunks p)) * 1016;
  ok_end_chunk : pChunk (endpoint p) = match chunks p with [] => None | _ => Some (Z.of_nat (length (chunks p)) - 1) end;
  ok_read : readpoint_ok p
}.

Lemma flat_length cs : Forall (fun z : list Z => length z = 1016%nat) cs -> length (concat cs) = (1016 * length cs)%nat.
Proof. induction 1 as [|z cs Hz _ IH]; [done|]. simpl. rewrite length_app, Hz, IH. lia. Qed.

Lemma drop_flat cs i off z :
  Forall (fun z : list Z => length z = 1016%nat) cs -> cs !! i = Some z -> (off <= 1016)%nat ->
  drop (1016 * i + off) (concat cs) = drop off z ++ drop (1016 * S i) (concat cs).
Proof.
  revert i. induction cs as [|y cs IH]; intros i Hcs Hi Hoff; [done|]. apply Forall_cons in Hcs as [Hy Hcs].
  cbn [concat]. destruct i as [|i].
  - injection Hi as ->. replace (1016 * 1)%nat with (length z) by lia. replace (1016 * 0 + off)%nat with off by lia.
    rewrite drop_app_le by lia. f_equal. by rewrite drop_app_length.
  - replace (1016 * S i + off)%nat with (length y + (1016 * i + off))%nat by lia.
    replace (1016 * S (S i))%nat with (length y + (1016 * S i))%nat by lia.
    rewrite !drop_app_add'  by done. by apply IH.
Qed.

Definition nchunks (p : MemJournal) : Z := Z.of_nat (length (chunks p)).

(** Where the position [e] points after a read that ends there. *)
Definition chunk_at (p : MemJournal) (e : Z) : option Z := if e / 1016 <? nchunks p then Some (e / 1016) else None.

Definition slice (p : MemJournal) (ofst amt : Z) : list Z := take (Z.to_nat amt) (drop (Z.to_nat ofst) (flat p)).

Lemma slice_split p c off amt z :
  Forall (fun z => length z = 1016%nat) (chunks p) -> rd (chunks p) c = Some z -> 0 <= off < 1016 -> 1016 - off <= amt ->
  slice p (1016 * c + off) amt = drop (Z.to_nat off) z ++ slice p (1016 * (c + 1)) (amt - (1016 - off)).
Proof.
  intros Hcs [Hc Hz]%rd_Some Hoff Hamt. unfold slice, flat.
  replace (Z.to_nat (1016 * c + off)) with (1016 * Z.to_nat c + Z.to_nat off)%nat by lia.
  rewrite (drop_flat _ _ _ z) by (done || lia).
  assert (Hl : length (drop (Z.to_nat off) z) = Z.to_nat (1016 - off)).
  { rewrite length_drop. rewrite Forall_lookup in Hcs. rewrite (Hcs _ _ Hz). lia. }
  rewrite take_app_ge by lia. rewrite Hl.
  replace (Z.to_nat amt - Z.to_nat (1016 - off))%nat with (Z.to_nat (amt - (1016 - off))) by lia.
  by replace (Z.to_nat (1016 * (c + 1))) with (1016 * S (Z.to_nat c))%nat by lia.
Qed.

Lemma slice_short p c off amt z :
  Forall (fun z => length z = 1016%nat) (chunks p) -> rd (chunks p) c = Some z -> 0 <= off < 1016 -> 0 <= amt <= 1016 - off ->
  slice p (1016 * c + off) amt = take (Z.to_nat amt) (drop (Z.to_nat off) z).
Proof.
  intros Hcs [Hc Hz]%rd_Some Hoff Hamt. unfold slice, flat.
  replace (Z.to_nat (1016 * c + off)) with (1016 * Z.to_nat c + Z.to_nat off)%nat by lia.
  rewrite (drop_flat _ _ _ z) by (done || lia). rewrite take_app_le; [done|].
  rewrite length_drop. rewrite Forall_lookup in Hcs. rewrite (Hcs _ _ Hz). lia.
Qed.

Lemma read_loop_spec p : forall fuel c off nRead,
  Forall (fun z => length z = 1016%nat) (chunks p) -> 0 <= c < nchunks p -> 0 <= off < 1016 -> 0 <= nRead ->
  1016 * c + off + nRead <= 1016 * nchunks p -> nchunks p - c < Z.of_nat fuel ->
  read_loop p fuel (Some c) nRead off = Some (slice p (1016 * c + off) nRead, chunk_at p (1016 * c + off + nRead)).
Proof.
  induction fuel as [|fuel IH]; intros c off nRead Hcs Hc Hoff Hn Hend Hf; [lia|].
  cbn [read_loop]. change JOURNAL_CHUNKSIZE with 1016. unfold chunk_bytes. cbn [mbind option_bind].
  destruct (rd_is_Some (chunks p) c) as [z Hz]; [unfold nchunks in *; lia|]. rewrite Hz. cbn [mbind option_bind].
  unfold pNext, chunk_at. fold (nchunks p). destruct (Z.leb_spec 0 (nRead - (1016 - off))) as [Hge|Hlt].
  - rewrite Z.min_r by lia. rewrite (slice_split p c off nRead z) by (done || lia).
    assert (Hz' : take (Z.to_nat (1016 - off)) (drop (Z.to_nat off) z) = drop (Z.to_nat off) z).
    { apply take_ge. rewrite length_drop. apply rd_Some in Hz as [_ Hz]. rewrite Forall_lookup in Hcs. rewrite (Hcs _ _ Hz). lia. }
    rewrite Hz'. destruct (Z.ltb_spec 0 (nRead - (1016 - off))) as [Hgt|Hle].
    + rewrite (proj2 (Z.ltb_lt _ _)) by lia. rewrite (IH (c + 1) 0) by (done || lia). cbn [mbind option_bind]. unfold chunk_at.
      rewrite Z.add_0_r. replace (1016 * (c + 1) + (nRead - (1016 - off))) with (1016 * c + off + nRead) by lia. done.
    + replace (nRead - (1016 - off)) with 0 by lia. replace ((1016 * c + off + nRead) / 1016) with (c + 1) by dlia.
      unfold slice. change (Z.to_nat 0) with 0%nat. rewrite take_0, app_nil_r. by case_bool.
  - rewrite Z.min_l by lia. rewrite (slice_short p c off nRead z) by (done || lia).
    replace ((1016 * c + off + nRead) / 1016) with c by dlia. by rewrite (proj2 (Z.ltb_lt _ _)) by lia.
Qed.

Lemma seek_loop_spec p : forall fuel c iOfst,
  0 <= c < nchunks p -> 1016 * c <= iOfst < 1016 * nchunks p -> iOfst / 1016 - c < Z.of_nat fuel ->
  seek_loop p fuel (Some c) (1016 * c) iOfst = Some (iOfst / 1016).
Proof.
  induction fuel as [|fuel IH]; intros c iOfst Hc Hi Hf; [dlia|]. cbn [seek_loop]. change JOURNAL_CHUNKSIZE with 1016.
  destruct (Z.leb_spec (1016 * c + 1016) iOfst).
  - unfold pNext. fold (nchunks p). rewrite (proj2 (Z.ltb_lt _ _)) by lia.
    replace (1016 * c + 1016) with (1016 * (c + 1)) by lia. apply IH; lia.
  - f_equal. dlia.
Qed.

Lemma seek_spec p iOfst :
  0 <= iOfst < 1016 * nchunks p -> seek_loop p (length (chunks p)) (pFirst p) 0 iOfst = Some (iOfst / 1016).
Proof.
  intros Hi. unfold pFirst. destruct (chunks p) as [|z cs] eqn:E; [unfold nchunks in Hi; rewrite E in Hi; simpl in Hi; lia|].
  rewrite <- E. apply (seek_loop_spec p _ 0); unfold nchunks in *; dlia.
Qed.

Lemma file_slice p iOfst iAmt :
  0 <= iOfst -> 0 <= iAmt -> iOfst + iAmt <= iOffset (endpoint p) ->
  take (Z.to_nat iAmt) (drop (Z.to_nat iOfst) (file p)) = slice p iOfst iAmt.
Proof.
  intros H1 H2 H3. unfold file, slice. rewrite !take_drop_commute, take_take. do 2 f_equal. lia.
Qed.

(** The read position is usable for a read at [iOfst]. *)
Definition not_stale (p : MemJournal) (iOfst : Z) : Prop :=
  iOffset (readpoint p) = iOfst -> iOfst <> 0 -> pChunk (readpoint p) <> None.

Lemma read_ok p iAmt iOfst :
  journal_ok p -> 0 < iAmt -> 0 <= iOfst -> iOfst + iAmt <= iOffset (endpoint p) -> not_stale p iOfst ->
  exists p', memjrnlRead p iAmt iOfst = Some (take (Z.to_nat iAmt) (drop (Z.to_nat iOfst) (file p)), p') /\
    journal_ok p' /\ chunks p' = chunks p /\ endpoint p' = endpoint p /\
    readpoint p' = {| iOffset := iOfst + iAmt; pChunk := chunk_at p (iOfst + iAmt) |}.
Proof.
  intros [Hcs Hep He Hec Hrp] Ha Ho Hend Hst. rewrite file_slice by lia. unfold memjrnlRead.
  change JOURNAL_CHUNKSIZE with 1016. fold (nchunks p) in He.
  assert (Hc : (if negb (iOffset (readpoint p) =? iOfst) || (iOfst =? 0)
    then seek_loop p (length (chunks p)) (pFirst p) 0 iOfst else pChunk (readpoint p)) = Some (iOfst / 1016)).
  { destruct (Z.eqb_spec (iOffset (readpoint p)) iOfst) as [E|E]; cbn [negb orb]; [|apply seek_spec; lia].
    destruct (Z.eqb_spec iOfst 0) as [E0|E0]; [apply seek_spec; lia|]. specialize (Hst E E0). unfold readpoint_ok in Hrp.
    destruct (pChunk (readpoint p)) as [c|]; [|done]. destruct Hrp as (_ & -> & _). by rewrite E. }
  rewrite Hc. assert (0 <= iOfst / 1016 < nchunks p) by dlia.
  rewrite read_loop_spec by (done || (unfold nchunks in *; dlia)). cbn [mbind option_bind].
  replace (1016 * (iOfst / 1016) + iOfst mod 1016) with iOfst by dlia. eexists. split; [done|].
  split; [|done]. split; try done. unfold readpoint_ok, chunk_at. cbn [readpoint pChunk iOffset chunks].
  case_bool; [zbool; unfold nchunks in *; lia|done].
Qed.

(** ** Appending *)

Lemma overwrite_length z off data :
  0 <= off -> (Z.to_nat off + length data <= length z)%nat -> length (overwrite z off data) = length z.
Proof. intros H0 Hl. unfold overwrite. rewrite !length_app, length_take, length_drop. lia. Qed.

Lemma overwrite_prefix z off data :
  0 <= off -> (Z.to_nat off + length data <= length z)%nat ->
  take (Z.to_nat off + length data) (overwrite z off data) = take (Z.to_nat off) z ++ data.
Proof.
  intros H0 Hl. unfold overwrite. rewrite app_assoc, take_app_length'; [done|]. rewrite length_app, length_take. lia.
Qed.

(** One chunk's worth of data goes to the last chunk. *)
Lemma store_last p cs z off data endc :
  Forall (fun z => length z = 1016%nat) cs -> length z = 1016%nat -> 0 <= off < 1016 ->
  data <> [] -> Z.of_nat (length data) <= 1016 - off -> readpoint_ok p ->
  (length (chunks p) <= S (length cs))%nat -> endc = Z.of_nat (length cs) ->
  file p = concat cs ++ take (Z.to_nat off) z ->
  let cs' := cs ++ [overwrite z off data] in
  let p' := {| chunks := cs'; endpoint := {| iOffset := 1016 * endc + off + Z.of_nat (length data); pChunk := Some endc |};
               readpoint := readpoint p |} in
  rd (cs ++ [z]) endc = Some z /\ wr (cs ++ [z]) endc (overwrite z off data) = Some cs' /\
  journal_ok p' /\ file p' = file p ++ data.
Proof.
  intros Hcs Hz Hoff Hd Hfit Hrp Hlen -> Hfile. cbv zeta.
  assert (Hd0 : (0 < length data)%nat) by (destruct data; [done|simpl; lia]).
  assert (Hov : length (overwrite z off data) = 1016%nat) by (rewrite overwrite_length; lia).
  split; [rewrite rd_nat, lookup_app_r, Nat.sub_diag by lia; done|]. split.
  { rewrite wr_Some by (rewrite length_app; simpl; lia). rewrite Nat2Z.id.
    rewrite insert_app_r_alt, Nat.sub_diag by lia. done. }
  split.
  - split; cbn [chunks endpoint iOffset pChunk readpoint].
    + apply Forall_app. split; [done|]. by constructor.
    + lia.
    + rewrite length_app. simpl. lia.
    + rewrite length_app. cbn [length]. destruct (cs ++ _) eqn:E; [by destruct cs|]. f_equal. lia.
    + unfold readpoint_ok in *. cbn [readpoint chunks]. destruct (pChunk (readpoint p)); [|done].
      rewrite length_app. simpl. lia.
  - rewrite Hfile. unfold file, flat. cbn [chunks endpoint iOffset]. rewrite concat_app. cbn [concat]. rewrite app_nil_r.
    assert (Hfl : length (concat cs) = (1016 * length cs)%nat) by (by apply flat_length).
    replace (Z.to_nat (1016 * Z.of_nat (length cs) + off + Z.of_nat (length data)))
      with (length (concat cs) + (Z.to_nat off + length data))%nat by lia.
    rewrite take_app_add, overwrite_prefix by lia. by rewrite app_assoc.
Qed.

(** The last chunk and what is in use of it. *)
Lemma last_chunk p :
  journal_ok p -> chunks p <> [] ->
  exists cs z, chunks p = cs ++ [z] /\ Forall (fun z => length z = 1016%nat) cs /\ length z = 1016%nat /\
    (iOffset (endpoint p) mod 1016 <> 0 ->
     iOffset (endpoint p) = 1016 * Z.of_nat (length cs) + iOffset (endpoint p) mod 1016 /\
     file p = concat cs ++ take (Z.to_nat (iOffset (endpoint p) mod 1016)) z).
Proof.
  intros [Hcs Hep He Hec Hrp] Hne. destruct (exists_last Hne) as (cs & z & E). rewrite E in Hcs, He.
  apply Forall_app in Hcs as [Hcs Hz]. apply Forall_cons in Hz as [Hz _]. exists cs, z. split_and!; try done.
  intros Hm. rewrite length_app in He. cbn [length] in He.
  assert (Hend : iOffset (endpoint p) = 1016 * Z.of_nat (length cs) + iOffset (endpoint p) mod 1016) by dlia.
  split; [done|]. unfold file, flat. rewrite E, concat_app. cbn [concat]. rewrite app_nil_r.
  assert (Hfl : length (concat cs) = (1016 * length cs)%nat) by (by apply flat_length).
  rewrite Hend at 1. pose proof (Z.mod_pos_bound (iOffset (endpoint p)) 1016 ltac:(lia)).
  replace (Z.to_nat (1016 * Z.of_nat (length cs) + iOffset (endpoint p) mod 1016))
    with (length (concat cs) + Z.to_nat (iOffset (endpoint p) mod 1016))%nat by lia.
  by rewrite take_app_add.
Qed.

Lemma full_chunks p :
  journal_ok p -> iOffset (endpoint p) mod 1016 = 0 ->
  iOffset (endpoint p) = 1016 * Z.of_nat (length (chunks p)) /\ file p = flat p.
Proof.
  intros [Hcs Hep He Hec Hrp] Hm. assert (Hend : iOffset (endpoint p) = 1016 * Z.of_nat (length (chunks p))) by dlia.
  split; [done|]. unfold file, flat. apply take_ge. rewrite flat_length by done. lia.
Qed.

Lemma write_loop_spec junk : forall fuel allocs p data,
  journal_ok p -> (length data < fuel)%nat ->
  exists rc p' k, write_loop fuel junk allocs p data = Some (rc, p') /\ journal_ok p' /\
    file p' = file p ++ take k data /\ readpoint p' = readpoint p /\
    (rc = SQLITE_OK /\ k = length data \/ rc = SQLITE_IOERR_NOMEM /\ (k < length data)%nat) /\
    (allocs = [] -> rc = SQLITE_OK).
Proof.
  induction fuel as [|fuel IH]; intros allocs p data Hok Hf; [lia|]. cbn [write_loop].
  destruct (Z.leb_spec (Z.of_nat (length data)) 0) as [H0|H0].
  { assert (data = []) as -> by (apply length_zero_iff_nil; lia). exists SQLITE_OK, p, 0%nat.
    rewrite app_nil_r. split_and!; try done. by left. }
  change JOURNAL_CHUNKSIZE with 1016. change (Z.to_nat 1016) with 1016%nat.
  set (off := iOffset (endpoint p) mod 1016). set (isp := Z.min (Z.of_nat (length data)) (1016 - off)).
  assert (Hoff : 0 <= off < 1016) by (apply Z.mod_pos_bound; lia).
  assert (Hisp : 0 < isp <= Z.of_nat (length data)) by lia.
  assert (Hpart : Z.of_nat (length (take (Z.to_nat isp) data)) = isp) by (rewrite length_take; lia).
  assert (Hstep : forall cs z endc al, Forall (fun z => length z = 1016%nat) cs -> length z = 1016%nat ->
    (length (chunks p) <= S (length cs))%nat -> endc = Z.of_nat (length cs) ->
    iOffset (endpoint p) = 1016 * endc + off -> file p = concat cs ++ take (Z.to_nat off) z ->
    (allocs = [] -> al = []) ->
    exists rc p' k, (c ← Some endc; y ← rd (cs ++ [z]) c;
      ys ← wr (cs ++ [z]) c (overwrite y off (take (Z.to_nat isp) data));
      write_loop fuel junk al {| chunks := ys; endpoint := {| iOffset := iOffset (endpoint p) + isp; pChunk := Some endc |};
         readpoint := readpoint p |} (drop (Z.to_nat isp) data)) = Some (rc, p') /\ journal_ok p' /\
      file p' = file p ++ take k data /\ readpoint p' = readpoint p /\
      (rc = SQLITE_OK /\ k = length data \/ rc = SQLITE_IOERR_NOMEM /\ (k < length data)%nat) /\ (allocs = [] -> rc = SQLITE_OK)).
  { intros cs z endc al Hcs Hz Hlen Hendc Hend Hfile Hal.
    destruct (store_last p cs z off (take (Z.to_nat isp) data) endc) as (Hrd & Hwr & Hok' & Hf'); try done.
    { intros E. rewrite E in Hpart. simpl in Hpart. lia. } { lia. } { apply Hok. }
    rewrite Hpart, <- Hend in Hok', Hf'. cbn [mbind option_bind]. rewrite Hrd. cbn [mbind option_bind]. rewrite Hwr. cbn [mbind option_bind].
    destruct (IH al _ (drop (Z.to_nat isp) data) Hok') as (rc & p' & k & -> & Hokp & Hfp & Hrp & Hrc & Ha); [rewrite length_drop; lia|].
    exists rc, p', (Z.to_nat isp + k)%nat. rewrite length_drop in Hrc. split_and!; try done.
    - rewrite Hfp, Hf', <- app_assoc. f_equal. rewrite <- (take_drop (Z.to_nat isp) data) at 3. rewrite take_app_add'; [done|]. lia.
    - destruct Hrc as [[-> ->]|[-> ?]]; [left|right]; (split; [done|lia]).
    - auto. }
  destruct (Z.eqb_spec off 0) as [E0|E0].
  - destruct (full_chunks p Hok E0) as [Hend Hfile]. destruct (match allocs with [] => true | b :: _ => b end) eqn:Eb.
    2: { exists SQLITE_IOERR_NOMEM, p, 0%nat. rewrite app_nil_r. split_and!; try done; [right; split; [done|lia]|by intros ->]. }
    assert (Hx : match pChunk (endpoint p) with
      | Some c => Some (take (S (Z.to_nat c)) (chunks p) ++ [replicate 1016 junk], Some (c + 1), tl allocs)
      | None => Some ([replicate 1016 junk], Some 0, tl allocs) end
      = Some (chunks p ++ [replicate 1016 junk], Some (Z.of_nat (length (chunks p))), tl allocs)).
    { rewrite (ok_end_chunk p Hok). destruct (chunks p) as [|z cs] eqn:Ec; [done|]. rewrite <- Ec.
      assert ((0 < length (chunks p))%nat) by (rewrite Ec; simpl; lia).
      rewrite take_ge by lia. do 2 f_equal. f_equal. f_equal. lia. }
    rewrite Hx. apply Hstep; try done; [apply Hok|lia|lia| |by intros ->].
    rewrite E0. change (Z.to_nat 0) with 0%nat. by rewrite take_0, app_nil_r.
  - assert (Hne : chunks p <> []).
    { intros E. destruct Hok as [_ Hep He _ _]. rewrite E in He. simpl in He. apply E0. unfold off.
      by replace (iOffset (endpoint p)) with 0 by lia. }
    destruct (last_chunk p Hok Hne) as (cs & z & Ecs & Hcs & Hz & Hlast). destruct (Hlast E0) as [Hend Hfile].
    rewrite (ok_end_chunk p Hok). rewrite Ecs. 
    replace (match cs ++ [z] with [] => None | _ :: _ => Some (Z.of_nat (length (cs ++ [z])) - 1) end) with (Some (Z.of_nat (length cs)))
      by (destruct (cs ++ [z]) eqn:E; [by destruct cs|rewrite <- E, length_app; simpl; f_equal; lia]).
    apply Hstep; try done. rewrite Ecs, length_app. simpl. lia.
Qed.

(** Appending to a journal that satisfies its invariant keeps it and appends
    exactly the data to the file it stands for; when a chunk cannot be allocated
    it returns SQLITE_IOERR_NOMEM and a proper prefix was appended. *)
Theorem memjrnl_write_appends junk allocs p data :
  journal_ok p ->
  exists rc p' k, memjrnlWrite junk allocs p data = Some (rc, p') /\ journal_ok p' /\
    file p' = file p ++ take k data /\ memjrnlFileSize p' = Z.of_nat (length (file p')) /\
    (rc = SQLITE_OK /\ k = length data \/ rc = SQLITE_IOERR_NOMEM /\ (k < length data)%nat) /\
    (allocs = [] -> rc = SQLITE_OK).
Proof.
  intros Hok. destruct (write_loop_spec junk (S (length data)) allocs p data Hok ltac:(lia))
    as (rc & p' & k & E & Hok' & Hf & _ & Hrc & Ha).
  exists rc, p', k. split_and!; try done. unfold memjrnlFileSize, file, flat. destruct Hok' as [Hcs Hep He _ _].
  rewrite length_take, flat_length by done. lia.
Qed.

Lemma open_ok : journal_ok sqlite3MemJournalOpen.
Proof. by split. Qed.

Lemma memjrnl_write_appends_witness :
  exists p', memjrnlWrite 0 [true; false] sqlite3MemJournalOpen (replicate 2000 7) = Some (SQLITE_IOERR_NOMEM, p') /\
    file p' = replicate 1016 7.
Proof.
  destruct (memjrnl_write_appends 0 [true; false] sqlite3MemJournalOpen (replicate 2000 7) open_ok)
    as (rc & p' & k & E & _).
  exists p'. assert (H : memjrnlWrite 0 [true; false] sqlite3MemJournalOpen (replicate 2000 7) = Some (rc, p')) by exact E.
  vm_compute in H. injection H as <- <-. split; [exact E|vm_compute; reflexivity].
Defined.

(** ** Reads and writes in sequence *)

Inductive jop := JWrite (data : list Z) | JRead (iAmt iOfst : Z) | JTruncate.

(** Whether an operation is used as the pager uses the file: reads of at least
    one byte inside it. *)
Definition jop_ok (p : MemJournal) (o : jop) : Prop :=
  match o with
  | JRead iAmt iOfst => 0 < iAmt /\ 0 <= iOfst /\ iOfst + iAmt <= memjrnlFileSize p /\ not_stale p iOfst
  | _ => True
  end.

Inductive jreach : MemJournal -> Prop :=
  | jreach_open : jreach sqlite3MemJournalOpen
  | jreach_write p junk allocs data rc p' : jreach p -> memjrnlWrite junk allocs p data = Some (rc, p') -> jreach p'
  | jreach_read p iAmt iOfst z p' :
      jreach p -> jop_ok p (JRead iAmt iOfst) -> memjrnlRead p iAmt iOfst = Some (z, p') -> jreach p'
  | jreach_truncate p rc p' : jreach p -> memjrnlTruncate p = (rc, p') -> jreach p'.

Lemma jreach_ok p : jreach p -> journal_ok p.
Proof.
  induction 1 as [|p junk allocs data rc p' _ IH E|p iAmt iOfst z p' _ IH (Ha & Ho & He & Hs) E|p rc p' _ _ E].
  - apply open_ok.
  - destruct (write_loop_spec junk (S (length data)) allocs p data IH ltac:(lia)) as (? & ? & ? & E' & ? & _).
    unfold memjrnlWrite in E. congruence.
  - destruct (read_ok p iAmt iOfst IH Ha Ho He Hs) as (? & E' & ? & _). congruence.
  - injection E as _ <-. apply open_ok.
Qed.

(** In every state reached by opening, appending, reading and truncating, a
    read inside the file returns exactly the bytes of the file at that position
    and changes only the read position, except when it starts where an earlier
    read ended with no chunk to point to. *)
Theorem memjrnl_read_returns_file p iAmt iOfst :
  jreach p -> jop_ok p (JRead iAmt iOfst) ->
  exists p', memjrnlRead p iAmt iOfst = Some (take (Z.to_nat iAmt) (drop (Z.to_nat iOfst) (file p)), p') /\
    file p' = file p /\ memjrnlFileSize p' = memjrnlFileSize p.
Proof.
  intros Hr (Ha & Ho & He & Hs).
  destruct (read_ok p iAmt iOfst (jreach_ok p Hr) Ha Ho He Hs) as (p' & E & _ & Hc & Hep & _).
  exists p'. unfold file, flat, memjrnlFileSize. by rewrite Hc, Hep.
Qed.

Definition journal_1016 : MemJournal :=
  {| chunks := [replicate 1016 7]; endpoint := {| iOffset := 1016; pChunk := Some 0 |};
     readpoint := {| iOffset := 0; pChunk := None |} |}.

Lemma journal_1016_reach : jreach journal_1016.
Proof. apply (jreach_write sqlite3MemJournalOpen 0 [] (replicate 1016 7) SQLITE_OK); [constructor|vm_compute; reflexivity]. Qed.

Lemma memjrnl_read_returns_file_witness :
  exists p', memjrnlRead journal_1016 500 516 = Some (replicate 500 7, p').
Proof.
  destruct (memjrnl_read_returns_file journal_1016 500 516) as (p' & E & _).
  - exact journal_1016_reach.
  - unfold jop_ok, not_stale. vm_compute. repeat split; congruence.
  - exists p'. rewrite E. f_equal.
Defined.

(** That exception is a defect of the code: append one chunk, read it to its
    end, append more, and read on from there.  Every operation is used as
    intended and succeeds, except that the last read dereferences a NULL chunk,
    although the bytes it asks for are in the file. *)
Theorem memjrnl_stale_readpoint_faults :
  exists z p1 p2, memjrnlRead journal_1016 1016 0 = Some (z, p1) /\
    memjrnlWrite 0 [] p1 [1; 2; 3] = Some (SQLITE_OK, p2) /\ memjrnlFileSize p2 = 1019 /\
    memjrnlRead p2 3 1016 = None.
Proof.
  destruct (memjrnlRead journal_1016 1016 0) as [[z p1]|] eqn:E1; [|discriminate (eq_trans (eq_sym E1) ltac:(vm_compute; reflexivity))].
  exists z, p1. vm_compute in E1. injection E1 as <- <-. eexists. split; [reflexivity|].
  split; [vm_compute; reflexivity|]. split; vm_compute; reflexivity.
Qed.
