(* ===== verification/Record.v ===== *)
(** * Record: the record format of rows and index keys

    Models, from [src/whip-server/sqlite/sqlite3.c]:

    - vdbeaux.c: [sqlite3VdbeSerialType], [sqlite3VdbeSerialTypeLen],
      [sqlite3VdbeSerialPut], [sqlite3VdbeSerialGet], [sqlite3VdbeRecordUnpack],
      [sqlite3VdbeRecordCompare] and the decoding part of [sqlite3VdbeIdxRowid];
    - vdbemem.c: [sqlite3MemCompare];
    - vdbe.c: the OP_MakeRecord opcode without an affinity string.

    A memory cell is the value its flags select, in the order in which the code
    tests them: MEM_Null, MEM_Int, MEM_Real, then MEM_Str or MEM_Blob.  A real is
    its 64-bit IEEE pattern.  [Blob z (Some k)] is a blob with [k] zero bytes
    after [z] that are not stored (MEM_Zero).  [None] as a result is a read past
    the end of the record, or an int that overflows. *)
From S2P Require Import Prelude Bits Varint Text.
From stdpp Require Import list.
#[local] Open Scope Z_scope.

Inductive value :=
  | Null
  | Int (i : Z)
  | Real (bits : Z)
  | Str (z : list Z)
  | Blob (z : list Z) (nZero : option Z).

Definition MAX_6BYTE : Z := Z.shiftl 0x00008000 32 - 1.

Definition sqlite3VdbeSerialType (pMem : value) (file_format : Z) : Z :=
  match pMem with
  | Null => 0
  | Int i =>
      if (4 <=? file_format) && (Z.land i 1 =? i) then 8 + u32 i
      else
        let u := u64 (if i <? 0 then - i else i) in
        if u <=? 127 then 1
        else if u <=? 32767 then 2
        else if u <=? 8388607 then 3
        else if u <=? 2147483647 then 4
        else if u <=? MAX_6BYTE then 5
        else 6
  | Real _ => 7
  | Str z => u32 (Z.of_nat (length z) * 2 + 12 + 1)
  | Blob z nZero => u32 ((Z.of_nat (length z) + default 0 nZero) * 2 + 12 + 0)
  end.

Definition aSize : list Z := [0; 1; 2; 3; 4; 6; 8; 8; 0; 0; 0; 0].

Definition sqlite3VdbeSerialTypeLen (serial_type : Z) : Z :=
  if 12 <=? serial_type then (serial_type - 12) / 2 else nth (Z.to_nat serial_type) aSize 0.

(** while( i-- ){ buf[i] = (u8)(v&0xFF); v >>= 8; } *)
Fixpoint put_be (i : nat) (v : Z) : list Z :=
  match i with
  | O => []
  | S i => put_be i (Z.shiftr v 8) ++ [u8 (Z.land v 0xFF)]
  end.

(** The bytes stored at [buf]; [nBuf] is the room there. *)
Definition sqlite3VdbeSerialPut (nBuf : Z) (pMem : value) (file_format : Z) : list Z :=
  let serial_type := sqlite3VdbeSerialType pMem file_format in
  if (serial_type <=? 7) && (0 <? serial_type) then
    let v := match pMem with Int i => u64 i | Real bits => bits | _ => 0 end in
    put_be (Z.to_nat (sqlite3VdbeSerialTypeLen serial_type)) v
  else if 12 <=? serial_type then
    match pMem with
    | Str z => z
    | Blob z None => z
    | Blob z (Some k) =>
        let n := Z.of_nat (length z) in
        let len := n + k in
        let len := if nBuf <? len then nBuf else len in
        z ++ replicate (Z.to_nat (len - n)) 0
    | _ => []
    end
  else [].

(** (signed char)b *)
Definition i8 (b : Z) : Z := (b + 128) mod 256 - 128.

(** isnan() of a bit pattern *)
Definition sqlite3IsNaN (bits : Z) : bool :=
  (Z.land (Z.shiftr bits 52) 0x7ff =? 0x7ff) && negb (Z.land bits (Z.ones 52) =? 0).

(** (bytes read, value) *)
Definition sqlite3VdbeSerialGet (buf : list Z) (serial_type : Z) : option (Z * value) :=
  let int4 i := (* (buf[i]<<24) | (buf[i+1]<<16) | (buf[i+2]<<8) | buf[i+3] *)
    b0 ← rd buf i; b1 ← rd buf (i + 1); b2 ← rd buf (i + 2); b3 ← rd buf (i + 3);
    Some (i32 (Z.lor (Z.lor (Z.lor (Z.shiftl b0 24) (Z.shiftl b1 16)) (Z.shiftl b2 8)) b3)) in
  if (serial_type =? 10) || (serial_type =? 11) || (serial_type =? 0) then Some (0, Null)
  else if serial_type =? 1 then b0 ← rd buf 0; Some (1, Int (i8 b0))
  else if serial_type =? 2 then
    b0 ← rd buf 0; b1 ← rd buf 1; Some (2, Int (Z.lor (Z.shiftl (i8 b0) 8) b1))
  else if serial_type =? 3 then
    b0 ← rd buf 0; b1 ← rd buf 1; b2 ← rd buf 2;
    Some (3, Int (Z.lor (Z.lor (Z.shiftl (i8 b0) 16) (Z.shiftl b1 8)) b2))
  else if serial_type =? 4 then v ← int4 0; Some (4, Int v)
  else if serial_type =? 5 then
    b0 ← rd buf 0; b1 ← rd buf 1;
    let x := u64 (Z.lor (Z.shiftl (i8 b0) 8) b1) in
    y ← int4 2;
    Some (6, Int (i64 (Z.lor (u64 (Z.shiftl x 32)) (u32 y))))
  else if (serial_type =? 6) || (serial_type =? 7) then
    x ← int4 0; y ← int4 4;
    let x := Z.lor (u64 (Z.shiftl (u64 x) 32)) (u32 y) in
    if serial_type =? 6 then Some (8, Int (i64 x))
    else Some (8, if sqlite3IsNaN x then Null else Real x)
  else if (serial_type =? 8) || (serial_type =? 9) then Some (0, Int (serial_type - 8))
  else
    let len := (serial_type - 12) / 2 in
    if Z.of_nat (length buf) <? len then None
    else
      let z := take (Z.to_nat len) buf in
      Some (len, if truthy (Z.land serial_type 0x01) then Str z else Blob z None).

(** The loop of [sqlite3VdbeRecordUnpack]; the fuel is p->nField less the fields
    already read.  [d] is an int, to which the u32 sizes are added: a sum that
    wraps to a negative number is an access before the record. *)
Fixpoint unpack_loop (fuel : nat) (aKey : list Z) (szHdr idx d : Z) : option (list value) :=
  match fuel with
  | O => Some []
  | S fuel =>
      if (idx <? szHdr) && (d <=? Z.of_nat (length aKey)) then
        '(n, serial_type) ← getVarint32 (drop (Z.to_nat idx) aKey);
        if d <? 0 then None
        else
        '(m, v) ← sqlite3VdbeSerialGet (drop (Z.to_nat d) aKey) serial_type;
        vs ← unpack_loop fuel aKey szHdr (u32 (idx + n)) (i32 (d + m));
        Some (v :: vs)
      else Some []
  end.

(** [nField] is pKeyInfo->nField, and p->nField a u16; the result is the fields p->aMem[0..p->nField). *)
Definition sqlite3VdbeRecordUnpack (nField : Z) (aKey : list Z) : option (list value) :=
  '(idx, szHdr) ← getVarint32 aKey;
  unpack_loop (Z.to_nat (u16 (nField + 1))) aKey szHdr idx (i32 szHdr).

(** sqlite3VdbeMemExpandBlob, as the first loop of OP_MakeRecord calls it *)
Definition expand (v : value) : value :=
  match v with
  | Blob z (Some k) => if 0 <? Z.of_nat (length z) then Blob (z ++ replicate (Z.to_nat k) 0) None else v
  | _ => v
  end.

(** The sum of two ints: [None] when it overflows. *)
Definition add_int (a b : Z) : option Z :=
  if (- 2 ^ 31 <=? a + b) && (a + b <? 2 ^ 31) then Some (a + b) else None.

(** The sizes computed by the first loop: (nData, nHdr, nZero), a u64 and two ints. *)
Fixpoint record_sizes (file_format : Z) (vs : list value) (nData nHdr nZero : Z) : option (Z * Z * Z) :=
  match vs with
  | [] => Some (nData, nHdr, nZero)
  | v :: vs =>
      let serial_type := sqlite3VdbeSerialType v file_format in
      let len := sqlite3VdbeSerialTypeLen serial_type in
      nHdr ← add_int nHdr (sqlite3VarintLen serial_type);
      nZero ← match v with
              | Blob _ (Some k) => add_int nZero k
              | _ => Some (if truthy len then 0 else nZero)
              end;
      record_sizes file_format vs (u64 (nData + len)) nHdr nZero
  end.

Fixpoint put_types (file_format : Z) (vs : list value) : option (list Z) :=
  match vs with
  | [] => Some []
  | v :: vs => t ← putVarint32 (sqlite3VdbeSerialType v file_format); ts ← put_types file_format vs; Some (t ++ ts)
  end.

Fixpoint put_data (file_format nByte i : Z) (vs : list value) : list Z :=
  match vs with
  | [] => []
  | v :: vs =>
      let b := sqlite3VdbeSerialPut (nByte - i) v file_format in
      b ++ put_data file_format nByte (i + Z.of_nat (length b)) vs
  end.

Inductive made := TooBig | Made (bytes : list Z) (nZero : Z).

(** [limit] is db->aLimit[SQLITE_LIMIT_LENGTH], an int, so that the [i] of the loops below, at most [nByte], does
    not overflow in a record that is made.  [None]: an int overflows. *)
Definition OP_MakeRecord (file_format limit : Z) (fields : list value) : option made :=
  let vs := map expand fields in
  '(nData, nHdr, nZero) ← record_sizes file_format vs 0 0 0;
  let nVarint := sqlite3VarintLen nHdr in
  nHdr ← add_int nHdr nVarint;
  nHdr ← add_int nHdr (if nVarint <? sqlite3VarintLen nHdr then 1 else 0);
  let nByte := i64 (nHdr + nData - nZero) in
  if limit <? nByte then Some TooBig
  else
    h ← putVarint32 nHdr;
    ts ← put_types file_format vs;
    let i := Z.of_nat (length h + length ts) in
    Some (Made (h ++ ts ++ put_data file_format nByte i vs) nZero).

(** ** Comparison *)

(** The C double nearest to an integer: 53 significant bits, ties to even. *)
Definition round53 (i : Z) : Z :=
  let n := Z.abs i in
  let k := Z.log2 n - 52 in
  if k <=? 0 then i
  else
    let q := n / 2 ^ k in
    let r := n mod 2 ^ k in
    let up := (2 ^ (k - 1) <? r) || ((r =? 2 ^ (k - 1)) && Z.odd q) in
    Z.sgn i * ((if up then q + 1 else q) * 2 ^ k).

(** The value of a bit pattern that is not a NaN, in units of 2^-1074; an infinity
    comes out larger than every finite value. *)
Definition double_value (bits : Z) : Z :=
  let e := Z.land (Z.shiftr bits 52) 0x7ff in
  let m := Z.land bits (Z.ones 52) in
  let v := if e =? 0 then m else (m + 2 ^ 52) * 2 ^ (e - 1) in
  if Z.testbit bits 63 then - v else v.

Definition as_double (v : value) : Z :=
  match v with Int i => round53 i * 2 ^ 1074 | Real bits => double_value bits | _ => 0 end.

(** The sign of a three-way comparison of numbers. *)
Definition cmp3 (a b : Z) : Z := if a <? b then -1 else if b <? a then 1 else 0.

Definition is_number (v : value) : bool := match v with Int _ | Real _ => true | _ => false end.

Definition bytes_of (v : value) : list Z := match v with Str z | Blob z _ => z | _ => [] end.

Definition memcmp_n (a b : list Z) : Z :=
  let n := if Z.of_nat (length b) <? Z.of_nat (length a) then length b else length a in
  let rc := memcmp a b n in
  if rc =? 0 then Z.of_nat (length a) - Z.of_nat (length b) else rc.

(** [pColl] compares two texts in the encoding of the cells; for a collating
    sequence defined on another encoding this includes the conversion.  Both
    reals are not NaN. *)
Definition sqlite3MemCompare (pMem1 pMem2 : value) (pColl : option (list Z -> list Z -> Z)) : Z :=
  match pMem1, pMem2 with
  | Null, Null => 0
  | Null, _ => -1
  | _, Null => 1
  | Int i1, Int i2 => cmp3 i1 i2
  | _, _ =>
      if is_number pMem1 || is_number pMem2 then
        if negb (is_number pMem1) then 1
        else if negb (is_number pMem2) then -1
        else cmp3 (as_double pMem1) (as_double pMem2)
      else
        match pMem1, pMem2 with
        | Str z1, Str z2 => match pColl with Some xCmp => xCmp z1 z2 | None => memcmp_n z1 z2 end
        | _, Str _ => 1
        | Str _, _ => -1
        | _, _ => memcmp_n (bytes_of pMem1) (bytes_of pMem2)
        end
  end.

Record KeyInfo := {
  nField : Z;
  aColl : list (option (list Z -> list Z -> Z));
  aSortOrder : option (list bool)                (* true: DESC *)
}.

Definition UNPACKED_IGNORE_ROWID : Z := 0x0004.
Definition UNPACKED_INCRKEY : Z := 0x0008.
Definition UNPACKED_PREFIX_MATCH : Z := 0x0010.
Definition UNPACKED_PREFIX_SEARCH : Z := 0x0020.

(** aMem holds p->nField cells. *)
Record UnpackedRecord := { pKeyInfo : KeyInfo; flags : Z; rowid : Z; aMem : list value }.

Definition flag (r : UnpackedRecord) (f : Z) : bool := truthy (Z.land (flags r) f).

Definition desc (k : KeyInfo) (i : Z) : bool :=
  match aSortOrder k with Some o => (i <? nField k) && nth (Z.to_nat i) o false | None => false end.

Definition coll (k : KeyInfo) (i : Z) : option (list Z -> list Z -> Z) :=
  if i <? nField k then nth (Z.to_nat i) (aColl k) None else None.

(** while( idx1<szHdr1 && i<pPKey2->nField ): [mems] are the cells from [i] on.
    [d1] is an int as in [sqlite3VdbeRecordUnpack]; [inl] is a return inside the loop, with the rowid stored by
    UNPACKED_PREFIX_SEARCH; [inr] is the final idx1. *)
Fixpoint compare_loop (pPKey2 : UnpackedRecord) (mems : list value) (i : Z) (aKey1 : list Z) (szHdr1 idx1 d1 : Z)
    : option (Z * option Z + Z) :=
  match mems with
  | [] => Some (inr idx1)
  | m :: mems =>
      if idx1 <? szHdr1 then
        '(n, serial_type1) ← getVarint32 (drop (Z.to_nat idx1) aKey1);
        let idx1 := u32 (idx1 + n) in
        if (Z.of_nat (length aKey1) <=? d1) && (0 <? sqlite3VdbeSerialTypeLen serial_type1) then Some (inr idx1)
        else if d1 <? 0 then None
        else
          '(k, mem1) ← sqlite3VdbeSerialGet (drop (Z.to_nat d1) aKey1) serial_type1;
          let rc := sqlite3MemCompare mem1 m (coll (pKeyInfo pPKey2) i) in
          if negb (rc =? 0) then
            let rc := if desc (pKeyInfo pPKey2) i then - rc else rc in
            let found :=
              if flag pPKey2 UNPACKED_PREFIX_SEARCH && (i =? Z.of_nat (length (aMem pPKey2)) - 1)
              then match mem1 with Int r => Some r | _ => None end else None in
            Some (inl (rc, found))
          else compare_loop pPKey2 mems (i + 1) aKey1 szHdr1 idx1 (i32 (d1 + k))
      else Some (inr idx1)
  end.

Definition sqlite3VdbeRecordCompare (aKey1 : list Z) (pPKey2 : UnpackedRecord) : option (Z * UnpackedRecord) :=
  '(idx1, szHdr1) ← getVarint32 aKey1;
  let d1 := i32 szHdr1 in
  let szHdr1 := if flag pPKey2 UNPACKED_IGNORE_ROWID then u32 (szHdr1 - 1) else szHdr1 in
  r ← compare_loop pPKey2 (aMem pPKey2) 0 aKey1 szHdr1 idx1 d1;
  match r with
  | inl (rc, Some r) =>
      Some (rc, {| pKeyInfo := pKeyInfo pPKey2; flags := Z.land (flags pPKey2) (Z.lnot UNPACKED_PREFIX_SEARCH);
                   rowid := r; aMem := aMem pPKey2 |})
  | inl (rc, None) => Some (rc, pPKey2)
  | inr idx1 =>
      Some (if flag pPKey2 UNPACKED_INCRKEY then -1
            else if flag pPKey2 UNPACKED_PREFIX_MATCH then 0
            else if idx1 <? szHdr1 then 1 else 0, pPKey2)
  end.

(** [sqlite3VdbeIdxRowid] on the bytes [z] of the index entry. *)
Definition sqlite3VdbeIdxRowid (z : list Z) : option (Z + Z) :=   (* inl: error code, inr: the rowid *)
  '(_, szHdr) ← getVarint32 z;
  if (szHdr <? 3) || (Z.of_nat (length z) <? i32 szHdr) then Some (inl SQLITE_CORRUPT)
  else
    '(_, typeRowid) ← getVarint32 (drop (Z.to_nat (szHdr - 1)) z);
    if (typeRowid <? 1) || (9 <? typeRowid) || (typeRowid =? 7) then Some (inl SQLITE_CORRUPT)
    else
      let lenRowid := sqlite3VdbeSerialTypeLen typeRowid in
      if Z.of_nat (length z) <? u32 (szHdr + lenRowid) then Some (inl SQLITE_CORRUPT)
      else
        '(_, v) ← sqlite3VdbeSerialGet (drop (Z.to_nat (Z.of_nat (length z) - lenRowid)) z) typeRowid;
        match v with Int i => Some (inr i) | _ => None end.

(** ** Big-endian integers *)

Definition be_val (l : list Z) : Z := fold_left (fun a b => a * 256 + b) l 0.

(** The two's complement reading of [n] bytes. *)
Definition signed (n u : Z) : Z := (u + 2 ^ (8 * n - 1)) mod 2 ^ (8 * n) - 2 ^ (8 * n - 1).

Lemma put_be_spec n v :
  0 <= v -> length (put_be n v) = n /\ Forall is_u8 (put_be n v) /\ be_val (put_be n v) = v mod 256 ^ Z.of_nat n.
Proof.
  revert v. induction n as [|n IH]; intros v Hv; cbn [put_be].
  { split_and!; [done|constructor|]. change (256 ^ Z.of_nat 0) with 1. by rewrite Z.mod_1_r. }
  rewrite Z.shiftr_div_pow2 by lia. change (2 ^ 8) with 256. destruct (IH (v / 256)) as (Hl & Hu & Hb); [dlia|].
  assert (Hd : u8 (Z.land v 0xFF) = v mod 256).
  { change 0xFF with (Z.ones 8). rewrite Z.land_ones by lia. apply u8_small, Z.mod_pos_bound. lia. }
  rewrite Hd. split_and!.
  - rewrite length_app, Hl. simpl. lia.
  - apply Forall_app. split; [done|]. constructor; [|done]. apply Z.mod_pos_bound. lia.
  - unfold be_val in *. rewrite fold_left_app, Hb. cbn [fold_left]. rewrite Nat2Z.inj_succ, Z.pow_succ_r by lia.
    rewrite (Z.rem_mul_r v 256) by lia. lia.
Qed.

Lemma int4_spec b0 b1 b2 b3 :
  is_u8 b0 -> is_u8 b1 -> is_u8 b2 -> is_u8 b3 ->
  Z.lor (Z.lor (Z.lor (Z.shiftl b0 24) (Z.shiftl b1 16)) (Z.shiftl b2 8)) b3 = be_val [b0; b1; b2; b3].
Proof.
  unfold is_u8. intros H0 H1 H2 H3. rewrite <- !Z.lor_assoc.
  rewrite (lor_shiftl_add b2 b3 8), (lor_shiftl_add b1 _ 16), (lor_shiftl_add b0 _ 24) by lia. unfold be_val. simpl. lia.
Qed.

Lemma join32 x y :
  0 <= y < 2 ^ 32 -> Z.lor (u64 (Z.shiftl x 32)) y = (x mod 2 ^ 32) * 2 ^ 32 + y.
Proof.
  intros Hy. assert (E : u64 (Z.shiftl x 32) = Z.shiftl (x mod 2 ^ 32) 32).
  { unfold u64. rewrite !Z.shiftl_mul_pow2 by lia. change (2 ^ 64) with (2 ^ 32 * 2 ^ 32).
    by rewrite Z.mul_mod_distr_r by lia. }
  rewrite E. by apply lor_shiftl_add.
Qed.


(** The integer cases of [sqlite3VdbeSerialGet] read two's complement. *)
Lemma serialGet_1 b0 rest : is_u8 b0 -> sqlite3VdbeSerialGet (b0 :: rest) 1 = Some (1, Int (signed 1 (be_val [b0]))).
Proof. intros _. reflexivity. Qed.

Lemma serialGet_2 b0 b1 rest : is_u8 b0 -> is_u8 b1 ->
  sqlite3VdbeSerialGet (b0 :: b1 :: rest) 2 = Some (2, Int (signed 2 (be_val [b0; b1]))).
Proof.
  unfold is_u8. intros H0 H1. transitivity (Some (2, Int (Z.lor (Z.shiftl (i8 b0) 8) b1))); [reflexivity|].
  rewrite lor_shiftl_add by lia. unfold signed, be_val, i8. simpl. do 3 f_equal. dlia.
Qed.

Lemma serialGet_3 b0 b1 b2 rest : is_u8 b0 -> is_u8 b1 -> is_u8 b2 ->
  sqlite3VdbeSerialGet (b0 :: b1 :: b2 :: rest) 3 = Some (3, Int (signed 3 (be_val [b0; b1; b2]))).
Proof.
  unfold is_u8. intros H0 H1 H2.
  transitivity (Some (3, Int (Z.lor (Z.lor (Z.shiftl (i8 b0) 16) (Z.shiftl b1 8)) b2))); [reflexivity|].
  rewrite <- Z.lor_assoc, (lor_shiftl_add b1 b2 8), (lor_shiftl_add _ _ 16) by lia.
  unfold signed, be_val, i8. simpl. do 3 f_equal. dlia.
Qed.

Lemma serialGet_4 b0 b1 b2 b3 rest : is_u8 b0 -> is_u8 b1 -> is_u8 b2 -> is_u8 b3 ->
  sqlite3VdbeSerialGet (b0 :: b1 :: b2 :: b3 :: rest) 4 = Some (4, Int (signed 4 (be_val [b0; b1; b2; b3]))).
Proof.
  intros H0 H1 H2 H3.
  transitivity (Some (4, Int (i32 (Z.lor (Z.lor (Z.lor (Z.shiftl b0 24) (Z.shiftl b1 16)) (Z.shiftl b2 8)) b3)))); [reflexivity|].
  by rewrite int4_spec.
Qed.

Lemma be_val_range l : Forall is_u8 l -> 0 <= be_val l < 256 ^ Z.of_nat (length l).
Proof.
  unfold be_val. induction l as [|b l IH] using rev_ind; intros Hl; [simpl; lia|].
  apply Forall_app in Hl as [Hl Hb]. apply Forall_cons in Hb as [Hb _]. specialize (IH Hl). unfold is_u8 in Hb.
  rewrite fold_left_app, length_app. cbn [fold_left length]. rewrite Nat2Z.inj_add.
  change (Z.of_nat 1) with 1. rewrite Z.pow_add_r by lia. lia.
Qed.

Lemma be_val_app a b : be_val (a ++ b) = be_val a * 256 ^ Z.of_nat (length b) + be_val b.
Proof.
  unfold be_val. rewrite fold_left_app. generalize (fold_left (fun a b => a * 256 + b) a 0). intros x.
  induction b as [|y b IH] using rev_ind; [simpl; lia|].
  rewrite !fold_left_app, IH, length_app. cbn [fold_left length]. rewrite Nat2Z.inj_add.
  change (Z.of_nat 1) with 1. rewrite Z.pow_add_r by lia. lia.
Qed.

Lemma serialGet_5 b0 b1 b2 b3 b4 b5 rest :
  Forall is_u8 [b0; b1; b2; b3; b4; b5] ->
  sqlite3VdbeSerialGet ([b0; b1; b2; b3; b4; b5] ++ rest) 5 = Some (6, Int (signed 6 (be_val [b0; b1; b2; b3; b4; b5]))).
Proof.
  intros Hb. assert (Hlow : Forall is_u8 [b2; b3; b4; b5]) by (rewrite !Forall_cons in *; tauto).
  pose proof (be_val_range _ Hlow) as Hr. change (256 ^ Z.of_nat (length [b2; b3; b4; b5])) with (2 ^ 32) in Hr.
  apply Forall_cons in Hb as [H0 Hb]. apply Forall_cons in Hb as [H1 Hb].
  repeat (apply Forall_cons in Hlow as [? Hlow]).
  transitivity (Some (6, Int (i64 (Z.lor (u64 (Z.shiftl (u64 (Z.lor (Z.shiftl (i8 b0) 8) b1)) 32))
    (u32 (i32 (Z.lor (Z.lor (Z.lor (Z.shiftl b2 24) (Z.shiftl b3 16)) (Z.shiftl b4 8)) b5))))))); [reflexivity|].
  rewrite int4_spec, u32_i32, (u32_small (be_val _)) by done. unfold is_u8 in *.
  rewrite (lor_shiftl_add (i8 b0) b1 8), join32 by lia.
  change [b0; b1; b2; b3; b4; b5] with ([b0; b1] ++ [b2; b3; b4; b5]). rewrite be_val_app.
  set (y := be_val [b2; b3; b4; b5]) in *. change (256 ^ Z.of_nat (length [b2; b3; b4; b5])) with (2 ^ 32).
  unfold be_val. cbn [fold_left]. unfold signed, i64, u64, i8. do 3 f_equal. dlia.
Qed.

Lemma serialGet_8 b0 b1 b2 b3 b4 b5 b6 b7 rest :
  Forall is_u8 [b0; b1; b2; b3; b4; b5; b6; b7] ->
  sqlite3VdbeSerialGet ([b0; b1; b2; b3; b4; b5; b6; b7] ++ rest) 6
    = Some (8, Int (i64 (be_val [b0; b1; b2; b3; b4; b5; b6; b7]))) /\
  sqlite3VdbeSerialGet ([b0; b1; b2; b3; b4; b5; b6; b7] ++ rest) 7
    = Some (8, if sqlite3IsNaN (be_val [b0; b1; b2; b3; b4; b5; b6; b7]) then Null
               else Real (be_val [b0; b1; b2; b3; b4; b5; b6; b7])).
Proof.
  intros Hb. assert (Hlow : Forall is_u8 [b4; b5; b6; b7]) by (rewrite !Forall_cons in *; tauto).
  assert (Hhigh : Forall is_u8 [b0; b1; b2; b3]) by (rewrite !Forall_cons in *; tauto).
  pose proof (be_val_range _ Hlow) as Hl. pose proof (be_val_range _ Hhigh) as Hh.
  change (256 ^ Z.of_nat (length [b4; b5; b6; b7])) with (2 ^ 32) in Hl.
  change (256 ^ Z.of_nat (length [b0; b1; b2; b3])) with (2 ^ 32) in Hh.
  repeat (apply Forall_cons in Hb as [? Hb]).
  assert (Hx : Z.lor (u64 (Z.shiftl (u64 (i32 (Z.lor (Z.lor (Z.lor (Z.shiftl b0 24) (Z.shiftl b1 16)) (Z.shiftl b2 8)) b3))) 32))
    (u32 (i32 (Z.lor (Z.lor (Z.lor (Z.shiftl b4 24) (Z.shiftl b5 16)) (Z.shiftl b6 8)) b7)))
    = be_val [b0; b1; b2; b3; b4; b5; b6; b7]).
  { rewrite !int4_spec by done. rewrite u32_i32, (u32_small (be_val _)) by done. rewrite join32 by lia.
    change [b0; b1; b2; b3; b4; b5; b6; b7] with ([b0; b1; b2; b3] ++ [b4; b5; b6; b7]). rewrite be_val_app.
    change (256 ^ Z.of_nat (length [b4; b5; b6; b7])) with (2 ^ 32). f_equal. f_equal. unfold u64, i32. dlia. }
  rewrite <- Hx. split; reflexivity.
Qed.

(** ** Serialized values *)

Definition value_ok (v : value) : Prop :=
  match v with
  | Null => True
  | Int i => is_i64 i
  | Real bits => is_u64 bits
  | Str z => Forall is_u8 z /\ Z.of_nat (length z) < 2 ^ 30
  | Blob z nZero =>
      Forall is_u8 z /\ (forall k, nZero = Some k -> 0 <= k) /\ Z.of_nat (length z) + default 0 nZero < 2 ^ 30
  end.

(** What is read back: a NaN is NULL, the zero tail of a blob is zero bytes. *)
Definition stored (v : value) : value :=
  match v with
  | Real bits => if sqlite3IsNaN bits then Null else v
  | Blob z (Some k) => Blob (z ++ replicate (Z.to_nat k) 0) None
  | _ => v
  end.

Lemma signed_put n i : 1 <= n <= 8 -> - 2 ^ (8 * n - 1) <= i < 2 ^ (8 * n - 1) -> signed n (u64 i mod 256 ^ n) = i.
Proof.
  intros Hn Hi. unfold signed, u64. assert (Hp : 256 ^ n = 2 ^ (8 * n)) by (change 256 with (2 ^ 8); by rewrite <- Z.pow_mul_r by lia).
  rewrite Hp. assert (Hdiv : (i mod 2 ^ 64) mod 2 ^ (8 * n) = i mod 2 ^ (8 * n)).
  { apply Z.mod_mod_divide. exists (2 ^ (64 - 8 * n)). rewrite <- Z.pow_add_r by lia. f_equal. lia. }
  rewrite Hdiv, Z.add_mod_idemp_l by lia.
  assert (H2 : 2 ^ (8 * n) = 2 * 2 ^ (8 * n - 1)) by (rewrite <- Z.pow_succ_r by lia; f_equal; lia).
  rewrite Z.mod_small; lia.
Qed.

Lemma put_int st i rest :
  1 <= st <= 6 -> let n := sqlite3VdbeSerialTypeLen st in - 2 ^ (8 * n - 1) <= i < 2 ^ (8 * n - 1) ->
  let bs := put_be (Z.to_nat n) (u64 i) in
  sqlite3VdbeSerialGet (bs ++ rest) st = Some (n, Int i) /\ Z.of_nat (length bs) = n /\ Forall is_u8 bs.
Proof.
  intros Hst n Hi bs. assert (Hn : 1 <= n <= 8).
  { assert (st = 1 \/ st = 2 \/ st = 3 \/ st = 4 \/ st = 5 \/ st = 6) as Hc by lia.
    destruct Hc as [->|[->|[->|[->|[->| ->]]]]]; cbv; done. }
  destruct (put_be_spec (Z.to_nat n) (u64 i)) as (Hl & Hu & Hb); [apply u64_range|]. fold bs in Hl, Hu, Hb.
  rewrite Z2Nat.id in Hb by lia. pose proof (signed_put n i Hn Hi) as Hs. rewrite <- Hb in Hs.
  split; [|split; [lia|done]]. clearbody bs. clear Hi Hb Hn.
  assert (Hcase : st = 1 \/ st = 2 \/ st = 3 \/ st = 4 \/ st = 5 \/ st = 6) by lia.
  destruct Hcase as [->|[->|[->|[->|[->| ->]]]]]; cbv in n; subst n;
    repeat (destruct bs as [|? bs]; [discriminate Hl|]); destruct bs; try discriminate Hl; clear Hl;
    cbn [app]; rewrite !Forall_cons in Hu; destruct_and!.
  - by rewrite serialGet_1, Hs.
  - by rewrite serialGet_2, Hs.
  - by rewrite serialGet_3, Hs.
  - by rewrite serialGet_4, Hs.
  - rewrite <- Hs. apply serialGet_5. by rewrite !Forall_cons.
  - rewrite <- Hs. apply serialGet_8. by rewrite !Forall_cons.
Qed.

Lemma serial_int i ff nBuf rest :
  is_i64 i ->
  let bs := sqlite3VdbeSerialPut nBuf (Int i) ff in let st := sqlite3VdbeSerialType (Int i) ff in
  sqlite3VdbeSerialGet (bs ++ rest) st = Some (Z.of_nat (length bs), Int i) /\
  Z.of_nat (length bs) = sqlite3VdbeSerialTypeLen st /\ Forall is_u8 bs /\ 0 < st < 10.
Proof.
  intros Hi. unfold is_i64 in Hi. cbv zeta. unfold sqlite3VdbeSerialPut. cbn [sqlite3VdbeSerialType].
  destruct ((4 <=? ff) && (Z.land i 1 =? i)) eqn:E.
  { zbool. assert (Hi01 : i = 0 \/ i = 1).
    { change 1 with (Z.ones 1) in H0. rewrite Z.land_ones in H0 by lia. change (2 ^ 1) with 2 in H0. dlia. }
    destruct Hi01 as [-> | ->]; (split_and!; [reflexivity|reflexivity|constructor|reflexivity|reflexivity]). }
  assert (Hu : u64 (if i <? 0 then - i else i) = Z.abs i).
  { unfold u64. rewrite Z.mod_small; [destruct (Z.ltb_spec i 0); lia|destruct (Z.ltb_spec i 0); lia]. }
  rewrite Hu. clear Hu E. change MAX_6BYTE with (2 ^ 47 - 1).
  assert (Hgo : forall st, 1 <= st <= 6 ->
    (let n := sqlite3VdbeSerialTypeLen st in - 2 ^ (8 * n - 1) <= i < 2 ^ (8 * n - 1)) ->
    let bs := if (st <=? 7) && (0 <? st) then put_be (Z.to_nat (sqlite3VdbeSerialTypeLen st)) (u64 i)
      else if 12 <=? st then [] else [] in
    sqlite3VdbeSerialGet (bs ++ rest) st = Some (Z.of_nat (length bs), Int i) /\
    Z.of_nat (length bs) = sqlite3VdbeSerialTypeLen st /\ Forall is_u8 bs /\ 0 < st < 10).
  { intros st Hst Hr. cbv zeta. rewrite (proj2 (Z.leb_le st 7)), (proj2 (Z.ltb_lt 0 st)) by lia. cbn [andb].
    destruct (put_int st i rest Hst Hr) as (-> & Hl & Hu). rewrite Hl. split_and!; try done; lia. }
  destruct (Z.leb_spec (Z.abs i) 127); [apply (Hgo 1); [lia|cbv -[Z.le Z.lt]; lia]|].
  destruct (Z.leb_spec (Z.abs i) 32767); [apply (Hgo 2); [lia|cbv -[Z.le Z.lt]; lia]|].
  destruct (Z.leb_spec (Z.abs i) 8388607); [apply (Hgo 3); [lia|cbv -[Z.le Z.lt]; lia]|].
  destruct (Z.leb_spec (Z.abs i) 2147483647); [apply (Hgo 4); [lia|cbv -[Z.le Z.lt]; lia]|].
  destruct (Z.leb_spec (Z.abs i) (2 ^ 47 - 1)); [apply (Hgo 5); [lia|cbv -[Z.le Z.lt]; lia]|].
  apply (Hgo 6); [lia|cbv -[Z.le Z.lt]; lia].
Qed.

Lemma serialGet_default buf st :
  12 <= st -> sqlite3VdbeSerialGet buf st =
    if Z.of_nat (length buf) <? (st - 12) / 2 then None
    else Some ((st - 12) / 2, if truthy (Z.land st 0x01) then Str (take (Z.to_nat ((st - 12) / 2)) buf)
                              else Blob (take (Z.to_nat ((st - 12) / 2)) buf) None).
Proof.
  intros Hst. unfold sqlite3VdbeSerialGet.
  repeat match goal with |- context [st =? ?k] => rewrite (proj2 (Z.eqb_neq st k)) by lia end. done.
Qed.

Lemma serialGet_bytes z st rest :
  12 <= st -> (st - 12) / 2 = Z.of_nat (length z) ->
  sqlite3VdbeSerialGet (z ++ rest) st = Some (Z.of_nat (length z), if Z.odd st then Str z else Blob z None).
Proof.
  intros Hst Hn. rewrite serialGet_default, Hn by done. rewrite length_app.
  rewrite (proj2 (Z.ltb_ge _ _)) by lia. rewrite Nat2Z.id, take_app_length.
  replace (truthy (Z.land st 0x01)) with (Z.odd st); [done|].
  change 0x01 with (Z.ones 1). rewrite Z.land_ones by lia. change (2 ^ 1) with 2. rewrite Zmod_odd.
  by destruct (Z.odd st).
Qed.

(** A value written with room for it reads back as stored. *)
Lemma serial_value v ff nBuf rest :
  value_ok v -> let st := sqlite3VdbeSerialType v ff in sqlite3VdbeSerialTypeLen st <= nBuf ->
  let bs := sqlite3VdbeSerialPut nBuf v ff in
  sqlite3VdbeSerialGet (bs ++ rest) st = Some (Z.of_nat (length bs), stored v) /\
  Z.of_nat (length bs) = sqlite3VdbeSerialTypeLen st /\ Forall is_u8 bs /\ 0 <= st < 2 ^ 31 + 12.
Proof.
  intros Hok st Hbuf bs. destruct v as [|i|bits|z|z nz].
  - by split_and!.
  - destruct (serial_int i ff nBuf rest Hok) as (? & ? & ? & ?). split_and!; try done; unfold st; lia.
  - destruct (put_be_spec 8 bits) as (Hl & Hu & Hb); [apply Hok|]. change (256 ^ Z.of_nat 8) with (2 ^ 64) in Hb.
    rewrite Z.mod_small in Hb by apply Hok. change bs with (put_be 8 bits). rewrite Hl. split; [|split_and!; try done].
    destruct (put_be 8 bits) as [|b0 [|b1 [|b2 [|b3 [|b4 [|b5 [|b6 [|b7 [|? ?]]]]]]]]] eqn:E; try discriminate Hl.
    change st with 7. rewrite (proj2 (serialGet_8 b0 b1 b2 b3 b4 b5 b6 b7 rest Hu)), Hb. done.
  - destruct Hok as [Hz Hlen]. assert (Hst : st = Z.of_nat (length z) * 2 + 13).
    { unfold st. cbn [sqlite3VdbeSerialType]. rewrite u32_small; unfold is_u32; lia. }
    assert (Hbs : bs = z) by (unfold bs, sqlite3VdbeSerialPut; fold st; rewrite Hst;
      rewrite (proj2 (Z.leb_gt _ 7)), (proj2 (Z.leb_le 12 _)) by lia; done).
    rewrite Hbs. assert (Hh : (st - 12) / 2 = Z.of_nat (length z)) by dlia.
    split; [rewrite serialGet_bytes by (done || lia)|].
    + replace (Z.odd st) with true; [done|]. rewrite Hst. replace (Z.of_nat (length z) * 2 + 13) with (2 * (Z.of_nat (length z) + 6) + 1) by lia.
      by rewrite Z.odd_add, Z.odd_mul.
    + unfold sqlite3VdbeSerialTypeLen. rewrite (proj2 (Z.leb_le 12 st)) by lia. split_and!; try done; lia.
  - destruct Hok as (Hz & Hk & Hlen). set (k := default 0 nz) in *.
    assert (Hk0 : 0 <= k) by (unfold k; destruct nz; [by apply Hk|done]).
    assert (Hst : st = (Z.of_nat (length z) + k) * 2 + 12).
    { unfold st. cbn [sqlite3VdbeSerialType]. fold k. rewrite u32_small; unfold is_u32; lia. }
    assert (Hh : (st - 12) / 2 = Z.of_nat (length z) + k) by dlia.
    assert (Htl : sqlite3VdbeSerialTypeLen st = Z.of_nat (length z) + k)
      by (unfold sqlite3VdbeSerialTypeLen; by rewrite (proj2 (Z.leb_le 12 st)) by lia).
    assert (Hbs : bs = z ++ replicate (Z.to_nat k) 0).
    { unfold bs, sqlite3VdbeSerialPut. fold st. rewrite (proj2 (Z.leb_gt st 7)), (proj2 (Z.leb_le 12 st)) by lia. cbn [andb].
      destruct nz as [k'|]; cbn [default] in k; subst k; [|by rewrite app_nil_r].
      rewrite (proj2 (Z.ltb_ge nBuf (Z.of_nat (length z) + k'))) by (simpl in *; lia). do 3 f_equal. simpl. lia. }
    rewrite Hbs. assert (Hl : Z.of_nat (length (z ++ replicate (Z.to_nat k) 0)) = Z.of_nat (length z) + k)
      by (rewrite length_app, length_replicate; lia).
    split; [rewrite serialGet_bytes by lia|].
    + replace (Z.odd st) with false; [destruct nz as [k'|]; simpl; [done|by rewrite app_nil_r]|].
      rewrite Hst. replace ((Z.of_nat (length z) + k) * 2 + 12) with (2 * (Z.of_nat (length z) + k + 6)) by lia. by rewrite Z.odd_mul.
    + rewrite Hl. split_and!; try lia. apply Forall_app. split; [done|]. apply Forall_replicate. unfold is_u8. lia.
Qed.

(** ** Records *)

Section records.
Variable ff : Z.   (* the file format *)

Definition st_of (v : value) : Z := sqlite3VdbeSerialType v ff.
Definition len_of (v : value) : Z := sqlite3VdbeSerialTypeLen (st_of v).

(** The complete data of a value, zero tail included. *)
Definition full_data (v : value) : list Z := sqlite3VdbeSerialPut (len_of v) v ff.

Definition data_size (vs : list value) : Z := fold_right (fun v n => len_of v + n) 0 vs.
Definition types_size (vs : list value) : Z := fold_right (fun v n => sqlite3VarintLen (st_of v) + n) 0 vs.

Definition zero_blob (v : value) : bool := match v with Blob _ (Some _) => true | _ => false end.

(** Fields after which the zeros at the end of the record still count. *)
Definition skippable (v : value) : bool := zero_blob v || negb (truthy (len_of v)).

Fixpoint zeros (vs : list value) (z : Z) : Z :=
  match vs with
  | [] => z
  | v :: vs =>
      zeros vs (match v with Blob _ (Some k) => z + k | _ => if truthy (len_of v) then 0 else z end)
  end.

(** The count of zeros stays an int: no run of zero-filled blobs, counted from the last field with data, has 2^31
    bytes or more. *)
Fixpoint zeros_fit (vs : list value) (z : Z) : bool :=
  match vs with
  | [] => true
  | v :: vs =>
      let z := match v with Blob _ (Some k) => z + k | _ => if truthy (len_of v) then 0 else z end in
      (z <? 2 ^ 31) && zeros_fit vs z
  end.

Lemma add_int_Some a b : 0 <= a -> 0 <= b -> add_int a b = if a + b <? 2 ^ 31 then Some (a + b) else None.
Proof. intros Ha Hb. unfold add_int. by rewrite (proj2 (Z.leb_le _ _)) by lia. Qed.

(** The sizes of one field. *)
Lemma field_sizes v : value_ok v -> 0 <= len_of v < 2 ^ 31 /\ 1 <= sqlite3VarintLen (st_of v) <= 5 /\ (forall z k, v = Blob z (Some k) -> 0 <= k).
Proof.
  intros Hv. destruct (serial_value v ff (len_of v) [] Hv) as (_ & Hl & _ & Hst); [unfold len_of, st_of; lia|].
  destruct (putVarint32_spec (sqlite3VdbeSerialType v ff)) as (t & _ & _ & Hlen & Hr & _); [unfold is_u32; lia|]. fold (st_of v) in *. fold (len_of v) in *.
  split_and!; [lia| |lia|lia|by intros z k E; subst v; apply Hv]. unfold len_of, sqlite3VdbeSerialTypeLen. destruct (Z.leb_spec 12 (st_of v)) as [H|H]; [dlia|].
  assert (Hn : (Z.to_nat (st_of v) < 12)%nat) by lia. revert Hn. generalize (Z.to_nat (st_of v)). clear. intros n Hn. do 12 (destruct n as [|n]; [done|]). lia.
Qed.

Lemma data_size_bound vs : Forall value_ok vs -> 0 <= data_size vs <= 2 ^ 31 * Z.of_nat (length vs).
Proof.
  induction 1 as [|v vs Hv _ IH]; [done|]. cbn [data_size fold_right length]. fold (data_size vs). destruct (field_sizes v Hv) as (Hl & _). lia.
Qed.

Lemma types_size_bound vs : Forall value_ok vs -> 0 <= types_size vs <= 5 * Z.of_nat (length vs).
Proof.
  induction 1 as [|v vs Hv _ IH]; [done|]. cbn [types_size fold_right length]. fold (types_size vs). destruct (field_sizes v Hv) as (_ & Hl & _). lia.
Qed.

Lemma record_sizes_spec vs : Forall value_ok vs -> forall a b z,
  0 <= a -> a + data_size vs < 2 ^ 64 -> 0 <= b -> b + types_size vs < 2 ^ 31 -> 0 <= z < 2 ^ 31 ->
  record_sizes ff vs a b z = if zeros_fit vs z then Some (a + data_size vs, b + types_size vs, zeros vs z) else None.
Proof.
  induction 1 as [|v vs Hv Hvs IH]; intros a b z Ha Ha' Hb Hb' Hz; cbn [record_sizes data_size types_size fold_right zeros zeros_fit] in *; [by rewrite !Z.add_0_r|].
  fold (data_size vs) in *. fold (types_size vs) in *. fold (st_of v). fold (len_of v). destruct (field_sizes v Hv) as (Hl & Ht & Hk).
  pose proof (types_size_bound vs Hvs) as Hts. pose proof (data_size_bound vs Hvs) as Hds.
  rewrite (add_int_Some b) by lia. rewrite (proj2 (Z.ltb_lt _ _)) by lia. cbn [mbind option_bind]. rewrite u64_small by (unfold is_u64; lia).
  set (z' := match v with Blob _ (Some k) => z + k | _ => _ end).
  assert (Hz' : 0 <= z') by (unfold z'; destruct v as [| | | |z0 [k|]]; try (case_bool; lia); specialize (Hk z0 k eq_refl); lia).
  assert (Hadd : match v with Blob _ (Some k) => add_int z k | _ => Some (if truthy (len_of v) then 0 else z) end = if z' <? 2 ^ 31 then Some z' else None).
  { unfold z'. destruct v as [| | | |z0 [k|]]; try (rewrite (proj2 (Z.ltb_lt _ _)); [done|case_bool; lia]). apply add_int_Some; [lia|]. by apply (Hk z0). }
  rewrite Hadd. destruct (Z.ltb_spec z' (2 ^ 31)); cbn [mbind option_bind andb]; [|done]. rewrite IH by lia. by rewrite !Z.add_assoc.
Qed.

(** After [expand], a blob with a zero tail has no other bytes. *)
Definition expanded (v : value) : Prop := value_ok v /\ match v with Blob z (Some _) => z = [] | _ => True end.

Lemma len_nonneg v : value_ok v -> 0 <= len_of v.
Proof.
  intros Hv. destruct (serial_value v ff (len_of v) [] Hv) as (_ & Hl & _); [unfold len_of, st_of; lia|].
  unfold len_of, st_of in *. lia.
Qed.

Lemma zero_blob_len k : value_ok (Blob [] (Some k)) -> len_of (Blob [] (Some k)) = k /\ 0 <= k.
Proof.
  intros (_ & Hk & Hl). specialize (Hk k eq_refl). split; [|done]. unfold len_of, st_of. cbn [sqlite3VdbeSerialType length from_option id] in *.
  change (Z.of_nat 0) with 0 in *. rewrite u32_small by (unfold is_u32; lia).
  unfold sqlite3VdbeSerialTypeLen. rewrite (proj2 (Z.leb_le 12 _)) by lia. dlia.
Qed.

Lemma zeros_acc vs : Forall expanded vs -> forall z,
  zeros vs z = if forallb skippable vs then z + data_size vs else zeros vs 0.
Proof.
  induction 1 as [|v vs [Hv He] _ IH]; intros z; cbn [zeros forallb data_size fold_right]; [lia|].
  fold (data_size vs). destruct v as [|i|bits|z0|z0 [k|]]; unfold skippable at 1; cbn [zero_blob orb].
  5: { subst z0. destruct (zero_blob_len k Hv) as [-> Hk0]. cbn [andb]. rewrite IH. rewrite (IH (0 + k)). destruct (forallb skippable vs); lia. }
  all: destruct (truthy (len_of _)) eqn:E; cbn [negb andb]; [done|]; rewrite IH; unfold truthy in E;
    apply negb_false_iff, Z.eqb_eq in E; rewrite E; destruct (forallb skippable vs); lia.
Qed.

Lemma zeros_bound vs : Forall expanded vs -> 0 <= zeros vs 0 <= data_size vs.
Proof.
  induction 1 as [|v vs [Hv He] Hvs IH]; cbn [zeros data_size fold_right]; [lia|]. fold (data_size vs).
  pose proof (len_nonneg v Hv). rewrite (zeros_acc vs Hvs).
  destruct v as [|i|bits|z0|z0 [k|]].
  5: { subst z0. destruct (zero_blob_len k Hv) as [-> Hk0]. destruct (forallb skippable vs); lia. }
  all: destruct (truthy (len_of _)); destruct (forallb skippable vs); lia.
Qed.

(** The room only matters for a blob with a zero tail. *)
Lemma put_room v nBuf : zero_blob v = false -> sqlite3VdbeSerialPut nBuf v ff = full_data v.
Proof. intros H. unfold full_data, sqlite3VdbeSerialPut. by destruct v as [| | | |? []]. Qed.

Lemma put_zero_blob k nBuf : value_ok (Blob [] (Some k)) -> 0 <= nBuf ->
  sqlite3VdbeSerialPut nBuf (Blob [] (Some k)) ff = replicate (Z.to_nat (Z.min nBuf k)) 0.
Proof.
  intros Hok Hb. destruct (zero_blob_len k Hok) as [Hl Hk]. unfold sqlite3VdbeSerialPut. destruct Hok as (_ & _ & Hlt).
  cbn [sqlite3VdbeSerialType]. cbn [length from_option id] in *. change (Z.of_nat 0) with 0 in *.
  rewrite u32_small by (unfold is_u32; lia). rewrite (proj2 (Z.leb_gt _ 7)), (proj2 (Z.leb_le 12 _)) by lia. cbn [andb app].
  f_equal. f_equal. case_bool; zbool; lia.
Qed.

Lemma data_length v : value_ok v -> Z.of_nat (length (full_data v)) = len_of v /\ Forall is_u8 (full_data v).
Proof.
  intros Hv. destruct (serial_value v ff (len_of v) [] Hv) as (_ & Hl & Hu & _); [unfold len_of, st_of; lia|]. done.
Qed.

Lemma skip_data vs i : Forall expanded vs -> forallb skippable vs = true ->
  put_data ff i i vs = [] /\ concat (map full_data vs) = replicate (Z.to_nat (data_size vs)) 0.
Proof.
  intros Hvs. induction Hvs as [|v vs [Hv He] Hvs IH]; intros Hs; [done|]. cbn [forallb] in Hs.
  apply andb_prop in Hs as [Hv0 Hs]. destruct (IH Hs) as [IH1 IH2]. cbn [put_data map concat data_size fold_right].
  fold (data_size vs). rewrite Z.sub_diag. pose proof (zeros_bound vs Hvs). pose proof (len_nonneg v Hv) as Hl0. unfold skippable in Hv0.
  destruct (zero_blob v) eqn:Ez; cbn [orb] in Hv0.
  - destruct v as [| | | |z0 [k|]]; try done. subst z0. destruct (zero_blob_len k Hv) as [Hl Hk].
    unfold full_data at 1. rewrite !put_zero_blob by (done || lia). rewrite Hl, Z.min_l, Z.min_id by lia. change (Z.to_nat 0) with 0%nat.
    cbn [replicate app length]. change (Z.of_nat 0) with 0. rewrite Z.add_0_r, IH1, IH2. split; [done|].
    rewrite <- replicate_add. f_equal. lia.
  - rewrite put_room by done. destruct (data_length v Hv) as [Hl _]. unfold truthy in Hv0. rewrite negb_involutive in Hv0.
    apply Z.eqb_eq in Hv0. rewrite Hv0 in *. assert (full_data v = []) as -> by (apply length_zero_iff_nil; lia).
    simpl. rewrite Z.add_0_r. done.
Qed.

(** The data written, followed by the zeros left out, is the complete data. *)
Lemma put_data_spec vs : Forall expanded vs -> forall i,
  put_data ff (i + data_size vs - zeros vs 0) i vs ++ replicate (Z.to_nat (zeros vs 0)) 0 = concat (map full_data vs).
Proof.
  induction 1 as [|v vs [Hv He] Hvs IH]; intros i; [done|]. cbn [put_data map concat data_size fold_right zeros].
  fold (data_size vs). pose proof (zeros_bound vs Hvs) as Hz. destruct (zero_blob v) eqn:Ez.
  - destruct v as [| | | |z0 [k|]]; try done. subst z0. destruct (zero_blob_len k Hv) as [Hl Hk]. rewrite Hl.
    rewrite (zeros_acc vs Hvs (0 + k)). destruct (forallb skippable vs) eqn:Es.
    + destruct (skip_data vs i Hvs Es) as [H1 H2]. replace (i + (k + data_size vs) - (0 + k + data_size vs)) with i by lia.
      rewrite Z.sub_diag, put_zero_blob, Z.min_l by (done || lia). change (Z.to_nat 0) with 0%nat. cbn [replicate app length].
      change (Z.of_nat 0) with 0. rewrite Z.add_0_r, H1, H2. unfold full_data. rewrite put_zero_blob by (done || lia).
      rewrite Hl, Z.min_id, <- replicate_add. cbn [app]. f_equal. lia.
    + replace (i + (k + data_size vs) - zeros vs 0 - i) with (k + (data_size vs - zeros vs 0)) by lia.
      rewrite put_zero_blob, Z.min_r by (done || lia). rewrite length_replicate, <- app_assoc.
      unfold full_data at 1. rewrite put_zero_blob, Hl, Z.min_id by (done || lia). f_equal.
      rewrite <- (IH (i + k)). do 2 f_equal; lia.
  - rewrite put_room by done. destruct (data_length v Hv) as [Hl _]. rewrite <- app_assoc. f_equal. rewrite Hl.
    replace (zeros vs _) with (zeros vs 0); [rewrite <- (IH (i + len_of v)); do 2 f_equal; lia|].
    destruct v as [| | | |z0 [k|]]; try done; by destruct (truthy (len_of _)).
Qed.

Lemma put_types_spec vs :
  Forall value_ok vs ->
  exists ts, put_types ff vs = Some ts /\ Z.of_nat (length ts) = types_size vs /\ Forall is_u8 ts /\ (length vs <= length ts)%nat.
Proof.
  induction 1 as [|v vs Hv Hvs (ts & E & Hl & Hu & Hn)]; [by exists []|]. cbn [put_types types_size fold_right]. fold (types_size vs).
  destruct (serial_value v ff (len_of v) [] Hv) as (_ & _ & _ & Hst); [unfold len_of, st_of; lia|].
  destruct (putVarint32_spec (sqlite3VdbeSerialType v ff)) as (t & -> & Ht & Hlen & Hr & _); [unfold is_u32; lia|].
  rewrite E. simpl. eexists. split; [done|]. rewrite length_app. fold (st_of v) in Hlen. rewrite Hlen, <- Hl. split_and!; [lia|by apply Forall_app|simpl; lia].
Qed.

(** Reading the fields back, from the position of their types and their data. *)
Lemma unpack_loop_spec vs : Forall value_ok vs -> forall fuel aKey szHdr idx d ts X Y,
  Z.of_nat (length aKey) < 2 ^ 31 -> Forall is_u8 aKey -> put_types ff vs = Some ts -> 0 <= idx -> 0 <= d <= Z.of_nat (length aKey) ->
  drop (Z.to_nat idx) aKey = ts ++ X -> drop (Z.to_nat d) aKey = concat (map full_data vs) ++ Y ->
  szHdr = idx + Z.of_nat (length ts) -> (length vs <= fuel)%nat ->
  unpack_loop fuel aKey szHdr idx d = Some (map stored vs).
Proof.
  induction 1 as [|v vs Hv Hvs IH]; intros fuel aKey szHdr idx d ts X Y Hint Hk Ets Hi Hd Hti Hdi Hsz Hf.
  { injection Ets as <-. simpl in Hsz. destruct fuel; [done|]. cbn [unpack_loop]. by rewrite (proj2 (Z.ltb_ge idx szHdr)) by lia. }
  destruct fuel as [|fuel]; [simpl in Hf; lia|]. cbn [unpack_loop put_types] in *.
  destruct (serial_value v ff (len_of v) (concat (map full_data vs) ++ Y) Hv) as (Hget & Hlen & Hu & Hst); [unfold len_of, st_of; lia|].
  fold (full_data v) in *. destruct (putVarint32_spec (sqlite3VdbeSerialType v ff)) as (t & Et & Ht & Htl & Hr & Hgv); [unfold is_u32; lia|].
  rewrite Et in Ets. cbn [mbind option_bind] in Ets. destruct (put_types ff vs) as [ts'|]; [|done]. injection Ets as <-.
  rewrite length_app in Hsz. rewrite (proj2 (Z.ltb_lt idx szHdr)), (proj2 (Z.leb_le d _)) by lia. cbn [andb].
  rewrite <- app_assoc in Hti. rewrite Hti, Hgv.
  2: { assert (Hx : Forall is_u8 (drop (Z.to_nat idx) aKey)) by (by apply Forall_drop). rewrite Hti in Hx. by apply Forall_app in Hx as [_ Hx]. }
  cbn [mbind option_bind]. rewrite (proj2 (Z.ltb_ge d 0)) by lia. cbn [map concat] in Hdi. rewrite <- app_assoc in Hdi. rewrite Hdi, Hget. cbn [mbind option_bind].
  assert (Hbound : (length (full_data v) <= length aKey - Z.to_nat d)%nat).
  { rewrite <- length_drop, Hdi, length_app. lia. }
  assert (Hidx : (length t <= length aKey - Z.to_nat idx)%nat) by (rewrite <- length_drop, Hti, length_app; lia).
  rewrite u32_small, i32_small by (unfold is_u32, is_i32; lia).
  rewrite (IH fuel aKey szHdr (idx + Z.of_nat (length t)) (d + Z.of_nat (length (full_data v))) ts' X Y); try done; try lia.
  - replace (Z.to_nat (idx + Z.of_nat (length t))) with (Z.to_nat idx + length t)%nat by lia.
    by rewrite <- drop_drop, Hti, drop_app_length.
  - replace (Z.to_nat (d + Z.of_nat (length (full_data v)))) with (Z.to_nat d + length (full_data v))%nat by lia.
    by rewrite <- drop_drop, Hdi, drop_app_length.
  - simpl in Hf. lia.
Qed.
End records.

Lemma varintLen_steps v : 0 <= v < 2 ^ 32 ->
  sqlite3VarintLen v = if v <? 2 ^ 7 then 1 else if v <? 2 ^ 14 then 2 else if v <? 2 ^ 21 then 3 else if v <? 2 ^ 28 then 4 else 5.
Proof.
  intros Hv. unfold sqlite3VarintLen. cbn [varintLen_loop]. rewrite !Z.shiftr_shiftr by lia. rewrite !Z.shiftr_div_pow2 by lia.
  change (7 + 7) with 14. change (14 + 7) with 21. change (21 + 7) with 28. change (28 + 7) with 35. cbn [Z.add Z.ltb Z.compare Pos.compare Pos.compare_cont Pos.add Pos.succ].
  repeat (match goal with |- context [v / 2 ^ ?k =? 0] =>
    let E := fresh in assert (E : (v / 2 ^ k =? 0) = (v <? 2 ^ k)) by
      (destruct (Z.ltb_spec v (2 ^ k)); [apply Z.eqb_eq, Z.div_small; lia|apply Z.eqb_neq; pose proof (Z.div_str_pos v (2 ^ k)); lia]);
    rewrite E; clear E end).
  repeat (case_bool; cbn [negb andb]; try (zbool; lia)); done.
Qed.

(** The header size counts its own bytes. *)
Lemma header_size h0 : 0 <= h0 < 2 ^ 31 ->
  let n := sqlite3VarintLen h0 in let h := h0 + n in let h' := if n <? sqlite3VarintLen h then h + 1 else h in
  0 <= h' < 2 ^ 32 /\ h' = h0 + sqlite3VarintLen h'.
Proof.
  intros Hh. cbv zeta.
  assert (Hr : forall v, 0 <= v < 2 ^ 32 -> 1 <= sqlite3VarintLen v <= 5)
    by (intros v Hv; rewrite varintLen_steps by done; repeat case_bool; lia).
  pose proof (Hr h0 ltac:(lia)) as H0. pose proof (varintLen_steps h0 ltac:(lia)) as E0. set (n := sqlite3VarintLen h0) in *.
  pose proof (Hr (h0 + n) ltac:(lia)) as H1. pose proof (varintLen_steps (h0 + n) ltac:(lia)) as E1. set (n1 := sqlite3VarintLen (h0 + n)) in *.
  pose proof (varintLen_steps (h0 + n + 1) ltac:(lia)) as E2. set (n2 := sqlite3VarintLen (h0 + n + 1)) in *.
  destruct (Z.ltb_spec n n1); (split; [lia|]); [fold n2|fold n1]; clearbody n n1 n2; clear Hr;
    repeat case_bool; zbool; lia.
Qed.

Lemma expand_ok v : value_ok v -> expanded (expand v) /\ stored (expand v) = stored v.
Proof.
  destruct v as [|i|bits|z|z [k|]]; cbn [expand]; try (intros Hv; exact (conj (conj Hv I) eq_refl)). intros Hv. pose proof Hv as (Hz & Hk & Hl).
  specialize (Hk k eq_refl). cbn [from_option id] in Hl. destruct (Z.ltb_spec 0 (Z.of_nat (length z))) as [H|H].
  - split; [|done]. split; [|done]. cbn [value_ok from_option id]. split_and!; [|done|rewrite length_app, length_replicate; lia].
    apply Forall_app. split; [done|]. apply Forall_replicate. unfold is_u8. lia.
  - assert (z = []) as -> by (apply length_zero_iff_nil; lia). exact (conj (conj Hv eq_refl) eq_refl).
Qed.

(** The record made from [fields], with the zeros left out of it put back. *)
Lemma make_record_spec ff limit fields :
  Forall value_ok fields -> Z.of_nat (length fields) < 2 ^ 28 ->
  (zeros_fit ff (map expand fields) 0 = false -> OP_MakeRecord ff limit fields = None) /\
  exists h ts, put_types ff (map expand fields) = Some ts /\ Forall is_u8 h /\
    (forall rest, Forall is_u8 rest -> getVarint32 (h ++ rest) = Some (Z.of_nat (length h), Z.of_nat (length h + length ts))) /\
    let full := h ++ ts ++ concat (map (full_data ff) (map expand fields)) in
    let nZero := zeros ff (map expand fields) 0 in
    0 <= nZero <= Z.of_nat (length full) /\
    exists bytes, bytes ++ replicate (Z.to_nat nZero) 0 = full /\
      (zeros_fit ff (map expand fields) 0 = true -> OP_MakeRecord ff limit fields = Some (if limit <? Z.of_nat (length bytes) then TooBig else Made bytes nZero)).
Proof.
  intros Hf Hn. set (vs := map expand fields).
  assert (Hvs : Forall expanded vs) by (unfold vs; apply Forall_map; eapply Forall_impl; [exact Hf|]; intros v Hv; by apply expand_ok).
  assert (Hok : Forall value_ok vs) by (eapply Forall_impl; [exact Hvs|]; by intros v [? _]).
  destruct (put_types_spec ff vs Hok) as (ts & Ets & Hts & Htu & _). pose proof (types_size_bound ff vs Hok) as Hb.
  assert (Hlvs : length vs = length fields) by (unfold vs; by rewrite length_map).
  pose proof (zeros_bound ff vs Hvs) as Hz.
  destruct (header_size (types_size ff vs)) as [Hh1 Hh2]; [lia|]. cbv zeta in Hh1, Hh2.
  set (nHdr := if _ <? _ then _ else _) in Hh1, Hh2. pose proof (data_size_bound ff vs Hok) as Hdb.
  assert (Hv5 : 1 <= sqlite3VarintLen (types_size ff vs) <= 5) by (rewrite varintLen_steps by lia; repeat case_bool; lia).
  assert (HnH : nHdr < 2 ^ 31 /\ nHdr = types_size ff vs + sqlite3VarintLen (types_size ff vs) + (if sqlite3VarintLen (types_size ff vs) <? sqlite3VarintLen (types_size ff vs + sqlite3VarintLen (types_size ff vs)) then 1 else 0))
    by (unfold nHdr; case_bool; lia).
  pose proof (record_sizes_spec ff vs Hok 0 0 0 ltac:(lia) ltac:(lia) ltac:(lia) ltac:(lia) ltac:(lia)) as Hsz. rewrite !Z.add_0_l in Hsz.
  split; [intros Hzf; unfold OP_MakeRecord; fold vs; by rewrite Hsz, Hzf|].
  destruct (putVarint32_spec nHdr Hh1) as (h & Eh & Hhu & Hhl & _ & Hgv).
  assert (HnHdr : nHdr = Z.of_nat (length h + length ts)) by lia.
  exists h, ts. split; [done|]. split; [done|]. split; [intros rest Hr; rewrite Hgv by done; by rewrite HnHdr|].
  cbv zeta. pose proof (put_data_spec ff vs Hvs (Z.of_nat (length h + length ts))) as Hpd.
  set (data := put_data ff _ _ vs) in Hpd.
  assert (Hlen : Z.of_nat (length (concat (map (full_data ff) vs))) = data_size ff vs).
  { clear -Hok. induction Hok as [|v vs Hv _ IH]; [done|]. cbn [map concat data_size fold_right]. fold (data_size ff vs).
    rewrite length_app. destruct (data_length ff v Hv) as [Hl _]. lia. }
  assert (Hdl : Z.of_nat (length data) = data_size ff vs - zeros ff vs 0).
  { apply (f_equal length) in Hpd. rewrite length_app, length_replicate in Hpd. lia. }
  split; [rewrite !length_app; lia|]. exists (h ++ ts ++ data). split; [by rewrite <- !app_assoc, Hpd|].
  intros Hzf. unfold OP_MakeRecord. fold vs. rewrite Hsz, Hzf. cbn [mbind option_bind].
  rewrite add_int_Some, (proj2 (Z.ltb_lt _ _)) by lia. cbn [mbind option_bind].
  rewrite add_int_Some by (try case_bool; lia). destruct HnH as [HnH <-]. rewrite (proj2 (Z.ltb_lt _ _)) by lia. cbn [mbind option_bind].
  assert (HnB : nHdr + data_size ff vs - zeros ff vs 0 = Z.of_nat (length (h ++ ts ++ data))) by (rewrite !length_app; lia).
  rewrite HnB, i64_small by (unfold is_i64; lia). destruct (limit <? _); [done|]. rewrite Eh. cbn [mbind option_bind]. rewrite Ets. cbn [mbind option_bind].
  rewrite <- HnB, HnHdr. done.
Qed.

Lemma full_data_bytes ff vs : Forall value_ok vs -> Forall is_u8 (concat (map (full_data ff) vs)).
Proof. induction 1 as [|v vs Hv _ IH]; [constructor|]. cbn [map concat]. apply Forall_app. split; [by apply data_length|done]. Qed.

Lemma map_stored_expand fields : Forall value_ok fields -> map stored (map expand fields) = map stored fields.
Proof. induction 1 as [|v vs Hv _ IH]; [done|]. simpl. rewrite IH. by rewrite (proj2 (expand_ok v Hv)). Qed.

(** Every value (of any 64-bit integer, any double, text or blob up to 2^30
    bytes), written by [sqlite3VdbeSerialPut] under its serial type, is read back
    by [sqlite3VdbeSerialGet] as the same value, from exactly the number of bytes
    its serial type stands for; a NaN comes back as NULL, and a zero-filled tail
    as zero bytes. *)
Theorem serial_value_roundtrip v ff nBuf rest :
  value_ok v -> sqlite3VdbeSerialTypeLen (sqlite3VdbeSerialType v ff) <= nBuf ->
  let bs := sqlite3VdbeSerialPut nBuf v ff in
  sqlite3VdbeSerialGet (bs ++ rest) (sqlite3VdbeSerialType v ff) = Some (Z.of_nat (length bs), stored v) /\
  Z.of_nat (length bs) = sqlite3VdbeSerialTypeLen (sqlite3VdbeSerialType v ff).
Proof. intros Hv Hb. by destruct (serial_value v ff nBuf rest Hv Hb) as (? & ? & _). Qed.

Lemma serial_value_roundtrip_witness :
  sqlite3VdbeSerialGet (sqlite3VdbeSerialPut 8 (Int (-129)) 4 ++ [7]) 2 = Some (2, Int (-129)).
Proof. apply (serial_value_roundtrip (Int (-129)) 4 8 [7]); [unfold value_ok, is_i64; lia|vm_compute; discriminate]. Defined.



(** Zero-filled blobs of 10^9 bytes are within the default limit on the length of a value; the third makes [nZero] overflow. *)
Lemma record_zeros_overflow : value_ok (Blob [] (Some 1000000000)) /\
  OP_MakeRecord 4 1000000000 (replicate 3 (Blob [] (Some 1000000000))) = None.
Proof. split; [split_and!; [constructor|intros k [= <-]; lia|simpl; lia]|vm_compute; reflexivity]. Qed.

(** ** Comparing records *)

(** The order the comparison should follow: field by field, descending fields
    inverted; when the fields of [bs] are used up and [xs] has more, [xs] is
    larger unless the key says otherwise. *)
Fixpoint lex (r : UnpackedRecord) (i : Z) (xs bs : list value) : Z :=
  match xs, bs with
  | x :: xs, b :: bs =>
      let rc := sqlite3MemCompare x b (coll (pKeyInfo r) i) in
      if rc =? 0 then lex r (i + 1) xs bs else if desc (pKeyInfo r) i then - rc else rc
  | _, _ =>
      if flag r UNPACKED_INCRKEY then -1
      else if flag r UNPACKED_PREFIX_MATCH then 0
      else match xs with [] => 0 | _ :: _ => 1 end
  end.

Lemma compare_loop_spec ff r vs : Forall value_ok vs -> flag r UNPACKED_PREFIX_SEARCH = false ->
  forall mems i aKey szHdr idx d ts X Y,
  Z.of_nat (length aKey) < 2 ^ 31 -> Forall is_u8 aKey -> put_types ff vs = Some ts -> 0 <= idx -> 0 <= d <= Z.of_nat (length aKey) ->
  drop (Z.to_nat idx) aKey = ts ++ X -> drop (Z.to_nat d) aKey = concat (map (full_data ff) vs) ++ Y ->
  szHdr = idx + Z.of_nat (length ts) ->
  exists res, compare_loop r mems i aKey szHdr idx d = Some res /\
    match res with
    | inl (rc, found) => found = None /\ rc = lex r i (map stored vs) mems
    | inr idx1 => lex r i (map stored vs) mems =
        if flag r UNPACKED_INCRKEY then -1 else if flag r UNPACKED_PREFIX_MATCH then 0 else if idx1 <? szHdr then 1 else 0
    end.
Proof.
  intros Hvs Hps. induction Hvs as [|v vs Hv Hvs IH]; intros mems i aKey szHdr idx d ts X Y Hint Hk Ets Hi Hd Hti Hdi Hsz.
  { injection Ets as <-. simpl in Hsz. exists (inr idx). cbn [map lex]. rewrite (proj2 (Z.ltb_ge idx szHdr)) by lia.
    destruct mems; cbn [compare_loop]; [done|]. by rewrite (proj2 (Z.ltb_ge idx szHdr)) by lia. }
  cbn [put_types] in Ets.
  destruct (serial_value v ff (len_of ff v) (concat (map (full_data ff) vs) ++ Y) Hv) as (Hget & Hlen & Hu & Hst); [unfold len_of, st_of; lia|].
  fold (full_data ff v) in *. destruct (putVarint32_spec (sqlite3VdbeSerialType v ff)) as (t & Et & Ht & Htl & Hr & Hgv); [unfold is_u32; lia|].
  rewrite Et in Ets. cbn [mbind option_bind] in Ets. destruct (put_types ff vs) as [ts'|]; [|done]. injection Ets as <-.
  rewrite length_app in Hsz. cbn [map lex]. destruct mems as [|m mems]; cbn [compare_loop].
  { exists (inr idx). by rewrite (proj2 (Z.ltb_lt idx szHdr)) by lia. }
  rewrite (proj2 (Z.ltb_lt idx szHdr)) by lia. rewrite <- app_assoc in Hti. rewrite Hti, Hgv.
  2: { assert (Hx : Forall is_u8 (drop (Z.to_nat idx) aKey)) by (by apply Forall_drop). rewrite Hti in Hx. by apply Forall_app in Hx as [_ Hx]. }
  cbn [mbind option_bind]. cbn [map concat] in Hdi. rewrite <- app_assoc in Hdi.
  assert (Hbound : (length (full_data ff v) <= length aKey - Z.to_nat d)%nat) by (rewrite <- length_drop, Hdi, length_app; lia).
  replace ((Z.of_nat (length aKey) <=? d) && (0 <? sqlite3VdbeSerialTypeLen (sqlite3VdbeSerialType v ff))) with false.
  2: { symmetry. apply andb_false_iff. rewrite Z.leb_gt, Z.ltb_ge. lia. }
  assert (Hidx : (length t <= length aKey - Z.to_nat idx)%nat) by (rewrite <- length_drop, Hti, length_app; lia).
  rewrite (proj2 (Z.ltb_ge d 0)) by lia. rewrite Hdi, Hget. cbn [mbind option_bind]. rewrite u32_small, i32_small by (unfold is_u32, is_i32; lia). destruct (Z.eqb_spec (sqlite3MemCompare (stored v) m (coll (pKeyInfo r) i)) 0) as [E|E]; cbn [negb].
  - apply (IH mems (i + 1) aKey szHdr (idx + Z.of_nat (length t)) (d + Z.of_nat (length (full_data ff v))) ts' X Y); try done; try lia.
    + replace (Z.to_nat (idx + Z.of_nat (length t))) with (Z.to_nat idx + length t)%nat by lia.
      by rewrite <- drop_drop, Hti, drop_app_length.
    + replace (Z.to_nat (d + Z.of_nat (length (full_data ff v)))) with (Z.to_nat d + length (full_data ff v))%nat by lia.
      by rewrite <- drop_drop, Hdi, drop_app_length.
  - rewrite Hps. cbn [andb]. eexists. split; [done|]. done.
Qed.

(** Comparing a record made by OP_MakeRecord with an unpacked key gives the
    field-by-field order: the first field that differs decides, under its
    collating sequence and inverted when it is sorted descending; if none does,
    the UNPACKED_INCRKEY and UNPACKED_PREFIX_MATCH flags of the key break the tie,
    and otherwise a record with more fields than the key is larger. *)
Theorem record_compare_is_lexicographic ff fields bytes nZero limit r :
  Forall value_ok fields -> Z.of_nat (length fields) < 2 ^ 28 ->
  OP_MakeRecord ff limit fields = Some (Made bytes nZero) -> Z.of_nat (length bytes) + nZero < 2 ^ 31 ->
  flag r UNPACKED_PREFIX_SEARCH = false -> flag r UNPACKED_IGNORE_ROWID = false ->
  sqlite3VdbeRecordCompare (bytes ++ replicate (Z.to_nat nZero) 0) r = Some (lex r 0 (map stored fields) (aMem r), r).
Proof.
  intros Hf Hn E Hint Hps Hir. destruct (make_record_spec ff limit fields Hf Hn) as (Hover & h & ts & Ets & Hhu & Hgv & Hz & bytes' & Hfull & E').
  destruct (zeros_fit ff (map expand fields) 0); [specialize (E' eq_refl)|by rewrite Hover in E].
  rewrite E in E'. destruct (limit <? Z.of_nat (length bytes')); [done|]. injection E' as <- ->. pose proof (f_equal length Hfull) as Hfl. rewrite length_app, length_replicate, !length_app in Hfl. rewrite Hfull.
  assert (Hok : Forall value_ok (map expand fields))
    by (apply Forall_map; eapply Forall_impl; [exact Hf|]; intros v Hv; by apply expand_ok).
  assert (Hdu : Forall is_u8 (concat (map (full_data ff) (map expand fields)))) by (by apply full_data_bytes).
  destruct (put_types_spec ff _ Hok) as (ts' & Ets' & _ & Htu & _). rewrite Ets in Ets'. injection Ets' as <-.
  unfold sqlite3VdbeRecordCompare. rewrite Hgv by (by apply Forall_app). cbn [mbind option_bind]. rewrite Hir, i32_small by (unfold is_i32; lia).
  destruct (compare_loop_spec ff r (map expand fields) Hok Hps (aMem r) 0 (h ++ ts ++ concat (map (full_data ff) (map expand fields)))
    (Z.of_nat (length h + length ts)) (Z.of_nat (length h)) (Z.of_nat (length h + length ts)) ts
    (concat (map (full_data ff) (map expand fields))) []) as (res & -> & Hres); try done; try lia.
  - rewrite !length_app. lia.
  - apply Forall_app. split; [done|]. by apply Forall_app.
  - rewrite !length_app. lia.
  - rewrite Nat2Z.id. by rewrite drop_app_length.
  - rewrite Nat2Z.id, app_nil_r, app_assoc, drop_app_length' by (by rewrite length_app). done.
  - cbn [mbind option_bind]. rewrite map_stored_expand in Hres by done. destruct res as [[rc found]|idx1].
    + by destruct Hres as [-> ->].
    + by rewrite Hres.
Qed.

Lemma record_compare_is_lexicographic_witness :
  let r := {| pKeyInfo := {| nField := 2; aColl := [None; None]; aSortOrder := Some [false; true] |};
              flags := 0; rowid := 0; aMem := [Int 7; Str [98]] |} in
  sqlite3VdbeRecordCompare ([3; 1; 15; 7; 97] ++ replicate (Z.to_nat 0) 0) r = Some (1, r).
Proof.
  cbv zeta. apply (record_compare_is_lexicographic 4 [Int 7; Str [97]] [3; 1; 15; 7; 97] 0 1000).
  - repeat constructor; simpl; unfold is_i64, is_u8; lia.
  - simpl. lia.
  - vm_compute. reflexivity.
  - simpl. lia.
  - vm_compute. reflexivity.
  - vm_compute. reflexivity.
Defined.

(** Numbers are not sorted numerically as the comment on [sqlite3MemCompare]
    says: an integer is compared with a real after conversion to a double, so
    that two different integers are both equal to one real and the comparison is
    not transitive. *)
Theorem memcompare_not_transitive :
  let a := Int (2 ^ 53) in let b := Int (2 ^ 53 + 1) in let x := Real 0x4340000000000000 in
  value_ok a /\ value_ok b /\ value_ok x /\ double_value 0x4340000000000000 = 2 ^ 53 * 2 ^ 1074 /\
  sqlite3MemCompare b x None = 0 /\ sqlite3MemCompare x a None = 0 /\ sqlite3MemCompare b a None = 1.
Proof. cbv zeta. unfold value_ok, is_i64, is_u64. split_and!; try lia; vm_compute; reflexivity. Qed.
