(* ===== verification/WalIndex.v ===== *)
(** * WalIndex: the hash index of the write-ahead log

    Models the wal-index part of wal.c in [src/whip-server/sqlite/sqlite3.c]: the
    layout of the 32KB wal-index pages, [walIndexPage], [walHashGet],
    [walFramePage], [walFramePgno], [walCleanupHash], [walIndexAppend],
    [walIndexWriteHdr], the page search of [sqlite3WalRead], and the rollback
    operations [sqlite3WalUndo], [sqlite3WalSavepoint] and
    [sqlite3WalSavepointUndo].

    A wal-index page is 4096 32-bit words followed by 8192 16-bit hash slots.
    The pointer [aPgno] that [walHashGet] computes is modelled by the index [off]
    of its element 0 in the words of the page ([-1] except on page 0).
    [None] is an access outside the mapped page or through a null page pointer.
    The machine is little-endian with 64-bit pointers and a 64-bit [size_t].
    What the virtual file system and the allocator answer is a parameter:
    [realloc_ok] (does [sqlite3_realloc] of so many bytes succeed) and [xShmMap]
    (the result code and the mapped page, if any). *)
From S2P Require Import Prelude Probe.
From stdpp Require Import list.
#[local] Open Scope Z_scope.

(** ** Layout *)

Definition HASHTABLE_NPAGE : Z := 4096.
Definition HASHTABLE_HASH_1 : Z := 383.
Definition HASHTABLE_NSLOT : Z := HASHTABLE_NPAGE * 2.
Definition SQLITE_SHM_NLOCK : Z := 8.
Definition WAL_NREADER : Z := SQLITE_SHM_NLOCK - 3.
(** [sizeof(WalIndexHdr)] and [sizeof(WalCkptInfo)]. *)
Definition szWalIndexHdr : Z := 48.
Definition szWalCkptInfo : Z := 4 + 4 * WAL_NREADER.
Definition WALINDEX_LOCK_OFFSET : Z := szWalIndexHdr * 2 + szWalCkptInfo.
Definition WALINDEX_LOCK_RESERVED : Z := 16.
Definition WALINDEX_HDR_SIZE : Z := WALINDEX_LOCK_OFFSET + WALINDEX_LOCK_RESERVED.
Definition HASHTABLE_NPAGE_ONE : Z := HASHTABLE_NPAGE - WALINDEX_HDR_SIZE / 4.
Definition WALINDEX_MAX_VERSION : Z := 3007000.

(** ** Data *)

(** The header of the wal-index; the checksums and the salt are pairs of 32-bit words. *)
Record WalIndexHdr := mkHdr {
  iVersion : Z;
  unused : Z;
  iChange : Z;
  isInit : Z;
  bigEndCksum : Z;
  hszPage : Z;
  mxFrame : Z;
  nPage : Z;
  aFrameCksum : Z * Z;
  aSalt : Z * Z;
  aCksum : Z * Z
}.

Record WiPage := mkPage { words : list Z; aHash : list Z }.

Record Wal := mkWal {
  apWiData : list (option WiPage);
  wszPage : Z;
  readLock : Z;
  writeLock : bool;
  hdr : WalIndexHdr;
  nCkpt : Z;
  iCallback : Z
}.

Definition set_pages (w : Wal) (ps : list (option WiPage)) : Wal :=
  mkWal ps (wszPage w) (readLock w) (writeLock w) (hdr w) (nCkpt w) (iCallback w).
Definition set_hdr (w : Wal) (h : WalIndexHdr) : Wal :=
  mkWal (apWiData w) (wszPage w) (readLock w) (writeLock w) h (nCkpt w) (iCallback w).
Definition set_callback (w : Wal) (f : Z) : Wal :=
  mkWal (apWiData w) (wszPage w) (readLock w) (writeLock w) (hdr w) (nCkpt w) f.

Definition set_frame (h : WalIndexHdr) (mx : Z) (ck : Z * Z) : WalIndexHdr :=
  mkHdr (iVersion h) (unused h) (iChange h) (isInit h) (bigEndCksum h) (hszPage h) mx (nPage h) ck (aSalt h) (aCksum h).

(** The twelve 32-bit words of the header in memory. *)
Definition hdr_words (h : WalIndexHdr) : list Z :=
  [iVersion h; unused h; iChange h; isInit h + 2 ^ 8 * bigEndCksum h + 2 ^ 16 * hszPage h; mxFrame h; nPage h;
   (aFrameCksum h).1; (aFrameCksum h).2; (aSalt h).1; (aSalt h).2; (aCksum h).1; (aCksum h).2].

Definition hdr_of_words (l : list Z) : option WalIndexHdr :=
  match l with
  | [v; u; c; x; mx; np; f1; f2; s1; s2; k1; k2] =>
      Some (mkHdr v u c (x mod 2 ^ 8) (x / 2 ^ 8 mod 2 ^ 8) (x / 2 ^ 16) mx np (f1, f2) (s1, s2) (k1, k2))
  | _ => None
  end.

(** ** Hashing and frame arithmetic *)

Definition walHash (iPage : Z) : Z := Z.land (u32 (iPage * HASHTABLE_HASH_1)) (HASHTABLE_NSLOT - 1).
Definition walNextHash (iPriorHash : Z) : Z := Z.land (iPriorHash + 1) (HASHTABLE_NSLOT - 1).

Definition walFramePage (iFrame : Z) : Z :=
  i32 (u64 (u32 (iFrame + HASHTABLE_NPAGE) - HASHTABLE_NPAGE_ONE - 1) / HASHTABLE_NPAGE).

(** The page a pointer of [apWiData] points to, and the page after a change. *)
Definition wi_get (w : Wal) (i : Z) : option WiPage := mjoin (rd (apWiData w) i).
Definition wi_set (w : Wal) (i : Z) (pg : WiPage) : option Wal :=
  ps ← wr (apWiData w) i (Some pg); Some (set_pages w ps).

Definition walFramePgno (w : Wal) (iFrame : Z) : option Z :=
  let iHash := walFramePage iFrame in
  if iHash =? 0 then pg ← wi_get w 0; rd (words pg) (WALINDEX_HDR_SIZE / 4 + iFrame - 1)
  else pg ← wi_get w iHash; rd (words pg) (u64 (u32 (iFrame - 1) - HASHTABLE_NPAGE_ONE) mod HASHTABLE_NPAGE).

Section env.
Context (realloc_ok : Z -> bool) (xShmMap : Z -> Z * option WiPage).

Definition walIndexPage (w : Wal) (iPage : Z) : Z * Wal :=
  let nWiData := Z.of_nat (length (apWiData w)) in
  if (nWiData <=? iPage) && negb (realloc_ok (8 * (iPage + 1))) then (SQLITE_NOMEM, w)
  else
    let w := if nWiData <=? iPage
             then set_pages w (apWiData w ++ replicate (Z.to_nat (iPage + 1 - nWiData)) None) else w in
    match wi_get w iPage with
    | Some _ => (SQLITE_OK, w)
    | None =>
        let '(rc, pg) := xShmMap iPage in
        (rc, set_pages w (<[Z.to_nat iPage := pg]> (apWiData w)))
    end.

(** [walHashGet]: the result code, and where [aPgno[0]] is and which frame it stands for. *)
Definition hash_off (iHash : Z) : Z := if iHash =? 0 then WALINDEX_HDR_SIZE / 4 - 1 else -1.
Definition hash_zero (iHash : Z) : Z :=
  if iHash =? 0 then 0 else u32 (HASHTABLE_NPAGE_ONE + (iHash - 1) * HASHTABLE_NPAGE).

Definition walHashGet (w : Wal) (iHash : Z) : Z * Wal * (Z * Z) :=
  let '(rc, w) := walIndexPage w iHash in
  (rc, w, (hash_off iHash, hash_zero iHash)).

(** [memset(&aPgno[k], 0, ...)] up to the hash table. *)
Definition zero_words (ws : list Z) (from : Z) : option (list Z) :=
  if (from <? 0) || (HASHTABLE_NPAGE <? from) then None
  else Some (take (Z.to_nat from) ws ++ replicate (Z.to_nat (HASHTABLE_NPAGE - from)) 0).

Definition cleanup_page (pg : WiPage) (off iLimit : Z) : option WiPage :=
  ws ← zero_words (words pg) (off + (iLimit + 1));
  Some (mkPage ws (map (fun s => if iLimit <? s then 0 else s) (aHash pg))).

Definition walCleanupHash (w : Wal) : option Wal :=
  if mxFrame (hdr w) =? 0 then Some w
  else
    let iHash := walFramePage (mxFrame (hdr w)) in
    let '(rc, w, (off, iZero)) := walHashGet w iHash in
    pg ← wi_get w iHash;
    pg ← cleanup_page pg off (i32 (mxFrame (hdr w) - iZero));
    wi_set w iHash pg.

(** The probe of [walIndexAppend]: the empty slot, or [None] for [SQLITE_CORRUPT]. *)
Fixpoint append_probe (nCollide : nat) (aHash : list Z) (iKey : Z) : option (option Z) :=
  s ← rd aHash iKey;
  if truthy s then
    match nCollide with
    | O => Some None
    | S nCollide => append_probe nCollide aHash (walNextHash iKey)
    end
  else Some (Some iKey).

Definition walIndexAppend (w : Wal) (iFrame iPage : Z) : option (Z * Wal) :=
  let iHash := walFramePage iFrame in
  let '(rc, w, (off, iZero)) := walHashGet w iHash in
  if negb (rc =? SQLITE_OK) then Some (rc, w)
  else
    let idx := i32 (iFrame - iZero) in
    w ← (if idx =? 1 then
           pg ← wi_get w iHash;
           ws ← zero_words (words pg) (off + 1);
           wi_set w iHash (mkPage ws (replicate (Z.to_nat HASHTABLE_NSLOT) 0))
         else Some w);
    pg ← wi_get w iHash;
    old ← rd (words pg) (off + idx);
    w ← (if truthy old then walCleanupHash w else Some w);
    pg ← wi_get w iHash;
    k ← append_probe (Z.to_nat idx) (aHash pg) (walHash iPage);
    match k with
    | None => Some (SQLITE_CORRUPT, w)
    | Some iKey =>
        ws ← wr (words pg) (off + idx) iPage;
        h ← wr (aHash pg) iKey (u16 idx);
        w ← wi_set w iHash (mkPage ws h);
        Some (SQLITE_OK, w)
    end.

(** ** Reading a page *)

(** The inner loop of [sqlite3WalRead] over one hash table; [None] inside is [SQLITE_CORRUPT]. *)
Fixpoint read_probe (nCollide : nat) (pg : WiPage) (off iZero iLast pgno iKey iRead : Z) : option (option Z) :=
  s ← rd (aHash pg) iKey;
  if truthy s then
    let iFrame := u32 (s + iZero) in
    iRead ← (if iFrame <=? iLast then
               p ← rd (words pg) (off + s); Some (if p =? pgno then iFrame else iRead)
             else Some iRead);
    match nCollide with
    | O => Some None
    | S nCollide => read_probe nCollide pg off iZero iLast pgno (walNextHash iKey) iRead
    end
  else Some (Some iRead).

(** The outer loop, from the last hash table ([n - 1]) down to the first. *)
Fixpoint read_tables (n : nat) (w : Wal) (iLast pgno iRead : Z) : option (Z * Wal * Z) :=
  match n with
  | O => Some (SQLITE_OK, w, iRead)
  | S n =>
      if negb (iRead =? 0) then Some (SQLITE_OK, w, iRead)
      else
        let iHash := Z.of_nat n in
        let '(rc, w, (off, iZero)) := walHashGet w iHash in
        if negb (rc =? SQLITE_OK) then Some (rc, w, iRead)
        else
          pg ← wi_get w iHash;
          r ← read_probe (Z.to_nat HASHTABLE_NSLOT) pg off iZero iLast pgno (walHash pgno) iRead;
          match r with
          | None => Some (SQLITE_CORRUPT, w, iRead)
          | Some iRead => read_tables n w iLast pgno iRead
          end
  end.

Definition WAL_FRAME_HDRSIZE : Z := 24.
Definition WAL_HDRSIZE : Z := 32.
Definition walFrameOffset (iFrame szPage : Z) : Z :=
  WAL_HDRSIZE + u32 (iFrame - 1) * i64 (szPage + WAL_FRAME_HDRSIZE).

(** [sqlite3WalRead]: the result code, [*pInWal] and [pOut]; [xRead off n] is what
    [sqlite3OsRead] answers for the log file. *)
Definition sqlite3WalRead (xRead : Z -> Z -> Z * list Z) (w : Wal) (pgno nOut : Z)
  : option (Z * Wal * (option Z * list Z)) :=
  let iLast := mxFrame (hdr w) in
  if (iLast =? 0) || (readLock w =? 0) then Some (SQLITE_OK, w, (Some 0, []))
  else
    '(rc, w, iRead) ← read_tables (Z.to_nat (walFramePage iLast + 1)) w iLast pgno 0;
    if negb (rc =? SQLITE_OK) then Some (rc, w, (None, []))
    else if negb (iRead =? 0) then
      let iOffset := walFrameOffset iRead (hszPage (hdr w)) + WAL_FRAME_HDRSIZE in
      let '(rc, out) := xRead iOffset nOut in Some (rc, w, (Some 1, out))
    else Some (SQLITE_OK, w, (Some 0, [])).

(** ** Header and rollback *)

(** The checksum loop of [walChecksumBytes] on native words. *)
Fixpoint cksum_words (l : list Z) (s : Z * Z) : Z * Z :=
  match l with
  | x :: y :: l =>
      let s1 := u32 (s.1 + (x + s.2)) in
      let s2 := u32 (s.2 + (y + s1)) in
      cksum_words l (s1, s2)
  | _ => s
  end.

Definition overwrite_words (ws : list Z) (at_ : nat) (l : list Z) : list Z := take at_ ws ++ l ++ drop (at_ + length l) ws.

(** The header that [walIndexWriteHdr] writes: marked as initialised, versioned and checksummed. *)
Definition stamp_hdr (h : WalIndexHdr) : WalIndexHdr :=
  let h := mkHdr WALINDEX_MAX_VERSION (unused h) (iChange h) 1 (bigEndCksum h) (hszPage h) (mxFrame h) (nPage h)
                 (aFrameCksum h) (aSalt h) (aCksum h) in
  mkHdr (iVersion h) (unused h) (iChange h) (isInit h) (bigEndCksum h) (hszPage h) (mxFrame h) (nPage h)
        (aFrameCksum h) (aSalt h) (cksum_words (take 10 (hdr_words h)) (0, 0)).

Definition walIndexWriteHdr (w : Wal) : option Wal :=
  let h := stamp_hdr (hdr w) in
  pg ← wi_get w 0;
  wi_set (set_hdr w h) 0 (mkPage (overwrite_words (overwrite_words (words pg) 12 (hdr_words h)) 0 (hdr_words h)) (aHash pg)).

(** [sqlite3WalUndo]: [xUndo] is called with the page of each discarded frame; the
    model returns those pages, in order, beside the result code. *)
Fixpoint undo_frames (n : nat) (w : Wal) (iFrame : Z) (xUndo : Z -> Z) : option (Z * list Z) :=
  match n with
  | O => Some (SQLITE_OK, [])
  | S n =>
      p ← walFramePgno w iFrame;
      let rc := xUndo p in
      if rc =? SQLITE_OK then '(rc, l) ← undo_frames n w (iFrame + 1) xUndo; Some (rc, p :: l)
      else Some (rc, [p])
  end.

Definition sqlite3WalUndo (w : Wal) (xUndo : Z -> Z) : option (Z * list Z * Wal) :=
  if writeLock w then
    let iMax := mxFrame (hdr w) in
    pg ← wi_get w 0;
    h ← hdr_of_words (take 12 (words pg));
    let w := set_hdr w h in
    '(rc, l) ← undo_frames (Z.to_nat (iMax - mxFrame h)) w (mxFrame h + 1) xUndo;
    w ← walCleanupHash w;
    Some (rc, l, w)
  else Some (SQLITE_OK, [], w).

(** [aWalData]: [mxFrame], the two checksum words and [nCkpt]. *)
Definition WalData : Type := Z * (Z * Z) * Z.

Definition sqlite3WalSavepoint (w : Wal) : WalData := (mxFrame (hdr w), aFrameCksum (hdr w), nCkpt w).

Definition sqlite3WalSavepointUndo (w : Wal) (d : WalData) : option (Z * Wal * WalData) :=
  let '(mx, ck, nc) := d in
  let '(mx, nc) := if negb (nc =? nCkpt w) then (0, nCkpt w) else (mx, nc) in
  if mx <? mxFrame (hdr w) then
    w ← walCleanupHash (set_hdr w (set_frame (hdr w) mx ck));
    Some (SQLITE_OK, w, (mx, ck, nc))
  else Some (SQLITE_OK, w, (mx, ck, nc)).
(** The end of [sqlite3WalFrames]: the frames of the dirty pages, then [nLast] more
    copies of the last one, are entered in the index; the header follows when all of
    them are in. *)
Fixpoint append_all (w : Wal) (iFrame : Z) (ps : list Z) : option (Z * Wal * Z) :=
  match ps with
  | [] => Some (SQLITE_OK, w, iFrame)
  | p :: ps =>
      '(rc, w) ← walIndexAppend w (iFrame + 1) p;
      if rc =? SQLITE_OK then append_all w (iFrame + 1) ps else Some (rc, w, iFrame + 1)
  end.

Definition frames_index (w : Wal) (pgnos : list Z) (nLast : nat) (isCommit : bool) (nTruncate szPage : Z) : option (Z * Wal) :=
  '(rc, w, iFrame) ← append_all w (mxFrame (hdr w)) (pgnos ++ replicate nLast (List.last pgnos 0));
  if negb (rc =? SQLITE_OK) then Some (rc, w)
  else
    let h := hdr w in
    let h := mkHdr (iVersion h) (unused h) (if isCommit then u32 (iChange h + 1) else iChange h) (isInit h) (bigEndCksum h)
                   (u16 szPage) iFrame (if isCommit then nTruncate else nPage h) (aFrameCksum h) (aSalt h) (aCksum h) in
    let w := set_hdr w h in
    if isCommit then w ← walIndexWriteHdr w; Some (rc, set_callback w iFrame) else Some (rc, w).

(** [sqlite3WalCallback]: the frames at the last commit since the previous call, or 0. *)
Definition sqlite3WalCallback (w : Wal) : Z * Wal := (i32 (iCallback w), set_callback w 0).
End env.

(** ** The hash tables *)

#[local] Arguments Z.to_nat : simpl never.
#[local] Arguments replicate : simpl never.
#[local] Arguments HASHTABLE_NSLOT : simpl never.
#[local] Notation NS := 8192.
#[local] Notation at_ := (slot NS).
#[local] Notation filled := (filled NS).

Lemma NS_pos : 0 < NS. Proof. done. Qed.
#[local] Hint Resolve NS_pos : core.

Lemma walHash_mod p : walHash p = (u32 (p * 383)) mod NS.
Proof. unfold walHash. exact (Z.land_ones _ 13 ltac:(lia)). Qed.

Lemma walHash_range p : 0 <= walHash p < NS.
Proof. rewrite walHash_mod. by apply Z.mod_pos_bound. Qed.

Lemma walNextHash_mod h : walNextHash (h mod NS) = (h + 1) mod NS.
Proof.
  unfold walNextHash. etransitivity; [exact (Z.land_ones _ 13 ltac:(lia))|]. change (2 ^ 13) with NS.
  by rewrite Z.add_mod_idemp_l.
Qed.

(** [ht t l]: the table [t] results from inserting the pages of [l] in order, entry
    [n] (counted from 1) at the first empty slot after the hash of its page. *)
Inductive ht : list Z -> list Z -> Prop :=
| ht_nil : ht (replicate (Z.to_nat NS) 0) []
| ht_snoc t l p k :
    ht t l -> Z.of_nat (length l) < 4096 -> 0 <= k < NS -> at_ t (walHash p + k) = 0 -> filled t (walHash p) k ->
    ht (<[Z.to_nat ((walHash p + k) mod NS) := Z.of_nat (length l) + 1]> t) (l ++ [p]).

Lemma ht_length t l : ht t l -> Z.of_nat (length t) = NS.
Proof. induction 1; [rewrite length_replicate; lia|by rewrite length_insert]. Qed.

Lemma ht_count t l : ht t l -> nzc t = Z.of_nat (length l).
Proof.
  induction 1 as [|t l p k H IH Hl Hk Hz Hf]; [apply nzc_zeros|].
  pose proof (rd_at NS NS_pos t (walHash p + k) (ht_length _ _ H)) as Hr. rewrite Hz in Hr. apply rd_Some in Hr as [_ Hr].
  rewrite nzc_insert, length_app by (done || lia). simpl. lia.
Qed.

(** The page of entry [v]. *)
Definition entry (l : list Z) (v : Z) : option Z := if v <=? 0 then None else l !! Z.to_nat (v - 1).

Lemma entry_snoc l p v : 1 <= v <= Z.of_nat (length l) -> entry (l ++ [p]) v = entry l v.
Proof. intros. unfold entry. rewrite lookup_app_l by lia. done. Qed.

Lemma entry_last l p : entry (l ++ [p]) (Z.of_nat (length l) + 1) = Some p.
Proof.
  unfold entry. rewrite (proj2 (Z.leb_gt _ _)) by lia. rewrite lookup_app_r by lia.
  by replace (Z.to_nat (Z.of_nat (length l) + 1 - 1) - length l)%nat with 0%nat by lia.
Qed.

Lemma ht_entry t l x : ht t l -> at_ t x <> 0 ->
  1 <= at_ t x <= Z.of_nat (length l) /\
  exists p k, entry l (at_ t x) = Some p /\ 0 <= k < NS /\ (walHash p + k) mod NS = x mod NS /\ filled t (walHash p) k.
Proof.
  induction 1 as [|t l p k H IH Hl Hk Hz Hf].
  { intros Hx. exfalso. apply Hx. unfold slot, rd. case_bool; [done|].
    destruct (replicate _ 0 !! _) eqn:E; [|done]. by apply lookup_replicate in E as [-> _]. }
  pose proof (ht_length _ _ H) as HN.
  assert (Hfill : forall h j, filled t h j ->
    filled (<[Z.to_nat ((walHash p + k) mod NS) := Z.of_nat (length l) + 1]> t) h j).
  { intros h j Hj i Hi. rewrite at_insert by done. case_decide; [lia|]. by apply Hj. }
  rewrite at_insert, length_app by done. simpl length. case_decide as E.
  - intros _. split; [lia|]. exists p, k. rewrite entry_last. split_and!; try done; try lia; by apply Hfill.
  - intros Hx. destruct (IH Hx) as (Hr & q & j & Hq & Hj & Em & Hfj). split; [lia|].
    exists q, j. rewrite entry_snoc by done. split_and!; try done; try lia; by apply Hfill.
Qed.

Lemma ht_has t l v : ht t l -> 1 <= v <= Z.of_nat (length l) -> exists x, at_ t x = v.
Proof.
  induction 1 as [|t l p k H IH Hl Hk Hz Hf]; [simpl; lia|]. rewrite length_app. simpl. intros Hv.
  pose proof (ht_length _ _ H) as HN. destruct (decide (v = Z.of_nat (length l) + 1)) as [->|Hne].
  - exists (walHash p + k). rewrite at_insert by done. by rewrite decide_True.
  - destruct IH as [x Hx]; [lia|]. exists x. rewrite at_insert by done. case_decide as E; [|done].
    exfalso. rewrite (at_congr NS t _ _ E), Hz in Hx. lia.
Qed.

(** Entries of one page stand in order of insertion along the probe sequence of the page. *)
Lemma ht_ordered t l : ht t l -> forall p j j', 0 <= j < j' -> j' < NS ->
  entry l (at_ t (walHash p + j)) = Some p -> entry l (at_ t (walHash p + j')) = Some p ->
  at_ t (walHash p + j) < at_ t (walHash p + j').
Proof.
  induction 1 as [|t l q k H IH Hl Hk Hz Hf]; [intros; unfold entry in *; by repeat case_bool|].
  intros p j j' Hj Hj'. pose proof (ht_length _ _ H) as HN. rewrite !at_insert by done.
  assert (Hsmall : forall x, at_ t x <> 0 -> at_ t x <= Z.of_nat (length l)) by (intros x Hx; by apply (ht_entry t l x)).
  assert (Hent : forall x r, entry (l ++ [q]) (at_ t x) = Some r -> at_ t x <> 0 /\ entry l (at_ t x) = Some r).
  { intros x r Hr. destruct (decide (at_ t x = 0)) as [E0|E0]; [by rewrite E0 in Hr|].
    pose proof (ht_entry t l x H E0) as [? _]. by rewrite entry_snoc in Hr. }
  destruct (decide ((walHash p + j) mod NS = _)) as [E|E], (decide ((walHash p + j') mod NS = _)) as [E'|E'].
  - exfalso. assert ((j' - j) mod NS = 0); [|rewrite Z.mod_small in *; lia].
    replace (j' - j) with ((walHash p + j') - (walHash p + j)) by lia. rewrite Zminus_mod, E, E', Z.sub_diag. done.
  - rewrite entry_last. intros [= ->] [Hx Hp]%Hent. exfalso.
    destruct (ht_entry t l _ H Hx) as (_ & p' & k' & Hp' & Hk' & Em & Hfk). rewrite Hp in Hp'. injection Hp' as <-.
    apply (Hfk j); [|by rewrite (at_congr NS t _ _ E)]. split; [lia|].
    assert ((k' - j') mod NS = 0) as Hd.
    { replace (k' - j') with ((walHash p + k') - (walHash p + j')) by lia. rewrite Zminus_mod, Em, Z.sub_diag. done. }
    apply Z.mod_divide in Hd as [c Hc]; [|lia]. lia.
  - intros [Hx Hp]%Hent _. specialize (Hsmall _ Hx). lia.
  - intros [Hx Hp]%Hent [Hx' Hp']%Hent. by apply IH.
Qed.

(** Removing the entries after [m] undoes their insertion. *)
Definition drop_slots (m : Z) (t : list Z) : list Z := map (fun s => if m <? s then 0 else s) t.

Lemma drop_slots_id m t l : ht t l -> Z.of_nat (length l) <= m -> drop_slots m t = t.
Proof.
  intros H Hm. unfold drop_slots. apply list_eq. intros i. rewrite list_lookup_fmap.
  destruct (t !! i) as [v|] eqn:E; [|done]. simpl. f_equal. case_bool; zbool; [|done].
  assert (at_ t (Z.of_nat i) = v) as Hv.
  { unfold slot. pose proof (lookup_lt_Some _ _ _ E). rewrite Z.mod_small by (rewrite <- (ht_length _ _ H); lia).
    by rewrite rd_nat, E. }
  destruct (decide (v = 0)); [done|]. destruct (ht_entry t l (Z.of_nat i) H) as [? _]; [by rewrite Hv|]. lia.
Qed.

Lemma ht_cleanup t l (m : nat) : ht t l -> ht (drop_slots (Z.of_nat m) t) (take m l).
Proof.
  induction 1 as [|t l p k H IH Hl Hk Hz Hf].
  { rewrite take_nil. rewrite (drop_slots_id _ _ []); [constructor|constructor|simpl; lia]. }
  destruct (decide (length l < m)%nat) as [Hm|Hm].
  { rewrite take_ge by (rewrite length_app; simpl; lia). rewrite (drop_slots_id _ _ (l ++ [p])); [|by constructor|].
    - by constructor.
    - rewrite length_app. simpl. lia. }
  rewrite take_app_le by lia.
  replace (drop_slots _ _) with (drop_slots (Z.of_nat m) t); [done|]. unfold drop_slots. symmetry.
  etransitivity; [apply (list_fmap_insert (fun s => if Z.of_nat m <? s then 0 else s))|].
  rewrite (proj2 (Z.ltb_lt _ _)) by lia. apply list_insert_id. rewrite list_lookup_fmap.
  pose proof (rd_at NS NS_pos t (walHash p + k) (ht_length _ _ H)) as Hr. rewrite Hz in Hr. apply rd_Some in Hr as [_ ->].
  simpl. by case_bool.
Qed.

(** The empty slot that ends the probe sequence of a page. *)
Lemma ht_free t l p : ht t l -> Z.of_nat (length l) <= 4096 ->
  exists k, 0 <= k <= Z.of_nat (length l) /\ at_ t (walHash p + k) = 0 /\ filled t (walHash p) k.
Proof.
  intros H Hl. pose proof (ht_length _ _ H) as HN. pose proof (ht_count _ _ H) as Hc.
  destruct (nzc_zero NS NS_pos t HN ltac:(lia)) as (x & _ & Hx).
  destruct (first_zero NS NS_pos t (walHash p) (ex_intro _ x Hx)) as (k & Hk & Hz & Hf).
  exists k. split; [|done]. pose proof (filled_le_nzc NS NS_pos t (walHash p) k HN ltac:(lia) Hf). lia.
Qed.

Lemma truthy_slot x : x <> 0 -> truthy x = true.
Proof. intros. unfold truthy. by rewrite (proj2 (Z.eqb_neq _ _)). Qed.

Lemma append_probe_spec t : Z.of_nat (length t) = NS -> forall n h k,
  0 <= k <= Z.of_nat n -> at_ t (h + k) = 0 -> filled t h k ->
  append_probe n t (h mod NS) = Some (Some ((h + k) mod NS)).
Proof.
  intros HN. induction n as [|n IH]; intros h k Hk Hz Hf; cbn [append_probe]; rewrite (rd_at NS) by done; simpl.
  - replace k with 0 in * by lia. rewrite Z.add_0_r in *. by rewrite Hz.
  - destruct (decide (k = 0)) as [->|Hk0]; [rewrite Z.add_0_r in *; by rewrite Hz|].
    pose proof (Hf 0 ltac:(lia)) as H0. rewrite Z.add_0_r in H0. rewrite truthy_slot by done.
    rewrite walNextHash_mod, (IH (h + 1) (k - 1)); [do 3 f_equal; lia|lia| |by apply filled_tail].
    by replace (h + 1 + (k - 1)) with (h + k) by lia.
Qed.

(** ** One page of the wal-index *)

Definition page_dims (pg : WiPage) : Prop := Z.of_nat (length (words pg)) = 4096 /\ Z.of_nat (length (aHash pg)) = NS.

(** The page, from word [off + 1] on, holds the pages of [l] and their hash table. *)
Definition page_rep (off : Z) (pg : WiPage) (l : list Z) : Prop :=
  page_dims pg /\ ht (aHash pg) l /\ Z.of_nat (length l) <= 4095 - off /\
  drop (Z.to_nat (off + 1)) (words pg) = l ++ replicate (Z.to_nat (4095 - off) - length l) 0.

(** Which entries of a segment [read_probe] accepts. *)
Definition hit (l : list Z) (iZero iLast pgno v : Z) : Prop := entry l v = Some pgno /\ v + iZero <= iLast.

Lemma page_word off pg l v : -1 <= off -> page_rep off pg l -> 1 <= v <= Z.of_nat (length l) -> rd (words pg) (off + v) = entry l v.
Proof.
  intros Hoff (_ & _ & Hl & Hd) Hv. unfold entry. rewrite (proj2 (Z.leb_gt _ _)) by lia.
  rewrite <- (lookup_app_l l (replicate (Z.to_nat (4095 - off) - length l) 0)) by lia. rewrite <- Hd, lookup_drop.
  unfold rd. rewrite (proj2 (Z.ltb_ge _ _)) by lia. f_equal. lia.
Qed.

Lemma read_probe_spec off pg l iZero iLast pgno : -1 <= off -> page_rep off pg l -> 0 <= iZero < 2 ^ 31 -> forall n h k iRead,
  0 <= k <= Z.of_nat n -> at_ (aHash pg) (h + k) = 0 -> filled (aHash pg) h k ->
  exists r, read_probe n pg off iZero iLast pgno (h mod NS) iRead = Some (Some r) /\
    ((r = iRead /\ forall j, 0 <= j < k -> ~ hit l iZero iLast pgno (at_ (aHash pg) (h + j))) \/
     exists j, 0 <= j < k /\ r = at_ (aHash pg) (h + j) + iZero /\ hit l iZero iLast pgno (at_ (aHash pg) (h + j)) /\
       forall j', j < j' < k -> ~ hit l iZero iLast pgno (at_ (aHash pg) (h + j'))).
Proof.
  intros Hoff Hrep HZ. pose proof Hrep as ((Hw & HN) & Hht & Hl & _).
  induction n as [|n IH]; intros h k iRead Hk Hz Hf; cbn [read_probe]; rewrite (rd_at NS) by done; simpl.
  { replace k with 0 in * by lia. rewrite Z.add_0_r in Hz. rewrite Hz. eexists. split; [done|]. left. split; [done|]. lia. }
  destruct (decide (k = 0)) as [->|Hk0].
  { rewrite Z.add_0_r in Hz. rewrite Hz. eexists. split; [done|]. left. split; [done|]. lia. }
  pose proof (Hf 0 ltac:(lia)) as H0. rewrite Z.add_0_r in H0. rewrite truthy_slot by done.
  destruct (ht_entry _ _ h Hht H0) as (Hr & q & _ & Hq & _).
  rewrite u32_small by (unfold is_u32; lia). set (v := at_ (aHash pg) h) in *.
  assert (Hstep : exists iRead', (if v + iZero <=? iLast
      then p ← rd (words pg) (off + v); Some (if p =? pgno then v + iZero else iRead) else Some iRead) = Some iRead' /\
    ((iRead' = iRead /\ ~ hit l iZero iLast pgno v) \/ (iRead' = v + iZero /\ hit l iZero iLast pgno v))).
  { unfold hit. case_bool; zbool; [|eexists; split; [done|left; split; [done|lia]]].
    rewrite (page_word off pg l v) by done. rewrite Hq. simpl. case_bool; zbool; eexists; (split; [done|]).
    - subst. right. done.
    - left. split; [done|]. intros [[= ?] _]. done. }
  destruct Hstep as (iRead' & -> & Hcase). simpl. rewrite walNextHash_mod.
  destruct (IH (h + 1) (k - 1) iRead') as (r & -> & Hr'); [lia|by replace (h + 1 + (k - 1)) with (h + k) by lia|by apply filled_tail|].
  exists r. split; [done|].
  assert (Hsh : forall j, h + 1 + j = h + (j + 1)) by (intros; lia).
  destruct Hr' as [[-> Hno]|(j & Hj & -> & Hhit & Hno)].
  - destruct Hcase as [[-> Hn]|[-> Hy]].
    + left. split; [done|]. intros j Hj. destruct (decide (j = 0)) as [->|]; [by rewrite Z.add_0_r|].
      replace (h + j) with (h + 1 + (j - 1)) by lia. apply Hno. lia.
    + right. exists 0. rewrite Z.add_0_r. split_and!; try done; try lia. intros j Hj.
      replace (h + j) with (h + 1 + (j - 1)) by lia. apply Hno. lia.
  - right. exists (j + 1). rewrite <- Hsh. split_and!; try done; try lia. intros j' Hj'.
    replace (h + j') with (h + 1 + (j' - 1)) by lia. apply Hno. lia.
Qed.

(** The search of one table returns the latest frame of the page, or leaves [iRead]. *)
Lemma read_page_spec off pg l iZero iLast pgno iRead :
  -1 <= off -> page_rep off pg l -> 0 <= iZero < 2 ^ 31 ->
  exists r, read_probe (Z.to_nat HASHTABLE_NSLOT) pg off iZero iLast pgno (walHash pgno) iRead = Some (Some r) /\
    ((r = iRead /\ forall v, ~ hit l iZero iLast pgno v) \/
     exists v, r = v + iZero /\ hit l iZero iLast pgno v /\ forall v', v < v' -> ~ hit l iZero iLast pgno v').
Proof.
  intros Hoff Hrep HZ. pose proof Hrep as ((Hw & HN) & Hht & Hl & _).
  destruct (ht_free _ _ pgno Hht ltac:(lia)) as (k & Hk & Hz & Hf).
  assert (Hin : forall v, hit l iZero iLast pgno v -> exists j, 0 <= j < k /\ at_ (aHash pg) (walHash pgno + j) = v).
  { intros v [He _]. assert (1 <= v <= Z.of_nat (length l)) as Hv.
    { unfold entry in He. case_bool; [done|]. zbool. pose proof (lookup_lt_Some _ _ _ He). lia. }
    destruct (ht_has _ _ v Hht Hv) as [x Hx]. assert (at_ (aHash pg) x <> 0) as Hx0 by lia.
    destruct (ht_entry _ _ x Hht Hx0) as (_ & p & j & Hp & Hj & Em & Hfj).
    rewrite Hx, He in Hp. injection Hp as <-. exists j.
    assert (at_ (aHash pg) (walHash pgno + j) = v) as Hvj by (rewrite <- Hx; by apply at_congr).
    split; [|done]. split; [lia|]. destruct (decide (j < k)); [lia|]. destruct (decide (j = k)) as [->|]; [lia|].
    exfalso. apply (Hfj k); [lia|done]. }
  destruct (read_probe_spec off pg l iZero iLast pgno Hoff Hrep HZ (Z.to_nat HASHTABLE_NSLOT) (walHash pgno) k iRead)
    as (r & Hr & Hcase); [change HASHTABLE_NSLOT with NS; lia|done|done|].
  rewrite Z.mod_small in Hr by apply walHash_range. exists r. split; [done|].
  destruct Hcase as [[-> Hno]|(j & Hj & -> & Hhit & Hno)]; [left|right].
  - split; [done|]. intros v Hv. destruct (Hin v Hv) as (j & Hj & <-). by apply (Hno j).
  - eexists. split_and!; [done|done|]. intros v' Hlt Hv'. destruct (Hin v' Hv') as (j' & Hj' & <-).
    destruct (decide (j' <= j)) as [Hle|]; [|apply (Hno j'); [lia|done]].
    destruct (decide (j' = j)) as [->|]; [lia|].
    pose proof (ht_ordered _ _ Hht pgno j' j ltac:(lia) ltac:(lia) (proj1 Hv') (proj1 Hhit)). lia.
Qed.

#[local] Arguments read_probe : simpl never.
#[local] Arguments append_probe : simpl never.

Lemma page_zeroed off pg ws : -1 <= off <= 33 -> page_dims pg -> zero_words (words pg) (off + 1) = Some ws ->
  page_rep off (mkPage ws (replicate (Z.to_nat HASHTABLE_NSLOT) 0)) [].
Proof.
  intros Hoff [Hw HN] Hz. unfold zero_words in Hz. change HASHTABLE_NPAGE with 4096 in Hz. case_bool; [done|].
  injection Hz as <-. split_and!.
  - split; cbn [words aHash]; [rewrite length_app, length_take, length_replicate; lia|]. by rewrite length_replicate.
  - constructor.
  - simpl. lia.
  - cbn [words length]. rewrite drop_app_length' by (rewrite length_take; lia). rewrite Nat.sub_0_r.
    simpl. f_equal. lia.
Qed.

Lemma page_cleanup off pg l (m : nat) : -1 <= off <= 33 -> page_rep off pg l -> (m <= length l)%nat ->
  exists pg', cleanup_page pg off (Z.of_nat m) = Some pg' /\ page_rep off pg' (take m l).
Proof.
  intros Hoff ([Hw HN] & Hht & Hl & Hd) Hm. unfold cleanup_page, zero_words. change HASHTABLE_NPAGE with 4096.
  rewrite (proj2 (orb_false_iff _ _)) by (split; apply Z.ltb_ge; lia). simpl. eexists. split; [done|].
  change (map _ _) with (drop_slots (Z.of_nat m) (aHash pg)). split_and!.
  - split; cbn [words aHash]; [rewrite length_app, length_take, length_replicate; lia|].
    unfold drop_slots. by rewrite length_map.
  - by apply ht_cleanup.
  - rewrite length_take. lia.
  - cbn [words]. rewrite drop_app_le by (rewrite length_take; lia). rewrite skipn_firstn_comm, Hd.
    rewrite take_app_le by lia. rewrite length_take. f_equal; [f_equal; lia|]. f_equal. lia.
Qed.

Lemma page_append off pg l p : -1 <= off <= 33 -> page_rep off pg l -> Z.of_nat (length l) < 4095 - off ->
  let idx := Z.of_nat (length l) + 1 in
  exists iKey ws h, append_probe (Z.to_nat idx) (aHash pg) (walHash p) = Some (Some iKey) /\
    wr (words pg) (off + idx) p = Some ws /\ wr (aHash pg) iKey (u16 idx) = Some h /\
    page_rep off (mkPage ws h) (l ++ [p]).
Proof.
  intros Hoff ([Hw HN] & Hht & Hl & Hd) Hlt idx. subst idx.
  destruct (ht_free _ _ p Hht ltac:(lia)) as (k & Hk & Hz & Hf). pose proof (Z.mod_pos_bound (walHash p + k) NS NS_pos) as Hm.
  exists ((walHash p + k) mod NS). eexists _, _. split_and!.
  - pose proof (append_probe_spec (aHash pg) HN (Z.to_nat (Z.of_nat (length l) + 1)) (walHash p) k ltac:(lia) Hz Hf) as Hp.
    by rewrite Z.mod_small in Hp by apply walHash_range.
  - apply wr_Some. lia.
  - apply wr_Some. lia.
  - unfold u16. rewrite (Z.mod_small (Z.of_nat (length l) + 1)) by lia. split_and!.
    + split; cbn [words aHash]; by rewrite length_insert.
    + cbn [aHash]. apply ht_snoc; try done; lia.
    + rewrite length_app. simpl. lia.
    + cbn [words]. replace (Z.to_nat (off + (Z.of_nat (length l) + 1))) with (Z.to_nat (off + 1) + length l)%nat by lia.
      rewrite drop_insert_ge by lia. replace (Z.to_nat (off + 1) + length l - Z.to_nat (off + 1))%nat with (length l) by lia.
      rewrite Hd, insert_app_r_alt by lia. rewrite Nat.sub_diag, length_app.
      replace (Z.to_nat (4095 - off) - length l)%nat with (S (Z.to_nat (4095 - off) - (length l + 1)))%nat by lia.
      simpl. by rewrite <- app_assoc.
Qed.

(** ** Frames and pages *)

Definition frame_zero (i : Z) : Z := if i =? 0 then 0 else 4062 + (i - 1) * 4096.
Definition frame_cap (i : Z) : Z := 4095 - hash_off i.

Lemma hash_off_range i : -1 <= hash_off i <= 33.
Proof. unfold hash_off. case_bool; cbv; split; discriminate. Qed.

Lemma frame_cap_pos i : 4062 <= frame_cap i <= 4096.
Proof. unfold frame_cap. pose proof (hash_off_range i). lia. Qed.

Lemma frame_zero_next i : 0 <= i -> frame_zero (i + 1) = frame_zero i + frame_cap i.
Proof.
  intros Hi. unfold frame_zero, frame_cap, hash_off. rewrite (proj2 (Z.eqb_neq (i + 1) 0)) by lia.
  destruct (Z.eqb_spec i 0) as [->|]; [done|lia].
Qed.

Lemma frame_zero_mono i j : 0 <= i < j -> frame_zero i + frame_cap i <= frame_zero j.
Proof.
  intros Hij. rewrite <- frame_zero_next by lia. unfold frame_zero. rewrite (proj2 (Z.eqb_neq (i + 1) 0)) by lia.
  rewrite (proj2 (Z.eqb_neq j 0)) by lia. lia.
Qed.

Lemma walFramePage_eq f : 0 <= f < 2 ^ 31 -> walFramePage f = (f + 33) / 4096.
Proof.
  intros Hf. unfold walFramePage. change HASHTABLE_NPAGE with 4096. change HASHTABLE_NPAGE_ONE with 4062.
  unfold u32. rewrite Z.mod_small by lia. unfold u64. rewrite Z.mod_small by lia.
  replace (f + 4096 - 4062 - 1) with (f + 33) by lia. apply i32_small. unfold is_i32. dlia.
Qed.

Lemma walFramePage_spec f : 1 <= f < 2 ^ 31 ->
  0 <= walFramePage f < 2 ^ 20 /\ frame_zero (walFramePage f) < f <= frame_zero (walFramePage f) + frame_cap (walFramePage f).
Proof.
  intros Hf. rewrite walFramePage_eq by lia. split; [dlia|]. unfold frame_zero, frame_cap, hash_off.
  change (WALINDEX_HDR_SIZE / 4 - 1) with 33. case_bool; zbool; dlia.
Qed.

Lemma frame_zero_nonneg i : 0 <= i -> 0 <= frame_zero i.
Proof. intros. unfold frame_zero. case_bool; zbool; lia. Qed.

Lemma walFramePage_unique f i : 1 <= f < 2 ^ 31 -> 0 <= i ->
  frame_zero i < f <= frame_zero i + frame_cap i -> walFramePage f = i.
Proof.
  intros Hf Hi Hr. pose proof (walFramePage_spec f Hf) as [[? _] Hs].
  destruct (Z.lt_trichotomy (walFramePage f) i) as [Hlt|[?|Hlt]]; [|done|].
  - pose proof (frame_zero_mono (walFramePage f) i). lia.
  - pose proof (frame_zero_mono i (walFramePage f)). lia.
Qed.

Lemma hash_zero_eq i : 0 <= i < 2 ^ 20 -> hash_zero i = frame_zero i.
Proof.
  intros. unfold hash_zero, frame_zero. case_bool; [done|]. zbool. apply u32_small.
  change HASHTABLE_NPAGE with 4096. change HASHTABLE_NPAGE_ONE with 4062. unfold is_u32. lia.
Qed.

(** The frames that page [i] of the wal-index covers. *)
Definition seg (L : list Z) (i : Z) : list Z := take (Z.to_nat (frame_cap i)) (drop (Z.to_nat (frame_zero i)) L).

Lemma seg_length L i : 0 <= i ->
  Z.of_nat (length (seg L i)) = Z.max 0 (Z.min (frame_cap i) (Z.of_nat (length L) - frame_zero i)).
Proof.
  intros. unfold seg. rewrite length_take, length_drop. pose proof (frame_cap_pos i). pose proof (frame_zero_nonneg i). lia.
Qed.

Lemma seg_entry L i v : 0 <= i -> 1 <= v <= frame_cap i -> entry (seg L i) v = entry L (v + frame_zero i).
Proof.
  intros Hi Hv. pose proof (frame_zero_nonneg i Hi). unfold entry. rewrite !(proj2 (Z.leb_gt _ _)) by lia. unfold seg.
  rewrite lookup_take_lt by lia. rewrite lookup_drop. f_equal. lia.
Qed.

Lemma seg_take L i n : 0 <= i -> frame_zero i + frame_cap i <= Z.of_nat n -> seg (take n L) i = seg L i.
Proof.
  intros Hi Hn. pose proof (frame_zero_nonneg i Hi). pose proof (frame_cap_pos i). unfold seg.
  rewrite skipn_firstn_comm, take_take. f_equal. lia.
Qed.

Lemma seg_take_last L i n : 0 <= i -> frame_zero i <= Z.of_nat n <= frame_zero i + frame_cap i ->
  seg (take n L) i = take (Z.to_nat (Z.of_nat n - frame_zero i)) (seg L i).
Proof.
  intros Hi Hn. pose proof (frame_zero_nonneg i Hi). unfold seg. rewrite skipn_firstn_comm, !take_take. f_equal. lia.
Qed.

Lemma seg_snoc_before L p i : 0 <= i -> frame_zero i + frame_cap i <= Z.of_nat (length L) -> seg (L ++ [p]) i = seg L i.
Proof.
  intros Hi Hn. rewrite <- (seg_take (L ++ [p]) i (length L)) by done. by rewrite take_app_length.
Qed.

Lemma seg_snoc_at L p i : 0 <= i -> frame_zero i <= Z.of_nat (length L) < frame_zero i + frame_cap i ->
  seg (L ++ [p]) i = seg L i ++ [p].
Proof.
  intros Hi Hn. pose proof (frame_zero_nonneg i Hi). unfold seg. rewrite drop_app_le by lia.
  rewrite !take_ge; [done| |]; rewrite ?length_app, !length_drop; simpl; lia.
Qed.

(** ** The whole index *)

Definition wal_dims (w : Wal) : Prop := forall i pg, wi_get w i = Some pg -> page_dims pg.

(** The index represents the log [L], the page numbers of its frames in order. *)
Definition index_rep (w : Wal) (L : list Z) : Prop :=
  wal_dims w /\ Z.of_nat (length L) < 2 ^ 31 - 1 /\ Forall (fun p => 0 < p) L /\
  forall i, 0 <= i -> frame_zero i < Z.of_nat (length L) ->
    exists pg, wi_get w i = Some pg /\ page_rep (hash_off i) pg (seg L i).

(** The words of page 0 before the page numbers: the two header copies and the checkpoint data. *)
Definition wi_hdr (w : Wal) : option (list Z) := (fun pg => take 34 (words pg)) <$> wi_get w 0.

(** Everything but the pages of the index. *)
Definition same_handle (w w' : Wal) : Prop := set_pages w' (apWiData w) = w.

Lemma same_handle_hdr w w' : same_handle w w' ->
  hdr w' = hdr w /\ readLock w' = readLock w /\ writeLock w' = writeLock w /\ nCkpt w' = nCkpt w.
Proof. intros <-. done. Qed.

Lemma same_handle_trans w1 w2 w3 : same_handle w1 w2 -> same_handle w2 w3 -> same_handle w1 w3.
Proof. unfold same_handle, set_pages. destruct w1, w2, w3. simpl. intros [= -> -> -> -> -> ->] [= -> -> -> -> -> ->]. done. Qed.

Lemma wi_get_bound w i pg : wi_get w i = Some pg -> 0 <= i < Z.of_nat (length (apWiData w)).
Proof. unfold wi_get. destruct (rd _ _) eqn:E; [|done]. intros _. by eapply rd_bound. Qed.

Lemma wi_set_get w i pg pg0 : wi_get w i = Some pg0 ->
  exists w', wi_set w i pg = Some w' /\ wi_get w' i = Some pg /\ (forall j, j <> i -> wi_get w' j = wi_get w j) /\ same_handle w w'.
Proof.
  intros Hb%wi_get_bound. unfold wi_set. destruct (wr (apWiData w) i (Some pg)) as [ps|] eqn:E; [|by rewrite wr_Some in E].
  eexists. split; [done|]. unfold wi_get. simpl. split_and!.
  - by rewrite (rd_wr_eq _ _ _ _ E).
  - intros j Hj. by rewrite (rd_wr_ne _ _ _ _ _ E) by done.
  - by destruct w.
Qed.

Definition hdr_ok (h : WalIndexHdr) : Prop := 0 <= isInit h < 2 ^ 8 /\ 0 <= bigEndCksum h < 2 ^ 8 /\ 0 <= hszPage h < 2 ^ 16.

Lemma hdr_roundtrip h : hdr_ok h -> hdr_of_words (hdr_words h) = Some h.
Proof.
  intros (Hi & Hb & Hz). unfold hdr_words, hdr_of_words. destruct h as [v u c i b z mx np [f1 f2] [s1 s2] [k1 k2]]. simpl in *.
  do 2 f_equal; dlia.
Qed.

Section env_proofs.
Context (realloc_ok : Z -> bool) (xShmMap : Z -> Z * option WiPage).

(** What the virtual file system promises: a mapping that succeeds yields a page of the right size. *)
Definition shm_contract : Prop := forall i,
  match xShmMap i with
  | (rc, Some pg) => page_dims pg
  | (rc, None) => rc <> SQLITE_OK
  end.

Context (Hshm : shm_contract).

Lemma walIndexPage_mapped w i pg : wi_get w i = Some pg -> walIndexPage realloc_ok xShmMap w i = (SQLITE_OK, w).
Proof using Type.
  intros Hg. pose proof (wi_get_bound _ _ _ Hg). unfold walIndexPage.
  rewrite (proj2 (Z.leb_gt _ _)) by lia. simpl. by rewrite Hg.
Qed.

(** The codes that a failed allocation or mapping returns. *)
Definition env_error (rc : Z) : Prop :=
  rc <> SQLITE_OK /\ ((rc = SQLITE_NOMEM /\ exists n, realloc_ok n = false) \/ exists i, rc = (xShmMap i).1).

(** What mapping page [i] can do to the handle. *)
Definition mapped (w : Wal) (i rc : Z) (w' : Wal) : Prop :=
  wal_dims w' /\ same_handle w w' /\ (forall j pg, wi_get w j = Some pg -> wi_get w' j = Some pg) /\
  (rc = SQLITE_OK -> exists pg, wi_get w' i = Some pg) /\
  (rc = SQLITE_OK \/ env_error rc).

Lemma rd_pad {A} (l : list (option A)) n i : mjoin (rd (l ++ replicate n None) i) = mjoin (rd l i).
Proof using Type.
  unfold rd. case_bool; [done|]. destruct (decide (Z.to_nat i < length l)%nat); [by rewrite lookup_app_l|].
  rewrite lookup_app_r by lia. rewrite (lookup_ge_None_2 l) by lia. simpl.
  destruct (replicate n None !! _) eqn:E; [|done]. apply lookup_replicate in E as [-> _]. done.
Qed.

Lemma walIndexPage_spec w i rc w' :
  wal_dims w -> 0 <= i -> walIndexPage realloc_ok xShmMap w i = (rc, w') -> mapped w i rc w'.
Proof using Hshm.
  intros Hd Hi. unfold walIndexPage. set (n := Z.of_nat (length (apWiData w))). case_bool.
  { intros [= <- <-]. zbool. split_and!; try done; [by destruct w|]. right. split; [done|]. left. eauto. }
  set (w1 := if n <=? i then _ else w).
  assert (Hw1 : same_handle w w1 /\ (forall j, wi_get w1 j = wi_get w j) /\ i < Z.of_nat (length (apWiData w1))).
  { subst w1. destruct (Z.leb_spec n i); split_and!; try (by destruct w); try done; try lia.
    - intros j. apply rd_pad.
    - simpl. rewrite length_app, length_replicate. lia. }
  destruct Hw1 as (Hs & Hg & Hlen). clearbody w1.
  destruct (wi_get w1 i) as [pg|] eqn:Egi.
  { intros [= <- <-]. split_and!; [|done| |eauto|by left].
    - intros j pg' H. rewrite Hg in H. by apply (Hd j).
    - intros j pg' H. by rewrite Hg. }
  pose proof (Hshm i) as Hc. destruct (xShmMap i) as [rc' p] eqn:Ex. intros [= <- <-].
  assert (Hget : forall j, wi_get (set_pages w1 (<[Z.to_nat i := p]> (apWiData w1))) j = if decide (j = i) then p else wi_get w1 j).
  { intros j. unfold wi_get, rd. simpl. destruct (decide (j = i)) as [->|Hne].
    - rewrite (proj2 (Z.ltb_ge _ _)) by lia. rewrite list_lookup_insert_eq by lia. done.
    - case_bool; [done|]. zbool. rewrite list_lookup_insert_ne by lia. done. }
  split_and!.
  - intros j pg. rewrite Hget. case_decide as E; [intros ->; done|]. rewrite Hg. by apply Hd.
  - by destruct w, w1.
  - intros j pg H. rewrite Hget. case_decide as E; [|by rewrite Hg]. subst. by rewrite <- Hg, Egi in H.
  - intros ->. rewrite Hget, decide_True by done. destruct p; [by eexists|done].
  - destruct (decide (rc' = SQLITE_OK)); [by left|]. right. split; [done|]. right. exists i. by rewrite Ex.
Qed.

Lemma walHashGet_mapped w i pg : wi_get w i = Some pg ->
  walHashGet realloc_ok xShmMap w i = (SQLITE_OK, w, (hash_off i, hash_zero i)).
Proof using Type. intros H. unfold walHashGet. by rewrite (walIndexPage_mapped _ _ _ H). Qed.

(** The words before the page numbers are kept. *)
Definition keeps (off : Z) (pg pg' : WiPage) : Prop := take (Z.to_nat (off + 1)) (words pg') = take (Z.to_nat (off + 1)) (words pg).

Lemma keeps_zero off pg ws h k : -1 <= off -> page_dims pg -> off + 1 <= k -> zero_words (words pg) k = Some ws -> keeps off pg (mkPage ws h).
Proof using Type.
  intros Hoff [Hw _] Hk. unfold zero_words. case_bool; [done|]. zbool. intros [= <-]. unfold keeps. simpl.
  change HASHTABLE_NPAGE with 4096 in *. rewrite take_app_le by (rewrite length_take; lia). rewrite take_take. f_equal. lia.
Qed.

Lemma keeps_write off pg ws h k x : off + 1 <= k -> wr (words pg) k x = Some ws -> keeps off pg (mkPage ws h).
Proof using Type.
  intros Hk Hw. pose proof (wr_bound _ _ _ _ Hw). rewrite wr_Some in Hw by done. injection Hw as <-. unfold keeps. simpl.
  apply take_insert_ge. lia.
Qed.

(** Replacing page [i] so that the index represents [L]. *)
Lemma index_set w L i pg0 pg :
  wal_dims w -> wi_get w i = Some pg0 -> keeps (hash_off i) pg0 pg -> page_rep (hash_off i) pg (seg L i) ->
  Z.of_nat (length L) < 2 ^ 31 - 1 -> Forall (fun p => 0 < p) L ->
  (forall j, 0 <= j -> j <> i -> frame_zero j < Z.of_nat (length L) ->
    exists pg, wi_get w j = Some pg /\ page_rep (hash_off j) pg (seg L j)) ->
  exists w', wi_set w i pg = Some w' /\ index_rep w' L /\ same_handle w w' /\ wi_hdr w' = wi_hdr w.
Proof using Type.
  intros Hd Hg Hk Hr HL HF Ho. destruct (wi_set_get w i pg pg0 Hg) as (w' & -> & Hi & Hj & Hs).
  exists w'. unfold index_rep. split_and!; try done.
  - intros j pg' H. destruct (decide (j = i)) as [->|]; [rewrite Hi in H; injection H as <-; apply Hr|].
    rewrite Hj in H by done. by apply (Hd j).
  - intros j Hj0 Hlt. destruct (decide (j = i)) as [->|]; [by exists pg|]. rewrite Hj by done. by apply Ho.
  - unfold wi_hdr. destruct (decide (i = 0)) as [->|]; [|by rewrite Hj by done]. rewrite Hi, Hg. simpl. f_equal. exact Hk.
Qed.

Lemma walCleanupHash_rep w L :
  index_rep w L -> 0 <= mxFrame (hdr w) <= Z.of_nat (length L) ->
  exists w', walCleanupHash realloc_ok xShmMap w = Some w' /\ index_rep w' (take (Z.to_nat (mxFrame (hdr w))) L) /\
    same_handle w w' /\ wi_hdr w' = wi_hdr w.
Proof using Type.
  intros (Hd & HL & HF & Hp) Hmx. unfold walCleanupHash. set (mx := mxFrame (hdr w)) in *. case_bool; zbool.
  { exists w. rewrite Heqb. unfold index_rep. split_and!; try done; try (by destruct w); try (simpl; lia).
    intros i Hi. pose proof (frame_zero_nonneg i Hi). simpl. lia. }
  destruct (walFramePage_spec mx) as (Hpg & Hfz); [lia|]. set (i := walFramePage mx) in *.
  destruct (Hp i) as (pg & Hg & Hr); [lia|lia|]. rewrite (walHashGet_mapped _ _ _ Hg), Hg. simpl.
  rewrite hash_zero_eq by lia. rewrite i32_small by (unfold is_i32; pose proof (frame_zero_nonneg i); lia).
  destruct (page_cleanup (hash_off i) pg (seg L i) (Z.to_nat (mx - frame_zero i))) as (pg' & Hc & Hr');
    [apply hash_off_range|done|pose proof (seg_length L i); lia|].
  rewrite Z2Nat.id in Hc by lia. fold mx. rewrite Hc. simpl.
  assert (keeps (hash_off i) pg pg') as Hk.
  { unfold cleanup_page in Hc. destruct (zero_words _ _) eqn:Ez; [|done]. injection Hc as <-.
    eapply keeps_zero; [apply hash_off_range|apply Hr| |done]. lia. }
  apply (index_set w _ i pg pg'); try done.
  - rewrite seg_take_last by lia. by rewrite Z2Nat.id by lia.
  - rewrite length_take. lia.
  - by apply Forall_take.
  - intros j Hj Hne Hlt. rewrite length_take in Hlt. rewrite seg_take; [by apply Hp; lia|done|].
    pose proof (frame_zero_mono i j). pose proof (frame_zero_mono j i). lia.
Qed.

Lemma page_next_word off pg l : -1 <= off -> page_rep off pg l -> Z.of_nat (length l) < 4095 - off ->
  rd (words pg) (off + (Z.of_nat (length l) + 1)) = Some 0.
Proof using Type.
  intros Hoff ([Hw _] & _ & _ & Hd) Hl. apply rd_Some. split; [lia|].
  replace (Z.to_nat (off + (Z.of_nat (length l) + 1))) with (Z.to_nat (off + 1) + length l)%nat by lia.
  rewrite <- lookup_drop, Hd, lookup_app_r, Nat.sub_diag by lia. apply lookup_replicate. split; [done|lia].
Qed.

(** A fresh page: zeroed before its first entry is written. *)
Lemma append_fresh w L i pg :
  index_rep w L -> 0 <= i -> wi_get w i = Some pg -> frame_zero i <= Z.of_nat (length L) ->
  let L' := take (Z.to_nat (frame_zero i)) L in
  exists ws w', zero_words (words pg) (hash_off i + 1) = Some ws /\
    wi_set w i (mkPage ws (replicate (Z.to_nat HASHTABLE_NSLOT) 0)) = Some w' /\
    wi_get w' i = Some (mkPage ws (replicate (Z.to_nat HASHTABLE_NSLOT) 0)) /\
    page_rep (hash_off i) (mkPage ws (replicate (Z.to_nat HASHTABLE_NSLOT) 0)) (seg L' i) /\
    index_rep w' L' /\ same_handle w w' /\ wi_hdr w' = wi_hdr w.
Proof using Type.
  intros (Hd & HL & HF & Hp) Hi Hg Hfz L'. pose proof (hash_off_range i). pose proof (frame_zero_nonneg i Hi).
  assert (HL' : Z.of_nat (length L') = frame_zero i) by (subst L'; rewrite length_take; lia).
  destruct (zero_words (words pg) (hash_off i + 1)) as [ws|] eqn:Ez.
  2: { unfold zero_words in Ez. case_bool; [|done]. change HASHTABLE_NPAGE with 4096 in *. apply orb_prop in Heqb as [?|?]; zbool; lia. }
  set (pg' := mkPage ws (replicate (Z.to_nat HASHTABLE_NSLOT) 0)). assert (seg L' i = []) as Hs.
  { apply length_zero_iff_nil. pose proof (seg_length L' i Hi). lia. }
  assert (page_rep (hash_off i) pg' (seg L' i)) as Hr by (rewrite Hs; by apply (page_zeroed _ pg); [|apply (Hd i)|]).
  destruct (index_set w L' i pg pg') as (w' & Hw' & Hrep & Hsame & Hh); try done.
  - apply (keeps_zero _ _ _ _ (hash_off i + 1)); (done || lia || by apply (Hd i)).
  - lia.
  - subst L'. by apply Forall_take.
  - intros j Hj Hne Hlt. destruct (Hp j) as (pgj & ? & ?); [done|lia|]. exists pgj. split; [done|].
    subst L'. rewrite seg_take; [done|done|]. pose proof (frame_cap_pos i). pose proof (frame_zero_mono i j). pose proof (frame_zero_mono j i). lia.
  - exists ws, w'. split_and!; try done. by destruct (wi_set_get w i pg' pg Hg) as (w2 & E & ? & _); simplify_eq.
Qed.

(** [walIndexAppend] before it probes: the page is zeroed or cleaned up so that the
    index represents the frames before [f]. *)
Lemma append_prepare w L f i pg :
  index_rep w L -> 1 <= f < 2 ^ 31 -> f - 1 <= Z.of_nat (length L) ->
  f - 1 = Z.of_nat (length L) \/ f - 1 = mxFrame (hdr w) ->
  i = walFramePage f -> wi_get w i = Some pg ->
  let L' := take (Z.to_nat (f - 1)) L in
  exists w2 pg2 old w3 pg3,
    (if f - frame_zero i =? 1 then
       pg ← wi_get w i;
       ws ← zero_words (words pg) (hash_off i + 1);
       wi_set w i (mkPage ws (replicate (Z.to_nat HASHTABLE_NSLOT) 0))
     else Some w) = Some w2 /\
    wi_get w2 i = Some pg2 /\ rd (words pg2) (hash_off i + (f - frame_zero i)) = Some old /\
    (if truthy old then walCleanupHash realloc_ok xShmMap w2 else Some w2) = Some w3 /\
    wi_get w3 i = Some pg3 /\ page_rep (hash_off i) pg3 (seg L' i) /\ index_rep w3 L' /\ same_handle w w3 /\ wi_hdr w3 = wi_hdr w.
Proof using Type.
  intros Hrep Hf HfL Hor Hi Hg L'. destruct (walFramePage_spec f) as (Hpg & Hfz); [lia|]. rewrite <- Hi in *.
  pose proof (hash_off_range i). assert (frame_cap i = 4095 - hash_off i) as Hcap by done.
  destruct (Z.eqb_spec (f - frame_zero i) 1) as [E1|E1].
  - destruct (append_fresh w L i pg Hrep) as (ws & w' & Hz & Hw' & Hg' & Hr & Hrep' & Hsame & Hh); [lia|done|lia|].
    rewrite Hg. simpl. rewrite Hz. simpl. assert (L' = take (Z.to_nat (frame_zero i)) L) as -> by (subst L'; f_equal; lia).
    eexists w', _, 0, w', _. split_and!; try done. rewrite E1.
    pose proof (page_next_word (hash_off i) _ _ ltac:(lia) Hr) as Hn.
    assert (length (seg (take (Z.to_nat (frame_zero i)) L) i) = 0%nat) as H0.
    { pose proof (seg_length (take (Z.to_nat (frame_zero i)) L) i). rewrite length_take in *. lia. }
    rewrite H0 in Hn. apply Hn. lia.
  - pose proof Hrep as (Hd & HL & HF & Hp).
    destruct (Hp i) as (pg' & Hg' & Hr); [lia|lia|]. rewrite Hg in Hg'. injection Hg' as <-.
    pose proof (seg_length L i ltac:(lia)) as Hsl.
    destruct (decide (f - 1 = Z.of_nat (length L))) as [EL|EL].
    + assert (L' = L) as -> by (subst L'; apply take_ge; lia).
      exists w, pg, 0, w, pg. split_and!; try done; [|by destruct w].
      replace (f - frame_zero i) with (Z.of_nat (length (seg L i)) + 1) by lia. apply page_next_word; (done || lia).
    + destruct Hor as [?|Emx]; [done|].
      assert (exists old, rd (words pg) (hash_off i + (f - frame_zero i)) = Some old /\ 0 < old) as (old & Hold & Hpos).
      { rewrite (page_word (hash_off i) pg (seg L i)), seg_entry by (done || lia). unfold entry. rewrite (proj2 (Z.leb_gt _ _)) by lia.
        destruct (lookup_lt_is_Some_2 L (Z.to_nat (f - frame_zero i + frame_zero i - 1))) as [x Hx]; [lia|].
        exists x. split; [done|]. by apply (Forall_lookup_1 _ _ _ _ HF Hx). }
      destruct (walCleanupHash_rep w L Hrep) as (w3 & Hc & Hrep3 & Hs3 & Hh3); [lia|].
      rewrite <- Emx in Hrep3. fold L' in Hrep3. pose proof Hrep3 as (_ & _ & _ & Hp3).
      destruct (Hp3 i) as (pg3 & Hg3 & Hr3); [lia|subst L'; rewrite length_take; lia|].
      exists w, pg, old, w3, pg3. rewrite truthy_slot by lia. split_and!; done.
Qed.

(** Appending frame [f]: the index represents the frames before [f], then the new one;
    a failure of the allocator or of the file system leaves the represented log as it was. *)
Lemma walIndexAppend_rep w L f p :
  index_rep w L -> 1 <= f < 2 ^ 31 - 1 -> f - 1 <= Z.of_nat (length L) ->
  f - 1 = Z.of_nat (length L) \/ f - 1 = mxFrame (hdr w) -> 0 < p ->
  exists rc w', walIndexAppend realloc_ok xShmMap w f p = Some (rc, w') /\ same_handle w w' /\
    (forall x, wi_hdr w = Some x -> wi_hdr w' = Some x) /\
    ((rc = SQLITE_OK /\ index_rep w' (take (Z.to_nat (f - 1)) L ++ [p])) \/
     (env_error rc /\ index_rep w' L)).
Proof using Hshm.
  intros Hrep Hf HfL Hor Hp0. pose proof Hrep as (Hd & HL & HF & Hp).
  destruct (walFramePage_spec f) as (Hpg & Hfz); [lia|]. remember (walFramePage f) as i eqn:Ei.
  unfold walIndexAppend, walHashGet. rewrite <- Ei.
  destruct (walIndexPage realloc_ok xShmMap w i) as [rc w1] eqn:E1.
  destruct (walIndexPage_spec w i rc w1 Hd ltac:(lia) E1) as (Hd1 & Hs1 & Hm1 & Hok & Hrc).
  assert (Hrep1 : index_rep w1 L).
  { split; [done|]. split; [done|]. split; [done|]. intros j Hj Hlt. destruct (Hp j Hj Hlt) as (pg & ? & ?). exists pg. auto. }
  assert (Hh1 : forall x, wi_hdr w = Some x -> wi_hdr w1 = Some x).
  { unfold wi_hdr. intros x. destruct (wi_get w 0) eqn:E0; [|done]. by rewrite (Hm1 _ _ E0). }
  destruct (Z.eqb_spec rc SQLITE_OK) as [->|Hne]; simpl.
  2: { exists rc, w1. split_and!; try done. right. split; [|done]. by destruct Hrc as [?|?]. }
  destruct (Hok eq_refl) as [pg1 Hg1]. rewrite hash_zero_eq by lia.
  pose proof (frame_zero_nonneg i ltac:(lia)). rewrite i32_small by (unfold is_i32; lia).
  destruct (same_handle_hdr _ _ Hs1) as (Hhdr & _).
  destruct (append_prepare w1 L f i pg1 Hrep1) as (w2 & pg2 & old & w3 & pg3 & -> & Hg2 & Hold & Hcl & Hg3 & Hr3 & Hrep3 & Hs3 & Hh3);
    [lia|lia|by rewrite Hhdr|done|done|]. set (L' := take (Z.to_nat (f - 1)) L) in *.
  simpl. rewrite Hg2. simpl. rewrite Hold. simpl. rewrite Hcl. simpl. rewrite Hg3. simpl.
  assert (HL' : Z.of_nat (length L') = f - 1) by (subst L'; rewrite length_take; lia).
  pose proof (seg_length L' i ltac:(lia)) as Hsl. assert (frame_cap i = 4095 - hash_off i) as Hcap by done.
  destruct (page_append (hash_off i) pg3 (seg L' i) p) as (iKey & ws & h & Hpr & Hws & Hh & Hr);
    [apply hash_off_range|done|lia|].
  replace (f - frame_zero i) with (Z.of_nat (length (seg L' i)) + 1) by lia. rewrite Hpr. simpl. rewrite Hws. simpl. rewrite Hh. simpl.
  pose proof Hrep3 as (Hd3 & _ & HF3 & Hp3).
  destruct (index_set w3 (L' ++ [p]) i pg3 (mkPage ws h)) as (w4 & -> & Hrep4 & Hs4 & Hh4); try done.
  - apply (keeps_write _ _ _ _ (hash_off i + (Z.of_nat (length (seg L' i)) + 1)) p); [lia|done].
  - rewrite seg_snoc_at by lia. done.
  - rewrite length_app. simpl. lia.
  - apply Forall_app. split; [done|]. by apply Forall_singleton.
  - intros j Hj Hne Hlt. rewrite length_app in Hlt. simpl in Hlt.
    assert (j < i) as Hji. { destruct (decide (j < i)); [done|]. pose proof (frame_zero_mono i j). lia. }
    pose proof (frame_zero_mono j i). rewrite seg_snoc_before by lia. apply Hp3; [done|]. pose proof (frame_cap_pos j). lia.
  - exists SQLITE_OK, w4. simpl. split_and!; [done| | |by left].
    + eapply same_handle_trans, same_handle_trans; done.
    + intros x Hx. rewrite Hh4, Hh3. by apply Hh1.
Qed.

(** ** Searching *)

Lemma entry_range L f p : entry L f = Some p -> 1 <= f <= Z.of_nat (length L).
Proof using Type. unfold entry. case_bool; [done|]. zbool. intros ?%lookup_lt_Some. lia. Qed.

(** [r] is the last frame of page [pgno] up to frame [n] of the log, or 0 when there is none. *)
Definition is_latest (L : list Z) (n pgno r : Z) : Prop :=
  (r = 0 /\ forall f, f <= n -> entry L f <> Some pgno) \/
  (entry L r = Some pgno /\ r <= n /\ forall f, r < f <= n -> entry L f <> Some pgno).

Lemma read_tables_step n w iLast pgno pg r :
  wi_get w (Z.of_nat n) = Some pg ->
  read_probe (Z.to_nat HASHTABLE_NSLOT) pg (hash_off (Z.of_nat n)) (hash_zero (Z.of_nat n)) iLast pgno (walHash pgno) 0 = Some (Some r) ->
  read_tables realloc_ok xShmMap (S n) w iLast pgno 0 = read_tables realloc_ok xShmMap n w iLast pgno r.
Proof using Type.
  intros Hg Hp. cbn [read_tables]. revert Hp. generalize (Z.to_nat HASHTABLE_NSLOT). intros fuel Hp.
  rewrite (walHashGet_mapped _ _ _ Hg), Hg. cbn [negb Z.eqb SQLITE_OK mbind option_bind]. by rewrite Hp.
Qed.

Lemma read_tables_spec w L iLast pgno : index_rep w L -> 0 <= iLast <= Z.of_nat (length L) -> forall n,
  frame_zero (Z.of_nat n - 1) < iLast -> Z.of_nat n < 2 ^ 20 ->
  exists r, read_tables realloc_ok xShmMap n w iLast pgno 0 = Some (SQLITE_OK, w, r) /\
    is_latest L (Z.min iLast (frame_zero (Z.of_nat n))) pgno r.
Proof using Type.
  intros Hrep HiL. pose proof Hrep as (Hd & HL & HF & Hp). induction n as [|n IH]; intros Hn Hbig.
  { exists 0. split; [done|]. left. split; [done|]. intros f Hf He%entry_range. unfold frame_zero in Hf. simpl in Hf. lia. }
  replace (Z.of_nat (S n) - 1) with (Z.of_nat n) in Hn by lia.
  destruct (Hp (Z.of_nat n)) as (pg & Hg & Hr); [lia|lia|].
  pose proof (frame_zero_nonneg (Z.of_nat n) ltac:(lia)) as Hfz0.
  destruct (read_page_spec (hash_off (Z.of_nat n)) pg (seg L (Z.of_nat n)) (frame_zero (Z.of_nat n)) iLast pgno 0)
    as (r & Hpr & Hcase); [apply hash_off_range|done|lia|]. rewrite <- hash_zero_eq in Hpr by lia.
  rewrite (read_tables_step _ _ _ _ _ _ Hg Hpr). clear Hpr.
  pose proof (frame_zero_next (Z.of_nat n) ltac:(lia)) as Hnext. replace (Z.of_nat (S n)) with (Z.of_nat n + 1) by lia. rewrite Hnext.
  pose proof (seg_length L (Z.of_nat n) ltac:(lia)) as Hsl. pose proof (frame_cap_pos (Z.of_nat n)) as Hcap.
  assert (Hhit : forall f, frame_zero (Z.of_nat n) < f <= frame_zero (Z.of_nat n) + frame_cap (Z.of_nat n) -> f <= iLast ->
    entry L f = Some pgno -> hit (seg L (Z.of_nat n)) (frame_zero (Z.of_nat n)) iLast pgno (f - frame_zero (Z.of_nat n))).
  { intros f Hf Hle He. split; [|lia]. rewrite seg_entry by lia. by rewrite Z.sub_add. }
  destruct Hcase as [[-> Hno]|(v & -> & [Hv Hle] & Hno)].
  - assert (frame_zero (Z.of_nat n - 1) < iLast) as Hprev.
    { destruct (decide (n = 0%nat)) as [->|]; [unfold frame_zero in *; simpl in *; lia|].
      pose proof (frame_zero_mono (Z.of_nat n - 1) (Z.of_nat n)). pose proof (frame_cap_pos (Z.of_nat n - 1)). lia. }
    destruct (IH Hprev ltac:(lia)) as (r & -> & Hr'). exists r. split; [done|].
    assert (Hin : forall f, Z.min iLast (frame_zero (Z.of_nat n)) < f <= Z.min iLast (frame_zero (Z.of_nat n) + frame_cap (Z.of_nat n)) ->
      entry L f <> Some pgno).
    { intros f Hf He. apply (Hno (f - frame_zero (Z.of_nat n))). apply Hhit; (done || lia). }
    destruct Hr' as [[-> H]|(? & ? & H)]; [left|right]; split_and!; try done; try lia; intros f Hf;
      (destruct (decide (f <= Z.min iLast (frame_zero (Z.of_nat n)))); [apply H; lia|apply Hin; lia]).
  - pose proof (entry_range _ _ _ Hv) as Hvr. exists (v + frame_zero (Z.of_nat n)).
    assert (read_tables realloc_ok xShmMap n w iLast pgno (v + frame_zero (Z.of_nat n)) = Some (SQLITE_OK, w, v + frame_zero (Z.of_nat n))) as ->.
    { destruct n; cbn [read_tables]; [done|]. rewrite (proj2 (Z.eqb_neq _ 0)) by lia. done. }
    split; [done|]. right. rewrite seg_entry in Hv by lia. split_and!; [done|lia|].
    intros f Hf He. apply (Hno (f - frame_zero (Z.of_nat n))); [lia|]. apply Hhit; (done || lia).
Qed.

Lemma frame_zero_page n : 1 <= n < 2 ^ 31 -> frame_zero (walFramePage n) < n <= frame_zero (walFramePage n + 1).
Proof using Type. intros Hn. destruct (walFramePage_spec n Hn). rewrite frame_zero_next by lia. lia. Qed.

Lemma wal_search w L pgno : index_rep w L -> 1 <= mxFrame (hdr w) <= Z.of_nat (length L) ->
  exists r, read_tables realloc_ok xShmMap (Z.to_nat (walFramePage (mxFrame (hdr w)) + 1)) w (mxFrame (hdr w)) pgno 0
    = Some (SQLITE_OK, w, r) /\ is_latest L (mxFrame (hdr w)) pgno r.
Proof using Type.
  intros Hrep Hmx. pose proof Hrep as (_ & HL & _). destruct (walFramePage_spec (mxFrame (hdr w))) as (Hpg & _); [lia|].
  pose proof (frame_zero_page (mxFrame (hdr w)) ltac:(lia)) as Hfz.
  destruct (read_tables_spec w L (mxFrame (hdr w)) pgno Hrep ltac:(lia) (Z.to_nat (walFramePage (mxFrame (hdr w)) + 1))) as (r & Hr & Hl).
  - rewrite Z2Nat.id by lia. replace (walFramePage (mxFrame (hdr w)) + 1 - 1) with (walFramePage (mxFrame (hdr w))) by lia. lia.
  - rewrite walFramePage_eq in * by lia. rewrite Z2Nat.id by lia. dlia.
  - exists r. split; [done|]. rewrite Z2Nat.id in Hl by lia. by rewrite Z.min_l in Hl by lia.
Qed.

(** ** Transactions on the index *)

(** The abstract log: the frames of the current snapshot, how many of them are
    committed, and where the savepoint stands. *)
Record LogSpec := mkLog { frames : list Z; committed : nat; saved : nat }.

Inductive wal_op :=
| Frames (pgnos : list Z) (nLast : nat) (isCommit : bool) (nTruncate : Z)
| Crash (pgnos : list Z)
| Undo
| Save
| Rollback
| Read (pgno : Z).

(** What an operation shows: a result code, the pages [xUndo] was called with, the
    outcome of a read. *)
Inductive wal_obs :=
| ORc (rc : Z)
| OUndone (rc : Z) (pgnos : list Z)
| ORead (rc : Z) (inWal : option Z) (out : list Z).

Context (szPage : Z) (xRead : Z -> Z -> Z * list Z) (nOut : Z).

(** The driver keeps the savepoint data; ending a transaction takes a new savepoint.
    [Crash] is a writer that stops after entering frames and before its header is updated. *)
Definition wal_exec (s : Wal * WalData) (o : wal_op) : option (wal_obs * (Wal * WalData)) :=
  let '(w, d) := s in
  match o with
  | Frames ps n c nt =>
      '(rc, w) ← frames_index realloc_ok xShmMap w ps n c nt szPage;
      Some (ORc rc, (w, if c && (rc =? SQLITE_OK) then sqlite3WalSavepoint w else d))
  | Crash ps =>
      '(rc, w, _) ← append_all realloc_ok xShmMap w (mxFrame (hdr w)) ps;
      Some (ORc rc, (w, d))
  | Undo =>
      '(rc, l, w) ← sqlite3WalUndo realloc_ok xShmMap w (fun _ => SQLITE_OK);
      Some (OUndone rc l, (w, sqlite3WalSavepoint w))
  | Save => Some (ORc SQLITE_OK, (w, sqlite3WalSavepoint w))
  | Rollback =>
      '(rc, w, d) ← sqlite3WalSavepointUndo realloc_ok xShmMap w d;
      Some (ORc rc, (w, d))
  | Read pgno =>
      '(rc, w, (inWal, out)) ← sqlite3WalRead realloc_ok xShmMap xRead w pgno nOut;
      Some (ORead rc inWal out, (w, d))
  end.

(** The frame in which a read finds page [pgno]: the last one of the snapshot. *)
Fixpoint latest (L : list Z) (n : nat) (pgno : Z) : Z :=
  match n with
  | O => 0
  | S m => if bool_decide (L !! m = Some pgno) then Z.of_nat n else latest L m pgno
  end.

Definition read_spec (L : list Z) (pgno : Z) : wal_obs :=
  let r := latest L (length L) pgno in
  if r =? 0 then ORead SQLITE_OK (Some 0) []
  else let '(rc, out) := xRead (32 + (r - 1) * (szPage + 24) + 24) nOut in ORead rc (Some 1) out.

Inductive log_step : LogSpec -> wal_op -> wal_obs -> LogSpec -> Prop :=
| log_frames L c s ps n (b : bool) nt :
    let L' := L ++ ps ++ replicate n (List.last ps 0) in
    log_step (mkLog L c s) (Frames ps n b nt) (ORc SQLITE_OK)
             (if b then mkLog L' (length L') (length L') else mkLog L' c s)
| log_frames_fail L c s ps n b nt rc :
    env_error rc -> log_step (mkLog L c s) (Frames ps n b nt) (ORc rc) (mkLog L c s)
| log_crash L c s ps rc :
    rc = SQLITE_OK \/ env_error rc -> log_step (mkLog L c s) (Crash ps) (ORc rc) (mkLog L c s)
| log_undo L c s : log_step (mkLog L c s) Undo (OUndone SQLITE_OK (drop c L)) (mkLog (take c L) c c)
| log_save L c s : log_step (mkLog L c s) Save (ORc SQLITE_OK) (mkLog L c (length L))
| log_rollback L c s : log_step (mkLog L c s) Rollback (ORc SQLITE_OK) (mkLog (take s L) c s)
| log_read L c s pgno : log_step (mkLog L c s) (Read pgno) (read_spec L pgno) (mkLog L c s).

Fixpoint wal_run (s : Wal * WalData) (ops : list wal_op) : option (list wal_obs) :=
  match ops with
  | [] => Some []
  | o :: ops => '(x, s) ← wal_exec s o; xs ← wal_run s ops; Some (x :: xs)
  end.

Inductive log_run : LogSpec -> list wal_op -> list wal_obs -> Prop :=
| log_run_nil st : log_run st [] []
| log_run_cons st o x st' ops xs : log_step st o x st' -> log_run st' ops xs -> log_run st (o :: ops) (x :: xs).

(** Callers pass a non-empty list of valid page numbers. *)
Definition op_ok (o : wal_op) : Prop :=
  match o with
  | Frames ps _ _ _ => ps <> [] /\ Forall (fun p => 0 < p) ps
  | Crash ps => Forall (fun p => 0 < p) ps
  | _ => True
  end.

Definition op_frames (o : wal_op) : Z :=
  match o with Frames ps n _ _ => Z.of_nat (length ps + n) | Crash ps => Z.of_nat (length ps) | _ => 0 end.

Fixpoint total_frames (ops : list wal_op) : Z :=
  match ops with [] => 0 | o :: ops => op_frames o + total_frames ops end.

(** The committed header, as it stands in the shared index. *)
Definition shared_hdr (w : Wal) (c : nat) : Prop :=
  exists ws hc, wi_hdr w = Some ws /\ take 12 ws = hdr_words hc /\ hdr_ok hc /\ mxFrame hc = Z.of_nat c /\
    ((0 < c)%nat -> hszPage hc = szPage).

Definition log_inv (s : Wal * WalData) (st : LogSpec) : Prop :=
  let '(w, (mx, ck, nc)) := s in
  (exists J, index_rep w (frames st ++ J)) /\ mxFrame (hdr w) = Z.of_nat (length (frames st)) /\
  readLock w <> 0 /\ writeLock w = true /\ (frames st <> [] -> hszPage (hdr w) = szPage) /\ hdr_ok (hdr w) /\
  mx = Z.of_nat (saved st) /\ nc = nCkpt w /\ (committed st <= saved st <= length (frames st))%nat /\
  shared_hdr w (committed st).

Lemma append_all_rep ps : forall w L J ws,
  index_rep w (L ++ J) -> J = [] \/ mxFrame (hdr w) = Z.of_nat (length L) -> Forall (fun p => 0 < p) ps ->
  Z.of_nat (length L + length ps) < 2 ^ 31 - 1 -> wi_hdr w = Some ws ->
  exists rc w' f, append_all realloc_ok xShmMap w (Z.of_nat (length L)) ps = Some (rc, w', f) /\ same_handle w w' /\
    wi_hdr w' = Some ws /\
    ((rc = SQLITE_OK /\ f = Z.of_nat (length L + length ps) /\ exists J', index_rep w' (L ++ ps ++ J')) \/
     (env_error rc /\ exists J', index_rep w' (L ++ J'))).
Proof using Hshm.
  induction ps as [|p ps IH]; intros w L J ws Hrep Hor HF Hlen Hh; cbn [append_all].
  { eexists _, _, _. split; [done|]. split; [by destruct w|]. split; [done|]. left. split; [done|].
    split; [simpl; lia|]. by exists J. }
  apply Forall_cons in HF as [Hp HF]. simpl in Hlen.
  destruct (walIndexAppend_rep w (L ++ J) (Z.of_nat (length L) + 1) p) as (rc & w1 & -> & Hs & Hh1 & Hcase); try done; try lia.
  { rewrite length_app. lia. }
  { rewrite length_app. destruct Hor as [->|?]; [left; simpl; lia|right; lia]. }
  simpl. specialize (Hh1 _ Hh). destruct (Z.eqb_spec rc SQLITE_OK) as [->|Hne].
  - destruct Hcase as [[_ Hrep1]|[[? _] _]]; [|done].
    replace (Z.to_nat (Z.of_nat (length L) + 1 - 1)) with (length L) in Hrep1 by lia. rewrite take_app_length in Hrep1.
    replace (Z.of_nat (length L) + 1) with (Z.of_nat (length (L ++ [p]))) by (rewrite length_app; simpl; lia).
    destruct (IH w1 (L ++ [p]) [] ws) as (rc & w2 & f & -> & Hs2 & Hh2 & Hc2); try done.
    + by rewrite app_nil_r.
    + by left.
    + rewrite length_app. simpl. lia.
    + exists rc, w2, f. split; [done|]. split; [by eapply same_handle_trans|]. split; [done|].
      destruct Hc2 as [(-> & -> & J' & HJ)|(? & J' & HJ)]; [left|right]; (split; [done|]).
      * split; [rewrite length_app; simpl; lia|]. exists J'. by rewrite <- app_assoc in HJ.
      * exists (p :: J'). by rewrite <- app_assoc in HJ.
  - eexists _, _, _. split; [done|]. split; [done|]. split; [done|]. right.
    destruct Hcase as [[? _]|[? ?]]; [done|split; [done|by exists J]].
Qed.

(** Changing page 0 before its page numbers leaves the represented log as it is. *)
Lemma index_page0 w L pg ws : index_rep w L -> wi_get w 0 = Some pg -> length ws = length (words pg) ->
  drop 34 ws = drop 34 (words pg) ->
  exists w', wi_set w 0 (mkPage ws (aHash pg)) = Some w' /\ index_rep w' L /\ same_handle w w' /\
    wi_get w' 0 = Some (mkPage ws (aHash pg)).
Proof using Type.
  intros (Hd & HL & HF & Hp) Hg Hlen Hdrop. destruct (Hd 0 pg Hg) as [Hw HN].
  destruct (wi_set_get w 0 (mkPage ws (aHash pg)) pg Hg) as (w' & -> & Hg0 & Hgj & Hs).
  assert (Hdims : page_dims (mkPage ws (aHash pg))) by (split; [cbn [words]; by rewrite Hlen|done]).
  exists w'. split; [done|]. split; [|done]. split; [|split; [done|split; [done|]]].
  - intros i pgi. destruct (decide (i = 0)) as [->|]; [rewrite Hg0; by intros [= <-]|].
    rewrite Hgj by done. by apply Hd.
  - intros i Hi0 Hlt. destruct (Hp i Hi0 Hlt) as (pgi & Hgi & Hr). destruct (decide (i = 0)) as [->|].
    + eexists. split; [done|]. rewrite Hg in Hgi. injection Hgi as <-. destruct Hr as (_ & Hht & Hl & Hdr).
      split; [done|]. split; [done|]. split; [done|]. rewrite <- Hdr. exact Hdrop.
    + exists pgi. split; [|done]. by rewrite Hgj.
Qed.

Lemma overwrite_words_length ws k l : (k + length l <= length ws)%nat -> length (overwrite_words ws k l) = length ws.
Proof using Type. intros. unfold overwrite_words. rewrite !length_app, length_take, length_drop. lia. Qed.

Lemma overwrite_words_drop ws k l m : (k + length l <= m)%nat -> (k + length l <= length ws)%nat -> drop m (overwrite_words ws k l) = drop m ws.
Proof using Type.
  intros Hm Hl. unfold overwrite_words. rewrite app_assoc, drop_app_ge by (rewrite length_app, length_take; lia).
  rewrite drop_drop. f_equal. rewrite length_app, length_take. lia.
Qed.

(** Writing the header copies. *)
Lemma write_hdr_rep w L : index_rep w L -> (exists pg, wi_get w 0 = Some pg) -> hdr_ok (hdr w) ->
  exists w' h, walIndexWriteHdr w = Some w' /\ index_rep w' L /\ hdr w' = h /\ hdr_ok h /\
    mxFrame h = mxFrame (hdr w) /\ hszPage h = hszPage (hdr w) /\ readLock w' = readLock w /\ writeLock w' = writeLock w /\
    nCkpt w' = nCkpt w /\ nPage h = nPage (hdr w) /\ (exists ws, wi_hdr w' = Some ws /\ take 12 ws = hdr_words h).
Proof using Type.
  intros Hrep [pg Hg] (Hi & Hb & Hz). unfold walIndexWriteHdr. rewrite Hg.
  assert (Hst : hdr_ok (stamp_hdr (hdr w)) /\ mxFrame (stamp_hdr (hdr w)) = mxFrame (hdr w) /\
    hszPage (stamp_hdr (hdr w)) = hszPage (hdr w) /\ nPage (stamp_hdr (hdr w)) = nPage (hdr w))
    by (unfold hdr_ok; cbn; split_and!; (done || lia)).
  revert Hst. generalize (stamp_hdr (hdr w)). intros h (Hhok & Hhmx & Hhsz & Hhnp). cbn [mbind option_bind].
  destruct (proj1 Hrep 0 pg Hg) as [Hw HN]. assert (Hl12 : length (hdr_words h) = 12%nat) by done.
  assert (Hrep' : index_rep (set_hdr w h) L) by done.
  set (ws := overwrite_words _ 0 (hdr_words h)).
  destruct (index_page0 (set_hdr w h) L pg ws Hrep' Hg) as (w' & -> & Hrep2 & Hs & Hg0).
  - subst ws. rewrite !overwrite_words_length; rewrite ?overwrite_words_length; lia.
  - subst ws. rewrite !overwrite_words_drop; rewrite ?overwrite_words_length; done || lia.
  - destruct (same_handle_hdr _ _ Hs) as (Hh & Hrl & Hwl & Hnc). exists w', h. split_and!; try done.
    exists (take 34 ws). unfold wi_hdr. rewrite Hg0. split; [done|].
    rewrite take_take. change (12 `min` 34)%nat with (length (hdr_words h)). subst ws. unfold overwrite_words at 1.
    rewrite take_0, app_nil_l. apply take_app_length.
Qed.

Lemma entry_nat L (n : nat) : entry L (Z.of_nat n + 1) = L !! n.
Proof.
  unfold entry. rewrite (proj2 (Z.leb_gt _ _)) by lia. f_equal. lia.
Qed.

Lemma latest_is_latest L n pgno : is_latest L (Z.of_nat n) pgno (latest L n pgno).
Proof.
  induction n as [|n IH]; cbn [latest].
  { left. split; [done|]. intros f Hf He%entry_range. lia. }
  case_bool_decide as E.
  - right. rewrite Nat2Z.inj_succ, <- Z.add_1_r, entry_nat. split_and!; try done; try lia.
  - assert (Hn : entry L (Z.of_nat n + 1) <> Some pgno) by by rewrite entry_nat.
    destruct IH as [[-> H]|(He & Hle & H)]; [left|right]; split_and!; try done; try lia; intros f Hf;
      (destruct (decide (f = Z.of_nat n + 1)) as [->|]; [done|apply H; lia]).
Qed.

Lemma is_latest_unique L n pgno r r' : is_latest L n pgno r -> is_latest L n pgno r' -> r = r'.
Proof.
  intros [[-> H]|(He & Hle & H)] [[-> H']|(He' & Hle' & H')]; [done| | |].
  - by destruct (H r').
  - by destruct (H' r).
  - destruct (Z.lt_trichotomy r r') as [?|[?|?]]; [|done|].
    + destruct (H r'); [lia|done].
    + destruct (H' r); [lia|done].
Qed.

Lemma is_latest_app L J pgno r : is_latest (L ++ J) (Z.of_nat (length L)) pgno r -> r = latest L (length L) pgno.
Proof.
  intros Hl. apply (is_latest_unique L (Z.of_nat (length L)) pgno); [|apply latest_is_latest].
  assert (He : forall f, f <= Z.of_nat (length L) -> entry (L ++ J) f = entry L f).
  { intros f Hf. unfold entry. case_bool; [done|]. zbool. by rewrite lookup_app_l by lia. }
  destruct Hl as [[-> H]|(Hr & Hle & H)]; [left|right]; split_and!; try done.
  - intros f Hf. rewrite <- He by done. by apply H.
  - by rewrite <- He.
  - intros f Hf. rewrite <- He by lia. by apply H.
Qed.

Lemma is_latest_pad L J pgno r : is_latest L (Z.of_nat (length L)) pgno r -> is_latest (L ++ J) (Z.of_nat (length L)) pgno r.
Proof.
  assert (He : forall f, f <= Z.of_nat (length L) -> entry (L ++ J) f = entry L f).
  { intros f Hf. unfold entry. case_bool; [done|]. zbool. by rewrite lookup_app_l by lia. }
  intros [[-> H]|(Hr & Hle & H)]; [left|right]; split_and!; try done.
  - intros f Hf. rewrite He by done. by apply H.
  - by rewrite He.
  - intros f Hf. rewrite He by lia. by apply H.
Qed.

Lemma framePgno_entry w L f : index_rep w L -> 1 <= f <= Z.of_nat (length L) -> walFramePgno w f = entry L f.
Proof.
  intros (Hd & HL & HF & Hp) Hf. destruct (walFramePage_spec f) as (Hpg & Hfz); [lia|]. unfold walFramePgno.
  set (i := walFramePage f) in *. destruct (Hp i) as (pg & Hg & Hr); [lia|lia|].
  pose proof (hash_off_range i) as Hoff. pose proof (seg_length L i ltac:(lia)) as Hsl.
  assert (Hw : rd (words pg) (hash_off i + (f - frame_zero i)) = entry L f).
  { rewrite (page_word (hash_off i) pg (seg L i)) by (done || lia). rewrite seg_entry by lia. f_equal. lia. }
  rewrite <- Hw. unfold hash_off, frame_zero in *. destruct (Z.eqb_spec i 0) as [E|E].
  - rewrite E in Hg. rewrite Hg. change (WALINDEX_HDR_SIZE / 4) with 34. simpl. f_equal. lia.
  - rewrite Hg. simpl. f_equal. change HASHTABLE_NPAGE with 4096. change HASHTABLE_NPAGE_ONE with 4062.
    assert (frame_cap i = 4096) as Hcap by (unfold frame_cap, hash_off; by rewrite (proj2 (Z.eqb_neq _ _) E)).
    rewrite Hcap in Hfz. rewrite (u32_small (f - 1)) by (unfold is_u32; lia). rewrite u64_small by (unfold is_u64; lia).
    symmetry. apply (Z.mod_unique_pos _ _ (i - 1)); lia.
Qed.

Lemma undo_frames_spec L J n : forall w (k : nat), index_rep w (L ++ J) -> (k + n = length L)%nat ->
  undo_frames n w (Z.of_nat k + 1) (fun _ => SQLITE_OK) = Some (SQLITE_OK, drop k L).
Proof.
  induction n as [|n IH]; intros w k Hrep Hk; cbn [undo_frames].
  { by rewrite drop_ge by lia. }
  destruct (lookup_lt_is_Some_2 L k) as [p Hp]; [lia|].
  rewrite (framePgno_entry w (L ++ J)) by (done || rewrite length_app; lia).
  rewrite entry_nat, lookup_app_l, Hp by lia. simpl.
  replace (Z.of_nat k + 1 + 1) with (Z.of_nat (S k) + 1) by lia. rewrite IH by (done || lia). simpl.
  by rewrite (drop_S L p k).
Qed.

Context (Hsz : 0 < szPage < 2 ^ 16).

Definition step_ok (s : Wal * WalData) (st : LogSpec) (o : wal_op) : Prop :=
  exists x s' st', wal_exec s o = Some (x, s') /\ log_step st o x st' /\ log_inv s' st' /\
    Z.of_nat (length (frames st')) <= Z.of_nat (length (frames st)) + op_frames o.

Lemma seg0_mapped w L : index_rep w L -> L <> [] -> exists pg, wi_get w 0 = Some pg.
Proof.
  intros (_ & _ & _ & Hp) HL. destruct (Hp 0) as (pg & ? & _); [lia| |by exists pg].
  destruct L; [done|]. cbn. lia.
Qed.

Lemma frames_step s st ps n c nt : log_inv s st -> op_ok (Frames ps n c nt) ->
  Z.of_nat (length (frames st)) + op_frames (Frames ps n c nt) < 2 ^ 31 - 1 -> step_ok s st (Frames ps n c nt).
Proof using Hshm Hsz.
  destruct s as [w [[mx ck] nc]], st as [L cm sv]. cbn [log_inv frames committed saved op_ok op_frames].
  intros ([J Hrep] & Hmx & Hrl & Hwl & Hhs & Hok & Hd1 & Hd2 & Hcs & Hsh) [Hne HF] Hb.
  set (ps' := ps ++ replicate n (List.last ps 0)).
  assert (HF' : Forall (fun p => 0 < p) ps').
  { apply Forall_app. split; [done|]. apply Forall_replicate. apply (proj1 (List.Forall_forall _ _) HF).
    destruct (List.exists_last Hne) as (l & x & ->). rewrite List.last_last. apply List.in_or_app. right. by left. }
  assert (Hlen : Z.of_nat (length L + length ps') < 2 ^ 31 - 1) by (subst ps'; rewrite length_app, length_replicate; lia).
  destruct Hsh as (ws & hc & Hws & Hwt & Hsh). unfold step_ok, wal_exec, frames_index. fold ps'. rewrite Hmx.
  destruct (append_all_rep ps' w L J ws Hrep) as (rc & w1 & f & -> & Hs1 & Hh1 & Hcase); [by right|done|done|done|].
  destruct (same_handle_hdr _ _ Hs1) as (Eh & Erl & Ewl & Enc). cbn [mbind option_bind].
  destruct Hcase as [(-> & -> & J' & HJ)|(Hrc & J' & HJ)].
  2: { pose proof Hrc as [Hne' _]. rewrite (proj2 (Z.eqb_neq _ _) Hne'). cbn [negb mbind option_bind].
       rewrite (proj2 (Z.eqb_neq _ _) Hne'), andb_false_r. eexists _, _, (mkLog L cm sv). split; [done|].
       split; [by constructor|]. split; [|simpl; lia]. cbn [log_inv frames committed saved]. rewrite Eh, Erl, Ewl, Enc.
       split_and!; try done; try lia; [by exists J'|]. by exists ws, hc. }
  simpl negb. cbn iota. set (h := mkHdr _ _ _ _ _ _ _ _ _ _ _).
  rewrite app_assoc in HJ. assert (Hrep1 : index_rep (set_hdr w1 h) ((L ++ ps') ++ J')) by done.
  assert (Hokh : hdr_ok h).
  { destruct Hok as (? & ? & ?). subst h. unfold hdr_ok. cbn [isInit bigEndCksum hszPage]. rewrite Eh. unfold u16.
    rewrite (Z.mod_small szPage) by lia. split_and!; lia. }
  assert (Hszh : hszPage h = szPage) by (subst h; cbn; unfold u16; apply Z.mod_small; lia).
  assert (Hmxh : mxFrame h = Z.of_nat (length (L ++ ps'))) by (subst h; cbn; rewrite length_app; lia).
  pose proof (log_frames L cm sv ps n c nt) as Hst. fold ps' in Hst. cbv zeta in Hst.
  assert (Hps : (0 < length ps')%nat) by (subst ps'; rewrite length_app; destruct ps; [done|simpl; lia]).
  clearbody h. destruct c; cbn [andb].
  - destruct (write_hdr_rep (set_hdr w1 h) _ Hrep1) as (w2 & h2 & -> & Hrep2 & Eh2 & Hok2 & Hmx2 & Hsz2 & Hrl2 & Hwl2 & Hnc2 & _ & ws2 & Hws2 & Ht2).
    + eapply seg0_mapped; [done|]. intros E%(f_equal length). rewrite !length_app in E. simpl in E. lia.
    + done.
    + eexists _, _, _. split; [done|]. split; [exact Hst|]. cbn in Hmx2, Hsz2, Hrl2, Hwl2, Hnc2. cbn [frames op_frames].
      split; [|subst ps'; rewrite !length_app, length_replicate; lia].
      unfold sqlite3WalSavepoint. cbn [Z.eqb SQLITE_OK log_inv frames committed saved set_callback hdr readLock writeLock nCkpt]. rewrite Eh2. split_and!; try done; try congruence; try lia.
      * by exists J'.
      * exists ws2, h2. split_and!; try done; congruence.
  - eexists _, _, _. split; [done|]. split; [exact Hst|]. cbn [frames op_frames]. split; [|subst ps'; rewrite !length_app, length_replicate; lia].
    cbn [log_inv frames committed saved hdr readLock writeLock nCkpt set_hdr]. split_and!; try done; try congruence; try lia.
    + by exists J'.
    + rewrite length_app. lia.
    + by exists ws, hc.
Qed.

Lemma crash_step s st ps : log_inv s st -> op_ok (Crash ps) ->
  Z.of_nat (length (frames st)) + op_frames (Crash ps) < 2 ^ 31 - 1 -> step_ok s st (Crash ps).
Proof using Hshm.
  destruct s as [w [[mx ck] nc]], st as [L cm sv]. cbn [log_inv frames committed saved op_ok op_frames].
  intros ([J Hrep] & Hmx & Hrl & Hwl & Hhs & Hok & Hd1 & Hd2 & Hcs & ws & hc & Hws & Hsh) HF Hb.
  unfold step_ok, wal_exec. rewrite Hmx.
  destruct (append_all_rep ps w L J ws Hrep) as (rc & w1 & f & -> & Hs1 & Hh1 & Hcase); [by right|done|lia|done|].
  destruct (same_handle_hdr _ _ Hs1) as (Eh & Erl & Ewl & Enc). cbn [mbind option_bind].
  eexists _, _, (mkLog L cm sv). split; [done|].
  split; [constructor; destruct Hcase as [(? & _)|(? & _)]; auto|]. split; [|simpl; lia].
  cbn [log_inv frames committed saved]. rewrite Eh, Erl, Ewl, Enc. split_and!; try done; try lia; [|by exists ws, hc].
  destruct Hcase as [(_ & _ & J' & ?)|(_ & J' & ?)]; eauto.
Qed.

Lemma undo_step s st : log_inv s st -> step_ok s st Undo.
Proof using Type.
  destruct s as [w [[mx ck] nc]], st as [L cm sv]. cbn [log_inv frames committed saved op_ok op_frames].
  intros ([J Hrep] & Hmx & Hrl & Hwl & Hhs & Hok & Hd1 & Hd2 & Hcs & ws & hc & Hws & Hwt & Hhc & Hmc & Hsc).
  unfold step_ok, wal_exec, sqlite3WalUndo. rewrite Hwl. pose proof Hws as Hws'. unfold wi_hdr in Hws'.
  destruct (wi_get w 0) as [pg|] eqn:Eg; [|done]. injection Hws' as <-. rewrite take_take in Hwt. cbn [mbind option_bind].
  change (12 `min` 34)%nat with 12%nat in Hwt. rewrite Hwt, hdr_roundtrip by done. cbn [mbind option_bind]. rewrite Hmx, Hmc.
  assert (Hrep' : index_rep (set_hdr w hc) (L ++ J)) by done.
  rewrite (undo_frames_spec L J) by (done || lia). cbn [mbind option_bind].
  destruct (walCleanupHash_rep (set_hdr w hc) (L ++ J) Hrep') as (w' & -> & Hrepc & Hsc' & Hhc').
  { rewrite length_app. cbn. lia. }
  cbn [hdr set_hdr] in Hrepc. rewrite Hmc, Nat2Z.id, take_app_le in Hrepc by lia.
  destruct (same_handle_hdr _ _ Hsc') as (Eh & Erl & Ewl & Enc). cbn in Eh, Erl, Ewl, Enc.
  cbn [mbind option_bind]. eexists _, _, _. split; [done|]. split; [constructor|]. cbn [frames op_frames].
  split; [|rewrite length_take; lia]. unfold sqlite3WalSavepoint. cbn [log_inv frames committed saved].
  rewrite Eh, Erl, Ewl, Enc. rewrite length_take. split_and!; try done; try lia.
  - exists []. by rewrite app_nil_r.
  - intros Hne. apply Hsc. destruct cm; [done|lia].
  - exists (take 34 (words pg)), hc. split_and!; try done; [|by rewrite take_take].
    rewrite Hhc'. done.
Qed.

Lemma rollback_step s st : log_inv s st -> step_ok s st Rollback.
Proof using Type.
  destruct s as [w [[mx ck] nc]], st as [L cm sv]. cbn [log_inv frames committed saved op_ok op_frames].
  intros ([J Hrep] & Hmx & Hrl & Hwl & Hhs & Hok & -> & -> & Hcs & Hsh).
  unfold step_ok, wal_exec, sqlite3WalSavepointUndo. rewrite Z.eqb_refl. cbn [negb]. rewrite Hmx.
  destruct (Z.ltb_spec (Z.of_nat sv) (Z.of_nat (length L))) as [Hlt|Hge].
  - set (w0 := set_hdr w _). assert (Hrep' : index_rep w0 (L ++ J)) by done.
    destruct (walCleanupHash_rep w0 (L ++ J) Hrep') as (w' & -> & Hrepc & Hsc' & Hhc'); [rewrite length_app; cbn; lia|].
    cbn [hdr set_hdr w0 mxFrame set_frame] in Hrepc. rewrite Nat2Z.id, take_app_le in Hrepc by lia.
    destruct (same_handle_hdr _ _ Hsc') as (Eh & Erl & Ewl & Enc). cbn in Eh, Erl, Ewl, Enc.
    cbn [mbind option_bind]. eexists _, _, _. split; [done|]. split; [constructor|]. cbn [frames op_frames].
    split; [|rewrite length_take; lia]. cbn [log_inv frames committed saved]. rewrite Eh, Erl, Ewl, Enc, length_take. cbn.
    split_and!; try done; try lia.
    + exists []. by rewrite app_nil_r.
    + intros _. apply Hhs. by destruct L; [simpl in Hlt; lia|].
    + unfold shared_hdr. by rewrite Hhc'.
  - cbn [mbind option_bind]. eexists _, _, _. split; [done|]. split; [constructor|]. cbn [frames op_frames].
    rewrite take_ge by lia. split; [|lia]. cbn [log_inv frames committed saved]. split_and!; try done; try lia. by exists J.
Qed.

Lemma read_step s st pgno : log_inv s st -> step_ok s st (Read pgno).
Proof using Hsz.
  destruct s as [w [[mx ck] nc]], st as [L cm sv]. intros Hinv. pose proof Hinv as Hinv'. revert Hinv'.
  cbn [log_inv frames committed saved op_ok op_frames]. intros ([J Hrep] & Hmx & Hrl & _ & Hhs & _).
  assert (Hex : wal_exec (w, (mx, ck, nc)) (Read pgno) = Some (read_spec L pgno, (w, (mx, ck, nc)))).
  { unfold wal_exec, sqlite3WalRead. rewrite (proj2 (Z.eqb_neq _ _) Hrl), orb_false_r, Hmx. unfold read_spec.
    destruct (Z.eqb_spec (Z.of_nat (length L)) 0) as [E0|E0].
    { by replace L with (@nil Z) by (destruct L; [done|simpl in E0; lia]). }
    rewrite <- Hmx. destruct (wal_search w (L ++ J) pgno Hrep) as (r & -> & Hr); [rewrite length_app; lia|].
    cbn [mbind option_bind]. simpl negb. cbn iota. rewrite Hmx in Hr. rewrite <- (is_latest_app _ _ _ _ Hr).
    destruct (Z.eqb_spec r 0) as [->|Hr0]; [done|]. simpl negb. cbn iota.
    assert (1 <= r <= Z.of_nat (length L)) as Hrr.
    { destruct Hr as [[? _]|(He & Hle & _)]; [done|]. apply entry_range in He. lia. }
    destruct Hrep as (_ & HL & _). rewrite length_app in HL. unfold walFrameOffset. rewrite Hhs by (intros ->; simpl in *; lia).
    rewrite u32_small by (unfold is_u32; lia). change WAL_FRAME_HDRSIZE with 24. change WAL_HDRSIZE with 32.
    rewrite i64_small by (unfold is_i64; lia). by destruct (xRead _ _). }
  eexists _, _, _. split; [exact Hex|]. split; [constructor|]. split; [done|]. simpl. lia.
Qed.

Lemma wal_step s st o : log_inv s st -> op_ok o -> Z.of_nat (length (frames st)) + op_frames o < 2 ^ 31 - 1 -> step_ok s st o.
Proof using Hshm Hsz.
  intros Hinv Hok Hb. destruct o as [ps n c nt|ps| | | |pgno];
    [by apply frames_step|by apply crash_step|by apply undo_step| |by apply rollback_step|by apply read_step].
  destruct s as [w [[mx ck] nc]], st as [L cm sv]. pose proof Hinv as (HJ & Hmx & Hrl & Hwl & Hhs & Hhok & _ & _ & Hcs & Hsh).
  cbn [frames committed saved] in *. eexists _, _, _. split; [done|]. split; [constructor|]. cbn [frames op_frames]. split; [|lia].
  unfold sqlite3WalSavepoint. cbn [log_inv frames committed saved]. split_and!; done || lia.
Qed.

Lemma wal_run_ok ops : forall s st, log_inv s st -> Forall op_ok ops ->
  Z.of_nat (length (frames st)) + total_frames ops < 2 ^ 31 - 1 ->
  exists xs, wal_run s ops = Some xs /\ log_run st ops xs.
Proof using Hshm Hsz.
  induction ops as [|o ops IH]; intros s st Hinv HF Hb; cbn [wal_run total_frames] in *.
  { exists []. split; [done|constructor]. }
  apply Forall_cons in HF as [Ho HF].
  assert (Hnn : 0 <= total_frames ops).
  { clear. induction ops as [|[]]; cbn [total_frames op_frames]; lia. }
  destruct (wal_step s st o Hinv Ho ltac:(lia)) as (x & s' & st' & -> & Hst & Hinv' & Hlen).
  destruct (IH s' st' Hinv' HF ltac:(lia)) as (xs & Hxs & Hrun). cbn [mbind option_bind]. rewrite Hxs.
  exists (x :: xs). split; [done|by econstructor].
Qed.
End env_proofs.

(** The handle of a writer on an empty log, before it has written the header. *)
Definition empty_hdr : WalIndexHdr := mkHdr 0 0 0 0 0 0 0 0 (0, 0) (0, 0) (0, 0).
Definition empty_wal (pg : WiPage) (readLock nCkpt : Z) : Wal := mkWal [Some pg] 0 readLock true empty_hdr nCkpt 0.

Lemma empty_wal_inv szPage pg rl nc w : page_dims pg -> rl <> 0 -> walIndexWriteHdr (empty_wal pg rl nc) = Some w ->
  log_inv szPage (w, sqlite3WalSavepoint w) (mkLog [] 0 0).
Proof.
  intros Hd Hrl Hw. assert (Hrep : index_rep (empty_wal pg rl nc) []).
  { split_and!; [|done|by apply Forall_nil|].
    - intros i pg'. unfold wi_get, empty_wal, rd. simpl. case_bool; [done|].
      destruct (Z.to_nat i) as [|[|k]]; simpl; [by intros [= <-]|done|done].
    - intros i Hi. pose proof (frame_zero_nonneg i Hi). simpl. lia. }
  destruct (write_hdr_rep (empty_wal pg rl nc) [] Hrep) as (w' & h & Hw' & Hrep' & Eh & Hok & Hmx & Hsz & Hrl' & Hwl & Hnc & _ & ws & Hws & Ht).
  - by exists pg.
  - unfold hdr_ok. cbn. lia.
  - rewrite Hw in Hw'. injection Hw' as <-. unfold sqlite3WalSavepoint. cbn [log_inv frames committed saved].
    rewrite Eh. split_and!; try done; try lia; [by exists []|by rewrite Hrl'|]. exists ws, h. split_and!; try done. lia.
Qed.

(** C38. The wal-index refines a log of page numbers.  Start a writer on an empty log,
    whatever the shared memory held before, and run any sequence of operations: enter
    the frames of a transaction (committing or not), lose a writer after it entered
    frames, roll back to the committed state or to a savepoint, read a page.  Every
    operation stays inside the mapped pages; a read finds the page in the last frame of
    the snapshot that holds it, at the right file offset, and reports that it is not in
    the log exactly when no frame holds it; an undo reports the discarded frames' pages in
    order; frames of failed and lost writers are never seen.  An operation fails only
    when the allocator or the file system does, and leaves the log as it was. *)
Theorem wal_index_refines_log realloc_ok xShmMap szPage xRead nOut pg rl nc w ops :
  shm_contract xShmMap -> 0 < szPage < 2 ^ 16 -> page_dims pg -> rl <> 0 ->
  walIndexWriteHdr (empty_wal pg rl nc) = Some w ->
  Forall op_ok ops -> total_frames ops < 2 ^ 31 - 1 ->
  exists xs, wal_run realloc_ok xShmMap szPage xRead nOut (w, sqlite3WalSavepoint w) ops = Some xs /\
    log_run realloc_ok xShmMap szPage xRead nOut (mkLog [] 0 0) ops xs.
Proof.
  intros Hshm Hsz Hd Hrl Hw HF Hb. apply wal_run_ok; try done. by eapply empty_wal_inv.
Qed.

Definition garbage_page : WiPage := mkPage (replicate (Z.to_nat 4096) 77) (replicate (Z.to_nat 8192) 5).

Definition demo_wal_ops : list wal_op :=
  [Frames [3; 2; 3] 0 true 3; Read 3; Frames [2; 9] 1 false 0; Save; Read 9; Crash [3; 3]; Frames [4] 0 false 0;
   Rollback; Read 4; Read 9; Undo; Read 9; Read 2].

Definition demo_wal_run (w : Wal) : option (list wal_obs) :=
  wal_run (fun _ => true) (fun _ => (SQLITE_OK, Some garbage_page)) 1024 (fun off n => (SQLITE_OK, [off])) 1024
    (w, sqlite3WalSavepoint w) demo_wal_ops.

Lemma wal_index_refines_log_witness :
  (w ← walIndexWriteHdr (empty_wal garbage_page 1 0); demo_wal_run w) =
    Some [ORc 0; ORead 0 (Some 1) [56 + 2 * 1048]; ORc 0; ORc 0; ORead 0 (Some 1) [56 + 5 * 1048]; ORc 0; ORc 0;
          ORc 0; ORead 0 (Some 0) []; ORead 0 (Some 1) [56 + 5 * 1048]; OUndone 0 [2; 9; 9]; ORead 0 (Some 0) [];
          ORead 0 (Some 1) [56 + 1 * 1048]] /\
  exists w xs, walIndexWriteHdr (empty_wal garbage_page 1 0) = Some w /\ demo_wal_run w = Some xs /\
    log_run (fun _ => true) (fun _ => (SQLITE_OK, Some garbage_page)) 1024 (fun off n => (SQLITE_OK, [off])) 1024
      (mkLog [] 0 0) demo_wal_ops xs.
Proof.
  split; [vm_compute; reflexivity|].
  assert (Hd : page_dims garbage_page) by (split; vm_compute; reflexivity).
  destruct (wi_set_get (set_hdr (empty_wal garbage_page 1 0) (stamp_hdr empty_hdr)) 0
    (mkPage (overwrite_words (overwrite_words (words garbage_page) 12 (hdr_words (stamp_hdr empty_hdr))) 0 (hdr_words (stamp_hdr empty_hdr)))
            (aHash garbage_page)) garbage_page eq_refl) as (w & Hw & _).
  destruct (wal_index_refines_log (fun _ => true) (fun _ => (SQLITE_OK, Some garbage_page)) 1024
    (fun off n => (SQLITE_OK, [off])) 1024 garbage_page 1 0 w demo_wal_ops) as (xs & Hr & Hl); try done.
  - unfold demo_wal_ops. by repeat constructor.
  - by exists w, xs.
Defined.
