(* ===== verification/WalIter.v ===== *)
(** * WalIter: visiting the frames of the log in page order

    Models the merge sort and the iterator that a checkpoint uses, in wal.c of
    [src/whip-server/sqlite/sqlite3.c]: [walMerge], [walMergesort],
    [walIteratorInit] and [walIteratorNext].

    The array [aList] of hash slots is a list; a pointer into it is an index, so
    that the in-place merges of [walMergesort] are writes to that one list.
    [None] is an access outside an array, or a loop that does not end within its
    fuel: [nLeft + nRight] rounds for a merge (every round consumes an entry) and
    13 rounds for the loops over [aSub].  The segments of one iterator index
    disjoint parts of one allocation; the model gives each segment its own list. *)
From S2P Require Import Prelude Probe WalIndex.
From stdpp Require Import list sorting.
#[local] Open Scope Z_scope.

(** ** Merge sort *)

(** The loop of [walMerge]: [l] and [r] are what is left of the two inputs. *)
Fixpoint merge_loop (fuel : nat) (aContent : list Z) (l r : list Z) : option (list Z) :=
  match l, r with
  | [], [] => Some []
  | _, _ =>
      match fuel with
      | O => None
      | S fuel =>
          takeLeft ← (match l, r with
                      | [], _ => Some false
                      | _ :: _, [] => Some true
                      | x :: _, y :: _ => cx ← rd aContent x; cy ← rd aContent y; Some (cx <? cy)
                      end);
          '(logpage, l, r) ← (if takeLeft : bool
                              then match l with x :: l => Some (x, l, r) | [] => None end
                              else match r with y :: r => Some (y, l, r) | [] => None end);
          dbpage ← rd aContent logpage;
          l ← (match l with
               | x :: l' => cx ← rd aContent x; Some (if cx =? dbpage then l' else l)
               | [] => Some []
               end);
          rest ← merge_loop fuel aContent l r;
          Some (logpage :: rest)
      end
  end.

Definition sub_array (a : list Z) (start n : Z) : list Z := take (Z.to_nat n) (drop (Z.to_nat start) a).

(** [memcpy(&a[start], l, ...)] *)
Definition store_array (a : list Z) (start : Z) (l : list Z) : list Z :=
  take (Z.to_nat start) a ++ l ++ drop (Z.to_nat start + length l) a.

(** [walMerge]: the new array, [*paRight] and [*pnRight]. *)
Definition walMerge (aContent a : list Z) (aLeft nLeft aRight nRight : Z) : option (list Z * Z * Z) :=
  out ← merge_loop (Z.to_nat (nLeft + nRight)) aContent (sub_array a aLeft nLeft) (sub_array a aRight nRight);
  Some (store_array a aLeft out, aLeft, Z.of_nat (length out)).

(** [struct Sublist]: [aList] and [nList]. *)
Definition Sublist : Type := Z * Z.

(** [for(iSub=0; iList & (1<<iSub); iSub++)] *)
Fixpoint sub_loop (fuel : nat) (aContent a : list Z) (aSub : list Sublist) (iList iSub aMerge nMerge : Z)
  : option (list Z * Z * Z * Z) :=
  if truthy (Z.land iList (Z.shiftl 1 iSub)) then
    match fuel with
    | O => None
    | S fuel =>
        '(pl, pn) ← rd aSub iSub;
        '(a, aMerge, nMerge) ← walMerge aContent a pl pn aMerge nMerge;
        sub_loop fuel aContent a aSub iList (iSub + 1) aMerge nMerge
    end
  else Some (a, iSub, aMerge, nMerge).

(** [for(iList=0; iList<nList; iList++)], [n] rounds of it. *)
Fixpoint list_loop (n : nat) (aContent a : list Z) (aSub : list Sublist) (iList iSub aMerge nMerge : Z)
  : option (list Z * list Sublist * Z * Z * Z) :=
  match n with
  | O => Some (a, aSub, iSub, aMerge, nMerge)
  | S n =>
      '(a, iSub, aMerge, nMerge) ← sub_loop 13 aContent a aSub iList 0 iList 1;
      aSub ← wr aSub iSub (aMerge, nMerge);
      list_loop n aContent a aSub (iList + 1) iSub aMerge nMerge
  end.

(** [for(iSub++; iSub<ArraySize(aSub); iSub++)] *)
Fixpoint last_loop (fuel : nat) (aContent a : list Z) (aSub : list Sublist) (nList iSub aMerge nMerge : Z)
  : option (list Z * Z * Z) :=
  if iSub <? 13 then
    match fuel with
    | O => None
    | S fuel =>
        if truthy (Z.land nList (Z.shiftl 1 iSub)) then
          '(pl, pn) ← rd aSub iSub;
          '(a, aMerge, nMerge) ← walMerge aContent a pl pn aMerge nMerge;
          last_loop fuel aContent a aSub nList (iSub + 1) aMerge nMerge
        else last_loop fuel aContent a aSub nList (iSub + 1) aMerge nMerge
    end
  else Some (a, aMerge, nMerge).

(** [walMergesort]: the array and [*pnList]. *)
Definition walMergesort (aContent aList : list Z) (nList : Z) : option (list Z * Z) :=
  '(a, aSub, iSub, aMerge, nMerge) ← list_loop (Z.to_nat nList) aContent aList (replicate 13 (0, 0)) 0 0 0 0;
  '(a, aMerge, nMerge) ← last_loop 13 aContent a aSub nList (iSub + 1) aMerge nMerge;
  Some (a, nMerge).

(** ** The iterator *)

Record WalSegment := mkSegment { iNext : Z; aIndex : list Z; aPgno : list Z; nEntry : Z; iZero : Z }.
Record WalIterator := mkIter { iPrior : Z; aSegment : list WalSegment }.

(** The [while] loop of one segment: its new [iNext], and [iRet] and [*piFrame] so far. *)
Fixpoint segment_scan (fuel : nat) (s : WalSegment) (iMin iRet piFrame : Z) : option (WalSegment * Z * Z) :=
  if iNext s <? nEntry s then
    match fuel with
    | O => None
    | S fuel =>
        k ← rd (aIndex s) (iNext s);
        iPg ← rd (aPgno s) k;
        if iMin <? iPg then
          if iPg <? iRet then Some (s, iPg, u32 (iZero s + k)) else Some (s, iRet, piFrame)
        else segment_scan fuel (mkSegment (iNext s + 1) (aIndex s) (aPgno s) (nEntry s) (iZero s)) iMin iRet piFrame
    end
  else Some (s, iRet, piFrame).

(** The [for] loop, from the last segment to the first. *)
Fixpoint segments_scan (ss : list WalSegment) (iMin : Z) (piFrame : Z) : option (list WalSegment * Z * Z) :=
  match ss with
  | [] => Some ([], 0xFFFFFFFF, piFrame)
  | s :: ss =>
      '(ss, iRet, piFrame) ← segments_scan ss iMin piFrame;
      '(s, iRet, piFrame) ← segment_scan (Z.to_nat (nEntry s - iNext s)) s iMin iRet piFrame;
      Some (s :: ss, iRet, piFrame)
  end.

(** [walIteratorNext]: the return value, the iterator, [*piPage] and [*piFrame]. *)
Definition walIteratorNext (p : WalIterator) (piFrame : Z) : option (bool * WalIterator * Z * Z) :=
  let iMin := u32 (iPrior p) in
  '(ss, iRet, piFrame) ← segments_scan (aSegment p) iMin piFrame;
  Some (iRet =? 0xFFFFFFFF, mkIter (i32 iRet) ss, u32 (i32 iRet), piFrame).

Section init.
Context (realloc_ok : Z -> bool) (xShmMap : Z -> Z * option WiPage) (scratch_ok : Z -> bool).

(** [for(i=0; rc==SQLITE_OK && i<nSegment; i++)], from segment [i] on. *)
Fixpoint init_segments (n : nat) (w : Wal) (i nSegment iLast : Z) : option (Z * Wal * list WalSegment) :=
  match n with
  | O => Some (SQLITE_OK, w, [])
  | S n =>
      let '(rc, w, (off, zero)) := walHashGet realloc_ok xShmMap w i in
      if negb (rc =? SQLITE_OK) then Some (rc, w, [])
      else
        pg ← wi_get w i;
        let aPgno := drop (Z.to_nat (off + 1)) (words pg) in
        let nEntry := if i + 1 =? nSegment then i32 (iLast - zero) else HASHTABLE_NPAGE - (off + 1) in
        '(aIndex, nEntry) ← walMergesort aPgno (u16 <$> seqZ 0 nEntry) nEntry;
        '(rc, w, ss) ← init_segments n w (i + 1) nSegment iLast;
        Some (rc, w, mkSegment 0 aIndex aPgno nEntry (u32 (zero + 1)) :: ss)
  end.

(** [walIteratorInit]; [sizeof(WalIterator)] is 40 and [sizeof(struct WalSegment)] is 32. *)
Definition walIteratorInit (w : Wal) : option (Z * Wal * option WalIterator) :=
  let iLast := mxFrame (hdr w) in
  let nSegment := walFramePage iLast + 1 in
  if negb (scratch_ok (i32 (40 + (nSegment - 1) * 32 + iLast * 2))) then Some (SQLITE_NOMEM, w, None)
  else if negb (scratch_ok (2 * (if HASHTABLE_NPAGE <? iLast then HASHTABLE_NPAGE else iLast))) then Some (SQLITE_NOMEM, w, None)
  else
    '(rc, w, ss) ← init_segments (Z.to_nat nSegment) w 0 nSegment iLast;
    if rc =? SQLITE_OK then Some (rc, w, Some (mkIter 0 ss)) else Some (rc, w, None).
End init.

(** ** The binary counter of the merge sort *)

(** Where the sub-list of bit [b] starts when [m] entries have been processed. *)
Definition start (m b : Z) : Z := m / 2 ^ (b + 1) * 2 ^ (b + 1).

Lemma pow_succ s : 0 <= s -> 2 ^ (s + 1) = 2 * 2 ^ s.
Proof. intros. rewrite Z.pow_add_r by lia. lia. Qed.

Lemma bit_div m s : 0 <= s -> Z.testbit m s = bool_decide ((m / 2 ^ s) mod 2 = 1).
Proof.
  intros Hs. pose proof (Z.testbit_true m s Hs). destruct (Z.testbit m s); case_bool_decide; naive_solver.
Qed.

Lemma div_pow_succ m s : 0 <= s -> m / 2 ^ (s + 1) = m / 2 ^ s / 2.
Proof. intros. rewrite pow_succ by lia. rewrite Z.mul_comm, Z.div_div; lia. Qed.

(** The sub-list of a set bit ends where the lower bits start. *)
Lemma start_bit m b : 0 <= b -> Z.testbit m b = true -> start m b + 2 ^ b = m / 2 ^ b * 2 ^ b.
Proof.
  intros Hb Hbit. rewrite bit_div in Hbit by done. apply bool_decide_eq_true in Hbit. unfold start.
  rewrite div_pow_succ, pow_succ by done. pose proof (Z.div_mod (m / 2 ^ b) 2 ltac:(lia)). nia.
Qed.

Lemma start_nobit m b : 0 <= b -> Z.testbit m b = false -> start m b = m / 2 ^ b * 2 ^ b.
Proof.
  intros Hb Hbit. rewrite bit_div in Hbit by done. apply bool_decide_eq_false in Hbit. unfold start.
  rewrite div_pow_succ, pow_succ by done. pose proof (Z.div_mod (m / 2 ^ b) 2 ltac:(lia)).
  pose proof (Z.mod_pos_bound (m / 2 ^ b) 2 ltac:(lia)). nia.
Qed.

Definition low_ones (m s : Z) : Prop := m mod 2 ^ s = 2 ^ s - 1.

Lemma low_ones_eq m s : 0 <= s -> low_ones m s -> m / 2 ^ s * 2 ^ s = m + 1 - 2 ^ s.
Proof. intros Hs H. unfold low_ones in H. pose proof (Z.pow_pos_nonneg 2 s). pose proof (Z.div_mod m (2 ^ s) ltac:(lia)). lia. Qed.

Lemma low_ones_set m s : 0 <= s -> low_ones m s -> Z.testbit m s = true -> low_ones m (s + 1) /\ start m s = m + 1 - 2 ^ (s + 1).
Proof.
  intros Hs H Hb. pose proof (start_bit m s Hs Hb) as E. rewrite low_ones_eq in E by done. pose proof (Z.pow_pos_nonneg 2 s).
  assert (Es : start m s = m + 1 - 2 ^ (s + 1)) by (rewrite pow_succ by done; lia). split; [|done].
  unfold low_ones. pose proof (Z.pow_pos_nonneg 2 (s + 1)). pose proof (Z.div_mod m (2 ^ (s + 1)) ltac:(lia)). unfold start in Es. lia.
Qed.

Lemma low_ones_small m s : 0 <= s -> 0 <= m < 4096 -> low_ones m s -> s <= 12.
Proof.
  intros Hs Hm H. destruct (decide (s <= 12)); [done|]. unfold low_ones in H.
  pose proof (Z.pow_le_mono_r 2 13 s ltac:(lia) ltac:(lia)) as Hp. change (2 ^ 13) with 8192 in Hp.
  rewrite Z.mod_small in H by lia. lia.
Qed.

(** Adding one to the counter: the lowest clear bit is set, the bits below it are cleared. *)
Lemma succ_div m s b : 0 <= s <= b -> low_ones m s -> Z.testbit m s = false -> (m + 1) / 2 ^ (b + 1) = m / 2 ^ (b + 1).
Proof.
  intros Hsb H Hb. pose proof (start_nobit m s ltac:(lia) Hb) as E. rewrite low_ones_eq in E by (done || lia). unfold start in E.
  pose proof (Z.pow_pos_nonneg 2 s). rewrite pow_succ in E by lia.
  replace (b + 1) with ((s + 1) + (b - s)) by lia. rewrite Z.pow_add_r, <- !Z.div_div by (try apply Z.pow_nonzero; try apply Z.pow_pos_nonneg; lia).
  f_equal. rewrite pow_succ by lia. symmetry. apply (Z.div_unique_pos _ _ _ (2 ^ s)); lia.
Qed.

Lemma succ_bit m s b : 0 <= s -> 0 <= b -> low_ones m s -> Z.testbit m s = false ->
  Z.testbit (m + 1) b = true -> b = s \/ (s < b /\ Z.testbit m b = true).
Proof.
  intros Hs Hb0 H Hb Hbit. rewrite bit_div in Hbit by done. apply bool_decide_eq_true in Hbit.
  destruct (Z.lt_trichotomy b s) as [Hlt|[?|Hgt]]; [exfalso|by left|right].
  - unfold low_ones in H. pose proof (Z.pow_pos_nonneg 2 b). pose proof (Z.pow_pos_nonneg 2 (s - b - 1)).
    assert (2 ^ s = 2 ^ b * (2 * 2 ^ (s - b - 1))) as Hp by (rewrite <- pow_succ, <- Z.pow_add_r by lia; f_equal; lia).
    pose proof (Z.div_mod m (2 ^ s) ltac:(lia)) as Hm.
    assert (m + 1 = 2 ^ b * (2 * 2 ^ (s - b - 1) * (m / 2 ^ s + 1))) as E by (rewrite Hp in Hm at 1; rewrite H in Hm; nia).
    rewrite E, Z.mul_comm, Z.div_mul in Hbit by lia. rewrite <- Z.mul_assoc, Z.mul_comm, Z_mod_mult in Hbit. lia.
  - split; [done|]. rewrite bit_div by done. apply bool_decide_eq_true. rewrite <- Hbit. f_equal.
    replace b with ((b - 1) + 1) by lia. symmetry. apply (succ_div m s); (done || lia).
Qed.

Lemma succ_start m s b : 0 <= s <= b -> low_ones m s -> Z.testbit m s = false -> start (m + 1) b = start m b.
Proof. intros. unfold start. by rewrite (succ_div m s). Qed.

Lemma low_ones_above m s b : 0 <= s < b -> 0 <= m -> low_ones m s -> m / 2 ^ b * 2 ^ b <= m + 1 - 2 ^ s.
Proof.
  intros Hsb Hm H. pose proof (Z.pow_pos_nonneg 2 s). pose proof (Z.pow_pos_nonneg 2 b).
  rewrite <- low_ones_eq by (done || lia). pose proof (Z.pow_pos_nonneg 2 (b - s)).
  replace b with (s + (b - s)) by lia. rewrite Z.pow_add_r, <- Z.div_div by lia.
  pose proof (Z.mul_div_le (m / 2 ^ s) (2 ^ (b - s)) ltac:(lia)). nia.
Qed.

(** ** The merge *)

Section sort_proofs.
Context (c : list Z).
#[local] Notation cc x := (default 0 (rd c x)).

Definition inside (x : Z) : Prop := 0 <= x < Z.of_nat (length c).
Definition asc : relation Z := fun x y => cc x < cc y.

Lemma rd_inside x : inside x -> rd c x = Some (cc x).
Proof. intros [y ->]%rd_is_Some. done. Qed.

(** What a merge of [l] and [r] keeps: everything of [r], and of [l] what [r] does not have. *)
Definition merged (l r out : list Z) : Prop :=
  StronglySorted asc out /\ (forall x, x ∈ out -> x ∈ l \/ x ∈ r) /\ (forall x, x ∈ r -> x ∈ out) /\
  (forall x, x ∈ l -> x ∈ out \/ exists y, y ∈ r /\ cc y = cc x) /\ (length out <= length l + length r)%nat.

Lemma merged_nil : merged [] [] [].
Proof. split_and!; [constructor|by left|done|by intros x ?%elem_of_nil|done]. Qed.

Lemma merged_left x l r out : StronglySorted asc (x :: l) -> (forall y, y ∈ r -> cc x < cc y) ->
  merged l r out -> merged (x :: l) r (x :: out).
Proof.
  intros [Hl Hx]%StronglySorted_inv Hr (Hs & Hin & Hright & Hleft & Hlen). split_and!.
  - constructor; [done|]. apply Forall_forall. intros y [?|?]%Hin; [by eapply Forall_forall in Hx|by apply Hr].
  - intros y [->|Hy]%elem_of_cons; [left; by left|]. destruct (Hin y Hy); [left; by right|by right].
  - intros y Hy. right. by apply Hright.
  - intros y [->|Hy]%elem_of_cons; [left; by left|]. destruct (Hleft y Hy) as [?|?]; [left; by right|by right].
  - simpl. lia.
Qed.

Lemma merged_right y l l' r out : StronglySorted asc l -> StronglySorted asc (y :: r) ->
  l' = l \/ (exists x, l = x :: l' /\ cc x = cc y) -> (forall x, x ∈ l' -> cc y < cc x) ->
  merged l' r out -> merged l (y :: r) (y :: out).
Proof.
  intros Hsl [Hr Hy]%StronglySorted_inv Hl' Hgt (Hs & Hin & Hright & Hleft & Hlen).
  assert (Hsub : forall x, x ∈ l' -> x ∈ l) by (destruct Hl' as [->|(x & -> & _)]; [done|intros; by right]).
  split_and!.
  - constructor; [done|]. apply Forall_forall. intros z [?|?]%Hin; [by apply Hgt|by eapply Forall_forall in Hy].
  - intros z [->|Hz]%elem_of_cons; [right; by left|]. destruct (Hin z Hz); [left; auto|right; by right].
  - intros z [->|Hz]%elem_of_cons; [by left|right; by apply Hright].
  - intros z Hz.
    assert (z ∈ l' \/ cc y = cc z) as [Hz'|Heq].
    { destruct Hl' as [->|(x & -> & Hx)]; [by left|]. apply elem_of_cons in Hz as [->|?]; auto. }
    + destruct (Hleft z Hz') as [?|(w & ? & ?)]; [left; by right|right]. exists w. split; [by right|done].
    + right. exists y. split; [by left|done].
  - assert (length l' <= length l)%nat by (destruct Hl' as [->|(x & -> & _)]; simpl; lia). simpl. lia.
Qed.

Lemma merge_loop_spec fuel : forall l r, StronglySorted asc l -> StronglySorted asc r ->
  Forall inside l -> Forall inside r -> (length l + length r <= fuel)%nat ->
  exists out, merge_loop fuel c l r = Some out /\ merged l r out.
Proof.
  induction fuel as [|fuel IH]; intros l r Hl Hr Hil Hir Hf.
  { destruct l, r; simpl in Hf; try lia. exists []. split; [done|apply merged_nil]. }
  assert (Hlt : forall x l, StronglySorted asc (x :: l) -> forall y, y ∈ l -> cc x < cc y).
  { intros x l0 [_ Hx]%StronglySorted_inv y Hy. by eapply Forall_forall in Hx. }
  assert (Hge : forall x l, StronglySorted asc (x :: l) -> forall y, y ∈ x :: l -> cc x <= cc y).
  { intros x l0 Hs y [->|Hy]%elem_of_cons; [lia|]. specialize (Hlt _ _ Hs _ Hy). lia. }
  (* the entry is taken from the left *)
  assert (Hleft : forall x l', l = x :: l' -> (forall y, y ∈ r -> cc x < cc y) ->
    exists out, (dbpage ← rd c x;
      l0 ← (match l' with z :: l'' => cz ← rd c z; Some (if cz =? dbpage then l'' else l') | [] => Some [] end);
      rest ← merge_loop fuel c l0 r; Some (x :: rest)) = Some out /\ merged l r out).
  { intros x l' -> Hx. apply Forall_cons in Hil as [Hix Hil]. rewrite (rd_inside x) by done. cbn [mbind option_bind].
    destruct (IH l' r) as (out & Ho & Hm); try done; [by apply StronglySorted_inv in Hl as [? _]|simpl in Hf; lia|].
    exists (x :: out). split; [|by apply merged_left].
    destruct l' as [|z l'']; cbn [mbind option_bind]; [by rewrite Ho|].
    apply Forall_cons in Hil as [Hiz _]. rewrite (rd_inside z) by done. cbn [mbind option_bind].
    pose proof (Hlt x _ Hl z ltac:(by left)). rewrite (proj2 (Z.eqb_neq _ _)) by lia. by rewrite Ho. }
  (* the entry is taken from the right *)
  assert (Hright : forall y r', r = y :: r' -> (forall x, x ∈ l -> cc y <= cc x) ->
    exists out, (dbpage ← rd c y;
      l0 ← (match l with z :: l'' => cz ← rd c z; Some (if cz =? dbpage then l'' else l) | [] => Some [] end);
      rest ← merge_loop fuel c l0 r'; Some (y :: rest)) = Some out /\ merged l r out).
  { intros y r' -> Hy. apply Forall_cons in Hir as [Hiy Hir]. rewrite (rd_inside y) by done. cbn [mbind option_bind].
    assert (Hl0 : exists l0, (match l with z :: l'' => cz ← rd c z; Some (if cz =? cc y then l'' else l) | [] => Some [] end) = Some l0 /\
      (l0 = l \/ exists x, l = x :: l0 /\ cc x = cc y) /\ forall x, x ∈ l0 -> cc y < cc x).
    { destruct l as [|z l'']; [exists []; split_and!; [done|by left|by intros x ?%elem_of_nil]|].
      apply Forall_cons in Hil as [Hiz _]. rewrite (rd_inside z) by done. cbn [mbind option_bind]. eexists. split; [done|].
      destruct (Z.eqb_spec (cc z) (cc y)) as [E|E].
      - split; [right; by exists z|]. intros x Hx. rewrite <- E. by apply (Hlt z l'').
      - split; [by left|]. intros x Hx. pose proof (Hy z ltac:(by left)). pose proof (Hge _ _ Hl x Hx). lia. }
    destruct Hl0 as (l0 & -> & Hor & Hgt). cbn [mbind option_bind].
    destruct (IH l0 r') as (out & -> & Hm); try done.
    - destruct Hor as [->|(x & -> & _)]; [done|]. by apply StronglySorted_inv in Hl as [? _].
    - by apply StronglySorted_inv in Hr as [? _].
    - destruct Hor as [->|(x & -> & _)]; [done|]. by apply Forall_cons in Hil as [_ ?].
    - assert (length l0 <= length l)%nat by (destruct Hor as [->|(x & -> & _)]; simpl; lia). simpl in Hf. lia.
    - exists (y :: out). split; [done|]. by eapply merged_right. }
  destruct l as [|x l], r as [|y r].
  - exists []. split; [done|apply merged_nil].
  - apply (Hright y r eq_refl). by intros x ?%elem_of_nil.
  - apply (Hleft x l eq_refl). by intros y ?%elem_of_nil.
  - pose proof Hil as [Hix _]%Forall_cons. pose proof Hir as [Hiy _]%Forall_cons. cbn [merge_loop].
    rewrite (rd_inside x), (rd_inside y) by done. cbn [mbind option_bind]. case_bool; zbool.
    + apply (Hleft x l eq_refl). intros z Hz. pose proof (Hge _ _ Hr z Hz). lia.
    + apply (Hright y r eq_refl). intros z Hz. pose proof (Hge _ _ Hl z Hz). lia.
Qed.

(** ** The merge sort *)

(** [l] lists, in ascending order of their pages, the last entries of [lo..hi-1] for each page. *)
Definition good (l : list Z) (lo hi : Z) : Prop :=
  StronglySorted asc l /\ (forall x, x ∈ l -> lo <= x < hi) /\
  (forall j, lo <= j < hi -> exists x, x ∈ l /\ j <= x /\ cc x = cc j) /\ Z.of_nat (length l) <= hi - lo.

Lemma good_single a : good [a] a (a + 1).
Proof.
  split_and!.
  - repeat constructor.
  - intros x ->%list_elem_of_singleton. lia.
  - intros j Hj. exists a. split; [by left|]. replace j with a by lia. done.
  - simpl. lia.
Qed.

Lemma good_merge l r out lo mid hi : good l lo mid -> good r mid hi -> lo <= mid <= hi -> merged l r out -> good out lo hi.
Proof.
  intros (Hls & Hlr & Hlc & Hll) (Hrs & Hrr & Hrc & Hrl) Hb (Hs & Hin & Hright & Hleft & Hlen). split_and!; [done| | |lia].
  - intros x Hx. destruct (Hin x Hx) as [?%Hlr|?%Hrr]; lia.
  - intros j Hj. destruct (decide (j < mid)) as [Hm|Hm].
    + destruct (Hlc j) as (x & Hx & Hjx & Hc); [lia|]. destruct (Hleft x Hx) as [?|(y & Hy & Hyc)].
      * by exists x.
      * exists y. split; [by apply Hright|]. split; [|by rewrite Hyc]. apply Hrr in Hy. lia.
    + destruct (Hrc j) as (x & Hx & ?); [lia|]. exists x. split; [by apply Hright|done].
Qed.

Lemma sub_array_lookup a s n (k : nat) : 0 <= s -> (Z.of_nat k < n)%Z -> sub_array a s n !! k = rd a (s + Z.of_nat k).
Proof.
  intros Hs Hk. unfold sub_array, rd. rewrite lookup_take_lt by lia. rewrite lookup_drop, (proj2 (Z.ltb_ge _ _)) by lia. f_equal. lia.
Qed.

Lemma sub_array_ext a a' s n : 0 <= s -> (forall i, s <= i < s + n -> rd a' i = rd a i) -> sub_array a' s n = sub_array a s n.
Proof.
  intros Hs H. apply list_eq. intros k. destruct (decide (Z.of_nat k < n)) as [Hk|Hk].
  - rewrite !sub_array_lookup by done. apply H. lia.
  - unfold sub_array. by rewrite !lookup_take_ge by lia.
Qed.

(** The array holds a sorted sub-list of [lo..hi-1], [n] entries from index [lo] on. *)
Definition holds (a : list Z) (n lo hi : Z) : Prop :=
  0 <= lo /\ hi <= Z.of_nat (length a) /\ good (sub_array a lo n) lo hi /\ Z.of_nat (length (sub_array a lo n)) = n.

Lemma holds_ext a a' n lo hi : length a' = length a -> (forall i, lo <= i < hi -> rd a' i = rd a i) -> holds a n lo hi -> holds a' n lo hi.
Proof.
  intros Hl H (H0 & H1 & Hg & Hn). assert (n <= hi - lo) by (rewrite <- Hn; apply Hg).
  unfold holds. rewrite (sub_array_ext a a') by (done || intros; apply H; lia). rewrite Hl. done.
Qed.

Lemma store_array_rd a s l i : 0 <= s -> s + Z.of_nat (length l) <= Z.of_nat (length a) ->
  rd (store_array a s l) i = if decide (s <= i < s + Z.of_nat (length l)) then rd l (i - s) else rd a i.
Proof.
  intros Hs Hl. unfold rd, store_array. case_decide as E.
  - rewrite !(proj2 (Z.ltb_ge _ _)) by lia. rewrite lookup_app_r by (rewrite length_take; lia).
    rewrite lookup_app_l by (rewrite length_take; lia). f_equal. rewrite length_take. lia.
  - case_bool; [done|]. zbool. destruct (decide (i < s)) as [Hlt|Hge].
    + rewrite lookup_app_l by (rewrite length_take; lia). by rewrite lookup_take_lt by lia.
    + rewrite lookup_app_r by (rewrite length_take; lia). rewrite length_take, lookup_app_r by lia.
      rewrite lookup_drop. f_equal. lia.
Qed.

Lemma store_array_length a s l : 0 <= s -> s + Z.of_nat (length l) <= Z.of_nat (length a) -> length (store_array a s l) = length a.
Proof. intros. unfold store_array. rewrite !length_app, length_take, length_drop. lia. Qed.

Lemma walMerge_spec a nl nr lo mid hi : Z.of_nat (length a) <= Z.of_nat (length c) -> lo <= mid <= hi ->
  holds a nl lo mid -> holds a nr mid hi ->
  exists a' n, walMerge c a lo nl mid nr = Some (a', lo, n) /\ holds a' n lo hi /\ length a' = length a /\
    (forall i, i < lo \/ hi <= i -> rd a' i = rd a i).
Proof.
  intros Hc Hm (Hlo & Hmid & Hgl & Hnl) (_ & Hhi & Hgr & Hnr). unfold walMerge.
  assert (Hins : forall l lo' hi', good l lo' hi' -> 0 <= lo' -> hi' <= Z.of_nat (length a) -> Forall inside l).
  { intros l lo' hi' (_ & Hr & _) ? ?. apply Forall_forall. intros x Hx%Hr. unfold inside. lia. }
  destruct (merge_loop_spec (Z.to_nat (nl + nr)) (sub_array a lo nl) (sub_array a mid nr)) as (out & -> & Hmg).
  - apply Hgl.
  - apply Hgr.
  - by apply (Hins _ lo mid).
  - apply (Hins _ mid hi); (done || lia).
  - lia.
  - cbn [mbind option_bind]. pose proof (good_merge _ _ _ _ _ _ Hgl Hgr Hm Hmg) as Hg. destruct Hg as (Hg1 & Hg2 & Hg3 & Hg4).
    assert (Hsub : sub_array (store_array a lo out) lo (Z.of_nat (length out)) = out).
    { apply list_eq. intros k. destruct (decide (k < length out)%nat) as [Hk|Hk].
      - rewrite sub_array_lookup, store_array_rd by lia. rewrite decide_True by lia.
        replace (lo + Z.of_nat k - lo) with (Z.of_nat k) by lia. apply rd_nat.
      - unfold sub_array. rewrite lookup_take_ge by lia. symmetry. apply lookup_ge_None_2. lia. }
    eexists _, _. split; [done|]. split_and!.
    + unfold holds. rewrite Hsub, store_array_length by lia. split_and!; (done || lia).
    + apply store_array_length; lia.
    + intros i Hi. rewrite store_array_rd by lia. rewrite decide_False by lia. done.
Qed.

(** The sub-lists of the set bits of [m], for the bits from [s] on. *)
Definition subs_ok (a : list Z) (aSub : list Sublist) (m s : Z) : Prop :=
  forall b, s <= b -> 0 <= b -> Z.testbit m b = true ->
    exists n, rd aSub b = Some (start m b, n) /\ holds a n (start m b) (start m b + 2 ^ b).

Lemma subs_ok_ext a a' aSub m s lo : length a' = length a -> (forall i, i < lo -> rd a' i = rd a i) ->
  (forall b, s <= b -> 0 <= b -> Z.testbit m b = true -> start m b + 2 ^ b <= lo) -> subs_ok a aSub m s -> subs_ok a' aSub m s.
Proof.
  intros Hl He Hlo H b Hs Hb Hbit. destruct (H b Hs Hb Hbit) as (n & Hr & Hh). exists n. split; [done|].
  eapply holds_ext; [done| |done]. intros i Hi. apply He. specialize (Hlo b Hs Hb Hbit). lia.
Qed.

Lemma subs_ok_mono a aSub m s s' : s <= s' -> subs_ok a aSub m s -> subs_ok a aSub m s'.
Proof. intros Hle H b Hb. apply H. lia. Qed.

Lemma sub_loop_spec (N m : Z) fuel : forall a aSub s n,
  Z.of_nat (length a) = N -> N <= Z.of_nat (length c) -> 0 <= m < 4096 -> m < N -> 0 <= s -> 13 - s <= Z.of_nat fuel ->
  low_ones m s -> holds a n (m + 1 - 2 ^ s) (m + 1) -> subs_ok a aSub m s ->
  exists a' s' n', sub_loop fuel c a aSub m s (m + 1 - 2 ^ s) n = Some (a', s', m + 1 - 2 ^ s', n') /\
    0 <= s' <= 12 /\ low_ones m s' /\ Z.testbit m s' = false /\ holds a' n' (m + 1 - 2 ^ s') (m + 1) /\
    length a' = length a /\ (forall i, i < m + 1 - 2 ^ s' \/ m < i -> rd a' i = rd a i) /\ subs_ok a' aSub m s'.
Proof.
  induction fuel as [|fuel IH]; intros a aSub s n Hl HN Hm HmN Hs Hf Hlow Hh Hsub;
    pose proof (low_ones_small m s Hs Hm Hlow); [lia|].
  cbn [sub_loop]. rewrite land_bit by done. destruct (Z.testbit m s) eqn:Eb.
  2: { exists a, s, n. split_and!; try done; lia. }
  destruct (Hsub s ltac:(lia) Hs Eb) as (pn & -> & Hp). cbn [mbind option_bind].
  destruct (low_ones_set m s Hs Hlow Eb) as [Hlow' Est]. rewrite Est in *.
  assert (Emid : m + 1 - 2 ^ (s + 1) + 2 ^ s = m + 1 - 2 ^ s) by (rewrite pow_succ by done; lia).
  rewrite Emid in Hp. pose proof (Z.pow_pos_nonneg 2 s ltac:(lia) Hs).
  destruct (walMerge_spec a pn n (m + 1 - 2 ^ (s + 1)) (m + 1 - 2 ^ s) (m + 1)) as (a1 & n1 & -> & Hh1 & Hl1 & He1);
    [lia|lia|done|done|]. cbn [mbind option_bind].
  destruct (IH a1 aSub (s + 1) n1) as (a' & s' & n' & -> & Hs' & Hlow'' & Hb' & Hh' & Hl' & He' & Hsub'); try done; try lia.
  - apply (subs_ok_ext a a1 aSub m (s + 1) (m + 1 - 2 ^ (s + 1))); [done|intros i Hi; apply He1; lia| |].
    + intros b Hb Hb0 Hbit. rewrite start_bit by done. destruct (decide (b = s + 1)) as [->|].
      * by rewrite low_ones_eq by (done || lia).
      * apply low_ones_above; (done || lia).
    + by apply (subs_ok_mono _ _ _ s); [lia|].
  - exists a', s', n'. split; [done|]. split_and!; try done; try lia.
    intros i Hi. rewrite He' by done. apply He1. destruct Hi as [Hi|Hi]; [|lia]. left.
    assert (s + 1 <= s') as Hss.
    { destruct (decide (s + 1 <= s')); [done|]. exfalso. assert (s' < s + 1) by lia.
      unfold low_ones in Hlow''. assert (Z.testbit m s' = true); [|congruence].
      assert (Hones : Z.testbit (m mod 2 ^ (s + 1)) s' = Z.testbit m s') by (apply Z.mod_pow2_bits_low; lia).
      rewrite <- Hones. unfold low_ones in Hlow'. rewrite Hlow'. replace (2 ^ (s + 1) - 1) with (Z.ones (s + 1)) by (rewrite Z.ones_equiv; lia).
      apply Z.ones_spec_low. lia. }
    pose proof (Z.pow_le_mono_r 2 (s + 1) s' ltac:(lia) ltac:(lia)). lia.
Qed.

(** The state between two rounds of the outer loop. *)
Definition sort_inv (N m : Z) (a : list Z) (aSub : list Sublist) : Prop :=
  Z.of_nat (length a) = N /\ length aSub = 13%nat /\ (forall i, m <= i < N -> rd a i = Some i) /\ subs_ok a aSub m 0.

Lemma sort_round N m a aSub : N <= Z.of_nat (length c) -> N <= 4096 -> 0 <= m < N -> sort_inv N m a aSub ->
  exists a' aSub' s n, sub_loop 13 c a aSub m 0 m 1 = Some (a', s, m + 1 - 2 ^ s, n) /\
    wr aSub s (m + 1 - 2 ^ s, n) = Some aSub' /\ sort_inv N (m + 1) a' aSub' /\
    0 <= s <= 12 /\ start (m + 1) s = m + 1 - 2 ^ s /\ holds a' n (start (m + 1) s) (m + 1).
Proof.
  intros HN HN4 Hm (Hl & Hls & Hid & Hsub).
  assert (Hh0 : holds a 1 (m + 1 - 2 ^ 0) (m + 1)).
  { replace (m + 1 - 2 ^ 0) with m by lia. assert (sub_array a m 1 = [m]) as Ha.
    { apply list_eq. intros [|k]; [rewrite sub_array_lookup, Z.add_0_r, Hid by lia; done|].
      unfold sub_array. rewrite lookup_take_ge by lia. done. }
    unfold holds. rewrite Ha. split_and!; try lia; [apply good_single|done]. }
  destruct (sub_loop_spec N m 13 a aSub 0 1) as (a' & s & n & Hsl & Hs & Hlow & Hb & Hh & Hl' & He & Hsub'); try done; try lia.
  { unfold low_ones. by rewrite Z.mod_1_r. }
  replace (m + 1 - 2 ^ 0) with m in Hsl by lia. rewrite Hsl.
  assert (Est : start (m + 1) s = m + 1 - 2 ^ s).
  { rewrite (succ_start m s) by (done || lia). rewrite start_nobit by (done || lia). apply low_ones_eq; (done || lia). }
  exists a', (<[Z.to_nat s := (m + 1 - 2 ^ s, n)]> aSub), s, n. split; [done|]. split; [apply wr_Some; lia|].
  split; [|by rewrite Est]. split_and!; [lia|by rewrite length_insert| |].
  - intros i Hi. rewrite He by lia. apply Hid. lia.
  - intros b Hb0 _ Hbit. destruct (succ_bit m s b) as [->|[Hgt Hbm]]; try done; try lia.
    + exists n. rewrite Est. split; [apply rd_Some; split; [lia|apply list_lookup_insert_eq; lia]|].
      by replace (m + 1 - 2 ^ s + 2 ^ s) with (m + 1) by lia.
    + destruct (Hsub' b) as (nb & Hr & Hhb); [lia|lia|done|]. exists nb. rewrite (succ_start m s) by (done || lia).
      split; [|done]. apply rd_Some in Hr as [? Hr]. apply rd_Some. split; [done|]. rewrite list_lookup_insert_ne by lia. done.
Qed.

Lemma list_loop_spec N k : forall m a aSub s0 am0 nm0, N <= Z.of_nat (length c) -> N <= 4096 -> 0 <= m -> m + Z.of_nat (S k) = N ->
  sort_inv N m a aSub ->
  exists a' aSub' s n, list_loop (S k) c a aSub m s0 am0 nm0 = Some (a', aSub', s, start N s, n) /\ sort_inv N N a' aSub' /\
    0 <= s <= 12 /\ holds a' n (start N s) N.
Proof.
  induction k as [|k IH]; intros m a aSub s0 am0 nm0 HN HN4 Hm Hk Hinv; cbn [list_loop];
    destruct (sort_round N m a aSub) as (a1 & aSub1 & s & n & -> & Hw & Hinv1 & Hs & Est & Hh); try done; try lia;
    cbn [mbind option_bind]; rewrite Hw; cbn [mbind option_bind].
  - exists a1, aSub1, s, n. rewrite <- Est. replace (m + 1) with N in * by lia. done.
  - apply (IH (m + 1) a1 aSub1 s (m + 1 - 2 ^ s) n); (done || lia).
Qed.

Lemma last_loop_spec N fuel : forall a aSub b n, N <= Z.of_nat (length c) -> 0 < N <= 4096 -> Z.of_nat (length a) = N ->
  0 <= b -> 13 - b <= Z.of_nat fuel -> holds a n (N / 2 ^ b * 2 ^ b) N -> subs_ok a aSub N b ->
  exists a' n', last_loop fuel c a aSub N b (N / 2 ^ b * 2 ^ b) n = Some (a', (if b <? 13 then 0 else N / 2 ^ b * 2 ^ b), n') /\
    holds a' n' 0 N /\ length a' = length a.
Proof.
  induction fuel as [|fuel IH]; intros a aSub b n HN HN4 Hl Hb Hf Hh Hsub; cbn [last_loop]; destruct (Z.ltb_spec b 13) as [Hlt|Hge];
    try lia.
  1,3: exists a, n; split; [done|]; split; [|done];
    pose proof (Z.pow_le_mono_r 2 13 b ltac:(lia) ltac:(lia)) as Hp; change (2 ^ 13) with 8192 in Hp;
    by rewrite (Z.div_small N (2 ^ b)) in Hh by lia.
  assert (Hpow : b + 1 <= 13) by lia. rewrite land_bit by done.
  assert (Hfin : forall a1 n1, length a1 = length a -> holds a1 n1 (start N b) N -> subs_ok a1 aSub N (b + 1) ->
    exists a' n', last_loop fuel c a1 aSub N (b + 1) (start N b) n1 = Some (a', 0, n') /\ holds a' n' 0 N /\ length a' = length a).
  { intros a1 n1 Hl1 Hh1 Hs1. unfold start in *.
    destruct (IH a1 aSub (b + 1) n1) as (a' & n' & -> & Hh' & Hl'); try done; try lia. exists a', n'. split; [|split; [done|congruence]].
    destruct (Z.ltb_spec (b + 1) 13); [done|]. replace (b + 1) with 13 by lia. by rewrite (Z.div_small N) by (change (2 ^ 13) with 8192; lia). }
  destruct (Z.testbit N b) eqn:Ebit.
  - destruct (Hsub b ltac:(lia) Hb Ebit) as (pn & -> & Hp). cbn [mbind option_bind]. rewrite start_bit in Hp by done.
    pose proof (Z.pow_pos_nonneg 2 b ltac:(lia) Hb). pose proof (start_bit N b Hb Ebit).
    pose proof (Z.mul_div_le N (2 ^ b) ltac:(lia)).
    destruct (walMerge_spec a pn n (start N b) (N / 2 ^ b * 2 ^ b) N) as (a1 & n1 & -> & Hh1 & Hl1 & He1); [lia|lia|done|done|].
    cbn [mbind option_bind]. apply Hfin; [done|done|].
    apply (subs_ok_ext a a1 aSub N (b + 1) (start N b)); [done|intros i Hi; apply He1; lia| |by apply (subs_ok_mono _ _ _ b); [lia|]].
    intros b' Hb' Hb0' Hbit'. rewrite start_bit by done. unfold start.
    replace b' with ((b + 1) + (b' - (b + 1))) by lia. rewrite Z.pow_add_r, <- Z.div_div by (try apply Z.pow_nonzero; try apply Z.pow_pos_nonneg; lia).
    pose proof (Z.mul_div_le (N / 2 ^ (b + 1)) (2 ^ (b' - (b + 1))) ltac:(apply Z.pow_pos_nonneg; lia)).
    pose proof (Z.pow_pos_nonneg 2 (b + 1)). nia.
  - rewrite <- start_nobit in * by done. apply Hfin; try done. by apply (subs_ok_mono _ _ _ b); [lia|].
Qed.

Lemma walMergesort_holds n : 0 < n <= 4096 -> n <= Z.of_nat (length c) ->
  exists a m, walMergesort c (u16 <$> seqZ 0 n) n = Some (a, m) /\ holds a m 0 n /\ Z.of_nat (length a) = n.
Proof.
  intros Hn Hc. set (a0 := u16 <$> seqZ 0 n).
  assert (Hid : forall i, 0 <= i < n -> rd a0 i = Some i).
  { intros i Hi. unfold a0, rd. rewrite (proj2 (Z.ltb_ge _ _)) by lia. rewrite list_lookup_fmap, lookup_seqZ_lt by lia.
    simpl. f_equal. unfold u16. rewrite Z.mod_small; lia. }
  assert (Hl0 : Z.of_nat (length a0) = n) by (unfold a0; rewrite length_fmap, length_seqZ; lia).
  unfold walMergesort. replace (Z.to_nat n) with (S (Z.to_nat (n - 1))) by lia.
  destruct (list_loop_spec n (Z.to_nat (n - 1)) 0 a0 (replicate 13 (0, 0)) 0 0 0) as (a & aSub & s & m & -> & Hinv & Hs & Hh); try lia.
  { split_and!; [done|done|done|]. intros b _ _ Hbit. by rewrite Z.bits_0 in Hbit. }
  cbn [mbind option_bind]. destruct Hinv as (Hl & _ & _ & Hsub). unfold start in *.
  destruct (last_loop_spec n 13 a aSub (s + 1) m) as (a' & m' & -> & Hh' & Hl'); try done; try lia.
  { by apply (subs_ok_mono _ _ _ 0); [lia|]. }
  cbn [mbind option_bind]. exists a', m'. split; [done|]. split; [done|lia].
Qed.

Lemma asc_lookup l k k' x y : StronglySorted asc l -> l !! k = Some x -> l !! k' = Some y -> (k < k')%nat -> cc x < cc y.
Proof.
  intros Hs. revert k k'. induction Hs as [|z l Hs IH Hz]; intros [|k] [|k'] Hx Hy Hk; try done; try lia; simpl in *.
  - injection Hx as ->. eapply Forall_forall in Hz; [|by eapply list_elem_of_lookup_2]. done.
  - apply (IH k k'); (done || lia).
Qed.

(** An entry of a sorted sub-list is the last one of its page. *)
Lemma good_last l lo hi x j : good l lo hi -> x ∈ l -> x < j < hi -> cc j <> cc x.
Proof.
  intros (Hs & Hr & Hc & _) Hx Hj E. destruct (Hc j) as (y & Hy & Hjy & Hcy); [pose proof (Hr x Hx); lia|].
  apply list_elem_of_lookup in Hx as [k Hk]. apply list_elem_of_lookup in Hy as [k' Hk'].
  destruct (Nat.lt_trichotomy k k') as [Hlt|[->|Hlt]].
  - pose proof (asc_lookup l k k' x y Hs Hk Hk' Hlt). lia.
  - rewrite Hk in Hk'. injection Hk' as ->. lia.
  - pose proof (asc_lookup l k' k y x Hs Hk' Hk Hlt). lia.
Qed.
End sort_proofs.

(** [walMergesort] sorts without losing the latest frames: run on the identity index
    over the page numbers of up to 4096 frames it ends, stays inside its arrays, and leaves
    an index whose page numbers strictly ascend, in which every page of the input occurs,
    at its last position. *)
Theorem mergesort_keeps_latest aContent n :
  0 < n <= HASHTABLE_NPAGE -> n <= Z.of_nat (length aContent) ->
  exists aList m, walMergesort aContent (u16 <$> seqZ 0 n) n = Some (aList, m) /\ 0 < m <= n /\
    (forall i j x y, 0 <= i < j -> j < m -> rd aList i = Some x -> rd aList j = Some y ->
       exists p q, rd aContent x = Some p /\ rd aContent y = Some q /\ p < q) /\
    (forall i x, 0 <= i < m -> rd aList i = Some x -> 0 <= x < n /\ forall j, x < j < n -> rd aContent j <> rd aContent x) /\
    (forall j, 0 <= j < n -> exists i x, 0 <= i < m /\ rd aList i = Some x /\ rd aContent x = rd aContent j).
Proof.
  intros Hn Hc. change HASHTABLE_NPAGE with 4096 in Hn.
  destruct (walMergesort_holds aContent n Hn Hc) as (a & m & Hw & (_ & _ & Hg & Hm) & Hl).
  exists a, m. split; [done|]. pose proof Hg as (Hs & Hr & Hcov & Hle).
  assert (Hlk : forall i x, 0 <= i < m -> rd a i = Some x -> sub_array a 0 m !! Z.to_nat i = Some x).
  { intros i x Hi Hx. rewrite sub_array_lookup by lia. by rewrite Z.add_0_l, Z2Nat.id by lia. }
  assert (Hin : forall i x, 0 <= i < m -> rd a i = Some x -> x ∈ sub_array a 0 m) by (intros; eapply list_elem_of_lookup_2; eauto).
  assert (Hrd : forall x, 0 <= x < n -> rd aContent x = Some (default 0 (rd aContent x))).
  { intros x Hx. apply rd_inside. unfold inside. lia. }
  split_and!; [|lia| | |].
  - destruct (Hcov 0) as (x & Hx & _); [lia|]. destruct (sub_array a 0 m); [by apply elem_of_nil in Hx|simpl in Hm; lia].
  - intros i j x y Hij Hj Hx Hy. eexists _, _. split; [apply Hrd, Hr; eapply Hin; [|done]; lia|].
    split; [apply Hrd, Hr; eapply Hin; [|done]; lia|].
    apply (asc_lookup aContent _ (Z.to_nat i) (Z.to_nat j) x y Hs); [apply Hlk; (done || lia)|apply Hlk; (done || lia)|lia].
  - intros i x Hi Hx. pose proof (Hin i x Hi Hx) as Hx'. split; [by apply Hr|]. intros j Hj E.
    apply (good_last aContent _ 0 n x j Hg Hx' Hj). by rewrite E.
  - intros j Hj. destruct (Hcov j) as (x & Hx & _ & Hcx); [lia|]. pose proof Hx as Hx'.
    apply list_elem_of_lookup in Hx as [k Hk]. pose proof (lookup_lt_Some _ _ _ Hk).
    exists (Z.of_nat k), x. split; [lia|]. split; [by rewrite sub_array_lookup, Z.add_0_l in Hk by lia|].
    rewrite (Hrd x), (Hrd j) by (lia || by apply Hr). by rewrite Hcx.
Qed.

Lemma mergesort_keeps_latest_witness :
  walMergesort [7; 3; 7; 9; 3] (u16 <$> seqZ 0 5) 5 = Some ([4; 2; 3; 3; 4], 3) /\
  exists aList m, walMergesort [7; 3; 7; 9; 3] (u16 <$> seqZ 0 5) 5 = Some (aList, m) /\ 0 < m <= 5.
Proof.
  split; [vm_compute; reflexivity|].
  destruct (mergesort_keeps_latest [7; 3; 7; 9; 3] 5 ltac:(vm_compute; split; congruence) ltac:(vm_compute; congruence))
    as (a & m & Hw & Hm & _). exists a, m. split; [exact Hw|exact Hm].
Defined.

(** ** The iterator *)

Lemma rd_drop {A} (l : list A) k j : 0 <= j -> rd (drop k l) j = rd l (Z.of_nat k + j).
Proof. intros. unfold rd. rewrite !(proj2 (Z.ltb_ge _ _)) by lia. rewrite lookup_drop. f_equal. lia. Qed.

Section iter_proofs.
Context (L : list Z) (n : Z).
Context (Hn : 1 <= n <= Z.of_nat (length L)) (HnL : n < 2 ^ 31 - 1) (HF : Forall (fun p => 0 < p < 0xFFFFFFFF) (take (Z.to_nat n) L)).

(** How many frames up to [n] page [i] of the wal-index covers. *)
Definition covered (i : Z) : Z := Z.min (frame_cap i) (n - frame_zero i).

(** Segment [s] of the iterator, for page [i] of the index, when pages up to [iMin] have been visited. *)
Definition seg_rep (i iMin : Z) (s : WalSegment) : Prop :=
  0 < covered i /\ (forall j, 0 <= j < covered i -> rd (aPgno s) j = entry L (frame_zero i + 1 + j)) /\
  holds (aPgno s) (aIndex s) (nEntry s) 0 (covered i) /\ iZero s = frame_zero i + 1 /\ 0 <= iNext s <= nEntry s /\
  (forall k x, 0 <= k < iNext s -> rd (aIndex s) k = Some x -> default 0 (rd (aPgno s) x) <= iMin).

Lemma entry_pos f : 1 <= f <= n -> exists p, entry L f = Some p /\ 0 < p < 0xFFFFFFFF.
Proof using Hn HF.
  intros Hf. unfold entry. rewrite (proj2 (Z.leb_gt _ _)) by lia.
  destruct (lookup_lt_is_Some_2 L (Z.to_nat (f - 1))) as [p Hp]; [lia|]. exists p. split; [done|].
  apply (Forall_lookup_1 _ _ (Z.to_nat (f - 1)) p HF). by rewrite lookup_take_lt by lia.
Qed.

(** The entry a segment offers: the first one after the pages up to [iMin]. *)
Definition offers (s : WalSegment) (iMin p k : Z) : Prop :=
  rd (aIndex s) (iNext s) = Some k /\ rd (aPgno s) k = Some p /\ iMin < p.

Lemma segment_scan_spec i iMin iRet fr fuel : 0 <= i -> forall s, seg_rep i iMin s -> nEntry s - iNext s <= Z.of_nat fuel ->
  exists s', seg_rep i iMin s' /\ aIndex s' = aIndex s /\ aPgno s' = aPgno s /\ nEntry s' = nEntry s /\
    ((iNext s' = nEntry s /\ segment_scan fuel s iMin iRet fr = Some (s', iRet, fr)) \/
     (exists p k, iNext s' < nEntry s /\ offers s' iMin p k /\
        segment_scan fuel s iMin iRet fr = Some (s', if p <? iRet then p else iRet, if p <? iRet then u32 (iZero s + k) else fr))).
Proof using Hn HF.
  intros Hi. induction fuel as [|fuel IH]; intros s Hs Hf; pose proof Hs as (Hcov & Hpg & Hh & Hz & Hnx & Hdone); cbn [segment_scan].
  { rewrite (proj2 (Z.ltb_ge _ _)) by lia. exists s. split_and!; try done. left. split; [lia|done]. }
  destruct (Z.ltb_spec (iNext s) (nEntry s)) as [Hlt|Hge].
  2: { exists s. split_and!; try done. left. split; [lia|done]. }
  pose proof Hh as (_ & _ & (Hso & Hr & _) & Hlen). destruct (rd_is_Some (sub_array (aIndex s) 0 (nEntry s)) (iNext s)) as [k Hk]; [lia|].
  assert (Hk' : rd (aIndex s) (iNext s) = Some k).
  { apply rd_Some in Hk as [_ Hk]. rewrite sub_array_lookup in Hk by lia. by rewrite Z.add_0_l, Z2Nat.id in Hk by lia. }
  assert (Hkr : 0 <= k < covered i) by (apply Hr; apply rd_Some in Hk as [_ Hk]; by eapply list_elem_of_lookup_2).
  destruct (entry_pos (frame_zero i + 1 + k)) as (p & Hp & Hp0).
  { unfold covered in Hkr. pose proof (frame_zero_nonneg i Hi). lia. }
  assert (Hpk : rd (aPgno s) k = Some p) by by rewrite Hpg.
  rewrite Hk'. cbn [mbind option_bind]. rewrite Hpk. cbn [mbind option_bind].
  destruct (Z.ltb_spec iMin p) as [Hmin|Hmin].
  - exists s. split_and!; try done. right. exists p, k. split; [done|]. split; [done|]. by case_bool.
  - set (s1 := mkSegment _ _ _ _ _). destruct (IH s1) as (s' & Hrep & E1 & E2 & E3 & Hcase).
    + split_and!; try done; cbn; try lia. intros j x Hj Hx. destruct (decide (j = iNext s)) as [->|].
      * rewrite Hk' in Hx. injection Hx as <-. rewrite Hpk. done.
      * apply (Hdone j); (done || lia).
    + cbn. lia.
    + exists s'. by split_and!.
Qed.

(** What a scan of the segments from page [i] on finds. *)
Definition next_from (i iMin iRet fr : Z) : Prop :=
  (iRet = 0xFFFFFFFF /\ forall f p, frame_zero i < f <= n -> entry L f = Some p -> p <= iMin) \/
  (iMin < iRet < 0xFFFFFFFF /\ entry L fr = Some iRet /\ frame_zero i < fr <= n /\
   (forall f p, frame_zero i < f <= n -> entry L f = Some p -> p <= iMin \/ iRet <= p) /\
   (forall f, fr < f <= n -> entry L f <> Some iRet)).

(** The pages of a segment, seen from the entry it offers. *)
Lemma offers_spec i iMin s p k : 0 <= i -> seg_rep i iMin s -> offers s iMin p k -> iNext s < nEntry s ->
  entry L (frame_zero i + 1 + k) = Some p /\ 0 <= k < covered i /\ p < 0xFFFFFFFF /\
  (forall f q, frame_zero i < f <= frame_zero i + covered i -> entry L f = Some q -> q <= iMin \/ p <= q) /\
  (forall f, frame_zero i + 1 + k < f <= frame_zero i + covered i -> entry L f <> Some p).
Proof using Hn HF.
  intros Hi (Hcov & Hpg & Hh & Hz & Hnx & Hdone) (Hk & Hp & Hmin) Hlt. pose proof Hh as (_ & _ & Hg & Hlen).
  pose proof Hg as (Hso & Hr & Hall & _).
  assert (Hlk : sub_array (aIndex s) 0 (nEntry s) !! Z.to_nat (iNext s) = Some k).
  { rewrite sub_array_lookup by lia. by rewrite Z.add_0_l, Z2Nat.id by lia. }
  assert (Hkin : k ∈ sub_array (aIndex s) 0 (nEntry s)) by by eapply list_elem_of_lookup_2.
  pose proof (Hr k Hkin) as Hkr.
  assert (Hfr : forall f, frame_zero i < f <= frame_zero i + covered i ->
    0 <= f - frame_zero i - 1 < covered i /\ rd (aPgno s) (f - frame_zero i - 1) = entry L f).
  { intros f Hf. split; [lia|]. rewrite Hpg by lia. f_equal. lia. }
  split_and!; try lia.
  - by rewrite <- Hpg.
  - destruct (entry_pos (frame_zero i + 1 + k)) as (p' & Hp' & ?); [unfold covered in *; pose proof (frame_zero_nonneg i Hi); lia|].
    rewrite <- Hpg, Hp in Hp' by done. injection Hp' as <-. lia.
  - intros f q Hf Hq. destruct (Hfr f Hf) as [Hj Hrd]. rewrite Hq in Hrd.
    destruct (Hall (f - frame_zero i - 1) Hj) as (x & Hx & _ & Hcx). rewrite Hrd in Hcx. simpl in Hcx. rewrite <- Hcx.
    apply list_elem_of_lookup in Hx as [m Hm]. pose proof (lookup_lt_Some _ _ _ Hm).
    destruct (Nat.lt_trichotomy m (Z.to_nat (iNext s))) as [Hl|[->|Hl]].
    + left. apply (Hdone (Z.of_nat m)); [lia|]. rewrite sub_array_lookup in Hm by lia. by rewrite Z.add_0_l in Hm.
    + right. rewrite Hlk in Hm. injection Hm as ->. by rewrite Hp.
    + right. pose proof (asc_lookup (aPgno s) _ _ _ _ _ Hso Hlk Hm Hl). rewrite Hp in *. simpl in *. lia.
  - intros f Hf E. destruct (Hfr f ltac:(lia)) as [Hj Hrd].
    apply (good_last (aPgno s) _ 0 (covered i) k (f - frame_zero i - 1) Hg Hkin); [lia|]. by rewrite Hrd, E, Hp.
Qed.

Lemma exhausted_spec i iMin s : seg_rep i iMin s -> iNext s = nEntry s ->
  forall f q, frame_zero i < f <= frame_zero i + covered i -> entry L f = Some q -> q <= iMin.
Proof using Type.
  intros (Hcov & Hpg & (_ & _ & (_ & _ & Hall & _) & Hlen) & _ & _ & Hdone) Hend f q Hf Hq.
  destruct (Hall (f - frame_zero i - 1)) as (x & Hx & _ & Hcx); [lia|]. rewrite (Hpg (f - frame_zero i - 1)) in Hcx by lia.
  replace (frame_zero i + 1 + (f - frame_zero i - 1)) with f in Hcx by lia. rewrite Hq in Hcx. simpl in Hcx. rewrite <- Hcx.
  apply list_elem_of_lookup in Hx as [m Hm]. pose proof (lookup_lt_Some _ _ _ Hm).
  apply (Hdone (Z.of_nat m)); [lia|]. rewrite sub_array_lookup in Hm by lia. by rewrite Z.add_0_l in Hm.
Qed.

(** The segments from page [i] to the last. *)
Fixpoint segs_rep (i iMin : Z) (ss : list WalSegment) : Prop :=
  match ss with
  | [] => n <= frame_zero i
  | s :: ss => seg_rep i iMin s /\ segs_rep (i + 1) iMin ss
  end.

Lemma segs_rep_mono iMin iMin' ss : iMin <= iMin' -> forall i, segs_rep i iMin ss -> segs_rep i iMin' ss.
Proof using Type.
  intros Hle. induction ss as [|s ss IH]; intros i; [done|]. intros [(H1 & H2 & H3 & H4 & H5 & Hdone) Hss].
  split; [|by apply IH]. split_and!; try done; try lia. intros k x Hk Hx. specialize (Hdone k x Hk Hx). lia.
Qed.

(** Frames from page [i] on: those of the page and those of the later pages. *)
Lemma frame_cases i f : 0 <= i -> frame_zero i < f <= n -> f <= frame_zero i + covered i \/ frame_zero (i + 1) < f.
Proof using Hn. intros Hi Hf. rewrite frame_zero_next by done. unfold covered. lia. Qed.

Lemma next_combine i iMin s' iRet fr p k : 0 <= i -> seg_rep i iMin s' -> offers s' iMin p k -> iNext s' < nEntry s' ->
  next_from (i + 1) iMin iRet fr ->
  next_from i iMin (if p <? iRet then p else iRet) (if p <? iRet then frame_zero i + 1 + k else fr).
Proof using Hn HF HnL.
  intros Hi Hs Ho Hlt Hnext. destruct (offers_spec i iMin s' p k Hi Hs Ho Hlt) as (Hp & Hk & Hpm & Hge & Hlast).
  pose proof Ho as (_ & _ & Hmin). pose proof (frame_cap_pos i). pose proof (frame_zero_next i Hi) as Hz.
  assert (Hkn : frame_zero i + 1 + k <= n) by (unfold covered in Hk; lia).
  destruct (Z.ltb_spec p iRet) as [Hlp|Hlp]; right.
  - split_and!; try done; try lia.
    + intros f q Hf Hq. destruct (frame_cases i f Hi Hf) as [Hc|Hc]; [apply (Hge f); (done || lia)|].
      destruct Hnext as [[-> H0]|(? & ? & ? & H0 & _)]; [left; apply (H0 f); (done || lia)|].
      destruct (H0 f q); [lia|done|by left|right; lia].
    + intros f Hf E. destruct (frame_cases i f Hi ltac:(lia)) as [Hc|Hc]; [apply (Hlast f); (done || lia)|].
      destruct Hnext as [[-> H0]|(? & ? & ? & H0 & _)]; [specialize (H0 f p ltac:(lia) E); lia|].
      destruct (H0 f p); [lia|done|lia|lia].
  - destruct Hnext as [[-> H0]|(Hr & Hfr & Hfn & H0 & Hl)]; [lia|]. split_and!; try done; try lia.
    intros f q Hf Hq. destruct (frame_cases i f Hi Hf) as [Hc|Hc]; [|apply (H0 f); (done || lia)].
    destruct (Hge f q ltac:(lia) Hq); [by left|right; lia].
Qed.

Lemma segments_scan_spec iMin fr ss : forall i, 0 <= i < 2 ^ 20 - Z.of_nat (length ss) -> segs_rep i iMin ss ->
  exists ss' iRet fr', segments_scan ss iMin fr = Some (ss', iRet, fr') /\ segs_rep i iMin ss' /\ next_from i iMin iRet fr'.
Proof using Hn HF HnL.
  induction ss as [|s ss IH]; intros i Hi Hrep; cbn [segments_scan].
  { exists [], 0xFFFFFFFF, fr. split; [done|]. split; [done|]. left. split; [done|]. simpl in Hrep. intros. lia. }
  destruct Hrep as [Hs Hss]. simpl in Hi. destruct (IH (i + 1)) as (ss' & iRet & fr' & -> & Hss' & Hnext); [lia|done|].
  cbn [mbind option_bind]. pose proof Hs as (_ & _ & _ & Hz & Hnx & _).
  destruct (segment_scan_spec i iMin iRet fr' (Z.to_nat (nEntry s - iNext s)) ltac:(lia) s Hs ltac:(lia))
    as (s' & Hs' & _ & _ & En & [[Hend ->]|(p & k & Hlt & Ho & ->)]); cbn [mbind option_bind]; eexists _, _, _;
    (split; [done|]); (split; [by split|]).
  - destruct Hnext as [[-> H0]|(Hr & Hfr & Hfn & H0 & Hl)].
    + left. split; [done|]. intros f q Hf Hq. destruct (frame_cases i f ltac:(lia) Hf) as [Hc|Hc]; [|apply (H0 f); (done || lia)].
      eapply (exhausted_spec i iMin s' Hs' ltac:(lia) f); (done || lia).
    + right. pose proof (frame_zero_next i ltac:(lia)). pose proof (frame_cap_pos i). split_and!; try done; try lia.
      intros f q Hf Hq. destruct (frame_cases i f ltac:(lia) Hf) as [Hc|Hc]; [|apply (H0 f); (done || lia)].
      left. eapply (exhausted_spec i iMin s' Hs' ltac:(lia) f); (done || lia).
  - destruct (offers_spec i iMin s' p k ltac:(lia) Hs' Ho ltac:(lia)) as (_ & Hk & _). rewrite Hz, u32_small.
    + apply (next_combine i iMin s'); (done || lia).
    + unfold is_u32. unfold covered in Hk. pose proof (frame_zero_nonneg i). lia.
Qed.

(** Draining an iterator, as the checkpoint loop does: [while( 0==walIteratorNext(...) )]. *)
Fixpoint visit (fuel : nat) (p : WalIterator) : option (list (Z * Z)) :=
  match fuel with
  | O => None
  | S fuel =>
      '(isDone, p, page, frame) ← walIteratorNext p 0;
      if isDone : bool then Some [] else l ← visit fuel p; Some ((page, frame) :: l)
  end.

Definition above (iMin : Z) : nat := length (filter (fun p => iMin < p) (take (Z.to_nat n) L)).

Lemma above_lt iMin p f : iMin < p -> f <= n -> entry L f = Some p -> (above p < above iMin)%nat.
Proof using Hn.
  intros Hlt Hf He. unfold above. unfold entry in He. case_bool; [done|]. zbool.
  assert (Ht : take (Z.to_nat n) L !! Z.to_nat (f - 1) = Some p) by (rewrite lookup_take_lt by lia; done).
  rewrite <- (take_drop_middle _ _ _ Ht), !filter_app, !length_app, !filter_cons.
  rewrite decide_False, decide_True by lia. simpl.
  assert (Hle : forall l, (length (filter (fun q => (p < q)%Z) l) <= length (filter (fun q => (iMin < q)%Z) l))%nat).
  { intros l. induction l as [|q l IHl]; [done|]. rewrite !filter_cons. repeat case_decide; simpl; lia. }
  pose proof (Hle (take (Z.to_nat (f - 1)) (take (Z.to_nat n) L))).
  pose proof (Hle (drop (S (Z.to_nat (f - 1))) (take (Z.to_nat n) L))). lia.
Qed.

(** The pages above [iMin] and their last frames, in page order. *)
Definition visited (iMin : Z) (l : list (Z * Z)) : Prop :=
  StronglySorted (fun a b => a.1 < b.1) l /\ forall page f, (page, f) ∈ l <-> iMin < page /\ f <> 0 /\ is_latest L n page f.

Lemma visit_spec fuel : forall iMin ss, 0 <= iMin < 0xFFFFFFFF -> Z.of_nat (length ss) < 2 ^ 20 -> segs_rep 0 iMin ss ->
  (above iMin < fuel)%nat ->
  exists l, visit fuel (mkIter (i32 iMin) ss) = Some l /\ visited iMin l.
Proof using Hn HF HnL.
  induction fuel as [|fuel IH]; intros iMin ss HiM Hlen Hss Hf; [lia|]. cbn [visit]. unfold walIteratorNext. cbn [iPrior aSegment].
  rewrite u32_i32, u32_small by (unfold is_u32; lia).
  destruct (segments_scan_spec iMin 0 ss 0 ltac:(lia) Hss) as (ss' & iRet & fr & Hsc & Hss' & Hnext). rewrite Hsc. cbn [mbind option_bind].
  assert (Hlen' : length ss' = length ss).
  { clear -Hsc. revert ss' iRet fr Hsc. induction ss as [|s ss IHs]; intros ss' iRet fr Hsc; cbn [segments_scan] in Hsc; [by injection Hsc as <- _ _|].
    destruct (segments_scan ss iMin 0) as [[[ss1 r1] f1]|]; [|done]. cbn [mbind option_bind] in Hsc.
    destruct (segment_scan _ s iMin r1 f1) as [[[s1 r2] f2]|]; [|done]. injection Hsc as <- _ _. simpl. f_equal. by eapply IHs. }
  unfold next_from in Hnext. change (frame_zero 0) with 0 in *. destruct Hnext as [[-> H0]|(Hr & Hfr & Hfn & H0 & Hl)].
  - exists []. split; [done|]. split; [constructor|]. intros page f. split; [by intros ?%elem_of_nil|].
    intros (Hp & Hf0 & [[? _]|(He & Hfn & _)]); [done|]. pose proof (entry_range _ _ _ He). specialize (H0 f page ltac:(lia) He). lia.
  - rewrite (proj2 (Z.eqb_neq _ _)) by lia. rewrite u32_i32, u32_small by (unfold is_u32; lia).
    destruct (IH iRet ss') as (l & -> & Hsort & Hl'); [lia|lia|by eapply segs_rep_mono; [|done]; lia|pose proof (above_lt iMin iRet fr ltac:(lia) ltac:(lia) Hfr); lia|].
    cbn [mbind option_bind]. exists ((iRet, fr) :: l). split; [done|]. split.
    + constructor; [done|]. apply Forall_forall. intros [q g] Hq%Hl'. simpl. lia.
    + intros page f. rewrite elem_of_cons, Hl'. split.
      * intros [[= -> ->]|(? & ? & ?)]; [|split; [lia|done]]. split; [lia|]. split; [lia|]. right. split_and!; (done || lia).
      * intros (Hp & Hf0 & Hlat). pose proof Hlat as [[? _]|(He & Hfn' & Hla)]; [done|]. pose proof (entry_range _ _ _ He).
        destruct (H0 f page ltac:(lia) He) as [?|Hge]; [lia|]. destruct (decide (page = iRet)) as [->|]; [left|right; split_and!; (done || lia)].
        f_equal. destruct (Z.lt_trichotomy f fr) as [?|[?|?]]; [|done|].
        -- destruct (Hla fr); [lia|done].
        -- destruct (Hl f); [lia|done].
Qed.

(** ** Building the iterator *)

Context (realloc_ok : Z -> bool) (xShmMap : Z -> Z * option WiPage).

Lemma init_segments_spec w : index_rep w L -> forall k i, 0 <= i -> i + Z.of_nat k = walFramePage n + 1 ->
  exists ss, init_segments realloc_ok xShmMap k w i (walFramePage n + 1) n = Some (SQLITE_OK, w, ss) /\ segs_rep i 0 ss /\ length ss = k.
Proof using Hn HF HnL.
  intros Hrep. pose proof Hrep as (Hd & HL & _ & Hp). pose proof (frame_zero_page n ltac:(lia)) as Hz.
  destruct (walFramePage_spec n ltac:(lia)) as (Hpg & _).
  induction k as [|k IH]; intros i Hi Hk; cbn [init_segments].
  { exists []. split; [done|]. split; [|done]. simpl. replace i with (walFramePage n + 1) by lia. lia. }
  assert (Hlt : frame_zero i < n).
  { destruct (decide (i = walFramePage n)) as [->|]; [lia|]. pose proof (frame_zero_mono i (walFramePage n)). pose proof (frame_cap_pos i). lia. }
  destruct (Hp i Hi ltac:(lia)) as (pg & Hg & Hr). rewrite (walHashGet_mapped _ _ _ _ _ Hg). simpl negb. cbn iota. rewrite Hg.
  cbn [mbind option_bind]. pose proof (hash_off_range i). pose proof (frame_cap_pos i). pose proof (frame_zero_nonneg i Hi).
  rewrite hash_zero_eq by lia. pose proof (frame_zero_next i Hi) as Hnx.
  assert (Hne : (if i + 1 =? walFramePage n + 1 then i32 (n - frame_zero i) else HASHTABLE_NPAGE - (hash_off i + 1)) = covered i).
  { change HASHTABLE_NPAGE with 4096. assert (frame_cap i = 4095 - hash_off i) by done. unfold covered. case_bool; zbool.
    - rewrite i32_small by (unfold is_i32; lia). replace (walFramePage n + 1) with (i + 1) in Hz by lia. lia.
    - pose proof (frame_zero_mono i (walFramePage n)). lia. }
  rewrite Hne. set (c := drop _ (words pg)). pose proof (seg_length L i Hi) as Hsl. pose proof Hr as ((Hw & _) & _ & Hfit & Hdr).
  assert (Hc : forall j, 0 <= j < covered i -> rd c j = entry L (frame_zero i + 1 + j)).
  { intros j Hj. unfold c. rewrite rd_drop by lia. unfold covered in Hj.
    replace (Z.of_nat (Z.to_nat (hash_off i + 1)) + j) with (hash_off i + (j + 1)) by lia.
    rewrite (page_word (hash_off i) pg (seg L i)) by (done || lia). rewrite seg_entry by lia. f_equal. lia. }
  destruct (walMergesort_holds c (covered i)) as (a & m & -> & Hh & Hla).
  { unfold covered. lia. }
  { unfold c. rewrite length_drop. assert (frame_cap i = 4095 - hash_off i) by done. unfold covered. lia. }
  cbn [mbind option_bind]. destruct (IH (i + 1)) as (ss & -> & Hss & Hlss); [lia|lia|]. cbn [mbind option_bind].
  eexists. split; [done|]. split; [|simpl; by rewrite Hlss]. split; [|done].
  pose proof Hh as (_ & _ & _ & Hm). split_and!; cbn [aPgno aIndex nEntry iZero iNext]; try done; try lia.
  - unfold covered. lia.
  - apply u32_small. unfold is_u32. lia.
Qed.
End iter_proofs.

(** The checkpoint iterator visits every page of the log once, in ascending order of
    page number, with the last frame that holds it.  Enter and commit any frames (fewer
    than 2^31-1, page numbers below 0xFFFFFFFF) into the index of an empty log, whatever
    the shared memory held before; then [walIteratorInit] succeeds, and stepping the
    iterator until it reports the end yields exactly those pairs. *)
Theorem iterator_visits_latest realloc_ok xShmMap scratch_ok pg rl nc w0 ps nTruncate szPage w :
  shm_contract xShmMap -> (forall n, scratch_ok n = true) -> page_dims pg -> rl <> 0 -> 0 < szPage < 2 ^ 16 ->
  walIndexWriteHdr (empty_wal pg rl nc) = Some w0 ->
  ps <> [] -> Forall (fun p => 0 < p < 0xFFFFFFFF) ps -> Z.of_nat (length ps) < 2 ^ 31 - 1 ->
  frames_index realloc_ok xShmMap w0 ps 0 true nTruncate szPage = Some (SQLITE_OK, w) ->
  exists p l, walIteratorInit realloc_ok xShmMap scratch_ok w = Some (SQLITE_OK, w, Some p) /\
    visit (S (length ps)) p = Some l /\ StronglySorted (fun a b => a.1 < b.1) l /\
    forall page f, (page, f) ∈ l <-> f <> 0 /\ latest ps (length ps) page = f.
Proof.
  intros Hshm Hscr Hd Hrl Hsz Hw0 Hne HF Hlen Hfr.
  pose proof (empty_wal_inv szPage pg rl nc w0 Hd Hrl Hw0) as Hinv.
  assert (HF0 : Forall (fun p => 0 < p) ps) by (eapply Forall_impl; [done|]; simpl; lia).
  destruct (frames_step realloc_ok xShmMap Hshm szPage (fun _ _ => (0, [])) 0 Hsz _ _ ps 0 true nTruncate Hinv) as (x & s' & st' & Hex & Hst & Hinv' & _).
  { by split. }
  { cbn. lia. }
  unfold wal_exec in Hex. rewrite Hfr in Hex. injection Hex as <- <-.
  assert (Hrep : exists J, index_rep w (ps ++ J) /\ mxFrame (hdr w) = Z.of_nat (length ps)).
  { revert Hinv'. inversion Hst as [|? ? ? ? ? ? ? ? Herr| | | | |]; subst; [|by destruct Herr].
    unfold sqlite3WalSavepoint. cbn. rewrite app_nil_r. intros ([J HJ] & Hmx & _). by exists J. }
  destruct Hrep as (J & Hrep & Hmx). pose proof Hrep as (_ & HL & _). rewrite length_app in HL.
  assert (Hpos : (0 < length ps)%nat) by (destruct ps; [done|simpl; lia]).
  assert (HF' : Forall (fun p => 0 < p < 0xFFFFFFFF) (take (Z.to_nat (Z.of_nat (length ps))) (ps ++ J)))
    by by rewrite Nat2Z.id, take_app_length.
  destruct (walFramePage_spec (Z.of_nat (length ps)) ltac:(lia)) as (Hpg & _).
  destruct (init_segments_spec (ps ++ J) (Z.of_nat (length ps)) ltac:(rewrite length_app; lia) ltac:(lia) HF' realloc_ok xShmMap w Hrep
    (Z.to_nat (walFramePage (Z.of_nat (length ps)) + 1)) 0 ltac:(lia) ltac:(lia)) as (ss & Hin & Hss & Hls).
  destruct (visit_spec (ps ++ J) (Z.of_nat (length ps)) ltac:(rewrite length_app; lia) ltac:(lia) HF' (S (length ps)) 0 ss) as (l & Hv & Hso & Hl).
  { lia. }
  { rewrite Hls. rewrite walFramePage_eq in * by lia. rewrite Z2Nat.id by lia. dlia. }
  { done. }
  { unfold above. pose proof (length_filter (fun p => 0 < p) (take (Z.to_nat (Z.of_nat (length ps))) (ps ++ J))).
    rewrite Nat2Z.id, take_app_length in *. lia. }
  exists (mkIter 0 ss), l. split; [|split; [done|split; [done|]]].
  - unfold walIteratorInit. rewrite !Hscr, Hmx. simpl negb. cbn iota. by rewrite Hin.
  - intros page f. rewrite Hl. assert (Hll : is_latest (ps ++ J) (Z.of_nat (length ps)) page f <-> latest ps (length ps) page = f).
    { split; [intros H; symmetry; by apply is_latest_app in H|]. intros <-. apply is_latest_pad, latest_is_latest. }
    rewrite Hll. split; [tauto|]. intros [Hf0 Hf]. split_and!; try done.
    apply Hll in Hf as [[? _]|(He & _)]; [done|]. 
    unfold entry in He. case_bool; [done|]. zbool. destruct Hrep as (_ & _ & HFr & _). by apply (Forall_lookup_1 _ _ _ _ HFr He).
Qed.

Definition demo_shm (i : Z) : Z * option WiPage := (SQLITE_OK, Some garbage_page).
Definition demo_pages : list Z := [5; 2; 9; 5; 2].

Lemma iterator_visits_latest_witness :
  exists w0 w p l, walIndexWriteHdr (empty_wal garbage_page 1 0) = Some w0 /\
    frames_index (fun _ => true) demo_shm w0 demo_pages 0 true 9 1024 = Some (SQLITE_OK, w) /\
    walIteratorInit (fun _ => true) demo_shm (fun _ => true) w = Some (SQLITE_OK, w, Some p) /\
    visit 6 p = Some l /\ l = [(2, 5); (5, 4); (9, 3)] /\
    forall page f, (page, f) ∈ l <-> f <> 0 /\ latest demo_pages 5 page = f.
Proof.
  assert (H : (w0 ← walIndexWriteHdr (empty_wal garbage_page 1 0);
    '(rc, w) ← frames_index (fun _ => true) demo_shm w0 demo_pages 0 true 9 1024;
    '(_, _, p) ← walIteratorInit (fun _ => true) demo_shm (fun _ => true) w;
    p ← p; l ← visit 6 p; Some (rc, l)) = Some (SQLITE_OK, [(2, 5); (5, 4); (9, 3)])) by (vm_compute; reflexivity).
  destruct (walIndexWriteHdr (empty_wal garbage_page 1 0)) as [w0|] eqn:Hw0; cbn [mbind option_bind] in H; [|discriminate H].
  destruct (frames_index (fun _ => true) demo_shm w0 demo_pages 0 true 9 1024) as [[rc w]|] eqn:Hw; cbn [mbind option_bind] in H; [|discriminate H].
  destruct (walIteratorInit (fun _ => true) demo_shm (fun _ => true) w) as [[[rc' w'] [p'|]]|] eqn:Hp; cbn [mbind option_bind] in H; try discriminate H.
  destruct (visit 6 p') as [l'|] eqn:Hl; cbn [mbind option_bind] in H; [|discriminate H]. injection H as -> ->.
  assert (Hdims : page_dims garbage_page) by (split; vm_compute; reflexivity).
  destruct (iterator_visits_latest (fun _ => true) demo_shm (fun _ => true) garbage_page 1 0 w0 demo_pages 9 1024 w) as (p & l & Hi & Hv & _ & Hmem);
    try done; [by repeat constructor|].
  exists w0, w, p, l. split; [done|]. split; [done|]. rewrite Hp in Hi. injection Hi as -> -> ->.
  change (S (length demo_pages)) with 6%nat in Hv. rewrite Hl in Hv. injection Hv as <-. by split_and!.
Defined.
