(* ===== verification/WalFile.v ===== *)
(** * WalFile: the frames of the write-ahead log and its recovery

    Models the file side of wal.c in [src/whip-server/sqlite/sqlite3.c]: the
    checksum ([walChecksumBytes]), the frame header ([walEncodeFrame],
    [walDecodeFrame]), writing a transaction to the log (the part of
    [sqlite3WalFrames] after [walRestartLog], which does nothing for a writer that
    holds a read lock other than lock 0) and rebuilding the wal-index from the
    log after a crash ([walIndexRecover]).

    A buffer is the list of its bytes.  The log file and its system calls are
    parameters: [xFileSize], [xRead], [xWrite], [xSync] and the sector size, as
    are the lock and the allocator; the theorems instantiate the file by a plain
    list of bytes.  The machine is little-endian ([SQLITE_BIGENDIAN] is 0).
    [None] is an access outside a buffer; the fuel of the two loops over the file
    is the number of frames that fit in it. *)
From S2P Require Import Prelude Varint Probe WalIndex.
From stdpp Require Import list.
#[local] Open Scope Z_scope.

Definition SQLITE_BIGENDIAN : Z := 0.
Definition SQLITE_MAX_PAGE_SIZE : Z := 32768.
Definition SQLITE_CANTOPEN : Z := 14.
Definition WAL_MAX_VERSION : Z := 3007000.
Definition WAL_MAGIC : Z := 0x377f0682.
Definition WAL_ALL_BUT_WRITE : Z := 1.
Definition READMARK_NOT_USED : Z := 0xffffffff.

(** ** Checksums *)

Definition BYTESWAP32 (x : Z) : Z :=
  u32 (Z.shiftl (Z.land x 0x000000FF) 24 + Z.shiftl (Z.land x 0x0000FF00) 8
       + Z.shiftr (Z.land x 0x00FF0000) 8 + Z.shiftr (Z.land x 0xFF000000) 24).

(** [(u32 * )a] on a little-endian machine, and back. *)
Fixpoint u32_cast (a : list Z) : list Z :=
  match a with
  | b0 :: b1 :: b2 :: b3 :: a => (b0 + 2 ^ 8 * b1 + 2 ^ 16 * b2 + 2 ^ 24 * b3) :: u32_cast a
  | _ => []
  end.

Definition u32_bytes (v : Z) : list Z := [u8 v; u8 (Z.shiftr v 8); u8 (Z.shiftr v 16); u8 (Z.shiftr v 24)].

(** [a] is the [nByte] bytes to sum, a positive multiple of 8; [aIn] the initial value, if any. *)
Definition walChecksumBytes (nativeCksum : bool) (a : list Z) (aIn : option (Z * Z)) : Z * Z :=
  let s := match aIn with Some s => s | None => (0, 0) end in
  if nativeCksum then cksum_words (u32_cast a) s
  else cksum_words (map BYTESWAP32 (u32_cast a)) s.

(** ** Frames *)

Definition set_cksum (w : Wal) (ck : Z * Z) : Wal := set_hdr w (set_frame (hdr w) (mxFrame (hdr w)) ck).

Definition salt_bytes (w : Wal) : list Z := u32_bytes (aSalt (hdr w)).1 ++ u32_bytes (aSalt (hdr w)).2.

Definition is_native (w : Wal) : bool := bigEndCksum (hdr w) =? SQLITE_BIGENDIAN.

(** [walEncodeFrame]: the 24 bytes of [aFrame], and the handle with its running checksum. *)
Definition walEncodeFrame (w : Wal) (iPage nTruncate : Z) (aData : list Z) : list Z * Wal :=
  let first8 := sqlite3Put4byte iPage ++ sqlite3Put4byte nTruncate in
  let ck := walChecksumBytes (is_native w) first8 (Some (aFrameCksum (hdr w))) in
  let ck := walChecksumBytes (is_native w) aData (Some ck) in
  (first8 ++ salt_bytes w ++ sqlite3Put4byte ck.1 ++ sqlite3Put4byte ck.2, set_cksum w ck).

(** [walDecodeFrame]: [Some (pgno, nTruncate)] when it returns 1. *)
Definition walDecodeFrame (w : Wal) (aData aFrame : list Z) : option (option (Z * Z) * Wal) :=
  if negb (bool_decide (salt_bytes w = take 8 (drop 8 aFrame))) then Some (None, w)
  else
    pgno ← sqlite3Get4byte aFrame;
    if pgno =? 0 then Some (None, w)
    else
      let ck := walChecksumBytes (is_native w) (take 8 aFrame) (Some (aFrameCksum (hdr w))) in
      let ck := walChecksumBytes (is_native w) aData (Some ck) in
      let w := set_cksum w ck in
      c1 ← sqlite3Get4byte (drop 16 aFrame);
      c2 ← sqlite3Get4byte (drop 20 aFrame);
      if negb (ck.1 =? c1) || negb (ck.2 =? c2) then Some (None, w)
      else
        nTruncate ← sqlite3Get4byte (drop 4 aFrame);
        Some (Some (pgno, nTruncate), w).

(** ** Recovery *)

Section recover.
Context (realloc_ok : Z -> bool) (xShmMap : Z -> Z * option WiPage).
Context (xLock : Z -> Z -> Z) (xFileSize : Z * Z) (xRead : Z -> Z -> Z * list Z) (malloc_ok : Z -> bool).

(** The loop over the frames, at offset [iOffset]; [ck] is [aFrameCksum], the checksum of the last commit. *)
Fixpoint recover_loop (fuel : nat) (w : Wal) (iFrame iOffset szFrame szPage nSize : Z) (ck : Z * Z) : option (Z * Wal * (Z * Z)) :=
  if iOffset + szFrame <=? nSize then
    match fuel with
    | O => None
    | S fuel =>
        let '(rc, aFrame) := xRead iOffset szFrame in
        if negb (rc =? SQLITE_OK) then Some (rc, w, ck)
        else
          '(isValid, w) ← walDecodeFrame w (drop 24 aFrame) aFrame;
          match isValid with
          | None => Some (rc, w, ck)
          | Some (pgno, nTruncate) =>
              let iFrame := iFrame + 1 in
              '(rc, w) ← walIndexAppend realloc_ok xShmMap w iFrame pgno;
              if negb (rc =? SQLITE_OK) then Some (rc, w, ck)
              else
                let h := hdr w in
                let '(w, ck) :=
                  if truthy nTruncate then
                    (set_hdr w (mkHdr (iVersion h) (unused h) (iChange h) (isInit h) (bigEndCksum h) (u16 szPage) iFrame nTruncate
                                      (aFrameCksum h) (aSalt h) (aCksum h)), aFrameCksum h)
                  else (w, ck) in
                recover_loop fuel w iFrame (iOffset + szFrame) szFrame szPage nSize ck
          end
    end
  else Some (SQLITE_OK, w, ck).

(** Reading the WAL header and the frames: [None] inside the pair is [goto recovery_error]. *)
Definition recover_log (w : Wal) (nSize : Z) : option (Z * Wal * option (Z * Z)) :=
  let '(rc, aBuf) := xRead 0 WAL_HDRSIZE in
  if negb (rc =? SQLITE_OK) then Some (rc, w, None)
  else
    magic ← sqlite3Get4byte aBuf;
    szPage ← sqlite3Get4byte (drop 8 aBuf);
    let szPage := i32 szPage in
    if negb (Z.land magic 0xFFFFFFFE =? WAL_MAGIC) || truthy (Z.land szPage (szPage - 1))
       || (SQLITE_MAX_PAGE_SIZE <? szPage) || (szPage <? 512) then Some (SQLITE_OK, w, Some (0, 0))
    else
      nck ← sqlite3Get4byte (drop 12 aBuf);
      let bigEnd := u8 (Z.land magic 1) in
      match u32_cast (take 8 (drop 16 aBuf)) with
      | [s1; s2] =>
          let ck := walChecksumBytes (bigEnd =? SQLITE_BIGENDIAN) (take 24 aBuf) None in
          let h := hdr w in
          let w := mkWal (apWiData w) (u16 szPage) (readLock w) (writeLock w)
                     (mkHdr (iVersion h) (unused h) (iChange h) (isInit h) bigEnd (hszPage h) (mxFrame h) (nPage h) ck (s1, s2) (aCksum h))
                     nck (iCallback w) in
          c1 ← sqlite3Get4byte (drop 24 aBuf);
          c2 ← sqlite3Get4byte (drop 28 aBuf);
          if negb (ck.1 =? c1) || negb (ck.2 =? c2) then Some (SQLITE_OK, w, Some (0, 0))
          else
            version ← sqlite3Get4byte (drop 4 aBuf);
            if negb (version =? WAL_MAX_VERSION) then Some (SQLITE_CANTOPEN, w, Some (0, 0))
            else
              let szFrame := szPage + WAL_FRAME_HDRSIZE in
              if negb (malloc_ok szFrame) then Some (SQLITE_NOMEM, w, None)
              else
                '(rc, w, ck) ← recover_loop (Z.to_nat (nSize / szFrame)) w 0 WAL_HDRSIZE szFrame szPage nSize (0, 0);
                Some (rc, w, Some ck)
      | _ => None
      end.

(** The checkpoint data after the two headers: [nBackfill] and the read marks. *)
Definition reset_ckpt (w : Wal) : option Wal :=
  pg ← wi_get w 0;
  wi_set w 0 (mkPage (overwrite_words (words pg) 24 (0 :: 0 :: replicate (Z.to_nat (WAL_NREADER - 1)) READMARK_NOT_USED)) (aHash pg)).

Definition walIndexRecover (w : Wal) (ckptLock : Z) : option (Z * Wal) :=
  let iLock := WAL_ALL_BUT_WRITE + ckptLock in
  let rc := xLock iLock (SQLITE_SHM_NLOCK - iLock) in
  if truthy rc then Some (rc, w)
  else
    let w := set_hdr w empty_hdr in
    let '(rc, nSize) := xFileSize in
    if negb (rc =? SQLITE_OK) then Some (rc, w)
    else
      '(rc, w, ck) ← (if WAL_HDRSIZE <? nSize then recover_log w nSize else Some (SQLITE_OK, w, Some (0, 0)));
      match ck with
      | Some ck =>
          if rc =? SQLITE_OK then
            w ← walIndexWriteHdr (set_cksum w ck);
            w ← reset_ckpt w;
            Some (rc, w)
          else Some (rc, w)
      | None => Some (rc, w)
      end.
End recover.

(** ** Writing the log *)

Section write.
Context (xWrite : list Z -> Z -> list Z -> Z * list Z).

(** The WAL header of [sqlite3WalFrames]: its 32 bytes and their checksum. *)
Definition walHeader (szPage nCkpt : Z) (salt : Z * Z) : list Z * (Z * Z) :=
  let first24 := sqlite3Put4byte (Z.lor WAL_MAGIC SQLITE_BIGENDIAN) ++ sqlite3Put4byte WAL_MAX_VERSION ++
                 sqlite3Put4byte szPage ++ sqlite3Put4byte nCkpt ++ u32_bytes salt.1 ++ u32_bytes salt.2 in
  let ck := walChecksumBytes true first24 None in
  (first24 ++ sqlite3Put4byte ck.1 ++ sqlite3Put4byte ck.2, ck).

(** The loop over the dirty pages: [p] is a page number and its content. *)
Fixpoint write_pages (w : Wal) (file : list Z) (iFrame szPage : Z) (ps : list (Z * list Z)) (isCommit : bool) (nTruncate : Z)
  : Z * Wal * list Z * Z :=
  match ps with
  | [] => (SQLITE_OK, w, file, iFrame)
  | (pgno, pData) :: ps =>
      let iFrame := u32 (iFrame + 1) in
      let iOffset := walFrameOffset iFrame szPage in
      let nDbsize := if isCommit && bool_decide (ps = []) then nTruncate else 0 in
      let '(aFrame, w) := walEncodeFrame w pgno nDbsize pData in
      let '(rc, file) := xWrite file iOffset aFrame in
      if negb (rc =? SQLITE_OK) then (rc, w, file, iFrame)
      else
        let '(rc, file) := xWrite file (iOffset + 24) pData in
        if negb (rc =? SQLITE_OK) then (rc, w, file, iFrame)
        else write_pages w file iFrame szPage ps isCommit nTruncate
  end.

(** The copies of the last frame that fill a sector before a sync; [nLast] counts them. *)
Fixpoint pad_sector (fuel : nat) (w : Wal) (file : list Z) (iOffset iSegment szPage : Z) (last : Z * list Z) (nTruncate : Z) (nLast : nat)
  : option (Z * Wal * list Z * nat) :=
  if iOffset <? iSegment then
    match fuel with
    | O => None
    | S fuel =>
        let '(aFrame, w) := walEncodeFrame w last.1 nTruncate last.2 in
        let '(rc, file) := xWrite file iOffset aFrame in
        if negb (rc =? SQLITE_OK) then Some (rc, w, file, nLast)
        else
          let '(rc, file) := xWrite file (iOffset + WAL_FRAME_HDRSIZE) last.2 in
          if negb (rc =? SQLITE_OK) then Some (rc, w, file, nLast)
          else pad_sector fuel w file (iOffset + WAL_FRAME_HDRSIZE + szPage) iSegment szPage last nTruncate (S nLast)
    end
  else Some (SQLITE_OK, w, file, nLast).

Context (realloc_ok : Z -> bool) (xShmMap : Z -> Z * option WiPage).
Context (xSync : Z -> Z) (xSectorSize : Z) (xRandomness : Z * Z).

(** The header of a log that starts: the handle takes its salt, checksum and page size. *)
Definition start_log (w : Wal) (file : list Z) (szPage : Z) : Z * Wal * list Z :=
  if mxFrame (hdr w) =? 0 then
    let '(aWalHdr, ck) := walHeader szPage (nCkpt w) xRandomness in
    let h := hdr w in
    let w := mkWal (apWiData w) (u16 szPage) (readLock w) (writeLock w)
               (mkHdr (iVersion h) (unused h) (iChange h) (isInit h) SQLITE_BIGENDIAN (hszPage h) (mxFrame h) (nPage h) ck xRandomness (aCksum h))
               (nCkpt w) (iCallback w) in
    let '(rc, file) := xWrite file 0 aWalHdr in (rc, w, file)
  else (SQLITE_OK, w, file).

(** The sync of the log file; the result has the number of copies of the last page. *)
Definition sync_log (w : Wal) (file : list Z) (iFrame szPage : Z) (pList : list (Z * list Z)) (nTruncate sync_flags : Z)
  : option (Z * Wal * list Z * nat) :=
  if truthy sync_flags then
    last ← List.last (map Some pList) None;
    let iOffset := walFrameOffset (u32 (iFrame + 1)) szPage in
    let iSegment := (iOffset + xSectorSize - 1) / xSectorSize * xSectorSize in
    '(rc, w, file, nLast) ← pad_sector (Z.to_nat xSectorSize) w file iOffset iSegment szPage last nTruncate 0;
    if negb (rc =? SQLITE_OK) then Some (rc, w, file, nLast)
    else Some (xSync sync_flags, w, file, nLast)
  else Some (SQLITE_OK, w, file, 0%nat).

(** [sqlite3WalFrames] after [walRestartLog] has returned [SQLITE_OK]: an error leaves the
    index and its header as they are. *)
Definition sqlite3WalFrames (w : Wal) (file : list Z) (szPage : Z) (pList : list (Z * list Z)) (nTruncate : Z) (isCommit : bool) (sync_flags : Z)
  : option (Z * Wal * list Z) :=
  let iFrame := mxFrame (hdr w) in
  let '(rc, w, file) := start_log w file szPage in
  if negb (rc =? SQLITE_OK) then Some (rc, w, file)
  else
    let '(rc, w, file, iFrame) := write_pages w file iFrame szPage pList isCommit nTruncate in
    if negb (rc =? SQLITE_OK) then Some (rc, w, file)
    else
      '(rc, w, file, nLast) ← sync_log w file iFrame szPage pList nTruncate sync_flags;
      if negb (rc =? SQLITE_OK) then Some (rc, w, file)
      else
        '(rc, w) ← frames_index realloc_ok xShmMap w (map fst pList) nLast isCommit nTruncate szPage;
        Some (rc, w, file).
End write.

(** ** Checksums and frames *)

(** A frame of the log: page number, database size after a commit (0 inside a transaction) and content. *)
Record Frame := mkFrame { fpgno : Z; ftrunc : Z; fdata : list Z }.

Definition frame_cksum (native : bool) (ck : Z * Z) (f : Frame) : Z * Z :=
  walChecksumBytes native (fdata f) (Some (walChecksumBytes native (sqlite3Put4byte (fpgno f) ++ sqlite3Put4byte (ftrunc f)) (Some ck))).

Definition frame_header (native : bool) (salt : list Z) (ck : Z * Z) (f : Frame) : list Z :=
  sqlite3Put4byte (fpgno f) ++ sqlite3Put4byte (ftrunc f) ++ salt ++
  sqlite3Put4byte (frame_cksum native ck f).1 ++ sqlite3Put4byte (frame_cksum native ck f).2.

Lemma encode_frame w f :
  walEncodeFrame w (fpgno f) (ftrunc f) (fdata f) =
  (frame_header (is_native w) (salt_bytes w) (aFrameCksum (hdr w)) f, set_cksum w (frame_cksum (is_native w) (aFrameCksum (hdr w)) f)).
Proof. unfold walEncodeFrame, frame_header, frame_cksum. f_equal. Qed.

Lemma cksum_words_u32 l : forall s, is_u32 s.1 /\ is_u32 s.2 -> is_u32 (cksum_words l s).1 /\ is_u32 (cksum_words l s).2.
Proof.
  induction l as [l IH] using (well_founded_induction (Wf_nat.well_founded_ltof _ (@length Z))). intros s Hs.
  destruct l as [|x [|y l]]; try done. cbn [cksum_words]. apply IH; [unfold Wf_nat.ltof; simpl; lia|]. split; apply u32_range.
Qed.

Lemma cksum_step x y s : is_u32 (cksum_words [x; y] s).1 /\ is_u32 (cksum_words [x; y] s).2.
Proof. cbn. split; apply u32_range. Qed.

Lemma frame_cksum_u32 native ck f : is_u32 (frame_cksum native ck f).1 /\ is_u32 (frame_cksum native ck f).2.
Proof.
  unfold frame_cksum, walChecksumBytes. destruct native; apply cksum_words_u32; apply cksum_step.
Qed.

Definition frame_ok (f : Frame) : Prop := is_u32 (fpgno f) /\ fpgno f <> 0 /\ is_u32 (ftrunc f).

Lemma u32_bytes_length v : length (u32_bytes v) = 4%nat. Proof. done. Qed.
Lemma salt_bytes_length w : length (salt_bytes w) = 8%nat. Proof. done. Qed.

(** Decoding a frame header that was encoded with the same salt and checksum. *)
Lemma decode_header w f rest : frame_ok f ->
  walDecodeFrame w (fdata f) (frame_header (is_native w) (salt_bytes w) (aFrameCksum (hdr w)) f ++ rest) =
  Some (Some (fpgno f, ftrunc f), set_cksum w (frame_cksum (is_native w) (aFrameCksum (hdr w)) f)).
Proof.
  intros (Hp & Hp0 & Ht). destruct (frame_cksum_u32 (is_native w) (aFrameCksum (hdr w)) f) as [H1 H2].
  unfold frame_header, walDecodeFrame. set (ck := frame_cksum _ _ f) in *. rewrite <- !app_assoc.
  assert (Hsalt : take 8 (drop 8 (sqlite3Put4byte (fpgno f) ++ sqlite3Put4byte (ftrunc f) ++ salt_bytes w ++
    sqlite3Put4byte ck.1 ++ sqlite3Put4byte ck.2 ++ rest)) = salt_bytes w) by done.
  rewrite Hsalt, bool_decide_true by done. cbn [negb]. rewrite put4_get4 by done. cbn [mbind option_bind].
  rewrite (proj2 (Z.eqb_neq _ _)) by done.
  change (take 8 _) with (sqlite3Put4byte (fpgno f) ++ sqlite3Put4byte (ftrunc f)).
  change (walChecksumBytes _ (fdata f) _) with ck.
  change (drop 16 _) with (sqlite3Put4byte ck.1 ++ sqlite3Put4byte ck.2 ++ rest).
  change (drop 20 _) with (sqlite3Put4byte ck.2 ++ rest). rewrite !put4_get4 by done. cbn [mbind option_bind].
  rewrite !Z.eqb_refl. cbn [negb orb]. change (drop 4 _) with (sqlite3Put4byte (ftrunc f) ++ salt_bytes w ++ sqlite3Put4byte ck.1 ++ sqlite3Put4byte ck.2 ++ rest).
  by rewrite put4_get4.
Qed.

(** ** The log file *)

(** The bytes of a sequence of frames, and the running checksum after them. *)
Fixpoint log_bytes (native : bool) (salt : list Z) (ck : Z * Z) (fs : list Frame) : list Z :=
  match fs with
  | [] => []
  | f :: fs => frame_header native salt ck f ++ fdata f ++ log_bytes native salt (frame_cksum native ck f) fs
  end.

Fixpoint log_cksum (native : bool) (ck : Z * Z) (fs : list Frame) : Z * Z :=
  match fs with [] => ck | f :: fs => log_cksum native (frame_cksum native ck f) fs end.

Definition SQLITE_IOERR_SHORT_READ : Z := 522.

(** A file that is a list of bytes. *)
Definition file_read (file : list Z) (off n : Z) : Z * list Z :=
  if off + n <=? Z.of_nat (length file) then (SQLITE_OK, take (Z.to_nat n) (drop (Z.to_nat off) file))
  else (SQLITE_IOERR_SHORT_READ, []).

(** The handle decodes frames with this byte order, salt and running checksum. *)
Definition codec (w : Wal) (native : bool) (salt : list Z) (ck : Z * Z) : Prop :=
  is_native w = native /\ salt_bytes w = salt /\ aFrameCksum (hdr w) = ck.

(** What follows the last frame that was written completely: too short for a frame, or
    not a frame of this log. *)
Definition torn (native : bool) (salt : list Z) (ck : Z * Z) (szPage : Z) (tail : list Z) : Prop :=
  Z.of_nat (length tail) < szPage + 24 \/
  forall w, codec w native salt ck -> exists w',
    walDecodeFrame w (drop 24 (take (Z.to_nat (szPage + 24)) tail)) (take (Z.to_nat (szPage + 24)) tail) = Some (None, w') /\
    (w' = w \/ exists ck', w' = set_cksum w ck').

(** The last commit among the frames: its number, the database size and the checksum. *)
Fixpoint commits (native : bool) (k : Z) (ck : Z * Z) (fs : list Frame) (acc : Z * Z * (Z * Z)) : Z * Z * (Z * Z) :=
  match fs with
  | [] => acc
  | f :: fs =>
      let ck := frame_cksum native ck f in
      commits native (k + 1) ck fs (if truthy (ftrunc f) then (k + 1, ftrunc f, ck) else acc)
  end.

Lemma commits_app native fs : forall k ck gs acc,
  commits native k ck (fs ++ gs) acc = commits native (k + Z.of_nat (length fs)) (log_cksum native ck fs) gs (commits native k ck fs acc).
Proof.
  induction fs as [|f fs IH]; intros k ck gs acc; cbn [commits app log_cksum length].
  - by replace (k + Z.of_nat 0) with k by lia.
  - rewrite IH. f_equal. lia.
Qed.

Lemma commits_none native fs : forall k ck acc, Forall (fun f => ftrunc f = 0) fs -> commits native k ck fs acc = acc.
Proof.
  induction fs as [|f fs IH]; intros k ck acc HF; [done|]. apply Forall_cons in HF as [H0 HF]. cbn [commits]. rewrite H0. simpl. by apply IH.
Qed.

Section recovery.
Context (realloc_ok : Z -> bool) (xShmMap : Z -> Z * option WiPage).
Context (Halloc : forall n, realloc_ok n = true).
Context (Hmap : forall i, exists pg, xShmMap i = (SQLITE_OK, Some pg) /\ page_dims pg).
Context (file : list Z) (native : bool) (salt : list Z) (szPage : Z) (Hsz : 512 <= szPage <= 32768).

Lemma map_contract : shm_contract xShmMap.
Proof using Hmap. intros i. by destruct (Hmap i) as (pg & -> & ?). Qed.

Lemma no_env_error rc : ~ env_error realloc_ok xShmMap rc.
Proof using Hmap Halloc.
  intros [Hne [[_ [n Hn]]|[i ->]]]; [by rewrite Halloc in Hn|]. by destruct (Hmap i) as (pg & E & _); rewrite E in Hne.
Qed.

Definition sized (f : Frame) : Prop := frame_ok f /\ Z.of_nat (length (fdata f)) = szPage.

Lemma header_length ck f : length salt = 8%nat -> length (frame_header native salt ck f) = 24%nat.
Proof using Type. intros Hs. unfold frame_header. rewrite !length_app, Hs. done. Qed.

Lemma file_read_at off l n : drop off file = l -> 0 < Z.of_nat n <= Z.of_nat (length l) ->
  file_read file (Z.of_nat off) (Z.of_nat n) = (SQLITE_OK, take n l).
Proof using Type.
  intros Hl Hn. unfold file_read. assert (length l = (length file - off)%nat) as Hlen by (rewrite <- Hl; apply length_drop).
  rewrite (proj2 (Z.leb_le _ _)) by lia. by rewrite !Nat2Z.id, Hl.
Qed.

(** The handle while recovery has read the frames of [L]. *)
Definition rec_inv (rl : Z) (w : Wal) (L : list Z) (ck : Z * Z) (mx np : Z) : Prop :=
  codec w native salt ck /\ index_rep w L /\ mxFrame (hdr w) = mx /\ nPage (hdr w) = np /\ 0 <= mx <= Z.of_nat (length L) /\
  (0 < mx -> hszPage (hdr w) = szPage) /\ hdr_ok (hdr w) /\ readLock w = rl /\ is_Some (wi_get w 0).

Lemma wi_hdr_mapped w : is_Some (wi_hdr w) <-> is_Some (wi_get w 0).
Proof using Type. unfold wi_hdr. destruct (wi_get w 0); split; intros [x ?]; done. Qed.

(** Entering one valid frame. *)
Lemma recover_frame rl w L ck mx np f : rec_inv rl w L ck mx np -> sized f -> Z.of_nat (length L) < 2 ^ 31 - 2 ->
  exists w1, walIndexAppend realloc_ok xShmMap (set_cksum w (frame_cksum native ck f)) (Z.of_nat (length L) + 1) (fpgno f) = Some (SQLITE_OK, w1) /\
    hdr w1 = hdr (set_cksum w (frame_cksum native ck f)) /\ rec_inv rl w1 (L ++ [fpgno f]) (frame_cksum native ck f) mx np.
Proof using Hmap Halloc.
  intros ((Hnat & Hsalt & Hck) & Hrep & Hmx & Hnp & Hle & Hhs & Hok & Hrl & Hm0) [(Hp & Hp0 & Ht) Hd] Hlen.
  set (w0 := set_cksum w _). assert (Hrep0 : index_rep w0 L) by done.
  destruct (walIndexAppend_rep realloc_ok xShmMap map_contract w0 L (Z.of_nat (length L) + 1) (fpgno f)) as (rc & w1 & Ha & Hs & Hh & Hcase);
    [done|lia|lia|left; lia|unfold is_u32 in Hp; lia|].
  destruct Hcase as [[-> Hrep1]|[He _]]; [|by destruct (no_env_error rc)].
  rewrite take_ge in Hrep1 by lia. destruct (same_handle_hdr _ _ Hs) as (Eh & Erl & _ & _).
  exists w1. split; [done|]. split; [done|]. unfold rec_inv, codec, is_native, salt_bytes. rewrite Eh, Erl, length_app.
  split_and!; try done; try (simpl; lia).
  apply wi_hdr_mapped. assert (is_Some (wi_hdr w0)) as [x Hx] by (by apply wi_hdr_mapped). by rewrite (Hh x Hx).
Qed.

Lemma recover_loop_spec rl tail : length salt = 8%nat -> forall fs fuel w L off ck mx np ckc,
  rec_inv rl w L ck mx np -> drop off file = log_bytes native salt ck fs ++ tail -> (off <= length file)%nat ->
  Forall sized fs -> Z.of_nat (length L + length fs) < 2 ^ 31 - 2 -> torn native salt (log_cksum native ck fs) szPage tail ->
  Z.of_nat (length file) - Z.of_nat off < (szPage + 24) * (Z.of_nat fuel + 1) ->
  exists w' ck' mx' np' ckc', recover_loop realloc_ok xShmMap (file_read file) fuel w (Z.of_nat (length L)) (Z.of_nat off) (szPage + 24) szPage
      (Z.of_nat (length file)) ckc = Some (SQLITE_OK, w', ckc') /\
    (mx', np', ckc') = commits native (Z.of_nat (length L)) ck fs (mx, np, ckc) /\ rec_inv rl w' (L ++ map fpgno fs) ck' mx' np'.
Proof using Hmap Halloc Hsz.
  intros Hsl. induction fs as [|f fs IH]; intros fuel w L off ck mx np ckc Hinv Hfile Hoff HF Hlen Htorn Hfuel.
  - cbn [log_bytes app map commits log_cksum] in *. rewrite app_nil_r.
    assert (Htl : Z.of_nat (length tail) = Z.of_nat (length file) - Z.of_nat off) by (rewrite <- Hfile, length_drop; lia).
    destruct Htorn as [Hshort|Hbad].
    { exists w, ck, mx, np, ckc. split; [|done]. destruct fuel; cbn [recover_loop]; by rewrite (proj2 (Z.leb_gt _ _)) by lia. }
    destruct (Z.leb_spec (Z.of_nat off + (szPage + 24)) (Z.of_nat (length file))) as [Hfit|Hfit].
    2: { exists w, ck, mx, np, ckc. split; [|done]. destruct fuel; cbn [recover_loop]; by rewrite (proj2 (Z.leb_gt _ _)) by lia. }
    destruct fuel as [|fuel]; [lia|]. cbn [recover_loop]. rewrite (proj2 (Z.leb_le _ _)) by lia.
    pose proof (file_read_at off tail (Z.to_nat (szPage + 24)) Hfile ltac:(lia)) as Hr. rewrite Z2Nat.id in Hr by lia.
    rewrite Hr. cbn [negb Z.eqb SQLITE_OK].
    destruct (Hbad w) as (w' & -> & Hw'); [apply Hinv|]. cbn [mbind option_bind].
    destruct Hw' as [->|[ck' ->]]; eexists _, _, mx, np, ckc; (split; [done|]; split; [done|]); [exact Hinv|].
    destruct Hinv as ((Hnat & Hsalt & Hck) & Hrest). split; [|exact Hrest]. by split_and!.
  - cbn [log_bytes map commits log_cksum length] in *. apply Forall_cons in HF as [Hf HF].
    pose proof (header_length ck f Hsl) as Hh24. pose proof Hf as [Hfok Hfl].
    rewrite <- !app_assoc in Hfile.
    assert (Hrem : Z.of_nat (length file) - Z.of_nat off >= szPage + 24).
    { assert (length (drop off file) = (length file - off)%nat) as Hd by apply length_drop. rewrite Hfile, !length_app in Hd. lia. }
    destruct fuel as [|fuel]; [lia|]. cbn [recover_loop]. rewrite (proj2 (Z.leb_le _ _)) by lia.
    pose proof (file_read_at off _ (24 + length (fdata f)) Hfile ltac:(rewrite !length_app; lia)) as Hr.
    replace (Z.of_nat (24 + length (fdata f))) with (szPage + 24) in Hr by lia. rewrite Hr. cbn [negb Z.eqb SQLITE_OK].
    rewrite app_assoc, take_app_length' by (rewrite length_app; lia).
    rewrite drop_app_length' by lia. pose proof Hinv as ((Hnat & Hsalt & Hck) & _).
    pose proof (decode_header w f (fdata f) Hfok) as Hdec. rewrite Hnat, Hsalt, Hck in Hdec. rewrite Hdec. cbn [mbind option_bind].
    destruct (recover_frame rl w L ck mx np f Hinv Hf ltac:(lia)) as (w1 & -> & Eh & Hinv1). cbn [mbind option_bind negb Z.eqb SQLITE_OK].
    set (ck1 := frame_cksum native ck f) in *.
    assert (Hnext : drop (off + (24 + length (fdata f))) file = log_bytes native salt ck1 fs ++ tail).
    { rewrite <- drop_drop, Hfile, app_assoc. apply drop_app_length'. rewrite length_app. lia. }
    replace (Z.of_nat off + (szPage + 24)) with (Z.of_nat (off + (24 + length (fdata f)))) by lia.
    replace (Z.of_nat (length L) + 1) with (Z.of_nat (length (L ++ [fpgno f]))) by (rewrite length_app; simpl; lia).
    replace (L ++ fpgno f :: map fpgno fs) with ((L ++ [fpgno f]) ++ map fpgno fs) by by rewrite <- app_assoc.
    assert (Hlen' : Z.of_nat (length (L ++ [fpgno f]) + length fs) < 2 ^ 31 - 2) by (rewrite length_app; simpl; lia).
    destruct (truthy (ftrunc f)).
    + pose proof Hinv1 as ((_ & _ & Eck) & _). rewrite Eck. eapply IH; try done; [|lia|lia].
      destruct Hinv1 as ((Hnat1 & Hsalt1 & Hck1) & Hrep1 & Hmx1 & Hnp1 & Hle1 & Hhs1 & (Hi1 & Hb1 & Hz1) & Hrl1 & Hm1).
      unfold rec_inv, codec, is_native, salt_bytes. rewrite Eh in *. cbn in *. unfold u16. rewrite Z.mod_small by lia.
      split_and!; try done; try lia; rewrite length_app in *; simpl in *; try lia.
      unfold hdr_ok. cbn. lia.
    + eapply IH; (done || lia).
Qed.
End recovery.

(** ** Recovering a log *)

(** The last version of a page among the frames. *)
Fixpoint last_version (fs : list Frame) (pgno : Z) : option (list Z) :=
  match fs with
  | [] => None
  | f :: fs =>
      match last_version fs pgno with
      | Some d => Some d
      | None => if fpgno f =? pgno then Some (fdata f) else None
      end
  end.

Lemma last_version_none fs pgno : (forall f, f ∈ fs -> fpgno f <> pgno) -> last_version fs pgno = None.
Proof.
  induction fs as [|f fs IH]; intros H; [done|]. cbn [last_version]. rewrite IH by (intros g Hg; apply H; by right).
  by rewrite (proj2 (Z.eqb_neq _ _)) by (apply H; by left).
Qed.

Lemma last_version_split a f b pgno : fpgno f = pgno -> (forall g, g ∈ b -> fpgno g <> pgno) ->
  last_version (a ++ f :: b) pgno = Some (fdata f).
Proof.
  intros Hf Hb. induction a as [|g a IH]; cbn [app last_version]; [|by rewrite IH].
  rewrite last_version_none by done. by rewrite Hf, Z.eqb_refl.
Qed.

(** The latest frame of the index is the last version. *)
Lemma latest_version fs pgno : let r := latest (map fpgno fs) (length (map fpgno fs)) pgno in
  (r = 0 /\ last_version fs pgno = None) \/
  (exists f, 1 <= r <= Z.of_nat (length fs) /\ fs !! Z.to_nat (r - 1) = Some f /\ last_version fs pgno = Some (fdata f)).
Proof.
  intros r. pose proof (latest_is_latest (map fpgno fs) (length (map fpgno fs)) pgno) as Hl. fold r in Hl. rewrite length_map in *.
  assert (Hent : forall j f, fs !! j = Some f -> entry (map fpgno fs) (Z.of_nat j + 1) = Some (fpgno f)).
  { intros j f Hj. rewrite entry_nat. change (map fpgno fs) with (fpgno <$> fs). by rewrite list_lookup_fmap, Hj. }
  destruct Hl as [[-> H]|(He & Hle & H)]; [left|right].
  - split; [done|]. apply last_version_none. intros f [j Hj]%list_elem_of_lookup E. pose proof (lookup_lt_Some _ _ _ Hj).
    apply (H (Z.of_nat j + 1)); [lia|]. by rewrite (Hent j f), E.
  - pose proof (entry_range _ _ _ He) as Hr. rewrite length_map in Hr.
    destruct (lookup_lt_is_Some_2 fs (Z.to_nat (r - 1))) as [f Hf]; [lia|]. exists f. split; [lia|]. split; [done|].
    rewrite <- (take_drop_middle _ _ _ Hf). apply last_version_split.
    + pose proof (Hent _ _ Hf) as E. replace (Z.of_nat (Z.to_nat (r - 1)) + 1) with r in E by lia. congruence.
    + intros g [j Hj]%list_elem_of_lookup E. rewrite lookup_drop in Hj. pose proof (lookup_lt_Some _ _ _ Hj).
      apply (H (Z.of_nat (S (Z.to_nat (r - 1)) + j) + 1)); [lia|]. by rewrite (Hent _ _ Hj), E.
Qed.

(** Where the content of frame [j] stands. *)
Lemma log_bytes_at native salt szPage tail fs : length salt = 8%nat -> forall ck j f,
  Forall (sized szPage) fs -> fs !! j = Some f ->
  exists rest, drop (j * (Z.to_nat szPage + 24) + 24) (log_bytes native salt ck fs ++ tail) = fdata f ++ rest.
Proof.
  intros Hs. induction fs as [|g fs IH]; intros ck j f HF Hj; [done|]. apply Forall_cons in HF as [[_ Hg] HF].
  cbn [log_bytes]. rewrite <- !app_assoc. pose proof (header_length native salt ck g Hs) as H24. destruct j as [|j].
  - injection Hj as ->. eexists. simpl Nat.mul. rewrite drop_app_length' by lia. done.
  - destruct (IH (frame_cksum native ck g) j f HF Hj) as [rest Hr]. exists rest. rewrite <- Hr.
    replace (S j * (Z.to_nat szPage + 24) + 24)%nat with ((24 + length (fdata g)) + (j * (Z.to_nat szPage + 24) + 24))%nat by lia.
    rewrite <- drop_drop. f_equal. rewrite app_assoc. apply drop_app_length'. rewrite length_app. lia.
Qed.

Lemma log_bytes_length native salt szPage fs : length salt = 8%nat -> forall ck, Forall (sized szPage) fs ->
  Z.of_nat (length (log_bytes native salt ck fs)) = Z.of_nat (length fs) * (szPage + 24).
Proof.
  intros Hs. induction fs as [|g fs IH]; intros ck HF; [done|]. apply Forall_cons in HF as [[_ Hg] HF].
  cbn [log_bytes length]. rewrite !length_app, (header_length native salt ck g Hs). specialize (IH (frame_cksum native ck g) HF). lia.
Qed.

Lemma u32_cast_bytes a b : is_u32 a -> is_u32 b -> u32_cast (u32_bytes a ++ u32_bytes b) = [a; b].
Proof.
  intros Ha Hb. unfold is_u32, u32_bytes in *. cbn [u32_cast app]. unfold u8. rewrite !Z.shiftr_div_pow2 by lia.
  f_equal; [|f_equal]; dlia.
Qed.

Section recover_header.
Context (szPage nck s1 s2 : Z) (Hsz : 512 <= szPage <= 32768) (Hpow : Z.land szPage (szPage - 1) = 0).
Context (Hn : is_u32 nck) (H1 : is_u32 s1) (H2 : is_u32 s2).
#[local] Notation salt := (u32_bytes s1 ++ u32_bytes s2).

Lemma walHeader_length : length (walHeader szPage nck (s1, s2)).1 = 32%nat.
Proof using Type. done. Qed.

(** The handle after the WAL header has been read. *)
Definition opened (w : Wal) : Wal :=
  let h := hdr w in
  mkWal (apWiData w) (u16 szPage) (readLock w) (writeLock w)
    (mkHdr (iVersion h) (unused h) (iChange h) (isInit h) 0 (hszPage h) (mxFrame h) (nPage h) (walHeader szPage nck (s1, s2)).2 (s1, s2) (aCksum h))
    nck (iCallback w).

Lemma header_fields (m v z n a b c d : list Z) :
  length m = 4%nat -> length v = 4%nat -> length z = 4%nat -> length n = 4%nat -> length a = 4%nat -> length b = 4%nat ->
  length c = 4%nat ->
  let l := (m ++ v ++ z ++ n ++ a ++ b) ++ c ++ d in
  take 24 l = m ++ v ++ z ++ n ++ a ++ b /\ take 8 (drop 16 l) = a ++ b /\ (exists r, l = m ++ r) /\ (exists r, drop 4 l = v ++ r) /\
  (exists r, drop 8 l = z ++ r) /\ (exists r, drop 12 l = n ++ r) /\ (exists r, drop 24 l = c ++ r) /\ drop 28 l = d ++ [].
Proof using Type.
  intros Hm Hv Hz Hnl Ha Hb Hc. do 4 (destruct m as [|? m]; [done|]); destruct m; [|done].
  do 4 (destruct v as [|? v]; [done|]); destruct v; [|done]. do 4 (destruct z as [|? z]; [done|]); destruct z; [|done].
  do 4 (destruct n as [|? n]; [done|]); destruct n; [|done]. do 4 (destruct a as [|? a]; [done|]); destruct a; [|done].
  do 4 (destruct b as [|? b]; [done|]); destruct b; [|done]. do 4 (destruct c as [|? c]; [done|]); destruct c; [|done].
  cbn. rewrite app_nil_r. split_and!; try done; by eexists.
Qed.

Lemma recover_log_fields realloc_ok xShmMap xRead malloc_ok w nSize aBuf ck :
  (forall n, malloc_ok n = true) -> xRead 0 WAL_HDRSIZE = (SQLITE_OK, aBuf) ->
  sqlite3Get4byte aBuf = Some WAL_MAGIC -> sqlite3Get4byte (drop 4 aBuf) = Some WAL_MAX_VERSION ->
  sqlite3Get4byte (drop 8 aBuf) = Some szPage -> sqlite3Get4byte (drop 12 aBuf) = Some nck ->
  take 8 (drop 16 aBuf) = salt -> walChecksumBytes true (take 24 aBuf) None = ck ->
  sqlite3Get4byte (drop 24 aBuf) = Some ck.1 -> sqlite3Get4byte (drop 28 aBuf) = Some ck.2 ->
  ck = (walHeader szPage nck (s1, s2)).2 ->
  recover_log realloc_ok xShmMap xRead malloc_ok w nSize =
  ('(rc, w, ck) ← recover_loop realloc_ok xShmMap xRead (Z.to_nat (nSize / (szPage + 24))) (opened w) 0 32
     (szPage + 24) szPage nSize (0, 0); Some (rc, w, Some ck)).
Proof using Hsz Hpow H1 H2.
  intros Hm Hr Hmag Hver Hs Hnk Hsalt Hck Hc1 Hc2 Eck. unfold recover_log, opened. rewrite <- Eck.
  rewrite Hr, Hmag, Hs. cbn [negb Z.eqb SQLITE_OK mbind option_bind].
  rewrite (i32_small szPage) by (unfold is_i32; lia). rewrite Hpow.
  change (Z.land WAL_MAGIC 0xFFFFFFFE =? WAL_MAGIC) with true. change (truthy 0) with false. change SQLITE_MAX_PAGE_SIZE with 32768.
  rewrite (proj2 (Z.ltb_ge 32768 szPage)), (proj2 (Z.ltb_ge szPage 512)) by lia. cbn [negb orb].
  rewrite Hnk, Hsalt, u32_cast_bytes by done. cbn [mbind option_bind].
  change (u8 (Z.land WAL_MAGIC 1)) with 0. change (0 =? SQLITE_BIGENDIAN) with true. rewrite Hck, Hc1, Hc2, Hver.
  cbn [mbind option_bind]. rewrite !Z.eqb_refl. cbn [negb orb]. change WAL_FRAME_HDRSIZE with 24. by rewrite Hm.
Qed.

Lemma walHeader_u32 : is_u32 (walHeader szPage nck (s1, s2)).2.1 /\ is_u32 (walHeader szPage nck (s1, s2)).2.2.
Proof using Type. apply cksum_words_u32. split; unfold is_u32; simpl; lia. Qed.

Lemma recover_log_header realloc_ok xShmMap malloc_ok w rest : (forall n, malloc_ok n = true) -> 
  let file := (walHeader szPage nck (s1, s2)).1 ++ rest in
  recover_log realloc_ok xShmMap (file_read file) malloc_ok w (Z.of_nat (length file)) =
  ('(rc, w, ck) ← recover_loop realloc_ok xShmMap (file_read file) (Z.to_nat (Z.of_nat (length file) / (szPage + 24))) (opened w) 0 32
     (szPage + 24) szPage (Z.of_nat (length file)) (0, 0); Some (rc, w, Some ck)).
Proof using Hsz Hpow Hn H1 H2.
  intros Hm file. pose proof walHeader_u32 as Hck. revert Hck.
  set (ck := (walHeader szPage nck (s1, s2)).2). intros [Hck1 Hck2].
  destruct (header_fields (sqlite3Put4byte WAL_MAGIC) (sqlite3Put4byte WAL_MAX_VERSION) (sqlite3Put4byte szPage) (sqlite3Put4byte nck)
    (u32_bytes s1) (u32_bytes s2) (sqlite3Put4byte ck.1) (sqlite3Put4byte ck.2) eq_refl eq_refl eq_refl eq_refl eq_refl eq_refl eq_refl)
    as (E24 & E16 & [r0 E0] & [r4 E4] & [r8 E8] & [r12 E12] & [r24 Ec1] & E28).
  set (hd := (_ ++ _) ++ _ ++ _) in *. assert (Ehd : (walHeader szPage nck (s1, s2)).1 = hd) by reflexivity.
  apply (recover_log_fields _ _ _ _ _ _ hd ck Hm).
  - change WAL_HDRSIZE with (Z.of_nat 32). change 0 with (Z.of_nat 0). rewrite (file_read_at file 0 file 32).
    + unfold file. rewrite Ehd, take_app_length' by done. done.
    + done.
    + unfold file. rewrite length_app, walHeader_length. lia.
  - rewrite E0. apply put4_get4. unfold is_u32, WAL_MAGIC. lia.
  - rewrite E4. apply put4_get4. unfold is_u32, WAL_MAX_VERSION. lia.
  - rewrite E8. apply put4_get4. unfold is_u32. lia.
  - rewrite E12. by apply put4_get4.
  - done.
  - rewrite E24. reflexivity.
  - rewrite Ec1. by apply put4_get4.
  - rewrite E28. by apply put4_get4.
  - reflexivity.
Qed.
End recover_header.

(** The end of a recovery: the header is written and the checkpoint data reset. *)
Lemma recover_finish w L ck : index_rep w L -> is_Some (wi_get w 0) -> hdr_ok (hdr w) ->
  exists w1 w2, walIndexWriteHdr (set_cksum w ck) = Some w1 /\ reset_ckpt w1 = Some w2 /\ index_rep w2 L /\
    mxFrame (hdr w2) = mxFrame (hdr w) /\ nPage (hdr w2) = nPage (hdr w) /\ hszPage (hdr w2) = hszPage (hdr w) /\ readLock w2 = readLock w.
Proof.
  intros Hrep [pg Hg] Hok. assert (Hrep' : index_rep (set_cksum w ck) L) by done.
  destruct (write_hdr_rep (set_cksum w ck) L Hrep') as (w1 & h & Hw1 & Hrep1 & Eh & _ & Emx & Esz & Erl & _ & _ & Enp & ws & Hws & _);
    [by exists pg|done|].
  assert (is_Some (wi_get w1 0)) as [pg1 Hg1] by (apply wi_hdr_mapped; by rewrite Hws).
  exists w1. unfold reset_ckpt. rewrite Hg1. cbn [mbind option_bind].
  pose proof (proj1 Hrep1 0 pg1 Hg1) as [Hlen _].
  destruct (index_page0 w1 L pg1 (overwrite_words (words pg1) 24 (0 :: 0 :: replicate (Z.to_nat (WAL_NREADER - 1)) READMARK_NOT_USED)) Hrep1 Hg1)
    as (w2 & -> & Hrep2 & Hs & _).
  - apply overwrite_words_length. change (length _) with 6%nat at 1. lia.
  - apply overwrite_words_drop; change (length (_ :: _)) with 6%nat; lia.
  - destruct (same_handle_hdr _ _ Hs) as (E & Er & _). exists w2. rewrite E, Er, Eh. split_and!; (done || congruence).
Qed.

(** Reading a page of a recovered log. *)
Lemma recovered_read realloc_ok xShmMap file salt ck szPage good rest tail off0 w pgno :
  512 <= szPage <= 32768 -> length salt = 8%nat -> Forall (sized szPage) (good ++ rest) ->
  index_rep w (map fpgno (good ++ rest)) -> mxFrame (hdr w) = Z.of_nat (length good) ->
  (0 < mxFrame (hdr w) -> hszPage (hdr w) = szPage) -> readLock w <> 0 -> length off0 = 32%nat ->
  file = off0 ++ log_bytes true salt ck (good ++ rest) ++ tail ->
  sqlite3WalRead realloc_ok xShmMap (file_read file) w pgno szPage =
  Some (SQLITE_OK, w, match last_version good pgno with Some d => (Some 1, d) | None => (Some 0, []) end).
Proof.
  intros Hsz Hs HF Hrep Hmx Hhs Hrl H32 ->. unfold sqlite3WalRead. rewrite (proj2 (Z.eqb_neq _ _) Hrl), orb_false_r.
  destruct (Z.eqb_spec (mxFrame (hdr w)) 0) as [E0|E0].
  { by replace good with (@nil Frame) by (destruct good; [done|simpl in Hmx; lia]). }
  destruct (wal_search realloc_ok xShmMap w _ pgno Hrep) as (r & -> & Hr); [rewrite length_map, length_app; lia|].
  cbn [mbind option_bind negb Z.eqb SQLITE_OK]. rewrite Hmx, map_app in Hr.
  replace (Z.of_nat (length good)) with (Z.of_nat (length (map fpgno good))) in Hr by by rewrite length_map.
  apply is_latest_app in Hr. destruct (latest_version good pgno) as [[E ->]|(f & Hrr & Hf & ->)]; rewrite <- Hr in *; [by rewrite E|].
  rewrite (proj2 (Z.eqb_neq _ _)) by lia. cbn [negb].
  pose proof Hrep as (_ & HL & _). rewrite length_map, length_app in HL.
  unfold walFrameOffset. rewrite Hhs by lia. rewrite u32_small by (unfold is_u32; lia). change WAL_FRAME_HDRSIZE with 24. change WAL_HDRSIZE with 32.
  rewrite i64_small by (unfold is_i64; lia).
  assert (Hf' : (good ++ rest) !! Z.to_nat (r - 1) = Some f) by (by apply lookup_app_l_Some).
  pose proof (Forall_lookup_1 _ _ _ _ HF Hf') as [_ Hfl].
  destruct (log_bytes_at true salt szPage tail (good ++ rest) Hs ck _ _ HF Hf') as [rst Hd].
  replace (32 + (r - 1) * (szPage + 24) + 24) with (Z.of_nat (32 + (Z.to_nat (r - 1) * (Z.to_nat szPage + 24) + 24))) by nia.
  replace szPage with (Z.of_nat (length (fdata f))) at 2 by lia.
  rewrite (file_read_at _ _ (fdata f ++ rst)); [by rewrite take_app_length| |].
  - rewrite <- drop_drop, drop_app_length' by done. done.
  - rewrite length_app. lia.
Qed.

(** What the loop reports for committed frames followed by uncommitted ones. *)
Lemma commits_good native ck good rest : good = [] \/ (exists g f, good = g ++ [f] /\ ftrunc f <> 0) -> Forall (fun f => ftrunc f = 0) rest ->
  exists ckc, commits native 0 ck (good ++ rest) (0, 0, (0, 0)) =
    (Z.of_nat (length good), ftrunc (default (mkFrame 0 0 []) (last good)), ckc).
Proof.
  intros Hgood Hrest. rewrite commits_app, (commits_none native rest) by done. destruct Hgood as [->|(g & f & -> & Hf)]; [by eexists|].
  rewrite commits_app. cbn [commits]. rewrite truthy_slot by done. eexists. rewrite last_snoc, length_app. cbn [default length]. f_equal. f_equal. lia.
Qed.

(** Recovery up to the point where the header is written. *)
Lemma recover_scan realloc_ok xShmMap malloc_ok w szPage nck s1 s2 fs tail :
  (forall n, realloc_ok n = true) -> (forall i, exists pg, xShmMap i = (SQLITE_OK, Some pg) /\ page_dims pg) ->
  (forall n, malloc_ok n = true) -> wal_dims w -> is_Some (wi_get w 0) ->
  512 <= szPage <= 32768 -> Z.land szPage (szPage - 1) = 0 -> is_u32 nck -> is_u32 s1 -> is_u32 s2 ->
  Forall (sized szPage) fs -> Z.of_nat (length fs) < 2 ^ 31 - 2 ->
  let salt := u32_bytes s1 ++ u32_bytes s2 in
  let hd := (walHeader szPage nck (s1, s2)).1 in let ck := (walHeader szPage nck (s1, s2)).2 in
  torn true salt (log_cksum true ck fs) szPage tail ->
  let file := hd ++ log_bytes true salt ck fs ++ tail in
  exists w1 mx np ckc, (if 32 <? Z.of_nat (length file)
      then recover_log realloc_ok xShmMap (file_read file) malloc_ok (set_hdr w empty_hdr) (Z.of_nat (length file))
      else Some (SQLITE_OK, set_hdr w empty_hdr, Some (0, 0))) = Some (SQLITE_OK, w1, Some ckc) /\
    (mx, np, ckc) = commits true 0 ck fs (0, 0, (0, 0)) /\
    index_rep w1 (map fpgno fs) /\ mxFrame (hdr w1) = mx /\ nPage (hdr w1) = np /\ (0 < mx -> hszPage (hdr w1) = szPage) /\
    hdr_ok (hdr w1) /\ readLock w1 = readLock w /\ is_Some (wi_get w1 0).
Proof.
  intros Halloc Hmap Hmalloc Hd Hm0 Hsz Hpow Hn H1 H2 HF Hlen salt hd ck Htorn file.
  assert (Hhd : length hd = 32%nat) by done. assert (Hs8 : length salt = 8%nat) by done.
  assert (Hnil : index_rep (set_hdr w empty_hdr) []).
  { split_and!; [done|simpl; lia|by apply Forall_nil|]. intros i Hi. pose proof (frame_zero_nonneg i Hi). simpl. lia. }
  assert (Hlf : length file = (32 + length (log_bytes true salt ck fs ++ tail))%nat) by (unfold file; rewrite length_app; lia).
  destruct (Z.ltb_spec 32 (Z.of_nat (length file))) as [Hbig|Hsmall].
  - unfold file at 1 2. fold hd. rewrite (recover_log_header szPage nck s1 s2 Hsz Hpow Hn H1 H2 realloc_ok xShmMap malloc_ok _ _ Hmalloc).
    fold hd. fold file. change 32 with (Z.of_nat 32). change 0 with (Z.of_nat (length (@nil Z))) at 1.
    destruct (recover_loop_spec realloc_ok xShmMap Halloc Hmap file true salt szPage Hsz (readLock w) tail Hs8 fs
      (Z.to_nat (Z.of_nat (length file) / (szPage + 24))) (opened szPage nck s1 s2 (set_hdr w empty_hdr)) [] 32 ck 0 0 (0, 0))
      as (w1 & ck1 & mx & np & ckc & -> & Hc & Hinv); try done.
    + lia.
    + rewrite Z2Nat.id by (apply Z.div_pos; lia). pose proof (Z.mul_succ_div_gt (Z.of_nat (length file)) (szPage + 24)). lia.
    + exists w1, mx, np, ckc. split; [done|]. split; [done|]. destruct Hinv as (_ & ? & ? & ? & _ & ? & ? & ? & ?). by split_and!.
  - assert (E : log_bytes true salt ck fs ++ tail = []) by (apply length_zero_iff_nil; lia). apply app_eq_nil in E as [Hl Ht].
    assert (fs = []) as ->.
    { pose proof (log_bytes_length true salt szPage fs Hs8 ck HF) as Hll. rewrite Hl in Hll. destruct fs; [done|simpl in Hll; lia]. }
    exists (set_hdr w empty_hdr), 0, 0, (0, 0). split_and!; (done || lia).
Qed.

(** Recovery and the reads after it. *)
Lemma recovered_commit realloc_ok xShmMap xLock malloc_ok w ckptLock szPage nck s1 s2 good rest tail :
  (forall n, realloc_ok n = true) -> (forall i, exists pg, xShmMap i = (SQLITE_OK, Some pg) /\ page_dims pg) ->
  (forall n, malloc_ok n = true) -> (forall i n, xLock i n = SQLITE_OK) ->
  wal_dims w -> is_Some (wi_get w 0) -> readLock w <> 0 ->
  512 <= szPage <= 32768 -> Z.land szPage (szPage - 1) = 0 -> is_u32 nck -> is_u32 s1 -> is_u32 s2 ->
  Forall (sized szPage) (good ++ rest) -> Z.of_nat (length (good ++ rest)) < 2 ^ 31 - 2 ->
  good = [] \/ (exists g f, good = g ++ [f] /\ ftrunc f <> 0) -> Forall (fun f => ftrunc f = 0) rest ->
  let salt := u32_bytes s1 ++ u32_bytes s2 in
  let '(hd, ck) := walHeader szPage nck (s1, s2) in
  torn true salt (log_cksum true ck (good ++ rest)) szPage tail ->
  let file := hd ++ log_bytes true salt ck (good ++ rest) ++ tail in
  exists w', walIndexRecover realloc_ok xShmMap xLock (SQLITE_OK, Z.of_nat (length file)) (file_read file) malloc_ok w ckptLock = Some (SQLITE_OK, w') /\
    mxFrame (hdr w') = Z.of_nat (length good) /\ nPage (hdr w') = (default (mkFrame 0 0 []) (last good)).(ftrunc) /\
    forall pgno, sqlite3WalRead realloc_ok xShmMap (file_read file) w' pgno szPage =
      Some (SQLITE_OK, w', match last_version good pgno with Some d => (Some 1, d) | None => (Some 0, []) end).
Proof.
  intros Halloc Hmap Hmalloc Hlock Hd Hm0 Hrl Hsz Hpow Hn H1 H2 HF Hlen Hgood Hrest salt.
  destruct (walHeader szPage nck (s1, s2)) as [hd ck] eqn:Eh. intros Htorn file.
  pose proof (recover_scan realloc_ok xShmMap malloc_ok w szPage nck s1 s2 (good ++ rest) tail Halloc Hmap Hmalloc Hd Hm0 Hsz Hpow Hn H1 H2 HF Hlen) as Hscan.
  cbv zeta in Hscan. rewrite Eh in Hscan. cbn [fst snd] in Hscan. fold salt file in Hscan.
  destruct (Hscan Htorn) as (w1 & mx & np & ckc & Hrun & Hc & Hrep & Hmx & Hnp & Hsz1 & Hok & Hrl1 & Hm1).
  destruct (commits_good true ck good rest Hgood Hrest) as [ckc' Hcg]. rewrite Hcg in Hc. injection Hc as -> -> ->.
  destruct (recover_finish w1 _ ckc' Hrep Hm1 Hok) as (w2 & w3 & Hw2 & Hw3 & Hrep3 & Hmx3 & Hnp3 & Hsz3 & Hrl3).
  exists w3. split_and!; [|congruence|congruence|].
  - unfold walIndexRecover. rewrite Hlock. change (truthy SQLITE_OK) with false. cbn [negb Z.eqb SQLITE_OK].
    change WAL_HDRSIZE with 32. rewrite Hrun. cbn [mbind option_bind Z.eqb SQLITE_OK]. rewrite Hw2. cbn [mbind option_bind]. by rewrite Hw3.
  - intros pgno. apply (recovered_read _ _ file salt ck szPage good rest tail hd); try done; try congruence.
    + intros H0. rewrite Hsz3. apply Hsz1. lia.
    + by rewrite <- (walHeader_length szPage nck s1 s2), Eh.
Qed.

(** A frame header written by [walEncodeFrame] is accepted by [walDecodeFrame] on a
    handle with the same salt and running checksum: it returns the page number and the
    database size that were written, and both handles continue with the same checksum.  A
    frame with another salt is rejected and leaves the handle as it was. *)
Theorem frame_header_roundtrip w iPage nTruncate aData rest :
  is_u32 iPage -> iPage <> 0 -> is_u32 nTruncate ->
  let '(aFrame, w') := walEncodeFrame w iPage nTruncate aData in
  walDecodeFrame w aData (aFrame ++ rest) = Some (Some (iPage, nTruncate), w') /\ length aFrame = 24%nat /\
  forall v, salt_bytes v <> salt_bytes w -> walDecodeFrame v aData (aFrame ++ rest) = Some (None, v).
Proof.
  intros Hp Hp0 Ht. pose proof (encode_frame w (mkFrame iPage nTruncate aData)) as He. cbn [fpgno ftrunc fdata] in He. rewrite He.
  split; [|split].
  - by apply (decode_header w (mkFrame iPage nTruncate aData)).
  - by apply header_length.
  - intros v Hv. unfold walDecodeFrame. rewrite bool_decide_false; [done|]. intros E. apply Hv. rewrite E. reflexivity.
Qed.

Lemma frame_header_roundtrip_witness :
  let w := empty_wal garbage_page 1 0 in
  walDecodeFrame w (replicate 8 7) ((walEncodeFrame w 5 9 (replicate 8 7)).1 ++ [1; 2]) = Some (Some (5, 9), (walEncodeFrame w 5 9 (replicate 8 7)).2).
Proof.
  intros w. destruct (frame_header_roundtrip w 5 9 (replicate 8 7) [1; 2]) as [H _]; [unfold is_u32; lia|lia|unfold is_u32; lia|].
  exact H.
Defined.

(** C39. Recovery keeps exactly the committed transactions.  Let the log file be a WAL
    header, the frames of committed transactions ([good], empty or ending in a commit
    frame), frames of a transaction that was not committed ([rest]), and a tail that is
    too short to be a frame or is not a frame of this log.  Then [walIndexRecover]
    succeeds, whatever the wal-index held before; the snapshot ends at the last commit,
    with its database size; and a read of any page returns the content of the last
    committed frame of the page, or reports that the page is not in the log when no
    committed frame holds it. *)
Theorem recovery_keeps_committed realloc_ok xShmMap xLock malloc_ok w ckptLock szPage nck s1 s2 good rest tail :
  (forall n, realloc_ok n = true) -> (forall i, exists pg, xShmMap i = (SQLITE_OK, Some pg) /\ page_dims pg) ->
  (forall n, malloc_ok n = true) -> (forall i n, xLock i n = SQLITE_OK) ->
  wal_dims w -> is_Some (wi_get w 0) -> readLock w <> 0 ->
  512 <= szPage <= 32768 -> Z.land szPage (szPage - 1) = 0 -> is_u32 nck -> is_u32 s1 -> is_u32 s2 ->
  Forall (sized szPage) (good ++ rest) -> Z.of_nat (length (good ++ rest)) < 2 ^ 31 - 2 ->
  good = [] \/ (exists g f, good = g ++ [f] /\ ftrunc f <> 0) -> Forall (fun f => ftrunc f = 0) rest ->
  let salt := u32_bytes s1 ++ u32_bytes s2 in
  let '(hd, ck) := walHeader szPage nck (s1, s2) in
  torn true salt (log_cksum true ck (good ++ rest)) szPage tail ->
  let file := hd ++ log_bytes true salt ck (good ++ rest) ++ tail in
  exists w', walIndexRecover realloc_ok xShmMap xLock (SQLITE_OK, Z.of_nat (length file)) (file_read file) malloc_ok w ckptLock = Some (SQLITE_OK, w') /\
    mxFrame (hdr w') = Z.of_nat (length good) /\ nPage (hdr w') = (default (mkFrame 0 0 []) (last good)).(ftrunc) /\
    forall pgno, sqlite3WalRead realloc_ok xShmMap (file_read file) w' pgno szPage =
      Some (SQLITE_OK, w', match last_version good pgno with Some d => (Some 1, d) | None => (Some 0, []) end).
Proof. apply recovered_commit. Qed.

Lemma recovery_keeps_committed_witness :
  let fs := [mkFrame 3 0 (replicate 512 1); mkFrame 3 7 (replicate 512 2)] in
  let rest := [mkFrame 3 0 (replicate 512 9)] in
  let '(hd, ck) := walHeader 512 0 (11, 12) in
  let file := hd ++ log_bytes true (u32_bytes 11 ++ u32_bytes 12) ck (fs ++ rest) ++ [1; 2; 3] in
  exists w', walIndexRecover (fun _ => true) (fun _ => (SQLITE_OK, Some garbage_page)) (fun _ _ => SQLITE_OK)
      (SQLITE_OK, Z.of_nat (length file)) (file_read file) (fun _ => true) (empty_wal garbage_page 1 0) 0 = Some (SQLITE_OK, w') /\
    mxFrame (hdr w') = 2 /\ nPage (hdr w') = 7 /\
    sqlite3WalRead (fun _ => true) (fun _ => (SQLITE_OK, Some garbage_page)) (file_read file) w' 3 512 =
      Some (SQLITE_OK, w', (Some 1, replicate 512 2)).
Proof.
  intros fs rest. assert (Hd : page_dims garbage_page) by (split; vm_compute; reflexivity).
  pose proof (recovery_keeps_committed (fun _ => true) (fun _ => (SQLITE_OK, Some garbage_page)) (fun _ _ => SQLITE_OK) (fun _ => true)
    (empty_wal garbage_page 1 0) 0 512 0 11 12 fs rest [1; 2; 3]) as H.
  destruct (walHeader 512 0 (11, 12)) as [hd ck]. intros file.
  destruct H as (w' & Hr & Hm & Hn & Hp); try done.
  - intros i. by exists garbage_page.
  - intros i pg Hpg. unfold wi_get, empty_wal, rd in Hpg. simpl in Hpg. revert Hpg. case_bool; [done|].
    destruct (Z.to_nat i) as [|n]; [by intros [= <-]|by destruct n].
  - unfold fs, rest. repeat apply Forall_cons_2; try apply Forall_nil_2; (split; [split_and!; unfold is_u32; simpl; lia|reflexivity]).
  - right. exists [mkFrame 3 0 (replicate 512 1)], (mkFrame 3 7 (replicate 512 2)). done.
  - by repeat constructor.
  - left. simpl. lia.
  - exists w'. split; [exact Hr|]. split; [exact Hm|]. split; [exact Hn|]. exact (Hp 3).
Defined.
