(* ===== verification/WalCommit.v ===== *)
(** * WalCommit: a committed transaction survives a crash

    Composes the writer and the recovery of wal.c: the bytes that
    [sqlite3WalFrames] leaves in the log file are the frames of the transaction
    after those already there, and [walIndexRecover] of another process, on the
    file alone, brings back every committed page.  The file is a list of bytes that
    grows when it is written past its end. *)
From S2P Require Import Prelude Varint Probe WalIndex WalFile.
From stdpp Require Import list.
#[local] Open Scope Z_scope.

#[local] Arguments Z.to_nat : simpl never.
#[local] Arguments replicate : simpl never.
#[local] Arguments Z.mul : simpl never.

(** A write to the file: a gap before [off] is filled with zeros. *)
Definition file_write (file : list Z) (off : Z) (bs : list Z) : Z * list Z :=
  (SQLITE_OK, take (Z.to_nat off) (file ++ replicate (Z.to_nat off - length file) 0) ++ bs ++ drop (Z.to_nat off + length bs) file).

(** The frames of a transaction: the last one carries the database size of a commit. *)
Fixpoint tx_frames (ps : list (Z * list Z)) (isCommit : bool) (nTruncate : Z) : list Frame :=
  match ps with
  | [] => []
  | (pgno, d) :: ps => mkFrame pgno (if isCommit && bool_decide (ps = []) then nTruncate else 0) d :: tx_frames ps isCommit nTruncate
  end.

Lemma file_write_at pre tail off bs : Z.of_nat (length pre) = off ->
  file_write (pre ++ tail) off bs = (SQLITE_OK, (pre ++ bs) ++ drop (length bs) tail).
Proof.
  intros <-. unfold file_write. rewrite Nat2Z.id. f_equal. rewrite <- !app_assoc, take_app_length. do 2 f_equal.
  by rewrite <- drop_drop, drop_app_length.
Qed.

Lemma log_bytes_app native salt fs gs : forall ck,
  log_bytes native salt ck (fs ++ gs) = log_bytes native salt ck fs ++ log_bytes native salt (log_cksum native ck fs) gs.
Proof. induction fs as [|f fs IH]; intros ck; [done|]. cbn [log_bytes log_cksum app]. by rewrite IH, !app_assoc. Qed.

Lemma log_cksum_app native fs gs : forall ck, log_cksum native ck (fs ++ gs) = log_cksum native (log_cksum native ck fs) gs.
Proof. induction fs as [|f fs IH]; intros ck; [done|]. apply IH. Qed.

Lemma codec_step w native salt ck f : codec w native salt ck ->
  walEncodeFrame w (fpgno f) (ftrunc f) (fdata f) = (frame_header native salt ck f, set_cksum w (frame_cksum native ck f)) /\
  codec (set_cksum w (frame_cksum native ck f)) native salt (frame_cksum native ck f).
Proof. intros (<- & <- & <-). split; [apply encode_frame|]. by split_and!. Qed.

Lemma set_cksum_twice w a b : set_cksum (set_cksum w a) b = set_cksum w b.
Proof. done. Qed.

Lemma walFrameOffset_small szPage k : 512 <= szPage <= 32768 -> 0 <= k < 2 ^ 32 -> walFrameOffset (k + 1) szPage = 32 + k * (szPage + 24).
Proof.
  intros Hsz Hk. unfold walFrameOffset. rewrite u32_small, i64_small by (unfold is_u32, is_i64, WAL_FRAME_HDRSIZE; lia).
  change WAL_HDRSIZE with 32. change WAL_FRAME_HDRSIZE with 24. lia.
Qed.

Section commit.
Context (native : bool) (salt : list Z) (szPage : Z) (Hsz : 512 <= szPage <= 32768) (Hsalt : length salt = 8%nat).

(** Writing one frame at the end of the frames written so far. *)
Lemma write_frame w pre tail off ck f : codec w native salt ck -> sized szPage f -> Z.of_nat (length pre) = off ->
  exists file1, file_write (pre ++ tail) off (frame_header native salt ck f) = (SQLITE_OK, file1) /\
    file_write file1 (off + 24) (fdata f) =
      (SQLITE_OK, (pre ++ frame_header native salt ck f ++ fdata f) ++ drop (Z.to_nat (szPage + 24)) tail).
Proof using Hsalt Hsz.
  intros Hc [_ Hd] Hoff. pose proof (header_length native salt ck f Hsalt) as H24. eexists. split; [by apply file_write_at|].
  rewrite file_write_at by (rewrite length_app; lia). rewrite H24, drop_drop, <- !app_assoc. by replace (24 + length (fdata f))%nat with (Z.to_nat (szPage + 24)) by lia.
Qed.

Lemma write_pages_spec isCommit nTruncate ps : forall w pre tail k ck,
  codec w native salt ck -> Forall (sized szPage) (tx_frames ps isCommit nTruncate) ->
  Z.of_nat (length pre) = 32 + k * (szPage + 24) -> 0 <= k -> k + Z.of_nat (length ps) < 2 ^ 31 ->
  let fs := tx_frames ps isCommit nTruncate in
  write_pages file_write w (pre ++ tail) k szPage ps isCommit nTruncate =
    (SQLITE_OK, set_cksum w (log_cksum native ck fs), (pre ++ log_bytes native salt ck fs) ++ drop (length ps * Z.to_nat (szPage + 24)) tail,
     k + Z.of_nat (length ps)).
Proof using Hsalt Hsz.
  induction ps as [|[pgno d] ps IH]; intros w pre tail k ck Hc HF Hpre Hk Hb; cbn [tx_frames log_bytes log_cksum write_pages length].
  { rewrite app_nil_r, Z.add_0_r. destruct Hc as (_ & _ & <-). by destruct w as [? ? ? ? [] ? ?]. }
  cbn [tx_frames] in HF. apply Forall_cons in HF as [Hf HF]. cbn [length] in Hb. set (f := mkFrame _ _ _) in *.
  rewrite (u32_small (k + 1)) by (unfold is_u32; lia). rewrite walFrameOffset_small by lia.
  destruct (codec_step w native salt ck f Hc) as [He Hc']. cbn [fpgno ftrunc fdata f] in He. rewrite He.
  destruct (write_frame w pre tail _ ck f Hc Hf Hpre) as (file1 & -> & Hw2). cbn [negb Z.eqb SQLITE_OK].
  cbn [fdata f] in Hw2. rewrite Hw2. cbn [negb Z.eqb SQLITE_OK].
  rewrite (IH _ _ _ _ _ Hc' HF).
  - rewrite set_cksum_twice, drop_drop, <- !app_assoc. f_equal. lia.
  - rewrite !length_app, (header_length native salt ck f Hsalt). destruct Hf as [_ Hd]. cbn [fdata f] in Hd. lia.
  - lia.
  - lia.
Qed.

Lemma pad_sector_spec last nTruncate seg : sized szPage (mkFrame last.1 nTruncate last.2) -> forall fuel w pre tail off ck nLast,
  codec w native salt ck -> Z.of_nat (length pre) = off -> seg - off <= Z.of_nat fuel ->
  exists n, let fs := replicate n (mkFrame last.1 nTruncate last.2) in
  pad_sector file_write fuel w (pre ++ tail) off seg szPage last nTruncate nLast =
    Some (SQLITE_OK, set_cksum w (log_cksum native ck fs), (pre ++ log_bytes native salt ck fs) ++ drop (n * Z.to_nat (szPage + 24)) tail, (nLast + n)%nat) /\
  Z.of_nat n <= Z.max 0 (seg - off).
Proof using Hsalt Hsz.
  intros Hf. induction fuel as [|fuel IH]; intros w pre tail off ck nLast Hc Hpre Hfuel; cbn [pad_sector].
  { exists O. rewrite (proj2 (Z.ltb_ge _ _)) by lia. split; [|lia]. cbn. rewrite app_nil_r, Nat.add_0_r. destruct Hc as (_ & _ & <-).
    by destruct w as [? ? ? ? [] ? ?]. }
  destruct (Z.ltb_spec off seg) as [Hlt|Hge].
  2: { exists O. split; [|lia]. cbn. rewrite app_nil_r, Nat.add_0_r. destruct Hc as (_ & _ & <-). by destruct w as [? ? ? ? [] ? ?]. }
  set (f := mkFrame last.1 nTruncate last.2) in *. destruct (codec_step w native salt ck f Hc) as [He Hc'].
  cbn [fpgno ftrunc fdata f] in He. rewrite He. destruct (write_frame w pre tail _ ck f Hc Hf Hpre) as (file1 & -> & Hw2).
  cbn [negb Z.eqb SQLITE_OK]. change WAL_FRAME_HDRSIZE with 24. cbn [fdata f] in Hw2. rewrite Hw2. cbn [negb Z.eqb SQLITE_OK].
  pose proof (proj2 Hf) as Hd. cbn [fdata f] in Hd.
  destruct (IH (set_cksum w (frame_cksum native ck f)) (pre ++ frame_header native salt ck f ++ last.2)
    (drop (Z.to_nat (szPage + 24)) tail) (off + 24 + szPage) (frame_cksum native ck f) (S nLast)) as (n & Hn & Hnb); try done.
  - rewrite !length_app, (header_length native salt ck f Hsalt). lia.
  - lia.
  - exists (S n). rewrite Hn. split; [|lia]. rewrite replicate_S. cbn [log_bytes log_cksum]. rewrite set_cksum_twice, drop_drop, <- !app_assoc.
    do 2 f_equal. lia.
Qed.
End commit.

(** ** The index and the recovery *)

Lemma tx_frames_pgno ps c nt : map fpgno (tx_frames ps c nt) = map fst ps.
Proof. induction ps as [|[p d] ps IH]; [done|]. cbn. by rewrite IH. Qed.

Lemma tx_frames_last ps c nt x : List.last (map Some ps) None = Some x ->
  exists g, tx_frames ps c nt = g ++ [mkFrame x.1 (if c then nt else 0) x.2] /\ List.last (map fst ps) 0 = x.1.
Proof.
  induction ps as [|[p d] ps IH]; [done|]. destruct ps as [|q ps].
  - intros [= <-]. exists []. cbn. by rewrite andb_true_r.
  - intros Hx. destruct (IH Hx) as (g & Hg & Hl). cbn [tx_frames] in *. rewrite Hg. eexists (_ :: g). split; [done|exact Hl].
Qed.

Lemma last_version_app fs gs p : last_version (fs ++ gs) p = match last_version gs p with Some d => Some d | None => last_version fs p end.
Proof.
  induction fs as [|f fs IH]; cbn [app last_version]; [by destruct (last_version gs p)|]. rewrite IH. by destruct (last_version gs p).
Qed.

Lemma last_version_pad fs f g n p : fpgno f = fpgno g -> fdata f = fdata g ->
  last_version (fs ++ [f] ++ replicate n g) p = last_version (fs ++ [f]) p.
Proof.
  intros Ep Ed. rewrite !last_version_app.
  assert (Hrep : last_version (replicate n g) p = None \/ last_version (replicate n g) p = last_version [f] p).
  { induction n as [|n IH]; [by left|]. rewrite replicate_S. cbn [last_version] in *. rewrite Ep, Ed. destruct IH as [-> | ->]; [by right|].
    rewrite Ep, Ed. right. by destruct (fpgno g =? p). }
  destruct Hrep as [-> | ->]; [done|]. by destruct (last_version [f] p).
Qed.

(** An old frame, from before the log was restarted, has another salt. *)
Lemma foreign_torn salt ck szPage tail : 512 <= szPage -> take 8 (drop 8 tail) <> salt -> torn true salt ck szPage tail.
Proof.
  intros Hsz Hne. right. intros w (_ & Hsalt & _). exists w. split; [|by left]. unfold walDecodeFrame.
  rewrite bool_decide_false; [done|]. rewrite Hsalt. intros E. apply Hne. rewrite E.
  rewrite skipn_firstn_comm, take_take. f_equal. lia.
Qed.

Section index.
Context (realloc_ok : Z -> bool) (xShmMap : Z -> Z * option WiPage).
Context (Halloc : forall n, realloc_ok n = true).
Context (Hmap : forall i, exists pg, xShmMap i = (SQLITE_OK, Some pg) /\ page_dims pg).

Lemma frames_index_ok w L J ps n nt szPage : index_rep w (L ++ J) -> mxFrame (hdr w) = Z.of_nat (length L) -> hdr_ok (hdr w) ->
  is_Some (wi_get w 0) -> Forall (fun p => 0 < p) (ps ++ replicate n (List.last ps 0)) ->
  Z.of_nat (length L + length ps + n) < 2 ^ 31 - 1 -> exists w',
  frames_index realloc_ok xShmMap w ps n true nt szPage = Some (SQLITE_OK, w').
Proof using Halloc Hmap.
  intros Hrep Hmx (Hi & Hb & _) Hm0 HF Hlen. unfold frames_index. rewrite Hmx. apply wi_hdr_mapped in Hm0 as [ws Hws].
  destruct (append_all_rep realloc_ok xShmMap (map_contract xShmMap Hmap) _ w L J ws Hrep (or_intror Hmx) HF) as (rc & w1 & f & -> & Hs & Hh & [(-> & -> & J' & Hrep')|[He _]]).
  - rewrite length_app, length_replicate. lia.
  - done.
  - cbn [mbind option_bind negb Z.eqb SQLITE_OK]. destruct (same_handle_hdr _ _ Hs) as (Eh & _).
    match goal with |- context [walIndexWriteHdr ?x] => destruct (write_hdr_rep x _ Hrep') as (w2 & h & -> & _); [| |by eexists] end.
    + assert (is_Some (wi_get w1 0)) as [pg ?] by (apply wi_hdr_mapped; by rewrite Hh). by exists pg.
    + rewrite Eh. unfold hdr_ok. cbn. split_and!; try lia; unfold u16; apply Z.mod_pos_bound; lia.
  - by apply (no_env_error _ _ Halloc Hmap) in He.
Qed.
End index.

(** ** Durability *)

Section durable.
Context (realloc_ok : Z -> bool) (xShmMap : Z -> Z * option WiPage).
Context (Halloc : forall n, realloc_ok n = true).
Context (Hmap : forall i, exists pg, xShmMap i = (SQLITE_OK, Some pg) /\ page_dims pg).
Context (xSync : Z -> Z) (xSectorSize : Z) (Hsync : forall f, xSync f = SQLITE_OK) (Hsector : 0 < xSectorSize < 2 ^ 30).
Context (szPage : Z) (Hsz : 512 <= szPage <= 32768).

(** The log that a writer continues: the frames [fs] are in the file and the handle has
    their checksum, or the log is empty and the header is still to be written, with the
    salt that the random source returns. *)
Definition log_open (rnd : Z * Z) (w : Wal) (file : list Z) (nck s1 s2 : Z) (fs : list Frame) (stale : list Z) : Prop :=
  let '(hd, ck) := walHeader szPage nck (s1, s2) in
  (fs = [] /\ (s1, s2) = rnd /\ nck = nCkpt w /\ stale = drop 32 file) \/
  (fs <> [] /\ codec w true (u32_bytes s1 ++ u32_bytes s2) (log_cksum true ck fs) /\
   file = hd ++ log_bytes true (u32_bytes s1 ++ u32_bytes s2) ck fs ++ stale).

(** The copies of the last page that a sync adds. *)
Lemma sync_log_spec w pre stale salt ck k ps nTruncate sync_flags x :
  length salt = 8%nat -> codec w true salt ck -> Z.of_nat (length pre) = 32 + k * (szPage + 24) -> 0 <= k < 2 ^ 31 ->
  List.last (map Some ps) None = Some x -> sized szPage (mkFrame x.1 nTruncate x.2) ->
  exists n, let pad := replicate n (mkFrame x.1 nTruncate x.2) in Z.of_nat n <= xSectorSize /\
  sync_log file_write xSync xSectorSize w (pre ++ stale) k szPage ps nTruncate sync_flags =
    Some (SQLITE_OK, set_cksum w (log_cksum true ck pad), (pre ++ log_bytes true salt ck pad) ++ drop (n * Z.to_nat (szPage + 24)) stale, n).
Proof using Hsync Hsector Hsz.
  intros Hsalt Hc Hpre Hk Hx Hf. unfold sync_log. destruct (truthy sync_flags).
  - rewrite Hx. cbn [mbind option_bind]. rewrite u32_small by (unfold is_u32; lia). rewrite walFrameOffset_small by lia.
    set (off := 32 + _) in *. set (seg := _ / _ * _).
    assert (Hseg : seg - off <= xSectorSize) by (unfold seg; pose proof (Z.mul_div_le (off + xSectorSize - 1) xSectorSize); lia).
    destruct (pad_sector_spec true salt szPage Hsz Hsalt x nTruncate seg Hf (Z.to_nat xSectorSize) w pre stale off ck 0 Hc Hpre) as (n & -> & Hn); [lia|].
    exists n. split; [lia|]. cbn [mbind option_bind negb Z.eqb SQLITE_OK]. by rewrite Hsync.
  - exists O. split; [lia|]. cbn. rewrite app_nil_r. destruct Hc as (_ & _ & <-). by destruct w as [? ? ? ? [] ? ?].
Qed.

Lemma start_log_spec rnd w file nck s1 s2 fs stale : is_u32 s1 -> is_u32 s2 -> mxFrame (hdr w) = Z.of_nat (length fs) ->
  log_open rnd w file nck s1 s2 fs stale ->
  let '(hd, ck) := walHeader szPage nck (s1, s2) in let salt := u32_bytes s1 ++ u32_bytes s2 in
  exists w1, start_log file_write rnd w file szPage = (SQLITE_OK, w1, (hd ++ log_bytes true salt ck fs) ++ stale) /\
    codec w1 true salt (log_cksum true ck fs) /\ apWiData w1 = apWiData w /\ mxFrame (hdr w1) = mxFrame (hdr w) /\
    (hdr_ok (hdr w) -> hdr_ok (hdr w1)).
Proof using Type.
  intros H1 H2 Hmx. unfold log_open, start_log. destruct (walHeader szPage nck (s1, s2)) as [hd ck] eqn:Eh.
  pose proof (walHeader_length szPage nck s1 s2) as Hl. rewrite Eh in Hl. cbn [fst] in Hl.
  intros [(-> & <- & -> & ->)|(Hne & Hc & ->)].
  - rewrite Hmx. cbn [length Z.of_nat Z.eqb]. rewrite Eh. change file with ([] ++ file) at 1. rewrite (file_write_at [] file 0 hd) by done. eexists. split.
    + rewrite Hl. cbn [log_bytes app]. by rewrite app_nil_r.
    + split; [by split_and!|]. split; [done|]. split; [done|]. intros (? & ? & ?). unfold hdr_ok. cbn. unfold SQLITE_BIGENDIAN. lia.
  - rewrite (proj2 (Z.eqb_neq _ _)) by (destruct fs; [done|rewrite Hmx; simpl; lia]). exists w. by rewrite <- app_assoc.
Qed.

Lemma index_rep_pages w w1 L : apWiData w1 = apWiData w -> index_rep w L -> index_rep w1 L.
Proof using Type. destruct w, w1. cbn. intros ->. done. Qed.

Lemma wi_get_pages w w1 i : apWiData w1 = apWiData w -> wi_get w1 i = wi_get w i.
Proof using Type. destruct w, w1. cbn. intros ->. done. Qed.

(** The file after a commit. *)
Lemma frames_written rnd w file nck s1 s2 fs J stale ps nTruncate sync_flags : is_u32 s1 -> is_u32 s2 ->
  mxFrame (hdr w) = Z.of_nat (length fs) -> index_rep w (map fpgno fs ++ J) -> hdr_ok (hdr w) -> is_Some (wi_get w 0) ->
  log_open rnd w file nck s1 s2 fs stale -> Forall (sized szPage) fs ->
  ps <> [] -> Forall (sized szPage) (tx_frames ps true nTruncate) ->
  Z.of_nat (length fs) + Z.of_nat (length ps) + xSectorSize < 2 ^ 31 - 2 ->
  let '(hd, ck) := walHeader szPage nck (s1, s2) in let salt := u32_bytes s1 ++ u32_bytes s2 in
  exists w' n g x, let f := mkFrame x.1 nTruncate x.2 in tx_frames ps true nTruncate = g ++ [f] /\ Z.of_nat n <= xSectorSize /\
    sqlite3WalFrames file_write realloc_ok xShmMap xSync xSectorSize rnd w file szPage ps nTruncate true sync_flags =
      Some (SQLITE_OK, w', hd ++ log_bytes true salt ck (fs ++ (g ++ [f]) ++ replicate n f) ++ drop ((length ps + n) * Z.to_nat (szPage + 24)) stale).
Proof using Halloc Hmap Hsync Hsector Hsz.
  intros H1 H2 Hmx Hrep Hok Hm0 Hopen HFs Hps HF Hlen. pose proof (start_log_spec rnd w file nck s1 s2 fs stale H1 H2 Hmx Hopen) as Hst.
  pose proof (walHeader_length szPage nck s1 s2) as Hhl. destruct (walHeader szPage nck (s1, s2)) as [hd ck]. cbn [fst] in Hhl. intros salt.
  destruct Hst as (w1 & Hst & Hc1 & Ep & Emx & Hok1). fold salt in Hst, Hc1. assert (Hsalt : length salt = 8%nat) by done.
  assert (exists x, List.last (map Some ps) None = Some x) as [x Hx].
  { destruct (exists_last Hps) as (l & a & ->). exists a. rewrite map_app. apply last_last. }
  destruct (tx_frames_last ps true nTruncate x Hx) as (g & Hg & Hl). set (f := mkFrame x.1 nTruncate x.2) in *.
  assert (Hf : sized szPage f) by (rewrite Hg in HF; by apply Forall_app in HF as [_ [? _]%Forall_cons]).
  unfold sqlite3WalFrames. rewrite Hst, Hmx. cbn [negb Z.eqb SQLITE_OK].
  pose proof (log_bytes_length true salt szPage fs Hsalt ck HFs) as Hll.
  rewrite (write_pages_spec true salt szPage Hsz Hsalt true nTruncate ps w1 _ stale _ _ Hc1 HF) by (rewrite ?length_app; lia).
  cbn [negb Z.eqb SQLITE_OK].
  assert (Hltx : length (tx_frames ps true nTruncate) = length ps) by (rewrite <- (length_map fst ps), <- (tx_frames_pgno ps true nTruncate), length_map; done).
  pose proof (log_bytes_length true salt szPage (tx_frames ps true nTruncate) Hsalt (log_cksum true ck fs) HF) as Hlt.
  destruct (sync_log_spec (set_cksum w1 (log_cksum true (log_cksum true ck fs) (tx_frames ps true nTruncate)))
    ((hd ++ log_bytes true salt ck fs) ++ log_bytes true salt (log_cksum true ck fs) (tx_frames ps true nTruncate))
    (drop (length ps * Z.to_nat (szPage + 24)) stale) salt (log_cksum true (log_cksum true ck fs) (tx_frames ps true nTruncate))
    (Z.of_nat (length fs) + Z.of_nat (length ps)) ps nTruncate sync_flags x) as (n & Hn & ->); try done; [by destruct Hc1 as (? & ? & ?)|rewrite !length_app; lia|lia|].
  fold f. cbn [mbind option_bind negb Z.eqb SQLITE_OK].
  match goal with |- context [frames_index _ _ ?v _ _ _ _ _] => destruct (frames_index_ok realloc_ok xShmMap Halloc Hmap v (map fpgno fs) J (map fst ps) n nTruncate szPage)
    as [w2 ->]; [by apply (index_rep_pages w)|by rewrite length_map; cbn; rewrite Emx|by apply Hok1|by rewrite (wi_get_pages w)| | |] end.
  - rewrite Hl. apply Forall_app. split.
    + rewrite <- (tx_frames_pgno ps true nTruncate). apply Forall_fmap, (Forall_impl _ _ _ HF). intros h [(Hp & ? & ?) _]. unfold is_u32 in Hp. cbn. lia.
    + apply Forall_replicate. destruct Hf as [(Hp & ? & ?) _]. cbn [fpgno f] in *. unfold is_u32 in Hp. lia.
  - rewrite !length_map. lia.
  - exists w2, n, g, x. split; [done|]. split; [done|]. cbn [mbind option_bind]. fold f. rewrite <- Hg. rewrite !log_bytes_app, drop_drop, <- !app_assoc.
    by rewrite Nat.mul_add_distr_r.
Qed.
End durable.

(** Whatever the writer puts in the log, frames at the old positions of the stale part keep another salt. *)
Definition foreign (salt : list Z) (szPage : Z) (stale : list Z) : Prop :=
  forall k, take 8 (drop (k * Z.to_nat (szPage + 24) + 8) stale) <> salt.

(** C40. A commit survives a crash.  A writer that holds a log of committed frames [fs] (or
    starts a new log) writes the pages [ps] with [sqlite3WalFrames] as a commit, with or
    without a sync that pads the last sector; what follows in the file is left from before
    the log was restarted, under another salt.  The call returns SQLITE_OK, and
    [walIndexRecover], run by any process on the bytes of the file alone, succeeds, restores
    the database size of the commit, and serves every page with the content that the new
    transaction, or else the last earlier one, gave it. *)
Theorem commit_survives_crash realloc_ok xShmMap xLock malloc_ok xSync xSectorSize rnd w w0 ckptLock file szPage nck s1 s2 fs J stale
    ps nTruncate sync_flags :
  (forall n, realloc_ok n = true) -> (forall i, exists pg, xShmMap i = (SQLITE_OK, Some pg) /\ page_dims pg) ->
  (forall n, malloc_ok n = true) -> (forall i n, xLock i n = SQLITE_OK) ->
  (forall f, xSync f = SQLITE_OK) -> 0 < xSectorSize < 2 ^ 30 ->
  512 <= szPage <= 32768 -> Z.land szPage (szPage - 1) = 0 -> is_u32 nck -> is_u32 s1 -> is_u32 s2 ->
  mxFrame (hdr w) = Z.of_nat (length fs) -> index_rep w (map fpgno fs ++ J) -> hdr_ok (hdr w) -> is_Some (wi_get w 0) ->
  log_open szPage rnd w file nck s1 s2 fs stale -> foreign (u32_bytes s1 ++ u32_bytes s2) szPage stale ->
  Forall (sized szPage) fs -> ps <> [] -> Forall (sized szPage) (tx_frames ps true nTruncate) -> nTruncate <> 0 ->
  Z.of_nat (length fs) + Z.of_nat (length ps) + xSectorSize < 2 ^ 31 - 2 ->
  wal_dims w0 -> is_Some (wi_get w0 0) -> readLock w0 <> 0 ->
  exists w' file' w1,
    sqlite3WalFrames file_write realloc_ok xShmMap xSync xSectorSize rnd w file szPage ps nTruncate true sync_flags = Some (SQLITE_OK, w', file') /\
    walIndexRecover realloc_ok xShmMap xLock (SQLITE_OK, Z.of_nat (length file')) (file_read file') malloc_ok w0 ckptLock = Some (SQLITE_OK, w1) /\
    nPage (hdr w1) = nTruncate /\
    forall pgno, sqlite3WalRead realloc_ok xShmMap (file_read file') w1 pgno szPage =
      Some (SQLITE_OK, w1, match last_version (fs ++ tx_frames ps true nTruncate) pgno with Some d => (Some 1, d) | None => (Some 0, []) end).
Proof.
  intros Halloc Hmap Hmalloc Hlock Hsync Hsector Hsz Hpow Hn H1 H2 Hmx Hrep Hok Hm0 Hopen Hforeign HFs Hps HF Hnt Hlen Hd0 Hg0 Hrl0.
  pose proof (frames_written realloc_ok xShmMap Halloc Hmap xSync xSectorSize Hsync Hsector szPage Hsz rnd w file nck s1 s2 fs J stale ps
    nTruncate sync_flags H1 H2 Hmx Hrep Hok Hm0 Hopen HFs Hps HF Hlen) as Hw.
  destruct (walHeader szPage nck (s1, s2)) as [hd ck] eqn:Eh. cbv zeta in Hw.
  destruct Hw as (w' & n & g & x & Hg & Hpad & Hw). rewrite Hw. set (f := mkFrame x.1 nTruncate x.2) in *.
  set (good := fs ++ (g ++ [f]) ++ replicate n f) in *. set (tail := drop _ stale) in *.
  assert (HFf : Forall (sized szPage) (g ++ [f])) by by rewrite <- Hg.
  assert (Hlg : length (g ++ [f]) = length ps) by (rewrite <- Hg, <- (length_map fst ps), <- (tx_frames_pgno ps true nTruncate), length_map; done).
  pose proof (recovered_commit realloc_ok xShmMap xLock malloc_ok w0 ckptLock szPage nck s1 s2 good [] tail Halloc Hmap Hmalloc Hlock Hd0 Hg0 Hrl0
    Hsz Hpow Hn H1 H2) as Hr. rewrite Eh, !app_nil_r in Hr.
  destruct Hr as (w1 & Hr & _ & Hnp & Hread).
  - unfold good. rewrite !Forall_app. split; [done|]. split; [by apply Forall_app|]. apply Forall_replicate. by apply Forall_app in HFf as [_ [? _]%Forall_cons].
  - unfold good. rewrite !length_app, length_replicate. rewrite length_app in Hlg. lia.
  - right. destruct n as [|n].
    + exists (fs ++ g), f. unfold good. by rewrite app_nil_r, app_assoc.
    + exists (fs ++ (g ++ [f]) ++ replicate n f), f. unfold good. by rewrite replicate_S_end, !app_assoc.
  - done.
  - apply foreign_torn; [lia|]. unfold tail. rewrite drop_drop. apply Hforeign.
  - eexists w', _, w1. split; [done|]. split; [exact Hr|]. split.
    + rewrite Hnp. unfold good. destruct n as [|n]; [by rewrite app_nil_r, app_assoc, last_snoc|by rewrite replicate_S_end, !app_assoc, last_snoc].
    + intros pgno. rewrite Hread, Hg. unfold good. rewrite <- app_assoc, app_assoc, (last_version_pad (fs ++ g) f f n) by done. by rewrite app_assoc.
Qed.

Lemma commit_survives_crash_witness :
  let env := (fun _ : Z => (SQLITE_OK, Some garbage_page)) in
  let w := empty_wal garbage_page 1 0 in
  let ps := [(3, replicate 512 1); (5, replicate 512 2)] in
  exists w' file' w1,
    sqlite3WalFrames file_write (fun _ => true) env (fun _ => SQLITE_OK) 512 (11, 12) w [] 512 ps 9 true 2 = Some (SQLITE_OK, w', file') /\
    walIndexRecover (fun _ => true) env (fun _ _ => SQLITE_OK) (SQLITE_OK, Z.of_nat (length file')) (file_read file') (fun _ => true) w 0 =
      Some (SQLITE_OK, w1) /\ nPage (hdr w1) = 9 /\
    sqlite3WalRead (fun _ => true) env (file_read file') w1 3 512 = Some (SQLITE_OK, w1, (Some 1, replicate 512 1)).
Proof.
  intros env w ps. assert (Hd : page_dims garbage_page) by (split; vm_compute; reflexivity).
  assert (Hw : wal_dims w).
  { intros i pg Hpg. unfold w, wi_get, empty_wal, rd in Hpg. simpl in Hpg. revert Hpg. case_bool; [done|].
    destruct (Z.to_nat i) as [|n]; [by intros [= <-]|by destruct n]. }
  assert (Hrep : index_rep w (map fpgno [] ++ [])).
  { split_and!; [done|simpl; lia|by apply Forall_nil|]. intros i Hi. pose proof (frame_zero_nonneg i Hi). simpl. lia. }
  assert (Hopen : log_open 512 (11, 12) w [] 0 11 12 [] []).
  { unfold log_open. destruct (walHeader 512 0 (11, 12)). left. done. }
  assert (HF : Forall (sized 512) (tx_frames ps true 9)).
  { repeat apply Forall_cons_2; try apply Forall_nil_2; (split; [split_and!; unfold is_u32; simpl; lia|reflexivity]). }
  destruct (commit_survives_crash (fun _ => true) env (fun _ _ => SQLITE_OK) (fun _ => true) (fun _ => SQLITE_OK) 512 (11, 12) w w 0 [] 512 0 11 12 [] [] []
    ps 9 2 (fun _ => eq_refl) (fun i => ex_intro _ garbage_page (conj eq_refl Hd)) (fun _ => eq_refl) (fun _ _ => eq_refl) (fun _ => eq_refl)
    ltac:(lia) ltac:(lia) eq_refl ltac:(unfold is_u32; lia) ltac:(unfold is_u32; lia) ltac:(unfold is_u32; lia) eq_refl Hrep ltac:(unfold hdr_ok; simpl; lia)
    (ex_intro _ garbage_page eq_refl) Hopen ltac:(intros k; by rewrite drop_nil) (Forall_nil_2 _) ltac:(done) HF ltac:(lia) ltac:(simpl; lia) Hw
    (ex_intro _ garbage_page eq_refl) ltac:(simpl; lia)) as (w' & file' & w1 & H1 & H2 & H3 & H4).
  exists w', file', w1. split; [exact H1|]. split; [exact H2|]. split; [exact H3|]. exact (H4 3).
Defined.
