(* ===== verification/Sha1.v ===== *)
(** * Sha1: the SHA-1 implementation of the WHIP server

    Models [src/whip-server/whip/SHA1.cpp] (the file of the same name under
    [src/aperture/aperture] is a copy): the class [CSHA1] with [Reset], [Update],
    [Final], [GetHash] and [ReportHash], on a little-endian machine
    ([SHA1_LITTLE_ENDIAN], the default).  The workspace [m_block] is filled anew by
    each [Transform], so it is a local of the model.  The specification is the
    algorithm of the standard: padding to blocks of 64 bytes, an 80-word message
    schedule and the 80 steps of the compression function. *)
From S2P Require Import Prelude Bits.
From stdpp Require Import list.
#[local] Open Scope Z_scope.

#[local] Arguments Z.mul : simpl never.
#[local] Arguments Z.add : simpl never.
#[local] Arguments Z.pow : simpl never.
#[local] Arguments Z.of_nat : simpl never.
#[local] Arguments Z.to_nat : simpl never.

(** ** The code *)

Definition ROL32 (x n : Z) : Z := Z.lor (u32 (Z.shiftl x n)) (Z.shiftr x (32 - n)).

(** [m_block->l]: the 64 bytes of the buffer as little-endian words. *)
Fixpoint workspace (buf : list Z) : list Z :=
  match buf with
  | b0 :: b1 :: b2 :: b3 :: buf =>
      Z.lor (Z.lor b0 (Z.shiftl b1 8)) (Z.lor (Z.shiftl b2 16) (Z.shiftl b3 24)) :: workspace buf
  | _ => []
  end.

(** The macros that assign a word of the workspace; their value is the word. *)
Definition SHABLK0 (l : list Z) (i : nat) : list Z :=
  <[i := Z.lor (Z.land (ROL32 (l !!! i) 24) 0xFF00FF00) (Z.land (ROL32 (l !!! i) 8) 0x00FF00FF)]> l.

Definition SHABLK (l : list Z) (i : nat) : list Z :=
  <[(i mod 16)%nat := ROL32 (Z.lxor (Z.lxor (Z.lxor (l !!! ((i + 13) mod 16)%nat) (l !!! ((i + 8) mod 16)%nat))
                                            (l !!! ((i + 2) mod 16)%nat)) (l !!! (i mod 16)%nat)) 1]> l.

Inductive round_kind := R0 | R1 | R2 | R3 | R4.

Definition round_f (k : round_kind) (w x y : Z) : Z :=
  match k with
  | R0 | R1 => Z.lxor (Z.land w (Z.lxor x y)) y
  | R2 | R4 => Z.lxor (Z.lxor w x) y
  | R3 => Z.lor (Z.land (Z.lor w x) y) (Z.land w x)
  end.

Definition round_k (k : round_kind) : Z :=
  match k with R0 | R1 => 0x5A827999 | R2 => 0x6ED9EBA1 | R3 => 0x8F1BBCDC | R4 => 0xCA62C1D6 end.

(** One of the macros [_R0] to [_R4] on the working variables and the workspace. *)
Definition round (s : list Z * list Z) (r : round_kind * (nat * nat * nat * nat * nat) * nat) : list Z * list Z :=
  let '(vars, l) := s in
  let '(k, (v, w, x, y, z), i) := r in
  let l := match k with R0 => SHABLK0 l i | _ => SHABLK l i end in
  let vars := <[z := u32 (vars !!! z + (round_f k (vars !!! w) (vars !!! x) (vars !!! y) + l !!! (i mod 16)%nat + round_k k + ROL32 (vars !!! v) 5))]> vars in
  (<[w := ROL32 (vars !!! w) 30]> vars, l).

(** The unrolled loop of [Transform]; the working variables are numbered. *)
Definition rounds : list (round_kind * (nat * nat * nat * nat * nat) * nat) :=
  (let '(a, b, c, d, e) := (0, 1, 2, 3, 4) in
  [(R0, (a, b, c, d, e), 0); (R0, (e, a, b, c, d), 1); (R0, (d, e, a, b, c), 2); (R0, (c, d, e, a, b), 3);
   (R0, (b, c, d, e, a), 4); (R0, (a, b, c, d, e), 5); (R0, (e, a, b, c, d), 6); (R0, (d, e, a, b, c), 7);
   (R0, (c, d, e, a, b), 8); (R0, (b, c, d, e, a), 9); (R0, (a, b, c, d, e), 10); (R0, (e, a, b, c, d), 11);
   (R0, (d, e, a, b, c), 12); (R0, (c, d, e, a, b), 13); (R0, (b, c, d, e, a), 14); (R0, (a, b, c, d, e), 15);
   (R1, (e, a, b, c, d), 16); (R1, (d, e, a, b, c), 17); (R1, (c, d, e, a, b), 18); (R1, (b, c, d, e, a), 19);
   (R2, (a, b, c, d, e), 20); (R2, (e, a, b, c, d), 21); (R2, (d, e, a, b, c), 22); (R2, (c, d, e, a, b), 23);
   (R2, (b, c, d, e, a), 24); (R2, (a, b, c, d, e), 25); (R2, (e, a, b, c, d), 26); (R2, (d, e, a, b, c), 27);
   (R2, (c, d, e, a, b), 28); (R2, (b, c, d, e, a), 29); (R2, (a, b, c, d, e), 30); (R2, (e, a, b, c, d), 31);
   (R2, (d, e, a, b, c), 32); (R2, (c, d, e, a, b), 33); (R2, (b, c, d, e, a), 34); (R2, (a, b, c, d, e), 35);
   (R2, (e, a, b, c, d), 36); (R2, (d, e, a, b, c), 37); (R2, (c, d, e, a, b), 38); (R2, (b, c, d, e, a), 39);
   (R3, (a, b, c, d, e), 40); (R3, (e, a, b, c, d), 41); (R3, (d, e, a, b, c), 42); (R3, (c, d, e, a, b), 43);
   (R3, (b, c, d, e, a), 44); (R3, (a, b, c, d, e), 45); (R3, (e, a, b, c, d), 46); (R3, (d, e, a, b, c), 47);
   (R3, (c, d, e, a, b), 48); (R3, (b, c, d, e, a), 49); (R3, (a, b, c, d, e), 50); (R3, (e, a, b, c, d), 51);
   (R3, (d, e, a, b, c), 52); (R3, (c, d, e, a, b), 53); (R3, (b, c, d, e, a), 54); (R3, (a, b, c, d, e), 55);
   (R3, (e, a, b, c, d), 56); (R3, (d, e, a, b, c), 57); (R3, (c, d, e, a, b), 58); (R3, (b, c, d, e, a), 59);
   (R4, (a, b, c, d, e), 60); (R4, (e, a, b, c, d), 61); (R4, (d, e, a, b, c), 62); (R4, (c, d, e, a, b), 63);
   (R4, (b, c, d, e, a), 64); (R4, (a, b, c, d, e), 65); (R4, (e, a, b, c, d), 66); (R4, (d, e, a, b, c), 67);
   (R4, (c, d, e, a, b), 68); (R4, (b, c, d, e, a), 69); (R4, (a, b, c, d, e), 70); (R4, (e, a, b, c, d), 71);
   (R4, (d, e, a, b, c), 72); (R4, (c, d, e, a, b), 73); (R4, (b, c, d, e, a), 74); (R4, (a, b, c, d, e), 75);
   (R4, (e, a, b, c, d), 76); (R4, (d, e, a, b, c), 77); (R4, (c, d, e, a, b), 78); (R4, (b, c, d, e, a), 79)])%nat.

Definition Transform (pState pBuffer : list Z) : list Z :=
  let '(vars, _) := fold_left round rounds (pState, workspace pBuffer) in
  zip_with (fun s x => u32 (s + x)) pState vars.

Record CSHA1 := mkSHA1 { m_state : list Z; m_count : Z * Z; m_buffer : list Z; m_digest : list Z }.

Definition Reset (h : CSHA1) : CSHA1 :=
  mkSHA1 [0x67452301; 0xEFCDAB89; 0x98BADCFE; 0x10325476; 0xC3D2E1F0] (0, 0) (m_buffer h) (m_digest h).

(** [memcpy(&m_buffer[j], p, length p)]: [None] when it does not fit. *)
Definition copy_in (buf : list Z) (j : Z) (p : list Z) : option (list Z) :=
  if j + Z.of_nat (length p) <=? Z.of_nat (length buf)
  then Some (take (Z.to_nat j) buf ++ p ++ drop (Z.to_nat j + length p) buf) else None.

(** [&p[i]] for [n] bytes: [None] outside [p]. *)
Definition slice (p : list Z) (i n : Z) : option (list Z) :=
  if i + n <=? Z.of_nat (length p) then Some (take (Z.to_nat n) (drop (Z.to_nat i) p)) else None.

(** The loop over the whole blocks of [pbData]. *)
Fixpoint update_loop (fuel : nat) (st pbData : list Z) (i uLen : Z) : option (list Z * Z) :=
  if u32 (i + 63) <? uLen then
    match fuel with
    | O => None
    | S fuel => blk ← slice pbData i 64; update_loop fuel (Transform st blk) pbData (u32 (i + 64)) uLen
    end
  else Some (st, i).

Definition Update (h : CSHA1) (pbData : list Z) : option CSHA1 :=
  let uLen := Z.of_nat (length pbData) in
  let j := Z.land (Z.shiftr (m_count h).1 3) 0x3F in
  let c0 := u32 ((m_count h).1 + u32 (Z.shiftl uLen 3)) in
  let c1 := if c0 <? u32 (Z.shiftl uLen 3) then u32 ((m_count h).2 + 1) else (m_count h).2 in
  let c1 := u32 (c1 + Z.shiftr uLen 29) in
  '(st, buf, i, j) ←
    (if 63 <? u32 (j + uLen) then
       let i := 64 - j in
       p ← slice pbData 0 i;
       buf ← copy_in (m_buffer h) j p;
       '(st, i) ← update_loop (length pbData / 64) (Transform (m_state h) (take 64 buf)) pbData i uLen;
       Some (st, buf, i, 0)
     else Some (m_state h, m_buffer h, 0, j));
  if truthy (u32 (uLen - i)) then
    p ← slice pbData i (u32 (uLen - i));
    buf ← copy_in buf j p;
    Some (mkSHA1 st (c0, c1) buf (m_digest h))
  else Some (mkSHA1 st (c0, c1) buf (m_digest h)).

(** [Update("\0", 1)] until the length is 56 modulo 64. *)
Fixpoint pad_loop (fuel : nat) (h : CSHA1) : option CSHA1 :=
  if negb (Z.land (m_count h).1 504 =? 448) then
    match fuel with
    | O => None
    | S fuel => h ← Update h [0]; pad_loop fuel h
    end
  else Some h.

(** The big-endian bytes of a word: [(word >> ((3 - (i & 3)) * 8)) & 255] for the four [i]. *)
Definition word_bytes (x : Z) : list Z :=
  [Z.land (Z.shiftr x 24) 255; Z.land (Z.shiftr x 16) 255; Z.land (Z.shiftr x 8) 255; Z.land x 255].

Definition Final (h : CSHA1) : option CSHA1 :=
  let finalcount := word_bytes (m_count h).2 ++ word_bytes (m_count h).1 in
  h ← Update h [0x80];
  h ← pad_loop 64 h;
  h ← Update h finalcount;
  let digest := concat (map word_bytes (m_state h)) in
  Some (mkSHA1 (Transform (replicate 5 0) (replicate 64 0)) (0, 0) (replicate 64 0) digest).

Definition GetHash (h : CSHA1) : list Z := m_digest h.

(** [ReportHashStl] with [REPORT_HEX_SHORT]: two hexadecimal digits per byte, in lower case. *)
Definition hex_digit (x : Z) : Z := if x <? 10 then 48 + x else 87 + x.

Definition ReportHashStl (h : CSHA1) : list Z := concat (map (fun x => [hex_digit (x / 16); hex_digit (x mod 16)]) (m_digest h)).

(** ** The specification *)

Module Spec.
Definition rotl (n x : Z) : Z := Z.lor (u32 (Z.shiftl x n)) (Z.shiftr x (32 - n)).

Definition Ch (x y z : Z) : Z := Z.lxor (Z.land x y) (Z.land (Z.lnot x) z).
Definition Parity (x y z : Z) : Z := Z.lxor (Z.lxor x y) z.
Definition Maj (x y z : Z) : Z := Z.lxor (Z.lxor (Z.land x y) (Z.land x z)) (Z.land y z).

Definition f (t : nat) : Z -> Z -> Z -> Z :=
  if (t <? 20)%nat then Ch else if (t <? 40)%nat then Parity else if (t <? 60)%nat then Maj else Parity.

Definition K (t : nat) : Z :=
  if (t <? 20)%nat then 0x5a827999 else if (t <? 40)%nat then 0x6ed9eba1 else if (t <? 60)%nat then 0x8f1bbcdc else 0xca62c1d6.

(** Words of a block, most significant byte first. *)
Fixpoint words (m : list Z) : list Z :=
  match m with
  | b0 :: b1 :: b2 :: b3 :: m => Z.lor (Z.lor (Z.shiftl b0 24) (Z.shiftl b1 16)) (Z.lor (Z.shiftl b2 8) b3) :: words m
  | _ => []
  end.

Fixpoint extend (n : nat) (W : list Z) : list Z :=
  match n with
  | O => W
  | S n =>
      let t := length W in
      extend n (W ++ [rotl 1 (Z.lxor (Z.lxor (Z.lxor (W !!! (t - 3)%nat) (W !!! (t - 8)%nat)) (W !!! (t - 14)%nat)) (W !!! (t - 16)%nat))])
  end.

Definition schedule (m : list Z) : list Z := extend 64 (words m).

Definition step (W : list Z) (s : Z * Z * Z * Z * Z) (t : nat) : Z * Z * Z * Z * Z :=
  let '(a, b, c, d, e) := s in (u32 (rotl 5 a + f t b c d + e + K t + W !!! t), a, rotl 30 b, c, d).

Definition compress (H m : list Z) : list Z :=
  let '(a, b, c, d, e) := fold_left (step (schedule m)) (seq 0 80) (H !!! 0%nat, H !!! 1%nat, H !!! 2%nat, H !!! 3%nat, H !!! 4%nat) in
  zip_with (fun s x => u32 (s + x)) H [a; b; c; d; e].

Definition H0 : list Z := [0x67452301; 0xefcdab89; 0x98badcfe; 0x10325476; 0xc3d2e1f0].

Definition be64 (n : Z) : list Z := map (fun k => u8 (n / 2 ^ (8 * k))) [7; 6; 5; 4; 3; 2; 1; 0].

Definition pad (m : list Z) : list Z :=
  m ++ [0x80] ++ replicate (Z.to_nat ((55 - Z.of_nat (length m)) mod 64)) 0 ++ be64 (8 * Z.of_nat (length m)).

(** Compression of the whole blocks of a message. *)
Fixpoint hash_blocks (n : nat) (H m : list Z) : list Z :=
  match n with
  | O => H
  | S n => hash_blocks n (compress H (take 64 m)) (drop 64 m)
  end.

Definition sha1 (m : list Z) : list Z :=
  concat (map (fun x => [u8 (x / 2 ^ 24); u8 (x / 2 ^ 16); u8 (x / 2 ^ 8); u8 x]) (hash_blocks (length (pad m) / 64) H0 (pad m))).
End Spec.

(** ** The compression function *)

Lemma rounds_table : rounds =
  map (fun i => (if (i <? 16)%nat then R0 else if (i <? 20)%nat then R1 else if (i <? 40)%nat then R2 else if (i <? 60)%nat then R3 else R4,
                 ((80 - i) mod 5, (81 - i) mod 5, (82 - i) mod 5, (83 - i) mod 5, (84 - i) mod 5), i))%nat (seq 0 80).
Proof. reflexivity. Qed.

Lemma round_f_ch w x y : round_f R0 w x y = Spec.Ch w x y.
Proof.
  unfold round_f, Spec.Ch. apply Z.bits_inj'. intros i Hi. rewrite !Z.lxor_spec, !Z.land_spec, Z.lxor_spec, Z.lnot_spec by done.
  by destruct (Z.testbit w i), (Z.testbit x i), (Z.testbit y i).
Qed.

Lemma round_f_maj w x y : round_f R3 w x y = Spec.Maj w x y.
Proof.
  unfold round_f, Spec.Maj. apply Z.bits_inj'. intros i Hi. rewrite Z.lor_spec, !Z.lxor_spec, !Z.land_spec, Z.lor_spec.
  by destruct (Z.testbit w i), (Z.testbit x i), (Z.testbit y i).
Qed.

(** The kind of step [i] computes the function and the constant of the standard. *)
Lemma round_kind_spec i k : k = (if (i <? 16)%nat then R0 else if (i <? 20)%nat then R1 else if (i <? 40)%nat then R2 else if (i <? 60)%nat then R3 else R4) ->
  (forall w x y, round_f k w x y = Spec.f i w x y) /\ round_k k = Spec.K i.
Proof.
  intros ->. unfold Spec.f, Spec.K.
  destruct (Nat.ltb_spec i 16), (Nat.ltb_spec i 20), (Nat.ltb_spec i 40), (Nat.ltb_spec i 60); try lia; (split; [|reflexivity]); intros w x y;
    first [apply round_f_ch | apply round_f_maj | reflexivity].
Qed.

(** A byte-swapped little-endian word is the big-endian word. *)
Lemma swap_word b0 b1 b2 b3 : is_u8 b0 -> is_u8 b1 -> is_u8 b2 -> is_u8 b3 ->
  let x := Z.lor (Z.lor b0 (Z.shiftl b1 8)) (Z.lor (Z.shiftl b2 16) (Z.shiftl b3 24)) in
  Z.lor (Z.land (ROL32 x 24) 0xFF00FF00) (Z.land (ROL32 x 8) 0x00FF00FF) =
  Z.lor (Z.lor (Z.shiftl b0 24) (Z.shiftl b1 16)) (Z.lor (Z.shiftl b2 8) b3).
Proof. intros H0 H1 H2 H3 x. unfold x, ROL32, u32. change (32 - 24) with 8. change (32 - 8) with 24. bitblast_bytes. Qed.

Lemma extend_length n : forall W, length (Spec.extend n W) = (length W + n)%nat.
Proof. induction n as [|n IH]; intros W; [simpl; lia|]. cbn [Spec.extend]. rewrite IH, length_app. simpl. lia. Qed.

Lemma extend_prefix n : forall W t, (t < length W)%nat -> Spec.extend n W !!! t = W !!! t.
Proof.
  induction n as [|n IH]; intros W t Ht; [done|]. cbn [Spec.extend]. rewrite IH by (rewrite length_app; simpl; lia). by apply lookup_total_app_l.
Qed.

Lemma extend_word n : forall W t, (16 <= length W)%nat -> (length W <= t < length W + n)%nat ->
  let S := Spec.extend n W in
  S !!! t = Spec.rotl 1 (Z.lxor (Z.lxor (Z.lxor (S !!! (t - 3)%nat) (S !!! (t - 8)%nat)) (S !!! (t - 14)%nat)) (S !!! (t - 16)%nat)).
Proof.
  induction n as [|n IH]; intros W t HW Ht; [lia|]. cbn [Spec.extend]. set (x := Spec.rotl 1 _).
  destruct (decide (t = length W)) as [->|].
  - rewrite !extend_prefix by (rewrite length_app; simpl; lia).
    rewrite (lookup_total_app_r W [x] (length W)), Nat.sub_diag by lia. by rewrite !lookup_total_app_l by lia.
  - apply IH; rewrite length_app; simpl; lia.
Qed.

Lemma schedule_word m t : length (Spec.words m) = 16%nat -> (16 <= t < 80)%nat -> let S := Spec.schedule m in
  S !!! t = Spec.rotl 1 (Z.lxor (Z.lxor (Z.lxor (S !!! (t - 3)%nat) (S !!! (t - 8)%nat)) (S !!! (t - 14)%nat)) (S !!! (t - 16)%nat)).
Proof. intros Hl Ht. unfold Spec.schedule. generalize (Spec.words m) Hl. intros W HW. apply extend_word; lia. Qed.

Lemma schedule_prefix m t : (t < length (Spec.words m))%nat -> Spec.schedule m !!! t = Spec.words m !!! t.
Proof. unfold Spec.schedule. exact (extend_prefix 64 (Spec.words m) t). Qed.

#[local] Opaque Spec.schedule.

(** The words of a block as the workspace has them, one at a time. *)
Lemma workspace_words m : Forall is_u8 m -> forall n, length m = (4 * n)%nat ->
  length (workspace m) = n /\ length (Spec.words m) = n /\
  forall i, (i < n)%nat -> Z.lor (Z.land (ROL32 (workspace m !!! i) 24) 0xFF00FF00) (Z.land (ROL32 (workspace m !!! i) 8) 0x00FF00FF) = Spec.words m !!! i.
Proof.
  intros HF n. revert m HF. induction n as [|n IH]; intros m HF Hl.
  - destruct m; [|done]. split_and!; [done..|lia].
  - do 4 (destruct m as [|? m]; [simpl in Hl; lia|]). do 4 (apply Forall_cons in HF as [? HF]).
    destruct (IH m HF) as (Hw & Hs & Hi'); [simpl in Hl; lia|]. cbn [workspace Spec.words]. split_and!; [simpl; lia..|].
    intros [|i] Hi; [by apply swap_word|]. apply Hi'. lia.
Qed.

Lemma mod5_apart i : (i < 80)%nat ->
  let r p := ((p - i) mod 5)%nat in
  r 80%nat <> r 81%nat /\ r 80%nat <> r 84%nat /\ r 81%nat <> r 82%nat /\ r 81%nat <> r 83%nat /\ r 81%nat <> r 84%nat /\ r 82%nat <> r 84%nat /\ r 83%nat <> r 84%nat.
Proof.
  intros Hi r. assert (Ha : forall p q, (80 <= p)%nat -> (p < q <= p + 4)%nat -> r p <> r q).
  { intros p q Hp Hq E. unfold r in E. pose proof (Nat.div_mod_eq (p - i) 5). pose proof (Nat.div_mod_eq (q - i) 5). lia. }
  split_and!; apply Ha; lia.
Qed.

Section compression.
Context (m : list Z) (HF : Forall is_u8 m) (Hm : length m = 64%nat).
#[local] Notation W := (Spec.schedule m).

(** The working variables of the code in the order of the standard, after [i] steps. *)
Definition view (i : nat) (vars : list Z) : Z * Z * Z * Z * Z :=
  (vars !!! ((80 - i) mod 5)%nat, vars !!! ((81 - i) mod 5)%nat, vars !!! ((82 - i) mod 5)%nat, vars !!! ((83 - i) mod 5)%nat, vars !!! ((84 - i) mod 5)%nat).

(** The workspace holds the last sixteen words of the schedule; before step 16, the words not yet swapped. *)
Definition window (i : nat) (l : list Z) : Prop :=
  length l = 16%nat /\ (forall t, (t < i <= t + 16)%nat -> l !!! (t mod 16)%nat = W !!! t) /\
  (forall t, (i <= t < 16)%nat -> l !!! t = workspace m !!! t).

Lemma window_step i l k : window i l -> (i < 80)%nat -> (k = R0 <-> (i < 16)%nat) ->
  let l' := match k with R0 => SHABLK0 l i | _ => SHABLK l i end in
  window (S i) l' /\ l' !!! (i mod 16)%nat = W !!! i.
Proof using HF Hm.
  intros (Hl & Hw & Hr) Hi Hk l'. destruct (workspace_words m HF 16 Hm) as (Hlw & Hls & Hsw).
  assert (exists x, l' = <[(i mod 16)%nat := x]> l /\ x = W !!! i) as (x & -> & ->).
  { unfold l'. destruct (decide (i < 16)%nat) as [H16|H16].
    - rewrite (proj2 Hk) by done. eexists. unfold SHABLK0. rewrite Nat.mod_small by done. split; [done|].
      rewrite (Hr i) by lia. rewrite Hsw by done. symmetry. apply schedule_prefix; lia.
    - assert (k <> R0) by (intros E; apply Hk in E; lia).
      assert (l' = SHABLK l i) as E by (by destruct k). unfold l' in E. rewrite E. eexists. unfold SHABLK. split; [done|].
      rewrite schedule_word by lia. unfold ROL32, Spec.rotl.
      assert (Hx : forall j, (0 < j <= 16)%nat -> l !!! ((i + (16 - j)) mod 16)%nat = W !!! (i - j)%nat).
      { intros j Hj. rewrite <- Hw by lia. f_equal. replace (i + (16 - j))%nat with (i - j + 1 * 16)%nat by lia. apply Nat.Div0.mod_add. }
      change (i + 13)%nat with (i + (16 - 3))%nat. change (i + 8)%nat with (i + (16 - 8))%nat. change (i + 2)%nat with (i + (16 - 14))%nat.
      rewrite (Hx 3%nat), (Hx 8%nat), (Hx 14%nat) by lia. rewrite <- (Hx 16%nat) by lia. by rewrite Nat.add_0_r. }
  assert (Hlt : (i mod 16 < 16)%nat) by (by apply Nat.mod_upper_bound).
  split; [|by apply list_lookup_total_insert_eq; rewrite Hl]. split; [by rewrite length_insert|]. split.
  - intros t Ht. destruct (decide (t = i)) as [->|]; [by apply list_lookup_total_insert_eq; rewrite Hl|].
    rewrite list_lookup_total_insert_ne; [apply Hw; lia|]. intros E.
    pose proof (Nat.div_mod_eq i 16). pose proof (Nat.div_mod_eq t 16). lia.
  - intros t Ht. rewrite list_lookup_total_insert_ne; [apply Hr; lia|]. rewrite Nat.mod_small by lia. lia.
Qed.

Lemma round_step i vars l k : length vars = 5%nat -> window i l -> (i < 80)%nat ->
  k = (if (i <? 16)%nat then R0 else if (i <? 20)%nat then R1 else if (i <? 40)%nat then R2 else if (i <? 60)%nat then R3 else R4) ->
  let '(vars', l') := round (vars, l) (k, ((80 - i) mod 5, (81 - i) mod 5, (82 - i) mod 5, (83 - i) mod 5, (84 - i) mod 5), i)%nat in
  length vars' = 5%nat /\ window (S i) l' /\ view (S i) vars' = Spec.step W (view i vars) i.
Proof using HF Hm.
  intros Hv Hw Hi Hk. destruct (round_kind_spec i k Hk) as [Hf HK].
  assert (Hk0 : k = R0 <-> (i < 16)%nat).
  { rewrite Hk. destruct (Nat.ltb_spec i 16); [split; [lia|done]|]. split; [|lia]. by repeat case_bool. }
  destruct (window_step i l k Hw Hi Hk0) as [Hw' Hx]. cbn [round]. rewrite Hx. split; [by rewrite !length_insert|]. split; [done|].
  rewrite Hf, HK. unfold view, Spec.step.
  replace ((80 - S i) mod 5)%nat with ((84 - i) mod 5)%nat
    by (replace (84 - i)%nat with (80 - S i + 1 * 5)%nat by lia; apply Nat.Div0.mod_add).
  replace (81 - S i)%nat with (80 - i)%nat by lia. replace (82 - S i)%nat with (81 - i)%nat by lia.
  replace (83 - S i)%nat with (82 - i)%nat by lia. replace (84 - S i)%nat with (83 - i)%nat by lia.
  pose proof (mod5_apart i ltac:(lia)) as Hne. cbv zeta beta in Hne.
  assert (Hlt : forall n, (n mod 5 < 5)%nat) by (intros n; by apply Nat.mod_upper_bound).
  pose proof (Hlt (81 - i)%nat) as Hw5. pose proof (Hlt (84 - i)%nat) as Hz5.
  revert Hne Hw5 Hz5. generalize (W !!! i). intros wi. clear Hx.
  generalize ((80 - i) mod 5)%nat, ((81 - i) mod 5)%nat, ((82 - i) mod 5)%nat, ((83 - i) mod 5)%nat, ((84 - i) mod 5)%nat.
  intros v w x y z (Hvw & Hvz & Hwx & Hwy & Hwz & Hxz & Hyz) Hw5 Hz5.
  rewrite (list_lookup_total_insert_ne _ w z), (list_lookup_total_insert_ne _ w v), (list_lookup_total_insert_ne _ w x),
    (list_lookup_total_insert_ne _ w y), (list_lookup_total_insert_ne _ z v), (list_lookup_total_insert_ne _ z w),
    (list_lookup_total_insert_ne _ z x), (list_lookup_total_insert_ne _ z y) by congruence.
  rewrite !list_lookup_total_insert_eq by (rewrite ?length_insert; lia).
  unfold ROL32, Spec.rotl. do 5 f_equal. lia.
Qed.

Lemma rounds_spec H n : length H = 5%nat -> (n <= 80)%nat ->
  let '(vars, l) := fold_left round (take n rounds) (H, workspace m) in
  length vars = 5%nat /\ window n l /\
  view n vars = fold_left (Spec.step W) (seq 0 n) (H !!! 0%nat, H !!! 1%nat, H !!! 2%nat, H !!! 3%nat, H !!! 4%nat).
Proof using HF Hm.
  intros HH. induction n as [|n IH]; intros Hn.
  - cbn [take fold_left seq]. split; [done|]. split; [|done]. split; [by apply (workspace_words m HF 16)|]. split; [lia|done].
  - assert (Hr : rounds !! n = Some ((if (n <? 16)%nat then R0 else if (n <? 20)%nat then R1 else if (n <? 40)%nat then R2 else if (n <? 60)%nat then R3 else R4),
      ((80 - n) mod 5, (81 - n) mod 5, (82 - n) mod 5, (83 - n) mod 5, (84 - n) mod 5), n)%nat).
    { rewrite rounds_table. change (map ?g ?l) with (g <$> l). rewrite list_lookup_fmap, lookup_seq_lt by lia. done. }
    rewrite (take_S_r _ _ _ Hr), fold_left_app, seq_S, fold_left_app. cbn [fold_left]. specialize (IH ltac:(lia)).
    destruct (fold_left round (take n rounds) (H, workspace m)) as [vars l]. destruct IH as (Hv & Hw & Hview). rewrite <- Hview.
    apply (round_step n vars l _ Hv Hw); [lia|done].
Qed.
End compression.

(** The unrolled code computes the compression function of the standard. *)
Lemma Transform_spec H m : length H = 5%nat -> Forall is_u8 m -> length m = 64%nat -> Transform H m = Spec.compress H m.
Proof.
  intros HH HF Hm. pose proof (rounds_spec m HF Hm H 80 HH ltac:(lia)) as Hs. unfold Transform, Spec.compress.
  change (take 80 rounds) with rounds in Hs. destruct (fold_left round rounds (H, workspace m)) as [vars l].
  destruct Hs as (Hv & _ & Hview). rewrite <- Hview. clear Hview.
  do 5 (destruct vars as [|? vars]; [discriminate Hv|]). destruct vars; [|discriminate Hv]. reflexivity.
Qed.

Lemma compress_length H m : length H = 5%nat -> length (Spec.compress H m) = 5%nat.
Proof.
  intros HH. unfold Spec.compress. generalize (fold_left (Spec.step (Spec.schedule m)) (seq 0 80) (H !!! 0%nat, H !!! 1%nat, H !!! 2%nat, H !!! 3%nat, H !!! 4%nat)).
  intros [[[[? ?] ?] ?] ?]. rewrite length_zip_with, HH. reflexivity.
Qed.

(** ** Absorbing data *)

#[local] Opaque Spec.compress Transform.

Lemma hash_blocks_app q1 q2 : forall H m1 m2, length m1 = (64 * q1)%nat ->
  Spec.hash_blocks (q1 + q2) H (m1 ++ m2) = Spec.hash_blocks q2 (Spec.hash_blocks q1 H m1) m2.
Proof.
  induction q1 as [|q1 IH]; intros H m1 m2 Hl; [by destruct m1|]. cbn [Spec.hash_blocks Nat.add].
  rewrite take_app_le, drop_app_le by lia. apply IH. rewrite length_drop. lia.
Qed.

Lemma hash_blocks_prefix q : forall H m x, (64 * q <= length m)%nat -> Spec.hash_blocks q H (m ++ x) = Spec.hash_blocks q H m.
Proof.
  induction q as [|q IH]; intros H m x Hl; [done|]. cbn [Spec.hash_blocks]. rewrite take_app_le, drop_app_le by lia.
  apply IH. rewrite length_drop. lia.
Qed.

Lemma hash_blocks_length q : forall H m, length H = 5%nat -> length (Spec.hash_blocks q H m) = 5%nat.
Proof. induction q as [|q IH]; intros H m HH; [done|]. by apply IH, compress_length. Qed.

Lemma slice_Some p i n : 0 <= i -> 0 <= n -> i + n <= Z.of_nat (length p) -> slice p i n = Some (take (Z.to_nat n) (drop (Z.to_nat i) p)).
Proof. intros. unfold slice. by rewrite (proj2 (Z.leb_le _ _)) by lia. Qed.

(** The blocks that the loop takes from the data.  The position is the number [j] of bytes that were in the
    buffer below a multiple of 64, so [i + 63] does not wrap when [j] and the data fit in 32 bits. *)
Lemma update_loop_spec p j : Forall is_u8 p -> Z.of_nat (j + length p) < 2 ^ 32 -> forall fuel st i, length st = 5%nat ->
  ((i + j) mod 64 = 0)%nat -> (i <= length p)%nat -> (length p - i < 64 * (fuel + 1))%nat ->
  let n := ((length p - i) / 64)%nat in
  update_loop fuel st p (Z.of_nat i) (Z.of_nat (length p)) = Some (Spec.hash_blocks n st (drop i p), Z.of_nat (i + 64 * n)).
Proof.
  intros HF Hlen. induction fuel as [|fuel IH]; intros st i Hst Hij Hi Hfuel n; cbn [update_loop];
    (assert (Z.of_nat i + 63 < 2 ^ 32) by (apply Nat.Div0.div_exact in Hij; lia)); rewrite u32_small by (unfold is_u32; lia).
  - rewrite (proj2 (Z.ltb_ge _ _)) by lia. unfold n. rewrite Nat.div_small by lia. cbn [Spec.hash_blocks]. do 2 f_equal. lia.
  - destruct (Z.ltb_spec (Z.of_nat i + 63) (Z.of_nat (length p))) as [Hlt|Hge].
    + rewrite slice_Some, Nat2Z.id by lia. change (Z.to_nat 64) with 64%nat. cbn [mbind option_bind].
      rewrite (u32_small (Z.of_nat i + 64)) by (unfold is_u32; lia). replace (Z.of_nat i + 64) with (Z.of_nat (i + 64)) by lia.
      rewrite Transform_spec; [|done|by apply Forall_take, Forall_drop|rewrite length_take, length_drop; lia].
      rewrite IH; [|by apply compress_length|by replace (i + 64 + j)%nat with (i + j + 1 * 64)%nat by lia; rewrite Nat.Div0.mod_add|lia|lia].
      assert (Hn : n = S ((length p - (i + 64)) / 64)).
      { unfold n. replace (length p - i)%nat with (length p - (i + 64) + 1 * 64)%nat by lia. rewrite Nat.div_add by lia. lia. }
      rewrite Hn. cbn [Spec.hash_blocks]. rewrite drop_drop. do 2 f_equal. lia.
    + unfold n. rewrite Nat.div_small by lia. cbn [Spec.hash_blocks]. do 2 f_equal. lia.
Qed.

(** The state after the message [m] has been absorbed. *)
Definition absorbed (h : CSHA1) (m : list Z) : Prop :=
  let q := (length m / 64)%nat in
  m_state h = Spec.hash_blocks q Spec.H0 m /\ length (m_buffer h) = 64%nat /\
  take (length m mod 64) (m_buffer h) = drop (64 * q) m /\
  m_count h = (u32 (8 * Z.of_nat (length m)), u32 (8 * Z.of_nat (length m) / 2 ^ 32)).

Lemma count_spec M P : 0 <= M -> 0 <= P < 2 ^ 32 ->
  let c0 := u32 (u32 (8 * M) + u32 (Z.shiftl P 3)) in
  c0 = u32 (8 * (M + P)) /\
  u32 ((if c0 <? u32 (Z.shiftl P 3) then u32 (u32 (8 * M / 2 ^ 32) + 1) else u32 (8 * M / 2 ^ 32)) + Z.shiftr P 29) = u32 (8 * (M + P) / 2 ^ 32) /\
  Z.land (Z.shiftr (u32 (8 * M)) 3) 0x3F = M mod 64.
Proof.
  intros HM HP c0. unfold c0. rewrite Z.shiftl_mul_pow2, !Z.shiftr_div_pow2 by lia. change 0x3F with (Z.ones 6). rewrite Z.land_ones by lia.
  unfold u32. change (2 ^ 3) with 8. change (2 ^ 29) with 536870912. change (2 ^ 6) with 64. change (2 ^ 32) with 4294967296.
  split; [dlia|]. split; [|dlia]. case_bool; zbool; dlia.
Qed.

Lemma truthy_pos x : 0 < x -> truthy x = true.
Proof. intros Hx. unfold truthy. by rewrite (proj2 (Z.eqb_neq _ _)) by lia. Qed.

Lemma copy_in_Some buf j p : 0 <= j -> j + Z.of_nat (length p) <= Z.of_nat (length buf) ->
  exists buf', copy_in buf j p = Some buf' /\ length buf' = length buf /\ take (Z.to_nat j + length p) buf' = take (Z.to_nat j) buf ++ p.
Proof.
  intros Hj Hl. unfold copy_in. rewrite (proj2 (Z.leb_le _ _)) by lia. eexists. split; [done|]. split.
  - rewrite !length_app, length_take, length_drop. lia.
  - rewrite app_assoc. apply take_app_length'. rewrite length_app, length_take. lia.
Qed.

(** The first part of [Update]: the buffer is completed and compressed, then the whole blocks of the data. *)
Lemma update_blocks h m p (r := (length m mod 64)%nat) (q := (length m / 64)%nat) :
  absorbed h m -> Forall is_u8 (m ++ p) -> Z.of_nat (r + length p) < 2 ^ 32 -> (64 <= r + length p)%nat ->
  let n := ((length p - (64 - r)) / 64)%nat in exists buf,
  (p0 ← slice p 0 (64 - Z.of_nat r);
   buf ← copy_in (m_buffer h) (Z.of_nat r) p0;
   '(st, i) ← update_loop (length p / 64) (Transform (m_state h) (take 64 buf)) p (64 - Z.of_nat r) (Z.of_nat (length p));
   Some (st, buf, i, 0)) =
  Some (Spec.hash_blocks (q + (1 + n)) Spec.H0 (m ++ p), buf, Z.of_nat (64 - r + 64 * n), 0) /\ length buf = 64%nat.
Proof.
  intros (Hst & Hbl & Htk & _) HF Hlen Hge n. apply Forall_app in HF as [HFm HFp].
  assert (Hr : (r < 64)%nat) by (by apply Nat.mod_upper_bound). pose proof (Nat.div_mod_eq (length m) 64) as Hdm. fold q r in Hdm.
  rewrite slice_Some by lia. change (Z.to_nat 0) with 0%nat. rewrite drop_0. cbn [mbind option_bind].
  replace (Z.to_nat (64 - Z.of_nat r)) with (64 - r)%nat by lia.
  destruct (copy_in_Some (m_buffer h) (Z.of_nat r) (take (64 - r) p)) as (buf & -> & Hb1 & Hb2); [lia|rewrite length_take; lia|].
  rewrite Nat2Z.id, length_take in Hb2. replace (r + (64 - r) `min` length p)%nat with 64%nat in Hb2 by lia. fold r in Htk. rewrite Htk in Hb2.
  cbn [mbind option_bind]. rewrite Hb2. replace (64 - Z.of_nat r) with (Z.of_nat (64 - r)) by lia.
  set (blk := drop _ m ++ take _ p). assert (Hblk : length blk = 64%nat) by (unfold blk; rewrite length_app, length_drop, length_take; lia).
  assert (HS : length (m_state h) = 5%nat) by (rewrite Hst; by apply hash_blocks_length).
  rewrite Transform_spec; [|done|by apply Forall_app_2; [apply Forall_drop|apply Forall_take]|done].
  pose proof (Nat.div_mod_eq (length p) 64). pose proof (Nat.mod_upper_bound (length p) 64).
  rewrite (update_loop_spec p r); [|done|done|by apply compress_length|by replace (64 - r + r)%nat with 64%nat by lia|lia|lia]. fold n. cbn [mbind option_bind].
  exists buf. split; [|lia].
  assert (Hpre : Spec.hash_blocks q Spec.H0 (take (64 * q) m) = m_state h).
  { rewrite Hst. fold q. rewrite <- (hash_blocks_prefix q Spec.H0 (take (64 * q) m) (drop (64 * q) m)), take_drop by (rewrite length_take; lia). done. }
  assert (Hall : Spec.hash_blocks (q + (1 + n)) Spec.H0 (m ++ p) = Spec.hash_blocks n (Spec.compress (m_state h) blk) (drop (64 - r) p)).
  { rewrite <- (take_drop (64 * q) m) at 1. rewrite <- app_assoc, hash_blocks_app, Hpre by (rewrite length_take; lia).
    rewrite <- (take_drop (64 - r) p) at 1. rewrite app_assoc. fold blk. rewrite (hash_blocks_app 1 n) by exact Hblk.
    cbn [Spec.hash_blocks]. by rewrite (take_ge blk) by lia. }
  by rewrite Hall.
Qed.

(** [Update] when the bytes in the buffer and the data together are fewer than 2^32. *)
Lemma Update_fits h m p : absorbed h m -> Forall is_u8 (m ++ p) -> Z.of_nat (length m mod 64 + length p) < 2 ^ 32 ->
  exists h', Update h p = Some h' /\ absorbed h' (m ++ p) /\ m_digest h' = m_digest h.
Proof.
  intros Habs HF Hlen. pose proof Habs as (Hst & Hbl & Htk & Hcnt). unfold Update. rewrite Hcnt. cbn [fst snd].
  destruct (count_spec (Z.of_nat (length m)) (Z.of_nat (length p))) as (Hc0 & Hc1 & Hj); [lia..|]. cbv zeta in Hc0, Hc1. rewrite Hc1, Hc0, Hj.
  set (r := (length m mod 64)%nat) in *. set (q := (length m / 64)%nat) in *.
  assert (Hr : (r < 64)%nat) by (by apply Nat.mod_upper_bound). pose proof (Nat.div_mod_eq (length m) 64) as Hdm. fold q r in Hdm.
  replace (Z.of_nat (length m) mod 64) with (Z.of_nat r) by (unfold r; rewrite Nat2Z.inj_mod; done).
  rewrite (u32_small (Z.of_nat r + _)) by (unfold is_u32; lia). unfold absorbed. rewrite !length_app.
  destruct (Z.ltb_spec 63 (Z.of_nat r + Z.of_nat (length p))) as [Hbig|Hsmall].
  - destruct (update_blocks h m p Habs HF Hlen) as (buf & Hrun & Hb); [fold r; lia|]. fold r q in Hrun. rewrite Hrun. cbn [mbind option_bind]. clear Hrun.
    set (n := ((length p - (64 - r)) / 64)%nat) in *. pose proof (Nat.div_mod_eq (length p - (64 - r)) 64) as Hdp. fold n in Hdp.
    pose proof (Nat.mod_upper_bound (length p - (64 - r)) 64 ltac:(lia)) as Hmp. set (t := ((length p - (64 - r)) mod 64)%nat) in *.
    assert (Hq : ((length m + length p) / 64 = q + (1 + n))%nat) by (symmetry; apply (Nat.div_unique _ _ _ t); lia).
    assert (Ht : ((length m + length p) mod 64 = t)%nat) by (symmetry; apply (Nat.mod_unique _ _ (q + (1 + n))%nat); lia).
    rewrite (u32_small (Z.of_nat (length p) - _)) by (unfold is_u32; lia). replace (Z.of_nat (length p) - _) with (Z.of_nat t) by lia. rewrite Hq, Ht, (Nat2Z.inj_add (length m) (length p)).
    destruct (decide (t = 0%nat)) as [E|E].
    + rewrite E. cbn [truthy negb Z.eqb Z.of_nat]. eexists. split; [done|]. cbn [m_state m_buffer m_count m_digest]. split_and!; try done. rewrite drop_ge by (rewrite length_app; lia). done.
    + rewrite truthy_pos by lia. rewrite slice_Some by lia. cbn [mbind option_bind]. rewrite !Nat2Z.id.
      assert (Hx : take t (drop (64 - r + 64 * n) p) = drop (64 - r + 64 * n) p) by (apply take_ge; rewrite length_drop; lia).
      rewrite Hx. assert (Hxl : length (drop (64 - r + 64 * n) p) = t) by (rewrite length_drop; lia).
      destruct (copy_in_Some buf 0 (drop (64 - r + 64 * n) p)) as (buf' & -> & Hb1 & Hb2); [lia|lia|].
      eexists. split; [done|]. cbn [m_state m_buffer m_count m_digest]. split_and!; try done; [lia|].
      change (Z.to_nat 0) with 0%nat in Hb2. rewrite Hxl in Hb2. cbn [Nat.add take app] in Hb2.
      rewrite Hb2, drop_app_ge by lia. by replace (64 * (q + (1 + n)) - length m)%nat with (64 - r + 64 * n)%nat by lia.
  - assert (Hq : ((length m + length p) / 64 = q)%nat) by (symmetry; apply (Nat.div_unique _ _ _ (r + length p)); lia).
    assert (Ht : ((length m + length p) mod 64 = r + length p)%nat) by (symmetry; apply (Nat.mod_unique _ _ q); lia).
    cbn [mbind option_bind]. rewrite Z.sub_0_r, (u32_small (Z.of_nat (length p))) by (unfold is_u32; lia). rewrite Hq, Ht, (Nat2Z.inj_add (length m) (length p)).
    rewrite hash_blocks_prefix by lia. rewrite drop_app_le by lia. destruct (decide (length p = 0%nat)) as [E|E].
    + apply length_zero_iff_nil in E as ->. cbn [truthy negb Z.eqb Z.of_nat length]. eexists. split; [done|]. cbn [m_state m_buffer m_count m_digest]. rewrite Nat.add_0_r, app_nil_r. by split_and!.
    + rewrite truthy_pos by lia. rewrite slice_Some by lia. cbn [mbind option_bind]. rewrite Nat2Z.id. change (Z.to_nat 0) with 0%nat. rewrite drop_0, take_ge by lia.
      destruct (copy_in_Some (m_buffer h) (Z.of_nat r) p) as (buf' & -> & Hb1 & Hb2); [lia|lia|].
      eexists. split; [done|]. cbn [m_state m_buffer m_count m_digest]. split_and!; try done; [lia|]. rewrite Nat2Z.id in Hb2. by rewrite Hb2, Htk.
Qed.

Lemma Update_spec h m p : absorbed h m -> Forall is_u8 (m ++ p) -> Z.of_nat (length p) < 2 ^ 32 - 64 ->
  exists h', Update h p = Some h' /\ absorbed h' (m ++ p) /\ m_digest h' = m_digest h.
Proof.
  intros Habs HF Hlen. apply Update_fits; [done|done|]. pose proof (Nat.mod_upper_bound (length m) 64 ltac:(lia)). lia.
Qed.

(** Otherwise [j + uLen] wraps to less than 64, and the whole data is copied over the end of the buffer. *)
Lemma Update_overflows h m p : absorbed h m -> Z.of_nat (length p) < 2 ^ 32 <= Z.of_nat (length m mod 64 + length p) -> Update h p = None.
Proof.
  intros (Hst & Hbl & Htk & Hcnt) Hlen. unfold Update. rewrite Hcnt. cbn [fst snd].
  destruct (count_spec (Z.of_nat (length m)) (Z.of_nat (length p))) as (_ & _ & Hj); [lia..|]. rewrite Hj.
  assert (Hr : (length m mod 64 < 64)%nat) by (by apply Nat.mod_upper_bound).
  replace (Z.of_nat (length m) mod 64) with (Z.of_nat (length m mod 64)) by (by rewrite Nat2Z.inj_mod).
  assert (Hw : u32 (Z.of_nat (length m mod 64) + Z.of_nat (length p)) = Z.of_nat (length m mod 64) + Z.of_nat (length p) - 2 ^ 32).
  { unfold u32. symmetry. apply (Z.mod_unique _ _ 1); lia. }
  rewrite Hw, (proj2 (Z.ltb_ge 63 _)) by lia. cbn [mbind option_bind]. rewrite Z.sub_0_r, (u32_small (Z.of_nat (length p))) by (unfold is_u32; lia).
  rewrite truthy_pos, slice_Some by lia. cbn [mbind option_bind]. rewrite Nat2Z.id. change (Z.to_nat 0) with 0%nat. rewrite drop_0, take_ge by lia.
  unfold copy_in. by rewrite Hbl, (proj2 (Z.leb_gt _ _)) by lia.
Qed.

(** ** Padding and the digest *)

Lemma pad_test (m : list Z) : (Z.land (u32 (8 * Z.of_nat (length m))) 504 =? 448) = (length m mod 64 =? 56)%nat.
Proof.
  assert (E : Z.land (u32 (8 * Z.of_nat (length m))) 504 = 8 * (Z.of_nat (length m) mod 64)).
  { replace (u32 (8 * Z.of_nat (length m))) with (Z.shiftl (Z.of_nat (length m) mod 2 ^ 29) 3)
      by (rewrite Z.shiftl_mul_pow2 by lia; unfold u32; change (2 ^ 3) with 8; dlia).
    change 504 with (Z.shiftl (Z.ones 6) 3). rewrite <- Z.shiftl_land, Z.land_ones, Z.shiftl_mul_pow2 by lia. change (2 ^ 3) with 8. change (2 ^ 6) with 64. dlia. }
  rewrite E. pose proof (Nat2Z.inj_mod (length m) 64) as Em. change (Z.of_nat 64) with 64 in Em. rewrite <- Em.
  destruct (Z.eqb_spec (8 * Z.of_nat (length m mod 64)) 448), (Nat.eqb_spec (length m mod 64) 56); (done || lia).
Qed.

Lemma pad_loop_spec fuel : forall h m, absorbed h m -> Forall is_u8 m ->
  let k := Z.to_nat ((56 - Z.of_nat (length m)) mod 64) in (k <= fuel)%nat ->
  exists h', pad_loop fuel h = Some h' /\ absorbed h' (m ++ replicate k 0) /\ m_digest h' = m_digest h.
Proof.
  induction fuel as [|fuel IH]; intros h m Habs HF k Hk; pose proof Habs as (_ & _ & _ & Hcnt); cbn [pad_loop]; rewrite Hcnt; cbn [fst];
    rewrite pad_test; pose proof (Nat2Z.inj_mod (length m) 64) as Em; change (Z.of_nat 64) with 64 in Em.
  - assert (Hm : (length m mod 64 = 56)%nat) by (apply Nat2Z.inj; rewrite Em; unfold k in Hk; dlia).
    rewrite Hm. cbn [Nat.eqb negb]. exists h. replace k with 0%nat by lia. by rewrite app_nil_r.
  - destruct (Nat.eqb_spec (length m mod 64) 56) as [Hm|Hm]; cbn [negb].
    + exists h. assert (k = 0%nat) as -> by (unfold k; dlia). by rewrite app_nil_r.
    + destruct (Update_spec h m [0] Habs) as (h1 & -> & Habs1 & Hd1); [apply Forall_app_2; [done|]; by repeat constructor|simpl; lia|].
      cbn [mbind option_bind].
      assert (Hk1 : k = S (Z.to_nat ((56 - Z.of_nat (length (m ++ [0]))) mod 64))).
      { unfold k. rewrite length_app. cbn [length]. assert (Z.of_nat (length m) mod 64 <> 56) by (rewrite <- Em; lia). dlia. }
      destruct (IH h1 (m ++ [0])) as (h2 & H2 & Habs2 & Hd2); [done|apply Forall_app_2; [done|]; by repeat constructor|lia|].
      exists h2. split; [done|]. rewrite Hk1. cbn [replicate]. rewrite <- app_assoc in Habs2. split; [exact Habs2|congruence].
Qed.

Lemma word_bytes_spec x : word_bytes x = [u8 (x / 2 ^ 24); u8 (x / 2 ^ 16); u8 (x / 2 ^ 8); u8 x].
Proof. unfold word_bytes, u8. change 255 with (Z.ones 8). by rewrite !Z.land_ones, !Z.shiftr_div_pow2 by lia. Qed.

Lemma finalcount_spec n : 0 <= n < 2 ^ 64 -> word_bytes (u32 (n / 2 ^ 32)) ++ word_bytes (u32 n) = Spec.be64 n.
Proof.
  intros Hn. rewrite !word_bytes_spec. unfold Spec.be64, u8, u32. cbn [map app].
  repeat (apply (f_equal2 cons); [|]); try done;
    change (2 ^ 32) with 4294967296; change (2 ^ 24) with 16777216; change (2 ^ 16) with 65536; change (2 ^ 8) with 256.
  - change (2 ^ (8 * 7)) with 72057594037927936. dlia.
  - change (2 ^ (8 * 6)) with 281474976710656. dlia.
  - change (2 ^ (8 * 5)) with 1099511627776. dlia.
  - change (2 ^ (8 * 4)) with 4294967296. dlia.
  - change (2 ^ (8 * 3)) with 16777216. dlia.
  - change (2 ^ (8 * 2)) with 65536. dlia.
  - change (2 ^ (8 * 1)) with 256. dlia.
  - change (2 ^ (8 * 0)) with 1. dlia.
Qed.

Lemma be64_bytes n : Forall is_u8 (Spec.be64 n) /\ length (Spec.be64 n) = 8%nat.
Proof. split; [|done]. unfold Spec.be64. cbn [map]. repeat (constructor; [apply u8_range|]). constructor. Qed.

Lemma Final_spec h m : absorbed h m -> Forall is_u8 m -> 8 * Z.of_nat (length m) < 2 ^ 64 ->
  exists h', Final h = Some h' /\ m_digest h' = Spec.sha1 m.
Proof.
  intros Habs HF Hlen. pose proof Habs as (_ & _ & _ & Hcnt). unfold Final. rewrite Hcnt. cbn [fst snd]. rewrite finalcount_spec by lia.
  destruct (Update_spec h m [0x80] Habs) as (h1 & -> & Habs1 & _); [apply Forall_app_2; [done|]; by repeat constructor|simpl; lia|].
  assert (HF1 : Forall is_u8 (m ++ [0x80])) by (apply Forall_app_2; [done|]; by repeat constructor).
  destruct (pad_loop_spec 64 h1 (m ++ [0x80]) Habs1 HF1) as (h2 & Hp & Habs2 & _); [dlia|].
  cbn [mbind option_bind]. rewrite Hp. cbn [mbind option_bind]. clear Hp. set (k := Z.to_nat _) in *.
  destruct (be64_bytes (8 * Z.of_nat (length m))) as [Hb1 Hb2].
  destruct (Update_spec h2 _ (Spec.be64 (8 * Z.of_nat (length m))) Habs2) as (h3 & -> & (Hst & _) & _).
  - apply Forall_app_2; [|done]. apply Forall_app_2; [done|]. apply Forall_replicate. unfold is_u8. lia.
  - rewrite Hb2. lia.
  - cbn [mbind option_bind]. eexists. split; [done|]. cbn [m_digest].
    assert (Hpad : ((m ++ [0x80]) ++ replicate k 0) ++ Spec.be64 (8 * Z.of_nat (length m)) = Spec.pad m).
    { unfold Spec.pad. rewrite <- !app_assoc. do 4 f_equal. unfold k. rewrite length_app. cbn [length]. f_equal. f_equal. lia. }
    rewrite Hst, Hpad. unfold Spec.sha1. f_equal. apply map_ext. intros x. apply word_bytes_spec.
Qed.

(** A message in pieces: one [Update] per piece. *)
Fixpoint updates (h : CSHA1) (chunks : list (list Z)) : option CSHA1 :=
  match chunks with [] => Some h | p :: chunks => h ← Update h p; updates h chunks end.

(** No piece brings the bytes in the buffer ([r] of them at first) to 2^32 or more. *)
Fixpoint pieces_fit (r : nat) (chunks : list (list Z)) : bool :=
  match chunks with [] => true | p :: chunks => (Z.of_nat (r + length p) <? 2 ^ 32) && pieces_fit ((r + length p) mod 64) chunks end.

Lemma updates_spec chunks : forall h m, absorbed h m -> Forall is_u8 (m ++ concat chunks) -> Forall (fun p : list Z => Z.of_nat (length p) < 2 ^ 32) chunks ->
  if pieces_fit (length m mod 64) chunks then exists h', updates h chunks = Some h' /\ absorbed h' (m ++ concat chunks) else updates h chunks = None.
Proof.
  induction chunks as [|p chunks IH]; intros h m Habs HF HL; cbn [updates concat pieces_fit] in *.
  - exists h. by rewrite app_nil_r.
  - apply Forall_cons in HL as [Hp HL]. rewrite app_assoc in HF |- *. destruct (Z.ltb_spec (Z.of_nat (length m mod 64 + length p)) (2 ^ 32)) as [Hf|Hf]; cbn [andb].
    + destruct (Update_fits h m p Habs) as (h1 & -> & Habs1 & _); [by apply Forall_app in HF as [? _]|done|]. cbn [mbind option_bind].
      specialize (IH h1 (m ++ p) Habs1 HF HL). rewrite length_app, <- Nat.Div0.add_mod_idemp_l in IH. exact IH.
    + by rewrite (Update_overflows h m p Habs).
Qed.

Lemma Reset_absorbed h : length (m_buffer h) = 64%nat -> absorbed (Reset h) [].
Proof. intros Hb. split_and!; try done. Qed.

(** C32. The class computes SHA-1.  Whatever the object held before, after [Reset], any
    number of [Update]s with the pieces of a message of less than 2^61 bytes, each of which has a 32-bit
    length, and [Final], the digest is the SHA-1 value of the standard of the whole message: the
    unrolled rounds over the sixteen-word workspace are the compression function with its
    80-word schedule, the buffering in [Update] cuts the message into its blocks
    whatever the pieces are, and [Final] appends the padding and the length.  This holds exactly when for no piece its
    length and the bytes waiting in the buffer (at most 63) make 2^32 or more ([pieces_fit]: always so for pieces
    shorter than 2^32 - 63 bytes); at such a piece the 32-bit sum wraps and [Update] copies the piece over the end of
    the 64-byte buffer. *)
Theorem sha1_matches_standard h chunks :
  length (m_buffer h) = 64%nat -> Forall is_u8 (concat chunks) -> Forall (fun p : list Z => Z.of_nat (length p) < 2 ^ 32) chunks ->
  8 * Z.of_nat (length (concat chunks)) < 2 ^ 64 ->
  if pieces_fit 0 chunks
  then exists h' h'', updates (Reset h) chunks = Some h' /\ Final h' = Some h'' /\ GetHash h'' = Spec.sha1 (concat chunks)
  else updates (Reset h) chunks = None.
Proof.
  intros Hb HF HL Hlen. pose proof (updates_spec chunks (Reset h) [] (Reset_absorbed h Hb) HF HL) as Hu.
  change (length [] mod 64)%nat with 0%nat in Hu. destruct (pieces_fit 0 chunks); [|done]. destruct Hu as (h' & Hu & Habs).
  destruct (Final_spec h' (concat chunks) Habs HF Hlen) as (h'' & Hf & Hd). by exists h', h''.
Qed.

Lemma sha1_matches_standard_witness :
  exists h' h'', updates (Reset (mkSHA1 [] (0, 0) (replicate 64 9) [])) [[97]; [98; 99]] = Some h' /\ Final h' = Some h'' /\
    GetHash h'' = Spec.sha1 [97; 98; 99].
Proof.
  apply (sha1_matches_standard (mkSHA1 [] (0, 0) (replicate 64 9) []) [[97]; [98; 99]]); [reflexivity| | |simpl; lia].
  - repeat (constructor; [unfold is_u8; lia|]). constructor.
  - repeat (constructor; [simpl; lia|]). constructor.
Defined.

(** The test vector "abc". *)
Example sha1_abc : Spec.sha1 [97; 98; 99] =
  [0xa9; 0x99; 0x3e; 0x36; 0x47; 0x06; 0x81; 0x6a; 0xba; 0x3e; 0x25; 0x71; 0x78; 0x50; 0xc2; 0x6c; 0x9c; 0xd0; 0xd8; 0x9d].
Proof. vm_compute. reflexivity. Qed.
