(* ===== verification/HttpParser.v ===== *)
(** * HttpParser: the HTTP request parser of Aperture

    Models [src/aperture/aperture/request_parser.cpp] and [request_parser.hpp]:
    the character classes, [consume], [parse] and [reset], and the [request] that they
    fill ([request.hpp]).  A [char] is signed, from -128 to 127; a request's strings are
    lists of characters; the versions are 32-bit integers.  A [tribool] is an
    [option bool] with [None] for [indeterminate].  The result of [consume] is [None] when
    the code would call [headers.back()] on an empty vector.

    The specification is the grammar of a request: [print] writes a message, [denote] is
    the request that it stands for. *)
From S2P Require Import Prelude.
From stdpp Require Import list.
#[local] Open Scope Z_scope.

(** ** The code *)

Inductive parser_state :=
  | method_start | method | uri_start | uri | http_version_h | http_version_t_1 | http_version_t_2 | http_version_p | http_version_slash
  | http_version_major_start | http_version_major | http_version_minor_start | http_version_minor | expecting_newline_1
  | header_line_start | header_lws | header_name | space_before_header_value | header_value | expecting_newline_2 | expecting_newline_3.

(** A header is its name and its value. *)
Record request := mkRequest {
  r_method : list Z; r_uri : list Z; http_version_major_ : Z; http_version_minor_ : Z;
  headers : list (list Z * list Z); is_ready : bool; is_bad : bool }.

Definition is_char (c : Z) : bool := (0 <=? c) && (c <=? 127).
Definition is_ctl (c : Z) : bool := (0 <=? c) && (c <=? 31) || (c =? 127).
Definition is_tspecial (c : Z) : bool :=
  bool_decide (c ∈ [40; 41; 60; 62; 64; 44; 59; 58; 92; 34; 47; 91; 93; 63; 61; 123; 125; 32; 9]).
Definition is_digit (c : Z) : bool := (48 <=? c) && (c <=? 57).

Definition set_bad (r : request) (b : bool) : request :=
  mkRequest (r_method r) (r_uri r) (http_version_major_ r) (http_version_minor_ r) (headers r) (is_ready r) b.
Definition set_ready (r : request) : request :=
  mkRequest (r_method r) (r_uri r) (http_version_major_ r) (http_version_minor_ r) (headers r) true (is_bad r).
Definition push_method (r : request) (c : Z) : request :=
  mkRequest (r_method r ++ [c]) (r_uri r) (http_version_major_ r) (http_version_minor_ r) (headers r) (is_ready r) (is_bad r).
Definition push_uri (r : request) (c : Z) : request :=
  mkRequest (r_method r) (r_uri r ++ [c]) (http_version_major_ r) (http_version_minor_ r) (headers r) (is_ready r) (is_bad r).
Definition set_version (r : request) (major minor : Z) : request :=
  mkRequest (r_method r) (r_uri r) major minor (headers r) (is_ready r) (is_bad r).
Definition set_headers (r : request) (hs : list (list Z * list Z)) : request :=
  mkRequest (r_method r) (r_uri r) (http_version_major_ r) (http_version_minor_ r) hs (is_ready r) (is_bad r).

(** [headers.back()] updated by [g]. *)
Fixpoint upd_back (hs : list (list Z * list Z)) (g : list Z * list Z -> list Z * list Z) : option (list (list Z * list Z)) :=
  match hs with
  | [] => None
  | [h] => Some [g h]
  | h :: hs => hs ← upd_back hs g; Some (h :: hs)
  end.

Definition push_name (r : request) (c : Z) : option request :=
  hs ← upd_back (headers r) (fun h => (h.1 ++ [c], h.2)); Some (set_headers r hs).
Definition push_value (r : request) (c : Z) : option request :=
  hs ← upd_back (headers r) (fun h => (h.1, h.2 ++ [c])); Some (set_headers r hs).

(** The digits of a version number accumulate in an int; the model wraps around where the source overflows. *)
Definition digit_step (v c : Z) : Z := i32 (v * 10 + c - 48).

(** [consume]: the result, the state and the request. *)
Definition consume (s : parser_state) (r : request) (c : Z) : option (option bool * parser_state * request) :=
  let bad := Some (Some false, s, set_bad r true) in
  let go s r := Some (@None bool, s, r) in
  match s with
  | method_start => if negb (is_char c) || is_ctl c || is_tspecial c then bad else go method (push_method r c)
  | method =>
      if c =? 32 then go uri r
      else if negb (is_char c) || is_ctl c || is_tspecial c then bad else go method (push_method r c)
  | uri_start => if is_ctl c then bad else go uri (push_uri r c)
  | uri => if c =? 32 then go http_version_h r else if is_ctl c then bad else go uri (push_uri r c)
  | http_version_h => if c =? 72 then go http_version_t_1 r else bad
  | http_version_t_1 => if c =? 84 then go http_version_t_2 r else bad
  | http_version_t_2 => if c =? 84 then go http_version_p r else bad
  | http_version_p => if c =? 80 then go http_version_slash r else bad
  | http_version_slash => if c =? 47 then go http_version_major_start (set_version r 0 0) else bad
  | http_version_major_start =>
      if is_digit c then go http_version_major (set_version r (digit_step (http_version_major_ r) c) (http_version_minor_ r)) else bad
  | http_version_major =>
      if c =? 46 then go http_version_minor_start r
      else if is_digit c then go http_version_major (set_version r (digit_step (http_version_major_ r) c) (http_version_minor_ r)) else bad
  | http_version_minor_start =>
      if is_digit c then go http_version_minor (set_version r (http_version_major_ r) (digit_step (http_version_minor_ r) c)) else bad
  | http_version_minor =>
      if c =? 13 then go expecting_newline_1 r
      else if is_digit c then go http_version_minor (set_version r (http_version_major_ r) (digit_step (http_version_minor_ r) c)) else bad
  | expecting_newline_1 => if c =? 10 then go header_line_start r else bad
  | header_line_start =>
      if c =? 13 then go expecting_newline_3 r
      else if negb (bool_decide (headers r = [])) && ((c =? 32) || (c =? 9)) then go header_lws r
      else if negb (is_char c) || is_ctl c || is_tspecial c then bad
      else go header_name (set_headers r (headers r ++ [([c], [])]))
  | header_lws =>
      if c =? 13 then go expecting_newline_2 r
      else if (c =? 32) || (c =? 9) then go header_lws r
      else if is_ctl c then bad
      else r ← push_value r c; go header_value r
  | header_name =>
      if c =? 58 then go space_before_header_value r
      else if negb (is_char c) || is_ctl c || is_tspecial c then bad
      else r ← push_name r c; go header_name r
  | space_before_header_value => if c =? 32 then go header_value r else bad
  | header_value =>
      if c =? 13 then go expecting_newline_2 r
      else if is_ctl c then bad
      else r ← push_value r c; go header_value r
  | expecting_newline_2 => if c =? 10 then go header_line_start r else bad
  | expecting_newline_3 => if c =? 10 then Some (Some true, s, set_ready (set_bad r false)) else bad
  end.

(** [parse]: consumes characters until there is a result; the last component is the input
    that was not consumed. *)
Fixpoint parse (s : parser_state) (r : request) (input : list Z) : option (option bool * parser_state * request * list Z) :=
  match input with
  | [] => Some (None, s, r, [])
  | c :: input =>
      '(result, s, r) ← consume s r c;
      match result with
      | Some b => Some (Some b, s, r, input)
      | None => parse s r input
      end
  end.

Definition reset : parser_state := method_start.

(** ** The grammar *)

(** A header: its name, the value on its first line, and the continuation lines, each
    blanks followed by text. *)
Record hdr_syntax := mkHdr { hname : list Z; hvalue : list Z; hconts : list (list Z * list Z) }.
Record message := mkMessage { mmethod : list Z; muri : list Z; mmajor : list Z; mminor : list Z; mheaders : list hdr_syntax }.

Definition token_char (c : Z) : bool := is_char c && negb (is_ctl c) && negb (is_tspecial c).
Definition blank (c : Z) : bool := (c =? 32) || (c =? 9).
Definition text_char (c : Z) : bool := negb (is_ctl c).

Definition allc (p : Z -> bool) (l : list Z) : Prop := Forall (fun c => p c = true) l.
Definition somec (p : Z -> bool) (l : list Z) : Prop := l <> [] /\ allc p l.

(** Text of a continuation line: empty, or starting with something other than a blank. *)
Definition cont_text (t : list Z) : Prop := allc text_char t /\ match t with c :: _ => blank c = false | [] => True end.

Definition hdr_ok (h : hdr_syntax) : Prop :=
  somec token_char (hname h) /\ allc text_char (hvalue h) /\ Forall (fun bt => somec blank bt.1 /\ cont_text bt.2) (hconts h).

Definition message_ok (m : message) : Prop :=
  somec token_char (mmethod m) /\ allc (fun c => text_char c && negb (c =? 32)) (muri m) /\ somec is_digit (mmajor m) /\ somec is_digit (mminor m) /\
  Forall hdr_ok (mheaders m).

(** The lines of a header are separated by CR LF; the last one is not ended yet. *)
Definition print_open (h : hdr_syntax) : list Z := hname h ++ [58; 32] ++ hvalue h ++ concat (map (fun bt => [13; 10] ++ bt.1 ++ bt.2) (hconts h)).
Definition print_header (h : hdr_syntax) : list Z := print_open h ++ [13; 10].

Definition request_line (m u ma mi : list Z) : list Z := m ++ [32] ++ u ++ [32; 72; 84; 84; 80; 47] ++ ma ++ [46] ++ mi ++ [13; 10].

Definition print (m : message) : list Z :=
  request_line (mmethod m) (muri m) (mmajor m) (mminor m) ++ concat (map print_header (mheaders m)) ++ [13; 10].

Definition version (ds : list Z) : Z := fold_left digit_step ds 0.
Definition denote_header (h : hdr_syntax) : list Z * list Z := (hname h, hvalue h ++ concat (map snd (hconts h))).

(** The request of a message, as [parse] leaves it. *)
Definition denote (m : message) : request :=
  mkRequest (mmethod m) (muri m) (version (mmajor m)) (version (mminor m)) (map denote_header (mheaders m)) true false.

(** A request before parsing: the versions are not initialised. *)
Definition new_request (major minor : Z) : request := mkRequest [] [] major minor [] false false.

(** ** A message is parsed to its request *)

(** [runs s r l s' r']: the parser consumes [l] without a result. *)
Definition runs (s : parser_state) (r : request) (l : list Z) (s' : parser_state) (r' : request) : Prop := parse s r l = Some (None, s', r', []).

Lemma parse_runs s r l s' r' l' : runs s r l s' r' -> parse s r (l ++ l') = parse s' r' l'.
Proof.
  unfold runs. revert s r. induction l as [|c l IH]; intros s r; cbn [parse app]; [by intros [= -> ->]|].
  destruct (consume s r c) as [[[[?|] s1] r1]|]; cbn [mbind option_bind]; [done| |done]. apply IH.
Qed.

Lemma runs_app s r l s1 r1 l' s2 r2 : runs s r l s1 r1 -> runs s1 r1 l' s2 r2 -> runs s r (l ++ l') s2 r2.
Proof. intros H1 H2. unfold runs. by rewrite (parse_runs _ _ _ _ _ _ H1). Qed.

Lemma runs_nil s r : runs s r [] s r.
Proof. done. Qed.

Lemma runs_one s r c s' r' : consume s r c = Some (None, s', r') -> runs s r [c] s' r'.
Proof. intros H. unfold runs. cbn. by rewrite H. Qed.

(** A state that consumes every character of a class and stays. *)
Lemma runs_loop (p : Z -> bool) s (R : list Z -> request) : (forall x c, p c = true -> consume s (R x) c = Some (None, s, R (x ++ [c]))) ->
  forall l x, allc p l -> runs s (R x) l s (R (x ++ l)).
Proof.
  intros Hc l. induction l as [|c l IH]; intros x Hl; [rewrite app_nil_r; apply runs_nil|].
  apply Forall_cons in Hl as [Hp Hl]. unfold runs. cbn [parse]. rewrite Hc by done. cbn [mbind option_bind].
  replace (x ++ c :: l) with ((x ++ [c]) ++ l) by by rewrite <- app_assoc. by apply IH.
Qed.

Lemma upd_back_snoc hs h g : upd_back (hs ++ [h]) g = Some (hs ++ [g h]).
Proof.
  induction hs as [|h' hs IH]; [done|]. cbn [app upd_back]. destruct (hs ++ [h]) as [|x xs] eqn:E; [by destruct hs|].
  rewrite IH. done.
Qed.

#[local] Notation Req m u a b hs := (mkRequest m u a b hs false false).

Lemma token_char_tests c : token_char c = true -> negb (is_char c) || is_ctl c || is_tspecial c = false.
Proof. unfold token_char. by destruct (is_char c), (is_ctl c), (is_tspecial c). Qed.

Lemma token_char_not c x : token_char c = true -> is_tspecial x || is_ctl x = true -> (c =? x) = false.
Proof.
  intros Hc Hx. apply Z.eqb_neq. intros ->. unfold token_char in Hc. destruct (is_tspecial x), (is_ctl x); rewrite ?andb_false_r in Hc; done.
Qed.

Lemma text_char_not c x : text_char c = true -> is_ctl x = true -> (c =? x) = false.
Proof. intros Hc Hx. apply Z.eqb_neq. intros ->. unfold text_char in Hc. by rewrite Hx in Hc. Qed.

Lemma digit_not c x : is_digit c = true -> is_digit x = false -> (c =? x) = false.
Proof. intros Hc Hx. apply Z.eqb_neq. intros ->. congruence. Qed.

Lemma token_char_tests_inv c : negb (is_char c) || is_ctl c || is_tspecial c = false -> token_char c = true.
Proof. unfold token_char. by destruct (is_char c), (is_ctl c), (is_tspecial c). Qed.

Section segments.
Context (m u : list Z) (a b : Z) (hs : list (list Z * list Z)).

Lemma seg_method l : forall x, allc token_char l -> runs method (Req x u a b hs) l method (Req (x ++ l) u a b hs).
Proof using Type.
  apply (runs_loop token_char method (fun x => Req x u a b hs)). intros x c Hc. cbn [consume].
  rewrite (token_char_not c 32), token_char_tests by done. done.
Qed.

Lemma seg_uri l : forall x, allc (fun c => text_char c && negb (c =? 32)) l -> runs uri (Req m x a b hs) l uri (Req m (x ++ l) a b hs).
Proof using Type.
  apply (runs_loop _ uri (fun x => Req m x a b hs)). intros x c Hc. apply andb_prop in Hc as [Hc H32]. cbn [consume].
  unfold text_char in Hc. by rewrite (proj1 (negb_true_iff _) H32), (proj1 (negb_true_iff _) Hc).
Qed.

Lemma seg_major l : forall x, allc is_digit l -> runs http_version_major (Req m u (version x) b hs) l http_version_major (Req m u (version (x ++ l)) b hs).
Proof using Type.
  apply (runs_loop is_digit http_version_major (fun x => Req m u (version x) b hs)). intros x c Hc. cbn [consume].
  rewrite (digit_not c 46), Hc by done. unfold version. by rewrite fold_left_app.
Qed.

Lemma seg_minor l : forall x, allc is_digit l -> runs http_version_minor (Req m u a (version x) hs) l http_version_minor (Req m u a (version (x ++ l)) hs).
Proof using Type.
  apply (runs_loop is_digit http_version_minor (fun x => Req m u a (version x) hs)). intros x c Hc. cbn [consume].
  rewrite (digit_not c 13), Hc by done. unfold version. by rewrite fold_left_app.
Qed.

Lemma seg_name v l : forall x, allc token_char l -> runs header_name (Req m u a b (hs ++ [(x, v)])) l header_name (Req m u a b (hs ++ [(x ++ l, v)])).
Proof using Type.
  apply (runs_loop token_char header_name (fun x => Req m u a b (hs ++ [(x, v)]))). intros x c Hc. cbn [consume].
  rewrite (token_char_not c 58), token_char_tests by done. unfold push_name. cbn [headers]. by rewrite upd_back_snoc.
Qed.

Lemma seg_value n l : forall x, allc text_char l -> runs header_value (Req m u a b (hs ++ [(n, x)])) l header_value (Req m u a b (hs ++ [(n, x ++ l)])).
Proof using Type.
  apply (runs_loop text_char header_value (fun x => Req m u a b (hs ++ [(n, x)]))). intros x c Hc. cbn [consume].
  rewrite (text_char_not c 13) by done. unfold text_char in Hc. rewrite (proj1 (negb_true_iff _) Hc).
  unfold push_value. cbn [headers]. by rewrite upd_back_snoc.
Qed.

Lemma seg_lws l r : allc blank l -> runs header_lws r l header_lws r.
Proof using Type.
  intros Hl. apply (runs_loop blank header_lws (fun _ => r)) with (x := []); [|done]. intros x c Hc. cbn [consume]. unfold blank in Hc.
  rewrite Hc. destruct (Z.eqb_spec c 13) as [->|]; [done|done].
Qed.

(** A continuation line, from the end of the line before it. *)
Lemma seg_cont s n v bt : s = header_value \/ s = header_lws -> somec blank bt.1 -> cont_text bt.2 ->
  exists s', (s' = header_value \/ s' = header_lws) /\
    runs s (Req m u a b (hs ++ [(n, v)])) ([13; 10] ++ bt.1 ++ bt.2) s' (Req m u a b (hs ++ [(n, v ++ bt.2)])).
Proof using Type.
  intros Hs [Hne Hb] [Ht Hnb]. destruct bt as [[|c0 bl] t]; [done|]. cbn [fst snd] in *. apply Forall_cons in Hb as [Hc0 Hb].
  assert (H13 : runs s (Req m u a b (hs ++ [(n, v)])) [13; 10] header_line_start (Req m u a b (hs ++ [(n, v)]))) by (by destruct Hs as [-> | ->]).
  assert (Hb0 : runs header_line_start (Req m u a b (hs ++ [(n, v)])) (c0 :: bl) header_lws (Req m u a b (hs ++ [(n, v)]))).
  { apply (runs_app _ _ [c0] header_lws (Req m u a b (hs ++ [(n, v)]))); [|by apply seg_lws]. apply runs_one. cbn [consume headers].
    rewrite bool_decide_false by (by destruct hs). unfold blank in Hc0. rewrite Hc0. destruct (Z.eqb_spec c0 13) as [->|]; [done|done]. }
  destruct t as [|c t].
  - exists header_lws. split; [by right|]. rewrite !app_nil_r. eapply runs_app; [exact H13|exact Hb0].
  - exists header_value. split; [by left|]. eapply runs_app; [exact H13|]. eapply runs_app; [exact Hb0|].
    apply Forall_cons in Ht as [Hc Ht]. apply (runs_app _ _ [c] header_value (Req m u a b (hs ++ [(n, v ++ [c])]))).
    + apply runs_one. cbn [consume]. rewrite (text_char_not c 13) by done. unfold blank in Hnb. rewrite Hnb. unfold text_char in Hc.
      rewrite (proj1 (negb_true_iff _) Hc). unfold push_value. cbn [headers]. by rewrite upd_back_snoc.
    + pose proof (seg_value n t (v ++ [c]) Ht) as Hv. by rewrite <- app_assoc in Hv.
Qed.

Lemma seg_conts n cs : forall s v, s = header_value \/ s = header_lws -> Forall (fun bt => somec blank bt.1 /\ cont_text bt.2) cs ->
  exists s', (s' = header_value \/ s' = header_lws) /\
    runs s (Req m u a b (hs ++ [(n, v)])) (concat (map (fun bt => [13; 10] ++ bt.1 ++ bt.2) cs)) s' (Req m u a b (hs ++ [(n, v ++ concat (map snd cs))])).
Proof using Type.
  induction cs as [|bt cs IH]; intros s v Hs HF; cbn [map concat].
  - exists s. split; [done|]. rewrite app_nil_r. apply runs_nil.
  - apply Forall_cons in HF as [[Hb Ht] HF]. destruct (seg_cont s n v bt Hs Hb Ht) as (s1 & Hs1 & Hr1).
    destruct (IH s1 (v ++ bt.2) Hs1 HF) as (s2 & Hs2 & Hr2). exists s2. split; [done|]. rewrite <- app_assoc in Hr2. eapply runs_app; [exact Hr1|exact Hr2].
Qed.

Lemma seg_open h : hdr_ok h -> exists s', (s' = header_value \/ s' = header_lws) /\
  runs header_line_start (Req m u a b hs) (print_open h) s' (Req m u a b (hs ++ [denote_header h])).
Proof using Type.
  intros ([Hne Hn] & Hv & Hcs). destruct h as [[|c n] v cs]; [done|]. cbn [hname hvalue hconts] in *. apply Forall_cons in Hn as [Hc Hn].
  destruct (seg_conts (c :: n) cs header_value v (or_introl eq_refl) Hcs) as (s' & Hs' & Hr). exists s'. split; [done|].
  unfold print_open, denote_header. cbn [hname hvalue hconts].
  apply (runs_app _ _ (c :: n) header_name (Req m u a b (hs ++ [(c :: n, [])]))).
  { apply (runs_app _ _ [c] header_name (Req m u a b (hs ++ [([c], [])]))); [|apply (seg_name [] n [c] Hn)]. apply runs_one. cbn [consume headers].
    rewrite (token_char_not c 13), (token_char_not c 32), (token_char_not c 9), token_char_tests, andb_false_r by done. done. }
  apply (runs_app _ _ [58; 32] header_value (Req m u a b (hs ++ [(c :: n, [])]))); [done|].
  eapply runs_app; [apply (seg_value (c :: n) v [] Hv)|]. exact Hr.
Qed.

Lemma seg_header h : hdr_ok h -> runs header_line_start (Req m u a b hs) (print_header h) header_line_start (Req m u a b (hs ++ [denote_header h])).
Proof using Type. intros Hh. destruct (seg_open h Hh) as (s & [-> | ->] & Hr); (eapply runs_app; [exact Hr|done]). Qed.
End segments.

Lemma seg_headers m u a b hl : Forall hdr_ok hl -> forall hs,
  runs header_line_start (Req m u a b hs) (concat (map print_header hl)) header_line_start (Req m u a b (hs ++ map denote_header hl)).
Proof.
  intros HF. induction HF as [|h hl Hh HF IH]; intros hs; cbn [map concat]; [rewrite app_nil_r; apply runs_nil|].
  eapply runs_app; [by apply seg_header|]. specialize (IH (hs ++ [denote_header h])). by rewrite <- app_assoc in IH.
Qed.

Lemma seg_request_line m u ma mi major minor : somec token_char m -> allc (fun c => text_char c && negb (c =? 32)) u -> somec is_digit ma -> somec is_digit mi ->
  runs method_start (new_request major minor) (request_line m u ma mi) header_line_start (Req m u (version ma) (version mi) []).
Proof.
  intros [Hm Hmt] Hu [Hma Hmat] [Hmi Hmit]. destruct m as [|c m]; [done|]. destruct ma as [|d ma]; [done|]. destruct mi as [|e mi]; [done|].
  apply Forall_cons in Hmt as [Hc Hmt]. apply Forall_cons in Hmat as [Hd Hmat]. apply Forall_cons in Hmit as [He Hmit]. unfold request_line.
  apply (runs_app _ _ (c :: m) method (Req (c :: m) [] major minor [])).
  { apply (runs_app _ _ [c] method (Req [c] [] major minor [])); [|apply (seg_method [] major minor [] m [c] Hmt)].
    apply runs_one. cbn [consume]. by rewrite token_char_tests by done. }
  apply (runs_app _ _ [32] uri (Req (c :: m) [] major minor [])); [done|].
  eapply runs_app; [apply (seg_uri (c :: m) major minor [] u [] Hu)|]. cbn [app].
  apply (runs_app _ _ [32; 72; 84; 84; 80; 47] http_version_major_start (Req (c :: m) u 0 0 [])); [done|].
  apply (runs_app _ _ (d :: ma) http_version_major (Req (c :: m) u (version (d :: ma)) 0 [])).
  { apply (runs_app _ _ [d] http_version_major (Req (c :: m) u (version [d]) 0 [])); [|apply (seg_major (c :: m) u 0 [] ma [d] Hmat)].
    apply runs_one. cbn [consume]. by rewrite Hd. }
  apply (runs_app _ _ [46] http_version_minor_start (Req (c :: m) u (version (d :: ma)) 0 [])); [done|].
  apply (runs_app _ _ (e :: mi) http_version_minor (Req (c :: m) u (version (d :: ma)) (version (e :: mi)) [])); [|done].
  apply (runs_app _ _ [e] http_version_minor (Req (c :: m) u (version (d :: ma)) (version [e]) [])); [|apply (seg_minor (c :: m) u (version (d :: ma)) [] mi [e] Hmit)].
  apply runs_one. cbn [consume]. by rewrite He.
Qed.

Lemma parse_message major minor msg rest : message_ok msg ->
  parse method_start (new_request major minor) (print msg ++ rest) = Some (Some true, expecting_newline_3, denote msg, rest).
Proof.
  intros (Hm & Hu & Hma & Hmi & HF). unfold print. rewrite <- !app_assoc.
  rewrite (parse_runs _ _ _ _ _ _ (seg_request_line _ _ _ _ major minor Hm Hu Hma Hmi)).
  rewrite (parse_runs _ _ _ _ _ _ (seg_headers _ _ _ _ _ HF [])). done.
Qed.

(** ** What has been consumed in each state *)

(** After the method: the URI, then the characters [sfx] of the fixed text. *)
Definition at_uri (sfx : list Z) (a b : Z) (r : request) (bs : list Z) : Prop :=
  exists m u, somec token_char m /\ allc (fun c => text_char c && negb (c =? 32)) u /\ bs = m ++ [32] ++ u ++ sfx /\ r = Req m u a b [].

(** In the version: [ma] has been read, then [sfx]. *)
Definition at_major (sfx : list Z) (r : request) (bs : list Z) : Prop :=
  exists m u ma, somec token_char m /\ allc (fun c => text_char c && negb (c =? 32)) u /\ somec is_digit ma /\
    bs = m ++ [32] ++ u ++ [32; 72; 84; 84; 80; 47] ++ ma ++ sfx /\ r = Req m u (version ma) 0 [].

Definition at_minor (sfx : list Z) (r : request) (bs : list Z) : Prop :=
  exists m u ma mi, somec token_char m /\ allc (fun c => text_char c && negb (c =? 32)) u /\ somec is_digit ma /\ somec is_digit mi /\
    bs = m ++ [32] ++ u ++ [32; 72; 84; 84; 80; 47] ++ ma ++ [46] ++ mi ++ sfx /\ r = Req m u (version ma) (version mi) [].

(** After the request line and the headers [hl]: the characters [sfx] of what follows,
    with [extra] the header that is being read. *)
Definition at_headers (hl : list hdr_syntax) (sfx : list Z) (extra : list (list Z * list Z)) (r : request) (bs : list Z) : Prop :=
  exists m u ma mi, somec token_char m /\ allc (fun c => text_char c && negb (c =? 32)) u /\ somec is_digit ma /\ somec is_digit mi /\
    Forall hdr_ok hl /\ bs = request_line m u ma mi ++ concat (map print_header hl) ++ sfx /\
    r = Req m u (version ma) (version mi) (map denote_header hl ++ extra).

(** The last line of an open header has text, or only blanks. *)
Definition open_text (h : hdr_syntax) : Prop := hconts h = [] \/ exists cs bl t, hconts h = cs ++ [(bl, t)] /\ t <> [].
Definition open_blank (h : hdr_syntax) : Prop := exists cs bl, hconts h = cs ++ [(bl, [])].

Section partial.
Context (major minor : Z).

Definition partial (s : parser_state) (r : request) (bs : list Z) : Prop :=
  match s with
  | method_start => bs = [] /\ r = new_request major minor
  | method => exists m, somec token_char m /\ bs = m /\ r = Req m [] major minor []
  | uri_start => False
  | uri => at_uri [] major minor r bs
  | http_version_h => at_uri [32] major minor r bs
  | http_version_t_1 => at_uri [32; 72] major minor r bs
  | http_version_t_2 => at_uri [32; 72; 84] major minor r bs
  | http_version_p => at_uri [32; 72; 84; 84] major minor r bs
  | http_version_slash => at_uri [32; 72; 84; 84; 80] major minor r bs
  | http_version_major_start => at_uri [32; 72; 84; 84; 80; 47] 0 0 r bs
  | http_version_major => at_major [] r bs
  | http_version_minor_start => at_major [46] r bs
  | http_version_minor => at_minor [] r bs
  | expecting_newline_1 => at_minor [13] r bs
  | header_line_start => exists hl, at_headers hl [] [] r bs
  | header_name => exists hl n, somec token_char n /\ at_headers hl n [(n, [])] r bs
  | space_before_header_value => exists hl n, somec token_char n /\ at_headers hl (n ++ [58]) [(n, [])] r bs
  | header_value => exists hl h, hdr_ok h /\ open_text h /\ at_headers hl (print_open h) [denote_header h] r bs
  | header_lws => exists hl h, hdr_ok h /\ open_blank h /\ at_headers hl (print_open h) [denote_header h] r bs
  | expecting_newline_2 => exists hl h, hdr_ok h /\ at_headers hl (print_open h ++ [13]) [denote_header h] r bs
  | expecting_newline_3 => exists hl, at_headers hl [13] [] r bs
  end.

Lemma somec_snoc p l c : allc p l -> p c = true -> somec p (l ++ [c]).
Proof using Type. intros Hl Hc. split; [by destruct l|]. apply Forall_app_2; [done|]. by constructor. Qed.

Lemma at_uri_next sfx a b r bs c : at_uri sfx a b r bs -> at_uri (sfx ++ [c]) a b r (bs ++ [c]).
Proof using Type. intros (m & u & Hm & Hu & -> & ->). exists m, u. split_and!; try done. by rewrite <- !app_assoc. Qed.

Lemma at_headers_next hl sfx extra r bs c : at_headers hl sfx extra r bs -> at_headers hl (sfx ++ [c]) extra r (bs ++ [c]).
Proof using Type. intros (m & u & ma & mi & Hm & Hu & Hma & Hmi & HF & -> & ->). exists m, u, ma, mi. split_and!; try done. by rewrite <- !app_assoc. Qed.

(** Changing the header that is being read. *)
Lemma at_headers_push hl sfx sfx' h h' r bs c : at_headers hl sfx [h] r bs -> sfx' = sfx ++ [c] ->
  exists r', r' = set_headers r (map denote_header hl ++ [h']) /\ at_headers hl sfx' [h'] r' (bs ++ [c]).
Proof using Type.
  intros (m & u & ma & mi & Hm & Hu & Hma & Hmi & HF & -> & ->) ->. eexists. split; [done|]. exists m, u, ma, mi. split_and!; try done. by rewrite <- !app_assoc.
Qed.

Lemma open_push_text h c : hdr_ok h -> open_text h -> text_char c = true -> exists h', hdr_ok h' /\ open_text h' /\
  print_open h' = print_open h ++ [c] /\ denote_header h' = ((denote_header h).1, (denote_header h).2 ++ [c]).
Proof using Type.
  destruct h as [n v cs]. unfold open_text, print_open, denote_header, hdr_ok. cbn [hname hvalue hconts fst snd].
  intros (Hn & Hv & Hcs) [-> |(cs' & bl & t & -> & Ht)] Hc.
  - exists (mkHdr n (v ++ [c]) []). cbn [hname hvalue hconts map concat]. rewrite !app_nil_r. split; [|split; [by left|by rewrite <- !app_assoc]].
    split_and!; try done. apply Forall_app_2; [done|by constructor].
  - exists (mkHdr n v (cs' ++ [(bl, t ++ [c])])). cbn [hname hvalue hconts]. rewrite !map_app, !concat_app. cbn [map concat fst snd]. rewrite !app_nil_r, <- !app_assoc.
    split; [|split; [right; exists cs', bl, (t ++ [c]); split; [done|by destruct t]|done]].
    apply Forall_app in Hcs as [Hcs [[Hb [Htt Htb]] _]%Forall_cons]. cbn [fst snd] in *. split_and!; try done. apply Forall_app_2; [done|]. constructor; [|by constructor].
    split; [done|]. split; [apply Forall_app_2; [done|by constructor]|]. destruct t; done.
Qed.

Lemma open_push_blank h c : hdr_ok h -> open_blank h -> blank c = true -> exists h', hdr_ok h' /\ open_blank h' /\
  print_open h' = print_open h ++ [c] /\ denote_header h' = denote_header h.
Proof using Type.
  destruct h as [n v cs]. unfold open_blank, print_open, denote_header, hdr_ok. cbn [hname hvalue hconts fst snd].
  intros (Hn & Hv & Hcs) (cs' & bl & ->) Hc.
  exists (mkHdr n v (cs' ++ [(bl ++ [c], [])])). cbn [hname hvalue hconts]. rewrite !map_app, !concat_app. cbn [map concat fst snd]. rewrite !app_nil_r, <- !app_assoc.
  split; [|split; [by exists cs', (bl ++ [c])|done]]. apply Forall_app in Hcs as [Hcs [[[Hb0 Hb] Ht] _]%Forall_cons]. cbn [fst snd] in *.
  split_and!; try done. apply Forall_app_2; [done|]. constructor; [|by constructor]. split; [by apply somec_snoc|done].
Qed.

Lemma open_push_first h c : hdr_ok h -> open_blank h -> text_char c = true -> blank c = false -> exists h', hdr_ok h' /\ open_text h' /\
  print_open h' = print_open h ++ [c] /\ denote_header h' = ((denote_header h).1, (denote_header h).2 ++ [c]).
Proof using Type.
  destruct h as [n v cs]. unfold open_blank, open_text, print_open, denote_header, hdr_ok. cbn [hname hvalue hconts fst snd].
  intros (Hn & Hv & Hcs) (cs' & bl & ->) Hc Hb.
  exists (mkHdr n v (cs' ++ [(bl, [c])])). cbn [hname hvalue hconts]. rewrite !map_app, !concat_app. cbn [map concat fst snd]. rewrite !app_nil_r, <- !app_assoc.
  split; [|split; [by right; exists cs', bl, [c]|done]]. apply Forall_app in Hcs as [Hcs [[Hbl Ht] _]%Forall_cons]. cbn [fst snd] in *.
  split_and!; try done. apply Forall_app_2; [done|]. constructor; [|by constructor]. split; [done|]. split; [by constructor|done].
Qed.

(** A blank after a complete header starts a continuation line of it. *)
Lemma open_continue h c : hdr_ok h -> blank c = true -> exists h', hdr_ok h' /\ open_blank h' /\
  print_open h' = print_header h ++ [c] /\ denote_header h' = denote_header h.
Proof using Type.
  destruct h as [n v cs]. unfold open_blank, print_header, print_open, denote_header, hdr_ok. cbn [hname hvalue hconts fst snd]. intros (Hn & Hv & Hcs) Hc.
  exists (mkHdr n v (cs ++ [([c], [])])). cbn [hname hvalue hconts]. rewrite !map_app, !concat_app. cbn [map concat fst snd]. rewrite !app_nil_r, <- !app_assoc.
  split; [|split; [by exists cs, [c]|done]]. split_and!; try done. apply Forall_app_2; [done|]. constructor; [|by constructor].
  split; [split; [done|by constructor]|split; [by constructor|done]].
Qed.

Definition step_ok (x : option (option bool * parser_state * request)) (bs : list Z) : Prop :=
  exists res s' r', x = Some (res, s', r') /\
  match res with
  | None => partial s' r' bs
  | Some true => exists msg, message_ok msg /\ bs = print msg /\ r' = denote msg
  | Some false => True
  end.

Lemma step_bad s r bs : step_ok (Some (Some false, s, r)) bs.
Proof using Type. by eexists _, _, _. Qed.

Lemma step_line_start r bs c : partial header_line_start r bs -> step_ok (consume header_line_start r c) (bs ++ [c]).
Proof using Type.
  intros [hl H]. cbn [consume]. destruct (Z.eqb_spec c 13) as [->|Hc].
  { eexists _, _, _. split; [done|]. exists hl. exact (at_headers_next _ _ _ _ _ 13 H). }
  pose proof H as (m & u & ma & mi & Hm & Hu & Hma & Hmi & HF & Hbs & Hr).
  destruct (negb (bool_decide (headers r = [])) && _) eqn:E.
  - apply andb_prop in E as [E Hb]. apply negb_true_iff, bool_decide_eq_false in E. eexists _, _, _. split; [done|].
    rewrite Hr, app_nil_r in E. cbn [headers] in E. destruct hl as [|h hl _] using rev_ind; [done|]. apply Forall_app in HF as [HF [Hh _]%Forall_cons].
    destruct (open_continue h c Hh Hb) as (h' & Hh' & Ho & Hp & Hd). exists hl, h'. split; [done|]. split; [done|]. exists m, u, ma, mi.
    rewrite Hp, Hd, Hbs, Hr, !map_app, concat_app. cbn [map concat]. rewrite !app_nil_r, <- !app_assoc. by split_and!.
  - destruct (negb (is_char c) || _ || _) eqn:Et; [apply step_bad|]. apply token_char_tests_inv in Et. eexists _, _, _. split; [done|].
    exists hl, [c]. split; [apply (somec_snoc token_char [] c); [by constructor|done]|]. exists m, u, ma, mi. rewrite Hbs, Hr. unfold set_headers. cbn. rewrite !app_nil_r, <- !app_assoc. by split_and!.
Qed.

Lemma push_back r hl sfx n v bs c : at_headers hl sfx [(n, v)] r bs ->
  push_value r c = Some (set_headers r (map denote_header hl ++ [(n, v ++ [c])])) /\ push_name r c = Some (set_headers r (map denote_header hl ++ [(n ++ [c], v)])).
Proof using Type. intros (m & u & ma & mi & Hm & Hu & Hma & Hmi & HF & -> & ->). unfold push_value, push_name. cbn [headers]. by rewrite !upd_back_snoc. Qed.

Lemma step_lws r bs c : partial header_lws r bs -> step_ok (consume header_lws r c) (bs ++ [c]).
Proof using Type.
  intros (hl & h & Hh & Ho & H). cbn [consume]. destruct (Z.eqb_spec c 13) as [->|Hc].
  { eexists _, _, _. split; [done|]. exists hl, h. split; [done|]. exact (at_headers_next _ _ _ _ _ 13 H). }
  fold (blank c). destruct (blank c) eqn:Hb.
  - destruct (open_push_blank h c Hh Ho Hb) as (h' & Hh' & Ho' & Hp & Hd). eexists _, _, _. split; [done|]. exists hl, h'. split; [done|]. split; [done|].
    rewrite Hp, Hd. by apply at_headers_next.
  - destruct (is_ctl c) eqn:Ec; [apply step_bad|]. destruct (open_push_first h c Hh Ho) as (h' & Hh' & Ho' & Hp & Hd); [unfold text_char; by rewrite Ec|done|].
    destruct (denote_header h) as [n v] eqn:Ed. cbn [fst snd] in Hd. destruct (push_back r hl _ n v bs c H) as [-> _].
    eexists _, _, _. split; [done|]. exists hl, h'. split; [done|]. split; [done|]. rewrite Hd.
    destruct (at_headers_push hl _ (print_open h') (n, v) (n, v ++ [c]) r bs c H Hp) as (r' & -> & Hr). exact Hr.
Qed.

Lemma step_name r bs c : partial header_name r bs -> step_ok (consume header_name r c) (bs ++ [c]).
Proof using Type.
  intros (hl & n & [Hn0 Hn] & H). cbn [consume]. destruct (Z.eqb_spec c 58) as [->|Hc].
  { eexists _, _, _. split; [done|]. exists hl, n. split; [done|]. by apply at_headers_next. }
  destruct (negb (is_char c) || _ || _) eqn:Et; [apply step_bad|]. apply token_char_tests_inv in Et.
  destruct (push_back r hl _ n [] bs c H) as [_ ->]. eexists _, _, _. split; [done|]. exists hl, (n ++ [c]). split; [by apply somec_snoc|].
  destruct (at_headers_push hl n (n ++ [c]) (n, []) (n ++ [c], []) r bs c H eq_refl) as (r' & -> & Hr). exact Hr.
Qed.

Lemma step_value r bs c : partial header_value r bs -> step_ok (consume header_value r c) (bs ++ [c]).
Proof using Type.
  intros (hl & h & Hh & Ho & H). cbn [consume]. destruct (Z.eqb_spec c 13) as [->|Hc].
  { eexists _, _, _. split; [done|]. exists hl, h. split; [done|]. exact (at_headers_next _ _ _ _ _ 13 H). }
  destruct (is_ctl c) eqn:Ec; [apply step_bad|]. destruct (open_push_text h c Hh Ho) as (h' & Hh' & Ho' & Hp & Hd); [unfold text_char; by rewrite Ec|].
  destruct (denote_header h) as [n v] eqn:Ed. cbn [fst snd] in Hd. destruct (push_back r hl _ n v bs c H) as [-> _].
  eexists _, _, _. split; [done|]. exists hl, h'. split; [done|]. split; [done|]. rewrite Hd.
  destruct (at_headers_push hl _ (print_open h') (n, v) (n, v ++ [c]) r bs c H Hp) as (r' & -> & Hr). exact Hr.
Qed.

(** One character more: there is no access outside the headers; without a result the
    description is kept, and the result [true] ends a message. *)
Lemma partial_step s r bs c : partial s r bs -> exists res s' r', consume s r c = Some (res, s', r') /\
  match res with
  | None => partial s' r' (bs ++ [c])
  | Some true => exists msg, message_ok msg /\ bs ++ [c] = print msg /\ r' = denote msg
  | Some false => True
  end.
Proof using Type.
  destruct s; cbn [partial consume]; intros H.
  - destruct H as [-> ->]. destruct (negb _ || _ || _) eqn:E; [by eexists _, _, _|]. eexists _, _, _. split; [done|]. exists [c]. split; [|done].
    apply token_char_tests_inv in E. apply (somec_snoc token_char [] c); [by constructor|done].
  - destruct H as (m & [Hm0 Hm] & -> & ->). destruct (Z.eqb_spec c 32) as [->|Hc].
    { eexists _, _, _. split; [done|]. exists m, []. split_and!; try done. by constructor. }
    destruct (negb _ || _ || _) eqn:E; [by eexists _, _, _|]. eexists _, _, _. split; [done|]. exists (m ++ [c]).
    apply token_char_tests_inv in E. split; [by apply somec_snoc|done].
  - done.
  - destruct (Z.eqb_spec c 32) as [->|Hc]; [eexists _, _, _; split; [done|]; exact (at_uri_next _ _ _ _ _ _ H)|].
    destruct (is_ctl c) eqn:E; [by eexists _, _, _|]. eexists _, _, _. split; [done|]. destruct H as (m & u & Hm & Hu & -> & ->).
    exists m, (u ++ [c]). rewrite !app_nil_r, <- !app_assoc. split_and!; try done. apply Forall_app_2; [done|]. constructor; [|by constructor].
    unfold text_char. rewrite E. by rewrite (proj2 (Z.eqb_neq _ _) Hc).
  - destruct (Z.eqb_spec c 72) as [->|Hc]; eexists _, _, _; (split; [done|]); [exact (at_uri_next _ _ _ _ _ _ H)|done].
  - destruct (Z.eqb_spec c 84) as [->|Hc]; eexists _, _, _; (split; [done|]); [exact (at_uri_next _ _ _ _ _ _ H)|done].
  - destruct (Z.eqb_spec c 84) as [->|Hc]; eexists _, _, _; (split; [done|]); [exact (at_uri_next _ _ _ _ _ _ H)|done].
  - destruct (Z.eqb_spec c 80) as [->|Hc]; eexists _, _, _; (split; [done|]); [exact (at_uri_next _ _ _ _ _ _ H)|done].
  - destruct (Z.eqb_spec c 47) as [->|Hc]; eexists _, _, _; (split; [done|]); [|done].
    apply at_uri_next with (c := 47) in H. destruct H as (m & u & Hm & Hu & -> & ->). by exists m, u.
  - destruct (is_digit c) eqn:E; eexists _, _, _; (split; [done|]); [|done]. destruct H as (m & u & Hm & Hu & -> & ->). exists m, u, [c].
    rewrite <- !app_assoc. split_and!; try done. apply (somec_snoc is_digit [] c); [by constructor|done].
  - destruct H as (m & u & ma & Hm & Hu & [Hma0 Hma] & -> & ->). destruct (Z.eqb_spec c 46) as [->|Hc].
    { eexists _, _, _. split; [done|]. exists m, u, ma. rewrite <- !app_assoc. by split_and!. }
    destruct (is_digit c) eqn:E; eexists _, _, _; (split; [done|]); [|done]. exists m, u, (ma ++ [c]). rewrite <- !app_assoc.
    split_and!; try done; [by apply somec_snoc|]. unfold version. by rewrite fold_left_app.
  - destruct (is_digit c) eqn:E; eexists _, _, _; (split; [done|]); [|done]. destruct H as (m & u & ma & Hm & Hu & Hma & -> & ->).
    exists m, u, ma, [c]. rewrite <- !app_assoc. split_and!; try done. apply (somec_snoc is_digit [] c); [by constructor|done].
  - destruct H as (m & u & ma & mi & Hm & Hu & Hma & [Hmi0 Hmi] & -> & ->). destruct (Z.eqb_spec c 13) as [->|Hc].
    { eexists _, _, _. split; [done|]. exists m, u, ma, mi. rewrite <- !app_assoc. by split_and!. }
    destruct (is_digit c) eqn:E; eexists _, _, _; (split; [done|]); [|done]. exists m, u, ma, (mi ++ [c]). rewrite <- !app_assoc.
    split_and!; try done; [by apply somec_snoc|]. unfold version. by rewrite fold_left_app.
  - destruct (Z.eqb_spec c 10) as [->|Hc]; eexists _, _, _; (split; [done|]); [|done]. destruct H as (m & u & ma & mi & Hm & Hu & Hma & Hmi & -> & ->).
    exists [], m, u, ma, mi. unfold request_line. cbn [map concat]. rewrite !app_nil_r, <- !app_assoc. by split_and!.
  - by apply step_line_start.
  - by apply step_lws.
  - by apply step_name.
  - destruct (Z.eqb_spec c 32) as [->|Hc]; eexists _, _, _; (split; [done|]); [|done]. destruct H as (hl & n & Hn & H).
    exists hl, (mkHdr n [] []). split; [by split_and!; [done|constructor|constructor]|]. split; [by left|].
    apply at_headers_next with (c := 32) in H. unfold print_open. cbn [hname hvalue hconts map concat app]. by rewrite <- app_assoc in H.
  - by apply step_value.
  - destruct (Z.eqb_spec c 10) as [->|Hc]; eexists _, _, _; (split; [done|]); [|done]. destruct H as (hl & h & Hh & m & u & ma & mi & Hm & Hu & Hma & Hmi & HF & -> & ->).
    exists (hl ++ [h]), m, u, ma, mi. rewrite !map_app, concat_app. unfold print_header. cbn [map concat]. rewrite ?app_nil_r, <- !app_assoc.
    split_and!; try done. apply Forall_app_2; [done|by constructor].
  - destruct (Z.eqb_spec c 10) as [->|Hc]; eexists _, _, _; (split; [done|]); [|done]. destruct H as (hl & m & u & ma & mi & Hm & Hu & Hma & Hmi & HF & -> & ->).
    exists (mkMessage m u ma mi hl). split; [by split_and!|]. unfold print, denote. cbn [mmethod muri mmajor mminor mheaders]. rewrite <- !app_assoc. split; [done|]. unfold set_ready, set_bad. cbn. by rewrite app_nil_r.
Qed.

(** What has been consumed can be completed to a message. *)
Definition completable (bs : list Z) : Prop := exists t msg, t <> [] /\ message_ok msg /\ bs ++ t = print msg.

Lemma one_digit c : is_digit c = true -> somec is_digit [c].
Proof using Type. intros Hc. split; [done|]. by constructor. Qed.

Lemma at_uri_completable sfx t a b r bs : at_uri sfx a b r bs -> sfx ++ t = [32; 72; 84; 84; 80; 47] -> completable bs.
Proof using Type.
  intros (m & u & Hm & Hu & -> & _) Ht. exists (t ++ [49; 46; 48; 13; 10; 13; 10]), (mkMessage m u [49] [48] []).
  split; [by destruct t|]. split; [split_and!; try done; (by apply one_digit) || by constructor|].
  unfold print, request_line. cbn [mmethod muri mmajor mminor mheaders map concat]. rewrite <- !app_assoc, (app_assoc sfx t), Ht. done.
Qed.

Lemma at_major_completable sfx t r bs : at_major sfx r bs -> sfx ++ t = [46; 48; 13; 10; 13; 10] -> t <> [] -> completable bs.
Proof using Type.
  intros (m & u & ma & Hm & Hu & Hma & -> & _) Ht Hne. exists t, (mkMessage m u ma [48] []).
  split; [done|]. split; [split_and!; try done; (by apply one_digit) || by constructor|].
  unfold print, request_line. cbn [mmethod muri mmajor mminor mheaders map concat]. rewrite <- !app_assoc, Ht. done.
Qed.

Lemma at_minor_completable sfx t r bs : at_minor sfx r bs -> sfx ++ t = [13; 10; 13; 10] -> t <> [] -> completable bs.
Proof using Type.
  intros (m & u & ma & mi & Hm & Hu & Hma & Hmi & -> & _) Ht Hne. exists t, (mkMessage m u ma mi []).
  split; [done|]. split; [by split_and!; try done; constructor|].
  unfold print, request_line. cbn [mmethod muri mmajor mminor mheaders map concat]. rewrite <- !app_assoc, Ht. done.
Qed.

Lemma at_headers_completable hl hl' sfx t extra r bs : at_headers hl sfx extra r bs -> Forall hdr_ok hl' ->
  sfx ++ t = concat (map print_header hl') ++ [13; 10] -> t <> [] -> completable bs.
Proof using Type.
  intros (m & u & ma & mi & Hm & Hu & Hma & Hmi & HF & -> & _) HF' Ht Hne. exists t, (mkMessage m u ma mi (hl ++ hl')).
  split; [done|]. split; [split_and!; try done; by apply Forall_app_2|].
  unfold print. cbn [mmethod muri mmajor mminor mheaders]. rewrite <- !app_assoc, map_app, concat_app, <- app_assoc, Ht. done.
Qed.

Lemma named_ok n : somec token_char n -> hdr_ok (mkHdr n [] []).
Proof using Type. intros Hn. split_and!; [done|by constructor|by constructor]. Qed.

Lemma partial_completable s r bs : partial s r bs -> completable bs.
Proof using Type.
  assert (Hsimple : forall m, somec token_char m -> message_ok (mkMessage m [] [49] [48] [])).
  { intros m Hm. split_and!; try done; ((by apply one_digit) || by constructor). }
  destruct s; cbn [partial]; intros H; try done.
  - destruct H as [-> _]. exists (print (mkMessage [71] [] [49] [48] [])), (mkMessage [71] [] [49] [48] []). split; [done|]. split; [|done].
    apply Hsimple. split; [done|by constructor].
  - destruct H as (m & Hm & -> & _). exists [32; 32; 72; 84; 84; 80; 47; 49; 46; 48; 13; 10; 13; 10], (mkMessage m [] [49] [48] []).
    split; [done|]. split; [by apply Hsimple|]. unfold print, request_line. cbn [mmethod muri mmajor mminor mheaders map concat]. by rewrite <- !app_assoc.
  - by eapply at_uri_completable.
  - by eapply (at_uri_completable [32]).
  - by eapply (at_uri_completable [32; 72]).
  - by eapply (at_uri_completable [32; 72; 84]).
  - by eapply (at_uri_completable [32; 72; 84; 84]).
  - by eapply (at_uri_completable [32; 72; 84; 84; 80]).
  - by eapply (at_uri_completable [32; 72; 84; 84; 80; 47]).
  - by eapply at_major_completable.
  - by eapply (at_major_completable [46]).
  - by eapply at_minor_completable.
  - by eapply (at_minor_completable [13]).
  - destruct H as [hl H]. by eapply (at_headers_completable hl [] [] [13; 10]).
  - destruct H as (hl & h & Hh & _ & H). apply (at_headers_completable hl [h] _ [13; 10; 13; 10] _ _ _ H); [by constructor| |done].
    unfold print_header. cbn [map concat]. by rewrite app_nil_r, <- app_assoc.
  - destruct H as (hl & n & Hn & H). apply (at_headers_completable hl [mkHdr n [] []] _ [58; 32; 13; 10; 13; 10] _ _ _ H); [constructor; [by apply named_ok|done]| |done].
    unfold print_header, print_open. cbn [map concat hname hvalue hconts]. rewrite !app_nil_r, <- !app_assoc. done.
  - destruct H as (hl & n & Hn & H). apply (at_headers_completable hl [mkHdr n [] []] _ [32; 13; 10; 13; 10] _ _ _ H); [constructor; [by apply named_ok|done]| |done].
    unfold print_header, print_open. cbn [map concat hname hvalue hconts]. rewrite !app_nil_r, <- !app_assoc. done.
  - destruct H as (hl & h & Hh & _ & H). apply (at_headers_completable hl [h] _ [13; 10; 13; 10] _ _ _ H); [by constructor| |done].
    unfold print_header. cbn [map concat]. by rewrite app_nil_r, <- app_assoc.
  - destruct H as (hl & h & Hh & H). apply (at_headers_completable hl [h] _ [10; 13; 10] _ _ _ H); [by constructor| |done].
    unfold print_header. cbn [map concat]. by rewrite app_nil_r, <- !app_assoc.
  - destruct H as [hl H]. by eapply (at_headers_completable hl [] [13] [10]).
Qed.

(** Parsing from any state that describes what came before. *)
Lemma parse_partial input : forall s r bs, partial s r bs -> exists res s' r' rest, parse s r input = Some (res, s', r', rest) /\
  match res with
  | None => rest = [] /\ partial s' r' (bs ++ input)
  | Some true => exists msg, message_ok msg /\ bs ++ input = print msg ++ rest /\ r' = denote msg
  | Some false => True
  end.
Proof using Type.
  induction input as [|c input IH]; intros s r bs H; cbn [parse].
  - exists None, s, r, []. by rewrite app_nil_r.
  - destruct (partial_step s r bs c H) as (res & s1 & r1 & -> & Hres). cbn [mbind option_bind]. destruct res as [[]|].
    + destruct Hres as (msg & Hok & E & Hr). exists (Some true), s1, r1, input. split; [done|]. exists msg. split; [done|]. split; [|done].
      rewrite <- E, <- app_assoc. done.
    + by exists (Some false), s1, r1, input.
    + destruct (IH s1 r1 (bs ++ [c]) Hres) as (res & s2 & r2 & rest & -> & H2). exists res, s2, r2, rest. split; [done|].
      rewrite <- app_assoc in H2. exact H2.
Qed.
End partial.

(** Input after a result is not looked at. *)
Lemma parse_result_app s r l l' x s' r' rest : parse s r l = Some (Some x, s', r', rest) -> parse s r (l ++ l') = Some (Some x, s', r', rest ++ l').
Proof.
  revert s r. induction l as [|c l IH]; intros s r; cbn [parse app]; [done|].
  destruct (consume s r c) as [[[[y|] s1] r1]|]; cbn [mbind option_bind]; [|apply IH|done]. intros [= -> -> -> ->]. done.
Qed.

(** C26. The parser decides the grammar of requests, one character at a time.  Started on a
    new request, [parse] never reads outside the headers, and on every input: it returns
    true exactly when the input starts with a message of the grammar, and then the request
    holds the fields of that message (with continuation lines joined to the value) and
    exactly the message has been consumed; it asks for more input exactly when the input
    is a proper prefix of some message; and so it returns false exactly when no continuation of the input
    can start with a message. *)
Theorem parse_decides_grammar major minor input :
  exists res s r rest, parse reset (new_request major minor) input = Some (res, s, r, rest) /\
  (res = Some true <-> exists msg rest', message_ok msg /\ input = print msg ++ rest') /\
  (res = Some true -> exists msg, message_ok msg /\ input = print msg ++ rest /\ r = denote msg) /\
  (res = None <-> exists t msg, t <> [] /\ message_ok msg /\ input ++ t = print msg).
Proof.
  destruct (parse_partial major minor input reset (new_request major minor) []) as (res & s & r & rest & Hp & Hres); [done|]. cbn [app] in Hres.
  exists res, s, r, rest. split; [done|]. split_and!; [split|..|split].
  - intros ->. destruct Hres as (msg & Hok & E & _). by exists msg, rest.
  - intros (msg & rest' & Hok & ->). pose proof (parse_message major minor msg rest' Hok) as Hm. unfold reset in Hp. congruence.
  - by intros ->.
  - intros ->. destruct Hres as [-> Hpart]. by apply (partial_completable major minor) in Hpart.
  - intros (t & msg & Hne & Hok & E). destruct res as [x|]; [exfalso|done].
    pose proof (parse_message major minor msg [] Hok) as Hm. rewrite app_nil_r, <- E in Hm.
    apply (parse_result_app _ _ _ t) in Hp. unfold reset in Hp. rewrite Hp in Hm. injection Hm as _ _ _ Hnil.
    by apply app_eq_nil in Hnil as [_ ->].
Qed.
