(* ===== verification/LruCache.v ===== *)
(** * LruCache: the size-bounded cache of WHIP and Aperture

    Models [src/whip-server/whip/lru_cache.h] (Aperture has a copy): the template
    [LRUCache] over a key, a data type and a size calculator, with the calculators
    [EntryCountCalculator] and [AssetSizeCalculator].  The [std::list] is a list of nodes
    with an identity, so that the iterators in the index are the identities of nodes and
    stay valid while the node is in the list; using an iterator whose node is gone,
    or the end of an empty list, is [None].  The [std::map] is a finite map.

    The specification is the list of entries, most recently used first. *)
From S2P Require Import Prelude.
From stdpp Require Import list gmap.
#[local] Open Scope Z_scope.

(** ** Size calculators *)

(** What the cache calls, and what it may rely on: the calculator holds the sum of the
    weights of the entries, modulo 2^64. *)
Class SizeCalculator (C Data : Type) := {
  get_size : C -> Z;
  on_add : C -> Data -> C;
  on_remove : C -> Data -> C;
  on_clear : C -> C;
}.

Class CalculatorLaws (C Data : Type) `{SizeCalculator C Data} (weight : Data -> Z) := {
  weight_range d : 0 <= weight d < 2 ^ 32;
  add_size c d : get_size (on_add c d) = u64 (get_size c + weight d);
  remove_size c d : get_size (on_remove c d) = u64 (get_size c - weight d);
  clear_size c : get_size (on_clear c) = 0;
}.

Record EntryCountCalculator := mkCount { _count : Z }.

#[export] Instance entry_count Data : SizeCalculator EntryCountCalculator Data := {
  get_size := _count;
  on_add c _ := mkCount (u64 (_count c + 1));
  on_remove c _ := mkCount (u64 (_count c - 1));
  on_clear _ := mkCount 0;
}.

#[export] Instance entry_count_laws Data : CalculatorLaws EntryCountCalculator Data (fun _ => 1).
Proof. split; cbn; intros; (done || lia). Qed.

(** An asset seen by the calculator: its size, an [unsigned int]. *)
Class Sized (Data : Type) := getSize : Data -> Z.

Record AssetSizeCalculator := mkAssetSize { _size : Z }.

Definition TOTAL_OVERHEAD : Z := 32 + 8.

#[export] Instance asset_size Data `{Sized Data} : SizeCalculator AssetSizeCalculator Data := {
  get_size := _size;
  on_add c d := mkAssetSize (u64 (_size c + u32 (getSize d + TOTAL_OVERHEAD)));
  on_remove c d := mkAssetSize (u64 (_size c - u32 (getSize d + TOTAL_OVERHEAD)));
  on_clear _ := mkAssetSize 0;
}.

#[export] Instance asset_size_laws Data `{Sized Data} : CalculatorLaws AssetSizeCalculator Data (fun d => u32 (getSize d + TOTAL_OVERHEAD)).
Proof. split; cbn; intros; [apply u32_range|done..]. Qed.

(** ** The cache *)

Section cache.
Context {Key Data C : Type} `{EqDecision Key} `{Countable Key} `{SizeCalculator C Data}.

#[local] Notation node := (nat * (Key * Data))%type.

(** [_fresh] is the identity of the next node; it stands for the allocator. *)
Record LRUCache := mkCache { _list : list node; _index : gmap Key nat; _max_size : Z; _calculator : C; _fresh : nat }.

Definition new_cache (calc : C) (Size : Z) : LRUCache := mkCache [] ∅ Size calc 0.

Definition size (c : LRUCache) : Z := Z.of_nat (length (_list c)).

Definition clear (c : LRUCache) : LRUCache := mkCache [] ∅ (_max_size c) (on_clear (_calculator c)) (_fresh c).

Definition exists_ (c : LRUCache) (key : Key) : bool := bool_decide (is_Some (_index c !! key)).

(** The node of an iterator, and the list without it. *)
Fixpoint extract (it : nat) (l : list node) : option ((Key * Data) * list node) :=
  match l with
  | [] => None
  | (i, x) :: l => if decide (i = it) then Some (x, l) else '(y, l') ← extract it l; Some (y, (i, x) :: l')
  end.

(** [_touch]: the iterator found, if any. *)
Definition _touch (c : LRUCache) (key : Key) : option (option nat * LRUCache) :=
  match _index c !! key with
  | None => Some (None, c)
  | Some it =>
      '(x, l) ← extract it (_list c);
      Some (Some it, mkCache ((it, x) :: l) (_index c) (_max_size c) (_calculator c) (_fresh c))
  end.

(** [_remove] of an iterator of the index, which holds [key] and [it]. *)
Definition _remove_iter (c : LRUCache) (key : Key) (it : nat) : option LRUCache :=
  '(x, l) ← extract it (_list c);
  Some (mkCache l (delete key (_index c)) (_max_size c) (on_remove (_calculator c) x.2) (_fresh c)).

(** [_remove] of a key; [_index.find(key)] is dereferenced without a test. *)
Definition _remove (c : LRUCache) (key : Key) : option LRUCache := it ← _index c !! key; _remove_iter c key it.

Definition remove (c : LRUCache) (key : Key) : option LRUCache :=
  match _index c !! key with
  | None => Some c
  | Some it => _remove_iter c key it
  end.

Definition touch (c : LRUCache) (key : Key) : option LRUCache := '(_, c) ← _touch c key; Some c.

(** [fetch_ptr]: what the pointer refers to; the node is moved whatever [touch] says. *)
Definition fetch_ptr (c : LRUCache) (key : Key) (touch : bool) : option (option Data * LRUCache) :=
  match _index c !! key with
  | None => Some (None, c)
  | Some it =>
      '(_, c) ← _touch c key;
      '(x, _) ← extract it (_list c);
      Some (Some x.2, c)
  end.

(** [fetch]: [None] is the default value [Data()]. *)
Definition fetch (c : LRUCache) (key : Key) (touch_data : bool) : option (option Data * LRUCache) :=
  match _index c !! key with
  | None => Some (None, c)
  | Some it =>
      '(x, _) ← extract it (_list c);
      if touch_data then '(_, c) ← _touch c key; Some (Some x.2, c) else Some (Some x.2, c)
  end.

(** The loop that removes the last element while the size is too large. *)
Fixpoint evict_loop (fuel : nat) (c : LRUCache) : option LRUCache :=
  if _max_size c <? get_size (_calculator c) then
    match fuel with
    | O => None
    | S fuel => x ← last (_list c); c ← _remove c x.2.1; evict_loop fuel c
    end
  else Some c.

Definition insert (c : LRUCache) (key : Key) (data : Data) : option LRUCache :=
  '(miter, c) ← _touch c key;
  c ← match miter with Some it => _remove_iter c key it | None => Some c end;
  let liter := _fresh c in
  let c := mkCache ((liter, (key, data)) :: _list c)
             (match _index c !! key with Some _ => _index c | None => <[key := liter]> (_index c) end)
             (_max_size c) (on_add (_calculator c) data) (S liter) in
  evict_loop (length (_list c)) c.

Definition get_all_keys (c : LRUCache) : list Key := map (fun n => n.2.1) (_list c).
End cache.

Arguments LRUCache : clear implicits.
Arguments LRUCache Key Data C {_ _}.

(** ** The specification: the entries, most recently used first *)

Section spec.
Context {Key Data : Type} `{EqDecision Key} (weight : Data -> Z).
#[local] Notation entries := (list (Key * Data)).
Implicit Types (es : entries) (k : Key) (d : Data).

Fixpoint lookup_entry es k : option Data :=
  match es with
  | [] => None
  | (k', d) :: es => if decide (k' = k) then Some d else lookup_entry es k
  end.

Definition del_entry k es : entries := filter (fun e => e.1 <> k) es.

Definition to_front k es : entries := match lookup_entry es k with Some d => (k, d) :: del_entry k es | None => es end.

Fixpoint total es : Z := match es with [] => 0 | e :: es => weight e.2 + total es end.

(** The longest run of most recent entries whose weight is at most [max]. *)
Fixpoint evict (max : Z) es : entries :=
  match es with
  | [] => []
  | e :: es => if weight e.2 <=? max then e :: evict (max - weight e.2) es else []
  end.

Definition put (max : Z) k d es : entries := evict max ((k, d) :: del_entry k es).
Lemma lookup_entry_In es k d : lookup_entry es k = Some d -> (k, d) ∈ es.
Proof using Type.
  induction es as [|[k' d'] es IH]; cbn [lookup_entry]; [done|]. case_decide as Hk; [intros [= ->]; subst; left|]. intros Hi. right. by apply IH.
Qed.

Lemma del_entry_In es k x : x ∈ del_entry k es -> x ∈ es /\ x.1 <> k.
Proof using Type. unfold del_entry. rewrite list_elem_of_filter. tauto. Qed.

Lemma to_front_In es k x : x ∈ to_front k es -> x ∈ es.
Proof using Type.
  unfold to_front. destruct (lookup_entry es k) as [d|] eqn:E; [|done]. intros [->|Hin]%elem_of_cons; [by apply lookup_entry_In|]. by apply del_entry_In in Hin as [? _].
Qed.

Lemma evict_In max es x : x ∈ evict max es -> x ∈ es.
Proof using Type.
  revert max. induction es as [|e es IH]; intros max; cbn [evict]; [done|]. destruct (_ <=? max); [|by intros ?%not_elem_of_nil].
  intros [->|Hin]%elem_of_cons; [left|right; by eapply IH].
Qed.

(** What an insertion keeps. *)
Lemma put_In max k d es x : x ∈ put max k d es -> x = (k, d) \/ x ∈ es.
Proof using Type. intros [->|Hin]%evict_In%elem_of_cons; [by left|]. right. by apply del_entry_In in Hin as [? _]. Qed.
End spec.

Section operations.
Context {Key Data C : Type} `{EqDecision Key} `{Countable Key} `{SizeCalculator C Data}.

Inductive op :=
  | OpInsert (k : Key) (d : Data) | OpFetch (k : Key) (touch_data : bool) | OpFetchPtr (k : Key) (touch : bool) | OpExists (k : Key)
  | OpRemove (k : Key) | OpTouch (k : Key) | OpClear | OpSize | OpKeys.

Inductive obs := ObsUnit | ObsData (d : option Data) | ObsBool (b : bool) | ObsSize (n : Z) | ObsKeys (ks : list Key).

Definition cache_exec (c : LRUCache Key Data C) (o : op) : option (obs * LRUCache Key Data C) :=
  match o with
  | OpInsert k d => c ← insert c k d; Some (ObsUnit, c)
  | OpFetch k t => '(d, c) ← fetch c k t; Some (ObsData d, c)
  | OpFetchPtr k t => '(d, c) ← fetch_ptr c k t; Some (ObsData d, c)
  | OpExists k => Some (ObsBool (exists_ c k), c)
  | OpRemove k => c ← remove c k; Some (ObsUnit, c)
  | OpTouch k => c ← touch c k; Some (ObsUnit, c)
  | OpClear => Some (ObsUnit, clear c)
  | OpSize => Some (ObsSize (size c), c)
  | OpKeys => Some (ObsKeys (get_all_keys c), c)
  end.

Definition spec_exec (weight : Data -> Z) (max : Z) (es : list (Key * Data)) (o : op) : obs * list (Key * Data) :=
  match o with
  | OpInsert k d => (ObsUnit, put weight max k d es)
  | OpFetch k t => (ObsData (lookup_entry es k), if t then to_front k es else es)
  | OpFetchPtr k _ => (ObsData (lookup_entry es k), to_front k es)
  | OpExists k => (ObsBool (bool_decide (is_Some (lookup_entry es k))), es)
  | OpRemove k => (ObsUnit, del_entry k es)
  | OpTouch k => (ObsUnit, to_front k es)
  | OpClear => (ObsUnit, [])
  | OpSize => (ObsSize (Z.of_nat (length es)), es)
  | OpKeys => (ObsKeys (map fst es), es)
  end.

Fixpoint cache_run (c : LRUCache Key Data C) (ops : list op) : option (list obs * LRUCache Key Data C) :=
  match ops with
  | [] => Some ([], c)
  | o :: ops => '(x, c) ← cache_exec c o; '(xs, c) ← cache_run c ops; Some (x :: xs, c)
  end.

Fixpoint spec_run (weight : Data -> Z) (max : Z) (es : list (Key * Data)) (ops : list op) : list obs * list (Key * Data) :=
  match ops with
  | [] => ([], es)
  | o :: ops => let '(x, es) := spec_exec weight max es o in let '(xs, es) := spec_run weight max es ops in (x :: xs, es)
  end.
End operations.

Arguments op : clear implicits.
Arguments obs : clear implicits.

(** ** The invariant *)

Section refinement.
Context {Key Data C : Type} `{EqDecision Key} `{Countable Key} `{SC : SizeCalculator C Data} {weight : Data -> Z} `{!CalculatorLaws C Data weight}.
#[local] Notation cache := (LRUCache Key Data C).
Implicit Types (c : cache) (es : list (Key * Data)) (k : Key) (d : Data).

Definition rep c es : Prop :=
  map snd (_list c) = es /\ NoDup (map fst (_list c)) /\ NoDup (map fst es) /\
  (forall k i, _index c !! k = Some i <-> exists d, (i, (k, d)) ∈ _list c) /\
  (forall i x, (i, x) ∈ _list c -> (i < _fresh c)%nat) /\
  get_size (_calculator c) = u64 (total weight es).

Lemma extract_spec it (x : Key * Data) l : NoDup (map fst l) -> (it, x) ∈ l ->
  exists l1 l2, l = l1 ++ (it, x) :: l2 /\ extract it l = Some (x, l1 ++ l2).
Proof using Type.
  induction l as [|[i y] l IH]; intros Hnd Hin; [by apply not_elem_of_nil in Hin|]. cbn [map] in Hnd. apply NoDup_cons in Hnd as [Hni Hnd].
  cbn [extract]. apply elem_of_cons in Hin as [[= <- <-]|Hin].
  - rewrite decide_True by done. by exists [], l.
  - assert (i <> it) by (intros ->; apply Hni; apply list_elem_of_fmap; by exists (it, x)).
    rewrite decide_False by done. destruct (IH Hnd Hin) as (l1 & l2 & -> & ->). by exists ((i, y) :: l1), l2.
Qed.

Lemma del_entry_absent k es : k ∉ map fst es -> del_entry k es = es.
Proof using Type.
  induction es as [|[k' d] es IH]; intros Hni; [done|]. cbn [map] in Hni. apply not_elem_of_cons in Hni as [Hne Hni].
  unfold del_entry in *. rewrite filter_cons_True by done. by rewrite IH.
Qed.

Lemma lookup_entry_middle es1 es2 k d : k ∉ map fst es1 -> lookup_entry (es1 ++ (k, d) :: es2) k = Some d.
Proof using Type.
  induction es1 as [|[k' d'] es1 IH]; intros Hni; cbn [app lookup_entry]; [by rewrite decide_True|].
  cbn [map] in Hni. apply not_elem_of_cons in Hni as [Hne Hni]. rewrite decide_False by done. by apply IH.
Qed.

Lemma lookup_entry_none es k : k ∉ map fst es -> lookup_entry es k = None.
Proof using Type.
  induction es as [|[k' d'] es IH]; intros Hni; cbn [lookup_entry]; [done|].
  cbn [map] in Hni. apply not_elem_of_cons in Hni as [Hne Hni]. rewrite decide_False by done. by apply IH.
Qed.

Lemma total_app es1 es2 : total weight (es1 ++ es2) = total weight es1 + total weight es2.
Proof using Type. induction es1 as [|e es1 IH]; cbn [app total]; lia. Qed.

(** The two cases of a key: not in the cache, or the entry of one node. *)
Lemma rep_lookup c es k : rep c es ->
  (_index c !! k = None /\ k ∉ map fst es) \/
  (exists it d l1 l2, _index c !! k = Some it /\ _list c = l1 ++ (it, (k, d)) :: l2 /\ extract it (_list c) = Some ((k, d), l1 ++ l2) /\
     lookup_entry es k = Some d /\ del_entry k es = map snd (l1 ++ l2)).
Proof using Type.
  intros (Hl & Hnd & Hnk & Hix & Hfr & Hsz). destruct (_index c !! k) as [it|] eqn:Ek; [right|left].
  - pose proof (proj1 (Hix k it) Ek) as [d Hin]. destruct (extract_spec it (k, d) _ Hnd Hin) as (l1 & l2 & El & Ex).
    exists it, d, l1, l2. split; [done|]. split; [done|]. split; [done|]. rewrite <- Hl, El in Hnk |- *. rewrite map_app in Hnk |- *. cbn [map] in Hnk |- *.
    rewrite map_app in Hnk. cbn [map fst snd] in Hnk. apply NoDup_app in Hnk as (Hn1 & Hd & Hn2). apply NoDup_cons in Hn2 as [Hn2 _].
    assert (Hk1 : k ∉ map fst (map snd l1)) by (intros Hin1; apply (Hd k Hin1); by left).
    split; [by apply lookup_entry_middle|]. unfold del_entry. rewrite filter_app, filter_cons_False by naive_solver.
    pose proof (del_entry_absent k _ Hk1) as E1. pose proof (del_entry_absent k _ Hn2) as E2. unfold del_entry in E1, E2. by rewrite E1, E2, map_app.
  - split; [done|]. intros (e & -> & He)%list_elem_of_fmap. destruct e as [k d]. rewrite <- Hl in He. apply list_elem_of_fmap in He as ([i e] & [= <-] & Hin).
    assert (_index c !! k = Some i) by (apply Hix; by exists d). cbn in Ek. congruence.
Qed.

Lemma total_perm es es' : es ≡ₚ es' -> total weight es = total weight es'.
Proof using Type. induction 1; cbn [total]; lia. Qed.

Lemma rep_perm c es l' : rep c es -> l' ≡ₚ _list c -> rep (mkCache l' (_index c) (_max_size c) (_calculator c) (_fresh c)) (map snd l').
Proof using Type.
  intros (Hl & Hnd & Hnk & Hix & Hfr & Hsz) Hp. unfold rep. cbn. split; [done|].
  assert (Hp2 : map snd l' ≡ₚ es) by (rewrite <- Hl; by apply Permutation_map).
  split; [by rewrite (Permutation_map fst Hp)|]. split; [by rewrite (Permutation_map fst Hp2)|]. split; [intros k i; rewrite Hix; by setoid_rewrite Hp|].
  split; [intros i x; rewrite Hp; apply Hfr|]. by rewrite (total_perm _ _ Hp2).
Qed.

Lemma rep_delete c k d it l1 l2 es : rep c es -> _list c = l1 ++ (it, (k, d)) :: l2 ->
  rep (mkCache (l1 ++ l2) (delete k (_index c)) (_max_size c) (on_remove (_calculator c) d) (_fresh c)) (map snd (l1 ++ l2)).
Proof using CalculatorLaws0.
  intros Hrep El. assert (Hp : (it, (k, d)) :: l1 ++ l2 ≡ₚ _list c) by (rewrite El; apply Permutation_middle).
  destruct (rep_perm c es _ Hrep Hp) as (_ & Hnd & Hnk & Hix & Hfr & Hsz). cbn [_list _index _calculator _fresh map fst snd] in *.
  apply NoDup_cons in Hnd as [Hni Hnd]. apply NoDup_cons in Hnk as [Hnik Hnk]. unfold rep. cbn. split; [done|]. split; [done|]. split; [done|]. split; [|split].
  - intros k' i. destruct (decide (k' = k)) as [->|Hne].
    + rewrite lookup_delete_eq. split; [done|]. intros [d' Hin]. exfalso. apply Hnik. apply list_elem_of_fmap. exists (k, d'). split; [done|].
      apply list_elem_of_fmap. by exists (i, (k, d')).
    + rewrite lookup_delete_ne, Hix by done. split; intros [d' Hin]; exists d'; [by apply elem_of_cons in Hin as [[= ? ? ?]|?]|by right].
  - intros i x Hin. apply (Hfr i x). by right.
  - rewrite remove_size, Hsz. cbn [total snd]. unfold u64. rewrite Zminus_mod_idemp_l. f_equal. lia.
Qed.

Lemma rep_push c es k d : rep c es -> k ∉ map fst es ->
  rep (mkCache ((_fresh c, (k, d)) :: _list c) (match _index c !! k with Some _ => _index c | None => <[k := _fresh c]> (_index c) end)
         (_max_size c) (on_add (_calculator c) d) (S (_fresh c))) ((k, d) :: es).
Proof using CalculatorLaws0.
  intros Hrep Hni. destruct (rep_lookup c es k Hrep) as [[-> _]|(it & d' & l1 & l2 & _ & El & _)].
  2: { exfalso. apply Hni. destruct Hrep as [<- _]. rewrite El, !map_app. apply elem_of_app. right. by left. }
  destruct Hrep as (Hl & Hnd & Hnk & Hix & Hfr & Hsz). unfold rep. cbn [_list _index _calculator _fresh map fst snd total]. rewrite Hl. split; [done|].
  split; [apply NoDup_cons; split; [|done]; intros ([i x] & E & Hin)%list_elem_of_fmap; apply Hfr in Hin; cbn in E; lia|].
  split; [by apply NoDup_cons|]. split; [|split].
  - intros k' i. destruct (decide (k' = k)) as [->|Hne].
    + rewrite lookup_insert_eq. split; [intros [= <-]; exists d; by left|]. intros [d' [[= -> ->]|Hin]%elem_of_cons]; [done|].
      exfalso. apply Hni. rewrite <- Hl. apply list_elem_of_fmap. exists (k, d'). split; [done|]. apply list_elem_of_fmap. by exists (i, (k, d')).
    + rewrite lookup_insert_ne, Hix by done. split; intros [d' Hin]; exists d'; [by right|by apply elem_of_cons in Hin as [[= ? ? ?]|?]].
  - intros i x [[= -> ->]|Hin]%elem_of_cons; [lia|]. apply Hfr in Hin. lia.
  - rewrite add_size, Hsz. unfold u64. rewrite Zplus_mod_idemp_l. f_equal. lia.
Qed.

Lemma touch_rep c es k : rep c es -> exists it c', _touch c k = Some (it, c') /\ rep c' (to_front k es) /\ _max_size c' = _max_size c /\
  it = _index c !! k /\ _index c' = _index c /\ (forall i, it = Some i -> exists d l, _list c' = (i, (k, d)) :: l /\ lookup_entry es k = Some d /\ map snd l = del_entry k es).
Proof using CalculatorLaws0.
  intros Hrep. unfold _touch, to_front. destruct (rep_lookup c es k Hrep) as [[-> Hni]|(it & d & l1 & l2 & -> & El & -> & Hlk & Hdel)].
  - rewrite lookup_entry_none by done. by exists None, c.
  - rewrite Hlk, Hdel. cbn [mbind option_bind]. eexists _, _. split; [done|]. split; [|split; [done|split; [done|split; [done|]]]].
    + apply (rep_perm c es ((it, (k, d)) :: l1 ++ l2)); [done|]. rewrite El. apply Permutation_middle.
    + intros i [= <-]. by exists d, (l1 ++ l2).
Qed.

Lemma remove_iter_rep c es k it : rep c es -> _index c !! k = Some it -> exists c', _remove_iter c k it = Some c' /\ rep c' (del_entry k es) /\ _max_size c' = _max_size c /\
  _index c' !! k = None.
Proof using CalculatorLaws0.
  intros Hrep Hk. destruct (rep_lookup c es k Hrep) as [[Hn _]|(it' & d & l1 & l2 & Hk' & El & Hx & Hlk & Hdel)]; [congruence|].
  assert (it' = it) as -> by congruence. unfold _remove_iter. rewrite Hx, Hdel. cbn [mbind option_bind]. eexists. split; [done|].
  split; [by apply (rep_delete c k d it l1 l2 es)|]. split; [done|]. cbn. apply lookup_delete_eq.
Qed.

Lemma total_nonneg es : 0 <= total weight es.
Proof using CalculatorLaws0. induction es as [|e es IH]; cbn [total]; [lia|]. pose proof (weight_range e.2). lia. Qed.

Lemma evict_all max es : total weight es <= max -> evict weight max es = es.
Proof using CalculatorLaws0.
  revert max. induction es as [|e es IH]; intros max Hle; cbn [evict total] in *; [done|]. pose proof (total_nonneg es). pose proof (weight_range e.2).
  rewrite (proj2 (Z.leb_le _ _)) by lia. rewrite IH by lia. done.
Qed.

Lemma evict_snoc max es e : max < total weight (es ++ [e]) -> evict weight max (es ++ [e]) = evict weight max es.
Proof using CalculatorLaws0.
  revert max. induction es as [|e' es IH]; intros max Hlt; cbn [app evict total] in *.
  - by rewrite (proj2 (Z.leb_gt _ _)) by lia.
  - case_bool; [|done]. rewrite IH by lia. done.
Qed.

Lemma evict_total max es : 0 <= max -> total weight (evict weight max es) <= max.
Proof using CalculatorLaws0.
  revert max. induction es as [|e es IH]; intros max H0; cbn [evict total]; [lia|]. destruct (Z.leb_spec (weight e.2) max) as [Hle|Hgt]; cbn [total]; [|lia].
  specialize (IH (max - weight e.2)). lia.
Qed.

Lemma del_entry_total k es : total weight (del_entry k es) <= total weight es.
Proof using CalculatorLaws0.
  unfold del_entry. induction es as [|e es IH]; [done|]. pose proof (weight_range e.2). rewrite filter_cons. case_decide; cbn [total]; lia.
Qed.

Lemma del_entry_last k d es : NoDup (map fst (es ++ [(k, d)])) -> del_entry k (es ++ [(k, d)]) = es.
Proof using Type.
  rewrite map_app. intros (_ & Hd & _)%NoDup_app. unfold del_entry. rewrite filter_app, filter_cons_False by naive_solver. rewrite filter_nil, app_nil_r.
  apply del_entry_absent. intros Hin. apply (Hd k Hin). by left.
Qed.

Lemma evict_loop_rep fuel : forall c es, rep c es -> 0 <= _max_size c -> total weight es < 2 ^ 64 -> (length es <= fuel)%nat ->
  exists c', evict_loop fuel c = Some c' /\ rep c' (evict weight (_max_size c) es) /\ _max_size c' = _max_size c.
Proof using CalculatorLaws0.
  induction fuel as [|fuel IH]; intros c es Hrep Hmax Htot Hlen; cbn [evict_loop]; pose proof Hrep as (Hl & _ & Hnk & Hix & _ & ->);
    rewrite u64_small by (unfold is_u64; pose proof (total_nonneg es); lia).
  - destruct es; [|simpl in Hlen; lia]. cbn [total]. rewrite (proj2 (Z.ltb_ge _ _)) by lia. by exists c.
  - destruct (Z.ltb_spec (_max_size c) (total weight es)) as [Hlt|Hge]; [|exists c; by rewrite evict_all by lia].
    destruct (_list c) as [|[i [k d]] l _] eqn:El using rev_ind; [rewrite <- Hl in Hlt; cbn in Hlt; lia|].
    rewrite last_snoc. cbn [mbind option_bind snd fst].
    assert (Hk : _index c !! k = Some i) by (apply Hix; exists d; apply elem_of_app; right; by left).
    unfold _remove. rewrite Hk. cbn [mbind option_bind]. destruct (remove_iter_rep c es k i Hrep Hk) as (c1 & -> & Hrep1 & Hm1 & _).
    cbn [mbind option_bind]. rewrite map_app in Hl. cbn [map snd] in Hl. rewrite <- Hl in Hrep1, Hnk, Hlt, Htot, Hlen |- *.
    rewrite del_entry_last in Hrep1 by done. rewrite length_app in Hlen. rewrite total_app in Htot. cbn [length total snd] in Hlen, Htot.
    pose proof (weight_range d). destruct (IH c1 (map snd l) Hrep1) as (c2 & -> & Hrep2 & Hm2); [lia|lia|lia|].
    exists c2. split; [done|]. rewrite evict_snoc by (by rewrite total_app in Hlt |- *). rewrite Hm1 in Hrep2. split; [done|congruence].
Qed.

Lemma to_front_del k es : NoDup (map fst es) -> del_entry k (to_front k es) = del_entry k es.
Proof using Type.
  intros _. unfold to_front. destruct (lookup_entry es k) as [d|]; [|done]. unfold del_entry. rewrite filter_cons_False by naive_solver.
  rewrite list_filter_filter. apply list_filter_iff. naive_solver.
Qed.

Lemma del_entry_fresh k es : k ∉ map fst (del_entry k es).
Proof using Type. intros (e & E & [Hne _]%list_elem_of_filter)%list_elem_of_fmap. done. Qed.

Lemma insert_rep c es k d : rep c es -> 0 <= _max_size c -> _max_size c + 2 ^ 32 <= 2 ^ 64 -> total weight es <= _max_size c ->
  exists c', insert c k d = Some c' /\ rep c' (put weight (_max_size c) k d es) /\ _max_size c' = _max_size c.
Proof using CalculatorLaws0.
  intros Hrep Hmax Hbig Htot. unfold insert. destruct (touch_rep c es k Hrep) as (it & c1 & -> & Hrep1 & Hm1 & Hit & Hix & _). cbn [mbind option_bind].
  assert (Hrem : exists c2, match it with Some it => _remove_iter c1 k it | None => Some c1 end = Some c2 /\ rep c2 (del_entry k es) /\ _max_size c2 = _max_size c).
  { destruct it as [it|].
    - destruct (remove_iter_rep c1 _ k it Hrep1) as (c2 & -> & Hrep2 & Hm2 & _); [congruence|]. exists c2. split; [done|].
      rewrite to_front_del in Hrep2 by apply Hrep. split; [done|congruence].
    - exists c1. destruct (rep_lookup c es k Hrep) as [[_ Hni]|(it & d' & l1 & l2 & Hk & _)]; [|congruence]. split; [done|]. split; [|done].
      unfold to_front in Hrep1. rewrite lookup_entry_none in Hrep1 by done. by rewrite del_entry_absent. }
  destruct Hrem as (c2 & -> & Hrep2 & Hm2). cbn [mbind option_bind]. pose proof (rep_push c2 _ k d Hrep2 (del_entry_fresh k es)) as Hrep3.
  set (c3 := mkCache ((_fresh c2, (k, d)) :: _list c2) _ _ _ _) in *. destruct (evict_loop_rep (length (_list c3)) c3 _ Hrep3) as (c4 & -> & Hrep4 & Hm4).
  - cbn. lia.
  - cbn [total snd]. pose proof (weight_range d). pose proof (del_entry_total k es). lia.
  - destruct Hrep3 as [<- _]. by rewrite length_map.
  - exists c4. split; [done|]. unfold put. cbn [_max_size c3] in Hrep4, Hm4. rewrite Hm2 in Hrep4, Hm4. done.
Qed.

Lemma to_front_total k es : NoDup (map fst es) -> total weight (to_front k es) = total weight es.
Proof using Type.
  unfold to_front. induction es as [|[k' d'] es IH]; intros Hnd; [done|]. cbn [map fst] in Hnd. apply NoDup_cons in Hnd as [Hni Hnd]. cbn [lookup_entry].
  destruct (decide (k' = k)) as [->|Hne].
  - unfold del_entry. rewrite filter_cons_False by naive_solver. fold (del_entry k es). by rewrite del_entry_absent.
  - specialize (IH Hnd). destruct (lookup_entry es k) as [d|]; [|done]. unfold del_entry in *. rewrite filter_cons_True by done. cbn [total snd] in *. lia.
Qed.

(** One operation of the cache does what the specification does. *)
Lemma exec_rep c es o : rep c es -> 0 <= _max_size c -> _max_size c + 2 ^ 32 <= 2 ^ 64 -> total weight es <= _max_size c ->
  let '(x, es') := spec_exec weight (_max_size c) es o in
  exists c', cache_exec c o = Some (x, c') /\ rep c' es' /\ _max_size c' = _max_size c /\ total weight es' <= _max_size c.
Proof using CalculatorLaws0.
  intros Hrep Hmax Hbig Htot. assert (Hnk : NoDup (map fst es)) by apply Hrep. destruct o as [k d|k t|k t|k|k|k| | |]; cbn [spec_exec cache_exec].
  - destruct (insert_rep c es k d Hrep Hmax Hbig Htot) as (c' & -> & Hrep' & Hm). exists c'. split_and!; try done. by apply evict_total.
  - unfold fetch. destruct (touch_rep c es k Hrep) as (it & c1 & Ht & Hrep1 & Hm1 & _).
    destruct (rep_lookup c es k Hrep) as [[-> Hni]|(it' & d & l1 & l2 & -> & El & -> & Hlk & Hdel)].
    + rewrite lookup_entry_none by done. exists c. split; [done|]. unfold to_front. rewrite lookup_entry_none by done. by destruct t.
    + rewrite Hlk. cbn [mbind option_bind snd]. destruct t.
      * rewrite Ht. exists c1. split; [done|]. split; [done|]. split; [done|]. by rewrite to_front_total.
      * by exists c.
  - unfold fetch_ptr. destruct (touch_rep c es k Hrep) as (it & c1 & Ht & Hrep1 & Hm1 & Hit & _ & Hl1).
    destruct (_index c !! k) as [i|] eqn:Ek.
    + rewrite Ht. cbn [mbind option_bind]. destruct (Hl1 i Hit) as (d & l & El & Hlk & _). rewrite El, Hlk. cbn [extract]. rewrite decide_True by done.
      exists c1. split; [done|]. split; [done|]. split; [done|]. by rewrite to_front_total.
    + destruct (rep_lookup c es k Hrep) as [[_ Hni]|(it' & d & l1 & l2 & Hk & _)]; [|congruence]. unfold to_front. rewrite lookup_entry_none by done.
      by exists c.
  - exists c. split; [|done]. unfold exists_. do 2 f_equal. destruct (rep_lookup c es k Hrep) as [[-> Hni]|(it & d & l1 & l2 & -> & El & _ & -> & _)].
    + by rewrite lookup_entry_none by done.
    + by rewrite !bool_decide_true by eauto.
  - unfold remove. destruct (_index c !! k) as [it|] eqn:Ek.
    + destruct (remove_iter_rep c es k it Hrep Ek) as (c1 & -> & Hrep1 & Hm1 & _). exists c1. split_and!; try done. pose proof (del_entry_total k es). lia.
    + destruct (rep_lookup c es k Hrep) as [[_ Hni]|(it' & d & l1 & l2 & Hk & _)]; [|congruence]. rewrite del_entry_absent by done. by exists c.
  - unfold touch. destruct (touch_rep c es k Hrep) as (it & c1 & -> & Hrep1 & Hm1 & _). exists c1. split_and!; try done. by rewrite to_front_total.
  - eexists. split; [done|]. split; [|by split]. unfold rep. cbn. rewrite clear_size. split_and!; try done; try apply NoDup_nil_2.
    + intros k i. rewrite lookup_empty. split; [done|]. intros [d Hin]. by apply not_elem_of_nil in Hin.
    + intros i x Hin. by apply not_elem_of_nil in Hin.
  - exists c. split; [|done]. unfold size. do 3 f_equal. destruct Hrep as [<- _]. by rewrite length_map.
  - exists c. split; [|done]. unfold get_all_keys. do 3 f_equal. destruct Hrep as [<- _]. by rewrite map_map.
Qed.

Lemma run_rep ops : forall c es, rep c es -> 0 <= _max_size c -> _max_size c + 2 ^ 32 <= 2 ^ 64 -> total weight es <= _max_size c ->
  let '(xs, es') := spec_run weight (_max_size c) es ops in
  exists c', cache_run c ops = Some (xs, c') /\ rep c' es' /\ _max_size c' = _max_size c /\ total weight es' <= _max_size c.
Proof using CalculatorLaws0.
  induction ops as [|o ops IH]; intros c es Hrep Hmax Hbig Htot; cbn [spec_run cache_run]; [by exists c|].
  pose proof (exec_rep c es o Hrep Hmax Hbig Htot) as He. destruct (spec_exec weight (_max_size c) es o) as [x es1].
  destruct He as (c1 & -> & Hrep1 & Hm1 & Ht1). cbn [mbind option_bind]. specialize (IH c1 es1 Hrep1). rewrite Hm1 in IH. specialize (IH Hmax Hbig Ht1).
  destruct (spec_run weight (_max_size c) es1 ops) as [xs es2]. destruct IH as (c2 & -> & Hrep2 & Hm2 & Ht2). by exists c2.
Qed.

Lemma new_cache_rep calc max : get_size calc = 0 -> rep (new_cache calc max) [].
Proof using Type.
  intros H0. unfold rep. cbn. split_and!; try done; try apply NoDup_nil_2.
  - intros k i. rewrite lookup_empty. split; [done|]. intros [d Hin]. by apply not_elem_of_nil in Hin.
  - intros i x Hin. by apply not_elem_of_nil in Hin.
Qed.

(** C30. The cache refines the list of its entries in the order of their last use.  For any
    calculator that satisfies its laws and any sequence of operations on a new cache, no
    operation uses an invalid iterator and the eviction loop ends; every result
    (values found, existence, size, keys from the most to the least recently used) is that
    of the list; an insertion replaces the entry of its key, moves it to the front and keeps
    the longest run of most recent entries that fits; and the weight kept never exceeds
    the limit, which is what the calculator reports. *)
Theorem lru_refines_recency calc max (ops : list (op Key Data)) :
  get_size calc = 0 -> 0 <= max -> max + 2 ^ 32 <= 2 ^ 64 ->
  exists xs es c', spec_run weight max [] ops = (xs, es) /\ cache_run (new_cache calc max) ops = Some (xs, c') /\
    total weight es <= max /\ get_size (_calculator c') = total weight es.
Proof using CalculatorLaws0.
  intros H0 Hmax Hbig. pose proof (run_rep ops (new_cache calc max) [] (new_cache_rep calc max H0) Hmax Hbig Hmax) as Hr. cbn [_max_size new_cache] in Hr.
  destruct (spec_run weight max [] ops) as [xs es]. destruct Hr as (c' & Hr & Hrep & _ & Ht). exists xs, es, c'. split; [done|]. split; [done|]. split; [done|].
  destruct Hrep as (_ & _ & _ & _ & _ & ->). apply u64_small. unfold is_u64. pose proof (total_nonneg es). lia.
Qed.
End refinement.

(** Three insertions in a cache for two entries, with the first one used in between. *)
Definition demo_ops : list (op Z Z) := [OpInsert 1 10; OpInsert 2 20; OpFetch 1 true; OpInsert 3 30; OpExists 2; OpKeys].

Lemma lru_refines_recency_witness :
  exists c', cache_run (new_cache (mkCount 0) 2) demo_ops =
    Some ([ObsUnit; ObsUnit; ObsData (Some 10); ObsUnit; ObsBool false; ObsKeys [3; 1]], c') /\ _count (_calculator c') = 2.
Proof.
  destruct (lru_refines_recency (weight := fun _ => 1) (mkCount 0) 2 demo_ops) as (xs & es & c' & Hs & Hr & _ & Hg); [reflexivity|lia|lia|].
  vm_compute in Hs. injection Hs as <- <-. exists c'. split; [exact Hr|]. exact Hg.
Defined.
