(* ===== verification/WhipWire.v ===== *)
(** * WhipWire: assets and messages of the WHIP protocol

    Models the messages of [src/whip-server/whip]: [Asset], [Validator],
    [ClientRequestMsg], [ServerResponseMsg], [AuthChallengeMsg], [AuthResponseMsg],
    [AuthStatusMsg] and [IntraMeshMsg].  A [byte_array] and a [std::string] are lists of
    bytes; an access outside the array is [None].  Lengths travel in network byte order:
    the code stores [htonl(n)] through a pointer, which on a little-endian machine leaves the
    big-endian bytes of [n].  [AuthResponseMsg] uses the SHA-1 of [Sha1].  The random phrase
    of a challenge and the password of the settings are arguments. *)
From S2P Require Import Prelude Sha1.
From stdpp Require Import list.
#[local] Open Scope Z_scope.

#[local] Arguments Z.of_nat : simpl never.
#[local] Arguments Z.to_nat : simpl never.

(** ** Network byte order *)

Definition htonl_bytes (n : Z) : list Z := [u8 (n / 2 ^ 24); u8 (n / 2 ^ 16); u8 (n / 2 ^ 8); u8 n].

(** [ntohl] of the four bytes at [i]. *)
Definition ntohl_at (a : list Z) (i : nat) : option Z :=
  b0 ← a !! i; b1 ← a !! (i + 1)%nat; b2 ← a !! (i + 2)%nat; b3 ← a !! (i + 3)%nat;
  Some (2 ^ 24 * b0 + 2 ^ 16 * b1 + 2 ^ 8 * b2 + b3).

(** [*((unsigned int* )&a[i]) = htonl(n)]. *)
Definition store_htonl (a : list Z) (i : nat) (n : Z) : option (list Z) :=
  if (i + 4 <=? length a)%nat then Some (take i a ++ htonl_bytes n ++ drop (i + 4) a) else None.

(** [std::string((char* )&a[i], n)]. *)
Definition bytes_at (a : list Z) (i n : nat) : option (list Z) :=
  if (i + n <=? length a)%nat then Some (take n (drop i a)) else None.

Lemma ntohl_htonl pre n post : is_u32 n -> ntohl_at (pre ++ htonl_bytes n ++ post) (length pre) = Some n.
Proof.
  intros Hn. unfold ntohl_at.
  assert (Hk : forall k, (pre ++ htonl_bytes n ++ post) !! (length pre + k)%nat = (htonl_bytes n ++ post) !! k)
    by (intros k; rewrite lookup_app_r by lia; f_equal; lia).
  pose proof (Hk 0%nat) as H0. rewrite Nat.add_0_r in H0. rewrite H0, (Hk 1%nat), (Hk 2%nat), (Hk 3%nat).
  unfold htonl_bytes. cbn [app lookup list_lookup mbind option_bind]. f_equal. unfold u8, is_u32 in *. change (2 ^ 32) with 4294967296 in Hn.
  change (2 ^ 24) with 16777216. change (2 ^ 16) with 65536. change (2 ^ 8) with 256. dlia.
Qed.

Lemma bytes_at_app pre x post : bytes_at (pre ++ x ++ post) (length pre) (length x) = Some x.
Proof.
  unfold bytes_at. rewrite (proj2 (Nat.leb_le _ _)) by (rewrite !length_app; lia). rewrite drop_app_length, take_app_length. done.
Qed.

(** ** Assets and UUIDs *)

Definition UUID_LEN : nat := 32.

Definition uuid_char (ch : Z) : bool := negb (((ch <? 48) || (57 <? ch)) && ((ch <? 97) || (102 <? ch))).

Definition IsValidUUID (uuid : list Z) : bool := (length uuid =? UUID_LEN)%nat && forallb uuid_char uuid.

Module Asset.
Definition getUUID (a : list Z) : option (list Z) := bytes_at a 0 32.
Definition getSize (a : list Z) : Z := Z.of_nat (length a).
Definition isLocal (a : list Z) : option bool := b ← a !! 33%nat; Some (b =? 1).
Definition getType (a : list Z) : option Z := a !! 32%nat.
End Asset.

(** ** Requests *)

Module ClientRequestMsg.
Inductive RequestType := RT_GET | RT_PUT | RT_PURGE | RT_TEST | RT_MAINT_PURGELOCALS | RT_STATUS_GET | RT_STORED_ASSET_IDS_GET | RT_GET_DONTCACHE.

Definition code (t : RequestType) : Z :=
  match t with
  | RT_GET => 10 | RT_PUT => 11 | RT_PURGE => 12 | RT_TEST => 13 | RT_MAINT_PURGELOCALS => 14 | RT_STATUS_GET => 15
  | RT_STORED_ASSET_IDS_GET => 16 | RT_GET_DONTCACHE => 17
  end.

Definition HEADER_SIZE : nat := 37.
Definition DATA_SIZE_MARKER_LOC : nat := 33.

Record t := mk { header : list Z; data : option (list Z) }.

(** The constructors: an empty message for reading, a request about an asset, a put. *)
Definition new : t := mk (replicate HEADER_SIZE 0) None.
Definition new_get (type : RequestType) (uuid : list Z) : t := mk (code type :: uuid ++ [0; 0; 0; 0]) None.
Definition new_put (asset : list Z) : option t :=
  assetId ← Asset.getUUID asset;
  h ← store_htonl (code RT_PUT :: assetId ++ [0; 0; 0; 0]) DATA_SIZE_MARKER_LOC (u32 (Asset.getSize asset));
  Some (mk h (Some asset)).

(** [getType]: [inl] is the exception [RequestError]. *)
Definition getType (m : t) : unit + RequestType :=
  match header m with
  | [] => inl tt
  | b :: _ =>
      if (b <? 10) || (17 <? b) then inl tt
      else inr (if b =? 10 then RT_GET else if b =? 11 then RT_PUT else if b =? 12 then RT_PURGE else if b =? 13 then RT_TEST
                else if b =? 14 then RT_MAINT_PURGELOCALS else if b =? 15 then RT_STATUS_GET
                else if b =? 16 then RT_STORED_ASSET_IDS_GET else RT_GET_DONTCACHE)
  end.

Definition getUUID (m : t) : option (list Z) := bytes_at (header m) 1 32.
Definition getDataSize (m : t) : option Z := ntohl_at (header m) DATA_SIZE_MARKER_LOC.
Definition initDataStorageFromHeader (m : t) : option t := n ← getDataSize m; Some (mk (header m) (Some (replicate (Z.to_nat n) 0))).
End ClientRequestMsg.

(** ** Responses *)

Module ServerResponseMsg.
Inductive ResponseCode := RC_FOUND | RC_NOTFOUND | RC_ERROR | RC_OK.

Definition code (c : ResponseCode) : Z := match c with RC_FOUND => 10 | RC_NOTFOUND => 11 | RC_ERROR => 12 | RC_OK => 13 end.

Definition HEADER_SIZE : nat := 37.
Definition DATA_LEN_MARKER_LOC : nat := 33.
Definition RESPONSE_CODE_MARKER_LOC : nat := 0.

Record t := mk { header : list Z; data : option (list Z) }.

Definition setupHeader (c : ResponseCode) (assetUUID : list Z) (dataLen : Z) : option (list Z) :=
  store_htonl (code c :: assetUUID ++ [0; 0; 0; 0]) DATA_LEN_MARKER_LOC dataLen.

Definition new : t := mk (replicate HEADER_SIZE 0) None.
Definition new_code (c : ResponseCode) (assetUUID : list Z) : option t := h ← setupHeader c assetUUID 0; Some (mk h None).

(** With data; [numeric_cast] throws ([None]) when the size does not fit. *)
Definition new_data (c : ResponseCode) (assetUUID d : list Z) : option t :=
  if Z.of_nat (length d) <? 2 ^ 32 then h ← setupHeader c assetUUID (Z.of_nat (length d)); Some (mk h (Some d)) else None.

Definition getResponseCode (m : t) : option Z := header m !! RESPONSE_CODE_MARKER_LOC.
Definition validateHeader (m : t) : option bool :=
  if negb (length (header m) =? HEADER_SIZE)%nat then Some false
  else c ← getResponseCode m; Some (negb ((c <? code RC_FOUND) || (code RC_OK <? c))).
Definition getDataSize (m : t) : option Z := ntohl_at (header m) DATA_LEN_MARKER_LOC.
Definition initializeDataStorage (m : t) : option t := n ← getDataSize m; Some (mk (header m) (Some (replicate (Z.to_nat n) 0))).
Definition getUUID (m : t) : option (list Z) := bytes_at (header m) 1 32.
End ServerResponseMsg.

(** ** Authentication *)

Module AuthChallengeMsg.
Definition PHRASE_SIZE : nat := 7.
Definition PACKET_IDENTIFIER : Z := 0.
Definition MESSAGE_SIZE : nat := 8.

(** An outbound challenge with its random phrase, and the storage of an inbound one. *)
Definition outbound (phrase : list Z) : list Z := PACKET_IDENTIFIER :: take PHRASE_SIZE phrase.
Definition inbound : list Z := replicate MESSAGE_SIZE 0.
Definition getPhrase (data : list Z) : option (list Z) := bytes_at data 1 PHRASE_SIZE.
End AuthChallengeMsg.

Module AuthResponseMsg.
Definition PACKET_IDENTIFIER : Z := 0.
Definition SERVER_IDENTIFIER : Z := 100.
Definition RESPONSE_SIZE : nat := 40.
Definition MESSAGE_SIZE : nat := 41.

(** A fresh [CSHA1] object; what its arrays hold does not matter. *)
Definition sha_object : CSHA1 := Reset (mkSHA1 [] (0, 0) (replicate 64 0) []).

Definition calculateChallengeResponse (phrase password : list Z) : option (list Z) :=
  sha ← Update sha_object (password ++ phrase);
  sha ← Final sha;
  Some (ReportHashStl sha).

(** The response of a server to the challenge of another, and the storage of an inbound one. *)
Definition outbound (challenge password : list Z) : option (list Z) :=
  h ← calculateChallengeResponse challenge password; Some (SERVER_IDENTIFIER :: h).
Definition inbound : list Z := replicate MESSAGE_SIZE 0.

Definition getChallengeResponse (data : list Z) : option (list Z) := bytes_at data 1 RESPONSE_SIZE.
Definition isServerResponse (data : list Z) : option bool := b ← data !! 0%nat; Some (b =? SERVER_IDENTIFIER).

Definition isValid (data authChallenge password : list Z) : option bool :=
  b ← data !! 0%nat;
  if negb (b =? PACKET_IDENTIFIER) && negb (b =? SERVER_IDENTIFIER) then Some false
  else
    phrase ← AuthChallengeMsg.getPhrase authChallenge;
    correctHash ← calculateChallengeResponse phrase password;
    r ← getChallengeResponse data;
    Some (bool_decide (correctHash = r)).
End AuthResponseMsg.

Module AuthStatusMsg.
Inductive AuthStatus := AS_AUTH_SUCCESS | AS_AUTH_FAILURE.
Definition code (s : AuthStatus) : Z := match s with AS_AUTH_SUCCESS => 0 | AS_AUTH_FAILURE => 1 end.
Definition PACKET_IDENTIFIER : Z := 1.
Definition MESSAGE_SIZE : nat := 2.
Definition outbound (s : AuthStatus) : list Z := [PACKET_IDENTIFIER; code s].
Definition getAuthStatus (data : list Z) : option Z := data !! 1%nat.
Definition validate (data : list Z) : bool :=
  match data with
  | [p; s] => (p =? PACKET_IDENTIFIER) && ((s =? code AS_AUTH_SUCCESS) || (s =? code AS_AUTH_FAILURE))
  | _ => false
  end.
End AuthStatusMsg.

(** ** Messages between servers *)

Module IntraMeshMsg.
Inductive QueryResult := QR_NOTFOUND | QR_FOUND | QR_ERROR.
Definition result_code (r : QueryResult) : Z := match r with QR_NOTFOUND => 0 | QR_FOUND => 1 | QR_ERROR => 2 end.

Definition MESH_QUERY : Z := 0.
Definition MESH_RESPONSE : Z := 1.
Definition STATUS_HEARTBEAT : Z := 2.
Definition MAX_PACKET : nat := 38.
Definition MESH_RESPONSE_CODE_LOC : nat := 33.
Definition HEARTBEAT_FLAGS_LOC : nat := 1.

(** [_data.resize(MAX_PACKET)]. *)
Definition resize (d : list Z) : list Z := take MAX_PACKET (d ++ replicate MAX_PACKET 0).

Definition query (assetUUID : list Z) : list Z := resize (MESH_QUERY :: assetUUID).
Definition response (assetUUID : list Z) (r : QueryResult) : list Z := resize (MESH_RESPONSE :: assetUUID ++ [result_code r]).
Definition heartbeat (mask : Z) : option (list Z) := d ← store_htonl [STATUS_HEARTBEAT; 0; 0; 0; 0] HEARTBEAT_FLAGS_LOC (u32 mask); Some (resize d).

Definition getRequestType (d : list Z) : option Z := d !! 0%nat.
Definition getQueryResult (d : list Z) : option Z := d !! MESH_RESPONSE_CODE_LOC.
Definition getHeartbeatFlags (d : list Z) : option Z := n ← ntohl_at d HEARTBEAT_FLAGS_LOC; Some (i32 n).
Definition getAssetUUID (d : list Z) : option (list Z) := bytes_at d HEARTBEAT_FLAGS_LOC UUID_LEN.

Definition validate (d : list Z) : option bool :=
  t ← getRequestType d;
  if (t =? MESH_QUERY) || (t =? MESH_RESPONSE) then
    if (length d =? MAX_PACKET)%nat then u ← getAssetUUID d; Some (IsValidUUID u) else Some false
  else if t =? STATUS_HEARTBEAT then Some (length d =? MAX_PACKET)%nat
  else Some false.
End IntraMeshMsg.
