(* ===== verification/Uuid.v ===== *)
(** * Uuid: the binary form of asset ids

    Models [uuid_t] of [src/whip-server/ooid/kashmir/uuid.h] as the WHIP storage uses it: the
    constructor from a C string, which extracts 32 hexadecimal digits from a string stream
    ([get], with the dashes of the standard form commented out), the insertion into a
    stream ([put]) and the order of its 16 octets.  The stream is the list of the characters that
    remain; white space and letter case are those of the "C" locale.  The set of existing
    assets is a [std::set] of these values. *)
From S2P Require Import Prelude Sha1 WhipWire.
From stdpp Require Import list.
#[local] Open Scope Z_scope.

#[local] Arguments Z.mul : simpl never.
#[local] Arguments Z.add : simpl never.

Definition isspace (c : Z) : bool := ((9 <=? c) && (c <=? 13)) || (c =? 32).
Definition tolower (c : Z) : Z := if (65 <=? c) && (c <=? 90) then c + 32 else c.

(** The characters before the terminating zero. *)
Fixpoint c_str (s : list Z) : list Z :=
  match s with [] => [] | c :: s => if c =? 0 then [] else c :: c_str s end.

Fixpoint skipws (s : list Z) : list Z :=
  match s with [] => [] | c :: r => if isspace c then skipws r else s end.

(** [is >> c]; [None] sets the failure bit. *)
Definition extract_char (s : list Z) : option (Z * list Z) :=
  match skipws s with [] => None | c :: r => Some (c, r) end.

Definition hexdigits : list Z := [48; 49; 50; 51; 52; 53; 54; 55; 56; 57; 97; 98; 99; 100; 101; 102].

(** [std::find(hexdigits, npos, c)]: the distance to the match, [None] at [npos]. *)
Fixpoint find_from (l : list Z) (i c : Z) : option Z :=
  match l with [] => None | x :: l => if x =? c then Some i else find_from l (i + 1) c end.
Definition find_digit (c : Z) : option Z := find_from hexdigits 0 c.

(** The loop over the octets that remain; [None] is the exception that a stream in a failed
    state raises at its end.  An extraction that fails leaves [c] alone, but the stream has
    failed then.  Only the first digit of an octet is lowered. *)
Fixpoint get_octets (n : nat) (s : list Z) : option (list Z) :=
  match n with
  | O => Some []
  | S n =>
      '(c, s) ← extract_char s;
      hi ← find_digit (tolower c);
      '(c, s) ← extract_char s;
      lo ← find_digit c;
      rest ← get_octets n s;
      Some (Z.lor (u8 (Z.shiftl hi 4)) lo :: rest)
  end.

(** [uuid_t(const char* )]: a stream with nothing but white space leaves the octets as they
    were, which is uninitialised memory here. *)
Inductive uuid_result := UuidValue (d : list Z) | UuidThrow | UuidUninitialised.

Definition uuid_t (s : list Z) : uuid_result :=
  match skipws (c_str s) with
  | [] => UuidUninitialised
  | r => match get_octets 16 r with Some d => UuidValue d | None => UuidThrow end
  end.

(** [put] into a stream without a width: two digits per octet. *)
Definition put (d : list Z) : list Z := concat (map (fun x => [hex_digit (x / 16); hex_digit (x mod 16)]) d).

(** [operator<], [std::lexicographical_compare]. *)
Fixpoint uuid_lt (d e : list Z) : bool :=
  match d, e with
  | _, [] => false
  | [], _ :: _ => true
  | x :: d, y :: e => if x <? y then true else if y <? x then false else uuid_lt d e
  end.

(** ** Correctness *)

Definition uuid_value (c : Z) : Z := if c <? 58 then c - 48 else c - 87.

Lemma find_digit_spec c : uuid_char c = true ->
  find_digit c = Some (uuid_value c) /\ tolower c = c /\ isspace c = false /\ c <> 0 /\ 0 <= uuid_value c < 16 /\ hex_digit (uuid_value c) = c.
Proof.
  intros Hc. assert (Hin : c ∈ hexdigits).
  { unfold uuid_char in Hc. apply negb_true_iff, andb_false_iff in Hc as [Hc|Hc]; apply orb_false_elim in Hc as [? ?]; zbool;
    unfold hexdigits; rewrite !elem_of_cons; lia. }
  unfold hexdigits in Hin. repeat (apply elem_of_cons in Hin as [->|Hin]; [by vm_compute|]). by apply not_elem_of_nil in Hin.
Qed.

Lemma uuid_char_hex x : 0 <= x < 16 -> uuid_char (hex_digit x) = true /\ uuid_value (hex_digit x) = x.
Proof.
  intros Hx. assert (Hin : x ∈ seqZ 0 16) by (apply elem_of_seqZ; lia). vm_compute in Hin.
  repeat (apply elem_of_cons in Hin as [->|Hin]; [by vm_compute|]). by apply not_elem_of_nil in Hin.
Qed.

Lemma octet_join hi lo : 0 <= hi < 16 -> 0 <= lo < 16 -> Z.lor (u8 (Z.shiftl hi 4)) lo = 16 * hi + lo.
Proof.
  intros Hh Hl. rewrite Z.shiftl_mul_pow2 by lia. change (2 ^ 4) with 16. rewrite u8_small by (unfold is_u8; lia).
  assert (Hz : Z.land (hi * 16) lo = 0).
  { apply Z.bits_inj'. intros n Hn. rewrite Z.land_spec, Z.bits_0. destruct (Z.lt_ge_cases n 4).
    - change 16 with (2 ^ 4). by rewrite Z.mul_pow2_bits_low by lia.
    - rewrite <- (Z.mod_small lo (2 ^ 4)) by (cbn; lia). rewrite Z.mod_pow2_bits_high by lia. apply andb_false_r. }
  rewrite <- Z.lxor_lor, <- Z.add_nocarry_lxor by done. lia.
Qed.

(** The octets that a string of digits stands for. *)
Fixpoint octets (s : list Z) : list Z :=
  match s with c1 :: c2 :: s => 16 * uuid_value c1 + uuid_value c2 :: octets s | _ => [] end.

Lemma get_octets_valid n : forall s, length s = (2 * n)%nat -> forallb uuid_char s = true -> get_octets n s = Some (octets s).
Proof.
  induction n as [|n IH]; intros s Hl Hs; [by destruct s|]. destruct s as [|c1 [|c2 s]]; cbn in Hl; try lia. cbn in Hs. zbool.
  destruct (find_digit_spec c1) as (Hd1 & Ht & Hs1 & _ & Hr1 & _); [done|]. destruct (find_digit_spec c2) as (Hd2 & _ & Hs2 & _ & Hr2 & _); [done|].
  cbn [get_octets octets]. unfold extract_char. cbn [skipws]. rewrite Hs1. cbn [mbind option_bind]. rewrite Ht, Hd1. cbn [mbind option_bind skipws].
  rewrite Hs2. cbn [mbind option_bind]. rewrite Hd2. cbn [mbind option_bind]. rewrite IH by (done || lia). cbn [mbind option_bind].
  by rewrite octet_join.
Qed.

Lemma c_str_valid s : forallb uuid_char s = true -> c_str s = s.
Proof.
  induction s as [|c s IH]; intros Hs; [done|]. cbn in Hs. zbool. destruct (find_digit_spec c) as (_ & _ & _ & Hz & _); [done|].
  cbn. rewrite (proj2 (Z.eqb_neq c 0)) by done. by rewrite IH.
Qed.

(** An accepted id parses to the octets it spells. *)
Lemma uuid_t_valid s : IsValidUUID s = true -> uuid_t s = UuidValue (octets s).
Proof.
  unfold IsValidUUID, uuid_t, UUID_LEN. intros Hs. apply andb_prop in Hs as [Hl%Nat.eqb_eq Hs]. rewrite c_str_valid by done.
  destruct s as [|c s]; [done|]. destruct (find_digit_spec c) as (_ & _ & Hsp & _); [cbn in Hs; by zbool|].
  cbn [skipws]. rewrite Hsp, get_octets_valid by (done || lia). done.
Qed.

Lemma put_octets n : forall s, length s = (2 * n)%nat -> forallb uuid_char s = true -> put (octets s) = s.
Proof.
  induction n as [|n IH]; intros s Hl Hs; [by destruct s|]. destruct s as [|c1 [|c2 s]]; cbn in Hl; try lia. cbn in Hs. zbool.
  destruct (find_digit_spec c1) as (_ & _ & _ & _ & Hr1 & Hh1); [done|]. destruct (find_digit_spec c2) as (_ & _ & _ & _ & Hr2 & Hh2); [done|].
  unfold put in *. cbn [octets map concat app]. rewrite IH by (done || lia). rewrite Z.mul_comm, Z.div_add_l, Z.div_small, Z.add_0_r by lia.
  rewrite Z.add_comm, Z.mod_add, Z.mod_small by lia. by rewrite Hh1, Hh2.
Qed.

Lemma put_spec d : Forall is_u8 d -> length (put d) = (2 * length d)%nat /\ forallb uuid_char (put d) = true /\ octets (put d) = d.
Proof.
  induction 1 as [|x d Hx _ (IHl & IHv & IHo)]; [done|]. unfold put in *. cbn [map concat app length forallb octets].
  assert (Hq : 0 <= x / 16 < 16) by (unfold is_u8 in Hx; dlia). assert (Hr : 0 <= x mod 16 < 16) by dlia.
  destruct (uuid_char_hex _ Hq) as [-> ->]. destruct (uuid_char_hex _ Hr) as [-> ->]. rewrite IHl, IHv, IHo.
  split; [cbn; lia|]. split; [done|]. f_equal. dlia.
Qed.

(** Accepted ids with the same octets are the same id. *)
Lemma octets_inj s s' : IsValidUUID s = true -> IsValidUUID s' = true -> octets s = octets s' -> s = s'.
Proof.
  unfold IsValidUUID, UUID_LEN. intros [Hl%Nat.eqb_eq Hs]%andb_prop [Hl'%Nat.eqb_eq Hs']%andb_prop E.
  by rewrite <- (put_octets 16 s), <- (put_octets 16 s'), E.
Qed.

(** C31. The text and the binary form of an asset id determine each other.  The sixteen octets
    of a [uuid_t], written to a stream, are an id that the validator of the server accepts, and the
    constructor reads the same octets back from it.  Every id that the validator
    accepts is read without an exception and written back as it was, so that
    different accepted ids are different members of the existence index. *)
Theorem uuid_text_roundtrip d s : length d = 16%nat -> Forall is_u8 d -> IsValidUUID s = true ->
  (IsValidUUID (put d) = true /\ uuid_t (put d) = UuidValue d) /\
  exists e, uuid_t s = UuidValue e /\ put e = s /\ length e = 16%nat.
Proof.
  intros Hl Hd Hs. destruct (put_spec d Hd) as (Hpl & Hpv & Ho).
  assert (Hv : IsValidUUID (put d) = true) by (unfold IsValidUUID, UUID_LEN; rewrite Hpl, Hl, Hpv; done).
  split; [by rewrite uuid_t_valid, Ho by done|]. exists (octets s). split; [by apply uuid_t_valid|].
  unfold IsValidUUID, UUID_LEN in Hs. apply andb_prop in Hs as [Hsl%Nat.eqb_eq Hs]. split; [by apply (put_octets 16)|].
  do 32 (destruct s as [|? s]; [done|]). by destruct s.
Qed.

Definition demo_id : list Z := replicate 30 97 ++ [48; 102].

Lemma uuid_text_roundtrip_witness :
  uuid_t (put (replicate 15 170 ++ [15])) = UuidValue (replicate 15 170 ++ [15]) /\ uuid_t demo_id = UuidValue (replicate 15 170 ++ [15]).
Proof.
  destruct (uuid_text_roundtrip (replicate 15 170 ++ [15]) demo_id) as [[_ H] (e & He & Hp & _)]; [reflexivity| |reflexivity|].
  - repeat constructor; done.
  - split; [exact H|vm_compute; reflexivity].
Defined.
