(* ===== verification/WhipSettings.v ===== *)
(** * WhipSettings: the settings that the services of WHIP read

    Models the accessors of [src/whip-server/whip/Settings.cpp] and the parsing of hosts and ports.
    The text of a setting is an argument (the file and its parser belong to
    [boost::program_options]); the functions of Boost that take a text apart are a
    parameter.  [None] is an exception. *)
From S2P Require Import Prelude.
From Stdlib Require Import String.
From stdpp Require Import list.
#[local] Open Scope Z_scope.

(** [boost::split] at any of one character, [boost::lexical_cast<unsigned short>] and
    [boost::asio::ip::address::from_string]. *)
Class BoostParse := {
  split : Z -> list Z -> list (list Z);
  lexical_ushort : list Z -> option Z;
  from_string : list Z -> option (list Z);
}.

Definition endpoint : Type := list Z * Z.

(** A [tcp::endpoint] without arguments: the address of no host, and port zero. *)
Definition no_endpoint : endpoint := ([], 0).

Record IntraMeshPeerEntry := mkPeer { Host : list Z; IntraMeshPort : Z; AssetServicePort : Z }.

Section settings.
Context `{BoostParse}.

Definition replicationMaster (masterSetting : list Z) : list Z :=
  if bool_decide (masterSetting = text "none"%string) || bool_decide (masterSetting = []) then [] else masterSetting.

Definition replicationSlave (slaveSetting : list Z) : list Z :=
  if bool_decide (slaveSetting = text "none"%string) || bool_decide (slaveSetting = []) then [] else slaveSetting.

Fixpoint peers_loop (hosts : list (list Z)) : option (list IntraMeshPeerEntry) :=
  match hosts with
  | [] => Some []
  | host :: hosts =>
      match split 58 host with
      | [h; im; as_] =>
          imPort ← lexical_ushort im; asPort ← lexical_ushort as_; peers ← peers_loop hosts;
          Some (mkPeer h imPort asPort :: peers)
      | _ => peers_loop hosts
      end
  end.

Definition intraMeshPeers (peerSetting : list Z) : option (list IntraMeshPeerEntry) :=
  if bool_decide (peerSetting = text "none"%string) then Some [] else peers_loop (split 44 peerSetting).

Definition ParseHostPortPair (hpp : list Z) : option (list Z * Z) :=
  match split 58 hpp with
  | [host; port] => p ← lexical_ushort port; Some (host, p)
  | _ => None
  end.

Definition ParseHostPortPairToTcpEndpoint (hpp : list Z) : option endpoint :=
  '(host, port) ← ParseHostPortPair hpp; a ← from_string host; Some (a, port).

End settings.
