(* ===== verification/RemoteAsset.v ===== *)
(** * RemoteAsset: the client of another asset server

    Models [RemoteAssetService] ([src/whip-server/whip/RemoteAssetService.cpp]), the connection
    that the replication services of WHIP use.

    The objects live in a heap, because their asynchronous operations refer to them by
    address: [Undefined] is an access to an object that has been destroyed, to an empty queue
    or outside an array (and a failed assertion), [Uncaught] an exception that leaves the io service, which ends the process.
    The io service owes the completion of every operation in [ops]; the flag of an operation
    says whether the socket was open when it was started, and without it the operation can only
    fail.  A response callback is a value of the type [CB]; what the callbacks do
    is up to the client ([respond], [connectCallback], [safeKillCallback]), which runs within
    the same state and may call the service back.

    Texts of the log are left out, and so are the buffer sizes of the socket. *)
From S2P Require Import Prelude Sha1 WhipWire WhipSettings.
From Stdlib Require Import String.
From stdpp Require Import list gmap.
#[local] Open Scope Z_scope.

Record RASError := mkRASError { isError : bool; isFatal : bool }.

(** ** State *)

Record PendingTransferRequest (CB : Type) := mkPending {
  req_id : list Z; req_callback : CB; req_type : ClientRequestMsg.RequestType; req_asset : option (list Z) }.
Arguments mkPending {CB}.
Arguments req_id {CB}.
Arguments req_callback {CB}.
Arguments req_type {CB}.
Arguments req_asset {CB}.

(** [_socket] says whether the socket is open. *)
Record RemoteAssetService (CB : Type) := mkService {
  _endpoint : endpoint; _socket : bool;
  _inboundAuthChallenge : list Z;
  _assetConnectionEstablished : bool; _sendActive : bool; _recvActive : bool;
  _transferRequestQueue : list (PendingTransferRequest CB);
  _assetCallbackQueue : list (PendingTransferRequest CB);
  _safeKillCallback : bool }.
Arguments mkService {CB}.
Arguments _endpoint {CB}.
Arguments _socket {CB}.
Arguments _inboundAuthChallenge {CB}.
Arguments _assetConnectionEstablished {CB}.
Arguments _sendActive {CB}.
Arguments _recvActive {CB}.
Arguments _transferRequestQueue {CB}.
Arguments _assetCallbackQueue {CB}.
Arguments _safeKillCallback {CB}.

(** What the io service has been asked to do, by object. *)
Inductive op (CB : Type) :=
  | Connecting (this : nat)
  | ReadChallenge (this : nat)
  | WriteChallengeResponse (this : nat) (message : list Z)
  | ReadAuthStatus (this : nat)
  | WriteRequest (this : nat) (message : list Z)
  | ReadHeader (this : nat)
  | ReadData (this : nat) (response : ServerResponseMsg.t)
  | ReadErrorData (this : nat) (response : ServerResponseMsg.t)
  | Posted (callback : CB) (error : RASError) (message : list Z).
Arguments Connecting {CB}.
Arguments ReadChallenge {CB}.
Arguments WriteChallengeResponse {CB}.
Arguments ReadAuthStatus {CB}.
Arguments WriteRequest {CB}.
Arguments ReadHeader {CB}.
Arguments ReadData {CB}.
Arguments ReadErrorData {CB}.
Arguments Posted {CB}.

Record world (CB CL : Type) := mkWorld { heap : gmap nat (RemoteAssetService CB); next_ptr : nat; ops : list (bool * op CB); client : CL }.
Arguments mkWorld {CB CL}.
Arguments heap {CB CL}.
Arguments next_ptr {CB CL}.
Arguments ops {CB CL}.
Arguments client {CB CL}.

(** A [deadline_timer] whose handlers do not look at the error code: handlers that wait, and
    handlers that the io service will run. *)
Record timer := mkTimer { waiting : nat; ready : nat }.
(** [expires_from_now] cancels the handlers that wait, which makes them ready; [async_wait] adds one. *)
Definition arm (t : timer) : timer := mkTimer 1 (ready t + waiting t).
Definition expire (t : timer) : timer := mkTimer 0 (ready t + waiting t).
(** One ready handler is run. *)
Definition fired (t : timer) : timer := mkTimer (waiting t) (pred (ready t)).

(** What a handler reads from the rest of the server while it runs: settings, the clock, the
    existence index. *)
Record env := mkEnv {
  password : list Z; replication_master : list Z; replication_slave : list Z; pull_replication_start_at : Z;
  existing : gset (list Z); universal_time : Z }.

(** ** The monad of a handler *)

Inductive result (A : Type) := Done (a : A) | Undefined | Uncaught | NoFuel.
Arguments Done {A}.
Arguments Undefined {A}.
Arguments Uncaught {A}.
Arguments NoFuel {A}.

Definition act (CB CL A : Type) : Type := env -> world CB CL -> result (A * world CB CL).

#[export] Instance act_ret CB CL : MRet (act CB CL) := fun A a e w => Done (a, w).
#[export] Instance act_bind CB CL : MBind (act CB CL) := fun A B k m e w =>
  match m e w with Done (a, w) => k a e w | Undefined => Undefined | Uncaught => Uncaught | NoFuel => NoFuel end.

Section primitives.
Context {CB CL : Type}.
Notation act := (act CB CL).
Notation service := (RemoteAssetService CB).

Definition undefined {A} : act A := fun _ _ => Undefined.
Definition uncaught {A} : act A := fun _ _ => Uncaught.
Definition out_of_fuel {A} : act A := fun _ _ => NoFuel.
(** A value, or an access outside an array. *)
Definition checked {A} (x : option A) : act A := match x with Some a => mret a | None => undefined end.
(** A value, or an exception. *)
Definition or_throw {A} (x : option A) : act A := match x with Some a => mret a | None => uncaught end.
Definition ask {A} (f : env -> A) : act A := fun e w => Done (f e, w).
Definition my {A} (f : CL -> A) : act A := fun _ w => Done (f (client w), w).
Definition set_my (f : CL -> CL) : act unit := fun _ w => Done (tt, mkWorld (heap w) (next_ptr w) (ops w) (f (client w))).

(** [this->field] *)
Definition fld {A} (this : nat) (f : service -> A) : act A := fun _ w =>
  match heap w !! this with Some o => Done (f o, w) | None => Undefined end.
Definition set_fld (this : nat) (f : service -> service) : act unit := fun _ w =>
  match heap w !! this with Some o => Done (tt, mkWorld (<[this := f o]> (heap w)) (next_ptr w) (ops w) (client w)) | None => Undefined end.
(** [new RemoteAssetService] and the end of its last shared pointer. *)
Definition allocate (o : service) : act nat := fun _ w =>
  Done (next_ptr w, mkWorld (<[next_ptr w := o]> (heap w)) (S (next_ptr w)) (ops w) (client w)).
Definition free (this : nat) : act unit := fun _ w => Done (tt, mkWorld (delete this (heap w)) (next_ptr w) (ops w) (client w)).
Definition add_op (live : bool) (o : op CB) : act unit := fun _ w => Done (tt, mkWorld (heap w) (next_ptr w) (ops w ++ [(live, o)]) (client w)).
(** An asynchronous operation on the socket of an object. *)
Definition async (this : nat) (o : op CB) : act unit := open ← fld this _socket; add_op open o.
Definition post (o : op CB) : act unit := add_op true o.

Definition set_established (b : bool) (o : service) : service :=
  mkService (_endpoint o) (_socket o) (_inboundAuthChallenge o) b (_sendActive o) (_recvActive o) (_transferRequestQueue o) (_assetCallbackQueue o) (_safeKillCallback o).
Definition set_socket (b : bool) (o : service) : service :=
  mkService (_endpoint o) b (_inboundAuthChallenge o) (_assetConnectionEstablished o) (_sendActive o) (_recvActive o) (_transferRequestQueue o) (_assetCallbackQueue o) (_safeKillCallback o).
Definition set_challenge (d : list Z) (o : service) : service :=
  mkService (_endpoint o) (_socket o) d (_assetConnectionEstablished o) (_sendActive o) (_recvActive o) (_transferRequestQueue o) (_assetCallbackQueue o) (_safeKillCallback o).
Definition set_send (b : bool) (o : service) : service :=
  mkService (_endpoint o) (_socket o) (_inboundAuthChallenge o) (_assetConnectionEstablished o) b (_recvActive o) (_transferRequestQueue o) (_assetCallbackQueue o) (_safeKillCallback o).
Definition set_recv (b : bool) (o : service) : service :=
  mkService (_endpoint o) (_socket o) (_inboundAuthChallenge o) (_assetConnectionEstablished o) (_sendActive o) b (_transferRequestQueue o) (_assetCallbackQueue o) (_safeKillCallback o).
Definition set_requests (q : list (PendingTransferRequest CB)) (o : service) : service :=
  mkService (_endpoint o) (_socket o) (_inboundAuthChallenge o) (_assetConnectionEstablished o) (_sendActive o) (_recvActive o) q (_assetCallbackQueue o) (_safeKillCallback o).
Definition set_callbacks (q : list (PendingTransferRequest CB)) (o : service) : service :=
  mkService (_endpoint o) (_socket o) (_inboundAuthChallenge o) (_assetConnectionEstablished o) (_sendActive o) (_recvActive o) (_transferRequestQueue o) q (_safeKillCallback o).
Definition set_safekill (b : bool) (o : service) : service :=
  mkService (_endpoint o) (_socket o) (_inboundAuthChallenge o) (_assetConnectionEstablished o) (_sendActive o) (_recvActive o) (_transferRequestQueue o) (_assetCallbackQueue o) b.

(** [queue.push], [queue.front] and [queue.pop]. *)
Definition push_request (this : nat) r : act unit := set_fld this (fun o => set_requests (_transferRequestQueue o ++ [r]) o).
Definition push_callback (this : nat) r : act unit := set_fld this (fun o => set_callbacks (_assetCallbackQueue o ++ [r]) o).
Definition front_request (this : nat) : act (PendingTransferRequest CB) := q ← fld this _transferRequestQueue; checked (head q).
Definition front_callback (this : nat) : act (PendingTransferRequest CB) := q ← fld this _assetCallbackQueue; checked (head q).
Definition pop_request (this : nat) : act unit := _ ← front_request this; set_fld this (fun o => set_requests (tail (_transferRequestQueue o)) o).
Definition pop_callback (this : nat) : act unit := _ ← front_callback this; set_fld this (fun o => set_callbacks (tail (_assetCallbackQueue o)) o).

End primitives.

(** ** Operations *)

Section service.
Context {CB CL : Type}.
Notation act := (act CB CL).
Notation service := (RemoteAssetService CB).
Context (respond : CB -> option (list Z) -> RASError -> list Z -> act unit).
Context (connectCallback : nat -> bool -> act unit).
Context (safeKillCallback : nat -> act unit).
(** How many requests the response callbacks can add while the queues are emptied. *)
Context (refill : CL -> nat).

Definition new_service (ep : endpoint) : service := mkService ep false [] false false false [] [] false.

Definition setSafekillCallback (this : nat) : act unit := set_fld this (set_safekill true).

(** [async_connect] opens the socket. *)
Definition connect (this : nat) : act unit := _ ← set_fld this (set_socket true); async this (Connecting this).

Definition listenForServerResponses (this : nat) : act unit := _ ← set_fld this (set_recv true); async this (ReadHeader this).

Definition onConnectionResult (this : nat) : act unit :=
  established ← fld this _assetConnectionEstablished;
  _ ← connectCallback this established;
  established ← fld this _assetConnectionEstablished;
  if established : bool then listenForServerResponses this else mret tt.

(** [set_option] throws on a closed socket. *)
Definition onConnect (this : nat) (error : bool) : act unit :=
  if negb error then
    open ← fld this _socket;
    if open : bool then
      _ ← set_fld this (set_challenge AuthChallengeMsg.inbound);
      async this (ReadChallenge this)
    else uncaught
  else
    _ ← set_fld this (set_established false);
    onConnectionResult this.

Definition sendChallengeResponse (this : nat) : act unit :=
  challenge ← fld this _inboundAuthChallenge;
  phrase ← checked (AuthChallengeMsg.getPhrase challenge);
  pw ← ask password;
  respMessage ← checked (AuthResponseMsg.outbound phrase pw);
  async this (WriteChallengeResponse this respMessage).

Definition onRecvChallenge (this : nat) (error : bool) (data : list Z) : act unit :=
  if negb error && negb (length data =? 0)%nat then
    _ ← set_fld this (set_challenge data);
    sendChallengeResponse this
  else
    _ ← set_fld this (set_established false);
    onConnectionResult this.

Definition onChallengeResponseWrite (this : nat) (error : bool) (bytesSent : nat) : act unit :=
  if negb error && negb (bytesSent =? 0)%nat then async this (ReadAuthStatus this)
  else
    _ ← set_fld this (set_established false);
    onConnectionResult this.

Definition onAuthenticationStatus (this : nat) (error : bool) (authStatus : list Z) : act unit :=
  if negb error && negb (length authStatus =? 0)%nat then
    if negb (AuthStatusMsg.validate authStatus) then
      _ ← set_fld this (set_established false);
      onConnectionResult this
    else
      status ← checked (AuthStatusMsg.getAuthStatus authStatus);
      if negb (status =? AuthStatusMsg.code AuthStatusMsg.AS_AUTH_SUCCESS) then
        _ ← set_fld this (set_established false);
        onConnectionResult this
      else
        _ ← set_fld this (set_established true);
        onConnectionResult this
  else
    _ ← set_fld this (set_established false);
    onConnectionResult this.

Definition request_type (m : ClientRequestMsg.t) : act ClientRequestMsg.RequestType :=
  match ClientRequestMsg.getType m with inr t => mret t | inl _ => uncaught end.

Definition not_established : list Z := text "Connection not established"%string.

Definition sendGetRequest (this : nat) (uuid : list Z) (callBack : CB) (cache : bool) : act unit :=
  _ ← set_fld this (set_send true);
  let request := if cache then ClientRequestMsg.new_get ClientRequestMsg.RT_GET uuid else ClientRequestMsg.new_get ClientRequestMsg.RT_GET_DONTCACHE uuid in
  _ ← async this (WriteRequest this (ClientRequestMsg.header request));
  t ← request_type request;
  push_callback this (mkPending uuid callBack t None).

(** The request is sent or queued also after the error has been posted. *)
Definition getAsset (this : nat) (assetId : list Z) (cache : bool) (getAssetCallback : CB) : act unit :=
  established ← fld this _assetConnectionEstablished;
  _ ← (if negb established then post (Posted getAssetCallback (mkRASError true false) not_established) else mret tt);
  sendActive ← fld this _sendActive;
  if negb sendActive then sendGetRequest this assetId getAssetCallback cache
  else push_request this (mkPending assetId getAssetCallback (if cache then ClientRequestMsg.RT_GET else ClientRequestMsg.RT_GET_DONTCACHE) None).

Definition sendPutRequest (this : nat) (asset : list Z) (putAssetCallback : CB) : act unit :=
  _ ← set_fld this (set_send true);
  request ← checked (ClientRequestMsg.new_put asset);
  _ ← async this (WriteRequest this (ClientRequestMsg.header request ++ default [] (ClientRequestMsg.data request)));
  uuid ← checked (Asset.getUUID asset);
  t ← request_type request;
  push_callback this (mkPending uuid putAssetCallback t None).

Definition putAsset (this : nat) (asset : list Z) (putAssetCallback : CB) : act unit :=
  established ← fld this _assetConnectionEstablished;
  _ ← (if negb established then post (Posted putAssetCallback (mkRASError true false) not_established) else mret tt);
  sendActive ← fld this _sendActive;
  if negb sendActive then sendPutRequest this asset putAssetCallback
  else
    uuid ← checked (Asset.getUUID asset);
    push_request this (mkPending uuid putAssetCallback ClientRequestMsg.RT_PUT (Some asset)).

(** A longer prefix than a UUID would be a fill of negative length. *)
Definition sendAssetIdsRequest (this : nat) (prefix : list Z) (callback : CB) : act unit :=
  _ ← set_fld this (set_send true);
  fixedPfx ← (if negb (length prefix =? 32)%nat then
                if (32 <? length prefix)%nat then uncaught else mret (prefix ++ replicate (32 - length prefix) 48)
              else mret prefix);
  let request := ClientRequestMsg.new_get ClientRequestMsg.RT_STORED_ASSET_IDS_GET fixedPfx in
  _ ← async this (WriteRequest this (ClientRequestMsg.header request));
  push_callback this (mkPending prefix callback ClientRequestMsg.RT_STORED_ASSET_IDS_GET None).

Definition getStoredAssetIDsWithPrefix (this : nat) (prefix : list Z) (callback : CB) : act unit :=
  established ← fld this _assetConnectionEstablished;
  _ ← (if negb established then post (Posted callback (mkRASError true false) not_established) else mret tt);
  sendActive ← fld this _sendActive;
  if negb sendActive then sendAssetIdsRequest this prefix callback
  else push_request this (mkPending prefix callback ClientRequestMsg.RT_STORED_ASSET_IDS_GET None).

Definition checkSafeKill (this : nat) : act unit :=
  established ← fld this _assetConnectionEstablished;
  registered ← fld this _safeKillCallback;
  if negb established && registered then
    recvActive ← fld this _recvActive;
    sendActive ← fld this _sendActive;
    if negb recvActive && negb sendActive then safeKillCallback this else mret tt
  else mret tt.

Definition terminated : list Z := text "Connection was terminated"%string.

(** The two loops of [close]; the fuel is the length of the queue, and what the client can add. *)
Fixpoint kill_requests (fuel : nat) (this : nat) : act unit :=
  q ← fld this _transferRequestQueue;
  match q with
  | [] => mret tt
  | req :: _ =>
      match fuel with
      | O => out_of_fuel
      | S fuel =>
          _ ← respond (req_callback req) None (mkRASError true true) terminated;
          _ ← pop_request this;
          kill_requests fuel this
      end
  end.

Fixpoint kill_callbacks (fuel : nat) (this : nat) : act unit :=
  q ← fld this _assetCallbackQueue;
  match q with
  | [] => mret tt
  | req :: _ =>
      match fuel with
      | O => out_of_fuel
      | S fuel =>
          _ ← respond (req_callback req) None (mkRASError true true) terminated;
          _ ← pop_callback this;
          kill_callbacks fuel this
      end
  end.

Definition close (this : nat) : act unit :=
  _ ← set_fld this (set_socket false);
  _ ← set_fld this (set_established false);
  requests ← fld this _transferRequestQueue;
  more ← my refill;
  _ ← kill_requests (length requests + more) this;
  callbacks ← fld this _assetCallbackQueue;
  more ← my refill;
  _ ← kill_callbacks (length callbacks + more) this;
  checkSafeKill this.

Definition doNextQueuedRequest (this : nat) : act unit :=
  req ← front_request this;
  _ ← (match req_type req with
       | ClientRequestMsg.RT_GET => getAsset this (req_id req) true (req_callback req)
       | ClientRequestMsg.RT_GET_DONTCACHE => getAsset this (req_id req) false (req_callback req)
       | ClientRequestMsg.RT_PUT => asset ← checked (req_asset req); putAsset this asset (req_callback req)
       | ClientRequestMsg.RT_STORED_ASSET_IDS_GET => getStoredAssetIDsWithPrefix this (req_id req) (req_callback req)
       | _ => mret tt
       end);
  pop_request this.

Definition onAfterWriteAssetRequest (this : nat) (error : bool) (bytesSent : nat) : act unit :=
  _ ← set_fld this (set_send false);
  if negb error && (0 <? bytesSent)%nat then
    established ← fld this _assetConnectionEstablished;
    queue ← fld this _transferRequestQueue;
    _ ← (if established && negb (length queue =? 0)%nat then doNextQueuedRequest this else mret tt);
    checkSafeKill this
  else close this.

(** [validateHeader() && code == RC_FOUND || code == RC_OK] *)
Definition positive (response : ServerResponseMsg.t) : act bool :=
  valid ← checked (ServerResponseMsg.validateHeader response);
  code ← checked (ServerResponseMsg.getResponseCode response);
  mret (valid && (code =? ServerResponseMsg.code ServerResponseMsg.RC_FOUND) || (code =? ServerResponseMsg.code ServerResponseMsg.RC_OK)).

Definition onReadResponseHeader (this : nat) (error : bool) (header : list Z) : act unit :=
  _ ← set_fld this (set_recv false);
  if negb error && (0 <? length header)%nat then
    let response := ServerResponseMsg.mk header None in
    good ← positive response;
    if good : bool then
      response ← checked (ServerResponseMsg.initializeDataStorage response);
      _ ← set_fld this (set_recv true);
      async this (ReadData this response)
    else
      valid ← checked (ServerResponseMsg.validateHeader response);
      if negb valid then close this
      else
        size ← checked (ServerResponseMsg.getDataSize response);
        if 0 <? size then
          response ← checked (ServerResponseMsg.initializeDataStorage response);
          _ ← set_fld this (set_recv true);
          async this (ReadErrorData this response)
        else
          req ← front_callback this;
          _ ← respond (req_callback req) None (mkRASError true false) [];
          _ ← pop_callback this;
          listenForServerResponses this
  else close this.

Definition handleConfirmation (this : nat) (req : PendingTransferRequest CB) : act unit :=
  _ ← respond (req_callback req) None (mkRASError false false) [];
  listenForServerResponses this.

Definition handleAssetReturned (this : nat) (req : PendingTransferRequest CB) (data : list Z) : act unit :=
  uuid ← checked (Asset.getUUID data);
  if bool_decide (uuid = req_id req) then
    _ ← respond (req_callback req) (Some data) (mkRASError false false) [];
    listenForServerResponses this
  else close this.

Definition handleDataReturned (this : nat) (req : PendingTransferRequest CB) (data : list Z) : act unit :=
  _ ← respond (req_callback req) None (mkRASError false false) data;
  listenForServerResponses this.

Definition onReadResponseData (this : nat) (error : bool) (data : list Z) : act unit :=
  _ ← set_fld this (set_recv false);
  established ← fld this _assetConnectionEstablished;
  if negb error && established then
    req ← front_callback this;
    let pop_front := (queue ← fld this _assetCallbackQueue; if negb (length queue =? 0)%nat then pop_callback this else mret tt) in
    match req_type req with
    | ClientRequestMsg.RT_GET | ClientRequestMsg.RT_GET_DONTCACHE => _ ← handleAssetReturned this req data; pop_front
    | ClientRequestMsg.RT_MAINT_PURGELOCALS | ClientRequestMsg.RT_PURGE | ClientRequestMsg.RT_PUT => _ ← handleConfirmation this req; pop_front
    | ClientRequestMsg.RT_STATUS_GET | ClientRequestMsg.RT_STORED_ASSET_IDS_GET => _ ← handleDataReturned this req data; pop_front
    | _ => close this
    end
  else close this.

Definition onHandleRequestErrorData (this : nat) (error : bool) (data : list Z) : act unit :=
  _ ← set_fld this (set_recv false);
  if negb error && (0 <? length data)%nat then
    req ← front_callback this;
    _ ← respond (req_callback req) None (mkRASError true false) data;
    _ ← pop_callback this;
    listenForServerResponses this
  else close this.

(** ** The io service *)

(** The handler of an operation that completes, with the bytes that were read. *)
Definition complete (o : op CB) (ok : bool) (data : list Z) : act unit :=
  match o with
  | Connecting this => onConnect this (negb ok)
  | ReadChallenge this => onRecvChallenge this (negb ok) data
  | WriteChallengeResponse this m => onChallengeResponseWrite this (negb ok) (length m)
  | ReadAuthStatus this => onAuthenticationStatus this (negb ok) data
  | WriteRequest this m => onAfterWriteAssetRequest this (negb ok) (length m)
  | ReadHeader this => onReadResponseHeader this (negb ok) data
  | ReadData this _ => onReadResponseData this (negb ok) data
  | ReadErrorData this _ => onHandleRequestErrorData this (negb ok) data
  | Posted callback e message => respond callback None e message
  end.

(** How many bytes an operation reads. *)
Definition expected (o : op CB) : nat :=
  match o with
  | ReadChallenge _ => AuthChallengeMsg.MESSAGE_SIZE
  | ReadAuthStatus _ => AuthStatusMsg.MESSAGE_SIZE
  | ReadHeader _ => ServerResponseMsg.HEADER_SIZE
  | ReadData _ r | ReadErrorData _ r => length (default [] (ServerResponseMsg.data r))
  | _ => 0%nat
  end.

Definition can_complete (x : bool * op CB) (ok : bool) (data : list Z) : bool :=
  if ok then x.1 && (length data =? expected x.2)%nat else match x.2 with Posted _ _ _ => false | _ => true end.

(** The completion of the [n]th operation; [None] is a step that is not possible. *)
Definition io_step (e : env) (w : world CB CL) (n : nat) (ok : bool) (data : list Z) : option (result (unit * world CB CL)) :=
  x ← ops w !! n;
  if can_complete x ok data then Some (complete x.2 ok data e (mkWorld (heap w) (next_ptr w) (delete n (ops w)) (client w))) else None.

End service.

(** ** Reasoning about handlers *)

(** What holds when a handler ends normally, and that the fuel is enough. *)
Definition ends {CB CL A : Type} (m : act CB CL A) (e : env) (w : world CB CL) (Q : A -> world CB CL -> Prop) : Prop :=
  match m e w with Done (a, w') => Q a w' | NoFuel => False | _ => True end.

Create HintDb ras discriminated.

Section logic.
Context {CB CL : Type}.
Implicit Types (e : env) (w : world CB CL).

Lemma ends_bind {A B} (m : act CB CL A) (k : A -> act CB CL B) e w Q :
  ends m e w (fun a w' => ends (k a) e w' Q) -> ends (m ≫= k) e w Q.
Proof. unfold ends. cbn [mbind act_bind]. unfold mbind, act_bind. by destruct (m e w) as [[a w']| | |]. Qed.

Lemma ends_ret {A} (a : A) e w (Q : A -> world CB CL -> Prop) : Q a w -> ends (mret a) e w Q.
Proof. done. Qed.

Lemma ends_undefined {A} e w (Q : A -> world CB CL -> Prop) : ends undefined e w Q.
Proof. done. Qed.
Lemma ends_uncaught {A} e w (Q : A -> world CB CL -> Prop) : ends uncaught e w Q.
Proof. done. Qed.

Lemma ends_checked {A} (x : option A) e w (Q : A -> world CB CL -> Prop) : (forall a, x = Some a -> Q a w) -> ends (checked x) e w Q.
Proof. destruct x as [a|]; [|done]. intros HQ. by apply HQ. Qed.
Lemma ends_or_throw {A} (x : option A) e w (Q : A -> world CB CL -> Prop) : (forall a, x = Some a -> Q a w) -> ends (or_throw x) e w Q.
Proof. destruct x as [a|]; [|done]. intros HQ. by apply HQ. Qed.

Lemma ends_fld {A} this (f : RemoteAssetService CB -> A) e w (Q : A -> world CB CL -> Prop) :
  (forall o, heap w !! this = Some o -> Q (f o) w) -> ends (fld this f) e w Q.
Proof. unfold ends, fld. intros HQ. destruct (heap w !! this) as [o|]; [|done]. by apply HQ. Qed.

Lemma ends_set_fld this f e w (Q : unit -> world CB CL -> Prop) :
  (forall o, heap w !! this = Some o -> Q tt (mkWorld (<[this := f o]> (heap w)) (next_ptr w) (ops w) (client w))) -> ends (set_fld this f) e w Q.
Proof. unfold ends, set_fld. intros HQ. destruct (heap w !! this) as [o|]; [|done]. by apply HQ. Qed.

Lemma ends_add_op b o e w (Q : unit -> world CB CL -> Prop) : Q tt (mkWorld (heap w) (next_ptr w) (ops w ++ [(b, o)]) (client w)) -> ends (add_op b o) e w Q.
Proof. done. Qed.
Lemma ends_ask {A} (f : env -> A) e w (Q : A -> world CB CL -> Prop) : Q (f e) w -> ends (ask f) e w Q.
Proof. done. Qed.
Lemma ends_my {A} (f : CL -> A) e w (Q : A -> world CB CL -> Prop) : Q (f (client w)) w -> ends (my f) e w Q.
Proof. done. Qed.
Lemma ends_set_my f e w (Q : unit -> world CB CL -> Prop) : Q tt (mkWorld (heap w) (next_ptr w) (ops w) (f (client w))) -> ends (set_my f) e w Q.
Proof. done. Qed.
Lemma ends_allocate o e w (Q : nat -> world CB CL -> Prop) :
  Q (next_ptr w) (mkWorld (<[next_ptr w := o]> (heap w)) (S (next_ptr w)) (ops w) (client w)) -> ends (allocate o) e w Q.
Proof. done. Qed.
Lemma ends_free this e w (Q : unit -> world CB CL -> Prop) : Q tt (mkWorld (delete this (heap w)) (next_ptr w) (ops w) (client w)) -> ends (free this) e w Q.
Proof. done. Qed.

Lemma ends_mono {A} (m : act CB CL A) e w (Q Q' : A -> world CB CL -> Prop) : ends m e w Q -> (forall a w', Q a w' -> Q' a w') -> ends m e w Q'.
Proof. unfold ends. destruct (m e w) as [[a w']| | |]; auto. Qed.

End logic.

(** Opens a handler step by step; the accesses to objects become equations. *)
Ltac ends_step :=
  lazymatch goal with
  | |- ends (mbind _ _) _ _ _ => apply ends_bind
  | |- ends (mret _) _ _ _ => apply ends_ret
  | |- ends undefined _ _ _ => exact I
  | |- ends uncaught _ _ _ => exact I
  | |- ends (ask _) _ _ _ => apply ends_ask
  | |- ends (my _) _ _ _ => apply ends_my
  | |- ends (set_my _) _ _ _ => apply ends_set_my
  | |- ends (allocate _) _ _ _ => apply ends_allocate
  | |- ends (free _) _ _ _ => apply ends_free
  | |- ends (checked _) _ _ _ => apply ends_checked; let a := fresh "a" in let E := fresh "E" in intros a E
  | |- ends (or_throw _) _ _ _ => apply ends_or_throw; let a := fresh "a" in let E := fresh "E" in intros a E
  | |- ends (fld _ _) _ _ _ => apply ends_fld; let o := fresh "o" in let E := fresh "E" in intros o E
  | |- ends (set_fld _ _) _ _ _ => apply ends_set_fld; let o := fresh "o" in let E := fresh "E" in intros o E
  | |- ends (if ?b then _ else _) _ _ _ => match type of b with bool => let E := fresh "E" in destruct b eqn:E end
  end.
Ltac ends_steps := repeat (ends_step; cbn beta zeta).

(** The same, also through the start of asynchronous operations. *)
Ltac ends_open :=
  repeat (first [ends_step | lazymatch goal with
  | |- ends (add_op _ _) _ _ _ => apply ends_add_op
  | |- ends (post _) _ _ _ => apply ends_add_op
  | |- ends (async _ _) _ _ _ => unfold async
  end]; cbn beta zeta).

(** Two reads of the same object give the same object. *)
Ltac same_obj :=
  cbn [heap next_ptr ops client] in *; rewrite ?lookup_insert_eq in *;
  repeat match goal with
  | H : Some _ = Some _ |- _ => injection H as H; subst
  | H1 : ?h !! ?i = Some ?a, H2 : ?h !! ?i = Some ?b |- _ => rewrite H1 in H2; injection H2 as <-
  end.

(** ** Invariants that do not look at the objects *)

Definition keeps {CB CL A : Type} (P : world CB CL -> Prop) (m : act CB CL A) : Prop := forall e w, P w -> ends m e w (fun _ => P).

(** The operations that make a connection. *)
Definition attempt {CB : Type} (o : op CB) : bool :=
  match o with Connecting _ | ReadChallenge _ | WriteChallengeResponse _ _ | ReadAuthStatus _ => true | _ => false end.

Section keeps.
Context {CB CL : Type} (P : world CB CL -> Prop).

Lemma keeps_bind {A B} (m : act CB CL A) (k : A -> act CB CL B) : keeps P m -> (forall a, keeps P (k a)) -> keeps P (m ≫= k).
Proof using Type. intros Hm Hk e w Hw. apply ends_bind. eapply ends_mono; [by apply Hm|]. intros a w' Hw'. by apply Hk. Qed.
Lemma keeps_ret {A} (a : A) : keeps P (mret a).
Proof using Type. by intros e w Hw. Qed.
Lemma keeps_undefined {A} : keeps (A := A) P undefined.
Proof using Type. done. Qed.
Lemma keeps_uncaught {A} : keeps (A := A) P uncaught.
Proof using Type. done. Qed.
Lemma keeps_checked {A} (x : option A) : keeps P (checked x).
Proof using Type. intros e w Hw. by destruct x. Qed.
Lemma keeps_or_throw {A} (x : option A) : keeps P (or_throw x).
Proof using Type. intros e w Hw. by destruct x. Qed.
Lemma keeps_my {A} (f : CL -> A) : keeps P (my f).
Proof using Type. by intros e w Hw. Qed.
Lemma keeps_ask {A} (f : env -> A) : keeps P (ask f).
Proof using Type. by intros e w Hw. Qed.
Lemma keeps_set_my f : (forall w, P w -> P (mkWorld (heap w) (next_ptr w) (ops w) (f (client w)))) -> keeps P (set_my f).
Proof using Type. intros Hf e w Hw. by apply Hf. Qed.
Lemma keeps_fld {A} t (f : RemoteAssetService CB -> A) : keeps P (fld t f).
Proof using Type. intros e w Hw. by apply ends_fld. Qed.

Context (P_heap : forall h n w, P w -> P (mkWorld h n (ops w) (client w))).
Context (P_op : forall b o w, attempt o = false -> P w -> P (mkWorld (heap w) (next_ptr w) (ops w ++ [(b, o)]) (client w))).

Lemma keeps_set_fld t f : keeps P (set_fld t f).
Proof using P_heap. intros e w Hw. apply ends_set_fld. intros o Ho. by apply P_heap. Qed.
Lemma keeps_allocate o : keeps P (allocate o).
Proof using P_heap. intros e w Hw. by apply P_heap. Qed.
Lemma keeps_free t : keeps P (free t).
Proof using P_heap. intros e w Hw. by apply P_heap. Qed.
Lemma keeps_async t o : attempt o = false -> keeps P (async t o).
Proof using P_op. intros Ho. apply keeps_bind; [apply keeps_fld|]. intros b e w Hw. by apply P_op. Qed.
Lemma keeps_post o : attempt o = false -> keeps P (post o).
Proof using P_op. intros Ho e w Hw. by apply P_op. Qed.

End keeps.

(** Opens the composition of a handler. *)
Ltac keeps_open :=
  repeat (first [ assumption | lazymatch goal with
    | |- keeps _ (mbind _ _) => apply keeps_bind; [|intro]
    | |- keeps _ (mret _) => apply keeps_ret
    | |- keeps _ undefined => apply keeps_undefined
    | |- keeps _ uncaught => apply keeps_uncaught
    | |- keeps _ (checked _) => apply keeps_checked
    | |- keeps _ (or_throw _) => apply keeps_or_throw
    | |- keeps _ (my _) => apply keeps_my
    | |- keeps _ (ask _) => apply keeps_ask
    | |- keeps _ (fld _ _) => apply keeps_fld
    | |- keeps _ (set_fld _ _) => apply keeps_set_fld; assumption
    | |- keeps _ (allocate _) => apply keeps_allocate; assumption
    | |- keeps _ (free _) => apply keeps_free; assumption
    | |- keeps _ (async _ _) => apply keeps_async; [assumption|reflexivity]
    | |- keeps _ (post _) => apply keeps_post; [assumption|reflexivity]
    | |- keeps _ (if ?b then _ else _) => destruct b
    | |- keeps _ (match ?x with _ => _ end) => destruct x
    end ]; cbn beta zeta).

Section service_keeps.
Context {CB CL : Type} (P : world CB CL -> Prop).
Context (P_heap : forall h n w, P w -> P (mkWorld h n (ops w) (client w))).
Context (P_op : forall b o w, attempt o = false -> P w -> P (mkWorld (heap w) (next_ptr w) (ops w ++ [(b, o)]) (client w))).
Context (respond : CB -> option (list Z) -> RASError -> list Z -> act CB CL unit) (safeKillCallback : nat -> act CB CL unit) (refill : CL -> nat).

Lemma keeps_request_type m : keeps P (request_type m).
Proof using Type. unfold request_type. keeps_open. Qed.
Lemma keeps_getAsset t u c cb : keeps P (getAsset t u c cb).
Proof using P_heap P_op. unfold getAsset, sendGetRequest, push_callback, push_request, request_type. keeps_open. Qed.
Lemma keeps_putAsset t a cb : keeps P (putAsset t a cb).
Proof using P_heap P_op. unfold putAsset, sendPutRequest, push_callback, push_request, request_type. keeps_open. Qed.
Lemma keeps_getIds t p cb : keeps P (getStoredAssetIDsWithPrefix t p cb).
Proof using P_heap P_op. unfold getStoredAssetIDsWithPrefix, sendAssetIdsRequest, push_callback, push_request. keeps_open. Qed.
Lemma keeps_listen t : keeps P (listenForServerResponses t).
Proof using P_heap P_op. unfold listenForServerResponses. keeps_open. Qed.
Lemma keeps_pop_callback t : keeps P (pop_callback t).
Proof using P_heap. unfold pop_callback, front_callback. keeps_open. Qed.
Lemma keeps_pop_request t : keeps P (pop_request t).
Proof using P_heap. unfold pop_request, front_request. keeps_open. Qed.

Context (fatal_keeps : forall cb, keeps P (respond cb None (mkRASError true true) terminated)) (safekill_keeps : forall t, keeps P (safeKillCallback t)).

(** The callbacks that [close] calls add no more requests than the client has announced. *)
Definition load (queue : RemoteAssetService CB -> list (PendingTransferRequest CB)) (t : nat) (w : world CB CL) : nat :=
  (default 0%nat ((fun o => length (queue o)) <$> heap w !! t) + refill (client w))%nat.
Context (respond_load : forall queue cb t e w, queue = _transferRequestQueue \/ queue = _assetCallbackQueue ->
  ends (respond cb None (mkRASError true true) terminated) e w (fun _ w' => (load queue t w' <= load queue t w)%nat)).

Lemma ends_both {A} (m : act CB CL A) e w (Q Q' : A -> world CB CL -> Prop) : ends m e w Q -> ends m e w Q' -> ends m e w (fun a w' => Q a w' /\ Q' a w').
Proof using Type. unfold ends. by destruct (m e w) as [[a w']| | |]. Qed.

Lemma load_at queue t w o : heap w !! t = Some o -> load queue t w = (length (queue o) + refill (client w))%nat.
Proof using Type. intros E. unfold load. by rewrite E. Qed.

Lemma pop_request_load t e w n : P w -> (load _transferRequestQueue t w <= S n)%nat -> ends (pop_request t) e w (fun _ w' => P w' /\ (load _transferRequestQueue t w' <= n)%nat).
Proof using P_heap.
  intros Hw Hl. unfold pop_request, front_request. ends_steps. same_obj. split; [by apply P_heap|]. rewrite (load_at _ _ _ o) in Hl by done.
  erewrite load_at by apply lookup_insert_eq. cbn. destruct (_transferRequestQueue o); [done|]. cbn in *. lia.
Qed.

Lemma pop_callback_load t e w n : P w -> (load _assetCallbackQueue t w <= S n)%nat -> ends (pop_callback t) e w (fun _ w' => P w' /\ (load _assetCallbackQueue t w' <= n)%nat).
Proof using P_heap.
  intros Hw Hl. unfold pop_callback, front_callback. ends_steps. same_obj. split; [by apply P_heap|]. rewrite (load_at _ _ _ o) in Hl by done.
  erewrite load_at by apply lookup_insert_eq. cbn. destruct (_assetCallbackQueue o); [done|]. cbn in *. lia.
Qed.

Lemma keeps_kill_requests t fuel : forall e w, P w -> (load _transferRequestQueue t w <= fuel)%nat -> ends (kill_requests respond fuel t) e w (fun _ => P).
Proof using P_heap fatal_keeps respond_load.
  induction fuel as [|fuel IH]; intros e w Hw Hf; cbn [kill_requests]; ends_step; ends_step; destruct (_transferRequestQueue o) as [|r q] eqn:Eq; [done| |done|];
    [rewrite (load_at _ _ _ o), Eq in Hf by done; cbn in Hf; lia|].
  ends_step. eapply ends_mono; [apply ends_both; [by apply fatal_keeps|apply (respond_load _transferRequestQueue (req_callback r) t); by left]|].
  intros [] w1 [H1 L1]. ends_step. eapply ends_mono; [apply (pop_request_load t e w1 fuel); [done|lia]|]. intros [] w2 [H2 L2]. by apply IH.
Qed.

Lemma keeps_kill_callbacks t fuel : forall e w, P w -> (load _assetCallbackQueue t w <= fuel)%nat -> ends (kill_callbacks respond fuel t) e w (fun _ => P).
Proof using P_heap fatal_keeps respond_load.
  induction fuel as [|fuel IH]; intros e w Hw Hf; cbn [kill_callbacks]; ends_step; ends_step; destruct (_assetCallbackQueue o) as [|r q] eqn:Eq; [done| |done|];
    [rewrite (load_at _ _ _ o), Eq in Hf by done; cbn in Hf; lia|].
  ends_step. eapply ends_mono; [apply ends_both; [by apply fatal_keeps|apply (respond_load _assetCallbackQueue (req_callback r) t); by right]|].
  intros [] w1 [H1 L1]. ends_step. eapply ends_mono; [apply (pop_callback_load t e w1 fuel); [done|lia]|]. intros [] w2 [H2 L2]. by apply IH.
Qed.

Lemma keeps_checkSafeKill t : keeps P (checkSafeKill safeKillCallback t).
Proof using safekill_keeps. unfold checkSafeKill. keeps_open. apply safekill_keeps. Qed.
Lemma keeps_close t : keeps P (close respond safeKillCallback refill t).
Proof using P_heap fatal_keeps respond_load safekill_keeps.
  intros e w Hw. unfold close. ends_step. ends_step. ends_step. ends_step. ends_step. ends_step. ends_step. ends_step. ends_step.
  eapply ends_mono; [apply keeps_kill_requests; [by apply P_heap, P_heap|by rewrite (load_at _ _ _ o1)]|]. intros [] w1 H1.
  ends_step. ends_step. ends_step. ends_step. ends_step. eapply ends_mono; [apply keeps_kill_callbacks; [done|by rewrite (load_at _ _ _ o2)]|]. intros [] w2 H2.
  by apply keeps_checkSafeKill.
Qed.

Context (respond_keeps : forall cb a er m, keeps P (respond cb a er m)).

(** Every handler of an operation that is not part of making a connection. *)
Lemma keeps_complete o ok d connectCallback : attempt o = false -> keeps P (complete respond connectCallback safeKillCallback refill o ok d).
Proof using P_heap P_op fatal_keeps respond_keeps respond_load safekill_keeps.
  destruct o; cbn [attempt complete]; intros Ho; try done.
  - unfold onAfterWriteAssetRequest, doNextQueuedRequest, front_request. keeps_open;
      auto using keeps_close, keeps_checkSafeKill, keeps_getAsset, keeps_putAsset, keeps_getIds, keeps_pop_request.
  - unfold onReadResponseHeader, positive, front_callback at 1. keeps_open; auto using keeps_close, keeps_listen, keeps_pop_callback.
  - unfold onReadResponseData, handleAssetReturned, handleConfirmation, handleDataReturned, front_callback at 1. keeps_open; auto using keeps_close, keeps_listen, keeps_pop_callback.
  - unfold onHandleRequestErrorData, front_callback at 1. keeps_open; auto using keeps_close, keeps_listen, keeps_pop_callback.
Qed.

End service_keeps.

(** ** Exact results *)

Section exact.
Context {CB CL : Type} (respond : CB -> option (list Z) -> RASError -> list Z -> act CB CL unit) (safeKillCallback : nat -> act CB CL unit) (refill : CL -> nat).

Lemma bind_done {A B} (m : act CB CL A) (k : A -> act CB CL B) e w a w' : m e w = Done (a, w') -> (m ≫= k) e w = k a e w'.
Proof using Type. unfold mbind, act_bind. by intros ->. Qed.

Lemma fld_done {A} t (f : RemoteAssetService CB -> A) e (w : world CB CL) o : heap w !! t = Some o -> fld t f e w = Done (f o, w).
Proof using Type. unfold fld. by intros ->. Qed.

Lemma set_fld_done t f e (w : world CB CL) o : heap w !! t = Some o -> set_fld t f e w = Done (tt, mkWorld (<[t := f o]> (heap w)) (next_ptr w) (ops w) (client w)).
Proof using Type. unfold set_fld. by intros ->. Qed.

(** Closing a service that owes no callbacks. *)
Lemma close_empty t e (w : world CB CL) o : heap w !! t = Some o -> _transferRequestQueue o = [] -> _assetCallbackQueue o = [] -> _safeKillCallback o = true ->
  close respond safeKillCallback refill t e w =
  (if negb (_recvActive o) && negb (_sendActive o) then safeKillCallback t else mret tt) e
    (mkWorld (<[t := set_established false (set_socket false o)]> (heap w)) (next_ptr w) (ops w) (client w)).
Proof using Type.
  intros Ho Ht Hc Hs. unfold close. erewrite bind_done by (by apply set_fld_done). erewrite bind_done by (apply set_fld_done, lookup_insert_eq).
  cbn [heap next_ptr ops client]. rewrite insert_insert_eq. set (w1 := mkWorld _ _ _ _).
  assert (H1 : heap w1 !! t = Some (set_established false (set_socket false o))) by apply lookup_insert_eq.
  erewrite bind_done by (by apply fld_done). erewrite bind_done by done.
  assert (Hk : forall n, kill_requests respond n t e w1 = Done (tt, w1)).
  { intros n. destruct n; cbn [kill_requests]; (erewrite bind_done; [|by apply fld_done]); cbn; by rewrite Ht. }
  assert (Hk' : forall n, kill_callbacks respond n t e w1 = Done (tt, w1)).
  { intros n. destruct n; cbn [kill_callbacks]; (erewrite bind_done; [|by apply fld_done]); cbn; by rewrite Hc. }
  erewrite bind_done by apply Hk. erewrite bind_done by (by apply fld_done). erewrite bind_done by done. erewrite bind_done by apply Hk'.
  unfold checkSafeKill. erewrite bind_done by (by apply fld_done). erewrite bind_done by (by apply fld_done). cbn [_assetConnectionEstablished _safeKillCallback set_established set_socket]. rewrite Hs. cbn [negb andb].
  erewrite bind_done by (by apply fld_done). by erewrite bind_done by (by apply fld_done).
Qed.

End exact.

(** ** Who asked for what *)

(** Invariants about the requests in the queues of all objects and the state of the client: [tag] relates a callback
    to the type and the id of the request. *)
Section tagged.
Context {CB CL : Type} (e : env) (tag : CB -> ClientRequestMsg.RequestType -> list Z -> Prop) (S : CL -> Prop).

Definition req_tagged (r : PendingTransferRequest CB) : Prop := tag (req_callback r) (req_type r) (req_id r).
Definition obj_tagged (o : RemoteAssetService CB) : Prop := Forall req_tagged (_transferRequestQueue o) /\ Forall req_tagged (_assetCallbackQueue o).
Definition tagged (w : world CB CL) : Prop := map_Forall (fun _ o => obj_tagged o) (heap w) /\ S (client w).

Definition safe {A} (m : act CB CL A) : Prop := forall w a w', tagged w -> m e w = Done (a, w') -> tagged w'.

Lemma safe_bind {A B} (m : act CB CL A) (k : A -> act CB CL B) : safe m -> (forall a, safe (k a)) -> safe (m ≫= k).
Proof using Type.
  intros Hm Hk w b w' Hw. unfold mbind, act_bind. destruct (m e w) as [[a w1]| | |] eqn:E; try done. intros H1. apply (Hk a w1 b w'); [|done]. by apply (Hm w a w1).
Qed.
Lemma safe_ret {A} (a : A) : safe (mret a).
Proof using Type. by intros w b w' Hw [= <- <-]. Qed.
Lemma safe_stuck {A} (m : act CB CL A) : (forall w r, m e w <> Done r) -> safe m.
Proof using Type. intros Hm w a w' Hw E. by apply Hm in E. Qed.
Lemma safe_reads {A} (m : act CB CL A) : (forall w a w', m e w = Done (a, w') -> w' = w) -> safe m.
Proof using Type. intros Hm w a w' Hw E. by rewrite (Hm _ _ _ E). Qed.
Lemma safe_checked {A} (x : option A) : safe (checked x).
Proof using Type. apply safe_reads. destruct x; by intros w a' w' [=]. Qed.
Lemma safe_checked_bind {A B} (x : option A) (k : A -> act CB CL B) : (forall a, x = Some a -> safe (k a)) -> safe (checked x ≫= k).
Proof using Type. destruct x as [a|]; intros Hk w b w' Hw; [|done]. rewrite (bind_done _ _ e w a w) by done. by apply Hk. Qed.
Lemma safe_or_throw {A} (x : option A) : safe (or_throw x).
Proof using Type. apply safe_reads. destruct x; by intros w a' w' [=]. Qed.
Lemma safe_my {A} (f : CL -> A) : safe (my f).
Proof using Type. apply safe_reads. by intros w a w' [=]. Qed.
Lemma safe_ask {A} (f : env -> A) : safe (ask f).
Proof using Type. apply safe_reads. by intros w a w' [=]. Qed.
Lemma safe_fld {A} t (f : RemoteAssetService CB -> A) : safe (fld t f).
Proof using Type. apply safe_reads. intros w a w'. unfold fld. destruct (heap w !! t); by intros [=]. Qed.
Lemma safe_set_my f : (forall c, S c -> S (f c)) -> safe (set_my f).
Proof using Type. intros Hf w a w' [Hh Hs] [= <- <-]. split; [done|]. by apply Hf. Qed.
Lemma safe_add_op b o : safe (add_op b o).
Proof using Type. by intros w a w' Hw [= <- <-]. Qed.
Lemma safe_async t o : safe (async t o).
Proof using Type. apply safe_bind; [apply safe_fld|]. intros b. apply safe_add_op. Qed.
Lemma safe_set_fld t f : (forall o, obj_tagged o -> obj_tagged (f o)) -> safe (set_fld t f).
Proof using Type.
  intros Hf w a w' [Hh Hs]. unfold set_fld. destruct (heap w !! t) as [o|] eqn:E; [|done]. intros [= <- <-]. split; [|done].
  apply map_Forall_insert_2; [|done]. apply Hf. by apply (Hh t).
Qed.
Lemma safe_allocate ep : safe (allocate (new_service ep)).
Proof using Type. intros w a w' [Hh Hs] [= <- <-]. split; [|done]. by apply map_Forall_insert_2. Qed.
Lemma safe_free t : safe (free t).
Proof using Type. intros w a w' [Hh Hs] [= <- <-]. split; [|done]. by apply map_Forall_delete. Qed.

Lemma safe_push_callback t r : req_tagged r -> safe (push_callback t r).
Proof using Type. intros Hr. apply safe_set_fld. intros o [H1 H2]. split; [done|]. apply Forall_app. split; [done|by apply Forall_singleton]. Qed.
Lemma safe_push_request t r : req_tagged r -> safe (push_request t r).
Proof using Type. intros Hr. apply safe_set_fld. intros o [H1 H2]. split; [|done]. apply Forall_app. split; [done|by apply Forall_singleton]. Qed.
(** What is at the front of a queue is tagged. *)
Lemma safe_front_callback {B} t (k : PendingTransferRequest CB -> act CB CL B) : (forall r, req_tagged r -> safe (k r)) -> safe (front_callback t ≫= k).
Proof using Type.
  intros Hk w b w' Hw. unfold front_callback, mbind, act_bind, fld. destruct (heap w !! t) as [o|] eqn:Eo; [|done]. destruct (_assetCallbackQueue o) as [|r q] eqn:Eq; [done|].
  intros E. refine (Hk r _ w b w' Hw E). destruct Hw as [Hh _]. destruct (Hh t o Eo) as [_ Hq]. rewrite Eq in Hq. by inversion Hq.
Qed.
Lemma safe_front_request {B} t (k : PendingTransferRequest CB -> act CB CL B) : (forall r, req_tagged r -> safe (k r)) -> safe (front_request t ≫= k).
Proof using Type.
  intros Hk w b w' Hw. unfold front_request, mbind, act_bind, fld. destruct (heap w !! t) as [o|] eqn:Eo; [|done]. destruct (_transferRequestQueue o) as [|r q] eqn:Eq; [done|].
  intros E. refine (Hk r _ w b w' Hw E). destruct Hw as [Hh _]. destruct (Hh t o Eo) as [Hq _]. rewrite Eq in Hq. by inversion Hq.
Qed.
Lemma safe_pop_callback t : safe (pop_callback t).
Proof using Type. apply safe_front_callback. intros r Hr. apply safe_set_fld. intros o [H1 H2]. split; [done|]. cbn. destruct H2; [done|by cbn]. Qed.
Lemma safe_pop_request t : safe (pop_request t).
Proof using Type. apply safe_front_request. intros r Hr. apply safe_set_fld. intros o [H1 H2]. split; [|done]. cbn. destruct H1; [done|by cbn]. Qed.

End tagged.

Ltac safe_open :=
  repeat (first [ assumption | lazymatch goal with
    | |- safe _ _ _ (mbind _ (front_callback _)) => apply safe_front_callback; intros ? ?
    | |- safe _ _ _ (mbind _ (front_request _)) => apply safe_front_request; intros ? ?
    | |- safe _ _ _ (mbind _ (request_type _)) => fail
    | |- safe _ _ _ (mbind _ (checked _)) => apply safe_checked_bind; intros ? ?
    | |- safe _ _ _ (mbind _ _) => apply safe_bind; [|intro]
    | |- safe _ _ _ (mret _) => apply safe_ret
    | |- safe _ _ _ undefined => by apply safe_stuck
    | |- safe _ _ _ uncaught => by apply safe_stuck
    | |- safe _ _ _ out_of_fuel => by apply safe_stuck
    | |- safe _ _ _ (checked _) => apply safe_checked
    | |- safe _ _ _ (or_throw _) => apply safe_or_throw
    | |- safe _ _ _ (my _) => apply safe_my
    | |- safe _ _ _ (ask _) => apply safe_ask
    | |- safe _ _ _ (fld _ _) => apply safe_fld
    | |- safe _ _ _ (set_fld _ _) => apply safe_set_fld; by intros ? []
    | |- safe _ _ _ (allocate _) => apply safe_allocate
    | |- safe _ _ _ (free _) => apply safe_free
    | |- safe _ _ _ (async _ _) => apply safe_async
    | |- safe _ _ _ (post _) => apply safe_add_op
    | |- safe _ _ _ (pop_callback _) => apply safe_pop_callback
    | |- safe _ _ _ (pop_request _) => apply safe_pop_request
    | |- safe _ _ _ (if ?b then _ else _) => destruct b eqn:?
    | |- safe _ _ _ (match ?x with _ => _ end) => destruct x eqn:?
    end ]; cbn beta zeta).

Section service_safe.
Context {CB CL : Type} (e : env) (tag : CB -> ClientRequestMsg.RequestType -> list Z -> Prop) (C : CL -> Prop).
Notation safe := (safe e tag C).
(** A put is not known by its id. *)
Context (tag_put : forall cb u u', tag cb ClientRequestMsg.RT_PUT u -> tag cb ClientRequestMsg.RT_PUT u').

Lemma safe_request_type (m : ClientRequestMsg.t) (P : ClientRequestMsg.RequestType -> Prop) {B} (k : ClientRequestMsg.RequestType -> act CB CL B) :
  (forall t, ClientRequestMsg.getType m = inr t -> P t) -> (forall t, P t -> safe (k t)) -> safe (request_type m ≫= k).
Proof using Type.
  intros Hm Hk. unfold request_type. destruct (ClientRequestMsg.getType m) as [[]|t] eqn:E.
  - intros w a w' Hw. done.
  - intros w a w' Hw. cbn. by apply Hk; [apply Hm|].
Qed.

Lemma safe_getAsset t u (c : bool) cb : tag cb (if c then ClientRequestMsg.RT_GET else ClientRequestMsg.RT_GET_DONTCACHE) u -> safe (getAsset t u c cb).
Proof using Type.
  intros Ht. unfold getAsset, sendGetRequest. safe_open; try (by apply safe_push_request); try (by apply safe_add_op).
  apply (safe_request_type _ (fun ty => ty = if c then ClientRequestMsg.RT_GET else ClientRequestMsg.RT_GET_DONTCACHE)); [by destruct c; intros ? [=]|].
  intros ty ->. by apply safe_push_callback.
Qed.

Lemma put_type a m : ClientRequestMsg.new_put a = Some m -> ClientRequestMsg.getType m = inr ClientRequestMsg.RT_PUT.
Proof using Type. 
  unfold ClientRequestMsg.new_put. destruct (Asset.getUUID a) as [u|]; [|done]. unfold store_htonl. cbn [mbind option_bind]. case_bool; [|done]. by intros [= <-].
Qed.

Lemma safe_putAsset t a cb u : tag cb ClientRequestMsg.RT_PUT u -> safe (putAsset t a cb).
Proof using tag_put.
  intros Ht. unfold putAsset, sendPutRequest. safe_open; try (by apply safe_add_op); try (apply safe_push_request; by eapply tag_put).
  apply (safe_request_type _ (fun ty => ty = ClientRequestMsg.RT_PUT)); [erewrite put_type by eassumption; congruence|]. intros ty ->. apply safe_push_callback. by eapply tag_put.
Qed.

Lemma safe_getIds t p cb : tag cb ClientRequestMsg.RT_STORED_ASSET_IDS_GET p -> safe (getStoredAssetIDsWithPrefix t p cb).
Proof using Type.
  intros Ht. unfold getStoredAssetIDsWithPrefix, sendAssetIdsRequest. safe_open; try (by apply safe_push_request); try (by apply safe_add_op); by apply safe_push_callback.
Qed.

Context (respond : CB -> option (list Z) -> RASError -> list Z -> act CB CL unit) (connectCallback : nat -> bool -> act CB CL unit)
  (safeKillCallback : nat -> act CB CL unit) (refill : CL -> nat).
(** The asset of a callback is one that it asked for. *)
Context (respond_safe : forall cb a er m, (forall x, a = Some x -> exists u, (tag cb ClientRequestMsg.RT_GET u \/ tag cb ClientRequestMsg.RT_GET_DONTCACHE u) /\ Asset.getUUID x = Some u) ->
  safe (respond cb a er m)).
Context (connect_safe : forall t b, safe (connectCallback t b)) (safekill_safe : forall t, safe (safeKillCallback t)).

Lemma safe_nothing cb er m : safe (respond cb None er m).
Proof using respond_safe. by apply respond_safe. Qed.

Lemma safe_kill_requests t fuel : safe (kill_requests respond fuel t).
Proof using respond_safe. induction fuel; cbn [kill_requests]; safe_open; apply safe_nothing. Qed.
Lemma safe_kill_callbacks t fuel : safe (kill_callbacks respond fuel t).
Proof using respond_safe. induction fuel; cbn [kill_callbacks]; safe_open; apply safe_nothing. Qed.
Lemma safe_checkSafeKill t : safe (checkSafeKill safeKillCallback t).
Proof using safekill_safe. unfold checkSafeKill. safe_open; apply safekill_safe. Qed.
Lemma safe_close t : safe (close respond safeKillCallback refill t).
Proof using respond_safe safekill_safe. unfold close. safe_open; [apply safe_kill_requests|apply safe_kill_callbacks|apply safe_checkSafeKill]. Qed.
Lemma safe_listen t : safe (listenForServerResponses t).
Proof using Type. unfold listenForServerResponses. safe_open. Qed.
Lemma safe_connect t : safe (connect t).
Proof using Type. unfold connect. safe_open. Qed.
Lemma safe_connection_result t : safe (onConnectionResult connectCallback t).
Proof using connect_safe. unfold onConnectionResult. safe_open; first [apply connect_safe|apply safe_listen]. Qed.

Lemma safe_next t : safe (doNextQueuedRequest t).
Proof using tag_put.
  unfold doNextQueuedRequest. apply safe_front_request. intros r Hr. unfold req_tagged in Hr. apply safe_bind; [|intros; apply safe_pop_request].
  destruct (req_type r); safe_open; [by apply safe_getAsset|by eapply safe_putAsset|by apply safe_getIds|by apply safe_getAsset].
Qed.

Lemma safe_data t err d : safe (onReadResponseData respond safeKillCallback refill t err d).
Proof using respond_safe safekill_safe.
  unfold onReadResponseData. apply safe_bind; [safe_open|intros _]. apply safe_bind; [safe_open|intros est]. case_bool; [|apply safe_close].
  apply safe_front_callback. intros r Hr. unfold req_tagged in Hr. cbn zeta.
  assert (Hret : tag (req_callback r) ClientRequestMsg.RT_GET (req_id r) \/ tag (req_callback r) ClientRequestMsg.RT_GET_DONTCACHE (req_id r) ->
    safe (handleAssetReturned respond safeKillCallback refill t r d)).
  { intros Ht. unfold handleAssetReturned. apply safe_checked_bind. intros u Eu.
    case_bool; [|apply safe_close]. apply bool_decide_eq_true in Heqb0 as ->. apply safe_bind; [|intros; apply safe_listen]. apply respond_safe. intros y [= <-]. by exists (req_id r). }
  unfold handleConfirmation, handleDataReturned. destruct (req_type r); safe_open; try apply safe_nothing; try apply safe_listen; try apply safe_close; apply Hret; auto.
Qed.

Lemma safe_complete o ok d : safe (complete respond connectCallback safeKillCallback refill o ok d).
Proof using tag_put respond_safe connect_safe safekill_safe.
  destruct o; cbn [complete].
  - unfold onConnect. safe_open. apply safe_connection_result.
  - unfold onRecvChallenge, sendChallengeResponse. safe_open. apply safe_connection_result.
  - unfold onChallengeResponseWrite. safe_open. apply safe_connection_result.
  - unfold onAuthenticationStatus. safe_open; apply safe_connection_result.
  - unfold onAfterWriteAssetRequest. safe_open; first [apply safe_next|apply safe_checkSafeKill|apply safe_close].
  - unfold onReadResponseHeader, positive. safe_open; first [apply safe_close|apply safe_nothing|apply safe_listen].
  - apply safe_data.
  - unfold onHandleRequestErrorData. safe_open; first [apply safe_close|apply safe_nothing|apply safe_listen].
  - apply safe_nothing.
Qed.

End service_safe.

(** ** A client that calls back *)

(** The callbacks of this client note what they get and then call the service back: each response and each connection
    result takes the next entry of a plan, and makes the calls in it.  The plan is any list, so the
    callbacks may make any requests at any time; they do not close the service and do not destroy it. *)
Notation note CB := (CB * option (list Z) * RASError)%type.

Section calling.
Context {CB : Type}.

Inductive call :=
  | CConnect
  | CGet (assetId : list Z) (cache : bool) (cb : CB)
  | CPut (asset : list Z) (cb : CB)
  | CIds (prefix : list Z) (cb : CB).

(** [made] are the calls that the callbacks made, with the state of the connection then. *)
Record client_state := mkClient { notes : list (note CB); plan : list (list call); made : list (call * bool) }.
Notation world := (world CB client_state).
Notation act := (act CB client_state).
Implicit Types (w : world) (k : list CB) (e : env).

Definition issue (c : call) : act unit :=
  match c with
  | CConnect => connect 0
  | CGet u cache cb => getAsset 0 u cache cb
  | CPut a cb => putAsset 0 a cb
  | CIds p cb => getStoredAssetIDsWithPrefix 0 p cb
  end.

Definition add_note (n : note CB) (s : client_state) : client_state := mkClient (notes s ++ [n]) (plan s) (made s).
Definition add_made (x : call * bool) (s : client_state) : client_state := mkClient (notes s) (plan s) (made s ++ [x]).
Definition next_plan (s : client_state) : client_state := mkClient (notes s) (tail (plan s)) (made s).
Definition planned (s : client_state) : list call := default [] (head (plan s)).

Fixpoint make_calls (cs : list call) : act unit :=
  match cs with
  | [] => mret tt
  | c :: cs =>
      established ← fld 0 _assetConnectionEstablished;
      _ ← issue c;
      _ ← set_my (add_made (c, established));
      make_calls cs
  end.

Definition react : act unit := cs ← my planned; _ ← set_my next_plan; make_calls cs.
Definition take_note (cb : CB) (asset : option (list Z)) (er : RASError) (message : list Z) : act unit := _ ← set_my (add_note (cb, asset, er)); react.
Definition on_connect (this : nat) (success : bool) : act unit := react.
Definition no_safekill (this : nat) : act unit := mret tt.
Definition planned_calls (s : client_state) : nat := length (concat (plan s)).

(** What can happen to the service at address 0: its operations are called, or the io
    service completes something. *)
Inductive label := LCall (c : call) | LClose | LIo (n : nat) (ok : bool) (data : list Z).

Definition client_step (e : env) w (l : label) : option (result (unit * world)) :=
  match l with
  | LCall c => Some (issue c e w)
  | LClose => Some (close take_note no_safekill planned_calls 0 e w)
  | LIo n ok data => io_step take_note on_connect no_safekill planned_calls e w n ok data
  end.

Definition client_start (ep : endpoint) (p : list (list call)) : world := mkWorld {[0%nat := set_safekill true (new_service ep)]} 1 [] (mkClient [] p []).

Definition established w : bool := default false (_assetConnectionEstablished <$> heap w !! 0%nat).

(** Runs, latest step first; each label comes with the state of the connection before it. *)
Inductive serves (ep : endpoint) (p : list (list call)) : list (label * bool) -> world -> Prop :=
  | serves_nil : serves ep p [] (client_start ep p)
  | serves_cons tr w e l w' : serves ep p tr w -> client_step e w l = Some (Done (tt, w')) -> serves ep p ((l, established w) :: tr) w'.

(** The calls of a run, and the callbacks that they ask for: two for a request made without a connection. *)
Definition called (x : label * bool) : list (call * bool) := match x.1 with LCall c => [(c, x.2)] | _ => [] end.
Definition owed_by (x : call * bool) : list CB :=
  match x.1 with CConnect => [] | CGet _ _ cb | CPut _ cb | CIds _ cb => if x.2 then [cb] else [cb; cb] end.
(** All calls: those of the run, and those that its callbacks made. *)
Definition all_calls (tr : list (label * bool)) w : list (call * bool) := (tr ≫= called) ++ made (client w).

Definition queued (o : RemoteAssetService CB) : list CB := map req_callback (_transferRequestQueue o ++ _assetCallbackQueue o).
Definition posted_by (x : bool * op CB) : list CB := match x.2 with Posted cb _ _ => [cb] | _ => [] end.
Definition answered (l : list (note CB)) : list CB := map (fun n => n.1.1) l.
(** Every callback is in the notes, in a queue of the service or posted to the io service. *)
Definition accounted w : list CB := answered (notes (client w)) ++ default [] (queued <$> heap w !! 0%nat) ++ (ops w ≫= posted_by).

Section invariant.
Context (asked : CB -> list Z -> Prop).

Definition entry_ok (r : PendingTransferRequest CB) : Prop :=
  match req_type r with
  | ClientRequestMsg.RT_GET | ClientRequestMsg.RT_GET_DONTCACHE => asked (req_callback r) (req_id r)
  | ClientRequestMsg.RT_PUT | ClientRequestMsg.RT_STORED_ASSET_IDS_GET => True
  | _ => False
  end.
Definition note_ok (n : note CB) : Prop := forall a, n.1.2 = Some a -> exists id, asked n.1.1 id /\ Asset.getUUID a = Some id.

(** The operation is one of the service at address 0. *)
Definition at_zero (x : bool * op CB) : Prop :=
  match x.2 with
  | Connecting t | ReadChallenge t | WriteChallengeResponse t _ | ReadAuthStatus t | WriteRequest t _ | ReadHeader t | ReadData t _ | ReadErrorData t _ => t = 0%nat
  | Posted _ _ _ => True
  end.

(** The callbacks [k] are accounted for, queued requests are known and assets went to those who asked. *)
Definition good k (o : RemoteAssetService CB) (os : list (bool * op CB)) (l : list (note CB)) : Prop :=
  k ≡ₚ answered l ++ queued o ++ (os ≫= posted_by) /\
  Forall entry_ok (_transferRequestQueue o ++ _assetCallbackQueue o) /\ Forall note_ok l /\ Forall at_zero os.

Definition inv k w : Prop := exists o, heap w !! 0%nat = Some o /\ good k o (ops w) (notes (client w)).

(** Setters that leave the queues alone. *)
Definition keeps_queues (f : RemoteAssetService CB -> RemoteAssetService CB) : Prop :=
  forall o, _transferRequestQueue (f o) = _transferRequestQueue o /\ _assetCallbackQueue (f o) = _assetCallbackQueue o.

Lemma inv_set_fld k w e f : keeps_queues f -> inv k w -> ends (set_fld 0 f) e w (fun _ => inv k).
Proof using Type.
  intros Hf (o & Ho & Hg). apply ends_set_fld. intros o' Ho'. rewrite Ho in Ho'. injection Ho' as <-.
  exists (f o). split; [apply lookup_insert_eq|]. destruct (Hf o) as [E1 E2]. unfold good, queued in *. by rewrite E1, E2.
Qed.

Lemma inv_async k w e o : posted_by (true, o) = [] /\ at_zero (true, o) -> inv k w -> ends (async 0 o) e w (fun _ => inv k).
Proof using Type.
  intros [Hp Hz] (x & Hx & Hk & He & Hl & Ho). ends_open. exists x. split; [done|]. unfold good. cbn. split_and!; [|done..|by rewrite Forall_app, Forall_singleton].
  rewrite bind_app. cbn. unfold posted_by in *. cbn in *. by rewrite Hp, !app_nil_r.
Qed.

Lemma inv_push_callback k w e r : inv k w -> entry_ok r -> ends (push_callback 0 r) e w (fun _ => inv (req_callback r :: k)).
Proof using Type.
  intros (o & Ho & Hk & He & Hl) Hr. unfold push_callback. ends_steps. same_obj. eexists. split; [apply lookup_insert_eq|].
  unfold good, queued in *. cbn. rewrite !app_assoc, !map_app in *. cbn. split_and!; [|apply Forall_app; split; [done|by constructor]|by apply Hl..].
  rewrite Hk. solve_Permutation.
Qed.

Lemma inv_push_request k w e r : inv k w -> entry_ok r -> ends (push_request 0 r) e w (fun _ => inv (req_callback r :: k)).
Proof using Type.
  intros (o & Ho & Hk & He & Hl) Hr. unfold push_request. ends_steps. same_obj. eexists. split; [apply lookup_insert_eq|].
  unfold good, queued in *. cbn. rewrite !map_app in *. cbn. apply Forall_app in He as [H1 H2]. split_and!; [|by rewrite !Forall_app, Forall_singleton|by apply Hl..].
  rewrite Hk. solve_Permutation.
Qed.

Lemma inv_post k w e cb er m : inv k w -> ends (post (Posted cb er m)) e w (fun _ => inv (cb :: k)).
Proof using Type.
  intros (o & Ho & Hk & He & Hl & Hz). apply ends_add_op. exists o. split; [done|]. unfold good. cbn. split_and!; [|done..|by rewrite Forall_app, Forall_singleton].
  rewrite bind_app. cbn. rewrite Hk. solve_Permutation.
Qed.

Lemma request_type_get t u : request_type (CB := CB) (CL := client_state) (ClientRequestMsg.new_get t u) = mret t.
Proof using Type. by destruct t. Qed.

Lemma request_type_put a m : ClientRequestMsg.new_put a = Some m -> request_type (CB := CB) (CL := client_state) m = mret ClientRequestMsg.RT_PUT.
Proof using Type.
  unfold ClientRequestMsg.new_put. destruct (Asset.getUUID a) as [u|]; [|done]. unfold store_htonl. cbn [mbind option_bind].
  case_bool; [|done]. by intros [= <-].
Qed.

Lemma inv_send_get k w e u cb c : inv k w -> asked cb u -> ends (sendGetRequest 0 u cb c) e w (fun _ => inv (cb :: k)).
Proof using Type.
  intros Hw Ha. unfold sendGetRequest. ends_step. eapply ends_mono; [by apply inv_set_fld|]. intros [] w1 H1. cbn beta. ends_step.
  eapply ends_mono; [by apply inv_async|]. intros [] w2 H2. cbn beta.
  destruct c; rewrite request_type_get; ends_step; ends_step; cbn beta; (apply (inv_push_callback k w2 e (mkPending u cb _ None)); [done|by cbn]).
Qed.

Lemma inv_send_put k w e a cb : inv k w -> ends (sendPutRequest 0 a cb) e w (fun _ => inv (cb :: k)).
Proof using Type.
  intros Hw. unfold sendPutRequest. ends_step. eapply ends_mono; [by apply inv_set_fld|]. intros [] w1 H1. cbn beta. ends_steps.
  eapply ends_mono; [by apply inv_async|]. intros [] w2 H2. cbn beta. ends_steps. rewrite (request_type_put a _ E). ends_step.
  apply (inv_push_callback k w2 e (mkPending _ cb _ None)); [done|by cbn].
Qed.

Lemma inv_send_ids k w e p cb : inv k w -> ends (sendAssetIdsRequest 0 p cb) e w (fun _ => inv (cb :: k)).
Proof using Type.
  intros Hw. unfold sendAssetIdsRequest. ends_step. eapply ends_mono; [by apply inv_set_fld|]. intros [] w1 H1. cbn beta. ends_step.
  assert (Hk : forall u, ends (async 0 (WriteRequest 0 (ClientRequestMsg.header (ClientRequestMsg.new_get ClientRequestMsg.RT_STORED_ASSET_IDS_GET u))) ≫=
    fun _ => push_callback 0 (mkPending p cb ClientRequestMsg.RT_STORED_ASSET_IDS_GET None)) e w1 (fun _ => inv (cb :: k))).
  { intros u. ends_step. eapply ends_mono; [by apply inv_async|]. intros [] w2 H2. apply (inv_push_callback k w2 e (mkPending p cb _ None)); [done|by cbn]. }
  repeat case_bool; [exact I|apply Hk..].
Qed.

(** A request accounts for one callback, or two when there is no connection. *)
Lemma inv_request k w e cb r (send : act unit) : inv k w -> req_callback r = cb -> entry_ok r ->
  (forall k w, inv k w -> ends send e w (fun _ => inv (cb :: k))) ->
  ends (fld 0 _assetConnectionEstablished ≫= fun est => (if negb est then post (Posted cb (mkRASError true false) not_established) else mret tt) ≫= fun _ =>
    fld 0 _sendActive ≫= fun sendActive => if negb sendActive then send else push_request 0 r) e w (fun _ => inv ((if established w then [cb] else [cb; cb]) ++ k)).
Proof using Type.
  intros Hw Hc Hr Hs. ends_step. ends_step. unfold established. rewrite E. cbn [default fmap option_fmap option_map id].
  assert (Hk : forall k w', inv k w' -> ends (fld 0 _sendActive ≫= fun sendActive => if negb sendActive then send else push_request 0 r) e w' (fun _ => inv (cb :: k))).
  { intros k' w' H'. ends_step. ends_step. cbn beta. destruct (_sendActive o0); cbn [negb]; [|by apply Hs]. rewrite <- Hc. by apply inv_push_request. }
  ends_step. destruct (_assetConnectionEstablished o); cbn [negb].
  - ends_step. by apply Hk.
  - eapply ends_mono; [by apply inv_post|]. intros [] w1 H1. by apply Hk.
Qed.

Definition front (r : PendingTransferRequest CB) w : Prop := exists o q, heap w !! 0%nat = Some o /\ _transferRequestQueue o = r :: q.

Lemma inv_getAsset k w e u c cb : inv k w -> asked cb u -> ends (getAsset 0 u c cb) e w (fun _ => inv ((if established w then [cb] else [cb; cb]) ++ k)).
Proof using Type.
  intros Hw Ha. apply (inv_request k w e cb (mkPending u cb (if c then _ else _) None)); [done..|by destruct c|]. intros k' w' H'. by apply inv_send_get.
Qed.

Lemma inv_putAsset k w e a cb : inv k w -> ends (putAsset 0 a cb) e w (fun _ => inv ((if established w then [cb] else [cb; cb]) ++ k)).
Proof using Type.
  intros Hw. unfold putAsset. destruct (Asset.getUUID a) as [u|] eqn:Eu.
  - apply (inv_request k w e cb (mkPending u cb ClientRequestMsg.RT_PUT (Some a))); [done..|]. intros k' w' H'. by apply inv_send_put.
  - (** without a UUID neither way ends *) assert (Hs : forall w', ends (sendPutRequest 0 a cb) e w' (fun _ _ => False)).
    { intros w'. unfold sendPutRequest, ClientRequestMsg.new_put. rewrite Eu. ends_steps. done. }
    ends_open; try done; eapply ends_mono; [apply Hs|done|apply Hs|done].
Qed.

Lemma inv_getIds k w e p cb : inv k w -> ends (getStoredAssetIDsWithPrefix 0 p cb) e w (fun _ => inv ((if established w then [cb] else [cb; cb]) ++ k)).
Proof using Type.
  intros Hw. apply (inv_request k w e cb (mkPending p cb ClientRequestMsg.RT_STORED_ASSET_IDS_GET None)); [done..|]. intros k' w' H'. by apply inv_send_ids.
Qed.

Lemma inv_pop_request k w e r : inv (req_callback r :: k) w -> front r w -> ends (pop_request 0) e w (fun _ => inv k).
Proof using Type.
  intros (o & Ho & Hk & He & Hl) (o' & q & Ho' & Hq). same_obj. unfold pop_request, front_request. ends_steps. same_obj.
  eexists. split; [apply lookup_insert_eq|]. unfold good, queued in *. cbn. rewrite Hq in *. cbn in *. apply Forall_cons in He as [_ He]. split_and!; [|done|by apply Hl..].
  apply (Permutation_cons_inv (a := req_callback r)). rewrite Hk. solve_Permutation.
Qed.

Definition front_cb (r : PendingTransferRequest CB) w : Prop := exists o q, heap w !! 0%nat = Some o /\ _assetCallbackQueue o = r :: q.

Lemma inv_pop_callback k w e r : inv (req_callback r :: k) w -> front_cb r w -> ends (pop_callback 0) e w (fun _ => inv k).
Proof using Type.
  intros (o & Ho & Hk & He & Hl) (o' & q & Ho' & Hq). same_obj. unfold pop_callback, front_callback. ends_steps. same_obj.
  eexists. split; [apply lookup_insert_eq|]. unfold good, queued in *. cbn. rewrite Hq in *. rewrite map_app in *. apply Forall_app in He as [He1 He2]. inversion He2; subst.
  split_and!; [|by apply Forall_app|by apply Hl..]. cbn in Hk. apply (Permutation_cons_inv (a := req_callback r)). rewrite Hk. solve_Permutation.
Qed.

(** A call accounts for the callbacks it owes. *)
Lemma inv_issue k w e c : inv k w -> (forall u cache cb, c = CGet u cache cb -> asked cb u) -> ends (issue c) e w (fun _ => inv (owed_by (c, established w) ++ k)).
Proof using Type.
  intros Hw Ha. destruct c; cbn [issue owed_by fst snd app].
  - unfold connect. ends_step. eapply ends_mono; [by apply inv_set_fld|]. intros [] w1 H1. by apply inv_async.
  - apply inv_getAsset; [done|by eapply Ha].
  - by apply inv_putAsset.
  - by apply inv_getIds.
Qed.

End invariant.

Lemma inv_weaken (P Q : CB -> list Z -> Prop) k k' w : (forall cb u, P cb u -> Q cb u) -> k ≡ₚ k' -> inv P k w -> inv Q k' w.
Proof using Type.
  intros HPQ Hkk (o & Ho & Hk & He & Hl & Hz). exists o. split; [done|]. split_and!; [by rewrite <- Hkk| | |done].
  - eapply Forall_impl; [exact He|]. intros r. unfold entry_ok. destruct (req_type r); auto.
  - eapply Forall_impl; [exact Hl|]. intros n Hn a Ha. destruct (Hn a Ha) as (u & Hu & Hu'). eauto.
Qed.

(** Calls of the service only add to the ends of its queues: [n] entries at most. *)
Definition grown (n : nat) w w' : Prop := forall o, heap w !! 0%nat = Some o -> exists o' t c, heap w' !! 0%nat = Some o' /\
  _transferRequestQueue o' = _transferRequestQueue o ++ t /\ _assetCallbackQueue o' = _assetCallbackQueue o ++ c /\ (length t + length c <= n)%nat.

Lemma grown_refl w w' : heap w' = heap w -> grown 0 w w'.
Proof using Type. intros E o Ho. exists o, [], []. rewrite E, !app_nil_r. done. Qed.

Lemma grown_trans n m w1 w2 w3 : grown n w1 w2 -> grown m w2 w3 -> grown (n + m) w1 w3.
Proof using Type.
  intros H1 H2 o Ho. destruct (H1 o Ho) as (o2 & t & c & Ho2 & Ht & Hc & Hn). destruct (H2 o2 Ho2) as (o3 & t' & c' & Ho3 & Ht' & Hc' & Hn').
  exists o3, (t ++ t'), (c ++ c'). rewrite Ht', Hc', Ht, Hc, !app_assoc. split; [done|]. rewrite !length_app. split_and!; [done|done|lia].
Qed.

Definition framed (n : nat) w w' : Prop := grown n w w' /\ client w' = client w.

(** Opens a call up to its last state. *)
Ltac frame_open := ends_open; same_obj; try exact I; (split; [|done]); intros x Hx; same_obj; eexists.

Lemma push_request_framed r w e : ends (push_request 0 r) e w (fun _ w' => framed 1 w w').
Proof using Type. unfold push_request. frame_open. exists [r], []. split; [reflexivity|]. cbn. by rewrite app_nil_r. Qed.

Lemma push_callback_framed r w e : ends (push_callback 0 r) e w (fun _ w' => framed 1 w w').
Proof using Type. unfold push_callback. frame_open. exists [], [r]. split; [reflexivity|]. cbn. by rewrite app_nil_r. Qed.

Lemma set_fld_framed f w e : keeps_queues f -> ends (set_fld 0 f) e w (fun _ w' => framed 0 w w').
Proof using Type. intros Hf. frame_open. exists [], []. split; [reflexivity|]. destruct (Hf o) as [-> ->]. by rewrite !app_nil_r. Qed.

Lemma add_op_framed b o w e : ends (add_op b o) e w (fun _ w' => framed 0 w w').
Proof using Type. apply ends_add_op. split; [by apply grown_refl|done]. Qed.

Lemma framed_trans n m w1 w2 w3 : framed n w1 w2 -> framed m w2 w3 -> framed (n + m) w1 w3.
Proof using Type. intros [H1 E1] [H2 E2]. split; [by eapply grown_trans|congruence]. Qed.

Lemma framed_bind {A B} (m : act A) (f : A -> act B) n1 n2 w e : ends m e w (fun _ w' => framed n1 w w') ->
  (forall a w', ends (f a) e w' (fun _ w'' => framed n2 w' w'')) -> ends (m ≫= f) e w (fun _ w' => framed (n1 + n2) w w').
Proof using Type.
  intros Hm Hf. apply ends_bind. eapply ends_mono; [exact Hm|]. intros a w1 H1. eapply ends_mono; [apply Hf|]. intros b w2 H2. exact (framed_trans _ _ _ _ _ H1 H2).
Qed.

Lemma framed_refl w : framed 0 w w.
Proof using Type. split; [by apply grown_refl|done]. Qed.

Lemma async_framed o w e : ends (async 0 o) e w (fun _ w' => framed 0 w w').
Proof using Type. apply (framed_bind _ _ 0 0); [apply ends_fld; intros; apply framed_refl|]. intros b w'. apply add_op_framed. Qed.

Lemma send_framed (m : ClientRequestMsg.t) (r : ClientRequestMsg.RequestType -> PendingTransferRequest CB) w e :
  ends (request_type m ≫= fun t => push_callback 0 (r t)) e w (fun _ w' => framed 1 w w').
Proof using Type. unfold request_type. destruct (ClientRequestMsg.getType m); [exact I|]. apply push_callback_framed. Qed.

Lemma sendGet_framed u cb c w e : ends (sendGetRequest 0 u cb c) e w (fun _ w' => framed 1 w w').
Proof using Type.
  apply (framed_bind _ _ 0 1); [by apply set_fld_framed|]. intros _ w1. apply (framed_bind _ _ 0 1); [apply async_framed|]. intros _ w2. apply send_framed.
Qed.

Lemma sendPut_framed a cb w e : ends (sendPutRequest 0 a cb) e w (fun _ w' => framed 1 w w').
Proof using Type.
  apply (framed_bind _ _ 0 1); [by apply set_fld_framed|]. intros _ w1. apply (framed_bind _ _ 0 1); [apply ends_checked; intros; apply framed_refl|]. intros m w2.
  apply (framed_bind _ _ 0 1); [apply async_framed|]. intros _ w3. apply (framed_bind _ _ 0 1); [apply ends_checked; intros; apply framed_refl|]. intros u w4. apply send_framed.
Qed.

Lemma sendIds_framed p cb w e : ends (sendAssetIdsRequest 0 p cb) e w (fun _ w' => framed 1 w w').
Proof using Type.
  apply (framed_bind _ _ 0 1); [by apply set_fld_framed|]. intros _ w1. apply (framed_bind _ _ 0 1); [repeat case_bool; try exact I; apply framed_refl|]. intros u w2.
  apply (framed_bind _ _ 0 1); [apply async_framed|]. intros _ w3. apply push_callback_framed.
Qed.

(** The common shape of the three requests. *)
Lemma request_framed cb (send push : act unit) w e : (forall w, ends send e w (fun _ w' => framed 1 w w')) -> (forall w, ends push e w (fun _ w' => framed 1 w w')) ->
  ends (fld 0 _assetConnectionEstablished ≫= fun est => (if negb est then post (Posted cb (mkRASError true false) not_established) else mret tt) ≫= fun _ =>
    fld 0 _sendActive ≫= fun sendActive => if negb sendActive then send else push) e w (fun _ w' => framed 1 w w').
Proof using Type.
  intros Hs Hp. apply (framed_bind _ _ 0 1); [apply ends_fld; intros; apply framed_refl|]. intros est w1.
  apply (framed_bind _ _ 0 1); [case_bool; [apply add_op_framed|apply framed_refl]|]. intros _ w2.
  apply (framed_bind _ _ 0 1); [apply ends_fld; intros; apply framed_refl|]. intros b w3. case_bool; auto.
Qed.

Lemma issue_framed w e c : ends (issue c) e w (fun _ w' => framed 1 w w').
Proof using Type.
  destruct c; cbn [issue].
  - unfold connect. eapply ends_mono; [apply (framed_bind _ _ 0 0); [by apply set_fld_framed|intros; apply async_framed]|]. intros [] w' [H E]. split; [|done].
    intros o Ho. destruct (H o Ho) as (o' & t & c & ?). exists o', t, c. split_and!; try apply H0. lia.
  - apply request_framed; intros; [apply sendGet_framed|apply push_request_framed].
  - apply request_framed; intros w1; [apply sendPut_framed|]. apply (framed_bind _ _ 0 1); [apply ends_checked; intros; apply framed_refl|]. intros. apply push_request_framed.
  - apply request_framed; intros; [apply sendIds_framed|apply push_request_framed].
Qed.

(** ** The invariant with the calls of the callbacks *)

Definition asked_in (cs : list (call * bool)) (cb : CB) (u : list Z) : Prop := exists c b, (CGet u c cb, b) ∈ cs.

Section reacting.
Context (asked : CB -> list Z -> Prop).

Definition asked_all (cs : list (call * bool)) (cb : CB) (u : list Z) : Prop := asked cb u \/ asked_in cs cb u.
Definition winv k w : Prop := inv (asked_all (made (client w))) (k ++ (made (client w) ≫= owed_by)) w.

(** Whatever leaves the client alone. *)
Lemma winv_keep {A} k w e (m : act A) n : (forall P k, inv P k w -> ends m e w (fun _ => inv P k)) -> ends m e w (fun _ w' => framed n w w') -> winv k w ->
  ends m e w (fun _ => winv k).
Proof using Type. intros Hm Hf Hw. eapply ends_mono; [apply ends_both; [apply Hm, Hw|exact Hf]|]. intros a w' [Hi [_ E]]. unfold winv. by rewrite E. Qed.

Lemma winv_set_fld k w e f : keeps_queues f -> winv k w -> ends (set_fld 0 f) e w (fun _ => winv k).
Proof using Type. intros Hf. apply (winv_keep k w e _ 0); [by intros; apply inv_set_fld|by apply set_fld_framed]. Qed.

Lemma winv_async k w e o : posted_by (true, o) = [] /\ at_zero (true, o) -> winv k w -> ends (async 0 o) e w (fun _ => winv k).
Proof using Type. intros Ho. apply (winv_keep k w e _ 0); [by intros; apply inv_async|apply async_framed]. Qed.

Lemma winv_listen k w e : winv k w -> ends (listenForServerResponses 0) e w (fun _ => winv k).
Proof using Type.
  intros Hw. unfold listenForServerResponses. ends_step. eapply ends_mono; [by apply winv_set_fld|]. intros [] w1 H1. by apply winv_async.
Qed.

Lemma established_fld w o : heap w !! 0%nat = Some o -> established w = _assetConnectionEstablished o.
Proof using Type. intros E. unfold established. by rewrite E. Qed.

Lemma make_calls_winv cs : forall k w e, winv k w -> ends (make_calls cs) e w (fun _ w' => winv k w' /\ grown (length cs) w w' /\ plan (client w') = plan (client w)).
Proof using Type.
  induction cs as [|c cs IH]; intros k w e Hw; cbn [make_calls length].
  - apply ends_ret. split; [done|]. split; [by apply grown_refl|done].
  - ends_step. ends_step. cbn beta. ends_step.
    assert (Hi : ends (issue c) e w (fun _ => inv (asked_all (made (client w) ++ [(c, _assetConnectionEstablished o)])) (owed_by (c, established w) ++ k ++ (made (client w) ≫= owed_by)))).
    { apply inv_issue.
      - eapply inv_weaken; [|reflexivity|exact Hw]. intros cb u [Ha|(x & b & Hx)]; [by left|right]. exists x, b. apply elem_of_app. by left.
      - intros u cache cb ->. right. exists cache, (_assetConnectionEstablished o). apply elem_of_app. right. left. }
    eapply ends_mono; [apply ends_both; [exact Hi|apply issue_framed]|]. intros [] w1 [H1 [Hg E1]]. ends_step. ends_step.
    eapply ends_mono; [apply (IH k)|].
    + unfold winv. cbn [client made add_made]. rewrite <- E1 in H1. destruct H1 as (o1 & Ho1 & Hg1). exists o1. split; [done|]. cbn [client add_made notes ops]. unfold good in *.
      destruct Hg1 as (Hk1 & ?). split; [|done]. rewrite <- Hk1, bind_app, (established_fld w o E). cbn [mbind list_bind]. rewrite app_nil_r. solve_Permutation.
    + intros [] w2 (H2 & Hg2 & Hp2). split; [done|]. split; [|cbn in Hp2; congruence]. exact (grown_trans 1 (length cs) _ _ _ Hg Hg2).
Qed.

Lemma planned_tail (s : client_state) : planned_calls s = (length (planned s) + planned_calls (next_plan s))%nat.
Proof using Type. unfold planned_calls, planned, next_plan. destruct (plan s) as [|c cs]; [done|]. cbn. by rewrite length_app. Qed.

(** A callback: [n] requests are added, and the plan is shorter by as many calls. *)
Definition reacted w w' : Prop := exists n, grown n w w' /\ (n + planned_calls (client w') = planned_calls (client w))%nat.

Lemma react_winv k w e : winv k w -> ends react e w (fun _ w' => winv k w' /\ reacted w w').
Proof using Type.
  intros Hw. unfold react. ends_step. ends_step. ends_step. ends_step. eapply ends_mono; [apply (make_calls_winv _ k); exact Hw|].
  intros [] w1 (H1 & Hg & Hp). split; [done|]. exists (length (planned (client w))). split; [exact Hg|]. rewrite (planned_tail (client w)). f_equal. unfold planned_calls. by rewrite Hp.
Qed.

Lemma take_note_inv K k w e cb a er m : inv (asked_all (made (client w))) K w -> cb :: K ≡ₚ k ++ (made (client w) ≫= owed_by) ->
  (forall x, a = Some x -> exists u, asked_all (made (client w)) cb u /\ Asset.getUUID x = Some u) ->
  ends (take_note cb a er m) e w (fun _ w' => winv k w' /\ reacted w w').
Proof using Type.
  intros (o & Ho & Hk & He & Hl & Hz) HK Ha. unfold take_note. ends_step. ends_step. eapply ends_mono; [apply (react_winv k)|].
  - exists o. split; [done|]. unfold good, answered in *. cbn [client add_note notes made ops heap]. rewrite map_app. cbn. split_and!; [|done| |done].
    + rewrite <- HK, Hk. solve_Permutation.
    + apply Forall_app. split; [done|]. constructor; [|done]. exact Ha.
  - intros [] w1 [H1 (n & Hg & Hn)]. split; [done|]. exists n. split; [exact Hg|exact Hn].
Qed.

(** A callback that is noted while its request is still in a queue counts twice until the request is removed. *)
Lemma take_note_winv k w e cb a er m : winv k w -> (forall x, a = Some x -> exists u, asked_all (made (client w)) cb u /\ Asset.getUUID x = Some u) ->
  ends (take_note cb a er m) e w (fun _ w' => winv (cb :: k) w' /\ reacted w w').
Proof using Type. intros Hw Ha. by eapply take_note_inv. Qed.

Lemma reacted_front w w' r : reacted w w' -> front r w -> front r w'.
Proof using Type. intros (n & Hg & _) (o & q & Ho & Hq). destruct (Hg o Ho) as (o' & t & c & Ho' & Ht & _). exists o', (q ++ t). split; [done|]. by rewrite Ht, Hq. Qed.

Lemma reacted_front_cb w w' r : reacted w w' -> front_cb r w -> front_cb r w'.
Proof using Type. intros (n & Hg & _) (o & q & Ho & Hq). destruct (Hg o Ho) as (o' & t & c & Ho' & _ & Hc & _). exists o', (q ++ c). split; [done|]. by rewrite Hc, Hq. Qed.

(** ** Closing *)

Lemma winv_pop_callback k w e r : winv (req_callback r :: k) w -> front_cb r w -> ends (pop_callback 0) e w (fun _ w' => winv k w' /\ client w' = client w /\
  forall o, heap w !! 0%nat = Some o -> exists o', heap w' !! 0%nat = Some o' /\ _assetCallbackQueue o' = tail (_assetCallbackQueue o) /\ _transferRequestQueue o' = _transferRequestQueue o).
Proof using Type.
  intros Hw Hf. assert (Hs : ends (pop_callback 0) e w (fun _ w' => client w' = client w /\
    forall o, heap w !! 0%nat = Some o -> exists o', heap w' !! 0%nat = Some o' /\ _assetCallbackQueue o' = tail (_assetCallbackQueue o) /\ _transferRequestQueue o' = _transferRequestQueue o)).
  { unfold pop_callback, front_callback. ends_steps. same_obj. split; [done|]. intros x Hx. same_obj. by eexists. }
  eapply ends_mono; [apply ends_both; [apply (inv_pop_callback _ _ w e r Hw Hf)|exact Hs]|]. intros [] w' (H & E & Ho). split; [|done]. unfold winv. by rewrite E.
Qed.

Lemma winv_pop_request k w e r : winv (req_callback r :: k) w -> front r w -> ends (pop_request 0) e w (fun _ w' => winv k w' /\ client w' = client w /\
  forall o, heap w !! 0%nat = Some o -> exists o', heap w' !! 0%nat = Some o' /\ _transferRequestQueue o' = tail (_transferRequestQueue o)).
Proof using Type.
  intros Hw Hf. assert (Hs : ends (pop_request 0) e w (fun _ w' => client w' = client w /\
    forall o, heap w !! 0%nat = Some o -> exists o', heap w' !! 0%nat = Some o' /\ _transferRequestQueue o' = tail (_transferRequestQueue o))).
  { unfold pop_request, front_request. ends_steps. same_obj. split; [done|]. intros x Hx. same_obj. by eexists. }
  eapply ends_mono; [apply ends_both; [apply (inv_pop_request _ _ w e r Hw Hf)|exact Hs]|]. intros [] w' (H & E & Ho). split; [|done]. unfold winv. by rewrite E.
Qed.

(** The first loop: every answer uses up a request, and what the callback adds uses up the plan. *)
Lemma winv_kill_requests k e fuel : forall w o, winv k w -> heap w !! 0%nat = Some o -> (length (_transferRequestQueue o) + planned_calls (client w) <= fuel)%nat ->
  ends (kill_requests take_note fuel 0) e w (fun _ w' => winv k w' /\ (planned_calls (client w') <= planned_calls (client w))%nat /\
    exists o', heap w' !! 0%nat = Some o' /\ _transferRequestQueue o' = []).
Proof using Type.
  induction fuel as [|fuel IH]; intros w o Hw Ho Hf; cbn [kill_requests]; ends_step; ends_step; same_obj; destruct (_transferRequestQueue o) as [|r q] eqn:Eq;
    [apply ends_ret; by eauto|cbn in Hf; lia|apply ends_ret; by eauto|]. ends_step.
  eapply ends_mono; [by apply (take_note_winv k)|]. intros [] w1 [H1 Hr]. assert (Hfr : front r w1) by (apply (reacted_front w); [done|by exists o, q]). ends_step.
  eapply ends_mono; [by apply (winv_pop_request k w1 e r)|]. intros [] w2 (H2 & E2 & Hq2). destruct Hr as (n & Hg & Hn). destruct (Hg o Ho) as (o1 & t & c & Ho1 & Ht & _ & Hl).
  destruct (Hq2 o1 Ho1) as (o2 & Ho2 & Hq). eapply ends_mono; [apply (IH w2 o2 H2 Ho2)|].
  - rewrite Hq, Ht, Eq, E2. cbn in *. rewrite length_app. lia.
  - rewrite E2. intros [] w3 (H3 & Hp & Ho3). split; [done|]. split; [lia|done].
Qed.

(** The second loop; the callbacks may have put new requests into the other queue. *)
Lemma winv_kill_callbacks k e fuel : forall w o, winv k w -> heap w !! 0%nat = Some o -> (length (_assetCallbackQueue o) + planned_calls (client w) <= fuel)%nat ->
  ends (kill_callbacks take_note fuel 0) e w (fun _ w' => winv k w' /\
    exists o', heap w' !! 0%nat = Some o' /\ _assetCallbackQueue o' = [] /\ (planned_calls (client w) = 0%nat -> _transferRequestQueue o' = _transferRequestQueue o)).
Proof using Type.
  induction fuel as [|fuel IH]; intros w o Hw Ho Hf; cbn [kill_callbacks]; ends_step; ends_step; same_obj; destruct (_assetCallbackQueue o) as [|r q] eqn:Eq;
    [apply ends_ret; by eauto 6|cbn in Hf; lia|apply ends_ret; by eauto 6|]. ends_step.
  eapply ends_mono; [by apply (take_note_winv k)|]. intros [] w1 [H1 Hr]. assert (Hfr : front_cb r w1) by (apply (reacted_front_cb w); [done|by exists o, q]). ends_step.
  eapply ends_mono; [by apply (winv_pop_callback k w1 e r)|]. intros [] w2 (H2 & E2 & Hq2). destruct Hr as (n & Hg & Hn). destruct (Hg o Ho) as (o1 & t & c & Ho1 & Ht & Hc & Hl).
  destruct (Hq2 o1 Ho1) as (o2 & Ho2 & Hq & Hqt). eapply ends_mono; [apply (IH w2 o2 H2 Ho2)|].
  - rewrite Hq, Hc, Eq, E2. cbn in *. rewrite length_app. lia.
  - rewrite E2. intros [] w3 (H3 & o3 & Ho3 & Hc3 & Ht3). split; [done|]. exists o3. split; [done|]. split; [done|]. intros Hz.
    rewrite Ht3, Hqt, Ht by lia. destruct t; [by rewrite app_nil_r|cbn in Hl; lia].
Qed.

Lemma winv_close k w e : winv k w -> ends (close take_note no_safekill planned_calls 0) e w (fun _ w' => winv k w' /\
  exists o, heap w' !! 0%nat = Some o /\ _assetCallbackQueue o = [] /\ (planned_calls (client w) = 0%nat -> queued o = [])).
Proof using Type.
  intros Hw. unfold close. ends_step.
  eapply ends_mono; [apply ends_both; [by apply (winv_set_fld k)|by apply set_fld_framed]|]. intros [] w1 [H1 [_ E1]]. cbn beta. ends_step.
  eapply ends_mono; [apply ends_both; [by apply (winv_set_fld k)|by apply set_fld_framed]|]. intros [] w2 [H2 [_ E2]]. cbn beta. ends_steps.
  eapply ends_mono; [by apply (winv_kill_requests k e _ w2 o)|]. intros [] w3 (H3 & Hp3 & o3 & Ho3 & Q3). cbn beta. ends_steps. same_obj.
  eapply ends_mono; [by apply (winv_kill_callbacks k e _ w3 o3)|]. intros [] w4 (H4 & o4 & Ho4 & Hc4 & Ht4). unfold checkSafeKill, no_safekill.
  assert (Hend : winv k w4 /\ exists o, heap w4 !! 0%nat = Some o /\ _assetCallbackQueue o = [] /\ (planned_calls (client w) = 0%nat -> queued o = [])).
  { split; [done|]. exists o4. split; [done|]. split; [done|]. intros Hz. rewrite E2, E1 in Hp3. unfold queued. rewrite Ht4, Q3, Hc4 by lia. done. }
  by ends_steps.
Qed.

Lemma winv_closed k w e : winv k w -> ends (close take_note no_safekill planned_calls 0) e w (fun _ => winv k).
Proof using Type. intros Hw. eapply ends_mono; [by apply (winv_close k)|]. by intros [] w0 [H _]. Qed.

(** ** The handlers *)

Lemma winv_connection_result k w e : winv k w -> ends (onConnectionResult on_connect 0) e w (fun _ => winv k).
Proof using Type.
  intros Hw. unfold onConnectionResult, on_connect. ends_step. ends_step. cbn beta. ends_step. eapply ends_mono; [by apply (react_winv k)|]. intros [] w1 [H1 _]. ends_steps; [by apply winv_listen|done].
Qed.

Lemma winv_fail k w e : winv k w -> ends (set_fld 0 (set_established false) ≫= fun _ => onConnectionResult on_connect 0) e w (fun _ => winv k).
Proof using Type. intros Hw. ends_step. eapply ends_mono; [by apply (winv_set_fld k)|]. intros [] w1 H1. by apply winv_connection_result. Qed.

Lemma winv_next k w e : winv k w -> established w = true -> ends (doNextQueuedRequest 0) e w (fun _ => winv k).
Proof using Type.
  intros Hw Hest. unfold doNextQueuedRequest, front_request. ends_steps. destruct (_transferRequestQueue o) as [|r q] eqn:Eq; [done|]. injection E0 as ->.
  assert (Hf : front a w) by (by exists o, q).
  assert (Hr : entry_ok (asked_all (made (client w))) a) by (destruct Hw as (o' & Ho' & _ & Hall & _); same_obj; rewrite Eq in Hall; by inversion Hall).
  assert (Hcall : forall c, owed_by (c, true) = [req_callback a] -> (forall u cache cb, c = CGet u cache cb -> asked_all (made (client w)) cb u) ->
    ends (issue c) e w (fun _ w' => ends (pop_request 0) e w' (fun _ => winv k))).
  { intros c Hc Ha. eapply ends_mono; [apply ends_both; [by apply (inv_issue _ _ w e c Hw Ha)|apply issue_framed]|]. intros [] w1 [H1 [Hg E1]]. rewrite Hest, Hc in H1.
    assert (Hw1 : winv (req_callback a :: k) w1) by (unfold winv; rewrite E1; exact H1). destruct (Hg o E) as (o1 & t & c1 & Ho1 & Ht & _).
    eapply ends_mono; [apply (winv_pop_request k w1 e a Hw1)|by intros [] w2 [? _]]. exists o1, (q ++ t). split; [done|]. by rewrite Ht, Eq. }
  unfold entry_ok in Hr. destruct (req_type a) eqn:Et; try done; ends_steps.
  - apply (Hcall (CGet (req_id a) true (req_callback a))); [done|]. by intros ? ? ? [= <- _ <-].
  - by apply (Hcall (CPut a0 (req_callback a))).
  - by apply (Hcall (CIds (req_id a) (req_callback a))).
  - apply (Hcall (CGet (req_id a) false (req_callback a))); [done|]. by intros ? ? ? [= <- _ <-].
Qed.

Lemma winv_write k w e err n : winv k w -> ends (onAfterWriteAssetRequest take_note no_safekill planned_calls 0 err n) e w (fun _ => winv k).
Proof using Type.
  intros Hw. unfold onAfterWriteAssetRequest. ends_step. eapply ends_mono; [by apply (winv_set_fld k)|]. intros [] w1 H1. cbn beta. case_bool; [|by apply winv_closed].
  ends_steps.
  - eapply ends_mono; [apply (winv_next k); [done|]|]; [unfold established; rewrite E; cbn; by apply andb_prop in E1 as [-> _]|].
    intros [] w2 H2. unfold checkSafeKill, no_safekill. by ends_steps.
  - unfold checkSafeKill, no_safekill. by ends_steps.
Qed.

(** An answer without an asset, in the order of the two error handlers. *)
Lemma winv_error k w e m : winv k w -> ends (front_callback 0 ≫= fun req => take_note (req_callback req) None (mkRASError true false) m ≫= fun _ =>
  pop_callback 0 ≫= fun _ => listenForServerResponses 0) e w (fun _ => winv k).
Proof using Type.
  intros Hw. unfold front_callback at 1. ends_steps. destruct (_assetCallbackQueue o) as [|r q] eqn:Eq; [done|]. injection E0 as ->.
  eapply ends_mono; [by apply (take_note_winv k)|]. intros [] w1 [H1 Hr]. assert (Hf : front_cb a w1) by (apply (reacted_front_cb w); [done|by exists o, q]). ends_step.
  eapply ends_mono; [by apply (winv_pop_callback k w1 e a)|]. intros [] w2 [H2 _]. by apply winv_listen.
Qed.

Lemma winv_header k w e err h : winv k w -> ends (onReadResponseHeader take_note no_safekill planned_calls 0 err h) e w (fun _ => winv k).
Proof using Type.
  intros Hw. unfold onReadResponseHeader. ends_step. eapply ends_mono; [by apply (winv_set_fld k)|]. intros [] w1 H1. cbn beta zeta. case_bool; [|by apply winv_closed].
  assert (Hread : forall o, posted_by (true, o) = [] /\ at_zero (true, o) -> ends (set_fld 0 (set_recv true) ≫= fun _ => async 0 o) e w1 (fun _ => winv k)).
  { intros o Hp. ends_step. eapply ends_mono; [by apply (winv_set_fld k)|]. intros [] w2 H2. by apply winv_async. }
  unfold positive. do 6 ends_step; cbn beta; case_bool; [ends_step; ends_step; by apply Hread|].
  ends_step. ends_step. case_bool; [by apply winv_closed|]. ends_step. ends_step. case_bool; [ends_step; ends_step; by apply Hread|by apply winv_error].
Qed.

(** A response: a note for the front of the queue, the next read, and the removal of the front. *)
Lemma winv_respond k w e r a er m : winv k w -> front_cb r w -> (forall x, a = Some x -> exists u, asked_all (made (client w)) (req_callback r) u /\ Asset.getUUID x = Some u) ->
  ends (take_note (req_callback r) a er m ≫= fun _ => listenForServerResponses 0) e w (fun _ w' =>
    ends (fld 0 _assetCallbackQueue ≫= fun q => if negb (length q =? 0)%nat then pop_callback 0 else mret tt) e w' (fun _ => winv k)).
Proof using Type.
  intros Hw Hf Ha. ends_step. eapply ends_mono; [by apply (take_note_winv k)|]. intros [] w1 [H1 Hr]. pose proof (reacted_front_cb w w1 r Hr Hf) as Hf1. clear Hf. rename Hf1 into Hf.
  assert (Hl : ends (listenForServerResponses 0) e w1 (fun _ w' => front_cb r w')).
  { destruct Hf as (o & q & Ho & Hq). unfold listenForServerResponses. ends_open. same_obj. eexists _, q. split; [apply lookup_insert_eq|done]. }
  eapply ends_mono; [apply ends_both; [by apply winv_listen|exact Hl]|]. intros [] w2 [H2 Hf2]. pose proof Hf2 as (o & q & Ho & Hq). ends_step. ends_step. same_obj. cbn beta. rewrite Hq. cbn.
  eapply ends_mono; [by apply (winv_pop_callback k w2 e r)|]. by intros [] w3 [? _].
Qed.

Lemma winv_data k w e err d : winv k w -> ends (onReadResponseData take_note no_safekill planned_calls 0 err d) e w (fun _ => winv k).
Proof using Type.
  intros Hw. unfold onReadResponseData. ends_step. eapply ends_mono; [by apply (winv_set_fld k)|]. intros [] w1 H1. cbn beta zeta.
  ends_step. ends_step. cbn beta. case_bool; [|by apply winv_closed]. unfold front_callback at 1. ends_steps. same_obj.
  destruct (_assetCallbackQueue o) as [|r q] eqn:Eq; [done|]. injection E1 as ->.
  assert (Hf : front_cb a w1) by (by exists o, q).
  assert (Hr : entry_ok (asked_all (made (client w1))) a) by (destruct H1 as (o' & Ho' & _ & Hall & _); same_obj; rewrite Eq in Hall; apply Forall_app in Hall as [_ Hall]; by inversion Hall).
  assert (Hget : asked_all (made (client w1)) (req_callback a) (req_id a) -> ends (handleAssetReturned take_note no_safekill planned_calls 0 a d) e w1 (fun _ w' =>
    ends (fld 0 _assetCallbackQueue ≫= fun q => if negb (length q =? 0)%nat then pop_callback 0 else mret tt) e w' (fun _ => winv k))).
  { intros Ha. unfold handleAssetReturned. ends_step. ends_step. case_bool.
    - apply winv_respond; [done|done|]. intros x [= <-]. exists (req_id a). split; [done|]. apply bool_decide_eq_true in Heqb0. by subst.
    - eapply ends_mono; [by apply (winv_close k)|]. intros [] w2 (H2 & o2 & Ho2 & Hq2 & _). ends_step. ends_step. same_obj. cbn beta. by rewrite Hq2. }
  unfold entry_ok in Hr. destruct (req_type a) eqn:Et; try done; ends_step; [by apply Hget|by apply winv_respond|by apply winv_respond|by apply Hget].
Qed.

Lemma winv_error_data k w e err d : winv k w -> ends (onHandleRequestErrorData take_note no_safekill planned_calls 0 err d) e w (fun _ => winv k).
Proof using Type.
  intros Hw. unfold onHandleRequestErrorData. ends_step. eapply ends_mono; [by apply (winv_set_fld k)|]. intros [] w1 H1. cbn beta. case_bool; [|by apply winv_closed].
  by apply winv_error.
Qed.

(** Taking an operation off the list. *)
Lemma inv_take P k w n x : inv P k w -> ops w !! n = Some x ->
  at_zero x /\ exists k', k ≡ₚ posted_by x ++ k' /\ inv P k' (mkWorld (heap w) (next_ptr w) (delete n (ops w)) (client w)).
Proof using Type.
  intros (o & Ho & Hk & He & Hl & Hz) Hx. pose proof (delete_Permutation _ _ _ Hx) as Hp. split; [by eapply Forall_lookup_1|].
  exists (answered (notes (client w)) ++ queued o ++ (delete n (ops w) ≫= posted_by)). split.
  - rewrite Hk, Hp at 1. cbn. solve_Permutation.
  - exists o. split; [done|]. split_and!; [done..|]. rewrite Hp in Hz. by inversion Hz.
Qed.

Lemma winv_io k w e n ok d r : winv k w -> io_step take_note on_connect no_safekill planned_calls e w n ok d = Some r ->
  match r with Done (_, w') => winv k w' | NoFuel => False | _ => True end.
Proof using Type.
  intros Hw. unfold io_step. destruct (ops w !! n) as [x|] eqn:Ex; [|done]. cbn [mbind option_bind]. case_bool; [|done]. intros [= <-].
  destruct (inv_take _ _ w n x Hw Ex) as (Hz & k' & Hk & Hw'). destruct x as [live o].
  assert (Hgo : posted_by (live, o) = [] -> winv k (mkWorld (heap w) (next_ptr w) (delete n (ops w)) (client w))).
  { intros Hp. rewrite Hp in Hk. eapply inv_weaken; [done|symmetry; exact Hk|exact Hw']. }
  unfold at_zero in Hz. cbn [snd] in Hz. set (w0 := mkWorld _ _ _ _) in *. change (ends (complete take_note on_connect no_safekill planned_calls o ok d) e w0 (fun _ w' => winv k w')).
  destruct o; try subst; cbn [complete] in *; try specialize (Hgo eq_refl).
  - unfold onConnect. case_bool; [|by apply winv_fail]. ends_step. ends_step. case_bool; [|exact I]. ends_step.
    eapply ends_mono; [by apply (winv_set_fld k)|]. intros [] w1 H1. by apply winv_async.
  - unfold onRecvChallenge. case_bool; [|by apply winv_fail]. ends_step. eapply ends_mono; [by apply (winv_set_fld k)|]. intros [] w1 H1.
    unfold sendChallengeResponse. ends_steps. by apply winv_async.
  - unfold onChallengeResponseWrite. case_bool; [|by apply winv_fail]. by apply winv_async.
  - unfold onAuthenticationStatus. case_bool; [|by apply winv_fail]. case_bool; [by apply winv_fail|]. ends_step. ends_step. case_bool; [by apply winv_fail|].
    ends_step. eapply ends_mono; [by apply (winv_set_fld k)|]. intros [] w1 H1. by apply winv_connection_result.
  - by apply winv_write.
  - by apply winv_header.
  - by apply winv_data.
  - by apply winv_error_data.
  - eapply ends_mono; [apply (take_note_inv k' k w0); [exact Hw'|symmetry; exact Hk|done]|]. by intros [] w1 [? _].
Qed.

End reacting.

(** ** Runs *)

(** The invariant of a run. *)
Definition run_inv (tr : list (label * bool)) w : Prop := winv (asked_in (tr ≫= called)) ((tr ≫= called) ≫= owed_by) w.

Lemma winv_weaken (P Q : CB -> list Z -> Prop) k w : (forall cb u, P cb u -> Q cb u) -> winv P k w -> winv Q k w.
Proof using Type. intros HPQ. apply inv_weaken; [|done]. intros cb u [?|?]; [left|right]; auto. Qed.

Lemma serves_step_inv tr w e l r : run_inv tr w -> client_step e w l = Some r ->
  match r with Done (_, w') => run_inv ((l, established w) :: tr) w' | NoFuel => False | _ => True end.
Proof using Type.
  intros Hi Hs. unfold run_inv. destruct l; cbn [client_step] in Hs; cbn [mbind list_bind called fst snd app].
  - injection Hs as <-. change (ends (issue c) e w (fun _ => winv (asked_in ((c, established w) :: (tr ≫= called))) (owed_by (c, established w) ++ ((tr ≫= called) ≫= owed_by)))).
    eapply ends_mono; [apply ends_both; [apply (inv_issue (asked_all (asked_in ((c, established w) :: (tr ≫= called))) (made (client w))) (((tr ≫= called) ≫= owed_by) ++ (made (client w) ≫= owed_by)) w e c)|apply issue_framed]|].
    + eapply inv_weaken; [|reflexivity|exact Hi]. intros cb u [(x & b & Hx)|?]; [left; exists x, b; by right|by right].
    + intros u cache cb ->. left. exists cache, (established w). left.
    + intros [] w1 [H1 [_ E1]]. unfold winv. rewrite E1. by rewrite <- app_assoc.
  - injection Hs as <-. exact (winv_closed _ _ w e Hi).
  - exact (winv_io _ _ _ _ _ _ _ _ Hi Hs).
Qed.

Lemma serves_inv ep p tr w : serves ep p tr w -> run_inv tr w.
Proof using Type.
  induction 1 as [|tr w e l w' Hr IH Hs]; [eexists; split; [apply lookup_insert_eq|done]|]. exact (serves_step_inv tr w e l _ IH Hs).
Qed.

(** C18. Every request leads to exactly one call of its callback, for a client whose callbacks call the
    service back.  The client's response callbacks and its connect callback note what they get and then make any
    calls of [connect], [getAsset], [putAsset] and [getStoredAssetIDsWithPrefix] ([plan]); they do not call [close] and do not destroy the service,
    and neither does the safe-kill callback.  (The replication services also do that, and [PushRepl] and [PullRepl] run
    this service with them.)  At any time then
    the callbacks that have been answered, those that wait in the queues of the service
    and those posted to the io service are together those of all the requests, also of the ones made by callbacks, one each (two for a request made
    without a connection).  An asset goes to a callback that asked for its UUID.  After [close] no request waits for a response, and
    none waits to be sent unless a callback made it while [close] was running.
    The loops of [close] end, and so does every handler, when the callbacks make finitely many calls. *)
Theorem remote_requests_answered ep p tr w : serves ep p tr w ->
  (all_calls tr w ≫= owed_by) ≡ₚ accounted w /\
  (forall cb a er, (cb, Some a, er) ∈ notes (client w) -> exists u c b, (CGet u c cb, b) ∈ all_calls tr w /\ Asset.getUUID a = Some u) /\
  (forall e w', client_step e w LClose = Some (Done (tt, w')) -> (_assetCallbackQueue <$> heap w' !! 0%nat) = Some [] /\
    (planned_calls (client w) = 0%nat -> accounted w' = answered (notes (client w')) ++ (ops w' ≫= posted_by))) /\
  (forall e l, client_step e w l <> Some NoFuel).
Proof using Type.
  intros Hr. pose proof (serves_inv ep p tr w Hr) as Hi. pose proof Hi as (o & Ho & Hk & He & Hl & Hz). split_and!.
  - unfold accounted, all_calls. rewrite Ho, bind_app. exact Hk.
  - intros cb a er Hin. rewrite Forall_forall in Hl. destruct (Hl _ Hin a eq_refl) as (u & Hc & Hu). exists u. unfold all_calls.
    destruct Hc as [(c & b & Hc)|(c & b & Hc)]; exists c, b; (split; [|done]); apply elem_of_app; auto.
  - intros e w' [= Hc]. pose proof (winv_close _ _ w e Hi) as Hcl. unfold ends in Hcl. rewrite Hc in Hcl. destruct Hcl as [_ (o' & Ho' & Hq & Hz')].
    unfold accounted. rewrite Ho'. cbn. split; [by rewrite Hq|]. intros E. by rewrite Hz'.
  - intros e l Hs. exact (serves_step_inv tr w e l _ Hi Hs).
Qed.

End calling.

(** ** A concrete run *)

Section run.
Context {CB : Type}.

Fixpoint client_exec (e : env) (tr : list (label (CB := CB) * bool)) w (ls : list label) :=
  match ls with
  | [] => Some (tr, w)
  | l :: ls => match client_step e w l with Some (Done (_, w')) => client_exec e ((l, established w) :: tr) w' ls | _ => None end
  end.

Lemma exec_serves ep p e ls : forall tr w tr' w', serves ep p tr w -> client_exec e tr w ls = Some (tr', w') -> serves ep p tr' w'.
Proof.
  induction ls as [|l ls IH]; intros tr w tr' w' Hs; cbn [client_exec]; [by intros [= <- <-]|].
  destruct (client_step e w l) as [[[[] w1]| | |]|] eqn:E; try done. apply IH. by eapply serves_cons.
Qed.
End run.

Definition demo_settings : env := mkEnv [112] [] [] 0 ∅ 0.
Definition demo_id : list Z := replicate 32 48.
Definition demo_asset : list Z := demo_id ++ [0; 0].

(** The connect callback asks for an asset; the callback that gets it asks for another one, and that one is told that the connection
    was terminated; a last request is made without a connection. *)
Definition demo_plan : list (list (call (CB := Z))) := [[CGet demo_id true 7]; [CGet demo_id false 9]].
Definition demo_serves : list (label (CB := Z)) :=
  [LCall CConnect; LIo 0 true []; LIo 0 true (replicate 8 0); LIo 0 true []; LIo 0 true [1; 0]; LIo 0 true [];
   LIo 0 true (10 :: demo_id ++ [0; 0; 0; 34]); LIo 0 true demo_asset; LClose; LCall (CGet demo_id true 8)].

Lemma remote_requests_answered_witness : exists tr w, client_exec demo_settings [] (client_start ([109], 1) demo_plan) demo_serves = Some (tr, w) /\
  (all_calls tr w ≫= owed_by) ≡ₚ accounted w /\ accounted w = [7; 9; 8; 8].
Proof.
  destruct (client_exec demo_settings [] (client_start ([109], 1) demo_plan) demo_serves) as [[tr w]|] eqn:E.
  - exists tr, w. split; [done|]. destruct (remote_requests_answered ([109], 1) demo_plan tr w) as [H1 _]; [by eapply exec_serves; [apply serves_nil|]|]. split; [exact H1|].
    assert (Ha : (fun x => accounted x.2) <$> client_exec demo_settings [] (client_start ([109], 1) demo_plan) demo_serves = Some [7; 9; 8; 8]) by (vm_compute; reflexivity).
    rewrite E in Ha. by injection Ha.
  - exfalso. assert (Hs : is_Some (client_exec demo_settings [] (client_start ([109], 1) demo_plan) demo_serves)) by (vm_compute; eauto). rewrite E in Hs. by destruct Hs.
Defined.
