(* ===== verification/PushRepl.v ===== *)
(** * PushRepl: the push replication of WHIP

    Models [PushReplicationService] ([src/whip-server/whip]), which sends every asset that the server stores to
    a slave, on top of the connection of [RemoteAsset].  The service runs on a thread of its
    own: a [label] is one handler of its io service, the expiry of its timer, or a call
    from outside, which only posts.  Log messages are left out. *)
From S2P Require Import Prelude WhipWire WhipSettings RemoteAsset.
From stdpp Require Import list gmap.
#[local] Open Scope Z_scope.

Definition MAX_QUEUE_SIZE : Z := 250.

(** The only callback, [onAfterAssetPut]. *)
Inductive push_cb := AfterAssetPut.

(** [posted] are the assets of posted [doQueueAssetForPush] handlers, [stopping] the posted [doStop] handlers. *)
Record push := mkPush {
  _stop : bool; _connected : bool; _connectionMonitor : timer; _replicationSlaveEndpoint : endpoint;
  _replSlave : option nat; _sending : bool; _waitingAssets : list (list Z);
  posted : list (list Z); stopping : nat }.

Definition set_stop b s := mkPush b (_connected s) (_connectionMonitor s) (_replicationSlaveEndpoint s) (_replSlave s) (_sending s) (_waitingAssets s) (posted s) (stopping s).
Definition set_connected b s := mkPush (_stop s) b (_connectionMonitor s) (_replicationSlaveEndpoint s) (_replSlave s) (_sending s) (_waitingAssets s) (posted s) (stopping s).
Definition set_monitor f s := mkPush (_stop s) (_connected s) (f (_connectionMonitor s)) (_replicationSlaveEndpoint s) (_replSlave s) (_sending s) (_waitingAssets s) (posted s) (stopping s).
Definition set_endpoint ep s := mkPush (_stop s) (_connected s) (_connectionMonitor s) ep (_replSlave s) (_sending s) (_waitingAssets s) (posted s) (stopping s).
Definition set_slave p s := mkPush (_stop s) (_connected s) (_connectionMonitor s) (_replicationSlaveEndpoint s) p (_sending s) (_waitingAssets s) (posted s) (stopping s).
Definition set_sending b s := mkPush (_stop s) (_connected s) (_connectionMonitor s) (_replicationSlaveEndpoint s) (_replSlave s) b (_waitingAssets s) (posted s) (stopping s).
Definition set_waiting q s := mkPush (_stop s) (_connected s) (_connectionMonitor s) (_replicationSlaveEndpoint s) (_replSlave s) (_sending s) q (posted s) (stopping s).
Definition set_posted q n s := mkPush (_stop s) (_connected s) (_connectionMonitor s) (_replicationSlaveEndpoint s) (_replSlave s) (_sending s) (_waitingAssets s) q n.

Section push.
Context `{BoostParse}.
Notation act := (act push_cb push).
Notation world := (world push_cb push).

(** [_replSlave->] *)
Definition slave : act nat := p ← my _replSlave; checked p.

Definition resetConnectionMonitor : act unit :=
  stop ← my _stop;
  if stop : bool then mret tt else set_my (set_monitor arm).

Definition doPutAsset (asset : list Z) : act unit :=
  stop ← my _stop;
  if stop : bool then mret tt
  else
    _ ← set_my (set_sending true);
    this ← slave;
    putAsset this asset AfterAssetPut.

Definition pushNextWaitingAsset : act unit :=
  connected ← my _connected;
  stop ← my _stop;
  if connected && negb stop then
    queue ← my _waitingAssets;
    match queue with
    | [] => mret tt
    | asset :: rest => _ ← set_my (set_waiting rest); doPutAsset asset
    end
  else mret tt.

Definition onAfterAssetPut (asset : option (list Z)) (error : RASError) (data : list Z) : act unit :=
  _ ← set_my (set_sending false);
  pushNextWaitingAsset.

Definition doQueueAssetForPush (asset : list Z) : act unit :=
  connected ← my _connected;
  stop ← my _stop;
  if negb connected || stop then mret tt
  else
    sending ← my _sending;
    if sending : bool then
      queue ← my _waitingAssets;
      if MAX_QUEUE_SIZE <? Z.of_nat (length queue) then mret tt
      else set_my (set_waiting (queue ++ [asset]))
    else doPutAsset asset.

Definition onSafeKillConnection (assetSvc : nat) : act unit :=
  _ ← set_my (set_connected false);
  _ ← set_my (set_sending false);
  set_my (set_waiting []).

Definition onServiceConnectionStatus (ras : nat) (success : bool) : act unit :=
  _ ← (if success then set_my (set_connected true) else mret tt);
  resetConnectionMonitor.

(** The callbacks of the service that the slave is. *)
Definition push_respond (cb : push_cb) (asset : option (list Z)) (error : RASError) (data : list Z) : act unit := onAfterAssetPut asset error data.
Definition push_refill (s : push) : nat := S (length (_waitingAssets s)).
Definition close_slave : act unit := this ← slave; close push_respond onSafeKillConnection push_refill this.

(** The old connection, if any, loses its last pointer. *)
Definition makeConnection : act unit :=
  ep ← my _replicationSlaveEndpoint;
  old ← my _replSlave;
  this ← allocate (new_service ep);
  _ ← set_my (set_slave (Some this));
  _ ← (match old with Some p => free p | None => mret tt end);
  _ ← setSafekillCallback this;
  connect this.

Definition endpointChanged (newEp : endpoint) : act unit :=
  _ ← set_my (set_endpoint newEp);
  connected ← my _connected;
  if connected : bool then _ ← close_slave; resetConnectionMonitor
  else makeConnection.

Definition onCheckConnection : act unit :=
  stop ← my _stop;
  if stop : bool then mret tt
  else
    setting ← ask replication_slave;
    let slaveHpp := replicationSlave setting in
    if negb (bool_decide (slaveHpp = [])) then
      ep ← or_throw (ParseHostPortPairToTcpEndpoint slaveHpp);
      current ← my _replicationSlaveEndpoint;
      if negb (bool_decide (ep = current)) then endpointChanged ep
      else
        connected ← my _connected;
        if negb connected then makeConnection else resetConnectionMonitor
    else
      connected ← my _connected;
      _ ← (if connected : bool then close_slave else mret tt);
      resetConnectionMonitor.

Definition doStop : act unit :=
  _ ← set_my (set_stop true);
  connected ← my _connected;
  if connected : bool then close_slave else mret tt.

(** [queueAssetForPush] and [stop], called by other threads. *)
Definition queueAssetForPush (asset : list Z) : act unit := set_my (fun s => set_posted (posted s ++ [asset]) (stopping s) s).
Definition stop : act unit := set_my (fun s => set_posted (posted s) (S (stopping s)) s).

(** The constructor, [start] and the first lines of [run]. *)
Definition new_push : push := set_monitor arm (mkPush false false (mkTimer 0 0) no_endpoint None false [] [] 0).
Definition push_start : world := mkWorld ∅ 0 [] new_push.

(** ** The thread of the service *)

Inductive push_label :=
  | PIo (n : nat) (ok : bool) (data : list Z)
  | PExpire | PMonitor
  | PQueue (asset : list Z) | PQueued
  | PStop | PStopped.

Definition push_step (e : env) (w : world) (l : push_label) : option (result (unit * world)) :=
  match l with
  | PIo n ok data => io_step push_respond onServiceConnectionStatus onSafeKillConnection push_refill e w n ok data
  | PExpire => Some (set_my (set_monitor expire) e w)
  | PMonitor => if (0 <? ready (_connectionMonitor (client w)))%nat then Some ((_ ← set_my (set_monitor fired); onCheckConnection) e w) else None
  | PQueue asset => Some (queueAssetForPush asset e w)
  | PQueued => match posted (client w) with asset :: rest => Some ((_ ← set_my (fun s => set_posted rest (stopping s) s); doQueueAssetForPush asset) e w) | [] => None end
  | PStop => Some (stop e w)
  | PStopped => match stopping (client w) with S n => Some ((_ ← set_my (fun s => set_posted (posted s) n s); doStop) e w) | O => None end
  end.

Inductive pushes : world -> Prop :=
  | pushes_start : pushes push_start
  | pushes_step w e l w' : pushes w -> push_step e w l = Some (Done (tt, w')) -> pushes w'.

(** ** The monitor and the queue *)

(** Steps of a connection attempt that the io service owes. *)
Definition attempts (os : list (bool * op push_cb)) : nat := sum_list_with (fun x => Nat.b2n (attempt x.2)) os.

(** What will look after the connection: the timer, or a connection attempt. *)
Definition watchers (w : world) : nat := attempts (ops w) + waiting (_connectionMonitor (client w)) + ready (_connectionMonitor (client w)).

Definition bounded (w : world) : Prop := Z.of_nat (length (_waitingAssets (client w))) <= MAX_QUEUE_SIZE + 1.

(** [n] watchers, or at most [n] once the service is stopped. *)
Definition watched (st : bool) (n : nat) (w : world) : Prop :=
  _stop (client w) = st /\ bounded w /\ if st then (watchers w <= n)%nat else watchers w = n.

Lemma watched_heap st n h p w : watched st n w -> watched st n (mkWorld h p (ops w) (client w)).
Proof using Type. done. Qed.

Lemma attempts_app l l' : attempts (l ++ l') = (attempts l + attempts l')%nat.
Proof using Type. apply sum_list_with_app. Qed.

Lemma watched_op st n b o w : attempt o = false -> watched st n w -> watched st n (mkWorld (heap w) (next_ptr w) (ops w ++ [(b, o)]) (client w)).
Proof using Type. unfold watched, watchers, bounded. cbn. rewrite attempts_app. cbn. intros -> (? & ? & ?). split_and!; [done..|]. by rewrite Nat.add_0_r. Qed.

Lemma watched_attempt st b o w : attempt o = true -> watched st 0 w -> watched st 1 (mkWorld (heap w) (next_ptr w) (ops w ++ [(b, o)]) (client w)).
Proof using Type.
  unfold watched, watchers, bounded. cbn. rewrite attempts_app. cbn. intros -> (? & ? & Hn). split_and!; [done..|]. cbn. destruct st; lia.
Qed.

Lemma watched_weaken st w : watched st 0 w -> st = true -> watched st 1 w.
Proof using Type. intros (? & ? & Hn) ->. split_and!; [done..|lia]. Qed.

(** A put adds at most one request to the queues. *)
Definition qlen (queue : RemoteAssetService push_cb -> list (PendingTransferRequest push_cb)) (t : nat) (w : world) : nat :=
  default 0%nat ((fun o => length (queue o)) <$> heap w !! t).

Lemma put_load queue t e w p a : queue = _transferRequestQueue \/ queue = _assetCallbackQueue ->
  ends (putAsset p a AfterAssetPut) e w (fun _ w' => client w' = client w /\ (qlen queue t w' <= S (qlen queue t w))%nat).
Proof using Type.
  intros Hq. unfold putAsset, sendPutRequest, push_callback, push_request. ends_open; unfold request_type; try destruct (ClientRequestMsg.getType _); try exact I; ends_open; same_obj; split; try done;
    unfold qlen; cbn; destruct (decide (t = p)) as [->|]; simplify_map_eq; cbn; destruct Hq as [-> | ->]; cbn; rewrite ?length_app; cbn; lia.
Qed.

Lemma push_respond_load queue cb t e w : queue = _transferRequestQueue \/ queue = _assetCallbackQueue ->
  ends (push_respond cb None (mkRASError true true) terminated) e w (fun _ w' => (load push_refill queue t w' <= load push_refill queue t w)%nat).
Proof using Type.
  intros Hq. unfold push_respond, onAfterAssetPut, pushNextWaitingAsset. ends_step. ends_step. ends_step. ends_step. ends_step. ends_step. case_bool; [|exact (Nat.le_refl _)]. ends_step. ends_step. cbn [client _waitingAssets set_sending].
  destruct (_waitingAssets (client w)) as [|a q] eqn:Eq; [exact (Nat.le_refl _)|]. unfold doPutAsset, slave. ends_step. ends_step. ends_step. ends_step. case_bool; [|do 6 ends_step].
  - unfold load, push_refill. cbn. rewrite Eq. cbn. lia.
  - eapply ends_mono; [by apply (put_load queue t)|]. intros [] w1 [Hc Hl]. unfold load, push_refill, qlen in *. rewrite Hc. cbn in *. rewrite Eq. cbn. lia.
Qed.

Lemma keeps_doPutAsset st n a : keeps (watched st n) (doPutAsset a).
Proof using Type.
  unfold doPutAsset, slave. keeps_open; [by intros e w Hw|]. apply keeps_putAsset; intros; [by apply watched_heap|by apply watched_op].
Qed.

Lemma keeps_push_next st n : keeps (watched st n) pushNextWaitingAsset.
Proof using Type.
  intros e w Hw. unfold pushNextWaitingAsset. ends_step. ends_step. ends_step. ends_step. case_bool; [|done]. ends_step. ends_step.
  destruct (_waitingAssets (client w)) as [|a q] eqn:Eq; [done|]. ends_step. ends_step. apply keeps_doPutAsset. destruct Hw as (? & Hb & ?). split_and!; [done| |done].
  unfold bounded in *. cbn in *. rewrite Eq in Hb. cbn in Hb. lia.
Qed.

Lemma keeps_push_respond st n cb a er m : keeps (watched st n) (push_respond cb a er m).
Proof using Type. unfold push_respond, onAfterAssetPut. keeps_open; [by intros e w Hw|apply keeps_push_next]. Qed.

Lemma keeps_push_safekill st n t : keeps (watched st n) (onSafeKillConnection t).
Proof using Type.
  intros e w (Hs & Hb & Hn). unfold onSafeKillConnection. ends_steps. split_and!; [done| |done]. unfold bounded. cbn. unfold MAX_QUEUE_SIZE. lia.
Qed.

Lemma keeps_close_slave st n : keeps (watched st n) close_slave.
Proof using Type.
  unfold close_slave, slave. keeps_open. apply keeps_close; intros; [by apply watched_heap|apply keeps_push_respond|apply keeps_push_safekill|by apply push_respond_load].
Qed.

Lemma reset_watched st e w : watched st 0 w -> ends resetConnectionMonitor e w (fun _ => watched st 1).
Proof using Type.
  intros Hw. pose proof Hw as (Hs & Hb & Hn). unfold resetConnectionMonitor. ends_steps; [apply watched_weaken; [done|congruence]|].
  subst st. split_and!; [done..|]. unfold watchers in *. cbn -[attempts] in *. lia.
Qed.

Lemma status_watched st e w t b : watched st 0 w -> ends (onServiceConnectionStatus t b) e w (fun _ => watched st 1).
Proof using Type. intros Hw. unfold onServiceConnectionStatus. ends_step. destruct b; ends_step; by apply reset_watched. Qed.

Lemma make_watched st e w : watched st 0 w -> ends makeConnection e w (fun _ => watched st 1).
Proof using Type.
  intros Hw. unfold makeConnection, setSafekillCallback, connect. ends_step. ends_step. ends_step. ends_step. ends_step. ends_step. ends_step. ends_step.
  ends_step. eapply (ends_mono _ _ _ (fun _ => watched st 0)); [destruct (_replSlave (client w)); [by apply keeps_free; [apply watched_heap|]|done]|].
  intros [] w1 H1. ends_open. by apply watched_attempt.
Qed.

Lemma check_watched st e w : watched st 0 w -> ends onCheckConnection e w (fun _ => watched st 1).
Proof using Type.
  intros Hw. pose proof Hw as (Hs & _). unfold onCheckConnection. ends_step. ends_step. case_bool; [apply watched_weaken; [done|congruence]|]. ends_step. ends_step. cbn zeta.
  assert (Hclose : ends (close_slave ≫= fun _ => resetConnectionMonitor) e w (fun _ => watched st 1)).
  { ends_step. eapply ends_mono; [by apply keeps_close_slave|]. intros [] w1 H1. by apply reset_watched. }
  case_bool.
  - ends_step. ends_step. ends_step. ends_step. case_bool.
    + unfold endpointChanged. ends_step. ends_step. ends_step. ends_step. cbn. destruct (_connected (client w)); [|by apply make_watched].
      ends_step. eapply ends_mono; [by apply (keeps_close_slave st 0)|]. intros [] w1 H1. by apply reset_watched.
    + ends_step. ends_step. case_bool; [by apply make_watched|by apply reset_watched].
  - ends_step. ends_step. ends_step. destruct (_connected (client w)).
    + eapply ends_mono; [by apply keeps_close_slave|]. intros [] w1 H1. by apply reset_watched.
    + ends_step. by apply reset_watched.
Qed.

(** A step of a connection attempt is followed by another, or by the timer. *)
Lemma attempt_watched st e w o ok d : attempt o = true -> watched st 0 w ->
  ends (complete push_respond onServiceConnectionStatus onSafeKillConnection push_refill o ok d) e w (fun _ => watched st 1).
Proof using Type.
  intros Ho Hw.
  assert (Hresult : forall w t, watched st 0 w -> ends (onConnectionResult onServiceConnectionStatus t) e w (fun _ => watched st 1)).
  { intros w' t H'. unfold onConnectionResult. ends_step. ends_step. ends_step. eapply ends_mono; [by apply status_watched|]. intros [] w1 H1.
    ends_step. ends_step. case_bool; [|done]. apply keeps_listen; intros; [by apply watched_heap|by apply watched_op|done]. }
  assert (Hfail : forall t, ends (set_fld t (set_established false) ≫= fun _ => onConnectionResult onServiceConnectionStatus t) e w (fun _ => watched st 1)).
  { intros t. ends_step. ends_step. by apply Hresult. }
  destruct o; try done; cbn [complete].
  - unfold onConnect. case_bool; [|apply Hfail]. ends_open. by apply watched_attempt.
  - unfold onRecvChallenge, sendChallengeResponse. case_bool; [|apply Hfail]. ends_open. by apply watched_attempt.
  - unfold onChallengeResponseWrite. case_bool; [|apply Hfail]. ends_open. by apply watched_attempt.
  - unfold onAuthenticationStatus. case_bool; [|apply Hfail]. case_bool; [apply Hfail|]. ends_step. ends_step. case_bool; [apply Hfail|]. ends_step. ends_step. by apply Hresult.
Qed.

Lemma io_watched st e w n ok d r : watched st 1 w ->
  io_step push_respond onServiceConnectionStatus onSafeKillConnection push_refill e w n ok d = Some r ->
  match r with Done (_, w') => watched st 1 w' | NoFuel => False | _ => True end.
Proof using Type.
  unfold io_step. intros Hw. destruct (ops w !! n) as [[live o]|] eqn:Ex; [|done]. cbn [mbind option_bind]. case_bool; [|done]. intros [= <-].
  cbn [snd]. set (w0 := mkWorld _ _ _ _). assert (Hn : attempts (ops w) = (Nat.b2n (attempt o) + attempts (ops w0))%nat).
  { unfold attempts, w0. cbn. pose proof (delete_Permutation _ _ _ Ex) as Hp. rewrite Hp at 1. done. }
  destruct Hw as (Hs & Hb & Hw). destruct (attempt o) eqn:Eo; cbn in Hn.
  - assert (H0 : watched st 0 w0) by (split_and!; [done..|]; unfold watchers in *; rewrite Hn in Hw; destruct st; cbn in *; lia).
    exact (attempt_watched st e w0 o ok d Eo H0).
  - assert (H0 : watched st 1 w0) by (split_and!; [done..|]; unfold watchers in *; rewrite Hn in Hw; by destruct st).
    exact (keeps_complete (watched st 1) ltac:(intros; by apply watched_heap) ltac:(intros; by apply watched_op) push_respond onSafeKillConnection push_refill
      (fun cb => keeps_push_respond st 1 cb _ _ _) (keeps_push_safekill st 1) push_respond_load (keeps_push_respond st 1) o ok d onServiceConnectionStatus Eo e w0 H0).
Qed.

Lemma step_watched st e w l r : watched st 1 w -> push_step e w l = Some r ->
  match r with Done (_, w') => exists st', watched st' 1 w' | NoFuel => False | _ => True end.
Proof using Type.
  intros Hw Hs. assert (Hlift : forall m : act unit, (exists st', ends m e w (fun _ => watched st' 1)) -> m e w = r ->
    match r with Done (_, w') => exists st', watched st' 1 w' | NoFuel => False | _ => True end).
  { intros m [st' Hm] <-. unfold ends in Hm. destruct (m e w) as [[[] w']| | |]; [by exists st'|done..]. }
  pose proof Hw as (Hst & Hb & Hn). destruct l; cbn [push_step] in Hs.
  - pose proof (io_watched st e w n ok data r Hw Hs) as Hio. destruct r as [[[] w']| | |]; [by exists st|done..].
  - injection Hs as Hs. eapply Hlift; [|exact Hs]. exists st. ends_step. split_and!; [done..|]. unfold watchers in *. cbn -[attempts] in *. destruct st; lia.
  - destruct (0 <? _)%nat eqn:Heqb; [|done]. injection Hs as Hs. eapply Hlift; [|exact Hs]. exists st. ends_step. ends_step. apply check_watched. split_and!; [done..|].
    apply Nat.ltb_lt in Heqb. unfold watchers in *. cbn -[attempts] in *. destruct st; lia.
  - injection Hs as Hs. eapply Hlift; [|exact Hs]. by exists st.
  - destruct (posted (client w)) as [|a q]; [done|]. injection Hs as Hs. eapply Hlift; [|exact Hs]. exists st. ends_step. ends_step.
    unfold doQueueAssetForPush. ends_step. ends_step. ends_step. ends_step. case_bool; [done|]. ends_step. ends_step. case_bool.
    + ends_step. ends_step. cbn. case_bool; [done|]. ends_step. split_and!; [done| |done]. unfold bounded, MAX_QUEUE_SIZE in *. cbn. rewrite length_app. cbn. zbool. lia.
    + apply keeps_doPutAsset. done.
  - injection Hs as Hs. eapply Hlift; [|exact Hs]. by exists st.
  - destruct (stopping (client w)) as [|n]; [done|]. injection Hs as Hs. eapply Hlift; [|exact Hs]. exists true. ends_step. ends_step.
    assert (Hst' : forall c, watched true 1 (mkWorld (heap w) (next_ptr w) (ops w) (set_stop true (set_posted (posted c) n (client w))))).
    { intros c. split_and!; [done..|]. unfold watchers in *. cbn -[attempts] in *. destruct st; lia. }
    unfold doStop. ends_step. ends_step. ends_step. ends_step. cbn. destruct (_connected (client w)); [apply keeps_close_slave|]; apply Hst'.
Qed.

Lemma pushes_watched w : pushes w -> exists st, watched st 1 w.
Proof using Type.
  induction 1 as [|w e l w' Hr [st IH] Hs]; [exists false; split_and!; [done| |done]; unfold bounded, MAX_QUEUE_SIZE; cbn; lia|].
  exact (step_watched st e w l _ IH Hs).
Qed.

(** C19. The push replication never stops to look after its connection: until it is told to
    stop there is always exactly one of a wait of the timer and a step of a connection attempt.  The
    queue of waiting assets holds at most 251 (the comparison lets one more in than [MAX_QUEUE_SIZE]).
    The loops of [close] end, although the callbacks that it calls can refill the queues. *)
Theorem push_keeps_watch w : pushes w ->
  (_stop (client w) = false -> watchers w = 1%nat) /\ (watchers w <= 1)%nat /\
  Z.of_nat (length (_waitingAssets (client w))) <= MAX_QUEUE_SIZE + 1 /\
  (forall e l, push_step e w l <> Some NoFuel).
Proof using Type.
  intros [st Hw]%pushes_watched. pose proof Hw as (Hs & Hb & Hn). split_and!; [intros E; rewrite E in Hs; by subst st|destruct st; lia|done|].
  intros e l E. exact (step_watched st e w l _ Hw E).
Qed.

End push.

(** ** A concrete run *)

Fixpoint push_exec `{BoostParse} (e : env) (w : world push_cb push) (ls : list push_label) : option (world push_cb push) :=
  match ls with
  | [] => Some w
  | l :: ls => match push_step e w l with Some (Done (_, w)) => push_exec e w ls | _ => None end
  end.

Lemma push_exec_pushes `{BoostParse} e ls : forall w w', pushes w -> push_exec e w ls = Some w' -> pushes w'.
Proof.
  induction ls as [|l ls IH]; intros w w' Hw; cbn [push_exec]; [by intros [= <-]|].
  destruct (push_step e w l) as [[[[] w1]| | |]|] eqn:E; try done. apply IH. by eapply pushes_step.
Qed.

(** Addresses and ports that are always the same. *)
Definition demo_parse : BoostParse := {| WhipSettings.split := fun _ s => [s; s]; lexical_ushort := fun _ => Some 1; from_string := Some |}.
Definition demo_push_env : env := mkEnv [112] [] [109] 0 ∅ 0.

(** The timer goes off, the slave is connected, and of 260 assets one is sent and 251 wait. *)
Definition demo_pushes : list push_label :=
  [PExpire; PMonitor; PIo 0 true []; PIo 0 true (replicate 8 0); PIo 0 true []; PIo 0 true [1; 0]] ++ (replicate 260 demo_asset ≫= fun a => [PQueue a; PQueued]).

Lemma push_keeps_watch_witness : exists w, push_exec (H := demo_parse) demo_push_env push_start demo_pushes = Some w /\
  length (_waitingAssets (client w)) = 251%nat /\ _stop (client w) = false /\ watchers w = 1%nat.
Proof.
  assert (Hl : (fun w => (length (_waitingAssets (client w)), _stop (client w))) <$> push_exec (H := demo_parse) demo_push_env push_start demo_pushes = Some (251%nat, false)) by (vm_compute; reflexivity).
  destruct (push_exec (H := demo_parse) demo_push_env push_start demo_pushes) as [w|] eqn:E; [|done]. injection Hl as Hl Hs. exists w. split_and!; [done..|].
  apply (push_keeps_watch (H := demo_parse) w); [|done]. eapply (push_exec_pushes (H := demo_parse)); [apply pushes_start|exact E].
Defined.
