(* ===== verification/VfsData.v ===== *)
(** * VfsData: the files of the WHIP storage

    Models the synchronous part of the WHIP virtual file system
    ([src/whip-server/whip]): [DataFile] over [PosixDataFileImpl], [IndexFile] over
    [SQLiteIndexFile], [SQLiteConnection] and [SQLiteTransaction], the pool of open index files
    [SQLiteIndexFileManager] (over the [LRUCache] of [LruCache]), [VFSDatabase], [DatabaseSet]
    and the disk operations of [VFSBackend].

    An operation runs in a monad with the disk and the open index files as state and C++
    exceptions as results.  Every call of the operating system or of SQLite takes the next
    [outcome] of an oracle, so that a theorem that holds for every oracle holds for every
    pattern of failures; an exhausted oracle lets every call succeed.  [Fault] is the end
    of the process: an access outside an array, a failed assertion, or an exception during
    the unwinding of another one.  An index file has an identity (its inode): an open
    handle keeps referring to it after the file has been removed.  The table of an index file is an
    interface, [IndexTable], whose laws are what SQL says of the statements used.

    Texts of errors and log messages are left out. *)
From S2P Require Import Prelude LruCache WhipWire Uuid.
From stdpp Require Import list gmap.
#[local] Open Scope Z_scope.

(** ** Results and files *)

(** [StdError] is any other [std::exception]. *)
Inductive exn := AssetStorageError (isCritical : bool) | SQLiteError | StdError.

Inductive res (A : Type) := Ret (a : A) | Throw (e : exn) | Fault.
Arguments Ret {A}.
Arguments Throw {A}.
Arguments Fault {A}.

(** [Partial n]: a transfer of at most [n] bytes; elsewhere it counts as a failure. *)
Inductive outcome := Good | Bad | Partial (n : nat).

Inductive file_base := globals | locals.
#[export] Instance file_base_eq_dec : EqDecision file_base.
Proof. solve_decision. Defined.
#[export] Instance file_base_countable : Countable file_base.
Proof. apply (inj_countable' (fun b => match b with globals => true | locals => false end) (fun b => if b : bool then globals else locals)). by intros []. Defined.

(** A file is named by its directory under the storage root and its base name;
    ".idx" and ".data" are separate maps of the disk. *)
Notation path := (list Z * file_base)%type.

Definition INVALID_POSITION : Z := 0.
Definition UUID_PATH_CHARS : nat := 3.
Definition MAX_OPEN_FILES : Z := 512.

(** ** The table of an index file *)

Record row := mkRow { position : Z; deleted : Z }.

(** The statements on [VFSDataIndex]; [insert_row] is [None] when a constraint is violated. *)
Class IndexTable (T : Type) := {
  create_table : T;
  select_id : T -> list Z -> list row;
  select_all : T -> list (list Z * row);
  insert_row : T -> list Z -> Z -> option T;
}.

(** [asset_id] is the primary key. *)
Class IndexTableLaws (T : Type) `{IndexTable T} := {
  select_create u : select_id create_table u = [];
  select_unique t u : (length (select_id t u) <= 1)%nat;
  select_all_spec t u r : (u, r) ∈ select_all t <-> r ∈ select_id t u;
  insert_duplicate t u p : select_id t u <> [] -> insert_row t u p = None;
  insert_fresh t u p : select_id t u = [] -> exists t', insert_row t u p = Some t' /\
    forall v, select_id t' v = if decide (v = u) then [mkRow p 0] else select_id t v;
}.

(** ** Disk and monad *)

(** [inodes] maps the identity of an index file to its table; [None] has no tables yet. *)
Record disk (T : Type) := mkDisk {
  dirs : gset (list Z); idx : gmap path nat; inodes : gmap nat (option T); next_inode : nat; datas : gmap path (list Z) }.
Arguments mkDisk {T}.
Arguments dirs {T}.
Arguments idx {T}.
Arguments inodes {T}.
Arguments next_inode {T}.
Arguments datas {T}.

Definition handles : Type := LRUCache path nat EntryCountCalculator.

Record world (T : Type) := mkWorld { dsk : disk T; _openFiles : handles; oracle : list outcome }.
Arguments mkWorld {T}.
Arguments dsk {T}.
Arguments _openFiles {T}.
Arguments oracle {T}.

Definition M (T A : Type) : Type := world T -> res A * world T.

#[export] Instance M_ret T : MRet (M T) := fun A a w => (Ret a, w).
#[export] Instance M_bind T : MBind (M T) := fun A B k m w =>
  match m w with (Ret a, w) => k a w | (Throw e, w) => (Throw e, w) | (Fault, w) => (Fault, w) end.

Definition throw {T A : Type} (e : exn) : M T A := fun w => (Throw e, w).
Definition fault {T A : Type} : M T A := fun w => (Fault, w).
Definition gets {T A : Type} (f : world T -> A) : M T A := fun w => (Ret (f w), w).
Definition modify {T : Type} (f : disk T -> disk T) : M T unit := fun w => (Ret tt, mkWorld (f (dsk w)) (_openFiles w) (oracle w)).
(** A value, or an access outside an array. *)
Definition checked {T A : Type} (x : option A) : M T A := match x with Some a => mret a | None => fault end.
(** An operation of the pool of open files. *)
Definition pool {T A : Type} (f : handles -> option (A * handles)) : M T A := fun w =>
  match f (_openFiles w) with Some (a, c) => (Ret a, mkWorld (dsk w) c (oracle w)) | None => (Fault, w) end.
(** The handler sees the exception; a fault is not one. *)
Definition catch {T A : Type} (m : M T A) (h : exn -> M T A) : M T A := fun w =>
  match m w with (Throw e, w) => h e w | x => x end.
Definition next {T : Type} : M T outcome := fun w =>
  match oracle w with [] => (Ret Good, w) | o :: os => (Ret o, mkWorld (dsk w) (_openFiles w) os) end.

(** A call that fails with the exception [e] unless the outcome is good. *)
Definition attempt {T : Type} (e : exn) : M T unit := o ← next; match o with Good => mret tt | _ => throw e end.

Section files.
Context {T : Type} `{IndexTable T}.
Implicit Types (p : path) (uuid asset : list Z).

(** ** File system calls *)

Definition exists_directory (subdir : list Z) : M T bool := attempt StdError ;; gets (fun w => bool_decide (subdir ∈ dirs (dsk w))).

(** [fs::create_directory]: false is the answer for a directory that is there already. *)
Definition create_directory (subdir : list Z) : M T bool :=
  o ← next;
  match o with
  | Good =>
      modify (fun d => mkDisk ({[subdir]} ∪ dirs d) (idx d) (inodes d) (next_inode d) (datas d)) ;; mret true
  | Bad => throw StdError
  | Partial _ => mret false
  end.

Definition exists_index p : M T bool := attempt StdError ;; gets (fun w => bool_decide (is_Some (idx (dsk w) !! p))).
Definition exists_data p : M T bool := attempt StdError ;; gets (fun w => bool_decide (is_Some (datas (dsk w) !! p))).

Definition remove_index p : M T unit :=
  attempt StdError ;; modify (fun d => mkDisk (dirs d) (delete p (idx d)) (inodes d) (next_inode d) (datas d)).
Definition remove_data p : M T unit :=
  attempt StdError ;; modify (fun d => mkDisk (dirs d) (idx d) (inodes d) (next_inode d) (delete p (datas d))).

Definition set_data p (c : list Z) : M T unit := modify (fun d => mkDisk (dirs d) (idx d) (inodes d) (next_inode d) (<[p := c]> (datas d))).
Definition set_table (i : nat) (t : option T) : M T unit := modify (fun d => mkDisk (dirs d) (idx d) (<[i := t]> (inodes d)) (next_inode d) (datas d)).

End files.

(** ** PosixDataFileImpl

    The descriptor is the path and the offset, which the callers thread through; closing it, which the destructor does once
    more, has no effect on the files. *)
Module PosixDataFileImpl.
Section defs.
Context {T : Type} `{IndexTable T}.
Implicit Types (p : path) (uuid asset : list Z).
Definition error : exn := AssetStorageError true.

(** [open] for reading. *)
Definition open_read p : M T unit :=
  attempt error ;; c ← gets (fun w => datas (dsk w) !! p); match c with Some _ => mret tt | None => throw error end.

(** [open] for writing: O_CREAT without O_TRUNC. *)
Definition open_write p : M T unit :=
  attempt error ;; c ← gets (fun w => datas (dsk w) !! p); match c with Some _ => mret tt | None => set_data p [] end.

Definition contents p : M T (list Z) := gets (fun w => default [] (datas (dsk w) !! p)).

Definition size p : M T Z := attempt error ;; c ← contents p; mret (Z.of_nat (length c)).

(** [doSeek], the body of [seekg] and [seekp]: the new offset. *)
Definition doSeek (position : Z) : M T nat := attempt error ;; if position <? 0 then throw error else mret (Z.to_nat position).

(** [read] at an offset; fewer bytes than asked for are an error. *)
Definition read p (off n : nat) : M T (list Z) :=
  o ← next; c ← contents p;
  let got k := let d := take k (drop off c) in if (length d =? n)%nat then mret d else throw error in
  match o with Bad => throw error | Good => got n | Partial k => got (k `min` n)%nat end.

(** What a file holds after [data] was written at [off]. *)
Definition overwrite (c : list Z) (off : nat) (data : list Z) : list Z :=
  take off c ++ replicate (off - length c) 0 ++ data ++ drop (off + length data) c.

(** [write] at an offset: the new offset. *)
Definition write p (off : nat) (data : list Z) : M T nat :=
  o ← next; c ← contents p;
  let put k :=
    let d := take k data in
    set_data p (match d with [] => c | _ => overwrite c off d end) ;;
    if (length d =? length data)%nat then mret (off + length d)%nat else throw error in
  match o with Bad => throw error | Good => put (length data) | Partial k => put (k `min` length data)%nat end.
End defs.
End PosixDataFileImpl.

(** ** DataFile *)
Module DataFile.
Section defs.
Context {T : Type} `{IndexTable T}.
Implicit Types (p : path) (uuid asset : list Z).
Import PosixDataFileImpl.

(** "IWZDDB01" *)
Definition magic : list Z := [73; 87; 90; 68; 68; 66; 48; 49].

Definition getAssetAtPosition p (position : Z) : M T (list Z) :=
  open_read p ;; off ← doSeek position;
  b ← read p off 4; assetSize ← checked (ntohl_at b 0);
  attempt StdError ;; (* resize *)
  if assetSize =? 0 then fault
  else read p (off + 4) (Z.to_nat assetSize).

Definition writeNewAsset p asset : M T Z :=
  fileExisted ← exists_data p;
  open_write p ;;
  '(pos, off) ← (if fileExisted : bool then pos ← size p; off ← doSeek pos; mret (pos, off) else off ← write p 0 magic; mret (8, off));
  if 2 ^ 32 <=? Z.of_nat (length asset) then throw StdError (* numeric_cast *)
  else
    off ← write p off (htonl_bytes (Z.of_nat (length asset)));
    checked (asset !! 0%nat) ;;
    write p off asset ;;
    mret pos.
End defs.
End DataFile.

Section sql.
Context {T : Type} `{IndexTable T}.
Implicit Types (p : path) (uuid asset : list Z).

(** ** SQLiteConnection, SQLiteIndexFile and SQLiteIndexFileManager *)

(** A statement that the engine carries out, or not. *)
Definition query : M T unit := attempt SQLiteError.

(** [SQLiteConnection(path)]: opens or creates the file. *)
Definition SQLiteConnection p : M T nat :=
  attempt SQLiteError ;;
  d ← gets dsk;
  if negb (bool_decide (p.1 ∈ dirs d)) then throw SQLiteError
  else
    match idx d !! p with
    | Some i => mret i
    | None =>
        let i := next_inode d in
        modify (fun d => mkDisk (dirs d) (<[p := i]> (idx d)) (<[i := None]> (inodes d)) (S i) (datas d)) ;; mret i
    end.

(** The table behind a handle; without it a statement does not compile. *)
Definition table (i : nat) : M T T :=
  query ;; t ← gets (fun w => inodes (dsk w) !! i); match t with Some (Some t) => mret t | _ => throw SQLiteError end.

End sql.
Module SQLiteIndexFile.
Section defs.
Context {T : Type} `{IndexTable T}.
Implicit Types (p : path) (uuid asset : list Z).
(** [initializeDatabase]: one transaction; its destructor rolls back, and an exception
    from there during the unwinding ends the process. *)
Definition initializeDatabase (i : nat) : M T unit :=
  query ;; (* BEGIN *)
  catch (query ;; query ;; query ;; (* CREATE TABLE, CREATE TABLE, INSERT *)
         query ;; (* COMMIT *)
         set_table i (Some create_table))
        (fun e => catch query (fun _ => fault) ;; throw e).

(** The constructor. *)
Definition new p : M T nat :=
  i ← SQLiteConnection p;
  query ;;
  t ← gets (fun w => inodes (dsk w) !! i);
  match t with Some (Some _) => mret tt | _ => initializeDatabase i end ;;
  mret i.

Definition findAssetPosition (i : nat) uuid : M T Z :=
  t ← table i;
  match select_id t uuid with
  | [] => mret INVALID_POSITION
  | [r] => if deleted r =? 1 then mret INVALID_POSITION else mret (position r)
  | _ => fault
  end.

Definition recordAssetPosition (i : nat) asset (pos : Z) : M T unit :=
  uuid ← checked (Asset.getUUID asset);
  _ ← checked (Asset.getType asset);
  t ← table i;
  match insert_row t uuid pos with Some t' => set_table i (Some t') | None => throw SQLiteError end.

(** [getContainedAssetIdStrings] *)
Definition getContainedAssetIdStrings (i : nat) : M T (list (list Z)) := t ← table i; mret (map fst (select_all t)).

(** [assetRowCallback] on each row. *)
Fixpoint to_uuids (ids : list (list Z)) : M T (list (list Z)) :=
  match ids with
  | [] => mret []
  | s :: ids =>
      match uuid_t s with
      | UuidValue d => ds ← to_uuids ids; mret (d :: ds)
      | UuidThrow => throw StdError
      | UuidUninitialised => fault
      end
  end.

Definition getContainedAssetIds (i : nat) : M T (list (list Z)) := ids ← getContainedAssetIdStrings i; to_uuids ids.
End defs.
End SQLiteIndexFile.

Module SQLiteIndexFileManager.
Section defs.
Context {T : Type} `{IndexTable T}.
Implicit Types (p : path) (uuid asset : list Z).
Definition openIndexFile p : M T nat :=
  indexFile ← pool (fun c => LruCache.fetch c p true);
  match indexFile with
  | Some i => mret i
  | None => i ← SQLiteIndexFile.new p; pool (fun c => c ← LruCache.insert c p i; Some (tt, c)) ;; mret i
  end.

Definition forceCloseIndexFile p : M T unit :=
  indexFile ← pool (fun c => LruCache.fetch c p true);
  match indexFile with Some _ => pool (fun c => c ← LruCache.remove c p; Some (tt, c)) | None => mret tt end.
End defs.
End SQLiteIndexFileManager.

(** ** VFSDatabase *)
Module VFSDatabase.
Section defs.
Context {T : Type} `{IndexTable T}.
Implicit Types (p : path) (uuid asset : list Z).
Record t := mk { _path : path; _indexFile : nat }.

(** The constructor; [root] is the directory. *)
Definition new (fileNameBase : file_base) (root : list Z) : M T t :=
  there ← exists_directory root;
  if negb there then throw (AssetStorageError true)
  else i ← SQLiteIndexFileManager.openIndexFile (root, fileNameBase); mret (mk (root, fileNameBase) i).

Definition getAsset (db : t) uuid : M T (option (list Z)) :=
  assetPosition ← SQLiteIndexFile.findAssetPosition (_indexFile db) uuid;
  if assetPosition =? INVALID_POSITION then mret None
  else a ← DataFile.getAssetAtPosition (_path db) assetPosition; mret (Some a).

Definition assetExists (db : t) uuid : M T bool :=
  assetPosition ← SQLiteIndexFile.findAssetPosition (_indexFile db) uuid;
  mret (negb (assetPosition =? INVALID_POSITION)).

Definition storeAsset (db : t) asset : M T unit :=
  uuid ← checked (Asset.getUUID asset);
  there ← assetExists db uuid;
  if negb there then
    position ← DataFile.writeNewAsset (_path db) asset;
    SQLiteIndexFile.recordAssetPosition (_indexFile db) asset position
  else throw (AssetStorageError true).

Definition purgeAsset (db : t) uuid : M T unit := throw (AssetStorageError false).
End defs.
End VFSDatabase.

(** ** DatabaseSet *)
Module DatabaseSet.
Section defs.
Context {T : Type} `{IndexTable T}.
Implicit Types (p : path) (uuid asset : list Z).
Record t := mk { _globalDB : VFSDatabase.t; _localDB : VFSDatabase.t }.

Definition new (databaseRoot : list Z) : M T t :=
  g ← VFSDatabase.new globals databaseRoot; l ← VFSDatabase.new locals databaseRoot; mret (mk g l).

Definition getAsset (s : t) uuid : M T (option (list Z)) :=
  globalAsset ← VFSDatabase.getAsset (_globalDB s) uuid;
  match globalAsset with Some a => mret (Some a) | None => VFSDatabase.getAsset (_localDB s) uuid end.

Definition storeAsset (s : t) asset : M T unit :=
  isLocal ← checked (Asset.isLocal asset);
  if isLocal : bool then VFSDatabase.storeAsset (_localDB s) asset else VFSDatabase.storeAsset (_globalDB s) asset.

Definition assetExists (s : t) uuid : M T bool :=
  g ← VFSDatabase.assetExists (_globalDB s) uuid;
  if g : bool then mret true else VFSDatabase.assetExists (_localDB s) uuid.

Definition purgeAsset (s : t) uuid : M T unit :=
  g ← VFSDatabase.assetExists (_globalDB s) uuid;
  if g : bool then VFSDatabase.purgeAsset (_globalDB s) uuid
  else
    l ← VFSDatabase.assetExists (_localDB s) uuid;
    if l : bool then VFSDatabase.purgeAsset (_localDB s) uuid else throw (AssetStorageError false).
End defs.
End DatabaseSet.

Section backend.
Context {T : Type} `{IndexTable T}.
Implicit Types (p : path) (uuid asset : list Z).

(** ** The disk operations of VFSBackend *)

(** The directory of an asset under the storage root. *)
Definition getFullPathForUUID uuid : list Z := take UUID_PATH_CHARS uuid.

Definition verifyDatabaseDirectory uuid : M T unit :=
  let subdir := getFullPathForUUID uuid in
  there ← exists_directory subdir;
  if negb there then
    created ← create_directory subdir;
    if negb created then throw (AssetStorageError true) else mret tt
  else mret tt.

Definition verifyAndopenSetForUUID uuid : M T DatabaseSet.t :=
  catch (verifyDatabaseDirectory uuid ;; DatabaseSet.new (getFullPathForUUID uuid))
        (fun e => match e with SQLiteError => throw (AssetStorageError true) | _ => throw e end).

Definition disk_getAsset uuid : M T (option (list Z)) :=
  dbset ← verifyAndopenSetForUUID uuid; DatabaseSet.getAsset dbset uuid.

Definition disk_storeAsset asset : M T unit :=
  uuid ← checked (Asset.getUUID asset);
  dbset ← verifyAndopenSetForUUID uuid; DatabaseSet.storeAsset dbset asset.

(** The lookup of [performDiskPurgeLocals]: [None] without a file. *)
Definition list_locals (uuidHead : list Z) : M T (option (list (list Z))) :=
  there ← exists_index (uuidHead, locals);
  if there : bool then
    i ← SQLiteIndexFileManager.openIndexFile (uuidHead, locals);
    ids ← SQLiteIndexFile.getContainedAssetIds i; mret (Some ids)
  else mret None.

Definition performLocalsPhysicalDeletion (uuidHead : list Z) : M T unit :=
  SQLiteIndexFileManager.forceCloseIndexFile (uuidHead, locals) ;;
  remove_index (uuidHead, locals) ;;
  remove_data (uuidHead, locals).

(** The listing of [performGetStoredAssetIds]. *)
Definition list_globals (prefix : list Z) : M T (list (list Z)) :=
  there ← exists_index (prefix, globals);
  if there : bool then
    i ← SQLiteIndexFileManager.openIndexFile (prefix, globals); SQLiteIndexFile.getContainedAssetIdStrings i
  else mret [].
End backend.

(** ** An implementation of the table interface: a finite map *)

#[export] Instance map_table : IndexTable (gmap (list Z) row) := {
  create_table := ∅;
  select_id t u := match t !! u with Some r => [r] | None => [] end;
  select_all t := map_to_list t;
  insert_row t u p := match t !! u with Some _ => None | None => Some (<[u := mkRow p 0]> t) end;
}.

#[export] Instance map_table_laws : IndexTableLaws (gmap (list Z) row).
Proof.
  split; cbn.
  - done.
  - intros t u. destruct (t !! u); cbn; lia.
  - intros t u r. rewrite elem_of_map_to_list. destruct (t !! u); set_solver.
  - intros t u p. by destruct (t !! u).
  - intros t u p Hu. destruct (t !! u); [done|]. eexists. split; [done|]. intros v. case_decide as Hv.
    + subst v. by rewrite lookup_insert_eq.
    + by rewrite lookup_insert_ne by done.
Qed.

(** ** Invariants *)

Section invariants.
Context {T : Type} `{IndexTableLaws T}.
Implicit Types (p q : path) (u a : list Z) (d : disk T) (w : world T) (i : nat).

(** The rows for an id in the index file of [p]. *)
Definition rows d p u : list row :=
  match idx d !! p with
  | Some i => match inodes d !! i with Some (Some t) => select_id t u | _ => [] end
  | None => []
  end.

Definition data d p : list Z := default [] (datas d !! p).

(** [a] is stored at [pos] of the data file [c], behind its size. *)
Definition asset_at (c : list Z) (pos : Z) a : Prop :=
  exists pre post, c = pre ++ htonl_bytes (Z.of_nat (length a)) ++ a ++ post /\ Z.of_nat (length pre) = pos /\ Z.of_nat (length a) < 2 ^ 32 /\ a <> [].

(** A handle of the index file that is at [p] now. *)
Definition opened d p i : Prop := idx d !! p = Some i /\ exists t, inodes d !! i = Some (Some t).

Record disk_ok d : Prop := {
  ok_idx p i : idx d !! p = Some i -> (i < next_inode d)%nat /\ p.1 ∈ dirs d;
  ok_inode i : is_Some (inodes d !! i) -> (i < next_inode d)%nat;
  ok_inj p q i : idx d !! p = Some i -> idx d !! q = Some i -> p = q;
}.

(** Every handle in the pool is the one of the file that has its path. *)
Definition pool_ok d (c : handles) : Prop :=
  exists es, rep (weight := fun _ => 1) c es /\ _max_size c = MAX_OPEN_FILES /\ LruCache.total (fun _ => 1) es <= MAX_OPEN_FILES /\
    forall p i, (p, i) ∈ es -> opened d p i.

Definition coherent w : Prop := disk_ok (dsk w) /\ pool_ok (dsk w) (_openFiles w).

(** What an operation that looks things up may change: directories and empty tables appear;
    and what one that appends to the data file of [p] may change besides. *)
Record keeps (P : path -> Prop) d d' : Prop := {
  keeps_dirs : dirs d ⊆ dirs d';
  keeps_idx p i : idx d !! p = Some i -> idx d' !! p = Some i;
  keeps_inode i t : inodes d !! i = Some (Some t) -> inodes d' !! i = Some (Some t);
  keeps_rows p u : rows d' p u = rows d p u;
  keeps_data p : ~ P p -> datas d' !! p = datas d !! p;
  keeps_prefix p : data d p `prefix_of` data d' p;
  keeps_file p : is_Some (datas d !! p) -> is_Some (datas d' !! p);
}.

Lemma keeps_refl P d : keeps P d d.
Proof using Type. split; done. Qed.

Lemma keeps_trans P d1 d2 d3 : keeps P d1 d2 -> keeps P d2 d3 -> keeps P d1 d3.
Proof using Type.
  intros H1 H2. split.
  - etrans; [apply H1|apply H2].
  - intros p i Hp. by apply H2, H1.
  - intros i t Ht. by apply H2, H1.
  - intros p u. by rewrite (keeps_rows _ _ _ H2), (keeps_rows _ _ _ H1).
  - intros p Hp. by rewrite (keeps_data _ _ _ H2), (keeps_data _ _ _ H1).
  - intros p. etrans; [apply H1|apply H2].
  - intros p Hp. by apply H2, H1.
Qed.

Lemma keeps_weaken (P Q : path -> Prop) d d' : (forall p, P p -> Q p) -> keeps P d d' -> keeps Q d d'.
Proof using Type. intros HPQ HK. destruct HK as [K1 K2 K3 K4 K5 K6 K7]. split; eauto. Qed.

Lemma keeps_opened P d d' p i : keeps P d d' -> opened d p i -> opened d' p i.
Proof using Type. intros HK [Hi [t Ht]]. split; [by apply HK|]. exists t. by apply HK. Qed.

(** [m] run from [w] keeps the structure and the files that [keeps P] names; unless [F] holds or
    the oracle has faults left, it returns; and what it returns satisfies [Q]. *)
Definition runs (P : path -> Prop) (F : Prop) {A} (m : M T A) w (Q : A -> world T -> Prop) : Prop :=
  let '(r, w') := m w in
  coherent w' /\ keeps P (dsk w) (dsk w') /\ (oracle w = [] -> oracle w' = []) /\
  match r with Ret x => Q x w' | _ => F \/ oracle w <> [] end.

Lemma runs_bind P F {A B} (m : M T A) (k : A -> M T B) w Q Q' :
  runs P F m w Q -> (forall x w', coherent w' -> keeps P (dsk w) (dsk w') -> Q x w' -> runs P F (k x) w' Q') -> runs P F (m ≫= k) w Q'.
Proof using Type.
  unfold runs, mbind, M_bind. destruct (m w) as [[x|e|] w1]; intros (Hc & HK & Ho & HQ) Hk.
  - specialize (Hk x w1 Hc HK HQ). destruct (k x w1) as [r w2]. destruct Hk as (Hc2 & HK2 & Ho2 & HQ2).
    split; [done|]. split; [by eapply keeps_trans|]. split; [tauto|]. destruct r; [done|tauto..].
  - done.
  - done.
Qed.

Lemma runs_ret P F {A} (x : A) w (Q : A -> world T -> Prop) : coherent w -> Q x w -> runs P F (mret x) w Q.
Proof using Type. intros Hc HQ. unfold runs, mret, M_ret. split; [done|]. split; [apply keeps_refl|done]. Qed.

Lemma runs_gets P F {A} (f : world T -> A) w : coherent w -> runs P F (gets f) w (fun x w' => x = f w /\ w' = w).
Proof using Type. intros Hc. unfold runs, gets. split; [done|]. split; [apply keeps_refl|done]. Qed.

Lemma runs_mono P F {A} (m : M T A) w (Q Q' : A -> world T -> Prop) : runs P F m w Q -> (forall x w', coherent w' -> keeps P (dsk w) (dsk w') -> Q x w' -> Q' x w') -> runs P F m w Q'.
Proof using Type. unfold runs. destruct (m w) as [[] w1]; naive_solver. Qed.

Lemma runs_weaken (P P' : path -> Prop) (F F' : Prop) {A} (m : M T A) w Q : (forall p, P p -> P' p) -> (F -> F') -> runs P F m w Q -> runs P' F' m w Q.
Proof using Type.
  intros HP HF. unfold runs. destruct (m w) as [r w1]. intros (? & ?%(keeps_weaken _ _ _ _ HP) & ? & HQ). split_and!; try done. destruct r; tauto.
Qed.

Lemma runs_next P F w : coherent w ->
  runs P F next w (fun o w' => dsk w' = dsk w /\ _openFiles w' = _openFiles w /\ (oracle w = [] -> o = Good) /\ (o <> Good -> oracle w <> [])).
Proof using Type.
  intros Hc. unfold runs, next. destruct (oracle w) as [|o os] eqn:E.
  - split; [done|]. split; [apply keeps_refl|done].
  - split; [done|]. split; [apply keeps_refl|]. split; [done|]. done.
Qed.

Lemma runs_attempt P F e w : coherent w -> runs P F (attempt e) w (fun _ w' => dsk w' = dsk w /\ _openFiles w' = _openFiles w).
Proof using Type.
  intros Hc. unfold runs, attempt, mbind, M_bind, next. destruct (oracle w) as [|o os] eqn:E.
  - split; [done|]. split; [apply keeps_refl|]. done.
  - destruct o; cbn; (split; [done|]; split; [apply keeps_refl|]; split; [done|]; first [done|by right]).
Qed.

Lemma pool_ok_keeps P d d' (c : handles) : keeps P d d' -> pool_ok d c -> pool_ok d' c.
Proof using Type.
  intros HK (es & Hr & Hm & Ht & Ho). exists es. split_and!; try done. intros p i Hin. eapply keeps_opened; [done|by apply Ho].
Qed.

Lemma runs_modify P F f w : coherent w -> disk_ok (f (dsk w)) -> keeps P (dsk w) (f (dsk w)) ->
  runs P F (modify f) w (fun _ w' => dsk w' = f (dsk w) /\ _openFiles w' = _openFiles w).
Proof using Type.
  intros [Hd Hp] Hd' HK. unfold runs, modify. cbn. split; [split; [done|by eapply pool_ok_keeps]|]. done.
Qed.

(** *** The pool of open index files *)

(** An operation of the pool behaves as on the list of its entries. *)
Lemma pool_exec w o : coherent w -> exists es, rep (weight := fun _ => 1) (_openFiles w) es /\ (forall p i, (p, i) ∈ es -> opened (dsk w) p i) /\
  let '(x, es') := spec_exec (fun _ => 1) MAX_OPEN_FILES es o in
  exists c', cache_exec (_openFiles w) o = Some (x, c') /\
    ((forall p i, (p, i) ∈ es' -> opened (dsk w) p i) -> pool_ok (dsk w) c').
Proof using Type.
  intros [Hd (es & Hr & Hm & Ht & Ho)]. exists es. split; [done|]. split; [done|].
  pose proof (exec_rep (_openFiles w) es o Hr) as He. rewrite Hm in He. specialize (He ltac:(done) ltac:(done) Ht).
  destruct (spec_exec _ _ es o) as [x es']. destruct He as (c' & He & Hr' & Hm' & Ht'). exists c'. split; [done|]. intros Ho'. by exists es'.
Qed.

Lemma runs_pool_fetch P F p w : coherent w ->
  runs P F (pool (fun c => LruCache.fetch c p true)) w (fun r w' => dsk w' = dsk w /\ match r with Some i => opened (dsk w) p i | None => True end).
Proof using Type.
  intros Hc. destruct (pool_exec w (OpFetch p true) Hc) as (es & Hr & Ho & He). cbn [spec_exec cache_exec] in He. destruct He as (c' & He & Hpool).
  unfold runs, pool. destruct (LruCache.fetch (_openFiles w) p true) as [[r c1]|]; [|done]. cbn [mbind option_bind] in He. injection He as -> ->. cbn.
  assert (Hc' : pool_ok (dsk w) c') by (apply Hpool; intros q i Hin; by eapply Ho, to_front_In).
  split; [split; [apply Hc|done]|]. split; [apply keeps_refl|]. split; [done|]. split; [done|].
  destruct (lookup_entry es p) eqn:E; [|done]. by apply Ho, lookup_entry_In.
Qed.

Lemma runs_pool_insert P F p i w : coherent w -> opened (dsk w) p i ->
  runs P F (pool (fun c => c ← LruCache.insert c p i; Some (tt, c))) w (fun _ w' => dsk w' = dsk w).
Proof using Type.
  intros Hc Hi. destruct (pool_exec w (OpInsert p i) Hc) as (es & Hr & Ho & He). cbn [spec_exec cache_exec] in He. destruct He as (c' & He & Hpool).
  unfold runs, pool. destruct (LruCache.insert (_openFiles w) p i) as [c1|]; [|done]. cbn [mbind option_bind] in *. injection He as ->. cbn.
  assert (Hc' : pool_ok (dsk w) c').
  { apply Hpool. intros q j [[= -> ->]|Hin]%put_In; [done|by apply Ho]. }
  split; [split; [apply Hc|done]|]. split; [apply keeps_refl|done].
Qed.

(** *** Index files *)

Lemma keeps_modify_tables d p0 i0 (t0 : option T) n : disk_ok d -> (next_inode d <= n)%nat ->
  (idx d !! p0 = Some i0 \/ idx d !! p0 = None /\ inodes d !! i0 = None) -> (forall t, inodes d !! i0 <> Some (Some t)) ->
  (forall u, match t0 with Some t => select_id t u = [] | None => True end) ->
  keeps (fun _ => False) d (mkDisk (dirs d) (<[p0 := i0]> (idx d)) (<[i0 := t0]> (inodes d)) n (datas d)).
Proof using Type.
  intros Hd Hn Hp Hi Ht. split; cbn; try done.
  - intros p i Hpi. destruct (decide (p = p0)) as [->|Hne]; [|by rewrite lookup_insert_ne by done].
    rewrite lookup_insert_eq. destruct Hp as [Hp|[Hp _]]; congruence.
  - intros i t Hit. destruct (decide (i = i0)) as [->|Hne]; [by apply Hi in Hit|]. by rewrite lookup_insert_ne by done.
  - intros p u. unfold rows. cbn. destruct (decide (p = p0)) as [->|Hne].
    + rewrite !lookup_insert_eq. transitivity (@nil row).
      * specialize (Ht u). by destruct t0.
      * destruct Hp as [-> | [-> _]]; [|done]. destruct (inodes d !! i0) as [[t|]|] eqn:E; [|done..]. by destruct (Hi t).
    + rewrite lookup_insert_ne by done. destruct (idx d !! p) as [i|] eqn:E; [|done]. destruct (decide (i = i0)) as [->|Hni]; [|by rewrite lookup_insert_ne by done].
      rewrite lookup_insert_eq. destruct Hp as [Hp|[_ Hp]]; [by destruct Hne; eapply ok_inj|].
      rewrite Hp. specialize (Ht u). by destruct t0.
Qed.

Lemma runs_SQLiteConnection p w : coherent w -> p.1 ∈ dirs (dsk w) ->
  runs (fun _ => False) False (SQLiteConnection p) w (fun i w' => idx (dsk w') !! p = Some i).
Proof using Type.
  intros Hc Hp. unfold SQLiteConnection. eapply runs_bind; [by apply runs_attempt|]. intros _ w1 Hc1 _ [Hd1 _].
  eapply runs_bind; [by apply runs_gets|]. intros d w2 Hc2 _ [-> ->]. rewrite Hd1, bool_decide_true by done. cbn [negb].
  destruct (idx (dsk w) !! p) as [i|] eqn:E; [apply runs_ret; [done|congruence]|].
  assert (Hok : disk_ok (dsk w)) by apply Hc. assert (Hfresh : inodes (dsk w) !! next_inode (dsk w) = None).
  { apply eq_None_not_Some. intros Hs%(ok_inode _ Hok). lia. }
  eapply runs_bind; [apply runs_modify; [done| |]|].
  - rewrite Hd1. destruct Hok as [K1 K2 K3]. split; cbn.
    + intros q i Hq. destruct (decide (q = p)) as [->|Hne]; [rewrite lookup_insert_eq in Hq; injection Hq as <-; split; [lia|done]|].
      rewrite lookup_insert_ne in Hq by done. apply K1 in Hq as [? ?]. split; [lia|done].
    + intros i Hi. destruct (decide (i = next_inode (dsk w))) as [->|Hne]; [lia|]. rewrite lookup_insert_ne in Hi by done. apply K2 in Hi. lia.
    + intros q q' i Hq Hq'. destruct (decide (q = p)) as [->|], (decide (q' = p)) as [->|]; [done| | |].
      * rewrite lookup_insert_eq in Hq. rewrite lookup_insert_ne in Hq' by done. injection Hq as <-. apply K1 in Hq' as [? _]. lia.
      * rewrite lookup_insert_eq in Hq'. rewrite lookup_insert_ne in Hq by done. injection Hq' as <-. apply K1 in Hq as [? _]. lia.
      * rewrite lookup_insert_ne in Hq, Hq' by done. eauto.
  - rewrite Hd1. apply keeps_modify_tables; [done|lia|by right|congruence|done].
  - intros [] w3 Hc3 _ [Hd3 _]. apply runs_ret; [done|]. rewrite Hd3. cbn. apply lookup_insert_eq.
Qed.

Lemma runs_query w : coherent w -> runs (fun _ => False) False query w (fun _ w' => dsk w' = dsk w).
Proof using Type. intros Hc. eapply runs_mono; [by apply runs_attempt|]. by intros _ w' _ _ [? _]. Qed.

(** A handler that ends in an exception or a fault. *)
Lemma runs_catch P F {A} (m : M T A) h w Q : runs P F m w Q ->
  (forall e w', coherent w' -> let '(r, w'') := h e w' in coherent w'' /\ keeps P (dsk w') (dsk w'') /\ (oracle w' = [] -> oracle w'' = []) /\ forall x, r <> Ret x) -> runs P F (catch m h) w Q.
Proof using Type.
  unfold runs, catch. destruct (m w) as [[x|e|] w1]; intros (Hc & HK & Ho & HQ) Hh; [done| |done].
  specialize (Hh e w1 Hc). destruct (h e w1) as [r w2]. destruct Hh as (Hc2 & HK2 & Ho2 & Hr).
  split; [done|]. split; [by eapply keeps_trans|]. split; [tauto|]. destruct r as [x| |]; [by destruct (Hr x)|done..].
Qed.

Lemma runs_initializeDatabase p i w : coherent w -> idx (dsk w) !! p = Some i -> (forall t, inodes (dsk w) !! i <> Some (Some t)) ->
  runs (fun _ => False) False (SQLiteIndexFile.initializeDatabase i) w (fun _ w' => opened (dsk w') p i).
Proof using H0.
  intros Hc Hp Hi. unfold SQLiteIndexFile.initializeDatabase. eapply runs_bind; [by apply runs_query|]. intros [] w1 Hc1 _ Hd1. apply runs_catch.
  - eapply runs_bind; [by apply runs_query|]. intros [] w2 Hc2 _ Hd2. eapply runs_bind; [by apply runs_query|]. intros [] w3 Hc3 _ Hd3.
    eapply runs_bind; [by apply runs_query|]. intros [] w4 Hc4 _ Hd4. eapply runs_bind; [by apply runs_query|]. intros [] w5 Hc5 _ Hd5.
    assert (Hd : dsk w5 = dsk w) by congruence. assert (Hok : disk_ok (dsk w)) by apply Hc. unfold set_table. eapply runs_mono; [apply runs_modify; [done| |]|].
    + rewrite Hd. destruct Hok as [K1 K2 K3]. split; cbn; [done| |done]. intros j Hj. destruct (decide (j = i)) as [->|]; [by apply K1 in Hp as [? _]|].
      rewrite lookup_insert_ne in Hj by done. by apply K2.
    + rewrite Hd. pose proof (keeps_modify_tables (dsk w) p i (Some create_table) (next_inode (dsk w)) Hok (le_n _) (or_introl Hp) Hi) as HK.
      rewrite insert_id in HK by done. apply HK. intros u. apply select_create.
    + intros [] w6 Hc6 _ [Hd6 _]. rewrite Hd6, Hd. split; [done|]. exists create_table. cbn. apply lookup_insert_eq.
  - intros e w' Hc'. unfold catch, query, attempt, throw, fault, mbind, M_bind, next. destruct (oracle w') as [|[] os] eqn:E; cbn;
    (split; [done|]; split; [apply keeps_refl|]; split; [congruence|by intros ?]).
Qed.

Lemma runs_SQLiteIndexFile p w : coherent w -> p.1 ∈ dirs (dsk w) ->
  runs (fun _ => False) False (SQLiteIndexFile.new p) w (fun i w' => opened (dsk w') p i).
Proof using H0.
  intros Hc Hp. unfold SQLiteIndexFile.new. eapply runs_bind; [by apply runs_SQLiteConnection|]. intros i w1 Hc1 _ Hi.
  eapply runs_bind; [by apply runs_query|]. intros [] w2 Hc2 _ Hd2. eapply runs_bind; [by apply runs_gets|]. intros x w3 Hc3 _ [-> ->].
  eapply (runs_bind _ _ _ _ _ (fun _ w' => opened (dsk w') p i)); [|intros [] w4 Hc4 _ Ho; by apply runs_ret].
  destruct (inodes (dsk w2) !! i) as [[t|]|] eqn:E.
  - apply runs_ret; [done|]. split; [congruence|by exists t].
  - apply (runs_initializeDatabase p); [done|congruence|congruence].
  - apply (runs_initializeDatabase p); [done|congruence|congruence].
Qed.

Lemma runs_openIndexFile p w : coherent w -> p.1 ∈ dirs (dsk w) ->
  runs (fun _ => False) False (SQLiteIndexFileManager.openIndexFile p) w (fun i w' => opened (dsk w') p i).
Proof using H0.
  intros Hc Hp. unfold SQLiteIndexFileManager.openIndexFile. eapply runs_bind; [by apply runs_pool_fetch|]. intros [i|] w1 Hc1 _ [Hd1 Hi].
  - apply runs_ret; [done|by rewrite Hd1].
  - eapply runs_bind; [apply runs_SQLiteIndexFile; [done|by rewrite Hd1]|]. intros i w2 Hc2 _ Hi2.
    eapply runs_bind; [by apply (runs_pool_insert _ _ p i)|]. intros [] w3 Hc3 _ Hd3. apply runs_ret; [done|by rewrite Hd3].
Qed.

Lemma table_spec p i w : opened (dsk w) p i ->
  let '(r, w') := table i w in
  dsk w' = dsk w /\ _openFiles w' = _openFiles w /\ (oracle w = [] -> oracle w' = []) /\
  match r with
  | Ret t => inodes (dsk w) !! i = Some (Some t) /\ forall u, rows (dsk w) p u = select_id t u
  | Throw _ => oracle w <> []
  | Fault => False
  end.
Proof using Type.
  intros [Hp [t Ht]]. assert (Hr : forall u, rows (dsk w) p u = select_id t u) by (intros u; unfold rows; by rewrite Hp, Ht).
  unfold table, query, attempt, mbind, M_bind, gets, next. destruct (oracle w) as [|[] os] eqn:E; cbn; rewrite ?Ht; cbn; done.
Qed.

Lemma runs_table p i w : coherent w -> opened (dsk w) p i ->
  runs (fun _ => False) False (table i) w (fun t w' => dsk w' = dsk w /\ inodes (dsk w) !! i = Some (Some t) /\ forall u, rows (dsk w) p u = select_id t u).
Proof using Type.
  intros Hc Ho. pose proof (table_spec p i w Ho) as Ht. unfold runs. destruct (table i w) as [r w']. destruct Ht as (Hd & Hp & Hor & Ht).
  split; [unfold coherent; by rewrite Hd, Hp|]. split; [rewrite Hd; apply keeps_refl|]. split; [done|]. destruct r; [done|by right|done].
Qed.

(** The position that the index gives for an id. *)
Definition position_of d p u : Z :=
  match rows d p u with [r] => if deleted r =? 1 then INVALID_POSITION else position r | _ => INVALID_POSITION end.

Lemma runs_findAssetPosition p i u w : coherent w -> opened (dsk w) p i ->
  runs (fun _ => False) False (SQLiteIndexFile.findAssetPosition i u) w (fun x w' => dsk w' = dsk w /\ x = position_of (dsk w) p u).
Proof using H0.
  intros Hc Ho. unfold SQLiteIndexFile.findAssetPosition. eapply runs_bind; [by apply (runs_table p)|]. intros t w1 Hc1 _ (Hd1 & _ & Hr).
  unfold position_of. rewrite Hr. pose proof (select_unique t u) as Hu. destruct (select_id t u) as [|r [|? ?]]; cbn in Hu; [| |lia].
  - by apply runs_ret.
  - destruct (deleted r =? 1); by apply runs_ret.
Qed.

(** *** Data files *)

Import PosixDataFileImpl.

Lemma ntohl_htonl_bytes n : is_u32 n -> ntohl_at (htonl_bytes n) 0 = Some n.
Proof using Type. intros Hn. pose proof (ntohl_htonl [] n [] Hn) as E. by rewrite app_nil_r in E. Qed.

Lemma runs_open_read p w : coherent w -> is_Some (datas (dsk w) !! p) -> runs (fun _ => False) False (open_read p) w (fun _ w' => dsk w' = dsk w).
Proof using Type.
  intros Hc [c Hp]. unfold open_read. eapply runs_bind; [by apply runs_attempt|]. intros [] w1 Hc1 _ [Hd1 _].
  eapply runs_bind; [by apply runs_gets|]. intros x w2 Hc2 _ [-> ->]. rewrite Hd1, Hp. by apply runs_ret.
Qed.

Lemma runs_doSeek P F (pos : nat) w : coherent w -> runs P F (doSeek (Z.of_nat pos)) w (fun off w' => dsk w' = dsk w /\ off = pos).
Proof using Type.
  intros Hc. unfold doSeek. eapply runs_bind; [by apply runs_attempt|]. intros [] w1 Hc1 _ [Hd1 _].
  rewrite (proj2 (Z.ltb_ge _ _)) by lia. rewrite Nat2Z.id. by apply runs_ret.
Qed.

Lemma runs_read p off n w : coherent w -> (off + n <= length (data (dsk w) p))%nat ->
  runs (fun _ => False) False (read p off n) w (fun x w' => dsk w' = dsk w /\ x = take n (drop off (data (dsk w) p))).
Proof using Type.
  intros Hc Hlen. unfold runs, read, contents, gets, mbind, M_bind, next. fold (data (dsk w) p).
  assert (Hn : length (take n (drop off (data (dsk w) p))) = n) by (rewrite length_take, length_drop; lia).
  destruct (oracle w) as [|[| |k] os] eqn:E; cbn; fold (data (dsk w) p).
  - rewrite Hn, Nat.eqb_refl. split; [done|]. split; [apply keeps_refl|done].
  - rewrite Hn, Nat.eqb_refl. split; [done|]. split; [apply keeps_refl|done].
  - split; [done|]. split; [apply keeps_refl|]. split; [done|by right].
  - rewrite length_take, length_drop. destruct (Nat.eqb_spec ((k `min` n) `min` (length (data (dsk w) p) - off)) n) as [Hk|Hk]; cbn;
    (split; [done|]; split; [apply keeps_refl|]; split; [done|]).
    + split; [done|]. f_equal. lia.
    + by right.
Qed.

Lemma runs_getAssetAtPosition p pos a w : coherent w -> is_Some (datas (dsk w) !! p) -> asset_at (data (dsk w) p) pos a ->
  runs (fun _ => False) False (DataFile.getAssetAtPosition p pos) w (fun x w' => dsk w' = dsk w /\ x = a).
Proof using Type.
  intros Hc Hp (pre & post & Hdata & <- & Hsize & Hne). unfold DataFile.getAssetAtPosition.
  eapply runs_bind; [by apply runs_open_read|]. intros [] w1 Hc1 _ Hd1. eapply runs_bind; [by apply runs_doSeek|]. intros ? w2 Hc2 _ [Hd2 ->].
  assert (Hd : dsk w2 = dsk w) by congruence. assert (Hlen : length (data (dsk w) p) = (length pre + (4 + (length a + length post)))%nat).
  { rewrite Hdata, !length_app. done. }
  eapply runs_bind; [apply runs_read; [done|rewrite Hd; lia]|]. intros b w3 Hc3 _ [Hd3 Hb]. rewrite Hd, Hdata, drop_app_length in Hb.
  change 4%nat with (length (htonl_bytes (Z.of_nat (length a)))) in Hb. rewrite take_app_length in Hb. subst b.
  rewrite ntohl_htonl_bytes by (unfold is_u32; lia). cbn [checked]. eapply (runs_bind _ _ _ _ _ (fun x w' => dsk w' = dsk w /\ x = Z.of_nat (length a))).
  { apply runs_ret; [done|]. split; [congruence|done]. }
  intros ? w4 Hc4 _ [Hd4 ->]. eapply runs_bind; [by apply runs_attempt|]. intros [] w5 Hc5 _ [Hd5 _].
  rewrite (proj2 (Z.eqb_neq _ _)) by (destruct a; [done|cbn; lia]). rewrite Nat2Z.id. eapply runs_mono; [apply runs_read; [done|]|].
  - rewrite Hd5, Hd4. lia.
  - intros x w6 _ _ [Hd6 ->]. split; [congruence|]. rewrite Hd5, Hd4, Hdata. rewrite <- drop_drop, drop_app_length.
    change 4%nat with (length (htonl_bytes (Z.of_nat (length a)))). by rewrite drop_app_length, take_app_length.
Qed.

(** Appending [x] to the data file of [p]. *)
Definition append_data d p (x : list Z) : disk T := mkDisk (dirs d) (idx d) (inodes d) (next_inode d) (<[p := data d p ++ x]> (datas d)).

Lemma append_data_data d p x q : data (append_data d p x) q = if decide (q = p) then data d p ++ x else data d q.
Proof using Type. unfold append_data, data at 1. cbn. case_decide as Hq; [subst q; by rewrite lookup_insert_eq|by rewrite lookup_insert_ne by done]. Qed.

Lemma append_data_keeps d p x : keeps (eq p) d (append_data d p x).
Proof using Type.
  split; try done.
  - intros q Hq. cbn. by rewrite lookup_insert_ne.
  - intros q. rewrite append_data_data. case_decide as Hq; [subst q; by apply prefix_app_r|done].
  - intros q Hq. cbn. destruct (decide (q = p)) as [->|]; [rewrite lookup_insert_eq; eauto|by rewrite lookup_insert_ne by done].
Qed.

Lemma append_data_app d p x y : append_data (append_data d p x) p y = append_data d p (x ++ y).
Proof using Type.
  unfold append_data. cbn. rewrite insert_insert_eq. do 2 f_equal. pose proof (append_data_data d p x p) as E. rewrite decide_True in E by done.
  unfold append_data in E. rewrite E. by rewrite <- app_assoc.
Qed.

Lemma append_data_nil d p : is_Some (datas d !! p) -> append_data d p [] = d.
Proof using Type. intros [c Hc]. unfold append_data, data. rewrite Hc, app_nil_r. cbn. rewrite insert_id by done. by destruct d. Qed.

Lemma append_data_ok d p x : disk_ok d -> disk_ok (append_data d p x).
Proof using Type. intros [K1 K2 K3]. by split. Qed.

Lemma overwrite_end c x : overwrite c (length c) x = c ++ x.
Proof using Type.
  unfold overwrite. rewrite take_ge, drop_ge, Nat.sub_diag by lia. cbn. by rewrite app_nil_r.
Qed.

(** Writing at the end of a file: what was written is a prefix of the data, all of it unless there was a fault. *)
Lemma runs_write F p off x w : coherent w -> is_Some (datas (dsk w) !! p) -> off = length (data (dsk w) p) -> x <> [] ->
  runs (eq p) F (write p off x) w (fun off' w' => dsk w' = append_data (dsk w) p x /\ off' = length (data (dsk w') p)).
Proof using Type.
  intros Hc Hp -> Hx. unfold runs, write, contents, gets, set_data, modify, mbind, M_bind, next. fold (data (dsk w) p).
  assert (Hput : forall k os, let c' := match take k x with [] => data (dsk w) p | _ => overwrite (data (dsk w) p) (length (data (dsk w) p)) (take k x) end in
    mkDisk (dirs (dsk w)) (idx (dsk w)) (inodes (dsk w)) (next_inode (dsk w)) (<[p := c']> (datas (dsk w))) = append_data (dsk w) p (take k x) /\
    coherent (mkWorld (append_data (dsk w) p (take k x)) (_openFiles w) os)).
  { intros k os. cbn zeta. split.
    - unfold append_data. do 2 f_equal. destruct (take k x) eqn:E; [by rewrite app_nil_r|by rewrite overwrite_end].
    - destruct Hc as [Hok Hpool]. split; [by apply append_data_ok|]. eapply pool_ok_keeps; [apply append_data_keeps|done]. }
  assert (Hoff : (length (data (dsk w) p) + length x)%nat = length (data (append_data (dsk w) p x) p))
    by (rewrite append_data_data, decide_True, length_app by done; done).
  destruct (oracle w) as [|[| |k] os] eqn:E; cbn; fold (data (dsk w) p).
  - destruct (Hput (length x) []) as [-> Hc']. rewrite take_ge, Nat.eqb_refl in * by done. cbn. rewrite E in *. split; [done|]. split; [apply append_data_keeps|done].
  - destruct (Hput (length x) os) as [-> Hc']. rewrite take_ge, Nat.eqb_refl in * by done. cbn. split; [done|]. split; [apply append_data_keeps|done].
  - split; [done|]. split; [apply keeps_refl|]. split; [done|by right].
  - destruct (Hput (k `min` length x)%nat os) as [-> Hc']. destruct (Nat.eqb_spec (length (take (k `min` length x) x)) (length x)) as [Hk|Hk]; cbn.
    + rewrite length_take in Hk. rewrite take_ge in * by lia. split; [done|]. split; [apply append_data_keeps|done].
    + split; [done|]. split; [apply append_data_keeps|]. split; [done|by right].
Qed.

Lemma asset_at_prefix c c' pos a : c `prefix_of` c' -> asset_at c pos a -> asset_at c' pos a.
Proof using Type.
  intros [k ->] (pre & post & -> & Hpos & Hs & Hne). exists pre, (post ++ k). split; [|done]. by rewrite <- !app_assoc.
Qed.

Lemma runs_exists_directory P F root w : coherent w ->
  runs P F (exists_directory root) w (fun b w' => dsk w' = dsk w /\ b = bool_decide (root ∈ dirs (dsk w))).
Proof using Type.
  intros Hc. unfold exists_directory. eapply runs_bind; [by apply runs_attempt|]. intros [] w1 Hc1 _ [Hd1 _].
  eapply runs_mono; [by apply runs_gets|]. intros b w2 _ _ [-> ->]. by rewrite Hd1.
Qed.

Lemma runs_open_write p w : coherent w -> runs (eq p) False (open_write p) w (fun _ w' => dsk w' = append_data (dsk w) p [] /\ is_Some (datas (dsk w') !! p)).
Proof using Type.
  intros Hc. unfold open_write. eapply runs_bind; [by apply runs_attempt|]. intros [] w1 Hc1 _ [Hd1 _].
  eapply runs_bind; [by apply runs_gets|]. intros x w2 Hc2 _ [-> ->]. destruct (datas (dsk w1) !! p) as [c|] eqn:E.
  - apply runs_ret; [done|]. rewrite <- Hd1, append_data_nil by eauto. split; [done|eauto].
  - assert (Ha : (fun d => mkDisk (dirs d) (idx d) (inodes d) (next_inode d) (<[p := []]> (datas d))) (dsk w1) = append_data (dsk w1) p [])
      by (unfold append_data, data; by rewrite E).
    unfold set_data. eapply runs_mono; [apply runs_modify; [done|rewrite Ha; apply append_data_ok, Hc1|rewrite Ha; apply append_data_keeps]|].
    intros [] w3 _ _ [Hd3 _]. rewrite Ha in Hd3. rewrite Hd3, Hd1. split; [done|]. cbn. rewrite lookup_insert_eq. eauto.
Qed.

(** [writeNewAsset] puts the asset at the position that it returns; the position is zero exactly
    when the file was there and empty. *)
Lemma runs_writeNewAsset p a w : coherent w -> a <> [] ->
  runs (eq p) (2 ^ 32 <= Z.of_nat (length a)) (DataFile.writeNewAsset p a) w (fun pos w' =>
    asset_at (data (dsk w') p) pos a /\ is_Some (datas (dsk w') !! p) /\ (pos = 0 <-> datas (dsk w) !! p = Some []) /\
    idx (dsk w') = idx (dsk w) /\ inodes (dsk w') = inodes (dsk w)).
Proof using Type.
  intros Hc Hne. unfold DataFile.writeNewAsset, exists_data. eapply runs_bind.
  { eapply runs_bind; [by apply runs_attempt|]. intros [] w1 Hc1 _ [Hd1 _]. apply (runs_mono _ _ _ _ _ (fun b w' => dsk w' = dsk w /\ b = bool_decide (is_Some (datas (dsk w) !! p))) (runs_gets _ _ _ _ Hc1)).
    intros b w2 _ _ [-> ->]. by rewrite Hd1. }
  intros ex w1 Hc1 _ [Hd1 ->]. eapply runs_bind; [eapply runs_weaken; [| |by apply runs_open_write]; done|]. intros [] w2 Hc2 _ [Hd2 Hs2]. rewrite Hd1 in Hd2.
  eapply (runs_bind _ _ _ _ _ (fun x w' => exists pre, dsk w' = append_data (dsk w) p pre /\ x.1 = Z.of_nat (length (data (dsk w') p)) /\
    x.2 = length (data (dsk w') p) /\ (x.1 = 0 <-> datas (dsk w) !! p = Some []))).
  { case_bool_decide as Hex.
    - rewrite append_data_nil in Hd2 by done. unfold size, contents. eapply runs_bind; [eapply runs_bind; [by apply runs_attempt|]|].
      { intros [] w3 Hc3 _ [Hd3 _]. eapply runs_bind; [by apply runs_gets|]. intros c w4 Hc4 _ [-> ->].
        apply (runs_ret _ _ _ _ (fun x w' => dsk w' = dsk w /\ x = Z.of_nat (length (data (dsk w) p)))); [done|]. unfold data. rewrite Hd3, Hd2. done. }
      intros pos w3 Hc3 _ [Hd3 ->]. eapply runs_bind; [by apply runs_doSeek|]. intros off w4 Hc4 _ [Hd4 ->]. apply runs_ret; [done|].
      exists []. cbn. rewrite Hd4, Hd3, append_data_nil by done. split_and!; try done. destruct Hex as [c Hex]. unfold data. rewrite Hex. cbn. destruct c; cbn; split; (done || lia || congruence).
    - eapply runs_bind; [apply runs_write; [done|done| |done]|].
      { rewrite Hd2, append_data_data, decide_True, app_nil_r by done. unfold data. destruct (datas (dsk w) !! p); [by destruct Hex|done]. }
      intros off w3 Hc3 _ [Hd3 ->]. apply runs_ret; [done|]. rewrite Hd2, append_data_app in Hd3. exists DataFile.magic. cbn [fst snd].
      assert (Hd : data (dsk w3) p = DataFile.magic).
      { rewrite Hd3, append_data_data, decide_True by done. unfold data. destruct (datas (dsk w) !! p); [by destruct Hex|done]. }
      rewrite Hd. split_and!; try done. split; [done|]. intros E. destruct Hex. rewrite E. eauto. }
  intros [pos off] w3 Hc3 _ (pre & Hd3 & Hpos & Hoff & Hz). cbn [fst snd] in *.
  destruct (Z.leb_spec (2 ^ 32) (Z.of_nat (length a))) as [Hbig|Hsmall].
  { unfold runs, throw. split; [done|]. split; [apply keeps_refl|]. split; [done|by left]. }
  assert (Hs3 : is_Some (datas (dsk w3) !! p)) by (rewrite Hd3; cbn; rewrite lookup_insert_eq; eauto).
  eapply runs_bind; [by apply runs_write|]. intros off4 w4 Hc4 HK4 [Hd4 Hoff4].
  eapply (runs_bind _ _ _ _ _ (fun _ w' => dsk w' = dsk w4)); [destruct a; [done|]; by apply runs_ret|]. intros _x w5 Hc5 _ Hd5. clear _x.
  eapply runs_bind; [apply runs_write; [done| |congruence|done]|].
  { rewrite Hd5. by apply HK4. }
  intros off6 w6 Hc6 _ [Hd6 _]. apply runs_ret; [done|].
  rewrite Hd5, Hd4, append_data_app in Hd6. rewrite Hd6. split; [|split; [|split; [done|]]].
  - exists (data (dsk w3) p), []. rewrite append_data_data, decide_True, app_nil_r by done. split_and!; try done; lia.
  - cbn. rewrite lookup_insert_eq. eauto.
  - cbn. by rewrite Hd3.
Qed.

(** *** Databases *)

Lemma runs_VFSDatabase_new base root w : coherent w -> root ∈ dirs (dsk w) ->
  runs (fun _ => False) False (VFSDatabase.new base root) w (fun db w' => VFSDatabase._path db = (root, base) /\ opened (dsk w') (root, base) (VFSDatabase._indexFile db)).
Proof using H0.
  intros Hc Hroot. unfold VFSDatabase.new. eapply runs_bind; [by apply runs_exists_directory|]. intros b w1 Hc1 _ [Hd1 ->]. rewrite bool_decide_true by done. cbn [negb].
  eapply runs_bind; [apply runs_openIndexFile; [done|by rewrite Hd1]|]. intros i w2 Hc2 _ Hi. by apply runs_ret.
Qed.

Definition set_open d (root : list Z) (s : DatabaseSet.t) : Prop :=
  VFSDatabase._path (DatabaseSet._globalDB s) = (root, globals) /\ opened d (root, globals) (VFSDatabase._indexFile (DatabaseSet._globalDB s)) /\
  VFSDatabase._path (DatabaseSet._localDB s) = (root, locals) /\ opened d (root, locals) (VFSDatabase._indexFile (DatabaseSet._localDB s)).

Lemma runs_verifyDatabaseDirectory u w : coherent w ->
  runs (fun _ => False) False (verifyDatabaseDirectory u) w (fun _ w' => getFullPathForUUID u ∈ dirs (dsk w')).
Proof using H0.
  intros Hc. unfold verifyDatabaseDirectory. eapply runs_bind; [by apply runs_exists_directory|]. intros b w1 Hc1 _ [Hd1 ->].
  case_bool_decide as Hex; cbn [negb]; [apply runs_ret; [done|by rewrite Hd1]|].
  set (d' := mkDisk ({[getFullPathForUUID u]} ∪ dirs (dsk w1)) (idx (dsk w1)) (inodes (dsk w1)) (next_inode (dsk w1)) (datas (dsk w1))).
  assert (HK : keeps (fun _ => False) (dsk w1) d') by (split; try done; cbn; set_solver).
  assert (Hcc : forall os, coherent (mkWorld d' (_openFiles w1) os)).
  { intros os. destruct Hc1 as [[K1 K2 K3] Hp]. split; [|by eapply pool_ok_keeps]. split; cbn; [|done|done]. intros p i Hi%K1. set_solver. }
  unfold runs, create_directory, modify, mbind, M_bind, next, throw. destruct (oracle w1) as [|[| |k] os] eqn:E; cbn.
  - split; [apply Hcc|]. split; [done|]. split; [done|]. set_solver.
  - split; [apply Hcc|]. split; [done|]. split; [done|]. set_solver.
  - split; [done|]. split; [apply keeps_refl|]. split; [done|by right].
  - split; [done|]. split; [apply keeps_refl|]. split; [done|by right].
Qed.

Lemma runs_verifyAndopenSet u w : coherent w ->
  runs (fun _ => False) False (verifyAndopenSetForUUID u) w (fun s w' => set_open (dsk w') (getFullPathForUUID u) s).
Proof using H0.
  intros Hc. unfold verifyAndopenSetForUUID. apply runs_catch.
  - eapply runs_bind; [by apply runs_verifyDatabaseDirectory|]. intros [] w1 Hc1 _ Hdir. unfold DatabaseSet.new.
    eapply runs_bind; [by apply runs_VFSDatabase_new|]. intros g w2 Hc2 HK2 [Hgp Hgo].
    eapply runs_bind; [apply runs_VFSDatabase_new; [done|by apply HK2]|]. intros l w3 Hc3 HK3 [Hlp Hlo].
    apply runs_ret; [done|]. split_and!; try done; eapply keeps_opened; done.
  - intros e w' Hc'. destruct e; cbn; (split; [done|]; split; [apply keeps_refl|]; split; [done|by intros ?]).
Qed.

(** The index of [p] gives a position for [u] at which its data file has the asset [a]. *)
Definition holds d p u a : Prop :=
  position_of d p u <> INVALID_POSITION /\ is_Some (datas d !! p) /\ asset_at (data d p) (position_of d p u) a.

(** Every position in an index is that of an asset, of which [P] holds. *)
Definition data_ok (P : path -> list Z -> list Z -> Prop) d : Prop :=
  forall p u, position_of d p u <> INVALID_POSITION -> exists a, holds d p u a /\ P p u a.

Lemma keeps_position P d d' p u : keeps P d d' -> position_of d' p u = position_of d p u.
Proof using Type. intros HK. unfold position_of. by rewrite (keeps_rows _ _ _ HK). Qed.

Lemma keeps_holds P d d' p u a : keeps P d d' -> holds d p u a -> holds d' p u a.
Proof using Type.
  intros HK (Hpos & Hf & Ha). unfold holds. rewrite (keeps_position _ _ _ _ _ HK). split; [done|]. split; [by apply HK|].
  eapply asset_at_prefix; [apply HK|done].
Qed.

Lemma keeps_data_ok P R d d' : keeps R d d' -> data_ok P d -> data_ok P d'.
Proof using Type.
  intros HK Hok p u. rewrite (keeps_position _ _ _ _ _ HK). intros (a & Ha & HP)%Hok. exists a. split; [by eapply keeps_holds|done].
Qed.

Lemma runs_VFSDatabase_getAsset P db p u w : coherent w -> data_ok P (dsk w) -> VFSDatabase._path db = p -> opened (dsk w) p (VFSDatabase._indexFile db) ->
  runs (fun _ => False) False (VFSDatabase.getAsset db u) w (fun x w' => dsk w' = dsk w /\
    match x with Some a => holds (dsk w) p u a /\ P p u a | None => position_of (dsk w) p u = INVALID_POSITION end).
Proof using H0.
  intros Hc Hok Hp Ho. unfold VFSDatabase.getAsset. eapply runs_bind; [by apply (runs_findAssetPosition p)|]. intros pos w1 Hc1 _ [Hd1 ->].
  destruct (Z.eqb_spec (position_of (dsk w) p u) INVALID_POSITION) as [E|E]; [by apply runs_ret|].
  destruct (Hok p u E) as (a & Ha & HP). rewrite Hp. eapply runs_bind; [eapply (runs_getAssetAtPosition p _ a); [done|..]|].
  - rewrite Hd1. apply Ha.
  - rewrite Hd1. apply Ha.
  - intros x w2 Hc2 _ [Hd2 ->]. apply runs_ret; [done|]. split; [congruence|done].
Qed.

(** The asset that a lookup of [u] finds: the global one if there is one. *)
Definition finds d u a : Prop :=
  holds d (getFullPathForUUID u, globals) u a \/
  position_of d (getFullPathForUUID u, globals) u = INVALID_POSITION /\ holds d (getFullPathForUUID u, locals) u a.

Lemma runs_getAsset P u w : coherent w -> data_ok P (dsk w) ->
  runs (fun _ => False) False (disk_getAsset u) w (fun x w' =>
    match x with
    | Some a => finds (dsk w) u a /\ exists b, P (getFullPathForUUID u, b) u a
    | None => forall b, position_of (dsk w) (getFullPathForUUID u, b) u = INVALID_POSITION
    end).
Proof using H0.
  intros Hc Hok. unfold disk_getAsset. eapply runs_bind; [by apply runs_verifyAndopenSet|]. intros s w1 Hc1 HK1 (Hgp & Hgo & Hlp & Hlo).
  assert (Hok1 : data_ok P (dsk w1)) by (by eapply keeps_data_ok).
  assert (Hback : forall b a, holds (dsk w1) (getFullPathForUUID u, b) u a -> holds (dsk w) (getFullPathForUUID u, b) u a).
  { intros b a (Hpos & Hf & Ha). unfold holds, data in *. rewrite (keeps_position _ _ _ _ _ HK1) in *.
    rewrite (keeps_data _ _ _ HK1) in Hf, Ha by tauto. done. }
  unfold DatabaseSet.getAsset. eapply runs_bind; [by eapply (runs_VFSDatabase_getAsset P)|]. intros [a|] w2 Hc2 _ [Hd2 Hx].
  - apply runs_ret; [done|]. destruct Hx as [Ha HP]. split; [left; by apply Hback|by exists globals].
  - rewrite (keeps_position _ _ _ _ _ HK1) in Hx. eapply runs_mono; [eapply (runs_VFSDatabase_getAsset P); rewrite ?Hd2; done|].
    intros [a|] w3 _ _ [_ Ha]; rewrite Hd2 in Ha.
    + destruct Ha as [Ha HP]. split; [right; split; [done|by apply Hback]|by exists locals].
    + rewrite (keeps_position _ _ _ _ _ HK1) in Ha. by intros [].
Qed.

(** *** Storing *)

Definition base_of (isLocal : bool) : file_base := if isLocal then locals else globals.

(** A successful store of [a]: one row, for the position of the asset, is new. *)
Record stored d d' p u a : Prop := {
  stored_dirs : dirs d ⊆ dirs d';
  stored_new : rows d p u = [];
  stored_row : exists pos, rows d' p u = [mkRow pos 0] /\ asset_at (data d' p) pos a /\ (pos = 0 <-> datas d !! p = Some []);
  stored_rows q v : (q, v) <> (p, u) -> rows d' q v = rows d q v;
  stored_data q : q <> p -> datas d' !! q = datas d !! q;
  stored_prefix q : data d q `prefix_of` data d' q;
  stored_file q : is_Some (datas d !! q) -> is_Some (datas d' !! q);
  stored_here : is_Some (datas d' !! p);
}.

Lemma keeps_stored R d d1 d' p u a : keeps R d d1 -> (forall q, R q -> q = p) -> (datas d1 !! p = Some [] <-> datas d !! p = Some []) ->
  stored d1 d' p u a -> stored d d' p u a.
Proof using Type.
  intros HK HR Hz [S1 S2 (pos & Hrow & Hat & Hpos) S4 S5 S6 S7 S8]. split.
  - etrans; [apply HK|done].
  - by rewrite <- (keeps_rows _ _ _ HK).
  - exists pos. split; [done|]. split; [done|]. tauto.
  - intros q v Hne. rewrite S4 by done. apply HK.
  - intros q Hne. rewrite S5 by done. apply HK. intros Hq%HR. done.
  - intros q. etrans; [apply HK|apply S6].
  - intros q Hq. by apply S7, HK.
  - done.
Qed.

(** [recordAssetPosition] adds its row or leaves the disk alone. *)
Lemma recordAssetPosition_spec p i u a pos w : coherent w -> opened (dsk w) p i -> Asset.getUUID a = Some u -> is_Some (Asset.getType a) ->
  let '(r, w') := SQLiteIndexFile.recordAssetPosition i a pos w in
  coherent w' /\ (oracle w = [] -> oracle w' = []) /\ datas (dsk w') = datas (dsk w) /\ dirs (dsk w') = dirs (dsk w) /\
  match r with
  | Ret _ => rows (dsk w) p u = [] /\ rows (dsk w') p u = [mkRow pos 0] /\ forall q v, (q, v) <> (p, u) -> rows (dsk w') q v = rows (dsk w) q v
  | Throw _ => dsk w' = dsk w /\ (rows (dsk w) p u = [] -> oracle w <> [])
  | Fault => False
  end.
Proof using H0.
  intros Hc Ho Hu [ty Hty]. unfold SQLiteIndexFile.recordAssetPosition. rewrite Hu, Hty. cbn [checked].
  unfold mbind, M_bind at 1, mret, M_ret at 1. unfold M_bind at 1. unfold M_ret at 1. unfold M_bind.
  pose proof (table_spec p i w Ho) as Ht. destruct (table i w) as [[t|e|] w1]; destruct Ht as (Hd1 & Hp1 & Ho1 & Ht); [| |done].
  all: assert (Hc1 : coherent w1) by (unfold coherent; by rewrite Hd1, Hp1).
  - destruct Ht as [Hi Hr]. destruct (select_id t u) as [|r rs] eqn:Es.
    + destruct (insert_fresh t u pos Es) as (t' & -> & Hsel). unfold set_table, modify. cbn.
      assert (Hrow : forall q v, rows (mkDisk (dirs (dsk w1)) (idx (dsk w1)) (<[i := Some t']> (inodes (dsk w1))) (next_inode (dsk w1)) (datas (dsk w1))) q v =
        if decide ((q, v) = (p, u)) then [mkRow pos 0] else rows (dsk w) q v).
      { intros q v. unfold rows. cbn. rewrite Hd1. destruct (idx (dsk w) !! q) as [j|] eqn:Ej.
        - destruct (decide (j = i)) as [->|Hne].
          + assert (q = p) as -> by (eapply ok_inj; [apply Hc|done|apply Ho]). rewrite lookup_insert_eq, Hsel, Hi.
            case_decide; case_decide; naive_solver.
          + rewrite lookup_insert_ne by done. rewrite decide_False; [done|]. intros [= -> ->]. destruct Ho as [Ho _]. congruence.
        - rewrite decide_False; [done|]. intros [= -> ->]. destruct Ho as [Ho _]. congruence. }
      assert (Hop : forall q j, opened (dsk w1) q j -> opened (mkDisk (dirs (dsk w1)) (idx (dsk w1)) (<[i := Some t']> (inodes (dsk w1))) (next_inode (dsk w1)) (datas (dsk w1))) q j).
      { intros q j [Hq [tj Hj]]. split; [done|]. cbn. destruct (decide (j = i)) as [->|]; [rewrite lookup_insert_eq; eauto|rewrite lookup_insert_ne by done; eauto]. }
      split; [|split; [done|rewrite Hd1; split; [done|split; [done|]]]].
      * destruct Hc1 as [[K1 K2 K3] (es & Hrep & Hm & Htot & Hes)]. split; [split; cbn; [done| |done]|exists es; split_and!; try done; cbn; eauto].
        intros j Hj. destruct (decide (j = i)) as [->|]; [apply K2; rewrite Hd1, Hi; eauto|]. rewrite lookup_insert_ne in Hj by done. by apply K2.
      * rewrite Hr, Es. rewrite Hd1 in Hrow. split; [done|]. split; [by rewrite Hrow, decide_True|]. intros q v Hqv. by rewrite Hrow, decide_False.
    + rewrite insert_duplicate by congruence. cbn. rewrite Hd1. split_and!; try done. rewrite Hr, Es. done.
  - rewrite Hd1. done.
Qed.

(** What a store does, whatever happens: [p] is the file of the asset. *)
Definition store_outcome w p u a (x : res unit * world T) : Prop :=
  let '(r, w') := x in
  coherent w' /\ (oracle w = [] -> oracle w' = []) /\
  match r with Ret _ => stored (dsk w) (dsk w') p u a | _ => keeps (eq p) (dsk w) (dsk w') end /\
  (oracle w = [] -> rows (dsk w) p u = [] -> Z.of_nat (length a) < 2 ^ 32 -> exists y, r = Ret y).

(** The operations before the last one only look things up. *)
Lemma store_outcome_bind {A} (m : M T A) k w p u a Q : runs (fun _ => False) False m w Q ->
  (forall x w', coherent w' -> keeps (fun _ => False) (dsk w) (dsk w') -> Q x w' -> store_outcome w' p u a (k x w')) -> store_outcome w p u a ((m ≫= k) w).
Proof using Type.
  unfold runs, mbind, M_bind. destruct (m w) as [[x|e|] w1]; intros (Hc & HK & Ho & HQ) Hk.
  - specialize (Hk x w1 Hc HK HQ). unfold store_outcome in *. destruct (k x w1) as [r w2]. destruct Hk as (Hc2 & Ho2 & Hr & Hp).
    split; [done|]. split; [tauto|]. split.
    + destruct r as [[]| |]; [|eapply keeps_trans; [eapply keeps_weaken; [|done]; done|done]..].
      eapply (keeps_stored _ _ _ _ _ _ _ HK); [done| |done]. rewrite (keeps_data _ _ _ HK) by tauto. done.
    + intros Hor Hrow. apply Hp; [tauto|]. by rewrite (keeps_rows _ _ _ HK).
  - destruct HQ as [[]|HQ]. split_and!; [done|done|eapply keeps_weaken; [|done]; done|done].
  - destruct HQ as [[]|HQ]. split_and!; [done|done|eapply keeps_weaken; [|done]; done|done].
Qed.

Lemma VFSDatabase_storeAsset_spec db p u a w : coherent w -> VFSDatabase._path db = p -> opened (dsk w) p (VFSDatabase._indexFile db) ->
  Asset.getUUID a = Some u -> is_Some (Asset.getType a) -> store_outcome w p u a (VFSDatabase.storeAsset db a w).
Proof using H0.
  intros Hc Hp Ho Hu Hty. unfold VFSDatabase.storeAsset. eapply (store_outcome_bind _ _ _ _ _ _ (fun x w' => dsk w' = dsk w /\ x = u)).
  { rewrite Hu. by apply runs_ret. }
  intros ? w1 Hc1 _ [Hd1 ->]. unfold VFSDatabase.assetExists. eapply (store_outcome_bind _ _ _ _ _ _ (fun b w' => dsk w' = dsk w /\ b = negb (position_of (dsk w) p u =? INVALID_POSITION))).
  { eapply runs_bind; [apply (runs_findAssetPosition p); [done|by rewrite Hd1]|]. intros x w2 Hc2 _ [Hd2 ->]. apply runs_ret; [done|]. split; [congruence|]. by rewrite Hd1. }
  intros b w2 Hc2 _ [Hd2 ->]. rewrite negb_involutive. destruct (Z.eqb_spec (position_of (dsk w) p u) INVALID_POSITION) as [E|E].
  - rewrite Hp. assert (Hne : a <> []) by (intros ->; by destruct Hty). pose proof (runs_writeNewAsset p a w2 Hc2 Hne) as Hw. unfold runs in Hw.
    unfold mbind, M_bind. destruct (DataFile.writeNewAsset p a w2) as [[pos|e|] w3]; destruct Hw as (Hc3 & HK3 & Ho3 & HQ).
    + destruct HQ as (Hat & Hf & Hz & Hidx & Hin). assert (Ho3' : opened (dsk w3) p (VFSDatabase._indexFile db)).
      { eapply keeps_opened; [done|]. by rewrite Hd2. }
      pose proof (recordAssetPosition_spec p _ u a pos w3 Hc3 Ho3' Hu Hty) as Hrec. unfold store_outcome.
      destruct (SQLiteIndexFile.recordAssetPosition _ a pos w3) as [r w4]. destruct Hrec as (Hc4 & Ho4 & Hdat & Hdir & Hrec).
      split; [done|]. split; [tauto|]. destruct r as [[]|e|]; [| |done].
      * destruct Hrec as (Hr0 & Hr1 & Hother). split; [|eauto]. split.
        -- rewrite Hdir. apply HK3.
        -- by rewrite <- (keeps_rows _ _ _ HK3).
        -- exists pos. unfold data in *. rewrite Hdat. done.
        -- intros q v Hqv. rewrite Hother by done. apply HK3.
        -- intros q Hq. rewrite Hdat. apply HK3. congruence.
        -- intros q. unfold data at 2. rewrite Hdat. apply HK3.
        -- intros q. rewrite Hdat. apply HK3.
        -- by rewrite Hdat.
      * destruct Hrec as [Hd4 Hr]. rewrite Hd4. split; [done|]. intros Hor Hrow _. destruct Hr; [by rewrite (keeps_rows _ _ _ HK3)|tauto].
    + split; [done|]. split; [done|]. split; [done|]. intros Hor _ Hl. destruct HQ; [lia|done].
    + split; [done|]. split; [done|]. split; [done|]. intros Hor _ Hl. destruct HQ; [lia|done].
  - split; [done|]. split; [done|]. split; [apply keeps_refl|]. intros _ Hrow. destruct E. unfold position_of. by rewrite <- Hd2, Hrow.
Qed.

Lemma storeAsset_spec u l a w : coherent w -> Asset.getUUID a = Some u -> Asset.isLocal a = Some l ->
  store_outcome w (getFullPathForUUID u, base_of l) u a (disk_storeAsset a w).
Proof using H0.
  intros Hc Hu Hl. assert (Hty : is_Some (Asset.getType a)).
  { unfold Asset.isLocal, Asset.getType in *. destruct (a !! 33%nat) eqn:E; [|done]. apply lookup_lt_is_Some. apply lookup_lt_Some in E. lia. }
  unfold disk_storeAsset. eapply (store_outcome_bind _ _ _ _ _ _ (fun x w' => w' = w /\ x = u)); [rewrite Hu; by apply runs_ret|].
  intros ? ? _ _ [-> ->]. eapply store_outcome_bind; [by apply runs_verifyAndopenSet|]. intros s w1 Hc1 _ (Hgp & Hgo & Hlp & Hlo).
  unfold DatabaseSet.storeAsset. eapply (store_outcome_bind _ _ _ _ _ _ (fun x w' => w' = w1 /\ x = l)); [rewrite Hl; by apply runs_ret|].
  intros ? ? _ _ [-> ->]. destruct l; by apply VFSDatabase_storeAsset_spec.
Qed.

(** A store keeps what the files hold. *)
Lemma stored_position d d' p u a q v : stored d d' p u a -> (q, v) <> (p, u) -> position_of d' q v = position_of d q v.
Proof using Type. intros Hs Hne. unfold position_of. by rewrite (stored_rows _ _ _ _ _ Hs). Qed.

Lemma stored_holds d d' p u a q v b : stored d d' p u a -> holds d q v b -> holds d' q v b.
Proof using Type.
  intros Hs (Hpos & Hf & Hat). assert (Hne : (q, v) <> (p, u)) by (intros [= -> ->]; apply Hpos; unfold position_of; by rewrite (stored_new _ _ _ _ _ Hs)).
  unfold holds. rewrite (stored_position _ _ _ _ _ _ _ Hs Hne). split; [done|]. split; [by eapply stored_file|]. eapply asset_at_prefix; [by eapply stored_prefix|done].
Qed.

Lemma stored_found d d' p u a : stored d d' p u a -> datas d !! p <> Some [] -> holds d' p u a.
Proof using Type.
  intros Hs Hne. destruct (stored_row _ _ _ _ _ Hs) as (pos & Hr & Hat & Hz). unfold holds, position_of. rewrite Hr. cbn.
  split; [intros E; by apply Hne, Hz|]. split; [by eapply stored_here|done].
Qed.

Lemma stored_data_ok P d d' p u a : stored d d' p u a -> data_ok P d -> P p u a -> data_ok P d'.
Proof using Type.
  intros Hs Hok HP q v Hpos. destruct (decide ((q, v) = (p, u))) as [[= -> ->]|Hne].
  - exists a. split; [|done]. destruct (stored_row _ _ _ _ _ Hs) as (pos & Hr & Hat & _). unfold holds, position_of in *. rewrite Hr in *. cbn in *.
    split; [done|]. split; [by eapply stored_here|done].
  - rewrite (stored_position _ _ _ _ _ _ _ Hs Hne) in Hpos. destruct (Hok q v Hpos) as (b & Hb & HPb). exists b. split; [by eapply stored_holds|done].
Qed.

(** *** Listing and deleting *)

(** Every id in an index is one that the server accepts, in its directory, and not marked as deleted. *)
Definition ids_ok d : Prop := forall p u, rows d p u <> [] -> IsValidUUID u = true /\ p.1 = getFullPathForUUID u /\ Forall (fun r => deleted r = 0) (rows d p u).

Lemma keeps_ids_ok P d d' : keeps P d d' -> ids_ok d -> ids_ok d'.
Proof using Type. intros HK Hok p u. rewrite (keeps_rows _ _ _ HK). apply Hok. Qed.

Lemma stored_ids_ok d d' p u a : stored d d' p u a -> IsValidUUID u = true -> p.1 = getFullPathForUUID u -> ids_ok d -> ids_ok d'.
Proof using Type.
  intros Hs Hv Hp Hok q v Hr. destruct (decide ((q, v) = (p, u))) as [[= -> ->]|Hne].
  - destruct (stored_row _ _ _ _ _ Hs) as (pos & -> & _). split; [done|]. split; [done|]. by constructor.
  - rewrite (stored_rows _ _ _ _ _ Hs) in * by done. by apply Hok.
Qed.

Lemma to_uuids_valid ids w : Forall (fun s => IsValidUUID s = true) ids -> SQLiteIndexFile.to_uuids (T := T) ids w = (Ret (map octets ids), w).
Proof using Type.
  induction 1 as [|s ids Hs _ IH]; [done|]. cbn. rewrite (uuid_t_valid _ Hs). unfold mbind, M_bind. by rewrite IH.
Qed.

Lemma select_all_ids p i t u d : opened d p i -> inodes d !! i = Some (Some t) -> u ∈ map fst (select_all t) <-> rows d p u <> [].
Proof using H0.
  intros [Hp _] Ht. unfold rows. rewrite Hp, Ht. rewrite list_elem_of_fmap. split.
  - intros ([v r] & -> & Hin%select_all_spec). cbn. by destruct (select_id t v); [apply not_elem_of_nil in Hin|].
  - intros Hne. destruct (select_id t u) as [|r rs] eqn:E; [done|]. exists (u, r). split; [done|]. apply select_all_spec. rewrite E. left.
Qed.

Lemma runs_getContainedIds p i w : coherent w -> opened (dsk w) p i ->
  runs (fun _ => False) False (SQLiteIndexFile.getContainedAssetIdStrings i) w (fun ids w' => dsk w' = dsk w /\ forall u, u ∈ ids <-> rows (dsk w) p u <> []).
Proof using H0.
  intros Hc Ho. unfold SQLiteIndexFile.getContainedAssetIdStrings. eapply runs_bind; [by apply (runs_table p)|]. intros t w1 Hc1 _ (Hd1 & Ht & _).
  apply runs_ret; [done|]. split; [done|]. intros u. by apply (select_all_ids p i).
Qed.

Lemma runs_exists_index p w : coherent w ->
  runs (fun _ => False) False (exists_index p) w (fun b w' => dsk w' = dsk w /\ b = bool_decide (is_Some (idx (dsk w) !! p))).
Proof using Type.
  intros Hc. unfold exists_index. eapply runs_bind; [by apply runs_attempt|]. intros [] w1 Hc1 _ [Hd1 _].
  eapply runs_mono; [by apply runs_gets|]. intros b w2 _ _ [-> ->]. by rewrite Hd1.
Qed.

Lemma runs_list_locals head w : coherent w -> ids_ok (dsk w) ->
  runs (fun _ => False) False (list_locals head) w (fun x w' => forall u, IsValidUUID u = true ->
    octets u ∈ default [] x <-> rows (dsk w) (head, locals) u <> []).
Proof using H0.
  intros Hc Hids. unfold list_locals. eapply runs_bind; [by apply runs_exists_index|]. intros b w1 Hc1 _ [Hd1 ->]. case_bool_decide as Hex.
  - destruct Hex as [i Hi]. eapply runs_bind; [apply runs_openIndexFile; [done|rewrite Hd1; by apply (ok_idx _ (proj1 Hc) _ _ Hi)]|].
    intros j w2 Hc2 HK2 Ho2. unfold SQLiteIndexFile.getContainedAssetIds. eapply runs_bind.
    { eapply runs_bind; [by apply (runs_getContainedIds (head, locals))|]. intros ids w3 Hc3 _ [Hd3 Hin].
      unfold runs. rewrite to_uuids_valid.
      - split; [done|]. split; [apply keeps_refl|]. split; [done|].
        instantiate (1 := fun x w' => forall u, IsValidUUID u = true -> octets u ∈ x <-> rows (dsk w2) (head, locals) u <> []). cbn. intros u Hv.
        rewrite list_elem_of_fmap. rewrite <- Hin. split; [|eauto]. intros (v & E & Hv'). rewrite (octets_inj u v); [done|done| |done].
        apply Hin in Hv'. rewrite (keeps_rows _ _ _ HK2), Hd1 in Hv'. by apply Hids in Hv' as [? _].
      - apply Forall_forall. intros s Hs. apply Hin in Hs. rewrite (keeps_rows _ _ _ HK2), Hd1 in Hs. by apply Hids in Hs as [? _]. }
    intros x w3 Hc3 _ Hx. apply runs_ret; [done|]. cbn. intros u Hv. specialize (Hx u Hv). by rewrite (keeps_rows _ _ _ HK2), Hd1 in Hx.
  - apply runs_ret; [done|]. cbn. intros u _. unfold rows. destruct (idx (dsk w) !! (head, locals)); [by destruct Hex|]. set_solver.
Qed.

Lemma runs_list_globals prefix w : coherent w ->
  runs (fun _ => False) False (list_globals prefix) w (fun x w' => forall u, u ∈ x <-> rows (dsk w) (prefix, globals) u <> []).
Proof using H0.
  intros Hc. unfold list_globals. eapply runs_bind; [by apply runs_exists_index|]. intros b w1 Hc1 _ [Hd1 ->]. case_bool_decide as Hex.
  - destruct Hex as [i Hi]. eapply runs_bind; [apply runs_openIndexFile; [done|rewrite Hd1; by apply (ok_idx _ (proj1 Hc) _ _ Hi)]|].
    intros j w2 Hc2 HK2 Ho2. eapply runs_mono; [by apply (runs_getContainedIds (prefix, globals))|]. intros ids w3 _ _ [_ Hin] u.
    rewrite Hin. by rewrite (keeps_rows _ _ _ HK2), Hd1.
  - apply runs_ret; [done|]. intros u. unfold rows. destruct (idx (dsk w) !! (prefix, globals)); [by destruct Hex|]. set_solver.
Qed.

(** After [forceCloseIndexFile] no handle of the file is left in the pool. *)
Definition closed d (c : handles) p : Prop :=
  exists es, rep (weight := fun _ => 1) c es /\ _max_size c = MAX_OPEN_FILES /\ LruCache.total (fun _ => 1) es <= MAX_OPEN_FILES /\
    forall q i, (q, i) ∈ es -> opened d q i /\ q <> p.

Lemma forceClose_spec p w : coherent w ->
  exists c, SQLiteIndexFileManager.forceCloseIndexFile p w = (Ret tt, mkWorld (dsk w) c (oracle w)) /\ closed (dsk w) c p.
Proof using Type.
  intros [Hd (es & Hr & Hm & Ht & Ho)]. unfold SQLiteIndexFileManager.forceCloseIndexFile, mbind, M_bind, pool.
  pose proof (exec_rep (_openFiles w) es (OpFetch p true) Hr) as He. rewrite Hm in He. specialize (He ltac:(done) ltac:(done) Ht). cbn [spec_exec cache_exec] in He.
  destruct He as (c1 & He & Hr1 & Hm1 & Ht1). destruct (LruCache.fetch (_openFiles w) p true) as [[x c0]|]; [|done]. cbn [mbind option_bind] in He. injection He as -> ->.
  destruct (lookup_entry es p) as [i|] eqn:E.
  - pose proof (exec_rep c1 _ (OpRemove p) Hr1) as He. rewrite Hm1 in He. specialize (He ltac:(done) ltac:(done) Ht1). cbn [spec_exec cache_exec] in He.
    destruct He as (c2 & He & Hr2 & Hm2 & Ht2). cbn. destruct (LruCache.remove c1 p) as [c3|]; [|done]. cbn [mbind option_bind] in *. injection He as ->.
    exists c2. split; [done|]. eexists. split; [exact Hr2|]. split; [done|]. split; [done|]. intros q j [Hin Hne]%del_entry_In.
    split; [by eapply Ho, to_front_In|done].
  - exists c1. split; [done|]. eexists. split; [exact Hr1|]. split; [done|]. split; [done|]. intros q j Hin%to_front_In. split; [by apply Ho|].
    intros ->. apply list_elem_of_lookup in Hin as [k Hk]. clear -E Hk. revert k Hk. induction es as [|[q' j'] es IH]; intros k Hk; [done|].
    cbn in E. case_decide as Hq; [done|]. destruct k; cbn in Hk; [by injection Hk as -> ->|]. by eapply IH.
Qed.

(** [performLocalsPhysicalDeletion] touches no other file; it removes the index before the
    data, and both without faults. *)
Lemma deletion_spec head w : coherent w -> let p := (head, locals) in
  let '(r, w') := performLocalsPhysicalDeletion head w in
  coherent w' /\ (oracle w = [] -> oracle w' = []) /\ dirs (dsk w') = dirs (dsk w) /\
  (forall q u, q <> p -> rows (dsk w') q u = rows (dsk w) q u /\ datas (dsk w') !! q = datas (dsk w) !! q) /\
  (dsk w' = dsk w \/ forall u, rows (dsk w') p u = []) /\
  (oracle w = [] -> r = Ret tt /\ idx (dsk w') !! p = None /\ datas (dsk w') !! p = None) /\ r <> Fault.
Proof using Type.
  intros Hc p. unfold performLocalsPhysicalDeletion. destruct (forceClose_spec p w Hc) as (c & E & Hcl). unfold mbind, M_bind. fold p. rewrite E.
  destruct Hc as [Hok _]. destruct Hcl as (es & Hr & Hm & Ht & Ho).
  assert (Hc0 : forall os, coherent (mkWorld (dsk w) c os)) by (intros os; split; [done|]; exists es; split_and!; try done; intros q i Hq; by apply Ho).
  assert (Hc1 : forall os (dat : gmap path (list Z)), coherent (mkWorld (mkDisk (dirs (dsk w)) (delete p (idx (dsk w))) (inodes (dsk w)) (next_inode (dsk w)) dat) c os)).
  { intros os dat. split.
    - destruct Hok as [K1 K2 K3]. split; cbn; [|done|]; intros q i; [|intros j]; rewrite !lookup_delete_Some; naive_solver.
    - exists es. split_and!; try done. intros q i Hq. destruct (Ho q i Hq) as [[Hi Hti] Hne]. split; [|done]. cbn. by rewrite lookup_delete_ne. }
  assert (Hrows : forall q u (dat : gmap path (list Z)), rows (mkDisk (dirs (dsk w)) (delete p (idx (dsk w))) (inodes (dsk w)) (next_inode (dsk w)) dat) q u =
    if decide (q = p) then [] else rows (dsk w) q u).
  { intros q u dat. unfold rows. cbn. case_decide as Hq; [subst q; by rewrite lookup_delete_eq|by rewrite lookup_delete_ne]. }
  unfold remove_index, remove_data, attempt, mbind, M_bind, modify, next. cbn. fold p.
  destruct (oracle w) as [|[| |] [|[| |] os]]; cbn; (split; [first [apply Hc0|apply Hc1]|]); (split; [done|]); (split; [done|]).
  all: split; [intros q u Hq; rewrite ?Hrows, ?decide_False, ?lookup_delete_ne by done; done|].
  all: split; [first [by left|by right; intros u; rewrite Hrows, decide_True]|].
  all: split; [|done]; intros Hor; try done; by rewrite !lookup_delete_eq.
Qed.
End invariants.
