(* ===== verification/VfsStore.v ===== *)
(** * VfsStore: the storage back end of WHIP

    Models [VFSBackend], [ExistenceIndex] and the request types of [VFSQueueTypes]
    ([src/whip-server/whip]) on top of the disk operations of [VfsData].

    Three kinds of threads share the back end: the callers of the public interface (the
    network thread, and the thread of the pull replication), the worker that takes requests
    from the queue, and the io service that runs the handlers posted to it.  A [label] is one
    atomic step of one of them; a call whose steps can be interleaved with those of other
    threads stays in [calls] between its steps.  The steps of the worker carry the faults of the
    disk during the request.  A callback is a value of a parameter type: posting it is an [action],
    and running it moves the action to [delivered].  An exception that a caller gets leaves the
    back end as it was.  [None] is the end of the process, or a step that is not
    possible.  A restart builds a back end from the disk, as the constructors do.

    Left out: log messages, latency averages, texts of errors. *)
From S2P Require Import Prelude LruCache WhipWire Sha1 Uuid VfsData.
From stdpp Require Import list gmap.
#[local] Open Scope Z_scope.

(** ** Requests and handlers *)

Inductive request (CB : Type) :=
  | AssetGetRequest (assetId : list Z) (callback : CB)
  | AssetPutRequest (asset : list Z) (callback : CB)
  | AssetPurgeRequest (assetId : list Z) (callback : CB)
  | PurgeLocalsRequest (uuidHead : list Z) (** [AssetPurgeRequest] with its flag set *)
  | DeleteLocalStorageRequest (uuidPrefix : list Z)
  | CollectStatusRequest (callback : CB)
  | GetStoredAssetIdsRequest (prefix : list Z) (callback : CB).
Arguments AssetGetRequest {CB}.
Arguments AssetPutRequest {CB}.
Arguments AssetPurgeRequest {CB}.
Arguments PurgeLocalsRequest {CB}.
Arguments DeleteLocalStorageRequest {CB}.
Arguments CollectStatusRequest {CB}.
Arguments GetStoredAssetIdsRequest {CB}.

(** Handlers posted to the io service.  An asset is passed exactly in the case of success;
    the journals of the last two are passed on. *)
Inductive action (CB : Type) :=
  | CallGet (callback : CB) (asset : option (list Z))
  | CallStore (callback : CB) (success : bool)
  | CallStatus (callback : CB) (items : list (list Z))
  | CallIds (callback : CB) (journal : list Z)
  | AssetWriteFailed (assetId : list Z)
  | IoLoopFailed
  | UnindexLocals (uuidList : option (list (list Z))) (uuidHead : list Z).
Arguments CallGet {CB}.
Arguments CallStore {CB}.
Arguments CallStatus {CB}.
Arguments CallIds {CB}.
Arguments AssetWriteFailed {CB}.
Arguments IoLoopFailed {CB}.
Arguments UnindexLocals {CB}.

(** Calls between two of their steps. *)
Inductive call (CB : Type) :=
  | GetChecked (uuid : list Z) (callback : CB)
  | StoreChecked (asset : list Z) (callback : CB)
  | StoreIndexed (asset : list Z) (callback : CB).
Arguments GetChecked {CB}.
Arguments StoreChecked {CB}.
Arguments StoreIndexed {CB}.

Record backend (T CB : Type) := mkBackend {
  dsk_ : disk T; files_ : handles;
  _existingAssets : gset (list Z);
  _workQueue : list (request CB);
  posted : list (action CB); delivered : list (action CB);
  calls : list (call CB);
  _isPurgingLocals : bool; _currentLocalsPurgeIndex : Z; timer_armed : bool;
  pushed : list (list Z);
  _stop : bool }.
Arguments mkBackend {T CB}.
Arguments dsk_ {T CB}.
Arguments files_ {T CB}.
Arguments _existingAssets {T CB}.
Arguments _workQueue {T CB}.
Arguments posted {T CB}.
Arguments delivered {T CB}.
Arguments calls {T CB}.
Arguments _isPurgingLocals {T CB}.
Arguments _currentLocalsPurgeIndex {T CB}.
Arguments timer_armed {T CB}.
Arguments pushed {T CB}.
Arguments _stop {T CB}.

Section backend.
Context {T CB : Type} `{IndexTable T}.
#[local] Notation backend := (backend T CB).
Implicit Types (s : backend) (uuid asset : list Z) (cb : CB).

(** *** Changes of one part of the state *)

Definition set_files s (w : world T) : backend :=
  mkBackend (dsk w) (_openFiles w) (_existingAssets s) (_workQueue s) (posted s) (delivered s) (calls s) (_isPurgingLocals s) (_currentLocalsPurgeIndex s) (timer_armed s) (pushed s) (_stop s).
Definition set_existing s (e : gset (list Z)) : backend :=
  mkBackend (dsk_ s) (files_ s) e (_workQueue s) (posted s) (delivered s) (calls s) (_isPurgingLocals s) (_currentLocalsPurgeIndex s) (timer_armed s) (pushed s) (_stop s).
Definition set_queue s (q : list (request CB)) : backend :=
  mkBackend (dsk_ s) (files_ s) (_existingAssets s) q (posted s) (delivered s) (calls s) (_isPurgingLocals s) (_currentLocalsPurgeIndex s) (timer_armed s) (pushed s) (_stop s).
Definition set_posted s (l l' : list (action CB)) : backend :=
  mkBackend (dsk_ s) (files_ s) (_existingAssets s) (_workQueue s) l l' (calls s) (_isPurgingLocals s) (_currentLocalsPurgeIndex s) (timer_armed s) (pushed s) (_stop s).
Definition set_calls s (l : list (call CB)) : backend :=
  mkBackend (dsk_ s) (files_ s) (_existingAssets s) (_workQueue s) (posted s) (delivered s) l (_isPurgingLocals s) (_currentLocalsPurgeIndex s) (timer_armed s) (pushed s) (_stop s).
Definition set_purge s (b : bool) (n : Z) (t : bool) : backend :=
  mkBackend (dsk_ s) (files_ s) (_existingAssets s) (_workQueue s) (posted s) (delivered s) (calls s) b n t (pushed s) (_stop s).
Definition set_pushed s (l : list (list Z)) : backend :=
  mkBackend (dsk_ s) (files_ s) (_existingAssets s) (_workQueue s) (posted s) (delivered s) (calls s) (_isPurgingLocals s) (_currentLocalsPurgeIndex s) (timer_armed s) l (_stop s).

Definition post s (a : action CB) : backend := set_posted s (posted s ++ [a]) (delivered s).
Definition enqueue s (r : request CB) : backend := set_queue s (_workQueue s ++ [r]).

(** ** ExistenceIndex *)

Definition assetExists (existing : gset (list Z)) uuid : res bool :=
  match uuid_t uuid with
  | UuidValue d => Ret (bool_decide (d ∈ existing))
  | UuidThrow => Throw StdError
  | UuidUninitialised => Fault
  end.

Definition addNewId (existing : gset (list Z)) uuid : res (gset (list Z)) :=
  match uuid_t uuid with
  | UuidValue d => Ret ({[d]} ∪ existing)
  | UuidThrow => Throw StdError
  | UuidUninitialised => Fault
  end.

Definition removeId (existing : gset (list Z)) (id : list Z) : gset (list Z) := existing ∖ {[id]}.

(** [rowCallback] on the rows of an index file. *)
Fixpoint load_rows (l : list (list Z * row)) (existing : gset (list Z)) : M T (gset (list Z)) :=
  match l with
  | [] => mret existing
  | (id, r) :: l =>
      if deleted r =? 0 then
        match addNewId existing id with Ret existing => load_rows l existing | Throw e => throw e | Fault => fault end
      else load_rows l existing
  end.

Definition loadIndexFile (p : path) (existing : gset (list Z)) : M T (gset (list Z)) :=
  i ← SQLiteConnection p; t ← table i; load_rows (select_all t) existing.

(** The constructor: [files] are the index files in the subdirectories of the root. *)
Fixpoint load_files (files : list path) (existing : gset (list Z)) : M T (gset (list Z)) :=
  match files with [] => mret existing | p :: files => existing ← loadIndexFile p existing; load_files files existing end.

Definition ExistenceIndex : M T (gset (list Z)) := d ← gets dsk; load_files (map fst (map_to_list (idx d))) ∅.

(** ** Construction and shutdown *)

Definition new_pool : handles := new_cache (mkCount 0) MAX_OPEN_FILES.

(** The constructor of [VFSBackend] on the files of [d]. *)
Definition boot (d : disk T) (faults : list outcome) : option backend :=
  match ExistenceIndex (mkWorld d new_pool faults) with
  | (Ret existing, w) => Some (mkBackend (dsk w) (_openFiles w) existing [] [] [] [] false 0 false [] false)
  | _ => None
  end.

(** [shutdown]: the worker ends and the index files are closed. *)
Definition shutdown s : backend :=
  mkBackend (dsk_ s) (clear (files_ s)) (_existingAssets s) (_workQueue s) (posted s) (delivered s) (calls s) (_isPurgingLocals s) (_currentLocalsPurgeIndex s) (timer_armed s) (pushed s) true.

(** ** The public interface *)

(** [getAsset]: the test, and the rest of the call. *)
Definition getAsset s uuid cb : option backend :=
  match assetExists (_existingAssets s) uuid with
  | Ret true => Some (set_calls s (calls s ++ [GetChecked uuid cb]))
  | Ret false => Some (post s (CallGet cb None))
  | Throw _ => Some s
  | Fault => None
  end.

Definition getAsset_enqueue s uuid cb : option backend := Some (enqueue s (AssetGetRequest uuid cb)).

(** [storeAsset]: the test, the entry in the existence index, the rest. *)
Definition storeAsset s asset cb : option backend :=
  match Asset.getUUID asset with
  | None => None
  | Some uuid =>
      match assetExists (_existingAssets s) uuid with
      | Ret true => Some (post s (CallStore cb false))
      | Ret false => Some (set_calls s (calls s ++ [StoreChecked asset cb]))
      | Throw _ => Some s
      | Fault => None
      end
  end.

Definition storeAsset_index s asset cb : option backend :=
  match Asset.getUUID asset with
  | None => None
  | Some uuid =>
      match addNewId (_existingAssets s) uuid with
      | Ret existing => let s := set_existing s existing in Some (set_calls s (calls s ++ [StoreIndexed asset cb]))
      | Throw _ => Some s
      | Fault => None
      end
  end.

Definition storeAsset_enqueue s asset cb : option backend := Some (enqueue s (AssetPutRequest asset cb)).

Definition purgeAsset s uuid cb : option backend := Some (enqueue s (AssetPurgeRequest uuid cb)).
Definition getStatus s cb : option backend := Some (enqueue s (CollectStatusRequest cb)).
Definition getStoredAssetIDsWithPrefix s prefix cb : option backend := Some (enqueue s (GetStoredAssetIdsRequest prefix cb)).

Definition beginPurgeLocals s : option backend :=
  if negb (_isPurgingLocals s) then Some (set_purge s true 0 true) else Some s.

(** [std::setw(3)] and [std::setfill('0')] with [std::hex]. *)
Fixpoint hex_number (fuel : nat) (n : Z) : list Z :=
  match fuel with O => [] | S fuel => if n <? 16 then [hex_digit n] else hex_number fuel (n / 16) ++ [hex_digit (n mod 16)] end.
Definition hex_head (n : Z) : list Z := let t := hex_number 8 n in replicate (UUID_PATH_CHARS - length t) 48 ++ t.

Definition onPurgeTimer s (error : bool) : option backend :=
  if timer_armed s then
    let s := set_purge s (_isPurgingLocals s) (_currentLocalsPurgeIndex s) false in
    if negb error then
      let assetId := hex_head (_currentLocalsPurgeIndex s) in
      let s := set_purge s (_isPurgingLocals s) (_currentLocalsPurgeIndex s + 1) false in
      let s := enqueue s (PurgeLocalsRequest assetId) in
      if _currentLocalsPurgeIndex s <=? 4095 then Some (set_purge s (_isPurgingLocals s) (_currentLocalsPurgeIndex s) true)
      else Some (set_purge s false (_currentLocalsPurgeIndex s) false)
    else Some s
  else None.

(** ** The worker *)

(** An operation on the files, with the faults that it meets. *)
Definition on_disk {A} s (faults : list outcome) (m : M T A) : res A * backend :=
  let '(r, w) := m (mkWorld (dsk_ s) (files_ s) faults) in (r, set_files s w).

Definition performDiskWrite s faults asset cb : option backend :=
  match on_disk s faults (disk_storeAsset asset) with
  | (Ret _, s) => Some (set_pushed (post s (CallStore cb true)) (pushed s ++ [asset]))
  | (Throw (AssetStorageError _), s) => Some (post s (CallStore cb false))
  | (Throw _, s) => uuid ← Asset.getUUID asset; Some (post (post s (AssetWriteFailed uuid)) (CallStore cb false))
  | (Fault, _) => None
  end.

Definition performDiskRead s faults uuid cb : option backend :=
  match on_disk s faults (disk_getAsset uuid) with
  | (Ret (Some asset), s) => Some (post s (CallGet cb (Some asset)))
  | (Ret None, s) | (Throw _, s) => Some (post s (CallGet cb None))
  | (Fault, _) => None
  end.

Definition performDiskPurge s uuid cb : option backend := Some s.

(** In the following an exception ends in the handler of [workLoop]. *)
Definition performDiskPurgeLocals s faults (uuidHead : list Z) : option backend :=
  match on_disk s faults (list_locals uuidHead) with
  | (Ret containedIds, s) => Some (post s (UnindexLocals containedIds uuidHead))
  | (Throw _, s) => Some (post s IoLoopFailed)
  | (Fault, _) => None
  end.

Definition performDeletion s faults (uuidHead : list Z) : option backend :=
  match on_disk s faults (performLocalsPhysicalDeletion uuidHead) with
  | (Ret _, s) => Some s
  | (Throw _, s) => Some (post s IoLoopFailed)
  | (Fault, _) => None
  end.

(** [getDescription] *)
Definition getDescription (r : request CB) : list Z :=
  match r with
  | AssetGetRequest id _ => [71; 69; 84; 32] ++ id
  | AssetPutRequest a _ => [80; 85; 84; 32] ++ take 32 a
  | AssetPurgeRequest _ _ | PurgeLocalsRequest _ => [80; 85; 82; 71; 69]
  | DeleteLocalStorageRequest head => [68; 69; 76; 69; 84; 69; 32; 76; 79; 67; 65; 76; 32; 83; 84; 79; 82; 65; 71; 69; 32] ++ head
  | CollectStatusRequest _ => [67; 79; 76; 76; 69; 67; 84; 32; 83; 84; 65; 84; 85; 83]
  | GetStoredAssetIdsRequest _ _ => [71; 69; 84; 32; 83; 84; 79; 82; 69; 68; 32; 73; 68; 83]
  end.

(** The queue items of the status journal. *)
Definition performGetStatus s cb : option backend := Some (post s (CallStatus cb (map getDescription (_workQueue s)))).

(** Every id is followed by a comma. *)
Definition performGetStoredAssetIds s faults (prefix : list Z) cb : option backend :=
  match on_disk s faults (list_globals prefix) with
  | (Ret ids, s) => Some (post s (CallIds cb (concat (map (fun id => id ++ [44]) ids))))
  | (Throw _, s) => Some (post s IoLoopFailed)
  | (Fault, _) => None
  end.

Definition processRequest s faults (r : request CB) : option backend :=
  match r with
  | AssetGetRequest uuid cb => performDiskRead s faults uuid cb
  | AssetPutRequest asset cb => performDiskWrite s faults asset cb
  | AssetPurgeRequest uuid cb => performDiskPurge s uuid cb
  | PurgeLocalsRequest head => performDiskPurgeLocals s faults head
  | DeleteLocalStorageRequest head => performDeletion s faults head
  | CollectStatusRequest cb => performGetStatus s cb
  | GetStoredAssetIdsRequest prefix cb => performGetStoredAssetIds s faults prefix cb
  end.

(** One turn of [workLoop]. *)
Definition workLoop s faults : option backend :=
  if _stop s then None
  else match _workQueue s with [] => None | r :: q => processRequest (set_queue s q) faults r end.

(** ** Handlers on the io service *)

Definition assetWriteFailed s uuid : option backend :=
  match uuid_t uuid with UuidValue d => Some (set_existing s (removeId (_existingAssets s) d)) | _ => None end.

Definition unindexLocals s (uuidList : option (list (list Z))) (uuidHead : list Z) : option backend :=
  let s := match uuidList with Some l => set_existing s (foldl removeId (_existingAssets s) l) | None => s end in
  Some (enqueue s (DeleteLocalStorageRequest uuidHead)).

(** The io service runs the next handler; callbacks go to their owners. *)
Definition run_posted s : option backend :=
  match posted s with
  | [] => None
  | a :: l =>
      match a with
      | AssetWriteFailed uuid => assetWriteFailed (set_posted s l (delivered s)) uuid
      | IoLoopFailed => Some (set_posted s l (delivered s))
      | UnindexLocals ids head => unindexLocals (set_posted s l (delivered s)) ids head
      | _ => Some (set_posted s l (delivered s ++ [a]))
      end
  end.

(** The [n]-th call under way goes on. *)
Definition resume s (n : nat) : option backend :=
  c ← calls s !! n;
  let s := set_calls s (delete n (calls s)) in
  match c with
  | GetChecked uuid cb => getAsset_enqueue s uuid cb
  | StoreChecked asset cb => storeAsset_index s asset cb
  | StoreIndexed asset cb => storeAsset_enqueue s asset cb
  end.

(** ** Steps and runs *)

Inductive label :=
  | LGet (uuid : list Z) (cb : CB) | LStore (asset : list Z) (cb : CB) | LPurge (uuid : list Z) (cb : CB) | LStatus (cb : CB)
  | LIds (prefix : list Z) (cb : CB) | LPurgeLocals | LResume (n : nat) | LWork (faults : list outcome) | LPosted | LTimer (error : bool)
  | LShutdown | LRestart (faults : list outcome).

Definition step s (l : label) : option backend :=
  match l with
  | LGet uuid cb => getAsset s uuid cb
  | LStore asset cb => storeAsset s asset cb
  | LPurge uuid cb => purgeAsset s uuid cb
  | LStatus cb => getStatus s cb
  | LIds prefix cb => getStoredAssetIDsWithPrefix s prefix cb
  | LPurgeLocals => beginPurgeLocals s
  | LResume n => resume s n
  | LWork faults => workLoop s faults
  | LPosted => run_posted s
  | LTimer error => onPurgeTimer s error
  | LShutdown => Some (shutdown s)
  | LRestart faults => boot (dsk_ s) faults
  end.

(** The steps from [s0], latest first. *)
Inductive run (s0 : backend) : list label -> backend -> Prop :=
  | run_nil : run s0 [] s0
  | run_cons tr s l s' : run s0 tr s -> step s l = Some s' -> run s0 (l :: tr) s'.
End backend.
Arguments label : clear implicits.

(** A storage root without files. *)
Definition empty_disk {T} : disk T := mkDisk ∅ ∅ ∅ 0 ∅.

(** ** Loading the existence index *)

Section startup.
Context {T : Type} `{IndexTableLaws T}.
Implicit Types (d : disk T) (p : path) (w : world T) (e : gset (list Z)).

(** The ids that the rows with a zero in [deleted] add. *)
Lemma load_rows_ret l : forall e w e' w', load_rows l e w = (Ret e', w') ->
  w' = w /\ forall x, x ∈ e' <-> x ∈ e \/ exists u r, (u, r) ∈ l /\ deleted r = 0 /\ uuid_t u = UuidValue x.
Proof using Type.
  induction l as [|[u r] l IH]; intros e w e' w' Hl; cbn in Hl.
  - injection Hl as <- <-. split; [done|]. intros x. split; [by left|]. intros [?|(u & r & Hin & _)]; [done|]. by apply not_elem_of_nil in Hin.
  - destruct (Z.eqb_spec (deleted r) 0) as [Hz|Hz].
    + unfold addNewId in Hl. destruct (uuid_t u) as [x0| |] eqn:Eu; [|done..]. apply IH in Hl as [-> Hl]. split; [done|]. intros x. rewrite Hl, elem_of_union, elem_of_singleton.
      split.
      * intros [[->|He]|(v & r' & Hin & Hd & Hv)]; [right; exists u, r; split; [left|done]|by left|right; exists v, r'; split; [by right|done]].
      * intros [He|(v & r' & [[= -> ->]|Hin]%elem_of_cons & Hd & Hv)]; [by left; right| |].
        -- left. left. congruence.
        -- right. by exists v, r'.
    + apply IH in Hl as [-> Hl]. split; [done|]. intros x. rewrite Hl. split; (intros [He|(v & r' & Hin & Hd & Hv)]; [by left|right; exists v, r'; split; [|done]]).
      * by right.
      * apply elem_of_cons in Hin as [[= -> ->]|Hin]; [done|done].
Qed.

(** An id in the rows of an index file, not marked as deleted. *)
Definition listed d p (x : list Z) : Prop := exists u r, r ∈ rows d p u /\ deleted r = 0 /\ uuid_t u = UuidValue x.

Lemma attempt_ret (ex : exn) w r w' : attempt ex w = (Ret r, w') -> dsk w' = dsk w /\ _openFiles w' = _openFiles w.
Proof using Type.
  unfold attempt, mbind, M_bind, next. destruct (oracle w) as [|[] os]; cbn; intros [= <- <-]; done.
Qed.

Lemma loadIndexFile_ret p e w e' w' : disk_ok (dsk w) -> is_Some (idx (dsk w) !! p) -> loadIndexFile p e w = (Ret e', w') ->
  dsk w' = dsk w /\ _openFiles w' = _openFiles w /\ forall x, x ∈ e' <-> x ∈ e \/ listed (dsk w) p x.
Proof using H0.
  intros Hok [i Hi]. unfold loadIndexFile, SQLiteConnection, table, query, mbind, M_bind.
  destruct (attempt SQLiteError w) as [[[]| |] w1] eqn:E1; [|done..]. apply attempt_ret in E1 as [Hd1 Hf1]. unfold gets at 1.
  rewrite Hd1, bool_decide_true, Hi by (by apply (ok_idx _ Hok _ _ Hi)). cbn [negb mret M_ret].
  destruct (attempt SQLiteError w1) as [[[]| |] w2] eqn:E2; [|done..]. apply attempt_ret in E2 as [Hd2 Hf2]. unfold gets.
  destruct (inodes (dsk w2) !! i) as [[t|]|] eqn:Et; [|done..]. cbn [mret M_ret]. intros [-> Hl]%load_rows_ret. split; [congruence|]. split; [congruence|].
  intros x. rewrite Hl. apply or_iff_compat_l. unfold listed, rows. rewrite Hi. rewrite Hd2, Hd1 in Et. rewrite Et.
  split; (intros (u & r & Hin & Hr); exists u, r; split; [by apply select_all_spec|done]).
Qed.

Lemma load_files_ret ps : forall e w e' w', disk_ok (dsk w) -> (forall p, p ∈ ps -> is_Some (idx (dsk w) !! p)) -> load_files ps e w = (Ret e', w') ->
  dsk w' = dsk w /\ _openFiles w' = _openFiles w /\ forall x, x ∈ e' <-> x ∈ e \/ exists p, p ∈ ps /\ listed (dsk w) p x.
Proof using H0.
  induction ps as [|p ps IH]; intros e w e' w' Hok Hps Hl; cbn in Hl.
  - injection Hl as <- <-. split; [done|]. split; [done|]. intros x. split; [by left|]. intros [?|(p & Hp & _)]; [done|]. by apply not_elem_of_nil in Hp.
  - unfold mbind, M_bind in Hl. destruct (loadIndexFile p e w) as [[e1| |] w1] eqn:E1; [|done..]. apply loadIndexFile_ret in E1 as (Hd1 & Hf1 & He1); [|done|apply Hps; left].
    apply IH in Hl as (Hd2 & Hf2 & He2); [|by rewrite Hd1|intros q Hq; rewrite Hd1; apply Hps; by right].
    split; [congruence|]. split; [congruence|]. intros x. rewrite He2, He1, Hd1. split.
    + intros [[?|?]|(q & Hq & ?)]; [by left|right; exists p; split; [left|done]|right; exists q; split; [by right|done]].
    + intros [?|(q & [->|Hq]%elem_of_cons & ?)]; [by left; left|by left; right|right; by exists q].
Qed.

Lemma boot_ret {CB} d faults (s : backend T CB) : disk_ok d -> boot d faults = Some s ->
  dsk_ s = d /\ files_ s = new_pool /\ _workQueue s = [] /\ posted s = [] /\ delivered s = [] /\ calls s = [] /\
  forall x, x ∈ _existingAssets s <-> exists p, listed d p x.
Proof using H0.
  intros Hok. unfold boot, ExistenceIndex, mbind, M_bind, gets. cbn.
  destruct (load_files _ _ _) as [[e| |] w] eqn:E; [|done..]. intros [= <-]. cbn. apply load_files_ret in E as (Hd & Hf & He); [|done|].
  - cbn in *. split_and!; try done. intros x. rewrite He. split.
    + intros [?%elem_of_empty|(p & _ & Hp)]; [done|by exists p].
    + intros (p & Hp). right. exists p. split; [|done]. destruct Hp as (u & r & Hr & _). unfold rows in Hr.
      destruct (idx d !! p) as [i|] eqn:Ei; [|by apply not_elem_of_nil in Hr]. apply list_elem_of_fmap. exists (p, i). split; [done|]. by apply elem_of_map_to_list.
  - intros p ([q i] & -> & Hq)%list_elem_of_fmap. apply elem_of_map_to_list in Hq. cbn. rewrite Hq. eauto.
Qed.

Lemma new_pool_ok d : pool_ok d new_pool.
Proof using Type. exists []. split; [by apply new_cache_rep|]. split; [done|]. split; [done|]. intros p i Hin. by apply not_elem_of_nil in Hin. Qed.
End startup.

(** ** What a step does to the files *)

Section steps.
Context {T CB : Type} `{IndexTableLaws T}.
#[local] Notation backend := (backend T CB).
#[local] Notation label := (label CB).
Implicit Types (s : backend) (d : disk T) (u a : list Z) (p : path) (cb : CB).

(** The file that an asset belongs to. *)
Definition file_of u (l : bool) : path := (getFullPathForUUID u, base_of l).

(** A valid asset: what the connections let through. *)
Definition valid_asset a : Prop := exists u l, Asset.getUUID a = Some u /\ IsValidUUID u = true /\ Asset.isLocal a = Some l.

(** The changes of the files from [d] to [d']: nothing that matters, one more asset, or
    the local assets of one directory gone. *)
Inductive evolves (Q : list Z -> Prop) d d' : Prop :=
  | ev_keeps P (HK : keeps P d d')
  | ev_stored u l a (Ha : Q a) (Hu : Asset.getUUID a = Some u) (Hl : Asset.isLocal a = Some l) (Hs : stored d d' (file_of u l) u a)
  | ev_deleted head (Hother : forall q u, q <> (head, locals) -> rows d' q u = rows d q u /\ datas d' !! q = datas d !! q)
      (Hgone : forall u, rows d' (head, locals) u = []).

Lemma evolves_holds Q d d' p u a : evolves Q d d' -> holds d p u a -> p.2 = globals -> holds d' p u a.
Proof using Type.
  intros [P HK|v l b _ _ _ Hs|head Hother _] Hh Hg; [by eapply keeps_holds|by eapply stored_holds|].
  assert (Hne : p <> (head, locals)) by (intros ->; done). destruct (Hother p u Hne) as [Hr Hd].
  destruct Hh as (Hpos & Hf & Hat). unfold holds, position_of, data in *. by rewrite Hr, Hd.
Qed.

Lemma evolves_data_ok (R : path -> list Z -> list Z -> Prop) Q d d' : evolves Q d d' -> (forall u l a, Q a -> Asset.getUUID a = Some u -> Asset.isLocal a = Some l -> R (file_of u l) u a) ->
  data_ok R d -> data_ok R d'.
Proof using Type.
  intros [P HK|v l b Hb Hu Hl Hs|head Hother Hgone] HR Hok.
  - by eapply keeps_data_ok.
  - eapply stored_data_ok; [done|done|by apply HR].
  - intros q v Hpos. destruct (decide (q = (head, locals))) as [->|Hne]; [unfold position_of in Hpos; by rewrite Hgone in Hpos|].
    destruct (Hother q v Hne) as [Hr Hd]. unfold position_of in Hpos. rewrite Hr in Hpos. destruct (Hok q v Hpos) as (a & (_ & Hf & Hat) & HRa).
    exists a. split; [|done]. unfold holds, position_of, data. rewrite Hr, Hd. done.
Qed.

Lemma evolves_ids_ok (Q : list Z -> Prop) d d' : evolves Q d d' -> (forall a, Q a -> valid_asset a) -> ids_ok d -> ids_ok d'.
Proof using Type.
  intros [P HK|v l b Hb Hu Hl Hs|head Hother Hgone] HQ Hok.
  - by eapply keeps_ids_ok.
  - destruct (HQ b Hb) as (u & l' & Hu' & Hv & _). eapply stored_ids_ok; [done|congruence|done|done].
  - intros q v Hr. destruct (decide (q = (head, locals))) as [->|Hne]; [by rewrite Hgone in Hr|]. destruct (Hother q v Hne) as [E _]. rewrite E in *. by apply Hok.
Qed.

(** The files and the pool of a back end, as the operations see them. *)
Definition files s (faults : list outcome) : world T := mkWorld (dsk_ s) (files_ s) faults.

Lemma coherent_faults s f f' : coherent (files s f) -> coherent (files s f').
Proof using Type. done. Qed.

Definition put_of (r : request CB) : option (list Z) := match r with AssetPutRequest a _ => Some a | _ => None end.

Lemma on_disk_runs {A} s faults (m : M T A) P F Q r s' : coherent (files s []) -> runs P F m (files s faults) Q -> on_disk s faults m = (r, s') ->
  coherent (files s' []) /\ keeps P (dsk_ s) (dsk_ s') /\ s' = set_files s (files s' []) /\
  match r with Ret x => exists w', dsk w' = dsk_ s' /\ Q x w' | _ => F \/ faults <> [] end.
Proof using Type.
  intros Hc Hr. unfold on_disk. unfold runs, files in Hr. cbn in Hr. destruct (m (mkWorld (dsk_ s) (files_ s) faults)) as [r0 w]. intros [= -> <-].
  destruct Hr as (Hcw & HK & _ & HQ). split; [done|]. split; [done|]. split; [done|]. destruct r; [by exists w|done..].
Qed.

Lemma on_disk_store s faults a u l r s' : coherent (files s []) -> Asset.getUUID a = Some u -> Asset.isLocal a = Some l ->
  on_disk s faults (disk_storeAsset a) = (r, s') ->
  coherent (files s' []) /\ s' = set_files s (files s' []) /\
  match r with Ret _ => stored (dsk_ s) (dsk_ s') (file_of u l) u a | _ => keeps (eq (file_of u l)) (dsk_ s) (dsk_ s') end /\
  (faults = [] -> rows (dsk_ s) (file_of u l) u = [] -> Z.of_nat (length a) < 2 ^ 32 -> exists y, r = Ret y).
Proof using H0.
  intros Hc Hu Hl. unfold on_disk. pose proof (storeAsset_spec u l a (files s faults) Hc Hu Hl) as Hs. unfold store_outcome, files in Hs.
  destruct (disk_storeAsset a _) as [r0 w]. intros [= -> <-]. by destruct Hs as (Hcw & _ & Hr & Hp).
Qed.

Lemma getAsset_fault_free s u r s' (R : path -> list Z -> list Z -> Prop) faults : coherent (files s []) -> data_ok R (dsk_ s) -> on_disk s faults (disk_getAsset u) = (r, s') ->
  coherent (files s' []) /\ keeps (fun _ => False) (dsk_ s) (dsk_ s') /\ s' = set_files s (files s' []) /\
  match r with
  | Ret (Some a) => finds (dsk_ s) u a /\ exists b, R (getFullPathForUUID u, b) u a
  | Ret None => forall b, position_of (dsk_ s) (getFullPathForUUID u, b) u = INVALID_POSITION
  | _ => faults <> []
  end.
Proof using H0.
  intros Hc Hok Hd. destruct (on_disk_runs s faults _ _ _ _ r s' Hc (runs_getAsset R u (files s faults) Hc Hok) Hd) as (Hc' & HK & Hs & Hr).
  split; [done|]. split; [done|]. split; [done|]. destruct r as [x| |]; [|by destruct Hr..]. destruct Hr as (w & _ & Hx). exact Hx.
Qed.

(** A request that the worker carries out. *)
Lemma processRequest_files s faults r s' (R : path -> list Z -> list Z -> Prop) : coherent (files s []) -> ids_ok (dsk_ s) -> data_ok R (dsk_ s) ->
  (forall a, put_of r = Some a -> valid_asset a) -> processRequest s faults r = Some s' ->
  coherent (files s' []) /\ evolves (fun a => put_of r = Some a) (dsk_ s) (dsk_ s').
Proof using H0.
  intros Hc Hids Hok Hput. destruct r as [u cb|a cb|u cb|head|head|cb|prefix cb]; cbn [processRequest].
  - unfold performDiskRead. destruct (on_disk s faults (disk_getAsset u)) as [r s1] eqn:E. apply (getAsset_fault_free _ _ _ _ R) in E as (Hc1 & HK & _ & _); [|done..].
    destruct r as [[a|]| |]; intros [= <-]; (split; [done|by eapply ev_keeps]).
  - destruct (Hput a eq_refl) as (u & l & Hu & Hv & Hl). unfold performDiskWrite. destruct (on_disk s faults (disk_storeAsset a)) as [r s1] eqn:E.
    apply (on_disk_store _ _ _ u l) in E as (Hc1 & _ & Hr & _); [|done..]. rewrite Hu. cbn [mbind option_bind].
    destruct r as [x|[]|]; intros [= <-]; (split; [done|]); [by eapply ev_stored|by eapply ev_keeps..].
  - unfold performDiskPurge. intros [= <-]. split; [done|]. apply (ev_keeps _ _ _ (fun _ => False)), keeps_refl.
  - unfold performDiskPurgeLocals. destruct (on_disk s faults (list_locals head)) as [r s1] eqn:E.
    destruct (on_disk_runs s faults _ _ _ _ r s1 Hc (runs_list_locals head (files s faults) Hc Hids) E) as (Hc1 & HK & _).
    destruct r; intros [= <-]; (split; [done|by eapply ev_keeps]).
  - unfold performDeletion, on_disk. pose proof (deletion_spec head (files s faults) Hc) as Hdel. cbn zeta in Hdel. unfold files in Hdel.
    destruct (performLocalsPhysicalDeletion head _) as [r w]. destruct Hdel as (Hcw & _ & _ & Hother & Hgone & _).
    assert (Hev : evolves (fun a => put_of (DeleteLocalStorageRequest head : request CB) = Some a) (dsk_ s) (dsk w)).
    { destruct Hgone as [-> |Hgone]; [apply (ev_keeps _ _ _ (fun _ => False)), keeps_refl|by apply (ev_deleted _ _ _ head)]. }
    destruct r; intros [= <-]; done.
  - unfold performGetStatus. intros [= <-]. split; [done|]. apply (ev_keeps _ _ _ (fun _ => False)), keeps_refl.
  - unfold performGetStoredAssetIds. destruct (on_disk s faults (list_globals prefix)) as [r s1] eqn:E.
    destruct (on_disk_runs s faults _ _ _ _ r s1 Hc (runs_list_globals prefix (files s faults) Hc) E) as (Hc1 & HK & _).
    destruct r; intros [= <-]; (split; [done|by eapply ev_keeps]).
Qed.

(** ** What a step does to the messages *)

(** The handlers that the worker posts for a request. *)
Definition reply_to (r : request CB) (l : list (action CB)) : Prop :=
  match r with
  | AssetGetRequest _ cb => exists x, l = [CallGet cb x]
  | AssetPutRequest a cb => l = [CallStore cb true] \/ l = [CallStore cb false] \/ exists u, Asset.getUUID a = Some u /\ l = [AssetWriteFailed u; CallStore cb false]
  | AssetPurgeRequest _ _ => l = []
  | PurgeLocalsRequest head => (exists x, l = [UnindexLocals x head]) \/ l = [IoLoopFailed]
  | DeleteLocalStorageRequest _ => l = [] \/ l = [IoLoopFailed]
  | CollectStatusRequest cb => exists x, l = [CallStatus cb x]
  | GetStoredAssetIdsRequest _ cb => (exists x, l = [CallIds cb x]) \/ l = [IoLoopFailed]
  end.

Lemma on_disk_rest {A} s faults (m : M T A) r s' : on_disk s faults m = (r, s') -> s' = set_files s (files s' []).
Proof using Type. unfold on_disk. destruct (m _) as [r0 w]. by intros [= -> <-]. Qed.

Lemma processRequest_messages s faults r s' : processRequest s faults r = Some s' ->
  _workQueue s' = _workQueue s /\ calls s' = calls s /\ delivered s' = delivered s /\ _existingAssets s' = _existingAssets s /\
  exists l, posted s' = posted s ++ l /\ reply_to r l.
Proof using Type.
  destruct r as [u cb|a cb|u cb|head|head|cb|prefix cb]; cbn [processRequest].
  - unfold performDiskRead. destruct (on_disk s faults _) as [r s1] eqn:E. apply on_disk_rest in E. rewrite E. destruct r as [[a|]| |]; intros [= <-]; cbn; eauto 10.
  - unfold performDiskWrite. destruct (on_disk s faults _) as [r s1] eqn:E. apply on_disk_rest in E. rewrite E.
    destruct r as [x|[]|]; try destruct (Asset.getUUID a) as [u|] eqn:Eu; intros [= <-]; cbn; rewrite <- ?app_assoc; cbn; split_and!; try done; eexists; (split; [done|]); eauto.
  - intros [= <-]. split_and!; try done. exists []. by rewrite app_nil_r.
  - unfold performDiskPurgeLocals. destruct (on_disk s faults _) as [r s1] eqn:E. apply on_disk_rest in E. rewrite E. destruct r; intros [= <-]; cbn; eauto 10.
  - unfold performDeletion. destruct (on_disk s faults _) as [r s1] eqn:E. apply on_disk_rest in E. rewrite E.
    destruct r; intros [= <-]; cbn; split_and!; try done; [exists []; rewrite app_nil_r; auto|eauto].
  - intros [= <-]. cbn. eauto 10.
  - unfold performGetStoredAssetIds. destruct (on_disk s faults _) as [r s1] eqn:E. apply on_disk_rest in E. rewrite E. destruct r; intros [= <-]; cbn; eauto 10.
Qed.

(** An asset passed to a callback answers a call for its id, and was given to the store. *)
Definition given (tr : list label) a : Prop := exists cb, LStore a cb ∈ tr.
Definition answers (tr : list label) cb a : Prop := exists u, LGet u cb ∈ tr /\ Asset.getUUID a = Some u /\ given tr a.

Record messages_ok (tr : list label) s : Prop := {
  ok_put a cb : AssetPutRequest a cb ∈ _workQueue s -> LStore a cb ∈ tr;
  ok_get u cb : AssetGetRequest u cb ∈ _workQueue s -> LGet u cb ∈ tr;
  ok_calls c : c ∈ calls s -> match c with GetChecked u cb => LGet u cb ∈ tr | StoreChecked a cb | StoreIndexed a cb => LStore a cb ∈ tr end;
  ok_posted cb a : CallGet cb (Some a) ∈ posted s ++ delivered s -> answers tr cb a;
  ok_acked cb b : CallStore cb b ∈ posted s ++ delivered s -> exists a, LStore a cb ∈ tr;
}.

Lemma answers_mono tr l cb a : answers tr cb a -> answers (l :: tr) cb a.
Proof using Type. intros (u & Hg & Hu & cb' & Hs). exists u. split; [by right|]. split; [done|]. exists cb'. by right. Qed.

Lemma messages_mono tr l s : messages_ok tr s -> messages_ok (l :: tr) s.
Proof using Type.
  intros [K1 K2 K3 K4 K5]. split.
  - intros a cb Hin. right. by apply K1.
  - intros u cb Hin. right. by apply K2.
  - intros c Hc. specialize (K3 c Hc). destruct c; by right.
  - intros cb a Hin. by apply answers_mono, K4.
  - intros cb b Hin. destruct (K5 cb b Hin) as [a Ha]. exists a. by right.
Qed.

(** A step that adds at most the elements given. *)
Lemma messages_grow tr s s' (q : list (request CB)) (c : list (call CB)) (l : list (action CB)) : messages_ok tr s ->
  (forall r, r ∈ _workQueue s' -> r ∈ _workQueue s \/ r ∈ q) -> (forall x, x ∈ calls s' -> x ∈ calls s \/ x ∈ c) ->
  (forall x, x ∈ posted s' ++ delivered s' -> x ∈ posted s ++ delivered s \/ x ∈ l) ->
  (forall a cb, AssetPutRequest a cb ∈ q -> LStore a cb ∈ tr) -> (forall u cb, AssetGetRequest u cb ∈ q -> LGet u cb ∈ tr) ->
  (forall x, x ∈ c -> match x with GetChecked u cb => LGet u cb ∈ tr | StoreChecked a cb | StoreIndexed a cb => LStore a cb ∈ tr end) ->
  (forall cb a, CallGet cb (Some a) ∈ l -> answers tr cb a) -> (forall cb b, CallStore cb b ∈ l -> exists a, LStore a cb ∈ tr) -> messages_ok tr s'.
Proof using Type.
  intros [K1 K2 K3 K4 K5] Hq Hc Hl Hq1 Hq2 Hc1 Hl1 Hl2. split.
  - intros a cb [?|?]%Hq; eauto.
  - intros u cb [?|?]%Hq; eauto.
  - intros x [?|?]%Hc; [by apply K3|by apply Hc1].
  - intros cb a [?|?]%Hl; eauto.
  - intros cb b [?|?]%Hl; eauto.
Qed.

(** *** The invariant of the back end *)

Definition provenance (tr : list label) : path -> list Z -> list Z -> Prop := fun _ u a => Asset.getUUID a = Some u /\ given tr a.

Record inv (tr : list label) s : Prop := {
  inv_coherent : coherent (files s []);
  inv_ids : ids_ok (dsk_ s);
  inv_data : data_ok (provenance tr) (dsk_ s);
  inv_messages : messages_ok tr s;
}.

Lemma data_ok_mono (R R' : path -> list Z -> list Z -> Prop) d : (forall p u a, R p u a -> R' p u a) -> data_ok R d -> data_ok R' d.
Proof using Type. intros HR Hok p u Hpos. destruct (Hok p u Hpos) as (a & Ha & Hra). exists a. auto. Qed.

Lemma provenance_mono tr l p u a : provenance tr p u a -> provenance (l :: tr) p u a.
Proof using Type. intros [Hu [cb Hin]]. split; [done|]. exists cb. by right. Qed.

(** A step that leaves the files alone. *)
Lemma inv_step_messages tr l s s' : inv tr s -> dsk_ s' = dsk_ s -> files_ s' = files_ s -> messages_ok (l :: tr) s' -> inv (l :: tr) s'.
Proof using Type.
  intros [K1 K2 K3 K4] Hd Hf Hm. split; [|by rewrite Hd|rewrite Hd|done].
  - unfold files. by rewrite Hd, Hf.
  - eapply data_ok_mono; [|done]. intros p u a. apply provenance_mono.
Qed.

(** The ids that the labels of a run bring in are those of valid assets. *)
Definition valid_stores (tr : list label) : Prop := forall a cb, LStore a cb ∈ tr -> valid_asset a.

Lemma valid_stores_tail l tr : valid_stores (l :: tr) -> valid_stores tr.
Proof using Type. intros Hv a cb Hin. apply (Hv a cb). by right. Qed.

Ltac in_lists := repeat match goal with H : _ ∈ _ ++ _ |- _ => apply elem_of_app in H as [H|H] | H : _ ∈ _ :: _ |- _ => apply elem_of_cons in H as [H|H] | H : _ ∈ [] |- _ => by apply not_elem_of_nil in H end.

(** Steps that post nothing but failures, queue one request or move one call. *)
Lemma inv_quiet tr l s s' (q : list (request CB)) (c : list (call CB)) (x : list (action CB)) : inv tr s -> dsk_ s' = dsk_ s -> files_ s' = files_ s ->
  (forall r, r ∈ _workQueue s' -> r ∈ _workQueue s \/ r ∈ q) -> (forall y, y ∈ calls s' -> y ∈ calls s \/ y ∈ c) ->
  (forall y, y ∈ posted s' ++ delivered s' -> y ∈ posted s ++ delivered s \/ y ∈ x) ->
  (forall a cb, AssetPutRequest a cb ∈ q -> LStore a cb ∈ l :: tr) -> (forall u cb, AssetGetRequest u cb ∈ q -> LGet u cb ∈ l :: tr) ->
  (forall y, y ∈ c -> match y with GetChecked u cb => LGet u cb ∈ l :: tr | StoreChecked a cb | StoreIndexed a cb => LStore a cb ∈ l :: tr end) ->
  (forall cb a, CallGet cb (Some a) ∈ x -> answers (l :: tr) cb a) -> (forall cb b, CallStore cb b ∈ x -> exists a, LStore a cb ∈ l :: tr) -> inv (l :: tr) s'.
Proof using Type.
  intros Hinv Hd Hf Hq Hc Hx Hq1 Hq2 Hc1 Hx1 Hx2. apply (inv_step_messages _ _ s); [done|done|done|].
  eapply messages_grow; [apply messages_mono; apply Hinv|exact Hq|exact Hc|exact Hx|done|done|done|done|done].
Qed.

Lemma reply_store (r : request CB) l cb b : reply_to r l -> CallStore cb b ∈ l -> exists a, r = AssetPutRequest a cb.
Proof using Type.
  intros Hr Hin. destruct r as [u cb'|a cb'|u cb'|head|head|cb'|prefix cb']; cbn in Hr.
  - destruct Hr as [x ->]. in_lists. done.
  - destruct Hr as [->|[->|(u & _ & ->)]]; in_lists; simplify_eq; eauto.
  - subst l. in_lists.
  - destruct Hr as [[x ->]| ->]; in_lists; done.
  - destruct Hr as [->| ->]; in_lists; done.
  - destruct Hr as [x ->]; in_lists; done.
  - destruct Hr as [[x ->]| ->]; in_lists; done.
Qed.

Lemma inv_work tr s faults s' : valid_stores tr -> inv tr s -> workLoop s faults = Some s' -> inv (LWork faults :: tr) s'.
Proof using H0.
  intros Hv [K1 K2 K3 K4]. unfold workLoop. destruct (_stop s); [done|]. destruct (_workQueue s) as [|r q] eqn:Eq; [done|]. intros Hp.
  assert (Hr : r ∈ _workQueue s) by (rewrite Eq; left).
  assert (Hput : forall a, put_of r = Some a -> given tr a).
  { intros a. destruct r; cbn; try done. intros [= ->]. eexists. by apply (ok_put _ _ K4). }
  destruct (processRequest_files (set_queue s q) faults r s' (provenance tr) K1 K2 K3) as [Hc Hev]; [|done|].
  { intros a [cb Ha]%Hput. by apply (Hv a cb). }
  assert (Hd : data_ok (provenance tr) (dsk_ s')).
  { eapply evolves_data_ok; [done| |done]. intros u l a Ha Hu _. split; [done|by apply Hput]. }
  split; [done| | |].
  - eapply evolves_ids_ok; [done| |done]. intros a [cb Ha]%Hput. by apply (Hv a cb).
  - eapply data_ok_mono; [|done]. intros p u a. apply provenance_mono.
  - pose proof (processRequest_messages _ _ _ _ Hp) as (Hq & Hca & Hde & _ & l & Hl & Hrep). cbn in Hq, Hca, Hde, Hl.
    eapply (messages_grow _ s _ [] [] l); [by apply messages_mono|rewrite Hq, Eq; intros y Hy; left; by right|rewrite Hca; auto|rewrite Hl, Hde; set_solver
      |set_solver|set_solver|set_solver| |].
    2: { intros cb b Hin. destruct (reply_store _ _ _ _ Hrep Hin) as [a ->]. exists a. right. by apply (ok_put _ _ K4). }
    intros cb a Hin. apply answers_mono. destruct r as [u cb'|a' cb'|u cb'|head|head|cb'|prefix cb']; cbn in Hrep.
    + destruct Hrep as [x ->]. in_lists. injection Hin as <- <-. exists u. split; [by apply (ok_get _ _ K4)|]. cbn [processRequest] in Hp. unfold performDiskRead in Hp.
      destruct (on_disk (set_queue s q) faults (disk_getAsset u)) as [r s1] eqn:E. pose proof (on_disk_rest _ _ _ _ _ E) as Es.
      apply (getAsset_fault_free _ _ _ _ (provenance tr)) in E as (_ & _ & _ & Hx); [|done..].
      assert (r = Ret (Some a)) as ->.
      { rewrite Es in Hp. destruct r as [[b|]| |]; try discriminate Hp; injection Hp as <-; cbn in Hl; apply app_inv_head in Hl; try discriminate Hl; by injection Hl as ->. }
      destruct Hx as [_ [b [Hu Hg]]]. done.
    + destruct Hrep as [->|[->|(u & _ & ->)]]; in_lists; done.
    + subst l. in_lists.
    + destruct Hrep as [[x ->]| ->]; in_lists; done.
    + destruct Hrep as [->| ->]; in_lists; done.
    + destruct Hrep as [x ->]; in_lists; done.
    + destruct Hrep as [[x ->]| ->]; in_lists; done.
Qed.

(** Membership in the lists of a state that a step rearranges. *)
Ltac rearranged := intros; cbn in *;
  first [done
        |match goal with Hy : ?y ∈ _ |- context [match ?y with _ => _ end] => in_lists; subst y; set_solver end
        |in_lists; simplify_eq; eexists; left
        |rewrite ?elem_of_app, ?elem_of_cons in *; set_solver].

Lemma inv_run_posted tr s s' : inv tr s -> run_posted s = Some s' -> inv (LPosted :: tr) s'.
Proof using H0.
  intros Hinv. unfold run_posted. destruct (posted s) as [|x l] eqn:E; [done|]. intros Hs.
  destruct x as [cb y|cb y|cb y|cb y|id| |ids head].
  5: { unfold assetWriteFailed in Hs. destruct (uuid_t id); [|done..]. injection Hs as <-.
       apply (inv_quiet _ _ s _ [] [] []); [done|done|done|..]; cbn; rewrite ?E; rearranged. }
  6: { unfold unindexLocals in Hs. assert (Hs' : s' = enqueue (set_existing (set_posted s l (delivered s)) (_existingAssets s')) (DeleteLocalStorageRequest head))
         by (destruct ids; injection Hs as <-; done).
       rewrite Hs'. apply (inv_quiet _ _ s _ [DeleteLocalStorageRequest head] [] []); [done|done|done|..]; cbn; rewrite ?E; rearranged. }
  all: injection Hs as <-; apply (inv_quiet _ _ s _ [] [] []); [done|done|done|..]; cbn; rewrite ?E; rearranged.
Qed.

Lemma elem_of_delete {A} (l : list A) n x : x ∈ delete n l -> x ∈ l.
Proof using Type. rewrite !list_elem_of_lookup. intros [i Hi]. destruct (decide (i < n)%nat); [rewrite list_lookup_delete_lt in Hi by done|rewrite list_lookup_delete_ge in Hi by lia]; eauto. Qed.

Lemma inv_resume tr s n s' : inv tr s -> resume s n = Some s' -> inv (LResume n :: tr) s'.
Proof using H0.
  intros Hinv. unfold resume. destruct (calls s !! n) as [c|] eqn:E; [|done]. cbn [mbind option_bind]. intros Hs.
  pose proof (ok_calls _ _ (inv_messages _ _ Hinv) c (list_elem_of_lookup_2 _ _ _ E)) as Hc. destruct c as [u cb|a cb|a cb].
  - injection Hs as <-. apply (inv_quiet _ _ s _ [AssetGetRequest u cb] [] []); [done|done|done|..]; cbn; try rearranged.
    intros y Hy%elem_of_delete. by left.
  - unfold storeAsset_index in Hs. destruct (Asset.getUUID a) as [u|]; [|done].
    destruct (addNewId _ u); [| |done]; injection Hs as <-; apply (inv_quiet _ _ s _ [] [StoreIndexed a cb] []); try done; cbn; try rearranged.
    + intros y [Hy%elem_of_delete|Hy]%elem_of_app; [by left|by right].
    + intros y Hy%elem_of_delete. by left.
  - injection Hs as <-. apply (inv_quiet _ _ s _ [AssetPutRequest a cb] [] []); [done|done|done|..]; cbn; try rearranged.
    intros y Hy%elem_of_delete. by left.
Qed.

Lemma inv_shutdown tr s : inv tr s -> inv (LShutdown :: tr) (shutdown s).
Proof using H0.
  intros [[Hd (es & Hr & Hm & Ht & Ho)] K2 K3 K4]. split; [|done|eapply data_ok_mono; [|done]; intros p u a; apply provenance_mono|].
  - split; [done|]. exists []. pose proof (exec_rep (files_ s) es OpClear Hr) as He. cbn [spec_exec cache_exec files _openFiles] in *. rewrite Hm in He.
    destruct He as (c & [= <-] & Hr' & Hm' & Ht'); [done|done|done|]. split_and!; try done. intros p i Hin. by apply not_elem_of_nil in Hin.
  - apply messages_mono. by destruct K4; split.
Qed.

Lemma inv_restart tr s faults s' : inv tr s -> boot (dsk_ s) faults = Some s' -> inv (LRestart faults :: tr) s'.
Proof using H0.
  intros [[Hd _] K2 K3 K4] Hb. apply boot_ret in Hb as (Hdsk & Hf & Hq & Hp & Hde & Hca & _); [|done]. split.
  - unfold files. rewrite Hdsk, Hf. split; [done|]. apply new_pool_ok.
  - by rewrite Hdsk.
  - rewrite Hdsk. eapply data_ok_mono; [|done]. intros p u a. apply provenance_mono.
  - split; rewrite ?Hq, ?Hp, ?Hde, ?Hca; [set_solver..| |]; cbn; intros cb a Hin; by apply not_elem_of_nil in Hin.
Qed.

Lemma step_inv tr s l s' : valid_stores tr -> inv tr s -> step s l = Some s' -> inv (l :: tr) s'.
Proof using H0.
  intros Hv Hinv. destruct l as [u cb|a cb|u cb|cb|prefix cb| |n|faults| |err| |faults]; cbn [step].
  - unfold getAsset. destruct (assetExists _ u) as [[]| |]; intros [= <-]; apply (inv_quiet _ _ s _ [] [GetChecked u cb] [CallGet cb None]); try done; rearranged.
  - unfold storeAsset. destruct (Asset.getUUID a) as [u|]; [|done].
    destruct (assetExists _ u) as [[]| |]; intros [= <-]; apply (inv_quiet _ _ s _ [] [StoreChecked a cb] [CallStore cb false]); try done; rearranged.
  - intros [= <-]. apply (inv_quiet _ _ s _ [AssetPurgeRequest u cb] [] []); try done; rearranged.
  - intros [= <-]. apply (inv_quiet _ _ s _ [CollectStatusRequest cb] [] []); try done; rearranged.
  - intros [= <-]. apply (inv_quiet _ _ s _ [GetStoredAssetIdsRequest prefix cb] [] []); try done; rearranged.
  - unfold beginPurgeLocals. destruct (negb _); intros [= <-]; apply (inv_quiet _ _ s _ [] [] []); try done; rearranged.
  - by apply inv_resume.
  - by apply inv_work.
  - by apply inv_run_posted.
  - unfold onPurgeTimer. destruct (timer_armed s); [|done]. destruct (negb err); [cbn; destruct (_ <=? _)|];
    intros [= <-]; apply (inv_quiet _ _ s _ [PurgeLocalsRequest (hex_head (_currentLocalsPurgeIndex s))] [] []); try done; rearranged.
  - intros [= <-]. by apply inv_shutdown.
  - by apply inv_restart.
Qed.

Lemma empty_disk_inv (s0 : backend) faults : boot empty_disk faults = Some s0 -> inv [] s0.
Proof using H0.
  assert (Hok : disk_ok (empty_disk (T := T))) by (split; cbn; intros; rewrite lookup_empty in *; by try destruct (H1 : is_Some None)).
  intros Hb. apply boot_ret in Hb as (Hd & Hf & Hq & Hp & Hde & Hca & _); [|done]. split.
  - unfold files. rewrite Hd, Hf. split; [done|apply new_pool_ok].
  - rewrite Hd. intros p u. unfold rows. cbn. by rewrite lookup_empty.
  - rewrite Hd. intros p u. unfold position_of, rows. cbn. by rewrite lookup_empty.
  - split; rewrite ?Hq, ?Hp, ?Hde, ?Hca; [set_solver..| |]; cbn; intros cb a Hin; by apply not_elem_of_nil in Hin.
Qed.

(** The runs of a server that began with an empty storage root. *)
Definition history (tr : list label) s : Prop := exists s0 faults, boot empty_disk faults = Some s0 /\ run s0 tr s.

Lemma history_inv tr s : history tr s -> valid_stores tr -> inv tr s.
Proof using H0.
  intros (s0 & faults & Hb & Hr). induction Hr as [|tr s l s' Hr IH Hs]; intros Hv; [by eapply empty_disk_inv|].
  apply valid_stores_tail in Hv as Hv'. eapply step_inv; [done|by apply IH|done].
Qed.

(** *** Every request is answered once *)

Definition call_cb (c : call CB) : list CB := match c with GetChecked _ cb | StoreChecked _ cb | StoreIndexed _ cb => [cb] end.
Definition request_cb (r : request CB) : list CB := match r with AssetGetRequest _ cb | AssetPutRequest _ cb => [cb] | _ => [] end.
Definition action_cb (x : action CB) : list CB := match x with CallGet cb _ | CallStore cb _ => [cb] | _ => [] end.
Definition label_cb (l : label) : list CB := match l with LGet _ cb | LStore _ cb => [cb] | _ => [] end.

(** The callbacks of the gets and stores that are under way or answered. *)
Definition owed s : list CB :=
  (calls s ≫= call_cb) ++ (_workQueue s ≫= request_cb) ++ (posted s ≫= action_cb) ++ (delivered s ≫= action_cb).

Definition issued (tr : list label) : list CB := tr ≫= label_cb.

(** Gets and stores of valid ids, without a restart. *)
Definition plain_label (l : label) : Prop :=
  match l with LGet u _ => IsValidUUID u = true | LStore a _ => valid_asset a | LRestart _ => False | _ => True end.

Lemma assetExists_valid e u : IsValidUUID u = true -> assetExists e u = Ret (bool_decide (octets u ∈ e)).
Proof using Type. intros Hu. unfold assetExists. by rewrite (uuid_t_valid _ Hu). Qed.

Lemma reply_cb (r : request CB) l : reply_to r l -> l ≫= action_cb = request_cb r.
Proof using Type. destruct r; cbn; intros Hr; destruct_or?; naive_solver. Qed.

Lemma step_owed tr s l s' : inv tr s -> valid_stores tr -> plain_label l -> step s l = Some s' -> owed s' ≡ₚ label_cb l ++ owed s.
Proof using H0.
  intros Hinv Hv Hl. destruct l as [u cb|a cb|u cb|cb|prefix cb| |n|faults| |err| |faults]; cbn [step label_cb app]; unfold owed.
  - unfold getAsset. rewrite assetExists_valid by done. case_bool_decide; intros [= <-]; cbn; rewrite ?bind_app; cbn; solve_Permutation.
  - destruct Hl as (u & lc & Hu & Hval & _). unfold storeAsset. rewrite Hu, assetExists_valid by done. case_bool_decide; intros [= <-]; cbn; rewrite ?bind_app; cbn; solve_Permutation.
  - intros [= <-]. cbn. rewrite bind_app. cbn. by rewrite app_nil_r.
  - intros [= <-]. cbn. rewrite bind_app. cbn. by rewrite app_nil_r.
  - intros [= <-]. cbn. rewrite bind_app. cbn. by rewrite app_nil_r.
  - unfold beginPurgeLocals. destruct (negb _); by intros [= <-].
  - unfold resume. destruct (calls s !! n) as [c|] eqn:E; [|done]. cbn [mbind option_bind]. intros Hs.
    pose proof (ok_calls _ _ (inv_messages _ _ Hinv) c (list_elem_of_lookup_2 _ _ _ E)) as Hc. assert (Hp : calls s ≫= call_cb ≡ₚ (c :: delete n (calls s)) ≫= call_cb) by (by rewrite <- (delete_Permutation _ _ _ E)).
    destruct c as [u cb|a cb|a cb].
    + injection Hs as <-. cbn in *. rewrite Hp, bind_app. cbn. solve_Permutation.
    + destruct (Hv _ _ Hc) as (u & lc & Hu & Hval & _). unfold storeAsset_index, addNewId in Hs. rewrite Hu, (uuid_t_valid _ Hval) in Hs. injection Hs as <-.
      cbn in *. rewrite Hp, bind_app. cbn. solve_Permutation.
    + injection Hs as <-. cbn in *. rewrite Hp, bind_app. cbn. solve_Permutation.
  - unfold workLoop. destruct (_stop s); [done|]. destruct (_workQueue s) as [|r q] eqn:Eq; [done|]. intros Hp.
    pose proof (processRequest_messages _ _ _ _ Hp) as (Hq & Hca & Hde & _ & l & Hl' & Hrep). cbn in Hq, Hca, Hde, Hl'.
    rewrite Hq, Hca, Hde, Hl', bind_app, (reply_cb _ _ Hrep). cbn. solve_Permutation.
  - unfold run_posted. destruct (posted s) as [|x l] eqn:E; [done|]. destruct x as [cb y|cb y|cb y|cb y|id| |ids head]; intros Hs.
    5: { unfold assetWriteFailed in Hs. destruct (uuid_t id); [|done..]. by injection Hs as <-. }
    6: { unfold unindexLocals in Hs. destruct ids; injection Hs as <-; cbn; rewrite bind_app; cbn; by rewrite app_nil_r. }
    all: injection Hs as <-; cbn; rewrite ?bind_app; cbn; solve_Permutation.
  - unfold onPurgeTimer. destruct (timer_armed s); [|done]. destruct (negb err); [cbn; destruct (_ <=? _)|]; intros [= <-]; cbn; rewrite ?bind_app; cbn; by rewrite ?app_nil_r.
  - by intros [= <-].
  - done.
Qed.

(** *** Assets on the disk stay *)

Lemma asset_at_inj c pos a b : asset_at c pos a -> asset_at c pos b -> a = b.
Proof using Type.
  intros (pre & post & -> & Hpos & Ha & _) (pre' & post' & E & Hpos' & Hb & _). apply app_inj_1 in E as [_ E]; [|lia].
  assert (Hl : Z.of_nat (length a) = Z.of_nat (length b)).
  { apply (f_equal (fun l => ntohl_at l 0)) in E. pose proof (ntohl_htonl [] (Z.of_nat (length a)) (a ++ post)) as Ea.
    pose proof (ntohl_htonl [] (Z.of_nat (length b)) (b ++ post')) as Eb. cbn [app length] in Ea, Eb. rewrite Ea, Eb in E by (unfold is_u32; lia). by injection E. }
  rewrite Hl in E. apply app_inv_head in E. apply app_inj_1 in E as [-> _]; [done|lia].
Qed.

Lemma holds_inj d p u a b : holds d p u a -> holds d p u b -> a = b.
Proof using Type. intros (_ & _ & Ha) (_ & _ & Hb). by eapply asset_at_inj. Qed.

Lemma step_holds tr s l s' p u a : valid_stores tr -> inv tr s -> step s l = Some s' -> p.2 = globals -> holds (dsk_ s) p u a -> holds (dsk_ s') p u a.
Proof using H0.
  intros Hv Hinv Hs Hg Hh. destruct l as [v cb|b cb|v cb|cb|prefix cb| |n|faults| |err| |faults]; cbn [step] in Hs.
  - unfold getAsset in Hs. destruct (assetExists _ v) as [[]| |]; by simplify_eq/=.
  - unfold storeAsset in Hs. destruct (Asset.getUUID b) as [v|]; [|done]. destruct (assetExists _ v) as [[]| |]; by simplify_eq/=.
  - by injection Hs as <-.
  - by injection Hs as <-.
  - by injection Hs as <-.
  - unfold beginPurgeLocals in Hs. destruct (negb _); by simplify_eq/=.
  - unfold resume, storeAsset_index, getAsset_enqueue, storeAsset_enqueue in Hs. destruct (calls s !! n) as [[v cb|b cb|b cb]|]; [| | |done]; cbn [mbind option_bind] in Hs; [by simplify_eq/=| |by simplify_eq/=].
    destruct (Asset.getUUID b) as [v|]; [|done]. destruct (addNewId _ v); by simplify_eq/=.
  - unfold workLoop in Hs. destruct (_stop s); [done|]. destruct (_workQueue s) as [|r q] eqn:Eq; [done|].
    destruct (processRequest_files (set_queue s q) faults r s' (provenance tr)) as [_ Hev]; [apply Hinv..| |done|by eapply evolves_holds].
    intros b Hb. destruct r; cbn in Hb; try done. injection Hb as ->. eapply Hv, (ok_put _ _ (inv_messages _ _ Hinv)). rewrite Eq. left.
  - unfold run_posted, assetWriteFailed, unindexLocals in Hs. destruct (posted s) as [|[| | | |id| |[ids|] head] l]; try by simplify_eq/=.
    destruct (uuid_t id); by simplify_eq/=.
  - unfold onPurgeTimer in Hs. destruct (timer_armed s); [|done]. destruct (negb err); [cbn in Hs; destruct (_ <=? _)|]; by simplify_eq/=.
  - by simplify_eq/=.
  - apply boot_ret in Hs as (-> & _); [done|]. by apply (inv_coherent _ _ Hinv).
Qed.

Lemma run_inv tr0 s0 tr s : inv tr0 s0 -> run s0 tr s -> valid_stores (tr ++ tr0) -> inv (tr ++ tr0) s.
Proof using H0.
  intros Hinv Hr. induction Hr as [|tr s l s' Hr IH Hs]; intros Hv; [done|]. cbn in *. eapply step_inv; [by eapply valid_stores_tail|apply IH; by eapply valid_stores_tail|done].
Qed.

Lemma run_holds tr0 s0 tr s p u a : inv tr0 s0 -> run s0 tr s -> valid_stores (tr ++ tr0) -> p.2 = globals -> holds (dsk_ s0) p u a -> holds (dsk_ s) p u a.
Proof using H0.
  intros Hinv Hr. induction Hr as [|tr s l s' Hr IH Hs]; intros Hv Hg Hh; [done|]. cbn in Hv. apply valid_stores_tail in Hv as Hv'.
  eapply (step_holds (tr ++ tr0)); [done|by eapply run_inv|done|done|]. by apply IH.
Qed.

(** A read without faults. *)
Lemma performDiskRead_ok R s u cb : coherent (files s []) -> data_ok R (dsk_ s) -> exists s' x, performDiskRead s [] u cb = Some s' /\ posted s' = posted s ++ [CallGet cb x] /\
  match x with Some a => finds (dsk_ s) u a | None => forall b, position_of (dsk_ s) (getFullPathForUUID u, b) u = INVALID_POSITION end.
Proof using H0.
  intros Hc Hok. unfold performDiskRead. destruct (on_disk s [] (disk_getAsset u)) as [r s1] eqn:E.
  apply (getAsset_fault_free _ _ _ _ R) in E as (_ & _ & Hs & Hr); [|done..]. rewrite Hs. destruct r as [[a|]| |]; [| |done..].
  - eexists _, (Some a). split; [done|]. split; [done|apply Hr].
  - eexists _, None. split; [done|]. split; [done|exact Hr].
Qed.

Lemma performDiskRead_good tr s u cb : inv tr s -> exists s' x, performDiskRead s [] u cb = Some s' /\ posted s' = posted s ++ [CallGet cb x] /\
  match x with Some a => finds (dsk_ s) u a | None => forall b, position_of (dsk_ s) (getFullPathForUUID u, b) u = INVALID_POSITION end.
Proof using H0. intros Hinv. apply (performDiskRead_ok (provenance tr)); apply Hinv. Qed.

(** A read of a global asset on the disk. *)
Lemma performDiskRead_holds R s u a cb : coherent (files s []) -> data_ok R (dsk_ s) -> holds (dsk_ s) (file_of u false) u a ->
  exists s', performDiskRead s [] u cb = Some s' /\ posted s' = posted s ++ [CallGet cb (Some a)].
Proof using H0.
  intros Hc Hok Hh. destruct (performDiskRead_ok R s u cb Hc Hok) as (s3 & x & Hp & Hl3 & Hx). exists s3. split; [done|]. rewrite Hl3. destruct x as [b|].
  - destruct Hx as [Hx|[Hx _]]; [by rewrite (holds_inj _ _ _ _ _ Hx Hh)|]. by destruct Hh as [Hp2 _].
  - destruct Hh as [Hp2 _]. by destruct (Hp2 (Hx globals)).
Qed.

(** The worker on a store at the head of the queue. *)
Lemma work_put s faults a cb q : _stop s = false -> _workQueue s = AssetPutRequest a cb :: q -> workLoop s faults = performDiskWrite (set_queue s q) faults a cb.
Proof using Type. intros Hs Hq. unfold workLoop. by rewrite Hs, Hq. Qed.

(** *** Ids stay in the existence index *)

(** The asset does not have the id. *)
Definition another u a : Prop := Asset.getUUID a <> Some u.

Definition call_spares u (c : call CB) : Prop := match c with GetChecked _ _ => True | StoreChecked a _ | StoreIndexed a _ => another u a end.
Definition request_spares u (r : request CB) : Prop := match r with AssetPutRequest a _ => another u a | _ => True end.
Definition action_spares u (x : action CB) : Prop :=
  match x with AssetWriteFailed v => uuid_t v <> UuidValue (octets u) | UnindexLocals (Some l) _ => octets u ∉ l | _ => True end.

(** The id [u] is in the existence index, and nothing that is under way can take it out again: no other store of it has
    passed the test for duplicates, no failed store of it and no purged local asset with it waits for its handler, and no local asset
    has it. *)
Record undisturbed u s : Prop := {
  un_indexed : octets u ∈ _existingAssets s;
  un_calls : Forall (call_spares u) (calls s);
  un_queue : Forall (request_spares u) (_workQueue s);
  un_posted : Forall (action_spares u) (posted s);
  un_locals : rows (dsk_ s) (file_of u true) u = [];
}.

Lemma foldl_removeId l : forall e x, x ∈ e -> x ∉ l -> x ∈ foldl removeId e l.
Proof using Type.
  induction l as [|y l IH]; intros e x He Hl; cbn; [done|]. apply not_elem_of_cons in Hl as [Hne Hl]. apply IH; [|done]. unfold removeId. rewrite elem_of_difference, elem_of_singleton. done.
Qed.

(** A purge lists no id that no local asset has. *)
Lemma no_local_rows s u head : ids_ok (dsk_ s) -> rows (dsk_ s) (file_of u true) u = [] -> rows (dsk_ s) (head, locals) u = [].
Proof using Type.
  intros Hids Hr. destruct (rows (dsk_ s) (head, locals) u) as [|r l] eqn:E; [done|]. destruct (Hids (head, locals) u) as (_ & Hp & _); [by rewrite E|].
  cbn in Hp. unfold file_of in Hr. cbn in Hr. rewrite <- Hp in Hr. congruence.
Qed.

Lemma evolves_rows Q d d' u : evolves Q d d' -> (forall a, Q a -> Asset.getUUID a <> Some u) -> rows d (file_of u true) u = [] -> rows d' (file_of u true) u = [].
Proof using Type.
  intros [P HK|v l b Hb Hu Hl Hs|head Hother Hgone] HQ Hr.
  - by rewrite (keeps_rows _ _ _ HK).
  - rewrite (stored_rows _ _ _ _ _ Hs); [done|]. intros [= _ _ ->]. by destruct (HQ b Hb).
  - destruct (decide (file_of u true = (head, locals))) as [->|Hne]; [done|]. by rewrite (proj1 (Hother _ u Hne)).
Qed.

Lemma purge_lists s faults head s' u : coherent (files s []) -> ids_ok (dsk_ s) -> IsValidUUID u = true -> rows (dsk_ s) (file_of u true) u = [] ->
  performDiskPurgeLocals s faults head = Some s' -> exists x, posted s' = posted s ++ [x] /\ action_spares u x.
Proof using H0.
  intros Hc Hids Hval Hr Hp. unfold performDiskPurgeLocals in Hp. destruct (on_disk s faults (list_locals head)) as [r s1] eqn:E.
  destruct (on_disk_runs s faults _ _ _ _ r s1 Hc (runs_list_locals head (files s faults) Hc Hids) E) as (_ & _ & Hs1 & Hres). rewrite Hs1 in Hp.
  destruct r as [y| |]; [| |done]; injection Hp as <-; eexists; (split; [done|]); [|done]. destruct y as [y|]; [|done]. cbn. intros Hx.
  destruct Hres as (w & _ & Hw). by apply (Hw u Hval), (no_local_rows s u head Hids Hr).
Qed.

(** What the worker posts. *)
Lemma reply_spares (r : request CB) l u : reply_to r l -> IsValidUUID u = true -> request_spares u r -> (forall a, put_of r = Some a -> valid_asset a) ->
  (forall head, r <> PurgeLocalsRequest head) -> Forall (action_spares u) l.
Proof using Type.
  intros Hrep Hval Hr Hput Hpurge. destruct r as [v cb|a cb|v cb|head|head|cb|p cb]; cbn in Hrep, Hr; [..|].
  all: destruct_or?; repeat match goal with K : exists _, _ |- _ => destruct K as [? K] end; destruct_and?; subst; repeat constructor; try done.
  - intros E. match goal with K : Asset.getUUID a = Some ?v |- _ => rename K into Hb end. destruct (Hput a eq_refl) as (v' & lc & Hv' & Hvv & _). rewrite Hb in Hv'. injection Hv' as <-.
    rewrite (uuid_t_valid _ Hvv) in E. injection E as E. apply octets_inj in E; [|done..]. apply Hr. congruence.
  - by destruct (Hpurge head).
Qed.

Lemma work_undisturbed tr s faults s' u : valid_stores tr -> inv tr s -> IsValidUUID u = true -> undisturbed u s -> workLoop s faults = Some s' -> undisturbed u s'.
Proof using H0.
  intros Hv Hinv Hval [K1 K2 K3 K4 K5] Hs. unfold workLoop in Hs. destruct (_stop s); [done|]. destruct (_workQueue s) as [|r q] eqn:Eq; [done|].
  inversion K3 as [|? ? Hr Hq']; subst.
  assert (Hput : forall b, put_of r = Some b -> valid_asset b).
  { intros b Hb. destruct r; cbn in Hb; try done. injection Hb as ->. eapply Hv, (ok_put _ _ (inv_messages _ _ Hinv)). rewrite Eq. left. }
  destruct (processRequest_files (set_queue s q) faults r s' (provenance tr)) as [_ Hev]; [apply Hinv..|done|done|].
  pose proof (processRequest_messages _ _ _ _ Hs) as (Hq & Hca & _ & Hex & l & Hl & Hrep). cbn in Hq, Hca, Hex, Hl.
  split; [by rewrite Hex|by rewrite Hca|by rewrite Hq| |].
  - assert (Hn : (exists head, r = PurgeLocalsRequest head) \/ ~ exists head, r = PurgeLocalsRequest head) by (destruct r; try (right; naive_solver); left; eauto). destruct Hn as [(head & ->)|Hn].
    + destruct (purge_lists (set_queue s q) faults head s' u) as (x & -> & Hx); [apply Hinv|apply Hinv|done|done|done|]. apply Forall_app. by repeat constructor.
    + rewrite Hl. apply Forall_app. split; [done|]. apply (reply_spares r); [done..|]. intros head ->. apply Hn. by exists head.
  - eapply evolves_rows; [exact Hev| |done]. intros b Hb. destruct r; cbn in Hb; try done. injection Hb as <-. done.
Qed.

(** A stored asset is listed in the existence index of every start. *)
Lemma boot_indexed tr s faults (s' : backend) u a : inv tr s -> boot (dsk_ s) faults = Some s' -> holds (dsk_ s) (file_of u false) u a -> octets u ∈ _existingAssets s'.
Proof using H0.
  intros Hinv Hb [Hp _]. apply boot_ret in Hb as (_ & _ & _ & _ & _ & _ & He); [|apply Hinv]. apply He. exists (file_of u false).
  assert (Hrow : exists r, rows (dsk_ s) (file_of u false) u = [r]).
  { unfold position_of in Hp. destruct (rows _ _ u) as [|r []]; try done. by exists r. }
  destruct Hrow as (r & Hr). destruct (inv_ids _ _ Hinv (file_of u false) u) as (Hval & _ & Hdel); [by rewrite Hr|]. rewrite Hr in Hdel.
  exists u, r. rewrite Hr. split; [left|]. split; [by inversion Hdel|by apply uuid_t_valid].
Qed.

Lemma resume_undisturbed tr s n s' u : valid_stores tr -> inv tr s -> undisturbed u s -> resume s n = Some s' -> undisturbed u s'.
Proof using H0.
  intros Hv Hinv [K1 K2 K3 K4 K5] Hs. unfold resume in Hs. destruct (calls s !! n) as [c|] eqn:E; [|done]. cbn [mbind option_bind] in Hs.
  pose proof (ok_calls _ _ (inv_messages _ _ Hinv) c (list_elem_of_lookup_2 _ _ _ E)) as Hc. rewrite (delete_Permutation _ _ _ E) in K2. inversion K2 as [|? ? Hu Hrest]; subst.
  destruct c as [v cb|a cb|a cb]; cbn in Hc, Hu.
  - injection Hs as <-. split; cbn; try done. apply Forall_app. by repeat constructor.
  - destruct (Hv _ _ Hc) as (v & lc & Hv' & Hval & _). unfold storeAsset_index, addNewId in Hs. rewrite Hv', (uuid_t_valid _ Hval) in Hs. injection Hs as <-.
    split; cbn; try done; [set_solver|]. apply Forall_app. by repeat constructor.
  - injection Hs as <-. split; cbn; try done. apply Forall_app. by repeat constructor.
Qed.

Lemma posted_undisturbed s s' u : undisturbed u s -> run_posted s = Some s' -> undisturbed u s'.
Proof using Type.
  intros [K1 K2 K3 K4 K5] Hs. unfold run_posted in Hs. destruct (posted s) as [|x l] eqn:E; [done|]. inversion K4 as [|? ? Hx Hl]; subst.
  destruct x as [cb y|cb y|cb y|cb y|v| |ids head]; try (injection Hs as <-; by split).
  - unfold assetWriteFailed in Hs. cbn in Hx. destruct (uuid_t v) as [d| |]; [|done..]. injection Hs as <-. split; cbn; try done. unfold removeId.
    apply elem_of_difference. split; [done|]. rewrite elem_of_singleton. congruence.
  - unfold unindexLocals in Hs. injection Hs as <-. split; destruct ids as [ids|]; cbn; try done; try (apply Forall_app; by repeat constructor). by apply foldl_removeId.
Qed.

Lemma step_undisturbed tr s l s' u a : valid_stores (l :: tr) -> inv tr s -> step s l = Some s' -> IsValidUUID u = true ->
  holds (dsk_ s) (file_of u false) u a -> undisturbed u s -> undisturbed u s'.
Proof using H0.
  intros Hv Hinv Hs Hval Hh Hun. pose proof (valid_stores_tail _ _ Hv) as Hv'. pose proof Hun as [K1 K2 K3 K4 K5].
  destruct l as [v cb|b cb|v cb|cb|prefix cb| |n|faults| |err| |faults]; cbn [step] in Hs.
  - unfold getAsset in Hs. destruct (assetExists _ v) as [[]| |]; simplify_eq/=; split; cbn; try done; apply Forall_app; by repeat constructor.
  - unfold storeAsset in Hs. destruct (Asset.getUUID b) as [v|] eqn:Eb; [|done]. destruct (Hv b cb) as (v' & lc & Hv1 & Hval' & _); [left|]. rewrite Eb in Hv1. injection Hv1 as <-.
    rewrite assetExists_valid in Hs by done. case_bool_decide as Hin; injection Hs as <-; split; cbn; try done; apply Forall_app; (split; [done|]); repeat constructor. cbn. unfold another. congruence.
  - injection Hs as <-. split; cbn; try done. apply Forall_app. by repeat constructor.
  - injection Hs as <-. split; cbn; try done. apply Forall_app. by repeat constructor.
  - injection Hs as <-. split; cbn; try done. apply Forall_app. by repeat constructor.
  - unfold beginPurgeLocals in Hs. destruct (negb _); simplify_eq/=; by split.
  - by eapply resume_undisturbed.
  - by eapply work_undisturbed.
  - by eapply posted_undisturbed.
  - unfold onPurgeTimer in Hs. destruct (timer_armed s); [|done]. destruct (negb err); [cbn in Hs; destruct (_ <=? _)|]; simplify_eq/=; split; cbn; try done; apply Forall_app; by repeat constructor.
  - injection Hs as <-. by split.
  - pose proof (boot_indexed tr s faults s' u a Hinv Hs Hh) as He. apply boot_ret in Hs as (Hd & _ & Hq & Hp & _ & Hc & _); [|apply Hinv]. split; [done|by rewrite Hc|by rewrite Hq|by rewrite Hp|by rewrite Hd].
Qed.

Lemma run_undisturbed tr0 s0 tr s u a : inv tr0 s0 -> run s0 tr s -> valid_stores (tr ++ tr0) -> IsValidUUID u = true ->
  holds (dsk_ s0) (file_of u false) u a -> undisturbed u s0 -> undisturbed u s.
Proof using H0.
  intros Hinv Hr. induction Hr as [|tr s l s' Hr IH Hs]; intros Hv Hval Hh Hun; [done|]. cbn in Hv. apply valid_stores_tail in Hv as Hv'.
  eapply (step_undisturbed (tr ++ tr0)); [done|by eapply run_inv|done|done|by eapply (run_holds tr0)|by apply IH].
Qed.
End steps.

(** ** Theorems *)

Section theorems.
Context {T CB : Type} `{IndexTableLaws T}.
#[local] Notation backend := (backend T CB).
#[local] Notation label := (label CB).
Implicit Types (s : backend) (u a : list Z) (cb : CB).

(** C1. The store never answers with the wrong asset.  In every history of a server that
    began with an empty storage root (any interleaving of the calls, the worker, the io
    service and the purge timer, any failures of the disk and of SQLite, any restarts) an
    asset passed to the callback of a get was asked for under exactly the id in its first 32
    bytes and was given, byte for byte, to a store call before. *)
Theorem gets_return_stored (tr : list label) s cb a : history tr s -> valid_stores tr -> CallGet cb (Some a) ∈ posted s ++ delivered s ->
  exists u, LGet u cb ∈ tr /\ Asset.getUUID a = Some u /\ exists cb', LStore a cb' ∈ tr.
Proof using H0. intros Hh Hv Hin. by apply (ok_posted _ _ (inv_messages _ _ (history_inv _ _ Hh Hv)) cb a). Qed.

(** A get of an id in the existence index goes to the worker. *)
Lemma getAsset_indexed s u cb : IsValidUUID u = true -> octets u ∈ _existingAssets s ->
  exists s', getAsset s u cb = Some s' /\ resume s' (length (calls s)) = Some (enqueue s (AssetGetRequest u cb)).
Proof using Type.
  intros Hval Hin. unfold getAsset. rewrite assetExists_valid, bool_decide_true by done. eexists. split; [done|].
  unfold resume. cbn. rewrite list_lookup_middle by done. cbn. rewrite delete_middle, app_nil_r. by destruct s.
Qed.

(** C2. A global asset whose store was reported as successful stays on the disk, and a get returns it while its id is in
    the existence index.  Let the worker have answered a store of a global asset with success, its data file not having been an
    empty file, and let any further history follow (other stores, purges of the local assets, failures, restarts).  Then:
    (1) a read of its id by the worker during which the disk works returns that asset, so a get of the id that the worker takes
    from its queue is answered with it;
    (2) every restart has its id in the existence index;
    (3) if, at the time of the answer, the id is in the existence index, no other store of the id has passed the test for
    duplicates, no handler that takes the id out waits, and no local asset has the id ([undisturbed]), then the id is still in the
    existence index, so that a get of it is not refused but queued for the worker.
    Without the condition of (3) the id may leave the index until the next restart ([racing_stores_hide_asset]). *)
Theorem acknowledged_asset_survives (tr tr' : list label) s s1 s2 faults q a u cb cb' :
  history tr s -> valid_stores (tr' ++ LWork faults :: tr) -> _workQueue s = AssetPutRequest a cb :: q ->
  Asset.getUUID a = Some u -> Asset.isLocal a = Some false -> datas (dsk_ s) !! file_of u false <> Some [] ->
  workLoop s faults = Some s1 -> last (posted s1) = Some (CallStore cb true) -> run s1 tr' s2 ->
  (exists s3, performDiskRead s2 [] u cb' = Some s3 /\ posted s3 = posted s2 ++ [CallGet cb' (Some a)]) /\
  (forall q', _stop s2 = false -> _workQueue s2 = AssetGetRequest u cb' :: q' ->
    exists s3, workLoop s2 [] = Some s3 /\ posted s3 = posted s2 ++ [CallGet cb' (Some a)]) /\
  (forall faults' s3, boot (dsk_ s2) faults' = Some (s3 : backend) -> octets u ∈ _existingAssets s3) /\
  (undisturbed u s1 -> octets u ∈ _existingAssets s2 /\
    exists s3, getAsset s2 u cb' = Some s3 /\ resume s3 (length (calls s2)) = Some (enqueue s2 (AssetGetRequest u cb'))).
Proof using H0.
  intros Hh Hv Hq Hu Hl Hne Hw Hack Hr. assert (Hv0 : valid_stores tr) by (intros b c Hin; apply (Hv b c); set_solver).
  pose proof (history_inv _ _ Hh Hv0) as Hinv. assert (Hinv1 : inv (LWork faults :: tr) s1) by (by eapply inv_work).
  assert (Hval : IsValidUUID u = true).
  { destruct (Hv0 a cb) as (v & lc & Hv' & Hval & _); [|congruence]. apply (ok_put _ _ (inv_messages _ _ Hinv)). rewrite Hq. left. }
  assert (Hholds : holds (dsk_ s1) (file_of u false) u a).
  { unfold workLoop in Hw. destruct (_stop s); [done|]. rewrite Hq in Hw. cbn [processRequest] in Hw. unfold performDiskWrite in Hw.
    destruct (on_disk (set_queue s q) faults (disk_storeAsset a)) as [r s'] eqn:E. pose proof (on_disk_rest _ _ _ _ _ E) as Hs'.
    apply (on_disk_store _ _ _ u false) in E as (_ & _ & Hd & _); [|apply Hinv|done|done].
    rewrite Hs', Hu in Hw. destruct r as [x|[]|]; try done; injection Hw as <-; cbn in Hack; try (rewrite last_snoc in Hack; done). by eapply stored_found. }
  pose proof (run_inv _ _ _ _ Hinv1 Hr Hv) as Hinv2. assert (Hholds2 : holds (dsk_ s2) (file_of u false) u a) by (by eapply (run_holds _ _ _ _ _ _ _ Hinv1 Hr Hv)).
  split; [by eapply performDiskRead_holds; [apply Hinv2..|]|]. split; [|split].
  - intros q' Hst Hq'. unfold workLoop. rewrite Hst, Hq'. by eapply (performDiskRead_holds _ (set_queue s2 q')); [apply Hinv2..|].
  - intros faults' s3 Hb. by eapply boot_indexed.
  - intros Hun. assert (Hin : octets u ∈ _existingAssets s2) by (by eapply (run_undisturbed _ _ _ _ _ _ Hinv1 Hr Hv)).
    split; [done|by apply getAsset_indexed].
Qed.

(** C3. A store that fails leaves its id in one of two states.  After an [AssetStorageError]
    (every error of the data file and of opening the index) the caller is told of the failure
    but the id stays in the existence index although no asset is stored under it: a further store of
    the id is refused as a duplicate and a get reads the disk and finds nothing.  After any
    other exception the handler posted before the answer takes the id out of the index. *)
Theorem failed_store_id (tr : list label) s faults q a u l cb e s1 : history tr s -> valid_stores tr -> _stop s = false ->
  _workQueue s = AssetPutRequest a cb :: q -> Asset.getUUID a = Some u -> IsValidUUID u = true -> Asset.isLocal a = Some l ->
  octets u ∈ _existingAssets s -> (forall b, position_of (dsk_ s) (getFullPathForUUID u, b) u = INVALID_POSITION) ->
  on_disk (set_queue s q) faults (disk_storeAsset a) = (Throw e, s1) ->
  exists s', workLoop s faults = Some s' /\ octets u ∈ _existingAssets s' /\
    (forall b, position_of (dsk_ s') (getFullPathForUUID u, b) u = INVALID_POSITION) /\
    match e with
    | AssetStorageError _ =>
        posted s' = posted s ++ [CallStore cb false] /\
        forall cb', storeAsset s' a cb' = Some (post s' (CallStore cb' false)) /\ getAsset s' u cb' = Some (set_calls s' (calls s' ++ [GetChecked u cb'])) /\
          exists s2, performDiskRead s' [] u cb' = Some s2 /\ posted s2 = posted s' ++ [CallGet cb' None]
    | _ => posted s' = posted s ++ [AssetWriteFailed u; CallStore cb false] /\
        exists s2, assetWriteFailed s' u = Some s2 /\ octets u ∉ _existingAssets s2
    end.
Proof using H0.
  intros Hh Hv Hst Hq Hu Hval Hl Hex Hpos E. pose proof (history_inv _ _ Hh Hv) as Hinv. pose proof (on_disk_rest _ _ _ _ _ E) as Hs1.
  pose proof E as Ed. apply (on_disk_store _ _ _ u l) in E as (Hc & _ & HK & _); [|apply Hinv|done|done]. cbn in HK.
  rewrite (work_put s faults a cb q) by done.
  assert (Hw : exists s', performDiskWrite (set_queue s q) faults a cb = Some s' /\ _existingAssets s' = _existingAssets s /\ dsk_ s' = dsk_ s1 /\
    posted s' = posted s ++ match e with AssetStorageError _ => [CallStore cb false] | _ => [AssetWriteFailed u; CallStore cb false] end).
  { unfold performDiskWrite. rewrite Ed, Hu. rewrite Hs1. destruct e; eexists; (split; [done|]; cbn; rewrite <- ?app_assoc; done). }
  destruct Hw as (s' & Hw & He & Hd & Hp). exists s'. split; [done|]. split; [by rewrite He|].
  assert (Hpos' : forall b, position_of (dsk_ s') (getFullPathForUUID u, b) u = INVALID_POSITION).
  { intros b. rewrite Hd, (keeps_position _ _ _ _ _ HK). apply Hpos. }
  split; [done|]. assert (Hinv' : inv (LWork faults :: tr) s') by (eapply inv_work; [done|done|]; by rewrite (work_put s faults a cb q)).
  assert (Hother : match e with AssetStorageError _ => True | _ => exists s2, assetWriteFailed s' u = Some s2 /\ octets u ∉ _existingAssets s2 end).
  { unfold assetWriteFailed. rewrite (uuid_t_valid _ Hval). destruct e; [done|..]; eexists; (split; [done|]; cbn; unfold removeId; set_solver). }
  destruct e; [|by split..]. split; [done|]. intros cb'. unfold storeAsset, getAsset. rewrite Hu, assetExists_valid, bool_decide_true by (done || by rewrite He).
  split; [done|]. split; [done|]. destruct (performDiskRead_good _ s' u cb' Hinv') as (s2 & x & Hr & Hp2 & Hx). exists s2. split; [done|].
  rewrite Hp2. destruct x as [b|]; [|done]. destruct Hx as [[Hx _]|[_ [Hx _]]]; by destruct (Hx (Hpos' _)).
Qed.

(** An asset that is stored first in an empty data file is lost.  The position of
    the asset is then zero, which is also what the index answers for an unknown id: the store is
    reported as successful and the id stays in the existence index, but a read on a working disk
    answers that there is no such asset.  A data file is left empty when the write of its
    header fails. *)
Theorem empty_data_file_loses_asset (tr : list label) s s1 faults q a u l cb cb' : history tr s -> valid_stores tr ->
  _workQueue s = AssetPutRequest a cb :: q -> Asset.getUUID a = Some u -> Asset.isLocal a = Some l ->
  datas (dsk_ s) !! file_of u l = Some [] -> rows (dsk_ s) (file_of u (negb l)) u = [] ->
  workLoop s faults = Some s1 -> last (posted s1) = Some (CallStore cb true) ->
  _existingAssets s1 = _existingAssets s /\ exists s2, performDiskRead s1 [] u cb' = Some s2 /\ posted s2 = posted s1 ++ [CallGet cb' None].
Proof using H0.
  intros Hh Hv Hq Hu Hl Hempty Hother Hw Hack. pose proof (history_inv _ _ Hh Hv) as Hinv.
  assert (Hinv1 : inv (LWork faults :: tr) s1) by (by eapply inv_work).
  unfold workLoop in Hw. destruct (_stop s); [done|]. rewrite Hq in Hw. cbn [processRequest] in Hw. unfold performDiskWrite in Hw.
  destruct (on_disk (set_queue s q) faults (disk_storeAsset a)) as [r s'] eqn:E. pose proof (on_disk_rest _ _ _ _ _ E) as Hs'.
  pose proof E as Ed. apply (on_disk_store _ _ _ u l) in E as (_ & _ & Hd & _); [|apply Hinv|done|done].
  assert (Hr : exists x, r = Ret x).
  { rewrite Hu in Hw. destruct r as [x|[]|]; [by exists x|..|done]; injection Hw as <-; cbn in Hack; rewrite last_snoc in Hack; done. }
  destruct Hr as [x ->]. injection Hw as <-. split; [by rewrite Hs'|].
  assert (Hz : forall b, position_of (dsk_ s') (getFullPathForUUID u, b) u = INVALID_POSITION).
  { intros b. destruct (decide ((getFullPathForUUID u, b) = file_of u l)) as [->|Hne].
    - destruct (stored_row _ _ _ _ _ Hd) as (pos & Hrow & _ & Hz). unfold position_of. rewrite Hrow. cbn. by apply Hz.
    - rewrite (stored_position _ _ _ _ _ _ _ Hd) by congruence. unfold position_of.
      replace (getFullPathForUUID u, b) with (file_of u (negb l)); [cbn; by rewrite Hother|]. unfold file_of in *. destruct l, b; done. }
  destruct (performDiskRead_good _ _ u cb' Hinv1) as (s2 & y & Hp & Hp2 & Hx). exists s2. split; [done|]. rewrite Hp2.
  destruct y as [b|]; [|done]. destruct Hx as [[Hx _]|[_ [Hx _]]]; by destruct (Hx (Hz _)).
Qed.

(** C4. No get or store is lost or answered twice.  In every history without a restart in which
    the ids are valid, the callbacks given with the gets and stores are, up to order, those of
    the calls under way, of the requests in the queue, of the answers posted and of the
    answers delivered: each call moves from one to the next and is answered at most once,
    whatever fails on the disk. *)
Theorem requests_answered_once (tr : list label) s : history tr s -> Forall plain_label tr -> issued tr ≡ₚ owed s.
Proof using H0.
  intros (s0 & faults & Hb & Hr) HF. assert (Hinv0 : inv [] s0) by (by eapply empty_disk_inv).
  assert (Hv : forall tr : list label, Forall plain_label tr -> valid_stores tr).
  { clear. intros tr HF a cb Hin. by apply (proj1 (Forall_forall _ _) HF (LStore a cb)). }
  induction Hr as [|tr s l s' Hr IH Hs].
  - apply boot_ret in Hb as (_ & _ & Hq & Hp & Hd & Hc & _); [unfold owed; by rewrite Hq, Hp, Hd, Hc|].
    split; cbn; intros; rewrite lookup_empty in *; (done || by destruct (H1 : is_Some None)).
  - inversion HF as [|? ? Hl HF']; subst. unfold issued. cbn. fold (issued tr). rewrite (IH HF'). symmetry.
    apply (step_owed tr); [|by apply Hv|done|done]. rewrite <- (app_nil_r tr). apply (run_inv _ s0); [done|done|]. rewrite app_nil_r. by apply Hv.
Qed.

(** C5. The existence index that a start builds is exact.  Started on the files of any history,
    a server has an id in its existence index exactly when one of the index files has a row for it,
    its worker has nothing to do, and the files are as they were. *)
Theorem startup_index_exact (tr : list label) s faults s' u : history tr s -> valid_stores tr -> boot (dsk_ s) faults = Some s' -> IsValidUUID u = true ->
  (octets u ∈ _existingAssets s' <-> exists b, rows (dsk_ s) (getFullPathForUUID u, b) u <> []) /\
  dsk_ s' = dsk_ s /\ _workQueue s' = [] /\ posted s' = [].
Proof using H0.
  intros Hh Hv Hb Hval. pose proof (history_inv _ _ Hh Hv) as Hinv. apply boot_ret in Hb as (Hd & _ & Hq & Hp & _ & _ & He); [|apply Hinv].
  split; [|done]. rewrite He. split.
  - intros (p & v & r & Hr & Hdel & Hx). assert (Hne : rows (dsk_ s) p v <> []) by (intros E; rewrite E in Hr; by apply not_elem_of_nil in Hr).
    destruct (inv_ids _ _ Hinv p v Hne) as (Hval' & Hdir & _). rewrite (uuid_t_valid _ Hval') in Hx. injection Hx as Hx.
    pose proof (octets_inj v u Hval' Hval Hx) as ->. exists p.2. rewrite <- Hdir. destruct p; exact Hne.
  - intros (b & Hne). exists (getFullPathForUUID u, b). destruct (inv_ids _ _ Hinv _ _ Hne) as (_ & _ & HF).
    destruct (rows _ _ u) as [|r rs] eqn:E; [done|]. exists u, r. rewrite E. split; [left|]. split; [by inversion HF|by apply uuid_t_valid].
Qed.

(** C6. Open index files are current.  In every history each handle in the pool of open index
    files is that of the file which has its path now, with its tables created, different paths have different
    files, and at most 512 handles are kept; so no write goes to a file that was removed, although the
    deletion of local assets removes index files that were open. *)
Theorem open_handles_current (tr : list label) s : history tr s -> valid_stores tr ->
  exists es, rep (weight := fun _ => 1) (files_ s) es /\ Z.of_nat (length es) <= MAX_OPEN_FILES /\
    (forall p i, (p, i) ∈ es -> idx (dsk_ s) !! p = Some i /\ exists t, inodes (dsk_ s) !! i = Some (Some t)) /\
    (forall p q i, idx (dsk_ s) !! p = Some i -> idx (dsk_ s) !! q = Some i -> p = q).
Proof using H0.
  intros Hh Hv. destruct (inv_coherent _ _ (history_inv _ _ Hh Hv)) as [Hok (es & Hr & Hm & Ht & Ho)]. exists es. split; [done|]. split; [|split; [done|by apply Hok]].
  replace (Z.of_nat (length es)) with (LruCache.total (fun _ : nat => 1) es); [done|]. clear. induction es as [|e es IH]; [done|]. cbn [LruCache.total length]. lia.
Qed.

(** The timer of the purge goes off [n] times. *)
Definition fire s (n : nat) : option backend := Nat.iter n (fun o => s ← o; onPurgeTimer s false) (Some s).

Lemma hex_head_digits n : 0 <= n < 4096 -> hex_head n = [hex_digit (n / 256); hex_digit (n / 16 mod 16); hex_digit (n mod 16)].
Proof using Type.
  intros Hn. unfold hex_head. cbn [hex_number]. assert (Hd : n / 16 / 16 = n / 256) by (by rewrite Z.div_div). destruct (Z.ltb_spec n 16).
  - rewrite (Z.div_small n 256), (Z.div_small n 16), (Z.mod_small n 16) by lia. done.
  - destruct (Z.ltb_spec (n / 16) 16).
    + rewrite (Z.mod_small (n / 16)) by dlia. rewrite (Z.div_small n 256) by dlia. done.
    + rewrite (proj2 (Z.ltb_lt (n / 16 / 16) 16)) by dlia. by rewrite Hd.
Qed.

Definition purge_heads : list (list Z) := map hex_head (seqZ 0 4096).

Lemma purge_heads_complete u : IsValidUUID u = true -> getFullPathForUUID u ∈ purge_heads.
Proof using Type.
  unfold IsValidUUID, UUID_LEN. intros [Hl%Nat.eqb_eq Hf]%andb_prop. destruct u as [|a [|b [|c u]]]; try done. cbn in Hf. zbool.
  destruct (find_digit_spec a) as (_ & _ & _ & _ & Ra & Da); [done|]. destruct (find_digit_spec b) as (_ & _ & _ & _ & Rb & Db); [done|].
  destruct (find_digit_spec c) as (_ & _ & _ & _ & Rc & Dc); [done|]. set (n := 256 * uuid_value a + 16 * uuid_value b + uuid_value c).
  apply list_elem_of_fmap. exists n. split; [|apply elem_of_seqZ; lia]. rewrite hex_head_digits by lia.
  assert (n / 256 = uuid_value a) as -> by dlia. assert (n / 16 mod 16 = uuid_value b) as -> by dlia. assert (n mod 16 = uuid_value c) as -> by dlia.
  rewrite Da, Db, Dc. done.
Qed.

Lemma purge_heads_NoDup : NoDup purge_heads.
Proof using Type.
  apply NoDup_fmap_2_strong; [|apply NoDup_seqZ]. intros n m Hn%elem_of_seqZ Hm%elem_of_seqZ. rewrite !hex_head_digits by lia. intros [= E1 E2 E3].
  assert (Hd : forall x y, 0 <= x < 16 -> 0 <= y < 16 -> hex_digit x = hex_digit y -> x = y).
  { intros x y Hx Hy E. destruct (uuid_char_hex x Hx) as [_ <-]. destruct (uuid_char_hex y Hy) as [_ <-]. congruence. }
  apply Hd in E1, E2, E3; dlia.
Qed.

Lemma fire_spec s n : (n <= 4096)%nat -> exists s', fire (set_purge s true 0 true) n = Some s' /\
  _workQueue s' = _workQueue s ++ map PurgeLocalsRequest (map hex_head (seqZ 0 (Z.of_nat n))) /\ _currentLocalsPurgeIndex s' = Z.of_nat n /\
  timer_armed s' = (n <? 4096)%nat /\ _isPurgingLocals s' = (n <? 4096)%nat.
Proof using Type.
  induction n as [|n IH]; intros Hn.
  - exists (set_purge s true 0 true). split; [done|]. split; [by rewrite app_nil_r|done].
  - destruct IH as (s' & Hf & Hq & Hi & Ha & Hp); [lia|]. unfold fire in *. cbn [Nat.iter nat_rect]. unfold Nat.iter in Hf. rewrite Hf. cbn [mbind option_bind].
    unfold onPurgeTimer. rewrite Ha, (proj2 (Nat.ltb_lt _ _)) by lia. cbn [negb _currentLocalsPurgeIndex set_purge enqueue set_queue _isPurgingLocals _workQueue].
    assert (Hqs : _workQueue s' ++ [PurgeLocalsRequest (hex_head (_currentLocalsPurgeIndex s'))] = _workQueue s ++ map PurgeLocalsRequest (map hex_head (seqZ 0 (Z.of_nat (S n))))).
    { replace (Z.of_nat (S n)) with (Z.of_nat n + 1) by lia. rewrite seqZ_app, !map_app, Hq, Hi, <- app_assoc by lia. done. }
    destruct (Z.leb_spec (_currentLocalsPurgeIndex s' + 1) 4095); (eexists; split; [done|]; cbn [_workQueue _currentLocalsPurgeIndex timer_armed _isPurgingLocals set_purge]; split; [exact Hqs|]; split; [lia|]).
    + rewrite (proj2 (Nat.ltb_lt (S n) _)) by lia. split; [done|]. by rewrite Hp, (proj2 (Nat.ltb_lt n _)) by lia.
    + rewrite (proj2 (Nat.ltb_ge (S n) _)) by lia. done.
Qed.

(** C7. A purge of the local assets ends after one pass over all directories.  Started when no
    purge is running, the timer goes off 4096 times; it has then queued one request for every
    three-digit directory, each once and among them that of every valid id, is not set again,
    and a new purge can be started. *)
Theorem purge_timer_terminates s : _isPurgingLocals s = false ->
  exists s1 s2, beginPurgeLocals s = Some s1 /\ fire s1 4096 = Some s2 /\ _workQueue s2 = _workQueue s ++ map PurgeLocalsRequest purge_heads /\
    timer_armed s2 = false /\ _isPurgingLocals s2 = false /\ (forall err, onPurgeTimer s2 err = None) /\
    NoDup purge_heads /\ forall u, IsValidUUID u = true -> getFullPathForUUID u ∈ purge_heads.
Proof using Type.
  intros Hp. unfold beginPurgeLocals. rewrite Hp. cbn [negb]. destruct (fire_spec s 4096 (le_n _)) as (s2 & Hf & Hq & _ & Ha & Hi).
  exists (set_purge s true 0 true), s2. split; [done|]. split; [done|]. split; [done|]. split; [done|]. split; [done|].
  split; [intros err; unfold onPurgeTimer; by rewrite Ha|]. split; [apply purge_heads_NoDup|apply purge_heads_complete].
Qed.
End theorems.

(** ** Examples *)

(** The state after a sequence of steps. *)
Fixpoint exec {T CB : Type} `{IndexTable T} (s : backend T CB) (ls : list (label CB)) : option (backend T CB) :=
  match ls with [] => Some s | l :: ls => s' ← step s l; exec s' ls end.

Lemma exec_run {T CB : Type} `{IndexTable T} ls : forall (s0 s : backend T CB) tr s', run s0 tr s -> exec s ls = Some s' -> run s0 (rev ls ++ tr) s'.
Proof.
  induction ls as [|l ls IH]; intros s0 s tr s' Hr He; cbn in He.
  - by injection He as <-.
  - destruct (step s l) as [s1|] eqn:E; [|done]. cbn in He. cbn [rev]. rewrite <- app_assoc. eapply IH; [|done]. by eapply run_cons.
Qed.

(** The rows of the examples are finite maps, the callbacks numbers. *)
#[local] Notation demo := (backend (gmap (list Z) row) Z).

Definition id_a : list Z := replicate 32 97.
Definition id_b : list Z := replicate 31 97 ++ [98].
(** A header of 34 bytes and data; byte 33 tells local from global. *)
Definition demo_asset (id : list Z) (loc : Z) : list Z := id ++ [0; loc; 7; 8].

Definition demo_start : demo := default (mkBackend empty_disk new_pool ∅ [] [] [] [] false 0 false [] false) (boot empty_disk []).
Definition demo_exec (ls : list (label Z)) : demo := default demo_start (exec demo_start ls).

(** A store from the call to the queue. *)
Definition store_steps (a : list Z) (cb : Z) : list (label Z) := [LStore a cb; LResume 0; LResume 0].
Definition get_steps (u : list Z) (cb : Z) : list (label Z) := [LGet u cb; LResume 0].

(** Whether there is a result, without looking at it. *)
Definition returned {A} (x : option A) : bool := match x with Some _ => true | None => false end.

Lemma returned_default {A} (d : A) x : returned x = true -> x = Some (default d x).
Proof. by destruct x. Qed.

Lemma result_of {A} (x : res A * demo) r : x.1 = r -> x = (r, x.2).
Proof. destruct x. by intros <-. Qed.

Lemma demo_history ls : returned (exec demo_start ls) = true -> history (rev ls) (demo_exec ls).
Proof.
  intros He%(returned_default demo_start). exists demo_start, []. split; [vm_compute; reflexivity|]. rewrite <- (app_nil_r (rev ls)). by eapply exec_run; [apply run_nil|].
Qed.

Lemma demo_valid id loc : IsValidUUID id = true -> valid_asset (demo_asset id loc).
Proof.
  intros Hv. exists id, (loc =? 1). unfold IsValidUUID, UUID_LEN in Hv. pose proof Hv as [Hl%Nat.eqb_eq _]%andb_prop. split; [|split; [done|]].
  - unfold Asset.getUUID, demo_asset. pose proof (bytes_at_app [] id [0; loc; 7; 8]) as E. by rewrite Hl in E.
  - unfold Asset.isLocal, demo_asset. rewrite lookup_app_r by lia. by rewrite Hl.
Qed.

(** The stores of a list of steps, as a test. *)
Definition stores_of (ls : list (label Z)) : list (list Z) := ls ≫= fun l => match l with LStore a _ => [a] | _ => [] end.

Lemma demo_stores ls : Forall valid_asset (stores_of ls) -> valid_stores ls.
Proof.
  intros HF a cb Hin. apply (proj1 (Forall_forall _ _) HF). unfold stores_of. apply list_elem_of_bind. exists (LStore a cb). split; [left|done].
Qed.

Definition demo_get : list (label Z) := store_steps (demo_asset id_a 0) 1 ++ [LWork []; LPosted] ++ get_steps id_a 2 ++ [LWork []].

Lemma gets_return_stored_witness : exists u, LGet u 2 ∈ rev demo_get /\ Asset.getUUID (demo_asset id_a 0) = Some u /\ exists cb', LStore (demo_asset id_a 0) cb' ∈ rev demo_get.
Proof.
  apply (gets_return_stored (rev demo_get) (demo_exec demo_get) 2 (demo_asset id_a 0)).
  - apply demo_history. vm_compute. reflexivity.
  - apply demo_stores. repeat constructor; by apply demo_valid.
  - replace (posted (demo_exec demo_get) ++ delivered (demo_exec demo_get)) with [CallGet 2 (Some (demo_asset id_a 0)); CallStore 1 true] by (vm_compute; reflexivity). left.
Defined.

(** Whether an id is [undisturbed], as a test. *)
Definition is_another (u a : list Z) : bool := negb (bool_decide (Asset.getUUID a = Some u)).
Definition is_undisturbed (u : list Z) (s : demo) : bool :=
  bool_decide (octets u ∈ _existingAssets s) &&
  forallb (fun c => match c with GetChecked _ _ => true | StoreChecked a _ | StoreIndexed a _ => is_another u a end) (calls s) &&
  forallb (fun r => match r with AssetPutRequest a _ => is_another u a | _ => true end) (_workQueue s) &&
  forallb (fun x => match x with AssetWriteFailed _ | UnindexLocals _ _ => false | _ => true end) (posted s) &&
  bool_decide (rows (dsk_ s) (file_of u true) u = []).

Lemma is_undisturbed_sound u s : is_undisturbed u s = true -> undisturbed u s.
Proof.
  unfold is_undisturbed. intros [[[[H1%bool_decide_eq_true H2]%andb_prop H3]%andb_prop H4]%andb_prop H5%bool_decide_eq_true]%andb_prop.
  rewrite !forallb_forall in *. assert (Ha : forall a, is_another u a = true -> another u a) by (intros a; unfold is_another; by case_bool_decide).
  split; [done|..|done]; apply Forall_forall; intros x Hx%list_elem_of_In.
  - apply H2 in Hx. destruct x; cbn in *; auto.
  - apply H3 in Hx. destruct x; cbn in *; auto.
  - apply H4 in Hx. by destruct x.
Qed.

Lemma acknowledged_asset_survives_witness :
  exists s1 s2 s3 s4, workLoop (demo_exec (store_steps (demo_asset id_a 0) 1)) [] = Some s1 /\ exec s1 [LPurgeLocals; LRestart []] = Some s2 /\
    performDiskRead s2 [] id_a 5 = Some s3 /\ posted s3 = [CallGet 5 (Some (demo_asset id_a 0))] /\
    undisturbed id_a s1 /\ getAsset s2 id_a 5 = Some s4 /\ resume s4 0 = Some (enqueue s2 (AssetGetRequest id_a 5)).
Proof.
  set (s := demo_exec (store_steps (demo_asset id_a 0) 1)). set (s1 := default s (workLoop s [])). set (s2 := default s (exec s1 [LPurgeLocals; LRestart []])).
  assert (Hw : workLoop s [] = Some s1) by (apply returned_default; vm_compute; reflexivity).
  assert (He : exec s1 [LPurgeLocals; LRestart []] = Some s2) by (apply returned_default; vm_compute; reflexivity).
  assert (Hun : undisturbed id_a s1) by (apply is_undisturbed_sound; vm_compute; reflexivity).
  destruct (acknowledged_asset_survives (rev (store_steps (demo_asset id_a 0) 1)) [LRestart []; LPurgeLocals] s s1 s2 [] [] (demo_asset id_a 0) id_a 1 5) as ((s3 & Hp & Hl) & _ & _ & Hx).
  - apply demo_history. vm_compute. reflexivity.
  - apply demo_stores. repeat constructor; by apply demo_valid.
  - vm_compute. reflexivity.
  - reflexivity.
  - reflexivity.
  - vm_compute. discriminate.
  - exact Hw.
  - vm_compute. reflexivity.
  - exact (exec_run _ _ _ _ _ (run_nil s1) He).
  - destruct (Hx Hun) as [_ (s4 & Hg & Hs4)]. replace (length (calls s2)) with 0%nat in Hs4 by (vm_compute; reflexivity).
    exists s1, s2, s3, s4. split; [exact Hw|]. split; [exact He|]. split; [exact Hp|]. split; [|split; [exact Hun|split; [exact Hg|exact Hs4]]].
    rewrite Hl. replace (posted s2) with (@nil (action Z)) by (vm_compute; reflexivity). reflexivity.
Defined.

(** Two stores of one id that both pass the test for duplicates.  The second is refused when the worker finds the row of the first; but
    when the query for that row fails in SQLite, its handler takes the id out of the existence index although the asset of the first is
    stored. *)
Definition demo_race (faults : list outcome) : list (label Z) :=
  [LStore (demo_asset id_a 0) 1; LStore (demo_asset id_a 0) 2; LResume 0; LResume 0; LResume 0; LResume 0; LWork []; LWork faults].
(** The fourth call of the second store, the query of [findAssetPosition], fails. *)
Definition demo_hidden : list (label Z) := demo_race (replicate 3 Good ++ [Bad]) ++ [LPosted; LPosted; LPosted; LGet id_a 3; LPosted].

Lemma racing_stores_refused : returned (exec demo_start (demo_race [])) = true /\ posted (demo_exec (demo_race [])) = [CallStore 1 true; CallStore 2 false] /\
  octets id_a ∈ _existingAssets (demo_exec (demo_race [])).
Proof. split; [vm_compute; reflexivity|]. split; [vm_compute; reflexivity|apply (bool_decide_unpack _); vm_compute; exact I]. Qed.

Lemma racing_stores_hide_asset :
  returned (exec demo_start demo_hidden) = true /\ delivered (demo_exec demo_hidden) = [CallStore 1 true; CallStore 2 false; CallGet 3 None] /\
  octets id_a ∉ _existingAssets (demo_exec demo_hidden) /\
  posted (default demo_start (performDiskRead (demo_exec demo_hidden) [] id_a 4)) = [CallGet 4 (Some (demo_asset id_a 0))] /\
  octets id_a ∈ _existingAssets (demo_exec (demo_hidden ++ [LRestart []])).
Proof.
  split; [vm_compute; reflexivity|]. split; [vm_compute; reflexivity|]. split; [apply (bool_decide_unpack _); vm_compute; exact I|].
  split; [vm_compute; reflexivity|apply (bool_decide_unpack _); vm_compute; exact I].
Qed.

(** The data file cannot be opened: the 21st call of the first store in a directory. *)
Definition open_fails : list outcome := replicate 20 Good ++ [Bad].
(** The data file is created but its header cannot be written. *)
Definition header_fails : list outcome := replicate 21 Good ++ [Bad].

Lemma failed_store_id_witness : exists s', workLoop (demo_exec (store_steps (demo_asset id_a 0) 1)) open_fails = Some s' /\ octets id_a ∈ _existingAssets s' /\
  posted s' = [CallStore 1 false] /\ storeAsset s' (demo_asset id_a 0) 2 = Some (post s' (CallStore 2 false)).
Proof.
  set (s := demo_exec (store_steps (demo_asset id_a 0) 1)).
  destruct (failed_store_id (rev (store_steps (demo_asset id_a 0) 1)) s open_fails [] (demo_asset id_a 0) id_a false 1 (AssetStorageError true)
    (snd (on_disk (set_queue s []) open_fails (disk_storeAsset (demo_asset id_a 0))))) as (s' & Hw & He & _ & Hp & Hs).
  - apply demo_history. vm_compute. reflexivity.
  - apply demo_stores. repeat constructor; by apply demo_valid.
  - vm_compute. reflexivity.
  - vm_compute. reflexivity.
  - reflexivity.
  - reflexivity.
  - reflexivity.
  - apply (bool_decide_unpack _). vm_compute. exact I.
  - intros []; vm_compute; reflexivity.
  - apply result_of. vm_compute. reflexivity.
  - exists s'. split; [exact Hw|]. split; [exact He|]. split; [rewrite Hp; vm_compute; reflexivity|apply (Hs 2)].
Defined.

(** The header of the file of [id_b] fails; [id_a] lives in the same file. *)
Definition demo_lost : list (label Z) := store_steps (demo_asset id_b 0) 1 ++ [LWork header_fails] ++ store_steps (demo_asset id_a 0) 2.

Lemma empty_data_file_loses_asset_witness :
  exists s1 s2, workLoop (demo_exec demo_lost) [] = Some s1 /\ posted s1 = [CallStore 1 false; CallStore 2 true] /\
    performDiskRead s1 [] id_a 3 = Some s2 /\ posted s2 = posted s1 ++ [CallGet 3 None].
Proof.
  set (s := demo_exec demo_lost). set (s1 := default s (workLoop s [])). assert (Hw : workLoop s [] = Some s1) by (apply returned_default; vm_compute; reflexivity).
  destruct (empty_data_file_loses_asset (rev demo_lost) s s1 [] [] (demo_asset id_a 0) id_a false 2 3) as [_ (s2 & Hp & Hl)].
  - apply demo_history. vm_compute. reflexivity.
  - apply demo_stores. repeat constructor; by apply demo_valid.
  - vm_compute. reflexivity.
  - reflexivity.
  - reflexivity.
  - vm_compute. reflexivity.
  - vm_compute. reflexivity.
  - exact Hw.
  - vm_compute. reflexivity.
  - exists s1, s2. split; [exact Hw|]. split; [vm_compute; reflexivity|]. split; [exact Hp|exact Hl].
Defined.

Lemma requests_answered_once_witness : [2; 1] ≡ₚ owed (demo_exec demo_get).
Proof.
  change [2; 1] with (issued (rev demo_get)). apply (requests_answered_once (rev demo_get) (demo_exec demo_get)).
  - apply demo_history. vm_compute. reflexivity.
  - repeat constructor; try reflexivity. apply demo_valid. reflexivity.
Defined.

Lemma startup_index_exact_witness : exists s', boot (dsk_ (demo_exec demo_get)) [] = Some (s' : demo) /\ octets id_a ∈ _existingAssets s' /\ octets id_b ∉ _existingAssets s'.
Proof.
  set (s := demo_exec demo_get). set (s' := default s (boot (dsk_ s) [])). assert (Hb : boot (dsk_ s) [] = Some s') by (apply returned_default; vm_compute; reflexivity).
  assert (Hh : history (rev demo_get) s) by (apply demo_history; vm_compute; reflexivity).
  assert (Hv : valid_stores (rev demo_get)) by (apply demo_stores; repeat constructor; by apply demo_valid).
  exists s'. split; [exact Hb|]. split.
  - apply (startup_index_exact (rev demo_get) s [] s' id_a Hh Hv Hb eq_refl). exists globals. vm_compute. discriminate.
  - intros Hin. apply (startup_index_exact (rev demo_get) s [] s' id_b Hh Hv Hb eq_refl) in Hin as [[] Hne]; apply Hne; vm_compute; reflexivity.
Defined.

Lemma open_handles_current_witness : exists es, rep (weight := fun _ => 1) (files_ (demo_exec demo_get)) es /\
  forall p i, (p, i) ∈ es -> idx (dsk_ (demo_exec demo_get)) !! p = Some i /\ exists t, inodes (dsk_ (demo_exec demo_get)) !! i = Some (Some t).
Proof.
  destruct (open_handles_current (rev demo_get) (demo_exec demo_get)) as (es & Hr & _ & Ho & _).
  - apply demo_history. vm_compute. reflexivity.
  - apply demo_stores. repeat constructor; by apply demo_valid.
  - exists es. split; [exact Hr|exact Ho].
Defined.

Lemma purge_timer_terminates_witness : exists s1 s2, beginPurgeLocals demo_start = Some s1 /\ fire s1 4096 = Some s2 /\ _isPurgingLocals s2 = false.
Proof. destruct (purge_timer_terminates demo_start) as (s1 & s2 & H1 & H2 & _ & _ & H3 & _); [vm_compute; reflexivity|]. by exists s1, s2. Defined.
