(* ===== verification/PullRepl.v ===== *)
(** * PullRepl: the pull replication of WHIP

    Models [PullReplicationService] ([src/whip-server/whip]), which fetches from a master server the assets that
    this server does not have, on top of the connection of [RemoteAsset] and with the existence
    index of [VfsStore].  The service runs on a thread of its own: a [label] is one handler of its io
    service, the expiry of a timer, the answer of the storage back end, or the call of [stop].
    The back end takes an asset in [storing] and answers it once.  The settings, the clock and the existence
    index are read afresh by every handler ([env]).

    [runStep] and the handlers call each other; the recursion is tied with fuel in [runStep],
    and [STEP_FUEL] is shown to be enough.  Log messages are left out. *)
From S2P Require Import Prelude Sha1 WhipWire Uuid WhipSettings VfsData VfsStore RemoteAsset.
From stdpp Require Import list gmap.
#[local] Open Scope Z_scope.

Inductive ReplicateStep := RS_NONE | RS_IDLIST | RS_RETRIEVE | RS_WAIT | RS_NOMASTER.
#[export] Instance ReplicateStep_eq_dec : EqDecision ReplicateStep.
Proof. solve_decision. Defined.

(** The response callbacks, [onGetStoredAssetIds] and [onAssetRetrieved]. *)
Inductive pull_cb := GetStoredAssetIds | AssetRetrieved (assetId : list Z).

(** [storing] are the assets that the back end has not answered yet, [stored] its answers that the io service has not run yet. *)
Record pull := mkPull {
  _replicationMasterEndpoint : endpoint; _pullFrequency : Z; _stop : bool;
  _assetSvc : option nat; _connected : bool; _reconnectTimer : timer;
  _currentStep : ReplicateStep; _currentAssetPrefix : Z;
  _pendingAssets : list (list Z); _inProgressAssets : gset (list Z);
  _replRestartTimer : timer; _nextReplStart : Z; _batchSize : Z;
  storing : list (list Z * list Z); stored : list (bool * list Z); stopping : nat }.

Definition set_master ep s := mkPull ep (_pullFrequency s) (_stop s) (_assetSvc s) (_connected s) (_reconnectTimer s) (_currentStep s) (_currentAssetPrefix s) (_pendingAssets s) (_inProgressAssets s) (_replRestartTimer s) (_nextReplStart s) (_batchSize s) (storing s) (stored s) (stopping s).
Definition set_stop b s := mkPull (_replicationMasterEndpoint s) (_pullFrequency s) b (_assetSvc s) (_connected s) (_reconnectTimer s) (_currentStep s) (_currentAssetPrefix s) (_pendingAssets s) (_inProgressAssets s) (_replRestartTimer s) (_nextReplStart s) (_batchSize s) (storing s) (stored s) (stopping s).
Definition set_svc p s := mkPull (_replicationMasterEndpoint s) (_pullFrequency s) (_stop s) p (_connected s) (_reconnectTimer s) (_currentStep s) (_currentAssetPrefix s) (_pendingAssets s) (_inProgressAssets s) (_replRestartTimer s) (_nextReplStart s) (_batchSize s) (storing s) (stored s) (stopping s).
Definition set_connected b s := mkPull (_replicationMasterEndpoint s) (_pullFrequency s) (_stop s) (_assetSvc s) b (_reconnectTimer s) (_currentStep s) (_currentAssetPrefix s) (_pendingAssets s) (_inProgressAssets s) (_replRestartTimer s) (_nextReplStart s) (_batchSize s) (storing s) (stored s) (stopping s).
Definition set_reconnect f s := mkPull (_replicationMasterEndpoint s) (_pullFrequency s) (_stop s) (_assetSvc s) (_connected s) (f (_reconnectTimer s)) (_currentStep s) (_currentAssetPrefix s) (_pendingAssets s) (_inProgressAssets s) (_replRestartTimer s) (_nextReplStart s) (_batchSize s) (storing s) (stored s) (stopping s).
Definition set_step x s := mkPull (_replicationMasterEndpoint s) (_pullFrequency s) (_stop s) (_assetSvc s) (_connected s) (_reconnectTimer s) x (_currentAssetPrefix s) (_pendingAssets s) (_inProgressAssets s) (_replRestartTimer s) (_nextReplStart s) (_batchSize s) (storing s) (stored s) (stopping s).
Definition set_prefix n s := mkPull (_replicationMasterEndpoint s) (_pullFrequency s) (_stop s) (_assetSvc s) (_connected s) (_reconnectTimer s) (_currentStep s) n (_pendingAssets s) (_inProgressAssets s) (_replRestartTimer s) (_nextReplStart s) (_batchSize s) (storing s) (stored s) (stopping s).
Definition set_pending q s := mkPull (_replicationMasterEndpoint s) (_pullFrequency s) (_stop s) (_assetSvc s) (_connected s) (_reconnectTimer s) (_currentStep s) (_currentAssetPrefix s) q (_inProgressAssets s) (_replRestartTimer s) (_nextReplStart s) (_batchSize s) (storing s) (stored s) (stopping s).
Definition set_inprogress x s := mkPull (_replicationMasterEndpoint s) (_pullFrequency s) (_stop s) (_assetSvc s) (_connected s) (_reconnectTimer s) (_currentStep s) (_currentAssetPrefix s) (_pendingAssets s) x (_replRestartTimer s) (_nextReplStart s) (_batchSize s) (storing s) (stored s) (stopping s).
Definition set_restart f s := mkPull (_replicationMasterEndpoint s) (_pullFrequency s) (_stop s) (_assetSvc s) (_connected s) (_reconnectTimer s) (_currentStep s) (_currentAssetPrefix s) (_pendingAssets s) (_inProgressAssets s) (f (_replRestartTimer s)) (_nextReplStart s) (_batchSize s) (storing s) (stored s) (stopping s).
Definition set_next n s := mkPull (_replicationMasterEndpoint s) (_pullFrequency s) (_stop s) (_assetSvc s) (_connected s) (_reconnectTimer s) (_currentStep s) (_currentAssetPrefix s) (_pendingAssets s) (_inProgressAssets s) (_replRestartTimer s) n (_batchSize s) (storing s) (stored s) (stopping s).
Definition set_storing q q' s := mkPull (_replicationMasterEndpoint s) (_pullFrequency s) (_stop s) (_assetSvc s) (_connected s) (_reconnectTimer s) (_currentStep s) (_currentAssetPrefix s) (_pendingAssets s) (_inProgressAssets s) (_replRestartTimer s) (_nextReplStart s) (_batchSize s) q q' (stopping s).
Definition set_stopping n s := mkPull (_replicationMasterEndpoint s) (_pullFrequency s) (_stop s) (_assetSvc s) (_connected s) (_reconnectTimer s) (_currentStep s) (_currentAssetPrefix s) (_pendingAssets s) (_inProgressAssets s) (_replRestartTimer s) (_nextReplStart s) (_batchSize s) (storing s) (stored s) n.

Section pull.
Context `{BoostParse}.
Notation act := (act pull_cb pull).
Notation world := (world pull_cb pull).

(** [_assetSvc->] *)
Definition svc : act nat := p ← my _assetSvc; checked p.

(** [_existenceIndex->assetExists(id)] *)
Definition index_has (id : list Z) : act bool :=
  ids ← ask existing;
  match VfsStore.assetExists ids id with Ret b => mret b | Throw _ => uncaught | Fault => undefined end.

Definition setReplicationRestartTimer : act unit := set_my (set_restart arm).

(** [setw] and [setfill] apply to the hexadecimal digits of the [int] taken as unsigned. *)
Definition getStringPrefixForIndex : act (list Z) := n ← my _currentAssetPrefix; mret (hex_head (u32 n)).

Definition retrieveIdListForPrefix : act unit :=
  this ← svc;
  prefix ← getStringPrefixForIndex;
  getStoredAssetIDsWithPrefix this prefix GetStoredAssetIds.

(** The loop of [onGetStoredAssetIds]. *)
Fixpoint missing_loop (idList : list (list Z)) : act unit :=
  match idList with
  | [] => mret tt
  | id :: idList =>
      _ ← (if negb (bool_decide (id = [])) then
             has ← index_has id;
             if negb has then set_my (fun s => set_pending (_pendingAssets s ++ [id]) s) else mret tt
           else mret tt);
      missing_loop idList
  end.

(** The loop of [retrieveNextMissingAssetBatch], with the length of the queue as fuel; the number of requests sent. *)
Fixpoint batch_loop (fuel : nat) (requestsSent : Z) : act Z :=
  queue ← my _pendingAssets;
  match queue with
  | [] => mret requestsSent
  | nextAsset :: rest =>
      match fuel with
      | O => out_of_fuel
      | S fuel =>
          has ← index_has nextAsset;
          if has : bool then
            _ ← set_my (set_pending rest);
            batch_loop fuel requestsSent
          else
            _ ← set_my (fun s => set_inprogress ({[nextAsset]} ∪ _inProgressAssets s) s);
            let requestsSent := requestsSent + 1 in
            this ← svc;
            _ ← getAsset this nextAsset false (AssetRetrieved nextAsset);
            _ ← set_my (set_pending rest);
            batchSize ← my _batchSize;
            if requestsSent =? batchSize then mret requestsSent else batch_loop fuel requestsSent
      end
  end.

(** Handlers, given [runStep]. *)
Section handlers.
Context (runStep : act unit).

Definition retrieveNextIdList : act unit :=
  _ ← set_my (set_step RS_IDLIST);
  _ ← set_my (fun s => set_prefix (_currentAssetPrefix s + 1) s);
  prefix ← my _currentAssetPrefix;
  if prefix <=? 4095 then runStep
  else
    _ ← set_my (set_prefix 0);
    _ ← set_my (set_step RS_WAIT);
    now ← ask universal_time;
    _ ← set_my (fun s => set_next (now + 60 * _pullFrequency s) s);
    setReplicationRestartTimer.

Definition onGetStoredAssetIds (asset : option (list Z)) (error : RASError) (ids : list Z) : act unit :=
  connected ← my _connected;
  if negb connected then mret tt
  else if negb (isError error) then
    if bool_decide (ids = []) then retrieveNextIdList
    else
      _ ← set_my (set_pending []);
      _ ← missing_loop (WhipSettings.split 44 ids);
      pending ← my _pendingAssets;
      if bool_decide (pending = []) then retrieveNextIdList
      else
        _ ← set_my (set_step RS_RETRIEVE);
        runStep
  else if negb (isFatal error) then runStep else mret tt.

Definition onAssetRetrieved (asset : option (list Z)) (error : RASError) (errorMesg : list Z) (assetId : list Z) : act unit :=
  connected ← my _connected;
  if negb connected then mret tt
  else if isError error then
    _ ← set_my (fun s => set_inprogress (_inProgressAssets s ∖ {[assetId]}) s);
    rest ← my _inProgressAssets;
    if negb (isFatal error) && bool_decide (rest = ∅) then runStep else mret tt
  else
    a ← checked asset;
    set_my (fun s => set_storing (storing s ++ [(a, assetId)]) (stored s) s).

Definition onServerConnectionFailed (remoteServer : nat) : act unit :=
  connected ← my _connected;
  if connected : bool then
    _ ← set_my (set_connected false);
    p ← my _assetSvc;
    _ ← set_my (set_svc None);
    _ ← (match p with Some p => free p | None => mret tt end);
    inProgress ← my _inProgressAssets;
    step ← my _currentStep;
    if bool_decide (inProgress = ∅) && negb (bool_decide (step = RS_NOMASTER)) && negb (bool_decide (step = RS_WAIT)) then runStep
    else if bool_decide (step = RS_NOMASTER) then setReplicationRestartTimer
    else mret tt
  else mret tt.

Definition pull_respond (cb : pull_cb) (asset : option (list Z)) (error : RASError) (message : list Z) : act unit :=
  match cb with
  | GetStoredAssetIds => onGetStoredAssetIds asset error message
  | AssetRetrieved assetId => onAssetRetrieved asset error message assetId
  end.

(** No callback that [close] calls makes a request. *)
Definition pull_refill (s : pull) : nat := 0.

Definition close_svc : act unit := this ← svc; close pull_respond onServerConnectionFailed pull_refill this.

(** The rest of [verifyConnection], after the master has been looked up. *)
Definition ensure_connected : act bool :=
  p ← my _assetSvc;
  this ← (match p with
          | Some this => mret this
          | None =>
              ep ← my _replicationMasterEndpoint;
              this ← allocate (new_service ep);
              _ ← set_my (set_svc (Some this));
              _ ← setSafekillCallback this;
              mret this
          end);
  connected ← my _connected;
  if negb connected then _ ← connect this; mret false else mret true.

Definition verifyConnection : act bool :=
  stop ← my _stop;
  if stop : bool then mret false
  else
    step ← my _currentStep;
    if bool_decide (step = RS_NONE) || bool_decide (step = RS_WAIT) || bool_decide (step = RS_NOMASTER) then
      setting ← ask replication_master;
      let master := replicationMaster setting in
      if negb (bool_decide (master = [])) then
        ep ← or_throw (ParseHostPortPairToTcpEndpoint master);
        current ← my _replicationMasterEndpoint;
        if negb (bool_decide (ep = current)) then
          _ ← set_my (set_step RS_NONE);
          _ ← set_my (set_master ep);
          p ← my _assetSvc;
          connected ← my _connected;
          if bool_decide (is_Some p) && connected then _ ← close_svc; mret false
          else ensure_connected
        else ensure_connected
      else
        _ ← (if negb (bool_decide (step = RS_NOMASTER)) then
               _ ← set_my (set_step RS_NOMASTER);
               close_svc
             else mret tt);
        mret true
    else ensure_connected.

Definition retrieveNextMissingAssetBatch : act unit :=
  pending ← my _pendingAssets;
  if bool_decide (pending = []) then retrieveNextIdList
  else
    requestsSent ← batch_loop (length pending) 0;
    if requestsSent =? 0 then retrieveNextIdList else mret tt.

Definition checkResumeNextReplRound : act unit :=
  now ← ask universal_time;
  start ← my _nextReplStart;
  if start <=? now then _ ← set_my (set_step RS_NONE); runStep
  else setReplicationRestartTimer.

Definition replicateStep : act unit :=
  step ← my _currentStep;
  match step with
  | RS_NONE => n ← ask pull_replication_start_at; _ ← set_my (set_prefix n); retrieveIdListForPrefix
  | RS_IDLIST => retrieveIdListForPrefix
  | RS_RETRIEVE => retrieveNextMissingAssetBatch
  | RS_WAIT => checkResumeNextReplRound
  | RS_NOMASTER => setReplicationRestartTimer
  end.

Definition runStep_body : act unit :=
  stop ← my _stop;
  if stop : bool then mret tt
  else
    up ← verifyConnection;
    if negb up then mret tt else replicateStep.

Definition onServiceConnectionStatus (service : nat) (success : bool) : act unit :=
  if negb success then set_my (set_reconnect arm)
  else
    _ ← set_my (set_connected true);
    runStep.

Definition onAfterAssetStored (success : bool) (assetId : list Z) : act unit :=
  _ ← set_my (fun s => set_inprogress (_inProgressAssets s ∖ {[assetId]}) s);
  rest ← my _inProgressAssets;
  if bool_decide (rest = ∅) then runStep else mret tt.

Definition doStop : act unit :=
  _ ← set_my (set_stop true);
  close_svc.

End handlers.

Fixpoint runStep (fuel : nat) : act unit :=
  match fuel with O => out_of_fuel | S fuel => runStep_body (runStep fuel) end.

Definition STEP_FUEL : nat := 3.
Notation run := (runStep STEP_FUEL).

(** ** The thread of the service *)

(** The constructor and [start]; the call of [runStep] at the start of the thread counts as a
    handler that is ready. *)
Definition new_pull (ep : endpoint) (pullFrequency batchSize : Z) : pull :=
  mkPull ep pullFrequency false None false (mkTimer 0 0) RS_NONE 0 [] ∅ (mkTimer 0 1) 0 batchSize [] [] 0.
Definition pull_start ep freq batch : world := mkWorld ∅ 0 [] (new_pull ep freq batch).

Inductive pull_label :=
  | LIo (n : nat) (ok : bool) (data : list Z)
  | LExpireRestart | LRestart | LExpireReconnect | LReconnect
  | LAnswer (n : nat) (success : bool) | LStored
  | LStop | LStopped.

Definition pull_step (e : env) (w : world) (l : pull_label) : option (result (unit * world)) :=
  match l with
  | LIo n ok data => io_step (pull_respond run) (onServiceConnectionStatus run) (onServerConnectionFailed run) pull_refill e w n ok data
  | LExpireRestart => Some (set_my (set_restart expire) e w)
  | LRestart => if (0 <? ready (_replRestartTimer (client w)))%nat then Some ((_ ← set_my (set_restart fired); run) e w) else None
  | LExpireReconnect => Some (set_my (set_reconnect expire) e w)
  | LReconnect => if (0 <? ready (_reconnectTimer (client w)))%nat then Some ((_ ← set_my (set_reconnect fired); _ ← verifyConnection run; mret tt) e w) else None
  | LAnswer n success =>
      match storing (client w) !! n with
      | Some (_, id) => Some (set_my (fun s => set_storing (delete n (storing s)) (stored s ++ [(success, id)]) s) e w)
      | None => None
      end
  | LStored =>
      match stored (client w) with
      | (success, id) :: rest => Some ((_ ← set_my (fun s => set_storing (storing s) rest s); onAfterAssetStored run success id) e w)
      | [] => None
      end
  | LStop => Some (set_my (fun s => set_stopping (S (stopping s)) s) e w)
  | LStopped => match stopping (client w) with S n => Some ((_ ← set_my (set_stopping n); doStop run) e w) | O => None end
  end.

Inductive pulls (ep : endpoint) (freq batch : Z) : world -> Prop :=
  | pulls_start : pulls ep freq batch (pull_start ep freq batch)
  | pulls_step w e l w' : pulls ep freq batch w -> pull_step e w l = Some (Done (tt, w')) -> pulls ep freq batch w'.

End pull.

(** ** Termination *)

Section termination.
Context `{BoostParse}.
Notation act := (act pull_cb pull).
Notation world := (world pull_cb pull).

(** Never out of fuel, from any state. *)
Notation total m := (keeps (fun _ => True) m).

Lemma ends_True {A} (m : act A) e w Q : ends m e w Q -> ends m e w (fun _ _ => True).
Proof using Type. intros Hm. by eapply ends_mono. Qed.

(** The callbacks that [close] calls leave the objects and the connection alone. *)
Lemma pull_respond_fatal r cb m e w : ends (pull_respond r cb None (mkRASError true true) m) e w (fun _ w' =>
  heap w' = heap w /\ ops w' = ops w /\ _connected (client w') = _connected (client w) /\ _currentStep (client w') = _currentStep (client w)).
Proof using Type. destruct cb; unfold pull_respond, onGetStoredAssetIds, onAssetRetrieved; cbn [isError isFatal negb andb]; ends_open; done. Qed.

Lemma pull_respond_load r queue cb t e w : queue = _transferRequestQueue \/ queue = _assetCallbackQueue ->
  ends (pull_respond r cb None (mkRASError true true) terminated) e w (fun _ w' => (load pull_refill queue t w' <= load pull_refill queue t w)%nat).
Proof using Type. intros _. eapply ends_mono; [apply pull_respond_fatal|]. intros [] w' (Hh & _). unfold load. by rewrite Hh. Qed.

(** While there is no connection. *)
Definition off (w : world) : Prop := _connected (client w) = false.
Definition no_master (w : world) : Prop := _currentStep (client w) = RS_NOMASTER.

Lemma close_off r (P : world -> Prop) : (forall h n w, P w -> P (mkWorld h n (ops w) (client w))) -> (forall w, P w -> off w) ->
  keeps P (close_svc r).
Proof using Type.
  intros P_heap Hoff. unfold close_svc, svc. keeps_open. intros e w Hw.
  assert (Hm : forall cb x er m, keeps P (pull_respond r cb x er m)).
  { intros cb x er m e' w' Hw'. pose proof (Hoff w' Hw') as Ho. unfold off in Ho. destruct cb; unfold pull_respond, onGetStoredAssetIds, onAssetRetrieved; ends_step; ends_step; by rewrite Ho. }
  refine (keeps_close P P_heap _ _ _ (fun cb => Hm cb _ _ _) _ (pull_respond_load r) a e w Hw).
  intros t e' w' Hw'. pose proof (Hoff w' Hw') as Ho. unfold off in Ho. unfold onServerConnectionFailed. ends_step. ends_step. by rewrite Ho.
Qed.

Lemma ensure_ends e w : ends ensure_connected e w (fun b w' => _connected (client w') = _connected (client w) /\ _currentStep (client w') = _currentStep (client w) /\ b = _connected (client w)).
Proof using Type.
  unfold ensure_connected, setSafekillCallback, connect. ends_step. ends_step. ends_step. destruct (_assetSvc (client w)); ends_open; cbn in *; rewrite ?E in *; try done; by destruct (_connected (client w)).
Qed.

Lemma runStep_off n : keeps off (runStep (S n)).
Proof using Type.
  intros e w Hw. cbn [runStep]. unfold runStep_body. ends_step. ends_step. case_bool; [done|]. ends_step.
  apply (ends_mono _ _ _ (fun b w' => off w' /\ (b = true -> no_master w'))).
  - assert (Hens : forall w, off w -> ends ensure_connected e w (fun b w' => off w' /\ (b = true -> no_master w'))).
    { intros w0 H0. eapply ends_mono; [apply ensure_ends|]. intros b w' (H1 & H2 & ->). unfold off in *. rewrite H1, H0. done. }
    unfold verifyConnection. ends_step. ends_step. case_bool; [done|]. ends_step. ends_step. case_bool; [|by apply Hens]. ends_step. ends_step. cbn zeta. case_bool.
    + ends_step. ends_step. ends_step. ends_step. case_bool; [|by apply Hens]. do 8 ends_step. cbn. unfold off in Hw. rewrite Hw, andb_false_r. by apply Hens.
    + ends_step. case_bool.
      * ends_step. ends_step. eapply ends_mono; [apply (close_off (runStep n) (fun w => off w /\ no_master w)); [done|by intros ? []|done]|]. intros [] w1 [H1 H2]. by ends_step.
      * ends_step. ends_step. apply negb_false_iff, bool_decide_eq_true in Heqb3. done.
  - intros b w1 [H1 H2]. destruct b; cbn [negb]; [|done]. unfold replicateStep. ends_step. ends_step. unfold no_master in H2. rewrite H2 by done. unfold setReplicationRestartTimer. by ends_step.
Qed.

Lemma close_total n : total (close_svc (runStep (S n))).
Proof using Type.
  unfold close_svc, svc. keeps_open. apply keeps_close; intros; [done|intros e w _; eapply ends_True, pull_respond_fatal| |by apply pull_respond_load].
  unfold onServerConnectionFailed. intros e w _. ends_step. ends_step. case_bool; [|done]. do 7 ends_step.
  assert (Hk : forall w, off w -> ends (my _inProgressAssets ≫= fun ip => my _currentStep ≫= fun step =>
    if bool_decide (ip = ∅) && negb (bool_decide (step = RS_NOMASTER)) && negb (bool_decide (step = RS_WAIT)) then runStep (S n)
    else if bool_decide (step = RS_NOMASTER) then setReplicationRestartTimer else mret tt) e w (fun _ _ => True)).
  { intros w0 H0. do 4 ends_step. case_bool; [eapply ends_True, runStep_off; done|]. case_bool; [|done]. unfold setReplicationRestartTimer. by ends_step. }
  cbn; destruct (_assetSvc (client w)); ends_step; by apply Hk.
Qed.

(** With no master nothing but the timer is touched. *)
Lemma close_no_master r : keeps no_master (close_svc r).
Proof using Type.
  unfold close_svc, svc. keeps_open. apply keeps_close; intros; [done| | |by apply pull_respond_load].
  - intros e w Hw. eapply ends_mono; [apply pull_respond_fatal|]. intros [] w' (_ & _ & _ & E). unfold no_master in *. by rewrite E.
  - intros e w Hw. unfold onServerConnectionFailed. ends_step. ends_step. case_bool; [|done]. do 7 ends_step. unfold no_master in Hw.
    cbn. destruct (_assetSvc (client w)); ends_step; do 4 ends_step; cbn; rewrite Hw; rewrite andb_false_r; cbn; unfold setReplicationRestartTimer; by ends_step.
Qed.

(** A check of the connection that succeeds leaves the step, or starts again, or there is no master. *)
Lemma verify_ends n e w : ends (verifyConnection (runStep (S n))) e w (fun b w' => b = true -> no_master w' \/ _currentStep (client w') = RS_NONE \/ _currentStep (client w') = _currentStep (client w)).
Proof using Type.
  unfold verifyConnection. ends_step. ends_step. case_bool; [done|]. ends_step. ends_step.
  assert (Hens : ends ensure_connected e w (fun b w' => b = true -> no_master w' \/ _currentStep (client w') = RS_NONE \/ _currentStep (client w') = _currentStep (client w))).
  { eapply ends_mono; [apply ensure_ends|]. intros b w' (_ & E & _) _. by right; right. }
  case_bool; [|done]. ends_step. ends_step. cbn zeta. case_bool.
  - ends_step. ends_step. ends_step. ends_step. case_bool; [|done]. do 8 ends_step. case_bool.
    + ends_step. eapply ends_mono; [by apply close_total|]. intros [] w' _. by ends_step.
    + eapply ends_mono; [apply ensure_ends|]. intros b w' (_ & Ex & _) _. right. left. by rewrite Ex.
  - ends_step. case_bool.
    + ends_step. ends_step. eapply ends_mono; [by apply close_no_master|]. intros [] w' H'. ends_step. intros _. by left.
    + do 2 ends_step. intros _. left. apply negb_false_iff, bool_decide_eq_true in Heqb2. done.
Qed.

Lemma ids_total : total retrieveIdListForPrefix.
Proof using Type. unfold retrieveIdListForPrefix, svc, getStringPrefixForIndex. keeps_open. by apply keeps_getIds. Qed.

Lemma timer_total : total setReplicationRestartTimer.
Proof using Type. done. Qed.

(** From a step that only asks for a list, or has no master. *)
Lemma runStep_ids n e w : _currentStep (client w) = RS_NONE \/ _currentStep (client w) = RS_IDLIST \/ no_master w -> ends (runStep (S (S n))) e w (fun _ _ => True).
Proof using Type.
  intros Hstep. cbn [runStep]. unfold runStep_body at 1. ends_step. ends_step. case_bool; [done|]. ends_step.
  eapply ends_mono; [apply (verify_ends n)|]. intros b w1 H1. destruct b; cbn [negb]; [|done].
  unfold replicateStep. ends_step. ends_step. destruct (_currentStep (client w1)) eqn:Es; [| by apply ids_total|exfalso..|by apply timer_total].
  - do 4 ends_step. by apply ids_total.
  - unfold no_master in *. destruct (H1 eq_refl) as [?|[?|?]], Hstep as [?|[?|?]]; congruence.
  - unfold no_master in *. destruct (H1 eq_refl) as [?|[?|?]], Hstep as [?|[?|?]]; congruence.
Qed.

Lemma next_list_total n : total (retrieveNextIdList (runStep (S (S n)))).
Proof using Type.
  intros e w _. unfold retrieveNextIdList. do 6 ends_step. case_bool; [apply runStep_ids; by right; left|]. do 8 ends_step. by apply timer_total.
Qed.

Lemma index_has_total id : total (index_has id).
Proof using Type. unfold index_has. keeps_open. Qed.

Lemma batch_total fuel : forall n e w, (length (_pendingAssets (client w)) <= fuel)%nat -> ends (batch_loop fuel n) e w (fun _ _ => True).
Proof using Type.
  induction fuel as [|fuel IH]; intros n e w Hl; cbn [batch_loop]; ends_step; ends_step; destruct (_pendingAssets (client w)) as [|x q] eqn:Eq; [done|cbn in Hl; lia|done|].
  ends_step. eapply ends_mono; [by apply index_has_total|]. intros b w1 _. cbn in Hl. case_bool.
  - ends_step. ends_step. apply IH. cbn. lia.
  - ends_step. ends_step. cbn zeta. ends_step. unfold svc. do 4 ends_step.
    eapply ends_mono; [by apply (keeps_getAsset (fun _ => True))|]. intros [] w2 _. do 4 ends_step. case_bool; [done|]. apply IH. cbn. lia.
Qed.

Lemma runStep_total n : total (runStep (S (S (S n)))).
Proof using Type.
  intros e w _. cbn [runStep]. unfold runStep_body at 1. ends_step. ends_step. case_bool; [done|]. ends_step.
  eapply ends_mono; [apply (verify_ends (S n))|]. intros b w1 _. destruct b; cbn [negb]; [|done].
  unfold replicateStep. ends_step. ends_step. destruct (_currentStep (client w1)); [| by apply ids_total| | |by apply timer_total].
  - do 4 ends_step. by apply ids_total.
  - unfold retrieveNextMissingAssetBatch. ends_step. ends_step. case_bool; [by apply (next_list_total n)|]. ends_step.
    eapply ends_mono; [by apply batch_total|]. intros k w2 _. case_bool; [by apply (next_list_total n)|done].
  - unfold checkResumeNextReplRound. do 4 ends_step. case_bool; [|by apply timer_total]. ends_step. ends_step. apply (runStep_ids n). by left.
Qed.

Notation run := (runStep STEP_FUEL).

Lemma missing_total ids : total (missing_loop ids).
Proof using Type. induction ids as [|id ids IH]; cbn [missing_loop]; keeps_open; first [apply index_has_total|by apply keeps_set_my]. Qed.

Lemma respond_total cb a er m : total (pull_respond run cb a er m).
Proof using Type.
  destruct cb; cbn [pull_respond]; unfold onGetStoredAssetIds, onAssetRetrieved; keeps_open; try done;
    first [by apply keeps_set_my|apply (next_list_total 1)|apply missing_total|apply (runStep_total 0)].
Qed.

Lemma failed_total t : total (onServerConnectionFailed run t).
Proof using Type. unfold onServerConnectionFailed. keeps_open; first [by apply keeps_set_my|apply (runStep_total 0)|done]. Qed.

Lemma pull_complete_total o ok d : total (complete (pull_respond run) (onServiceConnectionStatus run) (onServerConnectionFailed run) pull_refill o ok d).
Proof using Type.
  destruct (attempt o) eqn:Eo; [|apply keeps_complete; intros; first [done|apply respond_total|apply failed_total|by apply pull_respond_load]].
  assert (Hresult : forall t, total (onConnectionResult (onServiceConnectionStatus run) t)).
  { intros t. unfold onConnectionResult, onServiceConnectionStatus. keeps_open; first [by apply keeps_set_my|apply (runStep_total 0)|by apply keeps_listen]. }
  assert (Hop : forall t o', total (async (CB := pull_cb) (CL := pull) t o')) by (intros t o' e w _; by ends_open).
  destruct o; try done; cbn [complete]; unfold onConnect, onRecvChallenge, onChallengeResponseWrite, onAuthenticationStatus, sendChallengeResponse; keeps_open;
    first [apply Hresult|apply Hop|by apply keeps_set_fld].
Qed.

(** C17. Every handler of the pull replication ends, whatever the state and the settings: [runStep]
    calls itself through the handlers at most three levels deep, and the loops over queues end. *)
Theorem pull_handlers_terminate e (w : world) l : pull_step e w l <> Some NoFuel.
Proof using Type.
  assert (Htotal : forall m : act unit, total m -> Some (m e w) <> Some NoFuel).
  { intros m Hm [= E]. specialize (Hm e w I). unfold ends in Hm. by rewrite E in Hm. }
  assert (Hverify : total (verifyConnection run)) by (intros e' w' _; eapply ends_True, (verify_ends 2)).
  destruct l; cbn [pull_step]; repeat case_match; try done; try (apply Htotal; keeps_open; first [by apply keeps_set_my|apply (runStep_total 0)|unfold onAfterAssetStored, doStop; keeps_open; first [by apply keeps_set_my|apply (runStep_total 0)|apply (close_total 2)]]).
  unfold io_step. destruct (ops w !! n) as [x|]; [|done]. cbn [mbind option_bind]. case_bool; [|done]. intros E. apply (inj Some) in E.
  pose proof (pull_complete_total x.2 ok data e (mkWorld (heap w) (next_ptr w) (delete n (ops w)) (client w)) I) as Hc. unfold ends in Hc. by rewrite E in Hc.
Qed.

End termination.

(** ** When the master is taken out of the settings *)

Section no_master.
Context `{BoostParse}.
Notation world := (world pull_cb pull).
Notation run := (runStep STEP_FUEL).

(** Between two rounds, with the service [t] connected and listening. *)
Record between_rounds (t : nat) (o : RemoteAssetService pull_cb) (w : world) : Prop := {
  br_stop : _stop (client w) = false;
  br_connected : _connected (client w) = true;
  br_svc : _assetSvc (client w) = Some t;
  br_step : _currentStep (client w) = RS_WAIT;
  br_timer : _replRestartTimer (client w) = mkTimer 1 0;
  br_heap : heap w !! t = Some o;
  br_requests : _transferRequestQueue o = [];
  br_callbacks : _assetCallbackQueue o = [];
  br_safekill : _safeKillCallback o = true;
  br_send : _sendActive o = false;
}.

(** The failure of the read that is always outstanding: the service is closed and [safekill] runs. *)
Lemma lost_header e w t o : heap w !! t = Some o -> _transferRequestQueue o = [] -> _assetCallbackQueue o = [] -> _safeKillCallback o = true -> _sendActive o = false ->
  complete (pull_respond run) (onServiceConnectionStatus run) (onServerConnectionFailed run) pull_refill (ReadHeader t) false [] e w =
  onServerConnectionFailed run t e (mkWorld (<[t := set_established false (set_socket false (set_recv false o))]> (heap w)) (next_ptr w) (ops w) (client w)).
Proof using Type.
  intros Ho Ht Hc Hs Hsend. cbn [complete]. unfold onReadResponseHeader. cbn [negb andb]. erewrite bind_done by (by apply set_fld_done).
  erewrite close_empty; [|apply lookup_insert_eq|done..]. cbn [heap next_ptr ops client _recvActive _sendActive set_recv]. rewrite Hsend, insert_insert_eq. done.
Qed.

Lemma failed_waiting e w t : _connected (client w) = true -> _assetSvc (client w) = Some t -> _currentStep (client w) = RS_WAIT ->
  onServerConnectionFailed run t e w = Done (tt, mkWorld (delete t (heap w)) (next_ptr w) (ops w) (set_svc None (set_connected false (client w)))).
Proof using Type.
  intros Hc Hp Hs. unfold onServerConnectionFailed. erewrite bind_done by done. rewrite Hc. do 3 erewrite bind_done by done. cbn. rewrite Hp. do 3 erewrite bind_done by done.
  cbn. rewrite Hs. rewrite andb_true_r, andb_false_r. done.
Qed.

Lemma failed_no_master e w t : _connected (client w) = true -> _assetSvc (client w) = Some t -> _currentStep (client w) = RS_NOMASTER ->
  onServerConnectionFailed run t e w = Done (tt, mkWorld (delete t (heap w)) (next_ptr w) (ops w) (set_restart arm (set_svc None (set_connected false (client w))))).
Proof using Type.
  intros Hc Hp Hs. unfold onServerConnectionFailed. erewrite bind_done by done. rewrite Hc. do 3 erewrite bind_done by done. cbn. rewrite Hp. do 3 erewrite bind_done by done.
  cbn. rewrite Hs. rewrite !andb_false_r. done.
Qed.

(** A step when the settings name no master. *)
Lemma verify_no_master r e w : _stop (client w) = false -> _currentStep (client w) = RS_NONE \/ _currentStep (client w) = RS_WAIT -> replicationMaster (replication_master e) = [] ->
  verifyConnection r e w = ((_ ← close_svc r; mret true) : act pull_cb pull bool) e (mkWorld (heap w) (next_ptr w) (ops w) (set_step RS_NOMASTER (client w))).
Proof using Type.
  intros Hst Hs Hm. unfold verifyConnection. erewrite bind_done by done. rewrite Hst. erewrite bind_done by done.
  assert (Hb : bool_decide (_currentStep (client w) = RS_NONE) || bool_decide (_currentStep (client w) = RS_WAIT) || bool_decide (_currentStep (client w) = RS_NOMASTER) = true)
    by (by destruct Hs as [-> | ->]).
  rewrite Hb. erewrite bind_done by done. cbv zeta. rewrite Hm, (bool_decide_true ([] = [])) by done. cbn [negb].
  rewrite (bool_decide_false (_currentStep (client w) = RS_NOMASTER)) by (destruct Hs; congruence). cbn [negb]. reflexivity.
Qed.

Lemma run_no_master e w : _stop (client w) = false -> _currentStep (client w) = RS_NONE \/ _currentStep (client w) = RS_WAIT -> replicationMaster (replication_master e) = [] ->
  run e w = ((_ ← close_svc (runStep 2); replicateStep (runStep 2)) : act pull_cb pull unit) e (mkWorld (heap w) (next_ptr w) (ops w) (set_step RS_NOMASTER (client w))).
Proof using Type.
  intros Hst Hs Hm. change run with (runStep_body (runStep 2)). unfold runStep_body. erewrite bind_done by done. rewrite Hst. unfold mbind at 1, act_bind at 1.
  rewrite verify_no_master by done. unfold mbind, act_bind. by destruct (close_svc (runStep 2) e _) as [[[] ?]| | |].
Qed.

Lemma verify_idle r e w : _stop (client w) = false -> _currentStep (client w) = RS_NOMASTER -> replicationMaster (replication_master e) = [] -> verifyConnection r e w = Done (true, w).
Proof using Type.
  intros Hst Hs Hm. unfold verifyConnection. erewrite bind_done by done. rewrite Hst. erewrite bind_done by done. rewrite Hs.
  change (bool_decide (RS_NOMASTER = RS_NONE) || bool_decide (RS_NOMASTER = RS_WAIT) || bool_decide (RS_NOMASTER = RS_NOMASTER)) with true.
  cbv iota. erewrite bind_done by done. cbv zeta. rewrite Hm, !bool_decide_true by done. reflexivity.
Qed.

Lemma run_idle e w : _stop (client w) = false -> _currentStep (client w) = RS_NOMASTER -> replicationMaster (replication_master e) = [] ->
  run e w = Done (tt, mkWorld (heap w) (next_ptr w) (ops w) (set_restart arm (client w))).
Proof using Type.
  intros Hst Hs Hm. change run with (runStep_body (runStep 2)). unfold runStep_body. erewrite bind_done by done. rewrite Hst.
  erewrite bind_done by (by apply verify_idle).
  unfold replicateStep. cbn [negb]. erewrite bind_done by done. by rewrite Hs.
Qed.

Lemma io_lost e w n b t o : ops w !! n = Some (b, ReadHeader t) -> heap w !! t = Some o ->
  _transferRequestQueue o = [] -> _assetCallbackQueue o = [] -> _safeKillCallback o = true -> _sendActive o = false ->
  pull_step e w (LIo n false []) = Some (onServerConnectionFailed run t e
    (mkWorld (<[t := set_established false (set_socket false (set_recv false o))]> (heap w)) (next_ptr w) (delete n (ops w)) (client w))).
Proof using Type.
  intros Hn Ho Ht Hc Hs Hsend. cbn [pull_step]. unfold io_step. rewrite Hn. cbn [mbind option_bind can_complete snd fst]. f_equal. by apply (lost_header e (mkWorld (heap w) (next_ptr w) (delete n (ops w)) (client w))).
Qed.

Lemma step_expire e w : pull_step e w LExpireRestart = Some (Done (tt, mkWorld (heap w) (next_ptr w) (ops w) (set_restart expire (client w)))).
Proof using Type. done. Qed.

Lemma step_restart e w : (0 < ready (_replRestartTimer (client w)))%nat ->
  pull_step e w LRestart = Some (run e (mkWorld (heap w) (next_ptr w) (ops w) (set_restart fired (client w)))).
Proof using Type. intros Hr. cbn [pull_step]. by rewrite (proj2 (Nat.ltb_lt _ _) Hr). Qed.

(** The state after a run of handlers. *)
Fixpoint after (e : env) (w : world) (ls : list pull_label) : option (result (unit * world)) :=
  match ls with
  | [] => Some (Done (tt, w))
  | l :: ls => match pull_step e w l with Some (Done (_, w)) => after e w ls | r => r end
  end.

(** C16. What happens when the settings stop to name a master between two rounds.  If the connection
    has been lost in the meantime, the next wake-up uses the null pointer that
    [onServerConnectionFailed] leaves.  If it is still there, the wake-up and the end
    of the connection each set the timer; the first wait is cancelled by the second, which makes its
    handler run at once and cancel the second: the state is a fixed point of the timer handler, which is always
    ready, so that the thread never rests again. *)
Theorem pull_master_removed e (w : world) n b t o : between_rounds t o w -> _recvActive o = true -> ops w !! n = Some (b, ReadHeader t) -> replicationMaster (replication_master e) = [] ->
  after e w [LIo n false []; LExpireRestart; LRestart] = Some Undefined /\
  exists w', after e w [LExpireRestart; LRestart; LIo n false []] = Some (Done (tt, w')) /\
    _stop (client w') = false /\ pull_step e w' LRestart = Some (Done (tt, w')).
Proof using Type.
  intros [Hst Hc Hp Hs Ht Ho Hq1 Hq2 Hk Hsend] Hr Hn Hm. split; cbn [after].
  - erewrite (io_lost e w n b t o) by done. rewrite failed_waiting by done. rewrite step_expire, step_restart by (cbn; rewrite Ht; cbn; lia).
    rewrite run_no_master; [|done|by right|done]. done.
  - rewrite step_expire, step_restart by (cbn; rewrite Ht; cbn; lia). rewrite run_no_master; [|done|by right|done].
    cbn [client heap next_ptr ops]. unfold close_svc, svc.
    erewrite (bind_done (_ ≫= _)); [|erewrite bind_done; [|erewrite bind_done by done; cbn; by rewrite Hp]; erewrite close_empty; [|done..]; by rewrite Hr].
    unfold replicateStep. erewrite bind_done by done. cbn [client _currentStep set_step]. unfold setReplicationRestartTimer, set_my at 1.
    rewrite (io_lost e _ n b t (set_established false (set_socket false o))); [|done|apply lookup_insert_eq|done..].
    rewrite failed_no_master; [|done..]. eexists. split; [done|]. split; [done|]. rewrite step_restart by (cbn; lia).
    rewrite run_idle by done. do 3 f_equal. cbn [heap next_ptr ops client]. f_equal. destruct (client w). cbn in *. by subst.
Qed.

(** The first connection attempt, with the service [t]. *)
Record first_attempt (t : nat) (o : RemoteAssetService pull_cb) (b : bool) (w : world) : Prop := {
  fa_stop : _stop (client w) = false;
  fa_connected : _connected (client w) = false;
  fa_svc : _assetSvc (client w) = Some t;
  fa_step : _currentStep (client w) = RS_NONE;
  fa_restart : _replRestartTimer (client w) = mkTimer 0 0;
  fa_reconnect : _reconnectTimer (client w) = mkTimer 0 0;
  fa_storing : storing (client w) = [];
  fa_stored : stored (client w) = [];
  fa_ops : ops w = [(b, Connecting t)];
  fa_heap : heap w !! t = Some o;
  fa_requests : _transferRequestQueue o = [];
  fa_callbacks : _assetCallbackQueue o = [];
  fa_safekill : _safeKillCallback o = true;
  fa_send : _sendActive o = false;
  fa_recv : _recvActive o = false;
}.

Lemma attempt_failed e w t o b : first_attempt t o b w ->
  pull_step e w (LIo 0 false []) = Some (Done (tt, mkWorld (<[t := set_established false o]> (heap w)) (next_ptr w) [] (set_reconnect arm (client w)))).
Proof using Type.
  intros [Hst Hc Hp Hs Ht1 Ht2 Hg1 Hg2 Hops Ho Hq1 Hq2 Hk Hsend Hrecv]. cbn [pull_step]. unfold io_step. rewrite Hops. cbn [lookup list_lookup mbind option_bind can_complete snd delete list_delete complete]. f_equal.
  unfold onConnect. cbn [negb]. erewrite bind_done by (by apply set_fld_done). cbn [heap next_ptr ops client].
  unfold onConnectionResult. erewrite bind_done by (apply fld_done, lookup_insert_eq). cbn [_assetConnectionEstablished set_established].
  erewrite bind_done by (unfold onServiceConnectionStatus; cbn [negb]; reflexivity). cbn [heap next_ptr ops client].
  erewrite bind_done by (apply fld_done, lookup_insert_eq). reflexivity.
Qed.

Lemma expire_restart_none (w : world) : _replRestartTimer (client w) = mkTimer 0 0 -> mkWorld (heap w) (next_ptr w) (ops w) (set_restart expire (client w)) = w.
Proof using Type. destruct w as [h n os []]. cbn. by intros ->. Qed.

Lemma expire_reconnect_none (w : world) : _reconnectTimer (client w) = mkTimer 0 0 -> mkWorld (heap w) (next_ptr w) (ops w) (set_reconnect expire (client w)) = w.
Proof using Type. destruct w as [h n os []]. cbn. by intros ->. Qed.

(** The retry of a failed first connection only checks the connection: when the settings name no
    master by then, [verifyConnection] has nothing to wait for, and its result is not
    used.  After that nothing of the service is left to wake it up, and only [stop] changes its state, also
    when a master is named again. *)
Theorem pull_stalls e e' (w : world) t o b : first_attempt t o b w -> replicationMaster (replication_master e') = [] ->
  exists w1 w', after e w [LIo 0 false []; LExpireReconnect] = Some (Done (tt, w1)) /\ pull_step e' w1 LReconnect = Some (Done (tt, w')) /\
    _stop (client w') = false /\
    (forall e'' l r, l <> LStop -> l <> LStopped -> pull_step e'' w' l = Some r -> r = Done (tt, w')).
Proof using Type.
  intros Hw Hm. pose proof Hw as [Hst Hc Hp Hs Ht1 Ht2 Hg1 Hg2 Hops Ho Hq1 Hq2 Hk Hsend Hrecv]. cbn [after]. rewrite (attempt_failed e w t o b Hw).
  do 2 eexists. split; [reflexivity|]. split.
  { cbn [pull_step client set_reconnect _reconnectTimer]. rewrite Ht2. cbn [arm expire ready waiting Nat.add Nat.ltb Nat.leb]. f_equal. erewrite bind_done by done.
    erewrite bind_done; [reflexivity|]. rewrite verify_no_master; [|done|by left|done]. cbn [heap next_ptr ops client]. unfold close_svc, svc.
    erewrite bind_done; [reflexivity|]. erewrite bind_done; [|erewrite bind_done by done; cbn; by rewrite Hp].
    erewrite close_empty; [|apply lookup_insert_eq|done..]. cbn [_recvActive _sendActive set_established]. rewrite Hsend, Hrecv. cbn [negb andb].
    unfold onServerConnectionFailed. erewrite bind_done by done. cbn [client set_reconnect set_step _connected]. rewrite Hc. reflexivity. }
  split; [done|]. intros e'' l r Hl1 Hl2. set (w' := mkWorld _ _ _ _).
  assert (Hr : _replRestartTimer (client w') = mkTimer 0 0) by done. assert (Hr' : _reconnectTimer (client w') = mkTimer 0 0) by (cbn; by rewrite Ht2).
  assert (Hg : storing (client w') = [] /\ stored (client w') = [] /\ ops w' = []) by done. destruct Hg as (G1 & G2 & G3).
  destruct l; try done; cbn [pull_step]; rewrite ?Hr, ?Hr', ?G1, ?G2; try done.
  - intros [= <-]. exact (f_equal (fun x => Done (tt, x)) (expire_restart_none w' Hr)).
  - intros [= <-]. exact (f_equal (fun x => Done (tt, x)) (expire_reconnect_none w' Hr')).
Qed.

End no_master.

(** ** A round *)

Section round.
Context `{BoostParse}.
Notation world := (world pull_cb pull).
Notation run := (runStep STEP_FUEL).
Context (e : env).

Definition ids_pending (n : Z) : PendingTransferRequest pull_cb := mkPending (hex_head n) GetStoredAssetIds ClientRequestMsg.RT_STORED_ASSET_IDS_GET None.
(** The request for the ids with a prefix, as it is written. *)
Definition ids_request (n : Z) : list Z := ClientRequestMsg.header (ClientRequestMsg.new_get ClientRequestMsg.RT_STORED_ASSET_IDS_GET (hex_head n ++ replicate 29 48)).

(** The service [t] has asked for the ids with prefix [n], and waits. *)
Record asking (t : nat) (n : Z) (o : RemoteAssetService pull_cb) (w : world) : Prop := {
  as_stop : _stop (client w) = false;
  as_connected : _connected (client w) = true;
  as_svc : _assetSvc (client w) = Some t;
  as_step : _currentStep (client w) = RS_NONE \/ _currentStep (client w) = RS_IDLIST;
  as_prefix : _currentAssetPrefix (client w) = n;
  as_timer : _replRestartTimer (client w) = mkTimer 0 0;
  as_heap : heap w !! t = Some o;
  as_established : _assetConnectionEstablished o = true;
  as_socket : _socket o = true;
  as_requests : _transferRequestQueue o = [];
  as_callbacks : _assetCallbackQueue o = [ids_pending n];
  as_safekill : _safeKillCallback o = true;
  as_ops : ops w = [(true, WriteRequest t (ids_request n)); (true, ReadHeader t)];
}.

Lemma hex_head_length n : 0 <= n < 4096 -> length (hex_head n) = 3%nat.
Proof using Type. intros Hn. by rewrite hex_head_digits. Qed.

(** Asking for the list of the current prefix. *)
Lemma ids_done (w : world) t o n : 0 <= n < 4096 -> _currentAssetPrefix (client w) = n -> _assetSvc (client w) = Some t -> heap w !! t = Some o ->
  _assetConnectionEstablished o = true -> _socket o = true -> _sendActive o = false ->
  retrieveIdListForPrefix e w = Done (tt, mkWorld (<[t := set_callbacks (_assetCallbackQueue o ++ [ids_pending n]) (set_send true o)]> (heap w)) (next_ptr w)
    (ops w ++ [(true, WriteRequest t (ids_request n))]) (client w)).
Proof using Type.
  intros Hn Hp Hs Ho He Hopen Hsend. unfold retrieveIdListForPrefix, svc. erewrite bind_done; [|erewrite bind_done by done; rewrite Hs; reflexivity].
  erewrite bind_done; [|unfold getStringPrefixForIndex; erewrite bind_done by done; rewrite Hp; unfold u32; rewrite Z.mod_small by lia; reflexivity].
  unfold getStoredAssetIDsWithPrefix. erewrite bind_done by (by apply fld_done). rewrite He. cbn [negb]. erewrite bind_done by done.
  erewrite bind_done by (by apply fld_done). rewrite Hsend. cbn [negb]. unfold sendAssetIdsRequest. erewrite bind_done by (by apply set_fld_done).
  rewrite hex_head_length by done. cbn [Nat.eqb negb Nat.ltb Nat.leb]. erewrite bind_done by done. cbv zeta. cbn [Nat.sub].
  erewrite bind_done; [|unfold async; erewrite bind_done by (apply fld_done, lookup_insert_eq); cbn [_socket set_send]; rewrite Hopen; reflexivity].
  unfold push_callback. erewrite set_fld_done by apply lookup_insert_eq. cbn [heap next_ptr ops client]. by rewrite insert_insert_eq.
Qed.

Lemma run_asks (w : world) t o n : 0 <= n < 4096 -> _stop (client w) = false -> _connected (client w) = true -> _currentStep (client w) = RS_IDLIST ->
  _currentAssetPrefix (client w) = n -> _assetSvc (client w) = Some t -> heap w !! t = Some o ->
  _assetConnectionEstablished o = true -> _socket o = true -> _sendActive o = false ->
  run e w = Done (tt, mkWorld (<[t := set_callbacks (_assetCallbackQueue o ++ [ids_pending n]) (set_send true o)]> (heap w)) (next_ptr w)
    (ops w ++ [(true, WriteRequest t (ids_request n))]) (client w)).
Proof using Type.
  intros Hn Hst Hc Hstep Hp Hs Ho He Hopen Hsend. change run with (runStep_body (runStep 2)). unfold runStep_body. erewrite bind_done by done. rewrite Hst.
  erewrite bind_done; [|unfold verifyConnection; erewrite bind_done by done; rewrite Hst; erewrite bind_done by done; rewrite Hstep;
    change (bool_decide (RS_IDLIST = RS_NONE) || bool_decide (RS_IDLIST = RS_WAIT) || bool_decide (RS_IDLIST = RS_NOMASTER)) with false; cbv iota;
    unfold ensure_connected; erewrite bind_done by done; rewrite Hs; erewrite bind_done by done; erewrite bind_done by done; rewrite Hc; reflexivity].
  cbn [negb]. unfold replicateStep. erewrite bind_done by done. rewrite Hstep. by apply ids_done.
Qed.

(** What the master sends: a positive header with the length of the list, and the list. *)
Definition ids_header (ids : list Z) : list Z := ServerResponseMsg.code ServerResponseMsg.RC_OK :: replicate 32 48 ++ htonl_bytes (Z.of_nat (length ids)).
Definition answer (ids : list Z) : list pull_label := [LIo 0 true []; LIo 0 true (ids_header ids); LIo 0 true ids].

(** Every id of the list is in the existence index. *)
Definition all_known (ids : list Z) : Prop := forall id, id ∈ WhipSettings.split 44 ids -> id = [] \/ VfsStore.assetExists (existing e) id = Ret true.

Lemma ids_header_size ids : Z.of_nat (length ids) < 2 ^ 32 -> ServerResponseMsg.getDataSize (ServerResponseMsg.mk (ids_header ids) None) = Some (Z.of_nat (length ids)).
Proof using Type.
  intros Hl. unfold ServerResponseMsg.getDataSize, ids_header. cbn [ServerResponseMsg.header].
  pose proof (ntohl_htonl (ServerResponseMsg.code ServerResponseMsg.RC_OK :: replicate 32 48) (Z.of_nat (length ids)) []) as Hn. rewrite app_nil_r in Hn.
  apply Hn. unfold is_u32. lia.
Qed.

Lemma missing_none (w : world) l : (forall id, id ∈ l -> id = [] \/ VfsStore.assetExists (existing e) id = Ret true) -> missing_loop l e w = Done (tt, w).
Proof using Type.
  induction l as [|id l IH]; intros Hl; cbn [missing_loop]; [done|]. rewrite (bind_done _ _ e w tt w); [apply IH; intros; apply Hl; by right|].
  destruct (Hl id ltac:(left)) as [-> | Hid]; [done|]. case_bool; [|done].
  erewrite bind_done; [|unfold index_has; erewrite bind_done by done; by rewrite Hid]. done.
Qed.

(** The callback of a list without missing assets. *)
Lemma list_known (w : world) ids : all_known ids -> _connected (client w) = true ->
  exists w0, onGetStoredAssetIds run None (mkRASError false false) ids e w = retrieveNextIdList run e w0 /\
    heap w0 = heap w /\ next_ptr w0 = next_ptr w /\ ops w0 = ops w /\ (client w0 = client w \/ client w0 = set_pending [] (client w)).
Proof using Type.
  intros Hk Hc. unfold onGetStoredAssetIds. erewrite bind_done by done. rewrite Hc. cbn [negb isError]. destruct (bool_decide (ids = [])); [exists w; split_and!; [done..|by left]|].
  erewrite bind_done by done. erewrite bind_done by (by apply missing_none). erewrite bind_done by done. cbn [client set_pending _pendingAssets].
  rewrite bool_decide_true by done. eexists. split; [reflexivity|]. split_and!; [done..|by right].
Qed.

(** The two steps before the list itself arrives. *)
Lemma header_arrives t n o (w : world) ids : asking t n o w -> Z.of_nat (length ids) < 2 ^ 32 -> exists o1,
  after e w [LIo 0 true []; LIo 0 true (ids_header ids)] = Some (Done (tt, mkWorld (<[t := o1]> (heap w)) (next_ptr w)
    [(true, ReadData t (ServerResponseMsg.mk (ids_header ids) (Some (replicate (length ids) 0))))] (client w))) /\
  o1 = set_recv true (set_send false o).
Proof using Type.
  intros [Hst Hc Hp Hs Hn Ht Ho He Hopen Hq1 Hq2 Hk Hops] Hl. cbn [after].
  assert (H1 : pull_step e w (LIo 0 true []) = Some (Done (tt, mkWorld (<[t := set_send false o]> (heap w)) (next_ptr w) [(true, ReadHeader t)] (client w)))).
  { cbn [pull_step]. unfold io_step. rewrite Hops. cbn [lookup list_lookup mbind option_bind can_complete fst snd andb length expected Nat.eqb delete list_delete complete]. f_equal.
    unfold onAfterWriteAssetRequest. erewrite bind_done by (by apply set_fld_done). cbn [negb andb heap next_ptr ops client].
    rewrite (proj2 (Nat.ltb_lt 0 _)) by (unfold ids_request; cbn; lia). erewrite bind_done by (apply fld_done, lookup_insert_eq). erewrite bind_done by (apply fld_done, lookup_insert_eq).
    cbn [_transferRequestQueue set_send _assetConnectionEstablished]. rewrite Hq1, He. cbn [length Nat.eqb negb andb]. erewrite bind_done by done.
    unfold checkSafeKill. erewrite bind_done by (apply fld_done, lookup_insert_eq). erewrite bind_done by (apply fld_done, lookup_insert_eq). cbn [_assetConnectionEstablished set_send]. by rewrite He. }
  rewrite H1. eexists. split; [|reflexivity]. cbn [pull_step]. unfold io_step. cbn [ops lookup list_lookup mbind option_bind can_complete fst snd andb expected delete list_delete complete].
  replace (length (ids_header ids) =? ServerResponseMsg.HEADER_SIZE)%nat with true by done.
  unfold onReadResponseHeader. erewrite bind_done by (apply set_fld_done, lookup_insert_eq). cbn [negb andb heap next_ptr ops client]. rewrite insert_insert_eq.
  replace (0 <? length (ids_header ids))%nat with true by done. cbv zeta. 
  assert (Hpos : forall w' : world, RemoteAsset.positive (ServerResponseMsg.mk (ids_header ids) None) e w' = Done (true, w')) by done.
  erewrite bind_done by apply Hpos. cbv iota.
  assert (Hi : ServerResponseMsg.initializeDataStorage (ServerResponseMsg.mk (ids_header ids) None) = Some (ServerResponseMsg.mk (ids_header ids) (Some (replicate (length ids) 0)))).
  { unfold ServerResponseMsg.initializeDataStorage. rewrite ids_header_size by done. cbn. by rewrite Nat2Z.id. }
  rewrite Hi. erewrite bind_done by done.
  erewrite bind_done by (apply set_fld_done, lookup_insert_eq). cbn [heap next_ptr ops client]. rewrite insert_insert_eq.
  unfold async. erewrite bind_done by (apply fld_done, lookup_insert_eq). unfold add_op. cbn [_socket set_recv set_send heap next_ptr ops client]. rewrite Hopen. reflexivity.
Qed.


(** The next prefix, or the end of the round. *)
Definition round_over (t : nat) (o : RemoteAssetService pull_cb) (w : world) : Prop :=
  between_rounds t o w /\ _recvActive o = true /\ ops w = [(true, ReadHeader t)] /\ _nextReplStart (client w) = universal_time e + 60 * _pullFrequency (client w).

Lemma next_list (w : world) t o n : 0 <= n < 4096 -> _stop (client w) = false -> _connected (client w) = true -> _assetSvc (client w) = Some t -> _currentAssetPrefix (client w) = n ->
  heap w !! t = Some o -> _assetConnectionEstablished o = true -> _socket o = true -> _sendActive o = false ->
  exists w' o', retrieveNextIdList run e w = Done (tt, w') /\ heap w' = <[t := o']> (heap w) /\
    if n <? 4095 then o' = set_callbacks (_assetCallbackQueue o ++ [ids_pending (n + 1)]) (set_send true o) /\ ops w' = ops w ++ [(true, WriteRequest t (ids_request (n + 1)))] /\
      client w' = set_prefix (n + 1) (set_step RS_IDLIST (client w))
    else o' = o /\ ops w' = ops w /\ client w' = set_restart arm (set_next (universal_time e + 60 * _pullFrequency (client w)) (set_step RS_WAIT (set_prefix 0 (set_prefix (n + 1) (set_step RS_IDLIST (client w)))))).
Proof using Type.
  intros Hn Hst Hc Hs Hp Ho He Hopen Hsend. unfold retrieveNextIdList. do 3 erewrite bind_done by done. cbn [client set_step set_prefix _currentAssetPrefix]. rewrite Hp.
  destruct (Z.ltb_spec n 4095).
  - rewrite (proj2 (Z.leb_le (n + 1) 4095)) by lia. do 2 eexists. split; [by apply (run_asks _ t o (n + 1)); [lia|..]|]. by cbn.
  - rewrite (proj2 (Z.leb_gt (n + 1) 4095)) by lia. do 4 erewrite bind_done by done. eexists _, o. split; [reflexivity|]. cbn [heap ops client].
    by rewrite (insert_id (heap w) t o Ho).
Qed.

Lemma list_arrives t n o (w : world) ids : 0 <= n < 4096 -> asking t n o w -> all_known ids -> Z.of_nat (length ids) < 2 ^ 32 -> exists w' o',
  after e w (answer ids) = Some (Done (tt, w')) /\ if n <? 4095 then asking t (n + 1) o' w' else round_over t o' w'.
Proof using Type.
  intros Hn Hw Hk Hl. destruct (header_arrives t n o w ids Hw Hl) as (o1 & H1 & ->). destruct Hw as [Hst Hc Hs Hstep Hp Ht Ho He Hopen Hq1 Hq2 Hkill Hops].
  unfold answer. cbn [after] in H1 |- *. destruct (pull_step e w (LIo 0 true [])) as [[[[] w1]| | |]|]; try done. destruct (pull_step e w1 _) as [[[[] w2]| | |]|]; try done. injection H1 as ->.
  cbn [pull_step]. unfold io_step. cbn [ops lookup list_lookup mbind option_bind can_complete fst snd andb delete list_delete complete].
  replace (length ids =? expected _)%nat with true by (cbn; rewrite length_replicate, Nat.eqb_refl; done). unfold onReadResponseData. erewrite bind_done by (apply set_fld_done, lookup_insert_eq). cbn [negb andb heap next_ptr ops client]. rewrite insert_insert_eq.
  set (o2 := set_recv false _). set (w3 := mkWorld _ _ _ _). assert (H3 : heap w3 !! t = Some o2) by apply lookup_insert_eq.
  erewrite bind_done by (by apply fld_done). cbn [o2 _assetConnectionEstablished set_recv set_send]. rewrite He.
  erewrite bind_done; [|unfold front_callback; erewrite bind_done by (by apply fld_done); cbn [o2 _assetCallbackQueue set_recv set_send]; rewrite Hq2; reflexivity].
  cbv zeta. cbn [req_type ids_pending]. destruct (list_known w3 ids Hk Hc) as (w4 & H4 & Eh & En & Eo & Ec).
  assert (Hc4 : _stop (client w4) = false /\ _connected (client w4) = true /\ _assetSvc (client w4) = Some t /\ _currentAssetPrefix (client w4) = n /\ _replRestartTimer (client w4) = mkTimer 0 0)
    by (by destruct Ec as [-> | ->]). destruct Hc4 as (C1 & C2 & C3 & C4 & C5).
  destruct (next_list w4 t o2 n Hn C1 C2 C3 C4) as (w5 & o5 & H5 & Eh5 & Hcase); [by rewrite Eh|done..|].
  assert (H5' : heap w5 !! t = Some o5) by (rewrite Eh5; apply lookup_insert_eq).
  erewrite bind_done; [|unfold handleDataReturned; erewrite bind_done; [|cbn [pull_respond req_callback ids_pending]; rewrite H4; exact H5];
    unfold listenForServerResponses; erewrite bind_done by (by apply set_fld_done); unfold async; erewrite bind_done by (apply fld_done, lookup_insert_eq); reflexivity].
  cbn [heap next_ptr ops client]. erewrite bind_done by (apply fld_done, lookup_insert_eq).
  destruct (Z.ltb_spec n 4095); destruct Hcase as (-> & Eo5 & Ec5).
  - cbn [_assetCallbackQueue set_recv set_callbacks set_send o2 _socket]. rewrite Hq2. cbn [app length Nat.eqb negb].
    unfold pop_callback, front_callback. erewrite bind_done; [|erewrite bind_done by (apply fld_done, lookup_insert_eq); reflexivity].
    erewrite set_fld_done by apply lookup_insert_eq. do 2 eexists. split; [reflexivity|]. cbn [heap next_ptr ops client].
    split; cbn [heap next_ptr ops client]; rewrite ?Ec5, ?Eo5, ?Eo; first [done|by right|apply lookup_insert_eq|cbn; by rewrite Hopen|cbn; by rewrite Hq2].
  - cbn [_assetCallbackQueue set_recv set_callbacks set_send o2 _socket]. rewrite Hq2. cbn [app length Nat.eqb negb].
    unfold pop_callback, front_callback. erewrite bind_done; [|erewrite bind_done by (apply fld_done, lookup_insert_eq); cbn; rewrite Hq2; reflexivity].
    erewrite set_fld_done by apply lookup_insert_eq. do 2 eexists. split; [reflexivity|]. cbn [heap next_ptr ops client].
    split; [split; cbn [heap next_ptr ops client]; rewrite ?Ec5; [..|apply lookup_insert_eq| | | |]; first [done|cbn; by rewrite C5|cbn; by rewrite Hq2]|].
    split_and!; [done|cbn; rewrite Eo5, Eo; cbn; by rewrite Hopen|cbn; by rewrite Ec5].
Qed.


Lemma after_app (w : world) l l' : after e w (l ++ l') = match after e w l with Some (Done (_, w')) => after e w' l' | r => r end.
Proof using Type. revert w. induction l as [|x l IH]; intros w; cbn [after app]; [done|]. by destruct (pull_step e w x) as [[[[] w1]| | |]|]. Qed.

Definition answers_ok (lists : list (list Z)) : Prop := Forall (fun ids => all_known ids /\ Z.of_nat (length ids) < 2 ^ 32) lists.

Lemma round_progress t lists : forall n o (w : world), 0 <= n -> n + Z.of_nat (length lists) < 4096 -> asking t n o w -> answers_ok lists ->
  exists w' o', after e w (lists ≫= answer) = Some (Done (tt, w')) /\ asking t (n + Z.of_nat (length lists)) o' w'.
Proof using Type.
  induction lists as [|ids lists IH]; intros n o w Hn Hl Hw Hok; [exists w, o; split; [done|]; by rewrite Z.add_0_r|].
  inversion Hok as [|? ? [Hk Hs] Hok']; subst. cbn [length] in *. destruct (list_arrives t n o w ids ltac:(lia) Hw Hk Hs) as (w1 & o1 & H1 & Hw1).
  rewrite (proj2 (Z.ltb_lt n 4095)) in Hw1 by lia. destruct (IH (n + 1) o1 w1 ltac:(lia) ltac:(lia) Hw1 Hok') as (w2 & o2 & H2 & Hw2). exists w2, o2. split.
  - cbn [mbind list_bind]. rewrite after_app, H1. exact H2.
  - by replace (n + Z.of_nat (S (length lists))) with (n + 1 + Z.of_nat (length lists)) by lia.
Qed.

(** C15. A round over a master that has nothing new: while the master answers each request with ids that this server
    knows, the service asks for the prefixes one after the other, from the current one to
    the last, and then rests until the next round, listening and with its timer set.  A round from prefix 0 asks for the directory of
    every valid UUID. *)
Theorem pull_round_completes t n o (w : world) (lists : list (list Z)) last :
  0 <= n -> asking t n o w -> n + Z.of_nat (length lists) = 4095 -> answers_ok (lists ++ [last]) ->
  (forall k, (k <= length lists)%nat -> exists w' o', after e w (take k lists ≫= answer) = Some (Done (tt, w')) /\ asking t (n + Z.of_nat k) o' w') /\
  (exists w' o', after e w ((lists ++ [last]) ≫= answer) = Some (Done (tt, w')) /\ round_over t o' w') /\
  (forall u, IsValidUUID u = true -> exists k, 0 <= k <= 4095 /\ getFullPathForUUID u = hex_head k).
Proof using Type.
  intros Hn Hw Hl [Hok Hlast]%Forall_app. split_and!.
  - intros k Hk. pose proof (length_take_le lists k Hk) as Htk. destruct (round_progress t (take k lists) n o w) as (w' & o' & H1 & H2); [done|rewrite Htk; lia|done|by apply Forall_take|].
    exists w', o'. by rewrite Htk in H2.
  - destruct (round_progress t lists n o w) as (w1 & o1 & H1 & Hw1); [done|lia|done..|]. rewrite Hl in Hw1. apply Forall_singleton in Hlast as [Hk Hs].
    destruct (list_arrives t 4095 o1 w1 last ltac:(lia) Hw1 Hk Hs) as (w2 & o2 & H2 & Hw2). exists w2, o2. split; [|exact Hw2].
    rewrite bind_app, after_app, H1. cbn [mbind list_bind]. by rewrite app_nil_r.
  - intros u Hu. pose proof (purge_heads_complete u Hu) as Hin. apply list_elem_of_fmap in Hin as (k & -> & Hk%elem_of_seqZ). exists k. split; [lia|done].
Qed.

End round.

(** ** What is fetched *)

Section fetched.
Context `{BoostParse} (seen : env -> Prop).
Notation act := (act pull_cb pull).
Notation world := (world pull_cb pull).
Notation run := (runStep STEP_FUEL).

(** The id was not in the existence index when a handler looked. *)
Definition was_missing (id : list Z) : Prop := exists e, seen e /\ VfsStore.assetExists (existing e) id = Ret false.

Definition pull_tag (cb : pull_cb) (ty : ClientRequestMsg.RequestType) (u : list Z) : Prop :=
  match cb with
  | GetStoredAssetIds => ty = ClientRequestMsg.RT_STORED_ASSET_IDS_GET
  | AssetRetrieved id => ty = ClientRequestMsg.RT_GET_DONTCACHE /\ u = id /\ was_missing id
  end.
Definition stores_ok (s : pull) : Prop := Forall (fun x => Asset.getUUID x.1 = Some x.2 /\ was_missing x.2) (storing s).

Section in_env.
Context (e : env) (Hseen : seen e).
Notation safe := (safe e pull_tag stores_ok).

Lemma safe_index {B} id (k : bool -> act B) : (forall b, (b = false -> was_missing id) -> safe (k b)) -> safe (index_has id ≫= k).
Proof using Hseen.
  intros Hk w x w' Hw. unfold index_has, mbind, act_bind, ask. destruct (VfsStore.assetExists (existing e) id) as [b| |] eqn:E; [|done..].
  apply Hk; [|done]. intros ->. by exists e.
Qed.

Lemma safe_missing l : safe (missing_loop l).
Proof using Hseen.
  induction l as [|id l IH]; cbn [missing_loop]; [apply safe_ret|]. apply safe_bind; [|intros _; exact IH]. case_bool; [|apply safe_ret].
  apply safe_index. intros b _. case_bool; [by apply safe_set_my|apply safe_ret].
Qed.

Lemma safe_batch fuel : forall n, safe (batch_loop fuel n).
Proof using Hseen.
  induction fuel as [|fuel IH]; intros n; cbn [batch_loop]; (apply safe_bind; [apply safe_my|]); intros q; destruct q as [|x q]; try apply safe_ret; [by apply safe_stuck|].
  apply safe_index. intros b Hb. case_bool; [apply safe_bind; [by apply safe_set_my|intros _; apply IH]|]. unfold svc.
  safe_open; first [by apply safe_set_my|apply IH|apply safe_getAsset; cbn; split_and!; [done..|by apply Hb]].
Qed.

Context (r : act unit) (Hr : safe r).

Ltac pull_safe := safe_open; first [by apply safe_set_my|apply safe_missing|apply safe_batch|idtac].

Lemma safe_next_list : safe (retrieveNextIdList r).
Proof using Hr. unfold retrieveNextIdList, setReplicationRestartTimer. pull_safe. Qed.

Lemma safe_respond cb a er m : (forall x, a = Some x -> exists u, (pull_tag cb ClientRequestMsg.RT_GET u \/ pull_tag cb ClientRequestMsg.RT_GET_DONTCACHE u) /\ Asset.getUUID x = Some u) ->
  safe (pull_respond r cb a er m).
Proof using Hseen Hr.
  intros Ha. destruct cb as [|id]; cbn [pull_respond].
  - unfold onGetStoredAssetIds. pull_safe; apply safe_next_list.
  - unfold onAssetRetrieved. pull_safe. apply safe_set_my. intros c Hc. destruct (Ha _ ltac:(eassumption)) as (u & Ht & Hu). apply Forall_app. split; [done|]. apply Forall_singleton.
    destruct Ht as [[? _]|(_ & -> & Hm)]; [done|]. by split.
Qed.

Lemma safe_failed t : safe (onServerConnectionFailed r t).
Proof using Hr. unfold onServerConnectionFailed, setReplicationRestartTimer. pull_safe. Qed.

Lemma safe_close_svc : safe (close_svc r).
Proof using Hseen Hr. unfold close_svc, svc. safe_open. apply safe_close; [apply safe_respond|apply safe_failed]. Qed.

Lemma safe_verify : safe (verifyConnection r).
Proof using Hseen Hr.
  assert (Hens : safe ensure_connected).
  { unfold ensure_connected, setSafekillCallback. safe_open; first [by apply safe_set_my|apply safe_connect]. }
  unfold verifyConnection. pull_safe; apply safe_close_svc.
Qed.

Lemma safe_ids : safe retrieveIdListForPrefix.
Proof using Type. unfold retrieveIdListForPrefix, svc, getStringPrefixForIndex. safe_open. by apply safe_getIds. Qed.

Lemma safe_body : safe (runStep_body r).
Proof using Hseen Hr.
  unfold runStep_body, replicateStep, retrieveNextMissingAssetBatch, checkResumeNextReplRound, setReplicationRestartTimer.
  pull_safe; first [apply safe_verify|apply safe_ids|apply safe_next_list].
Qed.

End in_env.

Lemma safe_runStep e n : seen e -> safe e pull_tag stores_ok (runStep n).
Proof using Type. intros He. induction n as [|n IH]; cbn [runStep]; [by apply safe_stuck|]. by apply safe_body. Qed.

(** Runs whose handlers read environments that have been seen. *)
Inductive pulls_in (ep : endpoint) (freq batch : Z) : world -> Prop :=
  | pulls_in_start : pulls_in ep freq batch (pull_start ep freq batch)
  | pulls_in_step w e l w' : pulls_in ep freq batch w -> seen e -> pull_step e w l = Some (Done (tt, w')) -> pulls_in ep freq batch w'.

Lemma step_tagged e w l w' : seen e -> tagged pull_tag stores_ok w -> pull_step e w l = Some (Done (tt, w')) -> tagged pull_tag stores_ok w'.
Proof using Type.
  intros He Hw. pose proof (safe_runStep e STEP_FUEL He) as Hrun.
  assert (Hdo : forall m : act unit, safe e pull_tag stores_ok m -> Some (m e w) = Some (Done (tt, w')) -> tagged pull_tag stores_ok w') by (intros m Hm [= E]; by apply (Hm w tt w')).
  destruct l; cbn [pull_step]; repeat case_match; try done; try (apply Hdo; try (by apply safe_set_my)).
  - unfold io_step. destruct (ops w !! n) as [x|]; [|done]. cbn [mbind option_bind]. case_bool; [|done]. intros [= E].
    refine (safe_complete e pull_tag stores_ok _ _ _ _ _ _ _ _ _ _ _ (mkWorld (heap w) (next_ptr w) (delete n (ops w)) (client w)) tt w' Hw E).
    + intros [|id] u u' Ht; [done|by destruct Ht].
    + intros. by apply safe_respond.
    + intros t b. unfold onServiceConnectionStatus. safe_open; by apply safe_set_my.
    + intros t. by apply safe_failed.
  - safe_open. by apply safe_set_my.
  - safe_open; [by apply safe_set_my|by apply safe_verify].
  - apply safe_set_my. intros c Hc. by apply Forall_delete.
  - unfold onAfterAssetStored. safe_open; by apply safe_set_my.
  - unfold doStop. safe_open; first [by apply safe_set_my|by apply safe_close_svc].
Qed.

(** C14. The service hands the back end only assets that carry the id they were asked for under, and it asks only for
    ids that the existence index did not have: a master cannot make it store anything else. *)
Theorem pull_stores_missing ep freq batch w a id : pulls_in ep freq batch w -> (a, id) ∈ storing (client w) ->
  Asset.getUUID a = Some id /\ exists e, seen e /\ VfsStore.assetExists (existing e) id = Ret false.
Proof using Type.
  intros Hw Hin. assert (Ht : tagged pull_tag stores_ok w).
  { clear Hin. induction Hw as [|w e l w' Hw IH He Hs]; [by split; [apply map_Forall_empty|apply Forall_nil]|]. by apply (step_tagged e w l w'). }
  destruct Ht as [_ Hs]. unfold stores_ok in Hs. rewrite Forall_forall in Hs. exact (Hs _ Hin).
Qed.

End fetched.

(** ** Concrete runs *)

(** Splitting at a character, decimal numbers, and addresses as they are written. *)
Fixpoint demo_split (c : Z) (s : list Z) : list (list Z) :=
  match s with
  | [] => [[]]
  | x :: s => if x =? c then [] :: demo_split c s else match demo_split c s with t :: ts => (x :: t) :: ts | [] => [[x]] end
  end.
Definition demo_ushort (s : list Z) : option Z :=
  match s with [] => None | _ => foldl (fun acc c => n ← acc; if (48 <=? c) && (c <=? 57) then Some (10 * n + (c - 48)) else None) (Some 0) s end.
#[export] Instance demo_boost : BoostParse := { split := demo_split; lexical_ushort := demo_ushort; from_string := Some }.

(** A run, as the environments and labels of its steps. *)
Fixpoint pull_exec `{BoostParse} (w : world pull_cb pull) (ls : list (env * pull_label)) : option (result (world pull_cb pull)) :=
  match ls with
  | [] => Some (Done w)
  | (e, l) :: ls =>
      match pull_step e w l with
      | Some (Done (_, w)) => pull_exec w ls
      | Some Undefined => Some Undefined
      | Some Uncaught => Some Uncaught
      | Some NoFuel => Some NoFuel
      | None => None
      end
  end.

Lemma pull_exec_pulls `{BoostParse} ep freq batch ls : forall w w', pulls ep freq batch w -> pull_exec w ls = Some (Done w') -> pulls ep freq batch w'.
Proof.
  induction ls as [|[e l] ls IH]; intros w w' Hw; cbn [pull_exec]; [by intros [= <-]|].
  destruct (pull_step e w l) as [[[[] w1]| | |]|] eqn:E; try done. apply IH. by eapply pulls_step.
Qed.

(** The master is "m:1", or there is none; the round starts at the last prefix. *)
Definition demo_master : endpoint := ([109], 1).
Definition demo_env : env := mkEnv [112] [109; 58; 49] [] 4095 ∅ 1000.
Definition no_master_env : env := mkEnv [112] [] [] 4095 ∅ 1000.
Definition demo_pull : world pull_cb pull := pull_start demo_master 720 1.

Definition with_env (e : env) (ls : list pull_label) : list (env * pull_label) := map (fun l => (e, l)) ls.
(** The thread starts and connects. *)
Definition demo_connect : list pull_label := [LRestart; LIo 0 true []; LIo 0 true (replicate 8 0); LIo 0 true []; LIo 0 true [1; 0]].
(** The request for the ids is written and answered: an empty list. *)
Definition demo_header (code : Z) (size : Z) : list Z := code :: replicate 32 48 ++ [0; 0; 0; size].
Definition demo_round : list pull_label := demo_connect ++ [LIo 0 true []; LIo 0 true (demo_header 13 0); LIo 0 true []].

Definition reached (r : option (result (world pull_cb pull))) : world pull_cb pull := match r with Some (Done w) => w | _ => demo_pull end.

(** After the only prefix of the round, with the service at address 0. *)
Definition demo_waiting : world pull_cb pull := Eval vm_compute in reached (pull_exec demo_pull (with_env demo_env demo_round)).
Definition demo_service : RemoteAssetService pull_cb := Eval vm_compute in default (new_service demo_master) (heap demo_waiting !! 0%nat).

Lemma pull_master_removed_witness : after no_master_env demo_waiting [LIo 0 false []; LExpireRestart; LRestart] = Some Undefined.
Proof. apply (pull_master_removed no_master_env demo_waiting 0 true 0 demo_service); [split|..]; reflexivity. Defined.

Definition demo_attempt : world pull_cb pull := Eval vm_compute in reached (pull_exec demo_pull (with_env demo_env [LRestart])).
Definition demo_new_service : RemoteAssetService pull_cb := Eval vm_compute in default (new_service demo_master) (heap demo_attempt !! 0%nat).

Lemma pull_stalls_witness : exists w1 w', after demo_env demo_attempt [LIo 0 false []; LExpireReconnect] = Some (Done (tt, w1)) /\ pull_step no_master_env w1 LReconnect = Some (Done (tt, w')) /\
  pull_step demo_env w' LRestart = None.
Proof.
  destruct (pull_stalls demo_env no_master_env demo_attempt 0 demo_new_service true) as (w1 & w' & H1 & H2 & _ & H4); [split; reflexivity|reflexivity|].
  exists w1, w'. split; [exact H1|]. split; [exact H2|]. destruct (pull_step demo_env w' LRestart) as [r|] eqn:E; [|reflexivity]. exfalso.
  vm_compute in H1. injection H1 as <-. vm_compute in H2. injection H2 as <-. vm_compute in E. discriminate.
Defined.

(** Connected at prefix 4095; the master knows one asset, which is in the index. *)
Definition known_env : env := mkEnv [112] [109; 58; 49] [] 4095 {[replicate 16 0]} 1000.
Definition demo_asking : world pull_cb pull := Eval vm_compute in reached (pull_exec demo_pull (with_env known_env demo_connect)).
Definition asking_service : RemoteAssetService pull_cb := Eval vm_compute in default (new_service demo_master) (heap demo_asking !! 0%nat).

Lemma pull_round_completes_witness : exists w' o', after known_env demo_asking (answer (replicate 32 48)) = Some (Done (tt, w')) /\ round_over known_env 0 o' w'.
Proof.
  destruct (pull_round_completes known_env 0 4095 asking_service demo_asking [] (replicate 32 48)) as (_ & H & _);
    [lia|split; first [reflexivity|left; reflexivity]|reflexivity| |exact H].
  apply Forall_singleton. split; [|reflexivity]. intros id Hid. vm_compute in Hid. apply list_elem_of_singleton in Hid as ->. right. vm_compute. reflexivity.
Defined.

Lemma pull_exec_in `{BoostParse} (seen : env -> Prop) ep freq batch e ls : seen e -> forall w w', pulls_in seen ep freq batch w -> pull_exec w (with_env e ls) = Some (Done w') -> pulls_in seen ep freq batch w'.
Proof.
  intros He. induction ls as [|l ls IH]; intros w w' Hw; cbn [with_env map pull_exec]; [by intros [= <-]|].
  destruct (pull_step e w l) as [[[[] w1]| | |]|] eqn:E; try done. apply IH. by eapply pulls_in_step.
Qed.

(** The master has the asset of [demo_asset], which is not in the index. *)
Definition demo_fetch : list pull_label := demo_connect ++ answer demo_id ++ [LIo 0 true []; LIo 0 true (demo_header 10 34); LIo 0 true demo_asset].

Lemma pull_stores_missing_witness : exists w, pull_exec demo_pull (with_env demo_env demo_fetch) = Some (Done w) /\ storing (client w) = [(demo_asset, demo_id)] /\
  Asset.getUUID demo_asset = Some demo_id /\ exists e, e = demo_env /\ VfsStore.assetExists (existing e) demo_id = Ret false.
Proof.
  assert (Hs : (fun r => match r with Done w => storing (client w) | _ => [] end) <$> pull_exec demo_pull (with_env demo_env demo_fetch) = Some [(demo_asset, demo_id)]) by (vm_compute; reflexivity).
  destruct (pull_exec demo_pull (with_env demo_env demo_fetch)) as [[w| | |]|] eqn:E; [|discriminate Hs..]. injection Hs as Hs. exists w. split; [reflexivity|]. split; [exact Hs|].
  apply (pull_stores_missing (fun e => e = demo_env) demo_master 720 1 w demo_asset demo_id); [|rewrite Hs; left].
  eapply (pull_exec_in (fun e => e = demo_env)); [reflexivity|apply pulls_in_start|exact E].
Defined.
