(* ===== verification/StdMap.v ===== *)
(** * StdMap: std::map with strings for keys

    The entries of a [std::map<std::string, A>] in the order of their keys, as an iterator visits them. *)
From S2P Require Import Prelude.
From stdpp Require Import list.
#[local] Open Scope Z_scope.

(** The order of [std::string]. *)
Fixpoint before (a b : list Z) : bool :=
  match a, b with
  | _, [] => false
  | [], _ :: _ => true
  | x :: a, y :: b => (x <? y) || ((x =? y) && before a b)
  end.

Section smap.
Context {A : Type}.
Implicit Types (k : list Z) (v : A) (m : list (list Z * A)).

(** [m[k] = v] *)
Fixpoint smap_insert k v m : list (list Z * A) :=
  match m with
  | [] => [(k, v)]
  | (k', v') :: m => if bool_decide (k' = k) then (k, v) :: m else if before k k' then (k, v) :: (k', v') :: m else (k', v') :: smap_insert k v m
  end.
Definition smap_find k m : option A := (fun x => x.2.2) <$> list_find (fun x => x.1 = k) m.
Definition smap_erase k m : list (list Z * A) := filter (fun x => x.1 <> k) m.
(** A change of the value of a key that is there. *)
Definition smap_alter (f : A -> A) k m : list (list Z * A) := map (fun x => if bool_decide (x.1 = k) then (x.1, f x.2) else x) m.

Lemma elem_of_smap_find k m v : smap_find k m = Some v -> (k, v) ∈ m.
Proof using Type.
  unfold smap_find. intros Hf. apply fmap_Some in Hf as ([i [k' v']] & Hfind & ->). apply list_find_Some in Hfind as (Hi & Hu & _). cbn in *. subst k'. by eapply list_elem_of_lookup_2.
Qed.

Lemma smap_find_None k m : smap_find k m = None -> k ∉ m.*1.
Proof using Type.
  unfold smap_find. intros Hf%fmap_None%list_find_None. intros ((k' & v) & -> & Hin)%list_elem_of_fmap. rewrite Forall_forall in Hf. by apply (Hf _ Hin).
Qed.

Lemma Forall_smap_erase (P : list Z * A -> Prop) k m : Forall P m -> Forall P (smap_erase k m).
Proof using Type. rewrite !Forall_forall. intros Hm x [_ Hx]%list_elem_of_filter. by apply Hm. Qed.
Lemma Forall_smap_insert (P : list Z * A -> Prop) k v m : Forall P m -> P (k, v) -> Forall P (smap_insert k v m).
Proof using Type.
  intros Hm Hk. induction Hm as [|[k' v'] m Hx Hm IH]; cbn; [by constructor|]. case_bool_decide; [by constructor|]. case_bool; repeat constructor; auto.
Qed.

(** A new key adds an entry. *)
Lemma smap_insert_new k v m : k ∉ m.*1 -> smap_insert k v m ≡ₚ (k, v) :: m.
Proof using Type.
  induction m as [|[k' v'] m IH]; cbn; [done|]. intros [Hne Hk]%not_elem_of_cons. rewrite bool_decide_false by congruence. destruct (before k k'); [done|]. rewrite IH by done. apply perm_swap.
Qed.

Lemma smap_erase_other k m : k ∉ m.*1 -> smap_erase k m = m.
Proof using Type.
  unfold smap_erase. induction m as [|[k' v'] m IH]; [done|]. intros [Hne Hk]%not_elem_of_cons. rewrite filter_cons_True by (cbn in *; congruence). by rewrite IH.
Qed.

(** A key that is there belongs to one entry. *)
Lemma smap_find_split k m v : NoDup m.*1 -> smap_find k m = Some v -> m ≡ₚ (k, v) :: smap_erase k m.
Proof using Type.
  intros Hnd Hf%elem_of_smap_find. unfold smap_erase. revert Hnd. induction m as [|[k' v'] m IH]; [by apply not_elem_of_nil in Hf|]. intros [Hk Hnd]%NoDup_cons.
  apply elem_of_cons in Hf as [[= <- <-]|Hf].
  - rewrite filter_cons_False by (cbn; auto). fold (smap_erase k m). by rewrite smap_erase_other.
  - assert (k' <> k) by (intros ->; apply Hk, list_elem_of_fmap; by exists (k, v)). rewrite filter_cons_True by done. rewrite (IH Hf Hnd) at 1. apply perm_swap.
Qed.

Lemma smap_alter_other f k m : k ∉ m.*1 -> smap_alter f k m = m.
Proof using Type.
  unfold smap_alter. induction m as [|[k' v'] m IH]; cbn; [done|]. intros [Hne Hk]%not_elem_of_cons. rewrite bool_decide_false by congruence. by rewrite IH.
Qed.

Lemma smap_alter_keys f k m : (smap_alter f k m).*1 = m.*1.
Proof using Type. unfold smap_alter. induction m as [|[k' v'] m IH]; cbn; [done|]. rewrite IH. by case_bool_decide. Qed.

Lemma smap_alter_split f k m v : NoDup m.*1 -> smap_find k m = Some v -> smap_alter f k m ≡ₚ (k, f v) :: smap_erase k m.
Proof using Type.
  intros Hnd Hf. rewrite <- (smap_alter_other f k (smap_erase k m)).
  - unfold smap_alter at 1. rewrite (smap_find_split k m v Hnd Hf) at 1. cbn. by rewrite bool_decide_true.
  - intros ((k' & v') & -> & Hin)%list_elem_of_fmap. unfold smap_erase in Hin. by apply list_elem_of_filter in Hin as [? _].
Qed.

Lemma smap_erase_NoDup k m : NoDup m.*1 -> NoDup (smap_erase k m).*1.
Proof using Type. intros Hm. eapply sublist_NoDup; [exact Hm|]. apply fmap_sublist, sublist_filter. Qed.

End smap.
