(* ===== verification/Act.v ===== *)
(** * Act: handlers as actions on a state

    The monad of the mesh services and of [WhipClient]: a handler reads its surroundings [E], changes the state [W], and
    ends normally, with undefined behaviour, with an exception that nothing catches, or without
    fuel.  [ends] is the judgement about a normal end: it demands that the fuel is
    enough, and says nothing about undefined behaviour and exceptions. *)
From S2P Require Import Prelude.
From stdpp Require Import list.

Inductive result (A : Type) := Done (a : A) | Undefined | Uncaught | NoFuel.
Arguments Done {A}.
Arguments Undefined {A}.
Arguments Uncaught {A}.
Arguments NoFuel {A}.

Definition act (E W A : Type) : Type := E -> W -> result (A * W).

#[export] Instance act_ret E W : MRet (act E W) := fun A a e w => Done (a, w).
#[export] Instance act_bind E W : MBind (act E W) := fun A B k m e w =>
  match m e w with Done (a, w) => k a e w | Undefined => Undefined | Uncaught => Uncaught | NoFuel => NoFuel end.

Section act.
Context {E W : Type}.
Implicit Types (e : E) (w : W).

Lemma act_bind_eq {A B} (m : act E W A) (k : A -> act E W B) e w :
  (m ≫= k) e w = match m e w with Done (a, w) => k a e w | Undefined => Undefined | Uncaught => Uncaught | NoFuel => NoFuel end.
Proof. done. Qed.

Definition undefined {A} : act E W A := fun _ _ => Undefined.
Definition uncaught {A} : act E W A := fun _ _ => Uncaught.
Definition out_of_fuel {A} : act E W A := fun _ _ => NoFuel.
(** A value, or an access outside an object. *)
Definition checked {A} (x : option A) : act E W A := match x with Some a => mret a | None => undefined end.
(** A value, or an exception. *)
Definition or_throw {A} (x : option A) : act E W A := match x with Some a => mret a | None => uncaught end.
Definition ask {A} (f : E -> A) : act E W A := fun e w => Done (f e, w).
Definition get {A} (f : W -> A) : act E W A := fun _ w => Done (f w, w).
Definition put (f : W -> W) : act E W unit := fun _ w => Done (tt, f w).

(** [BOOST_FOREACH] over a container that the body does not change. *)
Fixpoint for_each {A} (l : list A) (body : A -> act E W unit) : act E W unit :=
  match l with
  | [] => mret tt
  | x :: l => _ ← body x; for_each l body
  end.

Definition ends {A} (m : act E W A) e w (Q : A -> W -> Prop) : Prop :=
  match m e w with Done (a, w') => Q a w' | NoFuel => False | _ => True end.

Lemma acts_bind {A B} (m : act E W A) (k : A -> act E W B) e w Q : ends m e w (fun a w' => ends (k a) e w' Q) -> ends (m ≫= k) e w Q.
Proof. unfold ends. rewrite act_bind_eq. by destruct (m e w) as [[a w']| | |]. Qed.

Lemma acts_ret {A} (a : A) e w (Q : A -> W -> Prop) : Q a w -> ends (mret a) e w Q.
Proof. done. Qed.
Lemma acts_undefined {A} e w (Q : A -> W -> Prop) : ends undefined e w Q.
Proof. done. Qed.
Lemma acts_uncaught {A} e w (Q : A -> W -> Prop) : ends uncaught e w Q.
Proof. done. Qed.
Lemma acts_checked {A} (x : option A) e w (Q : A -> W -> Prop) : (forall a, x = Some a -> Q a w) -> ends (checked x) e w Q.
Proof. destruct x as [a|]; [|done]. intros HQ. by apply HQ. Qed.
Lemma acts_or_throw {A} (x : option A) e w (Q : A -> W -> Prop) : (forall a, x = Some a -> Q a w) -> ends (or_throw x) e w Q.
Proof. destruct x as [a|]; [|done]. intros HQ. by apply HQ. Qed.
Lemma acts_ask {A} (f : E -> A) e w (Q : A -> W -> Prop) : Q (f e) w -> ends (ask f) e w Q.
Proof. done. Qed.
Lemma acts_get {A} (f : W -> A) e w (Q : A -> W -> Prop) : Q (f w) w -> ends (get f) e w Q.
Proof. done. Qed.
Lemma acts_put f e w (Q : unit -> W -> Prop) : Q tt (f w) -> ends (put f) e w Q.
Proof. done. Qed.

Lemma acts_mono {A} (m : act E W A) e w (Q Q' : A -> W -> Prop) : ends m e w Q -> (forall a w', Q a w' -> Q' a w') -> ends m e w Q'.
Proof. unfold ends. destruct (m e w) as [[a w']| | |]; auto. Qed.

Lemma acts_for_each {A} (body : A -> act E W unit) (I : W -> Prop) l e w (Q : unit -> W -> Prop) :
  I w -> (forall x w, x ∈ l -> I w -> ends (body x) e w (fun _ => I)) -> (forall w, I w -> Q tt w) -> ends (for_each l body) e w Q.
Proof.
  intros Hw Hb HQ. revert w Hw. induction l as [|x l IH]; intros w Hw; [by apply acts_ret, HQ|]. apply acts_bind.
  eapply acts_mono; [apply Hb; [left|done]|]. intros [] w' Hw'. apply IH; [|done]. intros y w1 Hy. apply Hb. by right.
Qed.

(** Actions that need no fuel. *)
Definition fuel_free {A} (m : act E W A) : Prop := forall e w, m e w <> NoFuel.

Lemma total_bind {A B} (m : act E W A) (k : A -> act E W B) : fuel_free m -> (forall a, fuel_free (k a)) -> fuel_free (m ≫= k).
Proof. intros Hm Hk e w. rewrite act_bind_eq. specialize (Hm e w). destruct (m e w) as [[a w']| | |]; try done. apply Hk. Qed.
Lemma total_ret {A} (a : A) : fuel_free (mret a).
Proof. done. Qed.
Lemma total_ask {A} (f : E -> A) : fuel_free (ask f).
Proof. done. Qed.
Lemma total_get {A} (f : W -> A) : fuel_free (get f).
Proof. done. Qed.
Lemma total_put f : fuel_free (put f).
Proof. done. Qed.
Lemma total_checked {A} (x : option A) : fuel_free (checked x).
Proof. by destruct x. Qed.
Lemma total_or_throw {A} (x : option A) : fuel_free (or_throw x).
Proof. by destruct x. Qed.

End act.

Create HintDb fuel discriminated.
#[export] Hint Resolve total_ret total_ask total_get total_put total_checked total_or_throw : fuel.
Ltac total_open :=
  repeat lazymatch goal with
  | |- fuel_free (mbind _ _) => apply total_bind; [|intro]
  | |- fuel_free (if ?b then _ else _) => destruct b
  | |- fuel_free (match ?x with _ => _ end) => destruct x
  end; auto with fuel.
