(* ===== verification/MeshQuery.v ===== *)
(** * MeshQuery: the server that answers queries of the mesh

    Models [IntraMeshQueryClient] ([src/whip-server/whip/IntraMeshQueryClient.cpp]) and the part of
    [IntraMeshService] that accepts its connections and sends its heartbeats.

    A client object lives as long as it is in [_connectedClients]; its asynchronous operations hold
    its address, and a handler that runs without the object is [Undefined].  The io service owes
    the completion of the operations in [ops]; the flag of an operation tells whether its socket was
    open when it was started.  [wire] lists what was given to the sockets: the item, and how
    many of its bytes the socket took ([async_send] may take fewer than all; zero is an error).  An
    exception that leaves a handler ends the process ([Uncaught]).
    The storage answers from the existence index of [VfsStore], the peers come from
    [WhipSettings].  Log messages and buffer sizes are left out. *)
From S2P Require Import Prelude Sha1 WhipWire Uuid WhipSettings VfsData VfsStore Act.
From stdpp Require Import list gmap.
#[local] Open Scope Z_scope.

(** ** State *)

(** The handler of a completed send. *)
Inductive sent := AfterSendQueryResponse | AfterSendHeartbeat.
#[export] Instance sent_eq_dec : EqDecision sent.
Proof. solve_decision. Defined.

Record IQCSendItem := mkItem { message : list Z; callBack : sent }.

Record IntraMeshQueryClient := mkClient { _conn : bool; _sendActive : bool; _recvActive : bool; _pendingSends : list IQCSendItem }.

Inductive op := Accepting | Receiving (this : nat) | Sending (this : nat) (item : IQCSendItem).

Record world := mkWorld {
  _connectedClients : gmap nat IntraMeshQueryClient; next_ptr : nat; ops : list (bool * op); wire : list (nat * IQCSendItem * nat);
  _meshReqSinceLastPoll : Z; _positiveRespSinceLastPoll : Z; _stop : bool }.

(** What a handler reads from the rest of the server. *)
Record env := mkEnv { existing : gset (list Z); intramesh_peers : list Z; is_writable : bool }.

#[local] Notation act := (act env world).

Definition set_clients (f : gmap nat IntraMeshQueryClient -> gmap nat IntraMeshQueryClient) (w : world) : world :=
  mkWorld (f (_connectedClients w)) (next_ptr w) (ops w) (wire w) (_meshReqSinceLastPoll w) (_positiveRespSinceLastPoll w) (_stop w).
Definition set_ops (f : list (bool * op) -> list (bool * op)) (w : world) : world :=
  mkWorld (_connectedClients w) (next_ptr w) (f (ops w)) (wire w) (_meshReqSinceLastPoll w) (_positiveRespSinceLastPoll w) (_stop w).

(** [this->field] *)
Definition fld {A} (this : nat) (f : IntraMeshQueryClient -> A) : act A := fun _ w =>
  match _connectedClients w !! this with Some o => Done (f o, w) | None => Undefined end.
Definition set_fld (this : nat) (f : IntraMeshQueryClient -> IntraMeshQueryClient) : act unit := fun _ w =>
  match _connectedClients w !! this with Some o => Done (tt, set_clients <[this := f o]> w) | None => Undefined end.
Definition set_conn (b : bool) (o : IntraMeshQueryClient) := mkClient b (_sendActive o) (_recvActive o) (_pendingSends o).
Definition set_send (b : bool) (o : IntraMeshQueryClient) := mkClient (_conn o) b (_recvActive o) (_pendingSends o).
Definition set_recv (b : bool) (o : IntraMeshQueryClient) := mkClient (_conn o) (_sendActive o) b (_pendingSends o).
Definition set_pending (q : list IQCSendItem) (o : IntraMeshQueryClient) := mkClient (_conn o) (_sendActive o) (_recvActive o) q.
Definition async (this : nat) (o : op) : act unit := open ← fld this _conn; put (set_ops (fun os => os ++ [(open, o)])).

(** ** IntraMeshQueryClient *)

Definition new_client : IntraMeshQueryClient := mkClient true false false [].

Definition listenForMeshMessage (this : nat) : act unit := _ ← set_fld this (set_recv true); async this (Receiving this).

Definition connectionActive (this : nat) : act bool := s ← fld this _sendActive; r ← fld this _recvActive; mret (s || r).

Definition queryClientDisconnected (client : nat) : act unit := put (set_clients (delete client)).

Definition close (this : nat) : act unit :=
  _ ← set_fld this (set_conn false);
  active ← connectionActive this;
  if negb active then queryClientDisconnected this else mret tt.

Definition send_item (this : nat) (item : IQCSendItem) : act unit :=
  active ← fld this _sendActive;
  if negb active then _ ← set_fld this (set_send true); async this (Sending this item)
  else set_fld this (fun o => set_pending (_pendingSends o ++ [item]) o).

Definition sendQueryResponse (this : nat) (outbound : list Z) : act unit := send_item this (mkItem outbound AfterSendQueryResponse).

Definition addMeshRequestStat : act unit := put (fun w =>
  mkWorld (_connectedClients w) (next_ptr w) (ops w) (wire w) (i32 (_meshReqSinceLastPoll w + 1)) (_positiveRespSinceLastPoll w) (_stop w)).
Definition addPositiveMeshRequestStat : act unit := put (fun w =>
  mkWorld (_connectedClients w) (next_ptr w) (ops w) (wire w) (_meshReqSinceLastPoll w) (i32 (_positiveRespSinceLastPoll w + 1)) (_stop w)).

Definition sendAssetFound (this : nat) (inboundMsg : list Z) : act unit :=
  _ ← addPositiveMeshRequestStat;
  uuid ← checked (IntraMeshMsg.getAssetUUID inboundMsg);
  sendQueryResponse this (IntraMeshMsg.response uuid IntraMeshMsg.QR_FOUND).

Definition sendAssetNotFound (this : nat) (inboundMsg : list Z) : act unit :=
  uuid ← checked (IntraMeshMsg.getAssetUUID inboundMsg);
  sendQueryResponse this (IntraMeshMsg.response uuid IntraMeshMsg.QR_NOTFOUND).

Definition sendAssetError (this : nat) (inboundMsg : list Z) : act unit :=
  uuid ← checked (IntraMeshMsg.getAssetUUID inboundMsg);
  sendQueryResponse this (IntraMeshMsg.response uuid IntraMeshMsg.QR_ERROR).

Definition processMeshQuery (this : nat) (inboundMsg : list Z) : act unit :=
  uuid ← checked (IntraMeshMsg.getAssetUUID inboundMsg);
  index ← ask existing;
  match assetExists index uuid with
  | Ret true => sendAssetFound this inboundMsg
  | Ret false => sendAssetNotFound this inboundMsg
  | Throw _ => sendAssetError this inboundMsg
  | Fault => undefined
  end.

Definition processIntrameshMessage (this : nat) (inboundMsg : list Z) : act unit :=
  ok ← checked (IntraMeshMsg.validate inboundMsg);
  if ok : bool then
    _ ← addMeshRequestStat;
    t ← checked (IntraMeshMsg.getRequestType inboundMsg);
    if t =? IntraMeshMsg.MESH_QUERY then processMeshQuery this inboundMsg else close this
  else close this.

Definition onMeshMessageReceived (this : nat) (error : bool) (inboundMsg : list Z) : act unit :=
  _ ← set_fld this (set_recv false);
  if negb error && (0 <? length inboundMsg)%nat then processIntrameshMessage this inboundMsg else close this.

Definition processQueuedSend (this : nat) : act unit :=
  q ← fld this _pendingSends;
  match q with
  | [] => mret tt
  | item :: rest =>
      _ ← set_fld this (set_send true);
      _ ← async this (Sending this item);
      set_fld this (set_pending rest)
  end.

Definition onAfterSendQueryResponse (this : nat) (error : bool) (bytesSent : nat) : act unit :=
  _ ← set_fld this (set_send false);
  if negb error && (0 <? bytesSent)%nat then
    _ ← listenForMeshMessage this;
    processQueuedSend this
  else close this.

Definition onAfterSendHeartbeat (this : nat) (error : bool) (bytesSent : nat) : act unit :=
  _ ← set_fld this (set_send false);
  if negb error && (0 <? bytesSent)%nat then processQueuedSend this else close this.

Definition sendHeartbeat (this : nat) (flags : Z) : act unit :=
  outbound ← checked (IntraMeshMsg.heartbeat flags);
  send_item this (mkItem outbound AfterSendHeartbeat).

(** ** IntraMeshService: its clients *)

Section service.
Context `{BoostParse}.

Definition HB_ONLINE : Z := 1.
Definition HB_READABLE : Z := 2.
Definition HB_WRITABLE : Z := 4.

Definition generateHeartBeatFlags : act Z :=
  let flags := Z.lor HB_ONLINE HB_READABLE in
  writable ← ask is_writable;
  mret (if writable : bool then Z.lor flags HB_WRITABLE else flags).

Fixpoint heartbeat_loop (clients : list nat) (flags : Z) : act unit :=
  match clients with
  | [] => mret tt
  | c :: clients => _ ← sendHeartbeat c flags; heartbeat_loop clients flags
  end.

(** The part of [doHeartBeat] that serves the clients. *)
Definition heartbeat_clients : act unit :=
  hbFlags ← generateHeartBeatFlags;
  clients ← get (fun w => (map_to_list (_connectedClients w)).*1);
  heartbeat_loop clients hbFlags.

Definition acceptNextClient : act unit := put (set_ops (fun os => os ++ [(true, Accepting)])).

Definition isServerTrusted (address : list Z) : act bool :=
  setting ← ask intramesh_peers;
  peers ← or_throw (intraMeshPeers setting);
  mret (existsb (fun peer => bool_decide (Host peer = address)) peers).

(** [start] asks for the remote endpoint again, which throws when the connection is gone. *)
Definition start (this : nat) (still_there : bool) : act unit :=
  if still_there then listenForMeshMessage this else uncaught.

Definition welcome (still_there : bool) : act unit :=
  client ← get next_ptr;
  _ ← put (fun w => mkWorld (<[client := new_client]> (_connectedClients w)) (S client) (ops w) (wire w) (_meshReqSinceLastPoll w) (_positiveRespSinceLastPoll w) (_stop w));
  start client still_there.

(** The object that the connection was accepted for; without trust nothing keeps it. *)
Definition handleAfterAccept (error : bool) (remote_address : option (list Z)) (still_there : bool) : act unit :=
  if negb error then
    address ← or_throw remote_address;
    trusted ← isServerTrusted address;
    _ ← (if trusted : bool then welcome still_there else mret tt);
    acceptNextClient
  else
    stop ← get _stop;
    if negb stop then acceptNextClient else mret tt.

Definition stop : act unit := put (fun w => mkWorld (_connectedClients w) (next_ptr w) (ops w) (wire w) (_meshReqSinceLastPoll w) (_positiveRespSinceLastPoll w) true).

(** ** Steps *)

Inductive label :=
  | LAccept (n : nat) (error : bool) (remote_address : option (list Z)) (still_there : bool)
  | LReceive (n : nat) (ok : bool) (data : list Z)
  | LSend (n : nat) (bytesSent : nat)
  | LHeartbeat
  | LStop.

(** What a completed send leaves: the log of the wire, and the handler. *)
Definition complete_send (this : nat) (item : IQCSendItem) (bytesSent : nat) : act unit :=
  _ ← put (fun w => mkWorld (_connectedClients w) (next_ptr w) (ops w) (wire w ++ [(this, item, bytesSent)]) (_meshReqSinceLastPoll w) (_positiveRespSinceLastPoll w) (_stop w));
  match callBack item with
  | AfterSendQueryResponse => onAfterSendQueryResponse this (bytesSent =? 0)%nat bytesSent
  | AfterSendHeartbeat => onAfterSendHeartbeat this (bytesSent =? 0)%nat bytesSent
  end.

(** [None] is a step that is not possible. *)
Definition step (e : env) (w : world) (l : label) : option (result (unit * world)) :=
  let taken n := set_ops (delete n) w in
  match l with
  | LAccept n error a s => match ops w !! n with Some (_, Accepting) => Some (handleAfterAccept error a s e (taken n)) | _ => None end
  | LReceive n ok data =>
      match ops w !! n with
      | Some (live, Receiving this) =>
          if implb ok live && (length data =? if ok then IntraMeshMsg.MAX_PACKET else 0)%nat then Some (onMeshMessageReceived this (negb ok) data e (taken n)) else None
      | _ => None
      end
  | LSend n k =>
      match ops w !! n with
      | Some (live, Sending this item) =>
          if (live || (k =? 0)%nat) && (k <=? length (message item))%nat then Some (complete_send this item k e (taken n)) else None
      | _ => None
      end
  | LHeartbeat => Some (heartbeat_clients e w)
  | LStop => Some (stop e w)
  end.

(** The service after [start]. *)
Definition started : world := mkWorld ∅ 0 [(true, Accepting)] [] 0 0 false.

(** Runs of the service, with what happened, the latest first: the label, the state it happened in
    and the surroundings. *)
Inductive runs : list (env * world * label) -> world -> Prop :=
  | runs_start : runs [] started
  | runs_step tr w e l w' : runs tr w -> step e w l = Some (Done (tt, w')) -> runs ((e, w, l) :: tr) w'.

End service.

(** The handlers have no loops but the one over the clients. *)
Lemma total_fld {A} this (f : IntraMeshQueryClient -> A) : fuel_free (fld this f).
Proof. intros e w. unfold fld. by destruct (_ !! _). Qed.
Lemma total_set_fld this f : fuel_free (set_fld this f).
Proof. intros e w. unfold set_fld. by destruct (_ !! _). Qed.
#[export] Hint Resolve total_fld total_set_fld : fuel.

Lemma total_send_item this item : fuel_free (send_item this item).
Proof. unfold send_item, async. total_open. Qed.
Lemma total_close this : fuel_free (close this).
Proof. unfold close, connectionActive, queryClientDisconnected. total_open. Qed.
#[export] Hint Resolve total_send_item total_close : fuel.

Lemma total_received this err d : fuel_free (onMeshMessageReceived this err d).
Proof.
  unfold onMeshMessageReceived, processIntrameshMessage, processMeshQuery, sendAssetFound, sendAssetNotFound, sendAssetError, addMeshRequestStat, addPositiveMeshRequestStat, sendQueryResponse. total_open. done.
Qed.
Lemma total_sent this item n : fuel_free (complete_send this item n).
Proof. unfold complete_send, onAfterSendQueryResponse, onAfterSendHeartbeat, listenForMeshMessage, processQueuedSend, async. total_open. Qed.
Lemma total_heartbeats : fuel_free heartbeat_clients.
Proof.
  unfold heartbeat_clients, generateHeartBeatFlags. total_open. generalize a0. clear. intros l. induction l; cbn [heartbeat_loop]; [auto with fuel|]. unfold sendHeartbeat. total_open.
Qed.

Lemma step_total `{BoostParse} e w l : step e w l <> Some NoFuel.
Proof.
  assert (Hsome : forall m : act unit, fuel_free m -> forall w, Some (m e w) <> Some NoFuel) by (intros m Hm w' [= E]; by apply (Hm e w')).
  destruct l as [n er a s|n ok d|n k| |]; cbn; [| | |by apply Hsome, total_heartbeats|done]; destruct (ops w !! n) as [[live []]|]; try done.
  - apply Hsome. unfold handleAfterAccept, isServerTrusted, welcome, start, listenForMeshMessage, async, acceptNextClient. total_open. done.
  - destruct (_ && _); [|done]. apply Hsome, total_received.
  - destruct (_ && _); [|done]. apply Hsome, total_sent.
Qed.

(** ** What a client sees *)

(** The answer to a message, when it is a query. *)
Definition reply_to (e : env) (data : list Z) : option (list Z) :=
  if bool_decide (IntraMeshMsg.validate data = Some true) && bool_decide (IntraMeshMsg.getRequestType data = Some IntraMeshMsg.MESH_QUERY) then
    u ← IntraMeshMsg.getAssetUUID data;
    Some (IntraMeshMsg.response u (if bool_decide (octets u ∈ existing e) then IntraMeshMsg.QR_FOUND else IntraMeshMsg.QR_NOTFOUND))
  else None.

(** The message that a step delivers to a client. *)
Definition delivered_to (c : nat) (x : env * world * label) : option (env * list Z) :=
  match x.2 with
  | LReceive n true data => match ops x.1.2 !! n with Some (_, Receiving d) => if decide (c = d) then Some (x.1.1, data) else None | _ => None end
  | _ => None
  end.
Definition received (c : nat) (tr : list (env * world * label)) : list (env * list Z) := reverse (omap (delivered_to c) tr).
Definition answers (c : nat) (tr : list (env * world * label)) : list (list Z) := omap (fun x => reply_to x.1 x.2) (received c tr).

(** The responses among items, what is on its way to a client, and whether it is read from. *)
Definition response_of (i : IQCSendItem) : option (list Z) := match callBack i with AfterSendQueryResponse => Some (message i) | AfterSendHeartbeat => None end.
Definition responses (q : list IQCSendItem) : list (list Z) := omap response_of q.
Definition written (c : nat) (w : world) : list IQCSendItem := omap (fun x => if decide (c = x.1.1) then Some x.1.2 else None) (wire w).
Definition sending_to (c : nat) (x : bool * op) : option IQCSendItem := match x.2 with Sending d i => if decide (c = d) then Some i else None | _ => None end.
Definition in_flight (c : nat) (w : world) : list IQCSendItem := omap (sending_to c) (ops w).
Definition reading_from (c : nat) (x : bool * op) : option unit := match x.2 with Receiving d => if decide (c = d) then Some tt else None | _ => None end.
Definition reads (c : nat) (w : world) : nat := length (omap (reading_from c) (ops w)).

(** ** The invariant of a client *)

Record view := mkView { v_client : option IntraMeshQueryClient; v_reads : nat; v_flight : list IQCSendItem; v_written : list (list Z) }.
Definition view_of (c : nat) (w : world) : view := mkView (_connectedClients w !! c) (reads c w) (in_flight c w) (responses (written c w)).

Definition good (owed : list (list Z)) (v : view) : Prop :=
  match v_client v with
  | Some o =>
      let due := responses (v_flight v) ++ responses (_pendingSends o) in
      v_reads v = (if _recvActive o then 1 else 0)%nat /\ length (v_flight v) = (if _sendActive o then 1 else 0)%nat /\
      (_conn o = true -> _sendActive o = false -> _pendingSends o = []) /\
      v_written v ++ due = owed /\ (length due + v_reads v <= 1)%nat /\ (_conn o = true -> (length due + v_reads v)%nat = 1%nat)
  | None => v_reads v = 0%nat /\ v_flight v = [] /\ exists rest, v_written v ++ rest = owed
  end.

Definition inv (tr : list (env * world * label)) (w : world) : Prop :=
  (forall c, good (answers c tr) (view_of c w)) /\
  (forall c, (next_ptr w <= c)%nat -> view_of c w = mkView None 0 [] [] /\ answers c tr = []).

(** How the primitive operations change the views. *)
Section views.
Context (c d : nat) (w : world).

Lemma view_insert o : view_of c (set_clients <[d := o]> w) = if decide (c = d) then mkView (Some o) (reads c w) (in_flight c w) (responses (written c w)) else view_of c w.
Proof. unfold view_of. cbn. destruct (decide (c = d)) as [->|]; [by rewrite lookup_insert_eq|by rewrite lookup_insert_ne]. Qed.

Lemma view_delete : view_of c (set_clients (delete d) w) = if decide (c = d) then mkView None (reads c w) (in_flight c w) (responses (written c w)) else view_of c w.
Proof. unfold view_of. cbn. destruct (decide (c = d)) as [->|]; [by rewrite lookup_delete_eq|by rewrite lookup_delete_ne]. Qed.

Lemma view_add_op b o : view_of c (set_ops (fun os => os ++ [(b, o)]) w) =
  mkView (_connectedClients w !! c) (reads c w + length (option_list (reading_from c (b, o)))) (in_flight c w ++ option_list (sending_to c (b, o))) (responses (written c w)).
Proof. unfold view_of, reads, in_flight. cbn. rewrite !omap_app, length_app. cbn [omap list_omap]. by destruct (reading_from c (b, o)), (sending_to c (b, o)). Qed.

Lemma omap_delete {A B} (f : A -> option B) (l : list A) (n : nat) x : l !! n = Some x -> omap f l ≡ₚ option_list (f x) ++ omap f (delete n l).
Proof. intros Hn. rewrite (delete_Permutation _ _ _ Hn) at 1. cbn. by destruct (f x). Qed.

Lemma omap_delete_none {A B} (f : A -> option B) (l : list A) (n : nat) x : l !! n = Some x -> f x = None -> omap f (delete n l) = omap f l.
Proof. intros Hn Hx. rewrite <- (take_drop_middle _ _ _ Hn) at 2. rewrite delete_take_drop, !omap_app. cbn. by rewrite Hx. Qed.

Lemma omap_delete_one {A B} (f : A -> option B) (l : list A) (n : nat) x y : l !! n = Some x -> f x = Some y -> (length (omap f l) <= 1)%nat -> omap f l = [y] /\ omap f (delete n l) = [].
Proof.
  intros Hn Hx Hlen. pose proof (omap_delete f _ _ _ Hn) as Hp. rewrite Hx in Hp. cbn in Hp. rewrite (Permutation_length Hp) in Hlen. cbn in Hlen.
  destruct (omap f (delete n l)); [|cbn in Hlen; lia]. split; [|done]. by apply Permutation_length_1_inv, symmetry.
Qed.

Lemma reads_take n x : ops w !! n = Some x -> reads c w = (length (option_list (reading_from c x)) + reads c (set_ops (delete n) w))%nat.
Proof using Type. intros Hn. unfold reads. rewrite (omap_delete _ _ _ _ Hn), length_app. done. Qed.

(** An operation that is not of this client. *)
Lemma view_take n x : ops w !! n = Some x -> reading_from c x = None -> sending_to c x = None -> view_of c (set_ops (delete n) w) = view_of c w.
Proof using Type.
  intros Hn Hr Hs. unfold view_of, reads, in_flight. cbn. by rewrite (omap_delete_none _ _ _ _ Hn Hr), (omap_delete_none _ _ _ _ Hn Hs).
Qed.

End views.

(** ** Reasoning about the handlers of one client *)

(** A handler is not [Undefined], changes no other client, and leaves [Q] about its own. *)
Definition frames (c : nat) (w w' : world) : Prop := next_ptr w' = next_ptr w /\ forall d, d <> c -> view_of d w' = view_of d w.
Definition leads (c : nat) {A} (m : act A) (e : env) (v : view) (Q : A -> view -> Prop) : Prop :=
  forall w, view_of c w = v -> match m e w with Done (a, w') => frames c w w' /\ Q a (view_of c w') | Uncaught => True | _ => False end.

#[export] Instance frames_preorder c : PreOrder (frames c).
Proof.
  split; [by intros w|]. intros w1 w2 w3 [H1 H2] [H3 H4]. split; [congruence|]. intros d Hd. by rewrite (H4 d Hd), (H2 d Hd).
Qed.

Section leads.
Context (c : nat) (e : env).
Implicit Type v : view.

Lemma leads_bind {A B} (m : act A) (k : A -> act B) v Q : leads c m e v (fun a v' => leads c (k a) e v' Q) -> leads c (m ≫= k) e v Q.
Proof.
  intros Hm w Hv. specialize (Hm w Hv). unfold mbind, act_bind. destruct (m e w) as [[a w1]| | |]; [|done..]. destruct Hm as [Hf Hm].
  specialize (Hm w1 eq_refl). destruct (k a e w1) as [[b w2]| | |]; [|done..]. destruct Hm as [Hf' HQ]. split; [by trans w1|done].
Qed.

Lemma leads_ret {A} (a : A) v (Q : A -> view -> Prop) : Q a v -> leads c (mret a) e v Q.
Proof. intros HQ w <-. done. Qed.

Lemma leads_fld {A} (f : IntraMeshQueryClient -> A) v o (Q : A -> view -> Prop) : v_client v = Some o -> Q (f o) v -> leads c (fld c f) e v Q.
Proof. intros Ho HQ w <-. cbn in Ho. unfold fld. by rewrite Ho. Qed.

Lemma leads_set_fld f v o (Q : unit -> view -> Prop) :
  v_client v = Some o -> Q tt (mkView (Some (f o)) (v_reads v) (v_flight v) (v_written v)) -> leads c (set_fld c f) e v Q.
Proof.
  intros Ho HQ w <-. cbn in Ho. unfold set_fld. rewrite Ho. split; [|by rewrite view_insert, decide_True].
  split; [done|]. intros d Hd. by rewrite view_insert, decide_False.
Qed.

Lemma leads_disconnect v (Q : unit -> view -> Prop) :
  Q tt (mkView None (v_reads v) (v_flight v) (v_written v)) -> leads c (queryClientDisconnected c) e v Q.
Proof.
  intros HQ w <-. unfold queryClientDisconnected, put. split; [|by rewrite view_delete, decide_True].
  split; [done|]. intros d Hd. by rewrite view_delete, decide_False.
Qed.

Lemma leads_add_op b o v (Q : unit -> view -> Prop) : (forall d, d <> c -> reading_from d (b, o) = None /\ sending_to d (b, o) = None) ->
  Q tt (mkView (v_client v) (v_reads v + length (option_list (reading_from c (b, o)))) (v_flight v ++ option_list (sending_to c (b, o))) (v_written v)) ->
  leads c (put (set_ops (fun os => os ++ [(b, o)]))) e v Q.
Proof.
  intros Ho HQ w <-. unfold put. split; [|by rewrite view_add_op].
  split; [done|]. intros d Hd. rewrite view_add_op. destruct (Ho d Hd) as [-> ->]. cbn. by rewrite Nat.add_0_r, app_nil_r.
Qed.

Lemma leads_receive v o (Q : unit -> view -> Prop) :
  v_client v = Some o -> Q tt (mkView (Some o) (v_reads v + 1) (v_flight v) (v_written v)) -> leads c (async c (Receiving c)) e v Q.
Proof.
  intros Ho HQ. apply leads_bind, (leads_fld _ _ o); [done|]. apply leads_add_op; cbn.
  - intros d Hd. by rewrite decide_False.
  - by rewrite decide_True, app_nil_r, Ho.
Qed.

Lemma leads_send i v o (Q : unit -> view -> Prop) :
  v_client v = Some o -> Q tt (mkView (Some o) (v_reads v) (v_flight v ++ [i]) (v_written v)) -> leads c (async c (Sending c i)) e v Q.
Proof.
  intros Ho HQ. apply leads_bind, (leads_fld _ _ o); [done|]. apply leads_add_op; cbn.
  - intros d Hd. by rewrite decide_False.
  - by rewrite decide_True, Nat.add_0_r, Ho.
Qed.

Lemma leads_put f v (Q : unit -> view -> Prop) : (forall w d, view_of d (f w) = view_of d w) -> (forall w, next_ptr (f w) = next_ptr w) -> Q tt v -> leads c (put f) e v Q.
Proof. intros Hv Hn HQ w <-. unfold put. rewrite Hv. done. Qed.

Lemma leads_ask {A} (f : env -> A) v (Q : A -> view -> Prop) : Q (f e) v -> leads c (ask f) e v Q.
Proof. by intros HQ w <-. Qed.

Lemma leads_checked {A} (x : option A) a v (Q : A -> view -> Prop) : x = Some a -> Q a v -> leads c (checked x) e v Q.
Proof. by intros -> HQ w <-. Qed.

Lemma leads_mono {A} (m : act A) v (Q Q' : A -> view -> Prop) : leads c m e v Q -> (forall a v', Q a v' -> Q' a v') -> leads c m e v Q'.
Proof. intros Hm HQ w Hv. specialize (Hm w Hv). destruct (m e w) as [[a w']| | |]; [|done..]. destruct Hm as [? Hm]. split; [done|by apply HQ]. Qed.

End leads.

(** Runs a handler on the view of its client. *)
Ltac leads_step :=
  lazymatch goal with
  | |- leads _ (mbind _ _) _ _ _ => apply leads_bind
  | |- leads _ (mret _) _ _ _ => apply leads_ret
  | |- leads _ (fld _ _) _ _ _ => eapply leads_fld; [reflexivity|]
  | |- leads _ (set_fld _ _) _ _ _ => eapply leads_set_fld; [reflexivity|]
  | |- leads _ (async _ (Receiving _)) _ _ _ => eapply leads_receive; [reflexivity|]
  | |- leads _ (async _ (Sending _ _)) _ _ _ => eapply leads_send; [reflexivity|]
  | |- leads _ (queryClientDisconnected _) _ _ _ => apply leads_disconnect
  | |- leads _ (ask _) _ _ _ => apply leads_ask
  end; cbv beta iota delta [v_client v_reads v_flight v_written set_conn set_send set_recv set_pending _conn _sendActive _recvActive _pendingSends negb].
Ltac leads_steps := repeat leads_step.

(** ** The handlers keep the invariant *)

Section handlers.
Context (c : nat) (e : env).

Lemma close_good (cn s r : bool) q n fl wr owed : n = (if r then 1 else 0)%nat -> length fl = (if s then 1 else 0)%nat ->
  (length (responses fl ++ responses q) + n <= 1)%nat -> wr ++ responses fl ++ responses q = owed ->
  leads c (close c) e (mkView (Some (mkClient cn s r q)) n fl wr) (fun (_ : unit) => good owed).
Proof.
  intros Hn Hfl Hlen Howed. unfold close, connectionActive. leads_steps. destruct (s || r) eqn:E; cbn [negb]; leads_steps; unfold good; cbn [v_client v_reads v_flight v_written].
  - by split_and!.
  - apply orb_false_elim in E as [-> ->]. split_and!; [done|by destruct fl|]. by eexists.
Qed.

(** A query is answered according to the index. *)
Lemma reply_query data u : length data = IntraMeshMsg.MAX_PACKET -> IntraMeshMsg.validate data = Some true -> IntraMeshMsg.getRequestType data = Some IntraMeshMsg.MESH_QUERY ->
  IntraMeshMsg.getAssetUUID data = Some u ->
  IsValidUUID u = true /\ reply_to e data = Some (IntraMeshMsg.response u (if bool_decide (octets u ∈ existing e) then IntraMeshMsg.QR_FOUND else IntraMeshMsg.QR_NOTFOUND)).
Proof.
  intros Hlen Hval Htype Hu. split.
  - unfold IntraMeshMsg.validate in Hval. rewrite Htype in Hval. cbn [mbind option_bind] in Hval. rewrite Hlen in Hval. cbn in Hval. rewrite Hu in Hval. by injection Hval.
  - unfold reply_to. rewrite !bool_decide_true by done. by rewrite Hu.
Qed.

Lemma reply_other data : IntraMeshMsg.validate data <> Some true \/ IntraMeshMsg.getRequestType data <> Some IntraMeshMsg.MESH_QUERY -> reply_to e data = None.
Proof. intros Hno. unfold reply_to. destruct Hno; [rewrite (bool_decide_false (_ = Some true)) by done; done|by rewrite (bool_decide_false (IntraMeshMsg.getRequestType _ = _)), andb_false_r by done]. Qed.

Lemma message_parts data : length data = IntraMeshMsg.MAX_PACKET ->
  exists t u ok, IntraMeshMsg.getRequestType data = Some t /\ IntraMeshMsg.getAssetUUID data = Some u /\ IntraMeshMsg.validate data = Some ok.
Proof.
  intros Hlen. destruct data as [|t data]; [done|]. cbn in Hlen.
  assert (Hu : IntraMeshMsg.getAssetUUID (t :: data) = Some (take 32 data)).
  { unfold IntraMeshMsg.getAssetUUID, bytes_at. rewrite (proj2 (Nat.leb_le _ _)) by (cbn; unfold UUID_LEN, IntraMeshMsg.HEARTBEAT_FLAGS_LOC; unfold IntraMeshMsg.MAX_PACKET in Hlen; lia). done. }
  assert (exists ok, IntraMeshMsg.validate (t :: data) = Some ok) as [ok Hok]; [|by exists t, (take 32 data), ok].
  unfold IntraMeshMsg.validate. rewrite Hu. cbn [IntraMeshMsg.getRequestType lookup list_lookup mbind option_bind length].
  rewrite (proj2 (Nat.eqb_eq _ _) Hlen). repeat case_bool; by eexists.
Qed.

(** The first response after a read. *)
Lemma respond_good m (cn s : bool) q fl wr owed : length fl = (if s then 1 else 0)%nat -> (cn = true -> s = false -> q = []) -> responses fl ++ responses q = [] -> wr = owed ->
  leads c (sendQueryResponse c m) e (mkView (Some (mkClient cn s false q)) 0 fl wr) (fun (_ : unit) => good (owed ++ [m])).
Proof.
  intros Hfl Hq Hdue <-. apply app_nil in Hdue as [Hf Hp]. unfold sendQueryResponse, send_item. leads_steps. destruct s; cbn [negb]; leads_steps; unfold good; cbn.
  - unfold responses in *. rewrite omap_app, Hf, Hp. by split_and!.
  - destruct fl; [|done]. cbn. fold (responses q). rewrite Hp. by split_and!.
Qed.

Lemma receive_good cn s q fl wr owed data : length data = IntraMeshMsg.MAX_PACKET -> good owed (mkView (Some (mkClient cn s true q)) 1 fl wr) ->
  leads c (onMeshMessageReceived c false data) e (mkView (Some (mkClient cn s true q)) 0 fl wr) (fun (_ : unit) => good (owed ++ option_list (reply_to e data))).
Proof.
  intros Hlen (_ & Hfl & Hq & Howed & Hdue & _). cbn [v_client v_reads v_flight v_written _conn _sendActive _recvActive _pendingSends] in *.
  assert (Hnil : responses fl ++ responses q = []) by (apply length_zero_iff_nil; lia). rewrite Hnil, app_nil_r in Howed. subst wr.
  destruct (message_parts data Hlen) as (t & u & ok & Ht & Hu & Hok).
  assert (Hclose : reply_to e data = None -> leads c (close c) e (mkView (Some (mkClient cn s false q)) 0 fl owed) (fun (_ : unit) => good (owed ++ option_list (reply_to e data)))).
  { intros ->. cbn. rewrite app_nil_r. apply close_good; [done|done|rewrite Hnil; cbn; lia|by rewrite Hnil, app_nil_r]. }
  unfold onMeshMessageReceived. leads_steps. rewrite (proj2 (Nat.ltb_lt 0 (length data))) by (rewrite Hlen; unfold IntraMeshMsg.MAX_PACKET; lia). cbn [andb].
  unfold processIntrameshMessage. apply leads_bind, (leads_checked _ _ _ _ _ _ Hok). destruct ok; [|apply Hclose, reply_other; left; congruence].
  apply leads_bind, leads_put; [done|done|]. apply leads_bind, (leads_checked _ _ _ _ _ _ Ht). destruct (Z.eqb_spec t IntraMeshMsg.MESH_QUERY) as [->|]; [|apply Hclose, reply_other; right; congruence].
  destruct (reply_query data u Hlen Hok Ht Hu) as [Hvalid ->]. unfold processMeshQuery. apply leads_bind, (leads_checked _ _ _ _ _ _ Hu). leads_steps.
  rewrite assetExists_valid by done. destruct (bool_decide _); unfold sendAssetFound, sendAssetNotFound; [apply leads_bind, leads_put; [done|done|]|];
    apply leads_bind, (leads_checked _ _ _ _ _ _ Hu); by apply respond_good.
Qed.

Lemma receive_error_good cn s q fl wr owed : good owed (mkView (Some (mkClient cn s true q)) 1 fl wr) ->
  leads c (onMeshMessageReceived c true []) e (mkView (Some (mkClient cn s true q)) 0 fl wr) (fun (_ : unit) => good owed).
Proof.
  intros (_ & Hfl & Hq & Howed & Hdue & _). cbn [v_client v_reads v_flight v_written _conn _sendActive _recvActive _pendingSends] in *.
  unfold onMeshMessageReceived. leads_steps. cbn [length Nat.ltb Nat.leb andb]. apply close_good; [done|done|lia|done].
Qed.

(** The item that a queue gives up next. *)
Lemma queued_good (cn r : bool) q wr owed n : n = (if r then 1 else 0)%nat -> wr ++ responses q = owed -> (length (responses q) + n <= 1)%nat -> (cn = true -> (length (responses q) + n)%nat = 1%nat) ->
  leads c (processQueuedSend c) e (mkView (Some (mkClient cn false r q)) n [] wr) (fun (_ : unit) => good owed).
Proof.
  intros Hn Howed Hle Hopen. unfold processQueuedSend. leads_steps. destruct q as [|i q]; leads_steps; unfold good; cbn [v_client v_reads v_flight v_written _conn _sendActive _recvActive _pendingSends app].
  - by split_and!.
  - change (responses (i :: q)) with (omap response_of ([i] ++ q)) in *. rewrite omap_app in *. by split_and!.
Qed.

(** A send is over: the item is on the wire, with at least one byte or with an error. *)
Lemma sent_good (cn r : bool) q wr owed n i k : good owed (mkView (Some (mkClient cn true r q)) n [i] wr) ->
  leads c (match callBack i with AfterSendQueryResponse => onAfterSendQueryResponse c (k =? 0)%nat k | AfterSendHeartbeat => onAfterSendHeartbeat c (k =? 0)%nat k end) e
    (mkView (Some (mkClient cn true r q)) n [] (wr ++ responses [i])) (fun (_ : unit) => good owed).
Proof.
  intros (Hn & _ & _ & Howed & Hdue & Hopen). cbn [v_client v_reads v_flight v_written _conn _sendActive _recvActive _pendingSends] in *.
  assert (Hclose : leads c (close c) e (mkView (Some (mkClient cn false r q)) n [] (wr ++ responses [i])) (fun (_ : unit) => good owed)).
  { apply close_good; [done|done| |by rewrite <- app_assoc]. rewrite length_app in Hdue. cbn. lia. }
  unfold responses in Hdue, Hopen, Howed. cbn [omap list_omap] in Hdue, Hopen, Howed.
  destruct i as [m []]; cbn [callBack response_of message] in *; unfold onAfterSendQueryResponse, onAfterSendHeartbeat; leads_steps; destruct k as [|k]; cbn [Nat.eqb Nat.ltb Nat.leb negb andb]; try exact Hclose.
  - cbn [length app] in *. assert (r = false) as -> by (destruct r; [cbn in *; lia|done]). assert (Hq : responses q = []) by (apply length_zero_iff_nil; unfold responses in *; lia).
    unfold listenForMeshMessage. leads_steps. rewrite Hn. apply queued_good; try done; rewrite Hq; cbn; [by rewrite app_nil_r; unfold responses in *; rewrite <- Howed, Hq|lia|lia].
  - cbn [app length] in *. apply queued_good; try done. by cbn; rewrite app_nil_r.
Qed.

(** A heartbeat goes out at once or waits behind the current send. *)
Lemma heartbeat_good flags v owed o : v_client v = Some o -> good owed v -> leads c (sendHeartbeat c flags) e v (fun (_ : unit) v' => good owed v' /\ is_Some (v_client v')).
Proof.
  destruct v as [? n fl wr]. intros [= ->] (Hn & Hfl & Hq & Howed & Hdue & Hopen). cbn [v_client v_reads v_flight v_written] in *. destruct o as [cn s r q]. cbn [_conn _sendActive _recvActive _pendingSends] in *.
  unfold sendHeartbeat, send_item. apply leads_bind. destruct (IntraMeshMsg.heartbeat flags) as [m|] eqn:Em; [|done]. apply leads_ret. leads_steps.
  destruct s; cbn [negb]; leads_steps; (split; [|by eexists]); unfold good; cbn [v_client v_reads v_flight v_written _conn _sendActive _recvActive _pendingSends].
  - assert (Hr : responses (q ++ [mkItem m AfterSendHeartbeat]) = responses q) by (unfold responses; rewrite omap_app; cbn; by rewrite app_nil_r). rewrite Hr. by split_and!.
  - destruct fl; [|done]. by split_and!.
Qed.

End handlers.

(** ** Every step keeps the invariant *)

(** [n] is the address of the next client. *)
Definition kept (tr : list (env * world * label)) (n : nat) (r : result (unit * world)) : Prop :=
  match r with Done (_, w') => inv tr w' /\ next_ptr w' = n | Uncaught => True | _ => False end.

Lemma answers_cons d x tr : answers d (x :: tr) = answers d tr ++ match delivered_to d x with Some (e, data) => option_list (reply_to e data) | None => [] end.
Proof.
  unfold answers, received. cbn [omap list_omap]. destruct (delivered_to d x) as [[e data]|]; [|by rewrite app_nil_r].
  rewrite reverse_cons, omap_app. cbn. by destruct (reply_to e data).
Qed.

Lemma kept_local c (m : act unit) e w tr : (c < next_ptr w)%nat -> leads c m e (view_of c w) (fun _ => good (answers c tr)) ->
  (forall d, d <> c -> good (answers d tr) (view_of d w)) ->
  (forall d, d <> c -> (next_ptr w <= d)%nat -> view_of d w = mkView None 0 [] [] /\ answers d tr = []) -> kept tr (next_ptr w) (m e w).
Proof.
  intros Hc Hm Hgood Hfresh. specialize (Hm w eq_refl). destruct (m e w) as [[[] w']| | |]; [|done..]. destruct Hm as [[Hn Hf] Hm]. split; [split|done].
  - intros d. destruct (decide (d = c)) as [->|Hd]; [done|]. rewrite Hf by done. by apply Hgood.
  - intros d Hd. rewrite Hn in Hd. assert (d <> c) by lia. rewrite Hf by done. by apply Hfresh.
Qed.

(** An operation that is taken from the io service belongs to a client that is there. *)
Lemma owner_fresh tr w c : inv tr w -> (reads c w <> 0%nat \/ in_flight c w <> []) -> (c < next_ptr w)%nat /\ is_Some (_connectedClients w !! c).
Proof.
  intros [Hgood Hfresh] Hne. split.
  - destruct (decide (c < next_ptr w)%nat) as [|Hge]; [done|]. destruct (Hfresh c ltac:(lia)) as [[= _ Hr Hf _] _]. by destruct Hne.
  - specialize (Hgood c). unfold good, view_of in Hgood. cbn [v_client v_reads v_flight] in Hgood. destruct (_connectedClients w !! c); [by eexists|]. destruct Hgood as (? & ? & _). by destruct Hne.
Qed.

Lemma taken_receive tr w n live c : inv tr w -> ops w !! n = Some (live, Receiving c) ->
  exists cn s q fl wr, view_of c w = mkView (Some (mkClient cn s true q)) 1 fl wr /\ view_of c (set_ops (delete n) w) = mkView (Some (mkClient cn s true q)) 0 fl wr /\ (c < next_ptr w)%nat.
Proof.
  intros Hinv Hn. pose proof (reads_take c w n _ Hn) as Hr. assert (Hm : reading_from c (live, Receiving c) = Some tt) by (unfold reading_from; cbn; by rewrite decide_True). rewrite Hm in Hr. change (length (option_list (Some tt))) with 1%nat in Hr.
  destruct (owner_fresh tr w c Hinv ltac:(left; lia)) as [Hc [[cn s r q] Eo]]. destruct Hinv as [Hgood _]. specialize (Hgood c). unfold good, view_of in Hgood. rewrite Eo in Hgood.
  destruct Hgood as (Hreads & _). cbn in Hreads. destruct r; [|lia].
  exists cn, s, q, (in_flight c w), (responses (written c w)). split_and!; [unfold view_of; by rewrite Eo, Hreads| |done].
  unfold view_of. assert (Hr0 : reads c (set_ops (delete n) w) = 0%nat) by lia. rewrite Hr0. cbn. rewrite Eo. f_equal. exact (omap_delete_none _ _ _ _ Hn eq_refl).
Qed.

Lemma taken_send tr w n live c i : inv tr w -> ops w !! n = Some (live, Sending c i) ->
  exists cn r q k wr, view_of c w = mkView (Some (mkClient cn true r q)) k [i] wr /\ view_of c (set_ops (delete n) w) = mkView (Some (mkClient cn true r q)) k [] wr /\ (c < next_ptr w)%nat.
Proof.
  intros Hinv Hn. assert (Hi : sending_to c (live, Sending c i) = Some i) by (unfold sending_to; cbn; by rewrite decide_True).
  assert (Hne : in_flight c w <> []).
  { intros Hnil. pose proof (omap_delete (sending_to c) _ _ _ Hn) as Hp. unfold in_flight in Hnil. rewrite Hnil, Hi in Hp. by apply Permutation_length in Hp. }
  destruct (owner_fresh tr w c Hinv (or_intror Hne)) as [Hc [[cn s r q] Eo]]. destruct Hinv as [Hgood _]. specialize (Hgood c). unfold good, view_of in Hgood. rewrite Eo in Hgood.
  destruct Hgood as (_ & Hlen & _). cbn in Hlen. destruct s; [|by apply length_zero_iff_nil in Hlen].
  destruct (omap_delete_one _ _ _ _ _ Hn Hi) as [H1 H0]; [unfold in_flight in Hlen; lia|].
  exists cn, r, q, (reads c w), (responses (written c w)). split_and!; [unfold view_of, in_flight; by rewrite Eo, H1| |done].
  unfold view_of, in_flight. cbn. rewrite Eo, H0. f_equal. unfold reads. cbn. by rewrite (omap_delete_none _ _ _ _ Hn eq_refl).
Qed.

Section steps.
Context `{BoostParse}.

Lemma answers_quiet d e w l tr : delivered_to d (e, w, l) = None -> answers d ((e, w, l) :: tr) = answers d tr.
Proof using Type. intros Hn. by rewrite answers_cons, Hn, app_nil_r. Qed.

(** Steps that deliver nothing and change no view. *)
Lemma query_inv_quiet e w l tr w' : inv tr w -> (forall d, delivered_to d (e, w, l) = None) -> (forall d, view_of d w' = view_of d w) -> next_ptr w' = next_ptr w -> inv ((e, w, l) :: tr) w'.
Proof using Type.
  intros [Hg Hf] Hl Hv Hn. split; intros d; rewrite answers_quiet, Hv by done; [done|]. rewrite Hn. apply Hf.
Qed.

(** A step of one client, on the state without the operation that completed. *)
Lemma kept_step c (m : act unit) e w w0 l tr : inv tr w -> (c < next_ptr w)%nat -> next_ptr w0 = next_ptr w -> (forall d, d <> c -> view_of d w0 = view_of d w) ->
  (forall d, d <> c -> delivered_to d (e, w, l) = None) -> leads c m e (view_of c w0) (fun _ => good (answers c ((e, w, l) :: tr))) -> kept ((e, w, l) :: tr) (next_ptr w) (m e w0).
Proof using Type.
  intros [Hg Hf] Hc Hn Hv Hl Hm. rewrite <- Hn. apply (kept_local c); [lia|done| |]; intros d Hd; rewrite Hv, answers_quiet by auto; [apply Hg|]. rewrite Hn. apply Hf.
Qed.

Lemma receive_kept e w n (ok : bool) data live c tr : inv tr w -> ops w !! n = Some (live, Receiving c) -> length data = (if ok then IntraMeshMsg.MAX_PACKET else 0)%nat ->
  kept ((e, w, LReceive n ok data) :: tr) (next_ptr w) (onMeshMessageReceived c (negb ok) data e (set_ops (delete n) w)).
Proof using Type.
  intros Hinv Hn Hlen. destruct (taken_receive _ _ _ _ _ Hinv Hn) as (cn & s & q & fl & wr & Hv & Hv' & Hc).
  apply (kept_step c); [done|done|done| | |].
  - intros d Hd. apply (view_take _ _ _ _ Hn); unfold reading_from, sending_to; cbn; [by rewrite decide_False|done].
  - intros d Hd. unfold delivered_to. cbn. destruct ok; [|done]. rewrite Hn. by rewrite decide_False.
  - rewrite Hv'. destruct Hinv as [Hg _]. specialize (Hg c). rewrite Hv in Hg. destruct ok; cbn [negb].
    + rewrite answers_cons. unfold delivered_to. cbn. rewrite Hn, decide_True by done. by apply receive_good.
    + rewrite answers_quiet by done. destruct data; [|done]. by apply receive_error_good.
Qed.

Lemma send_kept e w n k live c i tr : inv tr w -> ops w !! n = Some (live, Sending c i) -> kept ((e, w, LSend n k) :: tr) (next_ptr w) (complete_send c i k e (set_ops (delete n) w)).
Proof using Type.
  intros Hinv Hn. destruct (taken_send _ _ _ _ _ _ Hinv Hn) as (cn & r & q & m & wr & Hv & Hv' & Hc).
  unfold complete_send. unfold mbind at 1, act_bind at 1, put at 1. cbv iota beta. set (w0 := mkWorld _ _ _ _ _ _ _).
  apply (kept_step c); [done|done|done| | |].
  - intros d Hd. transitivity (view_of d (set_ops (delete n) w)).
    + unfold view_of, w0, written. cbn. rewrite omap_app. cbn. by rewrite decide_False, app_nil_r.
    + apply (view_take _ _ _ _ Hn); unfold reading_from, sending_to; cbn; [done|by rewrite decide_False].
  - done.
  - rewrite answers_quiet by done. assert (Hw0 : view_of c w0 = mkView (Some (mkClient cn true r q)) m [] (wr ++ responses [i])).
    { injection Hv' as H1 H2 H3 H4. unfold view_of. f_equal; [exact H1|exact H2|exact H3|]. rewrite <- H4. unfold w0, written, responses. cbn. rewrite !omap_app. cbn.
      rewrite decide_True by done. done. }
    rewrite Hw0. destruct Hinv as [Hg _]. specialize (Hg c). rewrite Hv in Hg. by apply sent_good.
Qed.

Lemma heartbeat_kept flags e cs tr w : inv tr w -> Forall (fun c => is_Some (_connectedClients w !! c)) cs -> kept tr (next_ptr w) (heartbeat_loop cs flags e w).
Proof using Type.
  revert w. induction cs as [|c cs IH]; intros w Hinv Hcs; [done|]. inversion Hcs as [|? ? [o Ho] Hcs']; subst. cbn [heartbeat_loop]. unfold mbind, act_bind.
  destruct Hinv as [Hg Hf]. pose proof (heartbeat_good c e flags (view_of c w) _ o Ho (Hg c) w eq_refl) as Hs. destruct (sendHeartbeat c flags e w) as [[[] w1]| | |]; [|done..].
  destruct Hs as [[Hn Hfr] [Hgc Hsome]]. rewrite <- Hn. apply IH.
  - assert (Hc : (c < next_ptr w)%nat).
    { destruct (decide (c < next_ptr w)%nat) as [|Hge]; [done|]. destruct (Hf c ltac:(lia)) as [[= Hnone _ _ _] _]. congruence. }
    split; intros d; (destruct (decide (d = c)) as [->|Hd]; [|rewrite Hfr by done]); [done|apply Hg|lia|]. rewrite Hn. apply Hf.
  - eapply Forall_impl; [exact Hcs'|]. intros d Hd. destruct (decide (d = c)) as [->|Hne]; [exact Hsome|]. specialize (Hfr d Hne). injection Hfr as -> _ _ _. done.
Qed.

(** A step that accepts a connection gives the next address to the new client. *)
Definition accepts (e : env) (w : world) (l : label) : bool :=
  match l with
  | LAccept _ false (Some a) _ => match intraMeshPeers (intramesh_peers e) with Some peers => existsb (fun p => bool_decide (Host p = a)) peers | None => false end
  | _ => false
  end.

Lemma isServerTrusted_run a e w : isServerTrusted a e w =
  match intraMeshPeers (intramesh_peers e) with Some peers => Done (existsb (fun p => bool_decide (Host p = a)) peers, w) | None => Uncaught end.
Proof using Type. unfold isServerTrusted. rewrite act_bind_eq. unfold ask. rewrite act_bind_eq. by destruct (intraMeshPeers _). Qed.

(** The state with the new client, which is read from. *)
Definition welcomed (w : world) : world :=
  mkWorld (<[next_ptr w := set_recv true new_client]> (_connectedClients w)) (S (next_ptr w)) (ops w ++ [(true, Receiving (next_ptr w))]) (wire w)
    (_meshReqSinceLastPoll w) (_positiveRespSinceLastPoll w) (_stop w).

Lemma welcome_run still_there e w : welcome still_there e w = if still_there : bool then Done (tt, welcomed w) else Uncaught.
Proof using Type.
  unfold welcome. rewrite act_bind_eq. unfold get. rewrite act_bind_eq. unfold put, start. destruct still_there; [|done].
  unfold listenForMeshMessage, async. rewrite act_bind_eq. unfold set_fld. cbn [_connectedClients]. rewrite lookup_insert_eq, act_bind_eq. unfold fld. cbn [_connectedClients set_clients].
  rewrite lookup_insert_eq. unfold put, welcomed, set_ops. cbn. by rewrite insert_insert_eq.
Qed.

Lemma accept_kept e w n error a s live tr : inv tr w -> ops w !! n = Some (live, Accepting) ->
  kept ((e, w, LAccept n error a s) :: tr) (if accepts e w (LAccept n error a s) then S (next_ptr w) else next_ptr w) (handleAfterAccept error a s e (set_ops (delete n) w)).
Proof using Type.
  intros Hinv Hn.
  assert (Hv : forall d, view_of d (set_ops (delete n) w) = view_of d w) by (intros d; by apply (view_take _ _ _ _ Hn)).
  assert (Hagain : forall w0, (forall d, view_of d w0 = view_of d w) -> next_ptr w0 = next_ptr w -> kept ((e, w, LAccept n error a s) :: tr) (next_ptr w) (acceptNextClient e w0)).
  { intros w0 H0 Hn0. split; [|done]. apply query_inv_quiet; [done|done| |done]. intros d. rewrite view_add_op. cbn. rewrite Nat.add_0_r, app_nil_r. apply H0. }
  unfold handleAfterAccept. destruct error; cbn [negb].
  - rewrite act_bind_eq. unfold get. destruct (negb _); [by apply Hagain|]. split; [|done]. by apply query_inv_quiet.
  - rewrite act_bind_eq. destruct a as [a|]; [|done]. cbn [or_throw]. unfold mret, act_ret. rewrite act_bind_eq, isServerTrusted_run. unfold accepts.
    destruct (intraMeshPeers (intramesh_peers e)) as [peers|]; [|done]. rewrite act_bind_eq. destruct (existsb _ peers); [|by apply Hagain].
    rewrite welcome_run. destruct s; [|done]. split; [|done]. destruct Hinv as [Hg Hf].
    assert (Hview : forall d, d <> next_ptr w -> view_of d (set_ops (fun os => os ++ [(true, Accepting)]) (welcomed (set_ops (delete n) w))) = view_of d w).
    { intros d Hd. rewrite <- Hv. unfold view_of, reads, in_flight, written. cbn. rewrite !omap_app. cbn.
      rewrite lookup_insert_ne, decide_False by done. cbn. by rewrite !app_nil_r. }
    split; intros d; rewrite answers_quiet by done; (destruct (decide (d = next_ptr w)) as [->|Hd]; [|rewrite Hview by done]).
    + destruct (Hf (next_ptr w) ltac:(lia)) as [Hnone ->]. rewrite <- Hv in Hnone. injection Hnone as _ Hr Hfl Hwr. rewrite view_add_op. unfold good. cbn.
      rewrite lookup_insert_eq. unfold reads, in_flight in *. cbn in *. rewrite !omap_app. cbn. rewrite decide_True by done. rewrite length_app, Hfl, Hwr, Hr. by cbn.
    + apply Hg.
    + cbn. lia.
    + cbn. intros Hge. apply Hf. lia.
Qed.

Lemma step_kept e w l r tr : inv tr w -> step e w l = Some r -> kept ((e, w, l) :: tr) (if accepts e w l then S (next_ptr w) else next_ptr w) r.
Proof using Type.
  intros Hinv Hs. destruct l as [n error a s|n ok data|n k| |]; cbn in Hs.
  - destruct (ops w !! n) as [[live []]|] eqn:En; [|done..]. injection Hs as <-. by eapply accept_kept.
  - destruct (ops w !! n) as [[live []]|] eqn:En; [done| |done..]. destruct (_ && _) eqn:Eb; [|done]. injection Hs as <-. apply andb_prop in Eb as [_ Hlen%Nat.eqb_eq]. by eapply receive_kept.
  - destruct (ops w !! n) as [[live []]|] eqn:En; [done..| |done]. destruct (_ && _); [|done]. injection Hs as <-. by eapply send_kept.
  - injection Hs as <-. unfold heartbeat_clients. rewrite act_bind_eq. unfold generateHeartBeatFlags. rewrite act_bind_eq. unfold ask, mret, act_ret. rewrite act_bind_eq. unfold get.
    apply heartbeat_kept; [by apply query_inv_quiet|]. apply Forall_fmap, Forall_forall. intros [c o] Hc%elem_of_map_to_list. by eexists.
  - injection Hs as <-. split; [|done]. by apply query_inv_quiet.
Qed.

Lemma runs_inv tr w : runs tr w -> inv tr w.
Proof using Type.
  induction 1 as [|tr w e l w' Hr IH Hs]; [split; [|done]; intros c; split; [done|split; [done|by exists []]]|]. exact (proj1 (step_kept _ _ _ _ _ IH Hs)).
Qed.

(** Every client came in by a step that accepted its address. *)
Lemma runs_accepted tr w c : runs tr w -> (c < next_ptr w)%nat -> exists e w0 l, (e, w0, l) ∈ tr /\ next_ptr w0 = c /\ accepts e w0 l = true.
Proof using Type.
  induction 1 as [|tr w e l w' Hr IH Hs]; intros Hc; [cbn in Hc; lia|]. pose proof (proj2 (step_kept _ _ _ _ _ (runs_inv _ _ Hr) Hs)) as Hn.
  destruct (decide (c < next_ptr w)%nat) as [Hlt|Hge]; [destruct (IH Hlt) as (e0 & w0 & l0 & Hin & Hx); exists e0, w0, l0; split; [by right|done]|].
  destruct (accepts e w l) eqn:Ea; [|lia]. exists e, w, l. split; [left|split; [lia|done]].
Qed.

End steps.

(** ** Answers on the wire *)

Lemma response_parts u r : length u = UUID_LEN -> let m := IntraMeshMsg.response u r in
  length m = IntraMeshMsg.MAX_PACKET /\ IntraMeshMsg.getRequestType m = Some IntraMeshMsg.MESH_RESPONSE /\ IntraMeshMsg.getAssetUUID m = Some u /\
  IntraMeshMsg.getQueryResult m = Some (IntraMeshMsg.result_code r) /\ (IsValidUUID u = true -> IntraMeshMsg.validate m = Some true).
Proof.
  intros Hu m. assert (Hm : m = (IntraMeshMsg.MESH_RESPONSE :: u) ++ IntraMeshMsg.result_code r :: replicate 4 0).
  { unfold m, IntraMeshMsg.response, IntraMeshMsg.resize, IntraMeshMsg.MAX_PACKET. cbn [app]. rewrite <- !app_assoc. cbn [take]. f_equal.
    rewrite take_app_ge by (rewrite Hu; unfold UUID_LEN; lia). by rewrite Hu. }
  assert (Hl : length m = IntraMeshMsg.MAX_PACKET) by (rewrite Hm, length_app; cbn [length]; by rewrite Hu).
  assert (Hid : IntraMeshMsg.getAssetUUID m = Some u).
  { rewrite Hm. unfold IntraMeshMsg.getAssetUUID. rewrite <- Hu. exact (bytes_at_app [IntraMeshMsg.MESH_RESPONSE] u (IntraMeshMsg.result_code r :: replicate 4 0)). }
  assert (Ht : IntraMeshMsg.getRequestType m = Some IntraMeshMsg.MESH_RESPONSE) by by rewrite Hm.
  split_and!; [done..| |].
  - rewrite Hm. unfold IntraMeshMsg.getQueryResult. rewrite lookup_app_r by (cbn; rewrite Hu; unfold UUID_LEN, IntraMeshMsg.MESH_RESPONSE_CODE_LOC; lia). cbn [length]. by rewrite Hu.
  - intros Hv. unfold IntraMeshMsg.validate. rewrite Ht, Hid. cbn [mbind option_bind]. rewrite Hl. cbn. by rewrite Hv.
Qed.

(** A response carries the id that was asked for, and whether the index has it. *)
Lemma reply_parts e data m : length data = IntraMeshMsg.MAX_PACKET -> reply_to e data = Some m ->
  exists u, IntraMeshMsg.getAssetUUID data = Some u /\ length m = IntraMeshMsg.MAX_PACKET /\ IntraMeshMsg.validate m = Some true /\ IntraMeshMsg.getRequestType m = Some IntraMeshMsg.MESH_RESPONSE /\
    IntraMeshMsg.getAssetUUID m = Some u /\ IntraMeshMsg.getQueryResult m = Some (IntraMeshMsg.result_code (if bool_decide (octets u ∈ existing e) then IntraMeshMsg.QR_FOUND else IntraMeshMsg.QR_NOTFOUND)).
Proof.
  intros Hlen Hm. destruct (message_parts data Hlen) as (t & u & ok & Ht & Hu & Hok). exists u. split; [done|].
  assert (Hq : IntraMeshMsg.validate data = Some true /\ IntraMeshMsg.getRequestType data = Some IntraMeshMsg.MESH_QUERY).
  { unfold reply_to in Hm. destruct (_ && _) eqn:E; [|done]. by apply andb_prop in E as [?%bool_decide_eq_true ?%bool_decide_eq_true]. }
  destruct Hq as [Hv Hq]. destruct (reply_query e data u Hlen Hv Hq Hu) as [Hvalid Hr]. rewrite Hm in Hr. injection Hr as ->.
  assert (Hul : length u = UUID_LEN) by (unfold IsValidUUID in Hvalid; apply andb_prop in Hvalid as [?%Nat.eqb_eq _]; done).
  destruct (response_parts u (if bool_decide (octets u ∈ existing e) then IntraMeshMsg.QR_FOUND else IntraMeshMsg.QR_NOTFOUND) Hul) as (H1 & H2 & H3 & H4 & H5). by split_and!; auto.
Qed.

(** ** The theorem *)

Section theorem.
Context `{BoostParse}.

Lemma received_size tr w c x : runs tr w -> x ∈ received c tr -> length x.2 = IntraMeshMsg.MAX_PACKET.
Proof using Type.
  unfold received. rewrite elem_of_reverse. intros Hr. induction Hr as [|tr w e l w' Hr IH Hs]; [intros Hx; by apply elem_of_nil in Hx|].
  cbn [omap list_omap]. destruct (delivered_to c (e, w, l)) as [y|] eqn:Ey; [|done]. intros [->|Hx]%elem_of_cons; [|by apply IH].
  unfold delivered_to in Ey. cbn in Ey. destruct l as [|n [] data| | |]; [done| |done..]. cbn in Hs. destruct (ops w !! n) as [[live []]|]; [done| |done..].
  destruct (decide _); [|done]. injection Ey as <-. destruct (_ && _) eqn:Eb; [|done]. by apply andb_prop in Eb as [_ ?%Nat.eqb_eq].
Qed.

(** C11. The query service answers every query of a client exactly once and in order: what was given
    to its socket, what the socket is working on and what waits are together the answers to the queries it sent, and each
    answer carries the id and tells whether the existence index has it.  An open
    connection is always either read from or has exactly one answer on its way, with the socket at work.
    Only configured peers become clients, and no handler uses a client that is gone. *)
Theorem query_clients_answered tr w : runs tr w ->
  (forall c o, _connectedClients w !! c = Some o ->
    responses (written c w) ++ responses (in_flight c w) ++ responses (_pendingSends o) = answers c tr /\
    (_conn o = true -> (reads c w = 1%nat /\ responses (written c w) = answers c tr) \/
      (reads c w = 0%nat /\ length (in_flight c w) = 1%nat /\ exists m, answers c tr = responses (written c w) ++ [m])) /\
    exists e w0 l, (e, w0, l) ∈ tr /\ next_ptr w0 = c /\ accepts e w0 l = true) /\
  (forall c, responses (written c w) `prefix_of` answers c tr) /\
  (forall c m, m ∈ answers c tr -> exists e data u, (e, data) ∈ received c tr /\ IntraMeshMsg.getAssetUUID data = Some u /\ IntraMeshMsg.validate m = Some true /\
    IntraMeshMsg.getAssetUUID m = Some u /\ IntraMeshMsg.getQueryResult m = Some (IntraMeshMsg.result_code (if bool_decide (octets u ∈ existing e) then IntraMeshMsg.QR_FOUND else IntraMeshMsg.QR_NOTFOUND))) /\
  (forall e l, step e w l <> Some Undefined).
Proof using Type.
  intros Hr. pose proof (runs_inv _ _ Hr) as Hinv. split_and!.
  - intros c o Ho. pose proof (proj1 Hinv c) as Hg. unfold good, view_of in Hg. rewrite Ho in Hg. cbn [v_client v_reads v_flight v_written] in Hg. destruct Hg as (Hreads & Hfl & Hq & Howed & Hle & Hopen).
    split; [done|]. split.
    + intros Hc. specialize (Hopen Hc). destruct (_recvActive o); [left|right].
      * assert (Hdue : responses (in_flight c w) ++ responses (_pendingSends o) = []) by (apply length_zero_iff_nil; lia). rewrite Hdue, app_nil_r in Howed. done.
      * rewrite Hreads, Nat.add_0_r in Hopen. destruct (responses (in_flight c w) ++ responses (_pendingSends o)) as [|m [|]] eqn:Edue; [done| |done].
        split; [done|]. split; [|by exists m]. rewrite Hfl. destruct (_sendActive o) eqn:Es; [done|]. rewrite (Hq Hc eq_refl) in Edue. destruct (in_flight c w); [done|done].
    + apply (runs_accepted _ _ _ Hr). destruct (decide (c < next_ptr w)%nat) as [|Hge]; [done|]. destruct (proj2 Hinv c ltac:(lia)) as [[= Hnone _ _ _] _]. congruence.
  - intros c. pose proof (proj1 Hinv c) as Hg. unfold good, view_of in Hg. cbn [v_client v_reads v_flight v_written] in Hg. destruct (_connectedClients w !! c).
    + destruct Hg as (_ & _ & _ & <- & _). by eexists.
    + destruct Hg as (_ & _ & rest & <-). by eexists.
  - intros c m Hm. unfold answers in Hm. apply list_elem_of_omap in Hm as ([e data] & Hin & Hm). cbn in Hm.
    destruct (reply_parts e data m (received_size _ _ _ _ Hr Hin) Hm) as (u & H1 & _ & H2 & _ & H3 & H4). by exists e, data, u.
  - intros e l Hs. exact (step_kept _ _ _ _ _ Hinv Hs).
Qed.

End theorem.

(** ** A run *)

Definition demo_parse : BoostParse := {| WhipSettings.split := fun c s => if decide (c = 58) then [s; [49]; [50]] else [s]; lexical_ushort := fun s => match s with [d] => Some (d - 48) | _ => None end; from_string := Some |}.
Definition demo_env : env := mkEnv ∅ [97] false.

(** A peer connects, asks for an asset, and a heartbeat falls in between. *)
Definition demo_labels : list label :=
  [LAccept 0 false (Some [97]) true; LReceive 0 true (IntraMeshMsg.query (replicate 32 48)); LHeartbeat; LSend 1 38].

Fixpoint exec (w : world) (tr : list (env * world * label)) (ls : list label) : option (list (env * world * label) * world) :=
  match ls with
  | [] => Some (tr, w)
  | l :: ls => match step (H := demo_parse) demo_env w l with Some (Done (_, w')) => exec w' ((demo_env, w, l) :: tr) ls | _ => None end
  end.

Lemma exec_runs ls w tr w' tr' : runs (H := demo_parse) tr w -> exec w tr ls = Some (tr', w') -> runs (H := demo_parse) tr' w'.
Proof.
  revert w tr. induction ls as [|l ls IH]; intros w tr Hr Hx; cbn in Hx; [by injection Hx as <- <-|].
  destruct (step (H := demo_parse) demo_env w l) as [[[[] w1]| | |]|] eqn:Es; [|done..]. apply (IH w1 ((demo_env, w, l) :: tr)); [by econstructor|done].
Qed.

Lemma query_clients_answered_witness : exists tr w, exec started [] demo_labels = Some (tr, w) /\
  answers 0 tr = [IntraMeshMsg.response (replicate 32 48) IntraMeshMsg.QR_NOTFOUND] /\ responses (written 0 w) `prefix_of` answers 0 tr.
Proof.
  destruct (exec started [] demo_labels) as [[tr w]|] eqn:E; [|vm_compute in E; discriminate E]. exists tr, w. split; [reflexivity|].
  pose proof (query_clients_answered (H := demo_parse) tr w (exec_runs _ _ _ _ _ runs_start E)) as (_ & Hp & _). split; [|exact (Hp 0%nat)].
  assert (Ha : (fun x => answers 0 x.1) <$> exec started [] demo_labels = Some [IntraMeshMsg.response (replicate 32 48) IntraMeshMsg.QR_NOTFOUND]) by (vm_compute; reflexivity).
  rewrite E in Ha. injection Ha as Ha. exact Ha.
Defined.
