(* ===== verification/Mesh.v ===== *)
(** * Mesh: searching assets on the other servers of the mesh

    Models [AssetSearch], [MeshServer], [MeshQueryConnection], [MeshStorageBackend] and the part of
    [IntraMeshService] that keeps the connections to the peers ([src/whip-server/whip]).

    Objects.  Searches and servers are objects in heaps.  A search is owned by
    [_activeSearches] (which is the heap [searches] itself).  A server is owned by the three containers of the service, by the
    searches that ask it or fetch from it, and by the [shared_ptr]s of running functions ([refs]); when
    the last owner lets go ([release]) it is destroyed.  Asynchronous operations and
    transfer callbacks hold plain addresses: using one whose object is gone is [Undefined].
    Addresses are not used twice.  A query connection belongs to one server and is part of it.

    The io service owes the completion of every operation in [ops]; the flag tells whether the socket was open
    when it was started, and without it the operation can only fail.  A timer of
    a search is an operation that waits, is ready, or was cancelled.  The callback of a search is a value of the
    type [CB]: [answers] lists the calls, and [informed] what the asset cache is told.

    The functions that end in the destruction of a server call each other; the recursion is
    tied with fuel in [close].  Log messages, status texts and buffer sizes are left out, and so is
    [onMeshServiceConnect], which nothing calls. *)
From S2P Require Import Prelude Sha1 WhipWire Uuid WhipSettings VfsData VfsStore StdMap Act MeshQuery.
From stdpp Require Import list gmap.
#[local] Open Scope Z_scope.

(** ** State *)

Record MeshQueryConnection := mkQuery {
  _meshQuerySocket : bool; _isConnected : bool; _queryRecvActive : bool; _querySendActive : bool; _sendQueue : list (list Z); _disconnectCallbackFired : bool }.

(** The callback that a server calls when it can go: none, the one of a connected server, the one of a failed attempt. *)
Inductive SafeKillCallback := NoSafeKill | SafeToKill | ConnectFailedSafekill.

(** A transfer: the id, and the search whose [onFullAssetRcvd] is the callback. *)
Definition PendingTransferRequest : Type := list Z * nat.

(** [destroying] is set while the destructor runs. *)
Record MeshServer := mkServer {
  _lastHeartbeat : Z; _meshQueryEndpoint : endpoint; _assetServiceEndpoint : endpoint; _serviceSocket : bool; _lastHeartbeatFlags : Z;
  _assetConnectionEstablished : bool; _meshQueryConnectionEstablished : bool; _inboundAuthChallenge : list Z;
  _currentSearches : list (list Z * list nat); _safeKillCallback : SafeKillCallback;
  _transferRequestQueue : list PendingTransferRequest; _assetCallbackQueue : list PendingTransferRequest;
  _meshQueryConnection : MeshQueryConnection; _numConnectResultsRcvd : Z; _sendActive : bool; _recvActive : bool; destroying : bool }.

Inductive CallBack (CB : Type) := FullCallBack (k : CB) | TestCallBack (k : CB).
Arguments FullCallBack {CB}.
Arguments TestCallBack {CB}.

Record AssetSearch (CB : Type) := mkSearch {
  _uuid : list Z; _callBack : CallBack CB; _wasFound : bool; _queriedServers : list nat; _foundServer : option nat; _foundAsset : option (list Z) }.
Arguments mkSearch {CB}.
Arguments _uuid {CB}.
Arguments _callBack {CB}.
Arguments _wasFound {CB}.
Arguments _queriedServers {CB}.
Arguments _foundServer {CB}.
Arguments _foundAsset {CB}.

Inductive op :=
  | Connecting (this : nat)
  | ReadChallenge (this : nat)
  | WriteChallengeResponse (this : nat) (message : list Z)
  | ReadAuthStatus (this : nat)
  | WriteRequest (this : nat) (message : list Z)
  | ReadHeader (this : nat)
  | ReadData (this : nat) (response : ServerResponseMsg.t)
  | ReadErrorData (this : nat) (response : ServerResponseMsg.t)
  | QueryConnecting (this : nat)
  | QueryReading (this : nat)
  | QueryWriting (this : nat) (message : list Z)
  | TimerWait (search : nat)
  | TimerReady (search : nat)
  | TimerAborted (search : nat)
  | Posted (search : nat). (** the callback of a transfer, without an asset *)

(** What the callback of a search is called with. *)
Inductive answer := Full (asset : option (list Z)) | Test (found : bool).

Record world (CB : Type) := mkWorld {
  servers : gmap nat MeshServer; searches : gmap nat (AssetSearch CB); next_ptr : nat; refs : list nat;
  _remoteServers : gmap endpoint nat; _pendingServerConnections : gmap endpoint nat; _connectFailedServers : list nat;
  ops : list (bool * op); answers : list (CB * answer); informed : list (option (list Z)); clients : MeshQuery.world }.
Arguments mkWorld {CB}.
Arguments servers {CB}.
Arguments searches {CB}.
Arguments next_ptr {CB}.
Arguments refs {CB}.
Arguments _remoteServers {CB}.
Arguments _pendingServerConnections {CB}.
Arguments _connectFailedServers {CB}.
Arguments ops {CB}.
Arguments answers {CB}.
Arguments informed {CB}.
Arguments clients {CB}.

(** What a handler reads from the rest of the server: the settings, the clock, whether the settings
    can be read again, and the outcome of [std::random_shuffle]. *)
Record env := mkEnv { query_env : MeshQuery.env; password : list Z; local_time : Z; reload_ok : bool; random_shuffle : list nat -> list nat }.

(** ** Access to the state *)

Section primitives.
Context {CB : Type}.
Notation act := (act env (world CB)).

Definition set_servers f (w : world CB) : world CB :=
  mkWorld (f (servers w)) (searches w) (next_ptr w) (refs w) (_remoteServers w) (_pendingServerConnections w) (_connectFailedServers w) (ops w) (answers w) (informed w) (clients w).
Definition set_searches f (w : world CB) : world CB :=
  mkWorld (servers w) (f (searches w)) (next_ptr w) (refs w) (_remoteServers w) (_pendingServerConnections w) (_connectFailedServers w) (ops w) (answers w) (informed w) (clients w).
Definition set_next f (w : world CB) : world CB :=
  mkWorld (servers w) (searches w) (f (next_ptr w)) (refs w) (_remoteServers w) (_pendingServerConnections w) (_connectFailedServers w) (ops w) (answers w) (informed w) (clients w).
Definition set_refs f (w : world CB) : world CB :=
  mkWorld (servers w) (searches w) (next_ptr w) (f (refs w)) (_remoteServers w) (_pendingServerConnections w) (_connectFailedServers w) (ops w) (answers w) (informed w) (clients w).
Definition set_remote f (w : world CB) : world CB :=
  mkWorld (servers w) (searches w) (next_ptr w) (refs w) (f (_remoteServers w)) (_pendingServerConnections w) (_connectFailedServers w) (ops w) (answers w) (informed w) (clients w).
Definition set_pending f (w : world CB) : world CB :=
  mkWorld (servers w) (searches w) (next_ptr w) (refs w) (_remoteServers w) (f (_pendingServerConnections w)) (_connectFailedServers w) (ops w) (answers w) (informed w) (clients w).
Definition set_failed f (w : world CB) : world CB :=
  mkWorld (servers w) (searches w) (next_ptr w) (refs w) (_remoteServers w) (_pendingServerConnections w) (f (_connectFailedServers w)) (ops w) (answers w) (informed w) (clients w).
Definition set_ops f (w : world CB) : world CB :=
  mkWorld (servers w) (searches w) (next_ptr w) (refs w) (_remoteServers w) (_pendingServerConnections w) (_connectFailedServers w) (f (ops w)) (answers w) (informed w) (clients w).
Definition set_answers f (w : world CB) : world CB :=
  mkWorld (servers w) (searches w) (next_ptr w) (refs w) (_remoteServers w) (_pendingServerConnections w) (_connectFailedServers w) (ops w) (f (answers w)) (informed w) (clients w).
Definition set_informed f (w : world CB) : world CB :=
  mkWorld (servers w) (searches w) (next_ptr w) (refs w) (_remoteServers w) (_pendingServerConnections w) (_connectFailedServers w) (ops w) (answers w) (f (informed w)) (clients w).
Definition set_query_clients c (w : world CB) : world CB :=
  mkWorld (servers w) (searches w) (next_ptr w) (refs w) (_remoteServers w) (_pendingServerConnections w) (_connectFailedServers w) (ops w) (answers w) (informed w) c.

(** [this->field] of a server and of a search *)
Definition fld {A} (this : nat) (f : MeshServer -> A) : act A := fun _ w =>
  match servers w !! this with Some o => Done (f o, w) | None => Undefined end.
Definition set_fld (this : nat) (f : MeshServer -> MeshServer) : act unit := fun _ w =>
  match servers w !! this with Some o => Done (tt, set_servers <[this := f o]> w) | None => Undefined end.
Definition sfld {A} (this : nat) (f : AssetSearch CB -> A) : act A := fun _ w =>
  match searches w !! this with Some o => Done (f o, w) | None => Undefined end.
Definition set_sfld (this : nat) (f : AssetSearch CB -> AssetSearch CB) : act unit := fun _ w =>
  match searches w !! this with Some o => Done (tt, set_searches <[this := f o]> w) | None => Undefined end.

Definition add_op (live : bool) (o : op) : act unit := put (set_ops (fun os => os ++ [(live, o)])).
(** An operation on the service socket, and on the query socket. *)
Definition async (this : nat) (o : op) : act unit := open ← fld this _serviceSocket; add_op open o.
Definition query_async (this : nat) (o : op) : act unit := open ← fld this (fun s => _meshQuerySocket (_meshQueryConnection s)); add_op open o.

End primitives.

Definition upd_heartbeat t fl (o : MeshServer) : MeshServer := mkServer t (_meshQueryEndpoint o) (_assetServiceEndpoint o) (_serviceSocket o) fl (_assetConnectionEstablished o) (_meshQueryConnectionEstablished o) (_inboundAuthChallenge o) (_currentSearches o) (_safeKillCallback o) (_transferRequestQueue o) (_assetCallbackQueue o) (_meshQueryConnection o) (_numConnectResultsRcvd o) (_sendActive o) (_recvActive o) (destroying o).
Definition set_socket b (o : MeshServer) : MeshServer := mkServer (_lastHeartbeat o) (_meshQueryEndpoint o) (_assetServiceEndpoint o) b (_lastHeartbeatFlags o) (_assetConnectionEstablished o) (_meshQueryConnectionEstablished o) (_inboundAuthChallenge o) (_currentSearches o) (_safeKillCallback o) (_transferRequestQueue o) (_assetCallbackQueue o) (_meshQueryConnection o) (_numConnectResultsRcvd o) (_sendActive o) (_recvActive o) (destroying o).
Definition set_established b (o : MeshServer) : MeshServer := mkServer (_lastHeartbeat o) (_meshQueryEndpoint o) (_assetServiceEndpoint o) (_serviceSocket o) (_lastHeartbeatFlags o) b (_meshQueryConnectionEstablished o) (_inboundAuthChallenge o) (_currentSearches o) (_safeKillCallback o) (_transferRequestQueue o) (_assetCallbackQueue o) (_meshQueryConnection o) (_numConnectResultsRcvd o) (_sendActive o) (_recvActive o) (destroying o).
Definition set_query_established b (o : MeshServer) : MeshServer := mkServer (_lastHeartbeat o) (_meshQueryEndpoint o) (_assetServiceEndpoint o) (_serviceSocket o) (_lastHeartbeatFlags o) (_assetConnectionEstablished o) b (_inboundAuthChallenge o) (_currentSearches o) (_safeKillCallback o) (_transferRequestQueue o) (_assetCallbackQueue o) (_meshQueryConnection o) (_numConnectResultsRcvd o) (_sendActive o) (_recvActive o) (destroying o).
Definition set_challenge d (o : MeshServer) : MeshServer := mkServer (_lastHeartbeat o) (_meshQueryEndpoint o) (_assetServiceEndpoint o) (_serviceSocket o) (_lastHeartbeatFlags o) (_assetConnectionEstablished o) (_meshQueryConnectionEstablished o) d (_currentSearches o) (_safeKillCallback o) (_transferRequestQueue o) (_assetCallbackQueue o) (_meshQueryConnection o) (_numConnectResultsRcvd o) (_sendActive o) (_recvActive o) (destroying o).
Definition set_current l (o : MeshServer) : MeshServer := mkServer (_lastHeartbeat o) (_meshQueryEndpoint o) (_assetServiceEndpoint o) (_serviceSocket o) (_lastHeartbeatFlags o) (_assetConnectionEstablished o) (_meshQueryConnectionEstablished o) (_inboundAuthChallenge o) l (_safeKillCallback o) (_transferRequestQueue o) (_assetCallbackQueue o) (_meshQueryConnection o) (_numConnectResultsRcvd o) (_sendActive o) (_recvActive o) (destroying o).
Definition set_safekill k (o : MeshServer) : MeshServer := mkServer (_lastHeartbeat o) (_meshQueryEndpoint o) (_assetServiceEndpoint o) (_serviceSocket o) (_lastHeartbeatFlags o) (_assetConnectionEstablished o) (_meshQueryConnectionEstablished o) (_inboundAuthChallenge o) (_currentSearches o) k (_transferRequestQueue o) (_assetCallbackQueue o) (_meshQueryConnection o) (_numConnectResultsRcvd o) (_sendActive o) (_recvActive o) (destroying o).
Definition set_requests q (o : MeshServer) : MeshServer := mkServer (_lastHeartbeat o) (_meshQueryEndpoint o) (_assetServiceEndpoint o) (_serviceSocket o) (_lastHeartbeatFlags o) (_assetConnectionEstablished o) (_meshQueryConnectionEstablished o) (_inboundAuthChallenge o) (_currentSearches o) (_safeKillCallback o) q (_assetCallbackQueue o) (_meshQueryConnection o) (_numConnectResultsRcvd o) (_sendActive o) (_recvActive o) (destroying o).
Definition set_callbacks q (o : MeshServer) : MeshServer := mkServer (_lastHeartbeat o) (_meshQueryEndpoint o) (_assetServiceEndpoint o) (_serviceSocket o) (_lastHeartbeatFlags o) (_assetConnectionEstablished o) (_meshQueryConnectionEstablished o) (_inboundAuthChallenge o) (_currentSearches o) (_safeKillCallback o) (_transferRequestQueue o) q (_meshQueryConnection o) (_numConnectResultsRcvd o) (_sendActive o) (_recvActive o) (destroying o).
Definition upd_query (f : MeshQueryConnection -> MeshQueryConnection) (o : MeshServer) : MeshServer := mkServer (_lastHeartbeat o) (_meshQueryEndpoint o) (_assetServiceEndpoint o) (_serviceSocket o) (_lastHeartbeatFlags o) (_assetConnectionEstablished o) (_meshQueryConnectionEstablished o) (_inboundAuthChallenge o) (_currentSearches o) (_safeKillCallback o) (_transferRequestQueue o) (_assetCallbackQueue o) (f (_meshQueryConnection o)) (_numConnectResultsRcvd o) (_sendActive o) (_recvActive o) (destroying o).
Definition set_results n (o : MeshServer) : MeshServer := mkServer (_lastHeartbeat o) (_meshQueryEndpoint o) (_assetServiceEndpoint o) (_serviceSocket o) (_lastHeartbeatFlags o) (_assetConnectionEstablished o) (_meshQueryConnectionEstablished o) (_inboundAuthChallenge o) (_currentSearches o) (_safeKillCallback o) (_transferRequestQueue o) (_assetCallbackQueue o) (_meshQueryConnection o) n (_sendActive o) (_recvActive o) (destroying o).
Definition set_send b (o : MeshServer) : MeshServer := mkServer (_lastHeartbeat o) (_meshQueryEndpoint o) (_assetServiceEndpoint o) (_serviceSocket o) (_lastHeartbeatFlags o) (_assetConnectionEstablished o) (_meshQueryConnectionEstablished o) (_inboundAuthChallenge o) (_currentSearches o) (_safeKillCallback o) (_transferRequestQueue o) (_assetCallbackQueue o) (_meshQueryConnection o) (_numConnectResultsRcvd o) b (_recvActive o) (destroying o).
Definition set_recv b (o : MeshServer) : MeshServer := mkServer (_lastHeartbeat o) (_meshQueryEndpoint o) (_assetServiceEndpoint o) (_serviceSocket o) (_lastHeartbeatFlags o) (_assetConnectionEstablished o) (_meshQueryConnectionEstablished o) (_inboundAuthChallenge o) (_currentSearches o) (_safeKillCallback o) (_transferRequestQueue o) (_assetCallbackQueue o) (_meshQueryConnection o) (_numConnectResultsRcvd o) (_sendActive o) b (destroying o).
Definition set_destroying (o : MeshServer) : MeshServer := mkServer (_lastHeartbeat o) (_meshQueryEndpoint o) (_assetServiceEndpoint o) (_serviceSocket o) (_lastHeartbeatFlags o) (_assetConnectionEstablished o) (_meshQueryConnectionEstablished o) (_inboundAuthChallenge o) (_currentSearches o) NoSafeKill (_transferRequestQueue o) (_assetCallbackQueue o) (_meshQueryConnection o) (_numConnectResultsRcvd o) (_sendActive o) (_recvActive o) true.

Definition set_qsocket b (q : MeshQueryConnection) := mkQuery b (_isConnected q) (_queryRecvActive q) (_querySendActive q) (_sendQueue q) (_disconnectCallbackFired q).
Definition set_qconnected b (q : MeshQueryConnection) := mkQuery (_meshQuerySocket q) b (_queryRecvActive q) (_querySendActive q) (_sendQueue q) (_disconnectCallbackFired q).
Definition set_qrecv b (q : MeshQueryConnection) := mkQuery (_meshQuerySocket q) (_isConnected q) b (_querySendActive q) (_sendQueue q) (_disconnectCallbackFired q).
Definition set_qsend b (q : MeshQueryConnection) := mkQuery (_meshQuerySocket q) (_isConnected q) (_queryRecvActive q) b (_sendQueue q) (_disconnectCallbackFired q).
Definition set_qqueue l (q : MeshQueryConnection) := mkQuery (_meshQuerySocket q) (_isConnected q) (_queryRecvActive q) (_querySendActive q) l (_disconnectCallbackFired q).
Definition set_qfired b (q : MeshQueryConnection) := mkQuery (_meshQuerySocket q) (_isConnected q) (_queryRecvActive q) (_querySendActive q) (_sendQueue q) b.

Definition set_queried {CB} l (s : AssetSearch CB) := mkSearch (_uuid s) (_callBack s) (_wasFound s) l (_foundServer s) (_foundAsset s).
Definition set_found {CB} server (s : AssetSearch CB) := mkSearch (_uuid s) (_callBack s) true (_queriedServers s) (Some server) (_foundAsset s).
Definition set_asset {CB} a (s : AssetSearch CB) := mkSearch (_uuid s) (_callBack s) (_wasFound s) (_queriedServers s) (_foundServer s) a.

(** [std::set] *)
Definition set_insert (x : nat) (s : list nat) : list nat := if bool_decide (x ∈ s) then s else s ++ [x].
Definition set_erase (x : nat) (s : list nat) : list nat := filter (fun y => y <> x) s.

(** ** Operations that can close a server *)

Section mesh.
Context {CB : Type}.
Notation act := (act env (world CB)).

(** Whether a shared pointer to the server is left. *)
Definition holds (s : AssetSearch CB) (server : nat) : bool := bool_decide (server ∈ _queriedServers s) || bool_decide (_foundServer s = Some server).
Definition owned (server : nat) (w : world CB) : bool :=
  bool_decide (server ∈ refs w) || bool_decide (server ∈ _connectFailedServers w) ||
  existsb (fun x => x.2 =? server)%nat (map_to_list (_remoteServers w)) || existsb (fun x => x.2 =? server)%nat (map_to_list (_pendingServerConnections w)) ||
  existsb (fun x => holds x.2 server) (map_to_list (searches w)).

Definition cancelled (search : nat) (x : bool * op) : bool * op :=
  match x with (b, TimerWait s) => if (s =? search)%nat then (b, TimerAborted s) else x | _ => x end.
Definition cancelTimeoutTimer (this : nat) : act unit := put (set_ops (map (cancelled this))).

Definition answer_with (k : CB) (a : answer) : act unit := put (set_answers (fun l => l ++ [(k, a)])).

Definition generateNegativeResponse (this : nat) : act unit :=
  c ← sfld this _callBack;
  match c with FullCallBack k => answer_with k (Full None) | TestCallBack k => answer_with k (Test false) end.

Definition sendGetRequest (this : nat) (uuid : list Z) (callBack : nat) : act unit :=
  _ ← set_fld this (set_send true);
  _ ← async this (WriteRequest this (ClientRequestMsg.header (ClientRequestMsg.new_get ClientRequestMsg.RT_GET uuid)));
  set_fld this (fun o => set_callbacks (_assetCallbackQueue o ++ [(uuid, callBack)]) o).

(** The request is sent or queued also when the callback has been posted. *)
Definition getAsset (this : nat) (uuid : list Z) (callBack : nat) : act unit :=
  established ← fld this _assetConnectionEstablished;
  _ ← (if negb established then add_op true (Posted callBack) else mret tt);
  sendActive ← fld this _sendActive;
  if negb sendActive then sendGetRequest this uuid callBack
  else set_fld this (fun o => set_requests (_transferRequestQueue o ++ [(uuid, callBack)]) o).

Definition cancelSearch (this : nat) (assetSearch : nat) : act unit :=
  uuid ← sfld assetSearch _uuid;
  current ← fld this _currentSearches;
  match smap_find uuid current with
  | Some searchSet =>
      let searchSet := set_erase assetSearch searchSet in
      set_fld this (set_current (if bool_decide (searchSet = []) then smap_erase uuid current else smap_insert uuid searchSet current))
  | None => mret tt
  end.

(** [queue.pop] *)
Definition pop_request (this : nat) : act unit :=
  q ← fld this _transferRequestQueue;
  match q with _ :: rest => set_fld this (set_requests rest) | [] => undefined end.
Definition pop_callback (this : nat) : act unit :=
  q ← fld this _assetCallbackQueue;
  match q with _ :: rest => set_fld this (set_callbacks rest) | [] => undefined end.

Section closing.
(** [MeshServer::close]. *)
Context (close : nat -> act unit).

(** The destructor: an exception in it is caught, so that only its effect up to there counts. *)
Definition destroy (this : nat) : act unit :=
  _ ← set_fld this set_destroying;
  _ ← close this;
  put (set_servers (delete this)).

(** A shared pointer to the server goes. *)
Definition release (server : nat) : act unit :=
  o ← get (fun w => servers w !! server);
  own ← get (owned server);
  match o with
  | Some o => if own || destroying o then mret tt else destroy server
  | None => mret tt
  end.

(** A call with a shared pointer to a server. *)
Definition with_ref (server : nat) (m : act unit) : act unit :=
  _ ← put (set_refs (cons server));
  _ ← m;
  _ ← put (set_refs tail);
  release server.

(** [searchComplete], and the destruction of the search with its timer. *)
Definition searchComplete (search : nat) : act unit :=
  asset ← sfld search _foundAsset;
  _ ← put (set_informed (fun l => l ++ [asset]));
  held ← sfld search (fun s => _queriedServers s ++ option_list (_foundServer s));
  _ ← cancelTimeoutTimer search;
  _ ← put (set_searches (delete search));
  for_each held release.

Definition markSearchComplete (this : nat) : act unit := searchComplete this.

Definition onFullAssetRcvd (this : nat) (asset : option (list Z)) : act unit :=
  c ← sfld this _callBack;
  _ ← (match c with
       | FullCallBack k => _ ← set_sfld this (set_asset asset); answer_with k (Full asset)
       | TestCallBack _ => mret tt
       end);
  markSearchComplete this.

Definition serverCompleted (this : nat) (server : nat) : act unit :=
  _ ← set_sfld this (fun s => set_queried (set_erase server (_queriedServers s)) s);
  release server.

Definition cancelRemainingServers (this : nat) : act unit :=
  queried ← sfld this _queriedServers;
  _ ← for_each queried (fun server => with_ref server (cancelSearch server this));
  queried ← sfld this _queriedServers;
  _ ← set_sfld this (set_queried []);
  for_each queried release.

Definition onSearchResult (this : nat) (server : nat) (assetUUID : list Z) (found : bool) : act unit :=
  _ ← serverCompleted this server;
  if found then
    _ ← cancelTimeoutTimer this;
    _ ← cancelRemainingServers this;
    c ← sfld this _callBack;
    match c with
    | TestCallBack k => _ ← answer_with k (Test true); markSearchComplete this
    | FullCallBack _ =>
        old ← sfld this _foundServer;
        _ ← set_sfld this (set_found server);
        _ ← for_each (option_list old) release;
        uuid ← sfld this _uuid;
        getAsset server uuid this
    end
  else
    queried ← sfld this _queriedServers;
    if bool_decide (queried = []) then
      _ ← cancelTimeoutTimer this;
      _ ← generateNegativeResponse this;
      markSearchComplete this
    else mret tt.

(** The result for a search that is only known by a weak pointer. *)
Definition tell (this : nat) (uuid : list Z) (found : bool) (wsearch : nat) : act unit :=
  search ← get (fun w => searches w !! wsearch);
  match search with Some _ => with_ref this (onSearchResult wsearch this uuid found) | None => mret tt end.

(** [MeshQueryConnection::close]; its callback is [queryEndpointClosed]. *)
Definition queryEndpointClosed (this : nat) : act unit :=
  _ ← set_fld this (set_query_established false);
  close this.

Definition query_close (this : nat) : act unit :=
  connected ← fld this (fun o => _isConnected (_meshQueryConnection o));
  _ ← (if connected : bool then _ ← set_fld this (upd_query (set_qsocket false)); set_fld this (upd_query (set_qconnected false)) else mret tt);
  idle ← fld this (fun o => let q := _meshQueryConnection o in negb (_queryRecvActive q) && negb (_querySendActive q) && negb (_disconnectCallbackFired q));
  if idle : bool then
    _ ← set_fld this (upd_query (set_qfired true));
    queryEndpointClosed this
  else mret tt.

(** The loops of [close]; the fuel is the length of the queue. *)
Fixpoint kill_requests (fuel : nat) (this : nat) : act unit :=
  q ← fld this _transferRequestQueue;
  match q with
  | [] => mret tt
  | req :: _ =>
      match fuel with
      | O => out_of_fuel
      | S fuel =>
          _ ← onFullAssetRcvd req.2 None;
          _ ← pop_request this;
          kill_requests fuel this
      end
  end.

Fixpoint kill_callbacks (fuel : nat) (this : nat) : act unit :=
  q ← fld this _assetCallbackQueue;
  match q with
  | [] => mret tt
  | req :: _ =>
      match fuel with
      | O => out_of_fuel
      | S fuel =>
          _ ← onFullAssetRcvd req.2 None;
          _ ← pop_callback this;
          kill_callbacks fuel this
      end
  end.

(** In the destructor there is no shared pointer to pass on, and the exception ends the loop. *)
Definition kill_searches (this : nat) : act unit :=
  dying ← fld this destroying;
  current ← fld this _currentSearches;
  if dying : bool then mret tt
  else for_each current (fun kvp => for_each kvp.2 (tell this kvp.1 false)).

Definition onSafeToKill (meshServer : nat) : act unit :=
  ep ← fld meshServer _meshQueryEndpoint;
  old ← get (fun w => _remoteServers w !! ep);
  _ ← put (set_remote (delete ep));
  for_each (option_list old) release.

Definition onConnectFailedSafekill (meshServer : nat) : act unit :=
  _ ← put (set_failed (set_erase meshServer));
  release meshServer.

Definition checkSafeKill (this : nat) : act unit :=
  established ← fld this _assetConnectionEstablished;
  callback ← fld this _safeKillCallback;
  idle ← fld this (fun o => negb (_recvActive o) && negb (_sendActive o) && negb (_meshQueryConnectionEstablished o));
  if negb established && idle then
    match callback with
    | NoSafeKill => mret tt
    | SafeToKill => with_ref this (onSafeToKill this)
    | ConnectFailedSafekill => with_ref this (onConnectFailedSafekill this)
    end
  else mret tt.

Definition close_body (this : nat) : act unit :=
  _ ← set_fld this (set_socket false);
  _ ← query_close this;
  _ ← set_fld this (set_established false);
  requests ← fld this _transferRequestQueue;
  _ ← kill_requests (length requests) this;
  callbacks ← fld this _assetCallbackQueue;
  _ ← kill_callbacks (length callbacks) this;
  _ ← kill_searches this;
  checkSafeKill this.

End closing.

Fixpoint close (fuel : nat) (this : nat) : act unit :=
  match fuel with O => out_of_fuel | S fuel => close_body (close fuel) this end.

(** ** The connection to a peer *)

Section handlers.
Context (close : nat -> act unit).

Definition TOTAL_CONNECTION_COUNT : Z := 2.
Definition HEARTBEAT_TIMEOUT : Z := 30.

Definition new_server (now : Z) (queryEndpoint assetEndpoint : endpoint) (initialFlags : Z) : MeshServer :=
  mkServer now queryEndpoint assetEndpoint false initialFlags false false [] [] NoSafeKill [] [] (mkQuery false false false false [] false) 0 false false false.

Definition listenForAssetData (this : nat) : act unit := _ ← set_fld this (set_recv true); async this (ReadHeader this).

Definition onConnectAttemptCompleted (meshServer : nat) (connectSuccess : bool) : act unit :=
  ep ← fld meshServer _meshQueryEndpoint;
  _ ← (if connectSuccess then
         old ← get (fun w => _remoteServers w !! ep);
         _ ← put (set_remote <[ep := meshServer]>);
         _ ← for_each (option_list old) (release close);
         set_fld meshServer (set_safekill SafeToKill)
       else
         _ ← put (set_failed (set_insert meshServer));
         _ ← set_fld meshServer (set_safekill ConnectFailedSafekill);
         close meshServer);
  ep ← fld meshServer _meshQueryEndpoint;
  old ← get (fun w => _pendingServerConnections w !! ep);
  _ ← put (set_pending (delete ep));
  for_each (option_list old) (release close).

Definition onConnectionResult (this : nat) : act unit :=
  _ ← set_fld this (fun o => set_results (_numConnectResultsRcvd o + 1) o);
  n ← fld this _numConnectResultsRcvd;
  if n =? TOTAL_CONNECTION_COUNT then
    both ← fld this (fun o => _meshQueryConnectionEstablished o && _assetConnectionEstablished o);
    _ ← (if both : bool then listenForAssetData this else mret tt);
    both ← fld this (fun o => _meshQueryConnectionEstablished o && _assetConnectionEstablished o);
    with_ref close this (onConnectAttemptCompleted this both)
  else mret tt.

Definition connection_failed (this : nat) : act unit :=
  _ ← set_fld this (set_established false);
  onConnectionResult this.

(** [set_option] throws on a closed socket. *)
Definition onConnect (this : nat) (error : bool) : act unit :=
  if negb error then
    open ← fld this _serviceSocket;
    if open : bool then
      _ ← set_fld this (set_challenge AuthChallengeMsg.inbound);
      async this (ReadChallenge this)
    else uncaught
  else connection_failed this.

Definition sendChallengeResponse (this : nat) : act unit :=
  challenge ← fld this _inboundAuthChallenge;
  phrase ← checked (AuthChallengeMsg.getPhrase challenge);
  pw ← ask password;
  respMessage ← checked (AuthResponseMsg.outbound phrase pw);
  async this (WriteChallengeResponse this respMessage).

Definition onRecvChallenge (this : nat) (error : bool) (data : list Z) : act unit :=
  if negb error && negb (length data =? 0)%nat then
    _ ← set_fld this (set_challenge data);
    sendChallengeResponse this
  else connection_failed this.

Definition onChallengeResponseWrite (this : nat) (error : bool) (bytesSent : nat) : act unit :=
  if negb error && negb (bytesSent =? 0)%nat then async this (ReadAuthStatus this) else connection_failed this.

Definition onAuthenticationStatus (this : nat) (error : bool) (authStatus : list Z) : act unit :=
  if negb error && (0 <? length authStatus)%nat then
    if negb (AuthStatusMsg.validate authStatus) then connection_failed this
    else
      status ← checked (AuthStatusMsg.getAuthStatus authStatus);
      if negb (status =? AuthStatusMsg.code AuthStatusMsg.AS_AUTH_SUCCESS) then connection_failed this
      else
        _ ← set_fld this (set_established true);
        onConnectionResult this
  else connection_failed this.

Definition onQueryConnectionConnectResult (this : nat) (error : bool) : act unit :=
  _ ← (if negb error then set_fld this (set_query_established true) else mret tt);
  onConnectionResult this.

(** [_recvActive] is off before the handlers of the service socket run. *)
Definition onAfterWriteAssetRequest (this : nat) (error : bool) (bytesSent : nat) : act unit :=
  _ ← set_fld this (set_send false);
  if negb error && (0 <? bytesSent)%nat then
    established ← fld this _assetConnectionEstablished;
    queue ← fld this _transferRequestQueue;
    _ ← (match queue with
         | req :: _ =>
             if established : bool then
               _ ← sendGetRequest this req.1 req.2;
               pop_request this
             else mret tt
         | [] => mret tt
         end);
    checkSafeKill close this
  else close this.

Definition onReadResponseHeader (this : nat) (error : bool) (header : list Z) : act unit :=
  _ ← set_fld this (set_recv false);
  if negb error && (0 <? length header)%nat then
    let response := ServerResponseMsg.mk header None in
    valid ← checked (ServerResponseMsg.validateHeader response);
    code ← checked (ServerResponseMsg.getResponseCode response);
    if valid && (code =? ServerResponseMsg.code ServerResponseMsg.RC_FOUND) then
      response ← checked (ServerResponseMsg.initializeDataStorage response);
      _ ← set_fld this (set_recv true);
      async this (ReadData this response)
    else if negb valid then close this
    else
      queue ← fld this _assetCallbackQueue;
      req ← checked (head queue);
      uuid ← checked (ServerResponseMsg.getUUID response);
      if negb (bool_decide (req.1 = uuid)) then close this
      else
        _ ← onFullAssetRcvd close req.2 None;
        _ ← pop_callback this;
        size ← checked (ServerResponseMsg.getDataSize response);
        if 0 <? size then
          response ← checked (ServerResponseMsg.initializeDataStorage response);
          _ ← set_fld this (set_recv true);
          async this (ReadErrorData this response)
        else listenForAssetData this
  else close this.

Definition onHandleRequestErrorData (this : nat) (error : bool) (data : list Z) : act unit :=
  _ ← set_fld this (set_recv false);
  if negb error && (0 <? length data)%nat then listenForAssetData this else close this.

Definition onReadResponseData (this : nat) (error : bool) (data : list Z) : act unit :=
  _ ← set_fld this (set_recv false);
  established ← fld this _assetConnectionEstablished;
  if negb error && (0 <? length data)%nat && established then
    queue ← fld this _assetCallbackQueue;
    req ← checked (head queue);
    uuid ← checked (Asset.getUUID data);
    if bool_decide (uuid = req.1) then
      _ ← onFullAssetRcvd close req.2 (Some data);
      _ ← pop_callback this;
      listenForAssetData this
    else close this
  else close this.

(** ** Queries *)

Definition postResponse (this : nat) (uuid : list Z) (found : bool) : act unit :=
  current ← fld this _currentSearches;
  match smap_find uuid current with
  | Some searchSet =>
      _ ← for_each searchSet (tell close this uuid found);
      set_fld this (fun o => set_current (smap_erase uuid (_currentSearches o)) o)
  | None => mret tt
  end.

Definition updateHeartbeat (this : nat) (flags : Z) : act unit :=
  now ← ask local_time;
  set_fld this (upd_heartbeat now flags).

Definition onQueryAnswerRcvd (this : nat) (inbound : list Z) : act unit :=
  ok ← checked (IntraMeshMsg.validate inbound);
  if ok : bool then
    t ← checked (IntraMeshMsg.getRequestType inbound);
    if t =? IntraMeshMsg.STATUS_HEARTBEAT then
      flags ← checked (IntraMeshMsg.getHeartbeatFlags inbound);
      updateHeartbeat this flags
    else
      r ← checked (IntraMeshMsg.getQueryResult inbound);
      uuid ← checked (IntraMeshMsg.getAssetUUID inbound);
      postResponse this uuid ((t =? IntraMeshMsg.MESH_RESPONSE) && (r =? IntraMeshMsg.result_code IntraMeshMsg.QR_FOUND))
  else mret tt.

Definition listenForMessage (this : nat) : act unit := _ ← set_fld this (upd_query (set_qrecv true)); query_async this (QueryReading this).

Definition onAfterMeshServiceConnect (this : nat) (error : bool) : act unit :=
  _ ← (if negb error then
         open ← fld this (fun o => _meshQuerySocket (_meshQueryConnection o));
         if open : bool then
           _ ← set_fld this (upd_query (set_qconnected true));
           listenForMessage this
         else uncaught
       else set_fld this (upd_query (set_qconnected false)));
  onQueryConnectionConnectResult this error.

Definition onAfterMeshMessageReceived (this : nat) (error : bool) (inboundMsg : list Z) : act unit :=
  _ ← set_fld this (upd_query (set_qrecv false));
  if negb error && (0 <? length inboundMsg)%nat then
    _ ← onQueryAnswerRcvd this inboundMsg;
    listenForMessage this
  else query_close close this.

Definition sendQuery (this : nat) (uuid : list Z) : act unit :=
  _ ← set_fld this (upd_query (set_qsend true));
  query_async this (QueryWriting this (IntraMeshMsg.query uuid)).

Definition query_search (this : nat) (uuid : list Z) : act unit :=
  connected ← fld this (fun o => _isConnected (_meshQueryConnection o));
  if negb connected then mret tt
  else
    sendActive ← fld this (fun o => _querySendActive (_meshQueryConnection o));
    if negb sendActive then sendQuery this uuid
    else set_fld this (upd_query (fun q => set_qqueue (_sendQueue q ++ [uuid]) q)).

Definition writeNextMessage (this : nat) : act unit :=
  queue ← fld this (fun o => _sendQueue (_meshQueryConnection o));
  match queue with
  | uuid :: rest => _ ← sendQuery this uuid; set_fld this (upd_query (set_qqueue rest))
  | [] => mret tt
  end.

Definition onAfterMeshMessageWritten (this : nat) (error : bool) (bytesSent : nat) : act unit :=
  _ ← set_fld this (upd_query (set_qsend false));
  if negb error && (0 <? bytesSent)%nat then writeNextMessage this else query_close close this.

(** [MeshServer::search] *)
Definition search (this : nat) (wsearch : nat) : act unit :=
  established ← fld this _assetConnectionEstablished;
  found ← get (fun w => searches w !! wsearch);
  match found with
  | None => mret tt
  | Some s =>
      if negb established then tell close this (_uuid s) false wsearch
      else
        current ← fld this _currentSearches;
        match smap_find (_uuid s) current with
        | None =>
            _ ← set_fld this (set_current (smap_insert (_uuid s) [wsearch] current));
            query_search this (_uuid s)
        | Some l => set_fld this (set_current (smap_insert (_uuid s) (set_insert wsearch l) current))
        end
  end.

(** ** Searches *)

Definition isTimedOut (this : nat) : act bool :=
  established ← fld this _assetConnectionEstablished;
  if established : bool then
    now ← ask local_time;
    last ← fld this _lastHeartbeat;
    mret (HEARTBEAT_TIMEOUT <? now - last)
  else mret true.

Definition initiateSearch (this : nat) (server : nat) : act unit :=
  out ← isTimedOut server;
  flags ← fld server _lastHeartbeatFlags;
  if negb out && negb (Z.land flags HB_READABLE =? 0) then
    _ ← set_sfld this (fun s => set_queried (set_insert server (_queriedServers s)) s);
    search server this
  else mret tt.

(** The vector of servers holds shared pointers during the loop. *)
Definition forEachServer (visitor : nat -> act unit) : act unit :=
  known ← get (fun w => (map_to_list (_remoteServers w)).*2);
  shuffled ← ask (fun e => random_shuffle e known);
  _ ← put (set_refs (app shuffled));
  _ ← for_each shuffled visitor;
  _ ← put (set_refs (drop (length shuffled)));
  for_each shuffled (release close).

Definition performSearch (this : nat) : act unit :=
  _ ← forEachServer (initiateSearch this);
  queried ← sfld this _queriedServers;
  if bool_decide (queried = []) then
    _ ← generateNegativeResponse this;
    markSearchComplete close this
  else add_op true (TimerWait this).

Definition onTimeout (this : nat) (error : bool) : act unit :=
  if error then mret tt
  else
    wasFound ← sfld this _wasFound;
    if negb wasFound then
      _ ← cancelRemainingServers close this;
      _ ← generateNegativeResponse this;
      markSearchComplete close this
    else mret tt.

(** [MeshStorageBackend::getAsset] and [assetExists] *)
Definition new_search (uuid : list Z) (callBack : CallBack CB) : act unit :=
  this ← get next_ptr;
  _ ← put (set_next S);
  _ ← put (set_searches <[this := mkSearch uuid callBack false [] None None]>);
  performSearch this.

End handlers.

(** ** IntraMeshService: the peers *)

Section service.
Context `{BoostParse}.

Definition on_clients (m : Act.act MeshQuery.env MeshQuery.world unit) : act unit := fun e w =>
  match m (query_env e) (clients w) with
  | Done (a, c) => Done (a, set_query_clients c w) | Undefined => Undefined | Uncaught => Uncaught | NoFuel => NoFuel
  end.

(** [connect] of a new server opens both of its sockets. *)
Definition connect (this : nat) : act unit :=
  _ ← set_fld this (set_socket true);
  _ ← async this (Connecting this);
  _ ← set_fld this (upd_query (set_qsocket true));
  query_async this (QueryConnecting this).

Definition connectionIsPending (ep : endpoint) : act bool := get (fun w => bool_decide (is_Some (_pendingServerConnections w !! ep))).

Definition connectToMeshServer (initialFlags : Z) (queryEndPoint assetEndPoint : endpoint) : act unit :=
  pending ← connectionIsPending queryEndPoint;
  if negb pending then
    now ← ask local_time;
    newMeshServer ← get next_ptr;
    _ ← put (set_next S);
    _ ← put (set_servers <[newMeshServer := new_server now queryEndPoint assetEndPoint initialFlags]>);
    _ ← put (set_pending <[queryEndPoint := newMeshServer]>);
    connect newMeshServer
  else mret tt.

(** An address that is not valid throws; [onHeartBeat] catches it, and the rest of the peers has to wait. *)
Fixpoint connect_peers (peers : list IntraMeshPeerEntry) : act unit :=
  match peers with
  | [] => mret tt
  | peer :: peers =>
      match from_string (Host peer) with
      | None => mret tt
      | Some host =>
          known ← get (fun w => bool_decide (is_Some (_remoteServers w !! (host, IntraMeshPort peer))));
          _ ← (if negb known then connectToMeshServer (Z.lor HB_ONLINE HB_READABLE) (host, IntraMeshPort peer) (host, AssetServicePort peer) else mret tt);
          connect_peers peers
      end
  end.

Definition doHeartBeat : act unit :=
  _ ← on_clients heartbeat_clients;
  setting ← ask (fun e => intramesh_peers (query_env e));
  match intraMeshPeers setting with Some peers => connect_peers peers | None => mret tt end.

(** Exceptions are caught; the timer is set again in any case, so that this handler can always come. *)
Definition onHeartBeat : act unit :=
  ok ← ask reload_ok;
  if ok : bool then doHeartBeat else mret tt.

(** ** Steps *)

Definition complete (close : nat -> act unit) (o : op) (ok : bool) (data : list Z) : act unit :=
  match o with
  | Connecting s => onConnect close s (negb ok)
  | ReadChallenge s => onRecvChallenge close s (negb ok) data
  | WriteChallengeResponse s m => onChallengeResponseWrite close s (negb ok) (if ok then length m else 0)
  | ReadAuthStatus s => onAuthenticationStatus close s (negb ok) data
  | WriteRequest s m => onAfterWriteAssetRequest close s (negb ok) (if ok then length m else 0)
  | ReadHeader s => onReadResponseHeader close s (negb ok) data
  | ReadData s _ => onReadResponseData close s (negb ok) data
  | ReadErrorData s _ => onHandleRequestErrorData close s (negb ok) data
  | QueryConnecting s => onAfterMeshServiceConnect close s (negb ok)
  | QueryReading s => onAfterMeshMessageReceived close s (negb ok) data
  | QueryWriting s m => onAfterMeshMessageWritten close s (negb ok) (if ok then length m else 0)
  | TimerWait _ => undefined
  | TimerReady p => onTimeout close p false
  | TimerAborted p => onTimeout close p true
  | Posted p => onFullAssetRcvd close p None
  end.

(** How many bytes an operation reads. *)
Definition expected (o : op) : nat :=
  match o with
  | ReadChallenge _ => AuthChallengeMsg.MESSAGE_SIZE
  | ReadAuthStatus _ => AuthStatusMsg.MESSAGE_SIZE
  | ReadHeader _ => ServerResponseMsg.HEADER_SIZE
  | ReadData _ r | ReadErrorData _ r => length (default [] (ServerResponseMsg.data r))
  | QueryReading _ => IntraMeshMsg.MAX_PACKET
  | _ => 0%nat
  end.

Definition on_socket (o : op) : bool := match o with TimerWait _ | TimerReady _ | TimerAborted _ | Posted _ => false | _ => true end.
Definition can_complete (x : bool * op) (ok : bool) (data : list Z) : bool :=
  match x.2 with TimerWait _ => false | _ => if ok then x.1 && (length data =? expected x.2)%nat else on_socket x.2 end.

Inductive label :=
  | LGet (uuid : list Z) (callBack : CB)
  | LExists (uuid : list Z) (callBack : CB)
  | LIo (n : nat) (ok : bool) (data : list Z)
  | LExpire (n : nat)
  | LHeartbeat
  | LClient (l : MeshQuery.label).

(** Enough for the calls of [close] within each other. *)
Definition close_fuel (w : world CB) : nat := S (2 * size (servers w)).

(** [None] is a step that is not possible. *)
Definition step (e : env) (w : world CB) (l : label) : option (result (unit * world CB)) :=
  let close := close (close_fuel w) in
  match l with
  | LGet u k => Some (new_search close u (FullCallBack k) e w)
  | LExists u k => Some (new_search close u (TestCallBack k) e w)
  | LIo n ok data =>
      x ← ops w !! n;
      if can_complete x ok data then Some (complete close x.2 ok data e (set_ops (delete n) w)) else None
  | LExpire n => match ops w !! n with Some (b, TimerWait s) => Some (Done (tt, set_ops <[n := (b, TimerReady s)]> w)) | _ => None end
  | LHeartbeat => Some (onHeartBeat e w)
  | LClient MeshQuery.LHeartbeat => None
  | LClient l =>
      match MeshQuery.step (query_env e) (clients w) l with
      | Some (Done (a, c)) => Some (Done (a, set_query_clients c w))
      | Some Undefined => Some Undefined | Some Uncaught => Some Uncaught | Some NoFuel => Some NoFuel
      | None => None
      end
  end.

Definition started : world CB := mkWorld ∅ ∅ 0 [] ∅ ∅ [] [] [] [] MeshQuery.started.

(** Runs, with what happened, the latest first. *)
Inductive searching : list (world CB * label) -> world CB -> Prop :=
  | searching_start : searching [] started
  | searching_step tr w e l w' : searching tr w -> step e w l = Some (Done (tt, w')) -> searching ((w, l) :: tr) w'.

End service.
End mesh.
