(* ===== verification/MeshSafe.v ===== *)
(** * MeshSafe: what the mesh searches guarantee

    The invariant of the state of [Mesh], and that every handler keeps it.  Handlers that can close
    servers call [close] within each other; [depth] counts the calls that are still possible. *)
From S2P Require Import Prelude Sha1 WhipWire Uuid WhipSettings VfsData VfsStore StdMap Act MeshQuery Mesh.
From stdpp Require Import list gmap.
#[local] Open Scope Z_scope.

(** ** How deep [close] can call itself *)

Definition fired (o : MeshServer) : bool := _disconnectCallbackFired (_meshQueryConnection o).

Section depth.
Context {CB : Type}.
Implicit Type w : world CB.

Definition depth w : nat :=
  (size (filter (fun x => fired x.2 = false) (servers w)) + size (filter (fun x => destroying x.2 = false) (servers w)))%nat.

Lemma size_filter_le (f : MeshServer -> bool) (m m' : gmap nat MeshServer) :
  (forall s o', m' !! s = Some o' -> f o' = false -> exists o, m !! s = Some o /\ f o = false) ->
  (size (filter (fun x => f x.2 = false) m') <= size (filter (fun x => f x.2 = false) m))%nat.
Proof.
  intros Hs. rewrite <- !(size_dom (D := gset nat)). apply subseteq_size. intros s Hin. apply elem_of_dom in Hin as [o' [Hl HP]%map_lookup_filter_Some].
  apply elem_of_dom. destruct (Hs s o' Hl HP) as (o & Ho & HPo). exists o. by apply map_lookup_filter_Some.
Qed.

Lemma size_filter_lt (f : MeshServer -> bool) (m m' : gmap nat MeshServer) t :
  (forall s o', m' !! s = Some o' -> f o' = false -> exists o, m !! s = Some o /\ f o = false) ->
  (exists o, m !! t = Some o /\ f o = false) -> (forall o', m' !! t = Some o' -> f o' = true) ->
  (size (filter (fun x => f x.2 = false) m') < size (filter (fun x => f x.2 = false) m))%nat.
Proof.
  intros Hs (o & Ho & HPo) Hno. rewrite <- !(size_dom (D := gset nat)). apply subset_size. split.
  - intros s Hin. apply elem_of_dom in Hin as [o' [Hl HP]%map_lookup_filter_Some]. apply elem_of_dom. destruct (Hs s o' Hl HP) as (o1 & Ho1 & HPo1). exists o1. by apply map_lookup_filter_Some.
  - intros Hsub. assert (Ht : t ∈ dom (filter (fun x => f x.2 = false) m)) by (apply elem_of_dom; exists o; by apply map_lookup_filter_Some).
    apply Hsub, elem_of_dom in Ht as [o' [Hl HP]%map_lookup_filter_Some]. cbn in HP. rewrite (Hno o' Hl) in HP. done.
Qed.

(** ** What handlers do not undo *)

(** A queue stays, or is emptied. *)
Definition kept_or_empty {A} (q q' : list A) : Prop := q' = q \/ q' = [].

(** Which queues are kept, by server: that of the requests ([true]) and that of the callbacks. *)
Definition tracked : Type := nat -> bool -> bool.
Definition all : tracked := fun _ _ => true.
Definition none : tracked := fun _ _ => false.

Record rel (q : tracked) w w' : Prop := mkRel {
  rel_next : next_ptr w' = next_ptr w;
  rel_servers : forall s o', servers w' !! s = Some o' -> exists o, servers w !! s = Some o /\ (fired o = true -> fired o' = true) /\ (destroying o = true -> destroying o' = true) /\
    (q s true = true -> kept_or_empty (_transferRequestQueue o) (_transferRequestQueue o')) /\ (q s false = true -> kept_or_empty (_assetCallbackQueue o) (_assetCallbackQueue o'));
  rel_searches : forall p s', searches w' !! p = Some s' -> exists s, searches w !! p = Some s /\ _uuid s' = _uuid s /\ _callBack s' = _callBack s /\
    (_wasFound s = true -> _wasFound s' = true) /\ ((exists t b, q t b = true) -> _wasFound s' = _wasFound s) }.

Lemma kept_or_empty_trans {A} (q1 q2 q3 : list A) : kept_or_empty q1 q2 -> kept_or_empty q2 q3 -> kept_or_empty q1 q3.
Proof. unfold kept_or_empty. intros [->| ->] [->| ->]; auto. Qed.

#[export] Instance rel_preorder q : PreOrder (rel q).
Proof.
  split.
  - intros w. split; [done| |].
    + intros s o Ho. exists o. split_and!; try done; intros _; by left.
    + intros p s Hs. by exists s.
  - intros w1 w2 w3 [N1 S1 P1] [N2 S2 P2]. split; [congruence| |].
    + intros s o3 H3. destruct (S2 s o3 H3) as (o2 & H2 & F2 & D2 & Q2 & Q2'). destruct (S1 s o2 H2) as (o1 & H1 & F1 & D1 & Q1 & Q1'). exists o1. split_and!; auto.
      all: intros Hq; eapply kept_or_empty_trans; eauto.
    + intros p s3 H3. destruct (P2 p s3 H3) as (s2 & H2 & U2 & C2 & F2 & E2). destruct (P1 p s2 H2) as (s1 & H1 & U1 & C1 & F1 & E1). exists s1. split_and!; [congruence..|auto|]. intros Hq. rewrite E2, E1; done.
Qed.

Lemma rel_depth q w w' : rel q w w' -> (depth w' <= depth w)%nat.
Proof.
  intros [_ Hs _]. unfold depth. apply Nat.add_le_mono.
  - apply (size_filter_le fired). intros s o' Ho' Hf. destruct (Hs s o' Ho') as (o & Ho & Hfo & _). exists o. split; [done|]. destruct (fired o); [by rewrite Hfo in Hf|done].
  - apply (size_filter_le destroying). intros s o' Ho' Hf. destruct (Hs s o' Ho') as (o & Ho & _ & Hdo & _). exists o. split; [done|]. destruct (destroying o); [by rewrite Hdo in Hf|done].
Qed.

Lemma depth_size w : (depth w <= 2 * size (servers w))%nat.
Proof.
  unfold depth. assert (Hf : forall P `{!forall x, Decision (P x)}, (size (filter P (servers w)) <= size (servers w))%nat).
  { intros P HP. rewrite <- !(size_dom (D := gset nat)). apply subseteq_size. apply dom_filter_subseteq. }
  pose proof (Hf (fun x => fired x.2 = false) _). pose proof (Hf (fun x => destroying x.2 = false) _). lia.
Qed.

(** Both calls of [close] by itself use up some of the depth. *)
Lemma depth_fired w s o : servers w !! s = Some o -> fired o = false -> (depth (set_servers <[s := upd_query (set_qfired true) o]> w) < depth w)%nat.
Proof.
  intros Ho Hf. unfold depth. apply Nat.add_lt_le_mono.
  - apply (size_filter_lt fired _ _ s); [|by exists o|].
    + intros t o' Ht Hft. cbn in Ht. destruct (decide (t = s)) as [->|Hne]; [exists o; done|]. rewrite lookup_insert_ne in Ht by done. by exists o'.
    + intros o' Ht. cbn in Ht. rewrite lookup_insert_eq in Ht. by injection Ht as <-.
  - apply (size_filter_le destroying). intros t o' Ht Hft. cbn in Ht. destruct (decide (t = s)) as [->|Hne].
    + rewrite lookup_insert_eq in Ht. injection Ht as <-. by exists o.
    + rewrite lookup_insert_ne in Ht by done. by exists o'.
Qed.

Lemma depth_destroying w s o : servers w !! s = Some o -> destroying o = false -> (depth (set_servers <[s := set_destroying o]> w) < depth w)%nat.
Proof.
  intros Ho Hf. unfold depth. apply Nat.add_le_lt_mono.
  - apply (size_filter_le fired). intros t o' Ht Hft. cbn in Ht. destruct (decide (t = s)) as [->|Hne].
    + rewrite lookup_insert_eq in Ht. injection Ht as <-. by exists o.
    + rewrite lookup_insert_ne in Ht by done. by exists o'.
  - apply (size_filter_lt destroying _ _ s); [|by exists o|].
    + intros t o' Ht Hft. cbn in Ht. destruct (decide (t = s)) as [->|Hne]; [exists o; done|]. rewrite lookup_insert_ne in Ht by done. by exists o'.
    + intros o' Ht. cbn in Ht. rewrite lookup_insert_eq in Ht. by injection Ht as <-.
Qed.

End depth.

(** ** The invariant *)

Definition cb_of {CB} (c : CallBack CB) : CB := match c with FullCallBack k | TestCallBack k => k end.
Definition is_full {CB} (c : CallBack CB) : bool := match c with FullCallBack _ => true | TestCallBack _ => false end.
(** The transfers that a server has been asked for. *)
Definition transfers (o : MeshServer) : list PendingTransferRequest := _transferRequestQueue o ++ _assetCallbackQueue o.

Section invariant.
Context {CB : Type}.
Implicit Type w : world CB.
(** The requests that were made, with the ids, and the ids that a peer has reported as found. *)
Context (req : list (CallBack CB * list Z)) (found : list (list Z)).

(** What will wake up a search. *)
Definition waits w (p : nat) (s : AssetSearch CB) : Prop :=
  if _wasFound s then (exists t o u, servers w !! t = Some o /\ (u, p) ∈ transfers o) \/ (exists b, (b, Posted p) ∈ ops w)
  else exists b, (b, TimerWait p) ∈ ops w \/ (b, TimerReady p) ∈ ops w.

Definition transfer_ok w (x : PendingTransferRequest) : Prop :=
  (x.2 < next_ptr w)%nat /\ forall s, searches w !! x.2 = Some s -> _uuid s = x.1 /\ is_full (_callBack s) = true.
Definition current_ok w (x : list Z * list nat) : Prop :=
  forall p, p ∈ x.2 -> (p < next_ptr w)%nat /\ forall s, searches w !! p = Some s -> _uuid s = x.1.
Definition answer_ok (x : CB * answer) : Prop :=
  match x.2 with
  | Full (Some a) => exists u, (FullCallBack x.1, u) ∈ req /\ Asset.getUUID a = Some u
  | Test true => exists u, (TestCallBack x.1, u) ∈ req /\ u ∈ found
  | _ => True
  end.

(** The searches in [X] are in the hands of a running function. *)
Record inv (X : list nat) w : Prop := mkInv {
  inv_accounted : (answers w).*1 ++ (cb_of ∘ _callBack ∘ snd <$> map_to_list (searches w)) ≡ₚ cb_of <$> req.*1;
  inv_answers : Forall answer_ok (answers w);
  inv_searches : forall p s, searches w !! p = Some s -> (p < next_ptr w)%nat /\ (_callBack s, _uuid s) ∈ req /\ (p ∉ X -> waits w p s);
  inv_servers : forall t o, servers w !! t = Some o -> (t < next_ptr w)%nat /\ Forall (transfer_ok w) (transfers o) /\ Forall (current_ok w) (_currentSearches o);
  inv_posted : forall b p, (b, Posted p) ∈ ops w -> (p < next_ptr w)%nat /\ forall s, searches w !! p = Some s -> is_full (_callBack s) = true }.

Lemma mesh_inv_weaken X Y w : X ⊆ Y -> inv X w -> inv Y w.
Proof using Type. intros HX [H1 H2 H3 H4 H5]. split; try done. intros p s Hs. destruct (H3 p s Hs) as (? & ? & Hw). split_and!; [done|done|]. intros Hp. apply Hw. set_solver. Qed.

Lemma inv_dead X p w : searches w !! p = None -> inv (p :: X) w -> inv X w.
Proof using Type.
  intros Hp [H1 H2 H3 H4 H5]. split; try done. intros q s Hs. destruct (H3 q s Hs) as (? & ? & Hw). split_and!; [done|done|]. intros HX. apply Hw. intros [->|]%elem_of_cons; congruence.
Qed.

(** Changes that the invariant does not see. *)
Lemma inv_same X w w' : inv X w -> servers w' = servers w -> searches w' = searches w -> next_ptr w' = next_ptr w -> ops w' = ops w -> answers w' = answers w -> inv X w'.
Proof using Type.
  destruct w, w'. cbn. intros [H1 H2 H3 H4 H5] -> -> -> -> ->. by split.
Qed.

(** The operations that wake up a search. *)
Definition wakes (o : op) : option nat := match o with TimerWait p | TimerReady p | Posted p => Some p | _ => None end.

Lemma inv_ops X w f : inv X w -> (forall x p, x ∈ ops w -> wakes x.2 = Some p -> p ∉ X -> x ∈ f (ops w)) -> (forall b p, (b, Posted p) ∈ f (ops w) -> (b, Posted p) ∈ ops w) -> inv X (set_ops f w).
Proof using Type.
  intros [H1 H2 H3 H4 H5] Hf Hp. split; try done.
  - intros p s Hs. destruct (H3 p s Hs) as (? & ? & Hw). split_and!; [done|done|]. intros HX. specialize (Hw HX). unfold waits in *. cbn. destruct (_wasFound s).
    + destruct Hw as [Hw|[b Hb]]; [by left|right; exists b; by apply (Hf _ p)].
    + destruct Hw as (b & [Hb|Hb]); exists b; [left|right]; by apply (Hf _ p).
  - intros b p Hb. cbn in Hb. apply (H5 b). by apply Hp.
Qed.

Lemma inv_add_op X w b o : inv X w -> on_socket o = true -> inv X (set_ops (fun os => os ++ [(b, o)]) w).
Proof using Type.
  intros Hi Ho. apply inv_ops; [done|intros x q Hx _ _; by apply elem_of_app; left|]. intros b' p [?|[= -> <-]%list_elem_of_singleton]%elem_of_app; done.
Qed.

(** An object changes in fields that the invariant does not see. *)
Lemma inv_server X w t o o' : inv X w -> servers w !! t = Some o -> transfers o' = transfers o -> _currentSearches o' = _currentSearches o -> inv X (set_servers <[t := o']> w).
Proof using Type.
  intros [H1 H2 H3 H4 H5] Ho Ht Hc. split; try done.
  - intros p s Hs. destruct (H3 p s Hs) as (? & ? & Hw). split_and!; [done|done|]. intros HX. specialize (Hw HX). unfold waits in *. destruct (_wasFound s); [|done].
    destruct Hw as [(t1 & o1 & u & Ho1 & Hin)|]; [|by right]. left. destruct (decide (t1 = t)) as [->|Hne].
    + exists t, o', u. cbn. rewrite lookup_insert_eq. split; [done|]. rewrite Ht. congruence.
    + exists t1, o1, u. cbn. by rewrite lookup_insert_ne.
  - intros t1 o1 Ho1. cbn in Ho1. destruct (decide (t1 = t)) as [->|Hne].
    + rewrite lookup_insert_eq in Ho1. injection Ho1 as <-. rewrite Ht, Hc. by apply (H4 t).
    + rewrite lookup_insert_ne in Ho1 by done. by apply (H4 t1).
Qed.

Lemma inv_search X w p s s' : inv X w -> searches w !! p = Some s -> _uuid s' = _uuid s -> _callBack s' = _callBack s -> (p ∉ X -> _wasFound s' = _wasFound s) -> inv X (set_searches <[p := s']> w).
Proof using Type.
  intros [H1 H2 H3 H4 H5] Hs Hu Hc Hf.
  assert (Hlook : forall q r, <[p := s']> (searches w) !! q = Some r -> exists r0, searches w !! q = Some r0 /\ _uuid r = _uuid r0 /\ _callBack r = _callBack r0 /\ (q ∉ X -> _wasFound r = _wasFound r0)).
  { intros q r. destruct (decide (q = p)) as [->|Hne]; [rewrite lookup_insert_eq; intros [= <-]; by exists s|]. rewrite lookup_insert_ne by done. intros Hr. by exists r. }
  split; try done.
  - rewrite <- H1. apply Permutation_app_head. cbn. rewrite <- (insert_delete_id _ _ _ Hs) at 2. rewrite <- insert_delete_eq. rewrite !map_to_list_insert by apply lookup_delete_eq. cbn. by rewrite Hc.
  - intros q r Hr. destruct (Hlook q r Hr) as (r0 & Hr0 & Hu0 & Hc0 & Hf0). destruct (H3 q r0 Hr0) as (? & ? & Hw). split_and!; [done|by rewrite Hu0, Hc0|].
    intros HX. specialize (Hw HX). unfold waits in *. by rewrite (Hf0 HX).
  - intros t o Ho. destruct (H4 t o Ho) as (? & Ht & Hcur). split_and!; [done| |].
    + eapply Forall_impl; [exact Ht|]. intros x [Hx Hx']. split; [done|]. intros r Hr. destruct (Hlook _ r Hr) as (r0 & Hr0 & Hu0 & Hc0 & _). rewrite Hu0, Hc0. by apply Hx'.
    + eapply Forall_impl; [exact Hcur|]. intros x Hx q Hq. destruct (Hx q Hq) as [? Hx']. split; [done|]. intros r Hr. destruct (Hlook _ r Hr) as (r0 & Hr0 & Hu0 & _). rewrite Hu0. by apply Hx'.
  - intros b q Hb. destruct (H5 b q Hb) as [? Hx']. split; [done|]. intros r Hr. destruct (Hlook _ r Hr) as (r0 & Hr0 & _ & Hc0 & _). rewrite Hc0. by apply Hx'.
Qed.

(** The timer of a search that is in the hands of a function, or gone. *)
Lemma cancelled_other p x : (forall q, x.2 = TimerWait q -> q <> p) -> cancelled p x = x.
Proof using Type. destruct x as [b [| | | | | | | | | | |q| | |]]; try done. intros Hq. cbn. destruct (Nat.eqb_spec q p); [by destruct (Hq q eq_refl)|done]. Qed.

Lemma inv_cancel X p w : inv X w -> inv (p :: X) (set_ops (map (cancelled p)) w).
Proof using Type.
  intros [H1 H2 H3 H4 H5]. split; try done.
  - intros q s Hs. destruct (H3 q s Hs) as (? & ? & Hw). split_and!; [done|done|]. intros HX. assert (q <> p /\ q ∉ X) as [Hqp HqX] by set_solver. specialize (Hw HqX).
    assert (Hin : forall b o, (b, o) ∈ ops w -> o = TimerWait q \/ o = TimerReady q \/ o = Posted q -> (b, o) ∈ map (cancelled p) (ops w)).
    { intros b o Hb Ho. apply list_elem_of_fmap. exists (b, o). split; [|done]. symmetry. apply cancelled_other. cbn. intros q' Hq'. destruct Ho as [->|[->| ->]]; congruence. }
    unfold waits in *. cbn. destruct (_wasFound s).
    + destruct Hw as [Hw|[b Hb]]; [by left|right; exists b; apply Hin; tauto].
    + destruct Hw as (b & [Hb|Hb]); exists b; [left|right]; apply Hin; tauto.
  - intros b q Hb. cbn in Hb. apply list_elem_of_fmap in Hb as ([b' o] & Hx & Hin). apply (H5 b). destruct o; cbn in Hx; try case_match; by simplify_eq.
Qed.

(** The callback of a search is called and the search is gone. *)
Lemma inv_finish X p w s a : inv X w -> searches w !! p = Some s -> answer_ok (cb_of (_callBack s), a) -> 
  inv X (set_searches (delete p) (set_answers (fun l => l ++ [(cb_of (_callBack s), a)]) w)).
Proof using Type.
  intros [H1 H2 H3 H4 H5] Hs Ha.
  assert (Hlook : forall q r, delete p (searches w) !! q = Some r -> searches w !! q = Some r) by (intros q r [_ ?]%lookup_delete_Some; done).
  split; cbn.
  - rewrite <- H1. rewrite <- (insert_delete_id _ _ _ Hs) at 2. rewrite map_to_list_insert by apply lookup_delete_eq. rewrite fmap_app. cbn. by rewrite <- app_assoc.
  - apply Forall_app. by split; [|constructor].
  - intros q r Hr. apply Hlook in Hr. destruct (H3 q r Hr) as (? & ? & Hw). done.
  - intros t o Ho. destruct (H4 t o Ho) as (? & Ht & Hcur). split_and!; [done| |].
    + eapply Forall_impl; [exact Ht|]. intros x [Hx Hx']. split; [done|]. intros r Hr. by apply Hx', Hlook.
    + eapply Forall_impl; [exact Hcur|]. intros x Hx q Hq. destruct (Hx q Hq) as [? Hx']. split; [done|]. intros r Hr. by apply Hx', Hlook.
  - intros b q Hb. destruct (H5 b q Hb) as [? Hx']. split; [done|]. intros r Hr. by apply Hx', Hlook.
Qed.

(** The transfers of a server change: what goes belongs to searches that are gone, what comes is in order. *)
Lemma inv_transfers X w t o o' : inv X w -> servers w !! t = Some o -> _currentSearches o' = _currentSearches o ->
  (forall x, x ∈ transfers o -> x ∈ transfers o' \/ searches w !! x.2 = None) -> Forall (transfer_ok w) (transfers o') -> inv X (set_servers <[t := o']> w).
Proof using Type.
  intros [H1 H2 H3 H4 H5] Ho Hc Hgo Hcome. split; try done.
  - intros p s Hs. destruct (H3 p s Hs) as (? & ? & Hw). split_and!; [done|done|]. intros HX. specialize (Hw HX). unfold waits in *. destruct (_wasFound s); [|done].
    destruct Hw as [(t1 & o1 & u & Ho1 & Hin)|]; [|by right]. left. destruct (decide (t1 = t)) as [->|Hne].
    + exists t, o', u. cbn. rewrite lookup_insert_eq. split; [done|]. assert (o1 = o) as -> by congruence. destruct (Hgo _ Hin) as [|Hnone]; [done|]. cbn in Hnone, Hs. congruence.
    + exists t1, o1, u. cbn. by rewrite lookup_insert_ne.
  - intros t1 o1 Ho1. cbn in Ho1. destruct (decide (t1 = t)) as [->|Hne].
    + rewrite lookup_insert_eq in Ho1. injection Ho1 as <-. destruct (H4 t o Ho) as (? & ? & ?). by rewrite Hc.
    + rewrite lookup_insert_ne in Ho1 by done. by apply (H4 t1).
Qed.

(** A search that has been found waits for a transfer. *)
Lemma inv_waiting X w p : inv (p :: X) w -> (forall s, searches w !! p = Some s -> waits w p s) -> inv X w.
Proof using Type.
  intros [H1 H2 H3 H4 H5] Hp. split; try done. intros q s Hs. destruct (H3 q s Hs) as (? & ? & Hw). split_and!; [done|done|]. intros HX.
  destruct (decide (q = p)) as [->|Hne]; [by apply Hp|]. apply Hw. set_solver.
Qed.

Lemma inv_delete_server X w t : inv X w -> (forall o, servers w !! t = Some o -> transfers o = []) -> inv X (set_servers (delete t) w).
Proof using Type.
  intros [H1 H2 H3 H4 H5] He. split; try done.
  - intros p s Hs. destruct (H3 p s Hs) as (? & ? & Hw). split_and!; [done|done|]. intros HX. specialize (Hw HX). unfold waits in *. destruct (_wasFound s); [|done].
    destruct Hw as [(t1 & o1 & u & Ho1 & Hin)|]; [|by right]. left. exists t1, o1, u. cbn. rewrite lookup_delete_ne; [done|]. intros <-. rewrite (He o1 Ho1) in Hin. by apply elem_of_nil in Hin.
  - intros t1 o1 Ho1. cbn in Ho1. apply lookup_delete_Some in Ho1 as [_ Ho1]. by apply (H4 t1).
Qed.

Lemma mesh_inv_post X w p b : inv X w -> (p < next_ptr w)%nat -> (forall s, searches w !! p = Some s -> is_full (_callBack s) = true) -> inv X (set_ops (fun os => os ++ [(b, Posted p)]) w).
Proof using Type.
  intros [H1 H2 H3 H4 H5] Hp Hfull. split; try done.
  - intros q s Hs. destruct (H3 q s Hs) as (? & ? & Hw). split_and!; [done|done|]. intros HX. specialize (Hw HX). unfold waits in *. cbn. destruct (_wasFound s).
    + destruct Hw as [Hw|[b' Hb]]; [by left|right; exists b'; apply elem_of_app; by left].
    + destruct Hw as (b' & [Hb|Hb]); exists b'; [left|right]; apply elem_of_app; by left.
  - intros b' q [Hb|[= -> ->]%list_elem_of_singleton]%elem_of_app; [by apply (H5 b')|done].
Qed.

Lemma inv_current X w t o l : inv X w -> servers w !! t = Some o -> Forall (current_ok w) l -> inv X (set_servers <[t := set_current l o]> w).
Proof using Type.
  intros Hi Ho Hl. pose proof (inv_server X w t o (set_current (_currentSearches o) o) Hi Ho eq_refl eq_refl) as [H1 H2 H3 H4 H5]. split; try done.
  - intros p s Hs. destruct (H3 p s Hs) as (? & ? & Hw). split_and!; [done|done|]. intros HX. specialize (Hw HX). unfold waits in *. destruct (_wasFound s); [|done].
    destruct Hw as [(t1 & o1 & u & Ho1 & Hin)|]; [|by right]. left. cbn in Ho1. destruct (decide (t1 = t)) as [->|Hne].
    + rewrite lookup_insert_eq in Ho1. injection Ho1 as <-. exists t, (set_current l o), u. cbn. by rewrite lookup_insert_eq.
    + rewrite lookup_insert_ne in Ho1 by done. exists t1, o1, u. cbn. by rewrite lookup_insert_ne.
  - intros t1 o1 Ho1. cbn in Ho1. destruct (decide (t1 = t)) as [->|Hne].
    + rewrite lookup_insert_eq in Ho1. injection Ho1 as <-. destruct (inv_servers _ _ Hi t o Ho) as (? & ? & _). done.
    + rewrite lookup_insert_ne in Ho1 by done. by apply (inv_servers _ _ Hi t1).
Qed.

Lemma elem_of_delete_other {A} (l : list A) n x y : l !! n = Some y -> x ∈ l -> x <> y -> x ∈ delete n l.
Proof using Type. intros Hn Hx Hne. rewrite (delete_Permutation _ _ _ Hn) in Hx. by apply elem_of_cons in Hx as [|]. Qed.

Lemma delete_elem {A} (l : list A) n x : x ∈ delete n l -> x ∈ l.
Proof using Type. intros Hx. by eapply elem_of_submseteq, sublist_submseteq, sublist_delete. Qed.

(** The operation is taken from the io service; a search that it was to wake up is then in the hands of its handler. *)
Lemma mesh_inv_take X w n x : inv [] w -> ops w !! n = Some x -> (forall p, wakes x.2 = Some p -> p ∈ X) -> inv X (set_ops (delete n) w).
Proof using Type.
  intros Hi Hn Hx. apply inv_ops.
  - apply (mesh_inv_weaken []); [set_solver|done].
  - intros y p Hy Hwy HX. apply (elem_of_delete_other _ _ _ x); [done|done|]. intros ->. by apply HX, Hx.
  - intros b p. apply delete_elem.
Qed.

(** ** Reasoning about handlers *)

(** Nothing waits for a transfer from the server. *)
Definition emptied (t : nat) w : Prop := forall o, servers w !! t = Some o -> transfers o = [].

Section handlers.
Context (e : env) (k : nat) (close : nat -> act env (world CB) unit).
Notation act := (act env (world CB)).
Context (Hclose : forall X t w, (depth w < k)%nat -> inv X w -> ends (close t) e w (fun _ w' => rel all w w' /\ inv X w' /\ emptied t w')).

(** From a state with [P], where [close] can be called, the action ends in a state with [Q] (or not normally), and undoes nothing. *)
Definition hoare (q : tracked) {A} (P : world CB -> Prop) (m : act A) (Q : A -> world CB -> Prop) : Prop :=
  forall w, (depth w <= k)%nat -> P w -> ends m e w (fun a w' => rel q w w' /\ Q a w').
Definition keeps (q : tracked) (P : world CB -> Prop) {A} (m : act A) : Prop := hoare q P m (fun _ => P).

Lemma rel_weaken w w' q : rel all w w' -> rel q w w'.
Proof using Type.
  intros [H1 H2 H3]. split; [done| |].
  intros s o' Ho'. destruct (H2 s o' Ho') as (o & ? & ? & ? & Hq & Hq'). exists o. split_and!; auto.
  intros p s Hs. destruct (H3 p s Hs) as (s0 & ? & ? & ? & ? & He). exists s0. split_and!; auto. intros _. apply He. by exists 0%nat, true.
Qed.

Lemma hoare_bind q {A B} P (m : act A) (f : A -> act B) Q R : hoare q P m Q -> (forall a, hoare q (Q a) (f a) R) -> hoare q P (m ≫= f) R.
Proof using Type.
  intros Hm Hf w Hd HP. apply acts_bind. eapply acts_mono; [by apply Hm|]. intros a w1 [Hr HQ].
  eapply acts_mono; [apply Hf; [|done]|]. { etrans; [by eapply rel_depth|done]. } intros b w2 [Hr2 HR]. split; [by trans w1|done].
Qed.

Lemma mesh_keeps_bind q {A B} P (m : act A) (f : A -> act B) : keeps q P m -> (forall a, keeps q P (f a)) -> keeps q P (m ≫= f).
Proof using Type. apply hoare_bind. Qed.

Lemma hoare_weaken q {A} P (m : act A) Q : hoare all P m Q -> hoare q P m Q.
Proof using Type. intros Hm w Hd HP. eapply acts_mono; [by apply Hm|]. intros a w' [Hr HQ]. split; [by apply rel_weaken|done]. Qed.

Lemma hoare_mono q {A} (P P' : world CB -> Prop) (m : act A) (Q Q' : A -> world CB -> Prop) :
  hoare q P m Q -> (forall w, P' w -> P w) -> (forall a w, Q a w -> Q' a w) -> hoare q P' m Q'.
Proof using Type. intros Hm HP HQ w Hd HP'. eapply acts_mono; [apply Hm; auto|]. intros a w' [? ?]. auto. Qed.

(** Reads. *)
Lemma hoare_fld q {A} P t (f : MeshServer -> A) : hoare q P (fld t f) (fun a w => P w /\ exists o, servers w !! t = Some o /\ a = f o).
Proof using Type. intros w _ HP. unfold ends, fld. destruct (servers w !! t) as [o|] eqn:E; [|done]. split; [done|]. split; [done|]. by exists o. Qed.
Lemma hoare_sfld q {A} P p (f : AssetSearch CB -> A) : hoare q P (sfld p f) (fun a w => P w /\ exists s, searches w !! p = Some s /\ a = f s).
Proof using Type. intros w _ HP. unfold ends, sfld. destruct (searches w !! p) as [s|] eqn:E; [|done]. split; [done|]. split; [done|]. by exists s. Qed.
Lemma hoare_get q {A} P (f : world CB -> A) : hoare q P (get f) (fun a w => P w /\ a = f w).
Proof using Type. intros w _ HP. by apply acts_get. Qed.
Lemma hoare_checked q {A} P (x : option A) : hoare q P (checked x) (fun a w => P w /\ x = Some a).
Proof using Type. intros w _ HP. apply acts_checked. intros a ->. done. Qed.

Lemma mesh_keeps_fld q {A} P t (f : MeshServer -> A) : keeps q P (fld t f).
Proof using Type. eapply hoare_mono; [apply hoare_fld|done|]. by intros a w [? _]. Qed.
Lemma mesh_keeps_sfld q {A} P p (f : AssetSearch CB -> A) : keeps q P (sfld p f).
Proof using Type. eapply hoare_mono; [apply hoare_sfld|done|]. by intros a w [? _]. Qed.
Lemma mesh_keeps_get q {A} P (f : world CB -> A) : keeps q P (get f).
Proof using Type. intros w _ HP. by apply acts_get. Qed.
Lemma mesh_keeps_ask q {A} P (f : env -> A) : keeps q P (ask f).
Proof using Type. intros w _ HP. by apply acts_ask. Qed.
Lemma mesh_keeps_checked q {A} P (x : option A) : keeps q P (checked x).
Proof using Type. intros w _ HP. by apply acts_checked. Qed.
Lemma mesh_keeps_ret q {A} P (a : A) : keeps q P (mret a).
Proof using Type. by intros w _ HP. Qed.
Lemma mesh_keeps_undefined q {A} P : keeps q P (undefined (A := A)).
Proof using Type. by intros w _ HP. Qed.
Lemma mesh_keeps_uncaught q {A} P : keeps q P (uncaught (A := A)).
Proof using Type. by intros w _ HP. Qed.

(** Writes. *)
Lemma mesh_keeps_put q P f : (forall w, P w -> rel q w (f w) /\ P (f w)) -> keeps q P (put f).
Proof using Type. intros Hf w _ HP. apply acts_put. by apply Hf. Qed.

Lemma rel_same q w w' : servers w' = servers w -> searches w' = searches w -> next_ptr w' = next_ptr w -> rel q w w'.
Proof using Type. intros Hs Hp Hn. split; [done| |]; rewrite ?Hs, ?Hp; [intros t o Ho; exists o; split_and!; try done; intros _; by left|intros p s Hs'; by exists s]. Qed.

(** Fields of the state that the invariant does not see. *)
Definition unseen (f : world CB -> world CB) : Prop :=
  forall w, servers (f w) = servers w /\ searches (f w) = searches w /\ next_ptr (f w) = next_ptr w /\ ops (f w) = ops w /\ answers (f w) = answers w.
Lemma mesh_keeps_unseen q X f : unseen f -> keeps q (inv X) (put f).
Proof using Type. intros Hf. apply mesh_keeps_put. intros w Hw. destruct (Hf w) as (H1 & H2 & H3 & H4 & H5). split; [by apply rel_same|by apply (inv_same X w)]. Qed.

Lemma rel_server q w t o o' : servers w !! t = Some o -> (fired o = true -> fired o' = true) -> (destroying o = true -> destroying o' = true) ->
  (q t true = true -> kept_or_empty (_transferRequestQueue o) (_transferRequestQueue o')) -> (q t false = true -> kept_or_empty (_assetCallbackQueue o) (_assetCallbackQueue o')) -> rel q w (set_servers <[t := o']> w).
Proof using Type.
  intros Ho Hf Hd Hq Hq'. split; [done| |intros p s Hs; by exists s]. intros t1 o1 Ho1. cbn in Ho1. destruct (decide (t1 = t)) as [->|Hne].
  - rewrite lookup_insert_eq in Ho1. injection Ho1 as <-. by exists o.
  - rewrite lookup_insert_ne in Ho1 by done. exists o1. split_and!; try done; intros _; by left.
Qed.

(** Fields of a server that the invariant does not see. *)
Definition quiet (f : MeshServer -> MeshServer) : Prop :=
  forall o, _transferRequestQueue (f o) = _transferRequestQueue o /\ _assetCallbackQueue (f o) = _assetCallbackQueue o /\ _currentSearches (f o) = _currentSearches o /\
    (fired o = true -> fired (f o) = true) /\ (destroying o = true -> destroying (f o) = true).
Lemma mesh_keeps_set_fld q X t f : quiet f -> keeps q (inv X) (set_fld t f).
Proof using Type.
  intros Hf w _ HP. unfold ends, set_fld. destruct (servers w !! t) as [o|] eqn:E; [|done]. destruct (Hf o) as (H1 & H2 & H3 & H4 & H5). split.
  - apply (rel_server q w t o); try done; intros _; left; congruence.
  - apply (inv_server X w t o); [done|done| |done]. unfold transfers. congruence.
Qed.

Lemma mesh_keeps_set_sfld q X p f : (forall s, _uuid (f s) = _uuid s /\ _callBack (f s) = _callBack s /\ _wasFound (f s) = _wasFound s) -> keeps q (inv X) (set_sfld p f).
Proof using Type.
  intros Hf w _ HP. unfold ends, set_sfld. destruct (searches w !! p) as [s|] eqn:E; [|done]. destruct (Hf s) as (H1 & H2 & H3). split.
  - split; [done|intros t o Ho; exists o; split_and!; try done; intros _; by left|]. intros p1 s1 Hs1. cbn in Hs1. destruct (decide (p1 = p)) as [->|Hne].
    + rewrite lookup_insert_eq in Hs1. injection Hs1 as <-. exists s. rewrite H3. by split_and!.
    + rewrite lookup_insert_ne in Hs1 by done. by exists s1.
  - by apply (inv_search X w p s).
Qed.

Lemma mesh_keeps_add_op q X b o : on_socket o = true -> keeps q (inv X) (add_op b o).
Proof using Type. intros Ho. apply mesh_keeps_put. intros w Hw. split; [by apply rel_same|by apply inv_add_op]. Qed.
Lemma mesh_keeps_async q X t o : on_socket o = true -> keeps q (inv X) (async t o).
Proof using Type. intros Ho. apply mesh_keeps_bind; [apply mesh_keeps_fld|]. intros b. by apply mesh_keeps_add_op. Qed.
Lemma mesh_keeps_query_async q X t o : on_socket o = true -> keeps q (inv X) (query_async t o).
Proof using Type. intros Ho. apply mesh_keeps_bind; [apply mesh_keeps_fld|]. intros b. by apply mesh_keeps_add_op. Qed.

Lemma mesh_keeps_for_each q {A} P (l : list A) body : (forall x, x ∈ l -> keeps q P (body x)) -> keeps q P (for_each l body).
Proof using Type.
  induction l as [|x l IH]; intros Hb; [apply mesh_keeps_ret|]. apply mesh_keeps_bind; [apply Hb; left|]. intros _. apply IH. intros y Hy. apply Hb. by right.
Qed.

(** ** Functions that can destroy servers *)

Lemma mesh_keeps_release X t : keeps all (inv X) (release close t).
Proof using Hclose.
  intros w Hd Hi. unfold release. apply acts_bind, acts_get, acts_bind, acts_get. destruct (servers w !! t) as [o|] eqn:Ho; [|by apply acts_ret]. destruct (owned t w || destroying o) eqn:Eb; [by apply acts_ret|].
  apply orb_false_elim in Eb as [_ Hdes]. unfold destroy. apply acts_bind. unfold ends at 1, set_fld. rewrite Ho. apply acts_bind.
  pose proof (depth_destroying w t o Ho Hdes) as Hlt. eapply acts_mono; [apply (Hclose X t); [lia|by apply (inv_server X w t o)]|].
  intros [] w2 (Hr & Hi2 & He). apply acts_put. split.
  - trans w2; [trans (set_servers <[t := set_destroying o]> w); [|done]; apply (rel_server all w t o); try done; intros _; by left|].
    split; [done| |intros p s Hs; by exists s]. intros s o' Hs. cbn in Hs. apply lookup_delete_Some in Hs as [_ Hs]. exists o'. split_and!; try done; intros _; by left.
  - by apply inv_delete_server.
Qed.

Lemma mesh_keeps_with_ref q X t m : keeps q (inv X) m -> keeps q (inv X) (with_ref close t m).
Proof using Hclose.
  intros Hm. apply mesh_keeps_bind; [by apply mesh_keeps_unseen|intros _]. apply mesh_keeps_bind; [done|intros _]. apply mesh_keeps_bind; [by apply mesh_keeps_unseen|intros _]. apply hoare_weaken, mesh_keeps_release.
Qed.

Lemma searchComplete_ends X p s a w : (depth w <= k)%nat -> inv X w -> searches w !! p = Some s -> answer_ok (cb_of (_callBack s), a) ->
  ends (searchComplete close p) e (set_answers (fun l => l ++ [(cb_of (_callBack s), a)]) w) (fun _ w' => rel all w w' /\ inv X w' /\ searches w' !! p = None).
Proof using Hclose.
  intros Hd Hi Hs Ha. unfold searchComplete. apply acts_bind. unfold ends at 1, sfld. cbn [searches set_answers]. rewrite Hs. apply acts_bind, acts_put, acts_bind.
  unfold ends at 1. cbn [searches set_answers set_informed]. rewrite Hs. apply acts_bind, acts_put, acts_bind, acts_put. set (w1 := set_searches (delete p) _).
  assert (Hdead : searches w1 !! p = None) by apply lookup_delete_eq.
  assert (Hi1 : inv X w1).
  { apply (inv_dead X p w1 Hdead). by apply (inv_same _ (set_ops (map (cancelled p)) (set_searches (delete p) (set_answers (fun l => l ++ [(cb_of (_callBack s), a)]) w)))); [apply inv_cancel, inv_finish|..]. }
  assert (Hr1 : rel all w w1).
  { split; [done|intros t o Ho; exists o; split_and!; try done; intros _; by left|]. intros q r Hr. cbn in Hr. apply lookup_delete_Some in Hr as [_ Hr]. by exists r. }
  eapply acts_mono; [apply (mesh_keeps_for_each all (inv X) _ (release close)); [intros t _; apply mesh_keeps_release|etrans; [by eapply rel_depth|done]|done]|].
  intros [] w2 [Hr2 Hi2]. split_and!; [by trans w1|done|]. destruct (searches w2 !! p) as [r|] eqn:Er; [|done]. destruct (rel_searches _ _ _ Hr2 p r Er) as (r1 & Hr1' & _). congruence.
Qed.

Lemma onFullAssetRcvd_ends X p asset w : (depth w <= k)%nat -> inv X w ->
  (forall s, searches w !! p = Some s -> is_full (_callBack s) = true /\ forall a, asset = Some a -> Asset.getUUID a = Some (_uuid s)) ->
  ends (onFullAssetRcvd close p asset) e w (fun _ w' => rel all w w' /\ inv X w' /\ searches w' !! p = None).
Proof using Hclose.
  intros Hd Hi Hok. unfold onFullAssetRcvd. apply acts_bind. unfold ends at 1, sfld. destruct (searches w !! p) as [s|] eqn:Hs; [|done]. destruct (Hok s eq_refl) as [Hfull Hu].
  destruct (_callBack s) as [c|] eqn:Ec; [|done]. apply acts_bind, acts_bind. unfold ends at 1, set_sfld. rewrite Hs. apply acts_put. set (w1 := set_searches <[p := set_asset asset s]> w).
  assert (Hi1 : inv X w1) by by apply (inv_search X w p s).
  assert (Hs1 : searches w1 !! p = Some (set_asset asset s)) by apply lookup_insert_eq.
  assert (Hr1 : rel all w w1).
  { split; [done|intros t o Ho; exists o; split_and!; try done; intros _; by left|]. intros q r Hr. cbn in Hr. destruct (decide (q = p)) as [->|Hne].
    - rewrite lookup_insert_eq in Hr. injection Hr as <-. by exists s.
    - rewrite lookup_insert_ne in Hr by done. by exists r. }
  assert (Ha : answer_ok (cb_of (_callBack (set_asset asset s)), Full asset)).
  { unfold answer_ok. cbn. rewrite Ec. destruct asset as [a|]; [|done]. exists (_uuid s). split; [|by apply Hu]. cbn. rewrite <- Ec. by apply (inv_searches _ _ Hi p s). }
  pose proof (searchComplete_ends X p _ _ w1 ltac:(etrans; [by eapply rel_depth|done]) Hi1 Hs1 Ha) as Hend. cbn in Hend. rewrite Ec in Hend. cbn in Hend.
  eapply acts_mono; [exact Hend|]. intros [] w2 (Hr2 & ? & ?). split_and!; [by trans w1|done|done].
Qed.

Lemma negative_ends X p w : (depth w <= k)%nat -> inv X w ->
  ends (_ ← generateNegativeResponse p; markSearchComplete close p) e w (fun _ w' => rel all w w' /\ inv X w' /\ searches w' !! p = None).
Proof using Hclose.
  intros Hd Hi. apply acts_bind. unfold generateNegativeResponse. apply acts_bind. unfold ends at 1, sfld. destruct (searches w !! p) as [s|] eqn:Hs; [|done].
  pose proof (fun a Ha => searchComplete_ends X p s a w Hd Hi Hs Ha) as Hend. destruct (_callBack s) as [c|c]; apply acts_put; cbn in Hend; by apply Hend.
Qed.

Lemma current_ends X t l w q : inv X w -> Forall (current_ok w) l -> ends (set_fld t (set_current l)) e w (fun _ w' => rel q w w' /\ inv X w').
Proof using Type.
  intros Hi Hl. unfold ends, set_fld. destruct (servers w !! t) as [o|] eqn:Ho; [|done]. split; [|by apply inv_current].
  apply (rel_server q w t o); try done; intros _; by left.
Qed.

Lemma mesh_keeps_cancelSearch X t p : keeps all (inv X) (cancelSearch t p).
Proof using Type.
  intros w Hd Hi. unfold cancelSearch. apply acts_bind. unfold ends at 1, sfld. destruct (searches w !! p) as [s|] eqn:Hs; [|done]. apply acts_bind. unfold ends at 1, fld.
  destruct (servers w !! t) as [o|] eqn:Ho; [|done]. destruct (smap_find (_uuid s) (_currentSearches o)) as [l|] eqn:Ef; [|by apply acts_ret].
  destruct (inv_servers _ _ Hi t o Ho) as (_ & _ & Hcur). apply current_ends; [done|]. case_bool_decide; [by apply Forall_smap_erase|]. apply Forall_smap_insert; [done|].
  pose proof (proj1 (Forall_forall _ _) Hcur _ (elem_of_smap_find _ _ _ Ef)) as Hl. intros p' Hp'. apply Hl. cbn in *. unfold set_erase in Hp'. by apply list_elem_of_filter in Hp' as [_ ?].
Qed.

Lemma mesh_keeps_queried q X p l : keeps q (inv X) (set_sfld p (fun s => set_queried (l s) s)).
Proof using Type. by apply mesh_keeps_set_sfld. Qed.

Lemma mesh_keeps_cancelRemainingServers X p : keeps all (inv X) (cancelRemainingServers close p).
Proof using Hclose.
  apply mesh_keeps_bind; [apply mesh_keeps_sfld|intros l]. apply mesh_keeps_bind; [apply mesh_keeps_for_each; intros t _; apply mesh_keeps_with_ref, mesh_keeps_cancelSearch|intros _].
  apply mesh_keeps_bind; [apply mesh_keeps_sfld|intros l']. apply mesh_keeps_bind; [apply mesh_keeps_queried|intros _]. apply mesh_keeps_for_each. intros t _. apply mesh_keeps_release.
Qed.

Lemma mesh_keeps_serverCompleted X p t : keeps all (inv X) (serverCompleted close p t).
Proof using Hclose. apply mesh_keeps_bind; [apply mesh_keeps_queried|intros _]. apply mesh_keeps_release. Qed.

Lemma mesh_keeps_onSearchResult_false X p t u : keeps all (inv X) (onSearchResult close p t u false).
Proof using Hclose.
  apply mesh_keeps_bind; [apply mesh_keeps_serverCompleted|intros _]. apply mesh_keeps_bind; [apply mesh_keeps_sfld|intros l]. case_bool_decide; [|apply mesh_keeps_ret].
  intros w Hd Hi. apply acts_bind, acts_put. eapply acts_mono; [apply (negative_ends (p :: X)); [|by apply inv_cancel]|].
  - etrans; [|done]. by apply (rel_depth all), rel_same.
  - intros [] w' (Hr & Hi' & Hp). split; [|by apply (inv_dead X p)]. etrans; [|done]. by apply rel_same.
Qed.

Lemma mesh_keeps_tell_false X t u p : keeps all (inv X) (tell close t u false p).
Proof using Hclose.
  apply mesh_keeps_bind; [apply mesh_keeps_get|intros [s|]]; [|apply mesh_keeps_ret]. apply mesh_keeps_with_ref, mesh_keeps_onSearchResult_false.
Qed.

(** The loops that answer the transfers of a server. *)
Lemma transfers_ok X w t o x : inv X w -> servers w !! t = Some o -> x ∈ transfers o -> forall s, searches w !! x.2 = Some s -> is_full (_callBack s) = true /\ _uuid s = x.1.
Proof using Type.
  intros Hi Ho Hx s Hs. destruct (inv_servers _ _ Hi t o Ho) as (_ & Ht & _). destruct (proj1 (Forall_forall _ _) Ht x Hx) as [_ Hok]. by destruct (Hok s Hs).
Qed.

Lemma pop_request_ends X w t o x q : inv X w -> servers w !! t = Some o -> _transferRequestQueue o = x :: q -> searches w !! x.2 = None -> inv X (set_servers <[t := set_requests q o]> w).
Proof using Type.
  intros Hi Ho Hq Hx. apply (inv_transfers X w t o); [done|done|done| |].
  - unfold transfers. rewrite Hq. cbn. intros y [->|Hy]%elem_of_cons; [by right|by left].
  - destruct (inv_servers _ _ Hi t o Ho) as (_ & Ht & _). unfold transfers in *. rewrite Hq in Ht. by inversion Ht.
Qed.

Lemma pop_callback_ends X w t o x q : inv X w -> servers w !! t = Some o -> _assetCallbackQueue o = x :: q -> searches w !! x.2 = None -> inv X (set_servers <[t := set_callbacks q o]> w).
Proof using Type.
  intros Hi Ho Hq Hx. apply (inv_transfers X w t o); [done|done|done| |].
  - unfold transfers. rewrite Hq. cbn. intros y [Hy|[->|Hy]%elem_of_cons]%elem_of_app; [left; apply elem_of_app; by left|by right|left; apply elem_of_app; by right].
  - destruct (inv_servers _ _ Hi t o Ho) as (_ & Ht & _). unfold transfers in *. rewrite Hq in Ht. apply Forall_app in Ht as [H1 H2]. inversion H2. by apply Forall_app.
Qed.

(** The queue that a loop empties. *)
Definition but (t : nat) (b : bool) : tracked := fun s c => negb ((s =? t)%nat && Bool.eqb b c).

Lemma but_all t b w w' : rel (but t b) w w' -> (forall o', servers w' !! t = Some o' -> (if b then _transferRequestQueue o' else _assetCallbackQueue o') = []) -> rel all w w'.
Proof using Type.
  intros [H1 H2 H3] He. split; [done| |].
  2:{ intros p s Hs. destruct (H3 p s Hs) as (s0 & ? & ? & ? & ? & Hf). exists s0. split_and!; auto. intros _. apply Hf. exists (S t), b. unfold but. by rewrite (proj2 (Nat.eqb_neq (S t) t)) by lia. }
  intros s o' Ho'. destruct (H2 s o' Ho') as (o & Ho & Hf & Hd & Hq & Hq'). exists o. split_and!; try done; intros _.
  - unfold but in Hq. destruct (Nat.eqb_spec s t) as [->|]; [|by apply Hq]. destruct b; [right; by apply He|by apply Hq].
  - unfold but in Hq'. destruct (Nat.eqb_spec s t) as [->|]; [|by apply Hq']. destruct b; [by apply Hq'|right; by apply He].
Qed.

Lemma kill_requests_loop X t n : forall w, (depth w <= k)%nat -> inv X w -> (forall o, servers w !! t = Some o -> (length (_transferRequestQueue o) <= n)%nat) ->
  ends (kill_requests close n t) e w (fun _ w' => rel (but t true) w w' /\ inv X w' /\ forall o, servers w' !! t = Some o -> _transferRequestQueue o = []).
Proof using Hclose.
  induction n as [|n IH]; intros w Hd Hi Hn; cbn [kill_requests]; apply acts_bind; unfold ends at 1, fld; (destruct (servers w !! t) as [o|] eqn:Ho; [|done]); specialize (Hn o eq_refl);
    (destruct (_transferRequestQueue o) as [|x q] eqn:Eq; [apply acts_ret; split_and!; [done|done|congruence]|]); cbn in Hn; [lia|].
  apply acts_bind. eapply acts_mono; [apply (onFullAssetRcvd_ends X); [done|done|]|].
  { intros s Hs. destruct (transfers_ok X w t o x Hi Ho ltac:(unfold transfers; rewrite Eq; left) s Hs) as [? _]. done. }
  intros [] w1 (Hr1 & Hi1 & Hx). apply acts_bind. unfold pop_request. apply acts_bind. unfold ends at 1, fld. destruct (servers w1 !! t) as [o1|] eqn:Ho1; [|done].
  destruct (rel_servers _ _ _ Hr1 t o1 Ho1) as (o0 & Ho0 & _ & _ & Hk & _). assert (o0 = o) as -> by congruence. destruct (Hk eq_refl) as [Hk'|Hk']; rewrite Hk', ?Eq; [|done].
  unfold ends at 1, set_fld. rewrite Ho1. set (w2 := set_servers _ w1).
  assert (Hr2 : rel (but t true) w1 w2).
  { apply (rel_server _ w1 t o1); try done; [|intros _; by left]. unfold but. by rewrite Nat.eqb_refl. }
  eapply acts_mono; [apply IH|].
  - etrans; [by eapply rel_depth|]. etrans; [by eapply rel_depth|done].
  - apply (pop_request_ends X w1 t o1 x q); congruence.
  - intros o2 Ho2. cbn in Ho2. rewrite lookup_insert_eq in Ho2. injection Ho2 as <-. cbn. lia.
  - intros [] w3 (Hr3 & ? & ?). split_and!; [|done|done]. trans w2; [|done]. trans w1; [by apply rel_weaken|done].
Qed.

Lemma kill_callbacks_loop X t n : forall w, (depth w <= k)%nat -> inv X w -> (forall o, servers w !! t = Some o -> (length (_assetCallbackQueue o) <= n)%nat) ->
  ends (kill_callbacks close n t) e w (fun _ w' => rel (but t false) w w' /\ inv X w' /\ forall o, servers w' !! t = Some o -> _assetCallbackQueue o = []).
Proof using Hclose.
  induction n as [|n IH]; intros w Hd Hi Hn; cbn [kill_callbacks]; apply acts_bind; unfold ends at 1, fld; (destruct (servers w !! t) as [o|] eqn:Ho; [|done]); specialize (Hn o eq_refl);
    (destruct (_assetCallbackQueue o) as [|x q] eqn:Eq; [apply acts_ret; split_and!; [done|done|congruence]|]); cbn in Hn; [lia|].
  apply acts_bind. eapply acts_mono; [apply (onFullAssetRcvd_ends X); [done|done|]|].
  { intros s Hs. destruct (transfers_ok X w t o x Hi Ho ltac:(unfold transfers; rewrite Eq; set_solver) s Hs) as [? _]. done. }
  intros [] w1 (Hr1 & Hi1 & Hx). apply acts_bind. unfold pop_callback. apply acts_bind. unfold ends at 1, fld. destruct (servers w1 !! t) as [o1|] eqn:Ho1; [|done].
  destruct (rel_servers _ _ _ Hr1 t o1 Ho1) as (o0 & Ho0 & _ & _ & _ & Hk). assert (o0 = o) as -> by congruence. destruct (Hk eq_refl) as [Hk'|Hk']; rewrite Hk', ?Eq; [|done].
  unfold ends at 1, set_fld. rewrite Ho1. set (w2 := set_servers _ w1).
  assert (Hr2 : rel (but t false) w1 w2).
  { apply (rel_server _ w1 t o1); try done; [intros _; by left|]. unfold but. by rewrite Nat.eqb_refl. }
  eapply acts_mono; [apply IH|].
  - etrans; [by eapply rel_depth|]. etrans; [by eapply rel_depth|done].
  - apply (pop_callback_ends X w1 t o1 x q); congruence.
  - intros o2 Ho2. cbn in Ho2. rewrite lookup_insert_eq in Ho2. injection Ho2 as <-. cbn. lia.
  - intros [] w3 (Hr3 & ? & ?). split_and!; [|done|done]. trans w2; [|done]. trans w1; [by apply rel_weaken|done].
Qed.

(** Both loops together, from the lengths of the queues. *)
Definition no_requests (t : nat) w : Prop := forall o, servers w !! t = Some o -> _transferRequestQueue o = [].
Definition no_callbacks (t : nat) w : Prop := forall o, servers w !! t = Some o -> _assetCallbackQueue o = [].

Lemma rel_no_requests q t w w' : q t true = true -> rel q w w' -> no_requests t w -> no_requests t w'.
Proof using Type. intros Hqt Hr Hn o Ho. destruct (rel_servers _ _ _ Hr t o Ho) as (o0 & Ho0 & _ & _ & Hq & _). destruct (Hq Hqt) as [->| ->]; [by apply Hn|done]. Qed.
Lemma rel_no_callbacks q t w w' : q t false = true -> rel q w w' -> no_callbacks t w -> no_callbacks t w'.
Proof using Type. intros Hqt Hr Hn o Ho. destruct (rel_servers _ _ _ Hr t o Ho) as (o0 & Ho0 & _ & _ & _ & Hq). destruct (Hq Hqt) as [->| ->]; [by apply Hn|done]. Qed.

Lemma hoare_kill_requests X t : hoare all (inv X) (requests ← fld t _transferRequestQueue; kill_requests close (length requests) t) (fun _ w => inv X w /\ no_requests t w).
Proof using Hclose.
  intros w Hd Hi. apply acts_bind. unfold ends at 1, fld. destruct (servers w !! t) as [o|] eqn:Ho; [|done]. eapply acts_mono; [apply (kill_requests_loop X); [done|done|intros o' Ho'; by simplify_eq]|].
  intros [] w' (Hr & Hi' & He). split; [|done]. by apply (but_all t true).
Qed.
Lemma hoare_kill_callbacks X t : hoare all (inv X) (callbacks ← fld t _assetCallbackQueue; kill_callbacks close (length callbacks) t) (fun _ w => inv X w /\ no_callbacks t w).
Proof using Hclose.
  intros w Hd Hi. apply acts_bind. unfold ends at 1, fld. destruct (servers w !! t) as [o|] eqn:Ho; [|done]. eapply acts_mono; [apply (kill_callbacks_loop X); [done|done|intros o' Ho'; by simplify_eq]|].
  intros [] w' (Hr & Hi' & He). split; [|done]. by apply (but_all t false).
Qed.

Lemma hoare_assoc q {A B C} P (m : act A) (f : A -> act B) (g : act C) Q : hoare q P ((m ≫= f) ≫= fun _ => g) Q -> hoare q P (m ≫= fun a => f a ≫= fun _ => g) Q.
Proof using Type. intros Hm w Hd HP. specialize (Hm w Hd HP). unfold ends in *. rewrite !act_bind_eq in Hm. rewrite act_bind_eq. by destruct (m e w) as [[a w1]| | |]. Qed.

Lemma hoare_frame {A} P (m : act A) Q (R : world CB -> Prop) : (forall w w', rel all w w' -> R w -> R w') -> hoare all P m Q -> hoare all (fun w => P w /\ R w) m (fun a w => Q a w /\ R w).
Proof using Type. intros HR Hm w Hd [HP Hw]. eapply acts_mono; [by apply Hm|]. intros a w' [Hr HQ]. split_and!; [done|done|by eapply HR]. Qed.

Lemma mesh_keeps_query_close X t : keeps all (inv X) (query_close close t).
Proof using Hclose.
  apply mesh_keeps_bind; [apply mesh_keeps_fld|intros connected].
  apply mesh_keeps_bind; [destruct connected; [apply mesh_keeps_bind; [by apply mesh_keeps_set_fld|intros _; by apply mesh_keeps_set_fld]|apply mesh_keeps_ret]|intros _].
  eapply hoare_bind; [apply hoare_fld|]. intros idle. destruct idle; [|eapply hoare_mono; [apply (mesh_keeps_ret all)|intros w [Hw _]; exact Hw|done]].
  intros w Hd [Hi (o & Ho & Hidle)]. symmetry in Hidle. apply andb_prop in Hidle as [_ Hf%negb_true_iff].
  apply acts_bind. unfold ends at 1, set_fld. rewrite Ho. set (w1 := set_servers _ w). pose proof (depth_fired w t o Ho Hf) as Hlt.
  assert (Hr1 : rel all w w1) by (apply (rel_server all w t o); try done; intros _; by left).
  unfold queryEndpointClosed. apply acts_bind. unfold ends at 1, set_fld. assert (Ho1 : servers w1 !! t = Some (upd_query (set_qfired true) o)) by apply lookup_insert_eq. rewrite Ho1. set (w2 := set_servers _ w1).
  assert (Hr2 : rel all w1 w2) by (apply (rel_server all w1 t _ _ Ho1); try done; intros _; by left).
  assert (Hi2 : inv X w2) by (eapply (inv_server X w1 t); [by apply (inv_server X w t o)|exact Ho1|done|done]).
  eapply acts_mono; [apply (Hclose X t w2); [pose proof (rel_depth _ _ _ Hr2); unfold w1 in *; lia|done]|].
  intros [] w3 (Hr3 & Hi3 & _). split; [|done]. trans w1; [done|]. by trans w2.
Qed.

Lemma mesh_keeps_kill_searches X t : keeps all (inv X) (kill_searches close t).
Proof using Hclose.
  apply mesh_keeps_bind; [apply mesh_keeps_fld|intros dying]. apply mesh_keeps_bind; [apply mesh_keeps_fld|intros current]. destruct dying; [apply mesh_keeps_ret|].
  apply mesh_keeps_for_each. intros x _. apply mesh_keeps_for_each. intros p _. apply mesh_keeps_tell_false.
Qed.

Lemma mesh_keeps_release_list X l : keeps all (inv X) (for_each l (release close)).
Proof using Hclose. apply mesh_keeps_for_each. intros t _. apply mesh_keeps_release. Qed.

Lemma mesh_keeps_checkSafeKill X t : keeps all (inv X) (checkSafeKill close t).
Proof using Hclose.
  apply mesh_keeps_bind; [apply mesh_keeps_fld|intros established]. apply mesh_keeps_bind; [apply mesh_keeps_fld|intros callback]. apply mesh_keeps_bind; [apply mesh_keeps_fld|intros idle].
  destruct (negb established && idle); [|apply mesh_keeps_ret]. destruct callback; [apply mesh_keeps_ret| |]; apply mesh_keeps_with_ref.
  - apply mesh_keeps_bind; [apply mesh_keeps_fld|intros ep]. apply mesh_keeps_bind; [apply mesh_keeps_get|intros old]. apply mesh_keeps_bind; [by apply mesh_keeps_unseen|intros _]. apply mesh_keeps_release_list.
  - apply mesh_keeps_bind; [by apply mesh_keeps_unseen|intros _]. apply mesh_keeps_release.
Qed.

Lemma hoare_close_body X t : hoare all (inv X) (close_body close t) (fun _ w => inv X w /\ emptied t w).
Proof using Hclose.
  unfold close_body. eapply hoare_bind; [by apply (mesh_keeps_set_fld all X)|intros []]. eapply hoare_bind; [apply mesh_keeps_query_close|intros []]. eapply hoare_bind; [by apply (mesh_keeps_set_fld all X)|intros []].
  apply hoare_assoc. eapply hoare_bind; [apply hoare_kill_requests|intros []].
  apply hoare_assoc. eapply hoare_bind; [eapply (hoare_frame (inv X) _ _ (no_requests t)); [intros w w'; by apply (rel_no_requests all)|apply hoare_kill_callbacks]|intros []].
  set (R := fun w => no_requests t w /\ no_callbacks t w).
  assert (HR : forall w w', rel all w w' -> R w -> R w') by (intros w w' Hr [? ?]; split; [by apply (rel_no_requests all t w)|by apply (rel_no_callbacks all t w)]).
  eapply hoare_bind; [eapply hoare_mono; [eapply (hoare_frame (inv X) _ _ R HR), mesh_keeps_kill_searches|by intros w [[? ?] ?]|intros a w H; exact H]|intros []].
  eapply hoare_mono; [eapply (hoare_frame (inv X) _ _ R HR), mesh_keeps_checkSafeKill|done|]. intros [] w [Hi [H1 H2]]. split; [done|]. intros o Ho. unfold transfers. by rewrite (H1 o Ho), (H2 o Ho).
Qed.


(** ** A search that has been found *)

(** The search, if it is still there, has been found and waits for its asset. *)
Definition fetching (p : nat) (u : list Z) w : Prop :=
  (p < next_ptr w)%nat /\ forall s, searches w !! p = Some s -> _uuid s = u /\ is_full (_callBack s) = true /\ _wasFound s = true.

Lemma fetching_rel q p u w w' : rel q w w' -> fetching p u w -> fetching p u w'.
Proof using Type.
  intros Hr [Hp Hs]. split; [by rewrite (rel_next _ _ _ Hr)|]. intros s' Hs'. destruct (rel_searches _ _ _ Hr p s' Hs') as (s & Hs0 & -> & -> & Hf & _). destruct (Hs s Hs0) as (? & ? & ?). auto.
Qed.

Lemma push_inv X w t o o' p u : inv (p :: X) w -> fetching p u w -> servers w !! t = Some o -> _currentSearches o' = _currentSearches o ->
  (forall x, x ∈ transfers o' <-> x ∈ transfers o \/ x = (u, p)) -> inv X (set_servers <[t := o']> w).
Proof using Type.
  intros Hi [Hp Hf] Ho Hc Ht. apply (inv_waiting X _ p).
  - apply (inv_transfers (p :: X) w t o); [done|done|done|intros x Hx; left; apply Ht; by left|]. destruct (inv_servers _ _ Hi t o Ho) as (_ & Hok & _).
    apply Forall_forall. intros x [Hx| ->]%Ht; [by apply (proj1 (Forall_forall _ _) Hok)|]. split; [done|]. intros s Hs. cbn. by destruct (Hf s Hs) as (? & ? & _).
  - intros s Hs. destruct (Hf s Hs) as (_ & _ & Hfound). unfold waits. rewrite Hfound. left. exists t, o', u. cbn. rewrite lookup_insert_eq. split; [done|]. apply Ht. by right.
Qed.

Lemma hoare_push X t p u (f : MeshServer -> MeshServer) :
  (forall o, _currentSearches (f o) = _currentSearches o /\ fired (f o) = fired o /\ destroying (f o) = destroying o /\ forall x, x ∈ transfers (f o) <-> x ∈ transfers o \/ x = (u, p)) ->
  hoare none (fun w => inv (p :: X) w /\ fetching p u w) (set_fld t f) (fun _ => inv X).
Proof using Type.
  intros Hf w _ [Hi Hfe]. unfold ends, set_fld. destruct (servers w !! t) as [o|] eqn:Ho; [|done]. destruct (Hf o) as (H1 & H2 & H3 & H4). split.
  - apply (rel_server none w t o); [done|congruence|congruence|done|done].
  - by apply (push_inv X w t o _ p u).
Qed.

Lemma hoare_fetching q {A} X p u (m : act A) : keeps q (inv X) m -> hoare q (fun w => inv X w /\ fetching p u w) m (fun _ w => inv X w /\ fetching p u w).
Proof using Type. intros Hm w Hd [Hi Hf]. eapply acts_mono; [by apply Hm|]. intros a w' [Hr Hi']. split_and!; [done|done|by eapply fetching_rel]. Qed.

Lemma hoare_getAsset X t p u : hoare none (fun w => inv (p :: X) w /\ fetching p u w) (getAsset t u p) (fun _ => inv X).
Proof using Type.
  unfold getAsset. eapply hoare_bind; [apply hoare_fetching, mesh_keeps_fld|]. intros established.
  apply (hoare_bind none _ _ _ (fun _ w => inv (p :: X) w /\ fetching p u w)).
  { destruct established; cbn [negb]; [apply hoare_fetching, mesh_keeps_ret|]. intros w _ [Hi Hf]. apply acts_put. split; [by apply rel_same|]. split; [|done].
    apply mesh_inv_post; [done|apply Hf|]. intros s Hs. by destruct (proj2 Hf s Hs) as (_ & ? & _). }
  intros _. eapply hoare_bind; [apply hoare_fetching, mesh_keeps_fld|]. intros []; cbn [negb].
  - apply hoare_push. intros o. split_and!; try done. intros x. unfold transfers. cbn. rewrite !elem_of_app, list_elem_of_singleton. tauto.
  - unfold sendGetRequest. eapply hoare_bind; [apply hoare_fetching; by apply mesh_keeps_set_fld|]. intros []. eapply hoare_bind; [apply hoare_fetching; by apply mesh_keeps_async|]. intros [].
    apply hoare_push. intros o. split_and!; try done. intros x. unfold transfers. cbn. rewrite !elem_of_app, list_elem_of_singleton. tauto.
Qed.

(** The searches that a found id is reported to. *)
Definition asks_for (p : nat) (u : list Z) w : Prop := (p < next_ptr w)%nat /\ forall s, searches w !! p = Some s -> _uuid s = u.

Lemma asks_for_rel q p u w w' : rel q w w' -> asks_for p u w -> asks_for p u w'.
Proof using Type. intros Hr [Hp Hs]. split; [by rewrite (rel_next _ _ _ Hr)|]. intros s' Hs'. destruct (rel_searches _ _ _ Hr p s' Hs') as (s & Hs0 & -> & _). by apply Hs. Qed.

Lemma hoare_asks q {A} X p u (m : act A) : keeps q (inv X) m -> hoare q (fun w => inv X w /\ asks_for p u w) m (fun _ w => inv X w /\ asks_for p u w).
Proof using Type. intros Hm w Hd [Hi Hf]. eapply acts_mono; [by apply Hm|]. intros a w' [Hr Hi']. split_and!; [done|done|by eapply asks_for_rel]. Qed.

(** The transfer from the server that has the asset. *)
Lemma hoare_fetch X p t u : hoare none (fun w => (inv (p :: X) w /\ asks_for p u w) /\ exists s, searches w !! p = Some s /\ is_full (_callBack s) = true)
  (old ← sfld p _foundServer; _ ← set_sfld p (set_found t); _ ← for_each (option_list old) (release close); uuid ← sfld p _uuid; getAsset t uuid p) (fun _ => inv X).
Proof using Hclose.
  eapply hoare_bind; [apply mesh_keeps_sfld|]. intros old. apply (hoare_bind none _ _ _ (fun _ w => inv (p :: X) w /\ fetching p u w)).
  { intros w _ ([Hi [Hp Ha]] & s & Hs & Hfull). unfold ends, set_sfld. rewrite Hs. split.
    - split; [done|intros t1 o Ho; exists o; split_and!; try done; intros _; by left|]. intros q r Hr. cbn in Hr. destruct (decide (q = p)) as [->|Hne].
      + rewrite lookup_insert_eq in Hr. injection Hr as <-. exists s. split_and!; try done. by intros (? & ? & ?).
      + rewrite lookup_insert_ne in Hr by done. by exists r.
    - split; [apply (inv_search (p :: X) w p s); try done; set_solver|]. split; [done|]. intros r Hr. cbn in Hr. rewrite lookup_insert_eq in Hr. injection Hr as <-. cbn. auto. }
  intros _. eapply hoare_bind; [apply hoare_fetching, hoare_weaken, mesh_keeps_release_list|]. intros []. eapply hoare_bind; [apply hoare_sfld|]. intros uuid w Hd ([Hi Hf] & s & Hs & ->).
  rewrite (proj1 (proj2 Hf s Hs)). by apply hoare_getAsset.
Qed.

Lemma hoare_onSearchResult_true X p t u : u ∈ found -> hoare none (fun w => inv X w /\ asks_for p u w) (onSearchResult close p t u true) (fun _ => inv X).
Proof using Hclose.
  intros Hu. unfold onSearchResult. eapply hoare_bind; [apply hoare_asks, hoare_weaken, mesh_keeps_serverCompleted|]. intros [].
  apply (hoare_bind none _ _ _ (fun _ w => inv (p :: X) w /\ asks_for p u w)).
  { intros w _ [Hi Ha]. apply acts_put. split; [by apply rel_same|]. split; [by apply inv_cancel|done]. }
  intros _. eapply hoare_bind; [apply hoare_asks, hoare_weaken, mesh_keeps_cancelRemainingServers|]. intros []. eapply hoare_bind; [apply hoare_sfld|]. intros c.
  destruct c as [c|c].
  - eapply hoare_mono; [apply (hoare_fetch X p t u)| |done]. intros w (Hw & s & Hs & Hc). split; [done|]. exists s. split; [done|]. by rewrite <- Hc.
  - intros w Hd ([Hi Ha] & s & Hs & Hc). apply acts_bind, acts_put.
    assert (Hok : answer_ok (cb_of (_callBack s), Test true)).
    { cbn. rewrite <- Hc. cbn. exists u. split; [|done]. rewrite <- (proj2 Ha s Hs), Hc. by apply (inv_searches _ _ Hi p s). }
    pose proof (searchComplete_ends (p :: X) p s (Test true) w Hd Hi Hs Hok) as Hend. rewrite <- Hc in Hend. eapply acts_mono; [exact Hend|].
    intros [] w' (Hr & Hi' & Hdead). split; [by apply rel_weaken|by apply (inv_dead X p)].
Qed.

Lemma hoare_tell X t u b p : (b = true -> u ∈ found) -> hoare none (fun w => inv X w /\ asks_for p u w) (tell close t u b p) (fun _ => inv X).
Proof using Hclose.
  intros Hu. destruct b; [|eapply hoare_mono; [apply hoare_weaken, (mesh_keeps_tell_false X)|by intros w [? _]|done]]. specialize (Hu eq_refl).
  eapply hoare_bind; [apply (hoare_asks none X p u), mesh_keeps_get|]. intros [s|]; [|eapply hoare_mono; [apply (mesh_keeps_ret none)|by intros w [? _]|done]].
  unfold with_ref. eapply hoare_bind; [apply hoare_asks; by apply mesh_keeps_unseen|]. intros []. eapply hoare_bind; [by apply hoare_onSearchResult_true|]. intros [].
  eapply hoare_bind; [by apply (mesh_keeps_unseen none X)|]. intros []. apply hoare_weaken, mesh_keeps_release.
Qed.

(** All the searches in a set. *)
Lemma hoare_tell_all X t u b l : (b = true -> u ∈ found) -> hoare none (fun w => inv X w /\ Forall (fun p => asks_for p u w) l) (for_each l (tell close t u b)) (fun _ => inv X).
Proof using Hclose.
  intros Hu. induction l as [|p l IH]; [eapply hoare_mono; [apply (mesh_keeps_ret none)|by intros w [? _]|done]|]. cbn [for_each].
  apply (hoare_bind none _ _ _ (fun _ w => inv X w /\ Forall (fun p => asks_for p u w) l)); [|done].
  intros w Hd [Hi Hl]. inversion Hl as [|? ? Hp Hl']; subst. eapply acts_mono; [apply (hoare_tell X t u b p Hu); [done|done]|].
  intros [] w' [Hr Hi']. split_and!; [done|done|]. eapply Forall_impl; [exact Hl'|]. intros q Hq. by eapply asks_for_rel.
Qed.

Lemma mesh_keeps_postResponse X t u b : (b = true -> u ∈ found) -> keeps none (inv X) (postResponse close t u b).
Proof using Hclose.
  intros Hu. eapply hoare_bind; [apply hoare_fld|]. intros current. destruct (smap_find u current) as [l|] eqn:Ef; [|eapply hoare_mono; [apply (mesh_keeps_ret none)|by intros w [? _]|done]].
  apply (hoare_bind none _ _ _ (fun _ => inv X)).
  - eapply hoare_mono; [apply (hoare_tell_all X t u b l Hu)| |done]. intros w (Hi & o & Ho & ->). split; [done|]. destruct (inv_servers _ _ Hi t o Ho) as (_ & _ & Hcur).
    pose proof (proj1 (Forall_forall _ _) Hcur _ (elem_of_smap_find _ _ _ Ef)) as Hl. apply Forall_forall. intros p Hp. exact (Hl p Hp).
  - intros []. intros w _ Hi. unfold ends, set_fld. destruct (servers w !! t) as [o|] eqn:Ho; [|done]. split; [apply (rel_server none w t o); done|].
    apply (inv_current X w t o); [done|done|]. apply Forall_smap_erase. by apply (inv_servers _ _ Hi t o Ho).
Qed.

(** ** The other handlers *)

(** At the top level [close] has fuel for any depth that is left. *)
Context (Htop : forall X t w, (depth w <= k)%nat -> inv X w -> ends (close t) e w (fun _ w' => rel all w w' /\ inv X w' /\ emptied t w')).

Lemma mesh_keeps_close X t : keeps none (inv X) (close t).
Proof using Htop. intros w Hd Hi. eapply acts_mono; [by apply (Htop X t w)|]. intros [] w' (Hr & Hi' & _). split; [by apply rel_weaken|done]. Qed.

Ltac keeps_step :=
  first [assumption | lazymatch goal with
  | |- keeps _ _ (mbind _ _) => apply mesh_keeps_bind; [|intro]
  | |- keeps _ _ (mret _) => apply mesh_keeps_ret
  | |- keeps _ _ undefined => apply mesh_keeps_undefined
  | |- keeps _ _ uncaught => apply mesh_keeps_uncaught
  | |- keeps _ _ (fld _ _) => apply mesh_keeps_fld
  | |- keeps _ _ (sfld _ _) => apply mesh_keeps_sfld
  | |- keeps _ _ (get _) => apply mesh_keeps_get
  | |- keeps _ _ (ask _) => apply mesh_keeps_ask
  | |- keeps _ _ (checked _) => apply mesh_keeps_checked
  | |- keeps _ _ (set_fld _ _) => apply mesh_keeps_set_fld; done
  | |- keeps _ _ (async _ _) => apply mesh_keeps_async; reflexivity
  | |- keeps _ _ (query_async _ _) => apply mesh_keeps_query_async; reflexivity
  | |- keeps _ _ (put _) => apply mesh_keeps_unseen; done
  | |- keeps _ _ (close _) => apply mesh_keeps_close
  | |- keeps _ _ (with_ref _ _ _) => apply mesh_keeps_with_ref
  | |- keeps _ _ (for_each _ (release _)) => apply hoare_weaken, mesh_keeps_release_list
  | |- keeps _ _ (checkSafeKill _ _) => apply hoare_weaken, mesh_keeps_checkSafeKill
  | |- keeps _ _ (query_close _ _) => apply hoare_weaken, mesh_keeps_query_close
  | |- keeps _ _ (if ?b then _ else _) => destruct b
  | |- keeps _ _ (match ?x with _ => _ end) => destruct x
  end ]; cbn beta zeta.
Ltac keeps_steps := repeat keeps_step.

Lemma mesh_keeps_onConnectionResult X t : keeps none (inv X) (onConnectionResult close t).
Proof using Hclose Htop. unfold onConnectionResult, onConnectAttemptCompleted, listenForAssetData. keeps_steps. Qed.

Lemma mesh_keeps_connection_failed X t : keeps none (inv X) (connection_failed close t).
Proof using Hclose Htop. unfold connection_failed. keeps_steps. apply mesh_keeps_onConnectionResult. Qed.

Lemma mesh_keeps_login X t err data n : keeps none (inv X) (onConnect close t err) /\ keeps none (inv X) (onRecvChallenge close t err data) /\
  keeps none (inv X) (onChallengeResponseWrite close t err n) /\ keeps none (inv X) (onAuthenticationStatus close t err data) /\ keeps none (inv X) (onAfterMeshServiceConnect close t err).
Proof using Hclose Htop.
  unfold onConnect, onRecvChallenge, sendChallengeResponse, onChallengeResponseWrite, onAuthenticationStatus, onAfterMeshServiceConnect, listenForMessage, onQueryConnectionConnectResult.
  split_and!; keeps_steps; first [apply mesh_keeps_connection_failed|apply mesh_keeps_onConnectionResult].
Qed.

(** A transfer request moves from one queue to the other. *)
Definition moved (q : list PendingTransferRequest) (x : PendingTransferRequest) (o : MeshServer) : MeshServer :=
  set_requests q (set_callbacks (_assetCallbackQueue o ++ [(x.1, x.2)]) (set_send true o)).

Lemma next_request_run t x q w o : servers w !! t = Some o -> _transferRequestQueue o = x :: q ->
  exists b m, on_socket m = true /\ (_ ← sendGetRequest t x.1 x.2; pop_request t) e w = Done (tt, set_servers <[t := moved q x o]> (set_ops (fun os => os ++ [(b, m)]) w)).
Proof using Type.
  intros Ho Hq. exists (_serviceSocket o). eexists (WriteRequest t _). split; [done|]. unfold sendGetRequest, pop_request, async, add_op. rewrite !act_bind_eq. unfold set_fld at 1. rewrite Ho.
  rewrite !act_bind_eq. unfold fld at 1. cbn [servers set_servers]. rewrite lookup_insert_eq. unfold put at 1. unfold set_fld at 1. cbn [servers set_servers set_ops]. rewrite lookup_insert_eq.
  rewrite act_bind_eq. unfold fld at 1. cbn [servers set_servers set_ops]. rewrite lookup_insert_eq. cbn [set_callbacks set_send _transferRequestQueue]. rewrite Hq. unfold set_fld. cbn [servers set_servers set_ops].
  rewrite lookup_insert_eq. unfold set_servers, set_ops. cbn. by rewrite !insert_insert_eq.
Qed.

Lemma mesh_keeps_next_request X t x q : hoare none (fun w => inv X w /\ exists o, servers w !! t = Some o /\ _transferRequestQueue o = x :: q) (_ ← sendGetRequest t x.1 x.2; pop_request t) (fun _ => inv X).
Proof using Type.
  intros w Hd (Hi & o & Ho & Hq). destruct (next_request_run t x q w o Ho Hq) as (b & m & Hm & Hrun). unfold ends. rewrite Hrun.
  assert (Hmem : forall y, y ∈ transfers (moved q x o) <-> y ∈ transfers o).
  { intros y. unfold transfers, moved. cbn. rewrite Hq. destruct x as [u p]. cbn. rewrite elem_of_cons, !elem_of_app, list_elem_of_singleton. tauto. }
  split.
  - trans (set_ops (fun os => os ++ [(b, m)]) w); [by apply rel_same|by apply (rel_server none _ t o)].
  - apply (inv_transfers X _ t o); [by apply inv_add_op|done|done|intros y Hy; left; by apply Hmem|].
    destruct (inv_servers _ _ Hi t o Ho) as (_ & Ht & _). apply Forall_forall. intros y Hy. apply (proj1 (Forall_forall _ _) Ht). by apply Hmem.
Qed.

Lemma mesh_keeps_onAfterWriteAssetRequest X t err n : keeps none (inv X) (onAfterWriteAssetRequest close t err n).
Proof using Hclose Htop.
  unfold onAfterWriteAssetRequest. apply mesh_keeps_bind; [by apply mesh_keeps_set_fld|intros _]. destruct (negb err && _); [|apply mesh_keeps_close]. apply mesh_keeps_bind; [apply mesh_keeps_fld|intros established].
  apply (hoare_bind none _ _ _ (fun q w => inv X w /\ exists o, servers w !! t = Some o /\ _transferRequestQueue o = q)).
  { eapply hoare_mono; [apply hoare_fld|done|]. intros q w (? & o & ? & ->). split; [done|]. by exists o. }
  intros q. apply (hoare_bind none _ _ _ (fun _ => inv X)); [|intros _; apply hoare_weaken, mesh_keeps_checkSafeKill].
  assert (Hret : hoare none (fun w => inv X w /\ exists o, servers w !! t = Some o /\ _transferRequestQueue o = q) (mret tt) (fun _ => inv X)) by (eapply hoare_mono; [apply (mesh_keeps_ret none)|by intros w [? _]|done]).
  destruct q as [|x q]; [done|]. destruct established; [|done]. apply mesh_keeps_next_request.
Qed.

(** The first transfer in the queue gets its answer. *)
Lemma hoare_answer_front X t x q a : (forall d, a = Some d -> Asset.getUUID d = Some x.1) ->
  hoare none (fun w => inv X w /\ exists o, servers w !! t = Some o /\ _assetCallbackQueue o = x :: q) (_ ← onFullAssetRcvd close x.2 a; pop_callback t) (fun _ => inv X).
Proof using Hclose Htop.
  intros Ha w Hd (Hi & o & Ho & Hq). apply acts_bind. eapply acts_mono; [apply (onFullAssetRcvd_ends X); [done|done|]|].
  { intros s Hs. destruct (transfers_ok X w t o x Hi Ho ltac:(unfold transfers; rewrite Hq; set_solver) s Hs) as [? ->]. done. }
  intros [] w1 (Hr1 & Hi1 & Hx). unfold pop_callback. apply acts_bind. unfold ends at 1, fld. destruct (servers w1 !! t) as [o1|] eqn:Ho1; [|done].
  destruct (rel_servers _ _ _ Hr1 t o1 Ho1) as (o0 & Ho0 & _ & _ & _ & Hk). assert (o0 = o) as -> by (rewrite Ho in Ho0; by injection Ho0). destruct (Hk eq_refl) as [Hk'|Hk']; rewrite Hk', ?Hq; [|done].
  unfold ends, set_fld. rewrite Ho1. split; [|apply (pop_callback_ends X w1 t o1 x q); [done|done|by rewrite Hk'|done]]. trans w1; [by apply rel_weaken|]. by apply (rel_server none w1 t o1).
Qed.

(** The front of the queue, if there is one. *)
Lemma hoare_front X t {A} (f : PendingTransferRequest -> act A) Q :
  (forall x q, hoare none (fun w => inv X w /\ exists o, servers w !! t = Some o /\ _assetCallbackQueue o = x :: q) (f x) Q) ->
  hoare none (inv X) (queue ← fld t _assetCallbackQueue; req ← checked (head queue); f req) Q.
Proof using Type.
  intros Hf. eapply hoare_bind; [apply hoare_fld|]. intros queue. destruct queue as [|x q]; [by intros w _ _|].
  eapply hoare_mono; [apply (Hf x q)| |done]. intros w (? & o & ? & ?). split; [done|]. by exists o.
Qed.

Lemma mesh_keeps_onReadResponseHeader X t err h : keeps none (inv X) (onReadResponseHeader close t err h).
Proof using Hclose Htop.
  unfold onReadResponseHeader. apply mesh_keeps_bind; [by apply mesh_keeps_set_fld|intros _]. destruct (negb err && _); [|apply mesh_keeps_close].
  apply mesh_keeps_bind; [apply mesh_keeps_checked|intros valid]. apply mesh_keeps_bind; [apply mesh_keeps_checked|intros code]. destruct (valid && _); [keeps_steps|]. destruct (negb valid); [apply mesh_keeps_close|].
  apply hoare_front. intros x q. eapply hoare_bind; [apply (mesh_keeps_checked none)|]. intros uuid. destruct (negb _); [eapply hoare_mono; [apply mesh_keeps_close|by intros w [? _]|done]|].
  apply hoare_assoc. eapply hoare_bind; [by apply hoare_answer_front|]. intros []. unfold listenForAssetData. change (keeps none (inv X) (size ← checked (ServerResponseMsg.getDataSize (ServerResponseMsg.mk h None));
        if 0 <? size then
          response ← checked (ServerResponseMsg.initializeDataStorage (ServerResponseMsg.mk h None));
          _ ← set_fld t (set_recv true);
          async t (ReadErrorData t response)
        else _ ← set_fld t (set_recv true); async t (ReadHeader t))). keeps_steps.
Qed.

Lemma mesh_keeps_onReadResponseData X t err d : keeps none (inv X) (onReadResponseData close t err d).
Proof using Hclose Htop.
  unfold onReadResponseData. apply mesh_keeps_bind; [by apply mesh_keeps_set_fld|intros _]. apply mesh_keeps_bind; [apply mesh_keeps_fld|intros established]. destruct (negb err && _ && _); [|apply mesh_keeps_close].
  apply hoare_front. intros x q. eapply hoare_bind; [apply hoare_checked|]. intros uuid. case_bool_decide as Hu; [|eapply hoare_mono; [apply mesh_keeps_close|by intros w [[? _] _]|done]].
  apply hoare_assoc. apply (hoare_bind none _ _ _ (fun _ => inv X)).
  - intros w Hd [Hw Hid]. apply (hoare_answer_front X t x q (Some d)); [|done|done]. intros d' [= <-]. congruence.
  - intros []. unfold listenForAssetData. change (keeps none (inv X) (_ ← set_fld t (set_recv true); async t (ReadHeader t))). keeps_steps.
Qed.

(** A message of the query connection: [found] holds the id that it reports as found. *)
Definition reports (d : list Z) : option (list Z) :=
  if bool_decide (IntraMeshMsg.validate d = Some true) && bool_decide (IntraMeshMsg.getRequestType d = Some IntraMeshMsg.MESH_RESPONSE) &&
     bool_decide (IntraMeshMsg.getQueryResult d = Some (IntraMeshMsg.result_code IntraMeshMsg.QR_FOUND)) then IntraMeshMsg.getAssetUUID d else None.

Lemma mesh_keeps_onQueryAnswerRcvd X t d : (forall u, reports d = Some u -> u ∈ found) -> keeps none (inv X) (onQueryAnswerRcvd close t d).
Proof using Hclose Htop.
  intros Hd w Hdw Hi. unfold onQueryAnswerRcvd. apply acts_bind, acts_checked. intros ok Hok. destruct ok; [|by apply mesh_keeps_ret]. apply acts_bind, acts_checked. intros ty Hty.
  destruct (ty =? IntraMeshMsg.STATUS_HEARTBEAT).
  - revert w Hdw Hi. change (keeps none (inv X) (flags ← checked (IntraMeshMsg.getHeartbeatFlags d); updateHeartbeat t flags)). unfold updateHeartbeat. keeps_steps.
  - apply acts_bind, acts_checked. intros r Hr. apply acts_bind, acts_checked. intros u Hu. apply (mesh_keeps_postResponse X t u); [|done|done].
    intros [Ht%Z.eqb_eq Hf%Z.eqb_eq]%andb_prop. subst. apply Hd. unfold reports. by rewrite !bool_decide_true.
Qed.

Lemma mesh_keeps_onAfterMeshMessageReceived X t err d : (err = false -> forall u, reports d = Some u -> u ∈ found) -> keeps none (inv X) (onAfterMeshMessageReceived close t err d).
Proof using Hclose Htop.
  intros Hd. unfold onAfterMeshMessageReceived. apply mesh_keeps_bind; [by apply mesh_keeps_set_fld|intros _]. destruct err; cbn [negb andb]; [apply hoare_weaken, mesh_keeps_query_close|].
  destruct (0 <? length d)%nat; [|apply hoare_weaken, mesh_keeps_query_close]. apply mesh_keeps_bind; [by apply mesh_keeps_onQueryAnswerRcvd, Hd|intros _]. unfold listenForMessage. keeps_steps.
Qed.

Lemma mesh_keeps_query_search X t u : keeps all (inv X) (query_search t u).
Proof using Type. unfold query_search, sendQuery. keeps_steps. Qed.

Lemma mesh_keeps_onAfterMeshMessageWritten X t err n : keeps none (inv X) (onAfterMeshMessageWritten close t err n).
Proof using Hclose Htop. unfold onAfterMeshMessageWritten, writeNextMessage, sendQuery. keeps_steps. Qed.

Lemma mesh_keeps_onHandleRequestErrorData X t err d : keeps none (inv X) (onHandleRequestErrorData close t err d).
Proof using Hclose Htop. unfold onHandleRequestErrorData, listenForAssetData. keeps_steps. Qed.

(** ** Starting a search *)

Lemma set_insert_elem x y l : x ∈ set_insert y l -> x = y \/ x ∈ l.
Proof using Type. unfold set_insert. case_bool_decide; [auto|]. rewrite elem_of_app, list_elem_of_singleton. tauto. Qed.

Lemma mesh_keeps_search X t p : keeps all (inv X) (search close t p).
Proof using Hclose.
  unfold search. apply mesh_keeps_bind; [apply mesh_keeps_fld|intros established]. eapply hoare_bind; [apply hoare_get|]. intros [s|]; [|eapply hoare_mono; [apply (mesh_keeps_ret all)|by intros w [? _]|done]].
  destruct (negb established); [eapply hoare_mono; [apply (mesh_keeps_tell_false X)|by intros w [? _]|done]|].
  intros w Hd [Hi Hs]. symmetry in Hs. apply acts_bind. unfold ends at 1, fld. destruct (servers w !! t) as [o|] eqn:Ho; [|done]. destruct (inv_servers _ _ Hi t o Ho) as (_ & _ & Hcur).
  destruct (inv_searches _ _ Hi p s Hs) as (Hp & _ & _).
  destruct (smap_find (_uuid s) (_currentSearches o)) as [l|] eqn:Ef.
  - apply current_ends; [done|]. apply Forall_smap_insert; [done|]. pose proof (proj1 (Forall_forall _ _) Hcur _ (elem_of_smap_find _ _ _ Ef)) as Hl.
    intros q [->|Hq]%set_insert_elem; [|by apply Hl]. split; [done|]. intros r Hr. cbn. congruence.
  - apply acts_bind. eapply acts_mono; [apply (current_ends X t _ w all Hi)|].
    + apply Forall_smap_insert; [done|]. intros q ->%list_elem_of_singleton. split; [done|]. intros r Hr. cbn. congruence.
    + intros [] w1 [Hr1 Hi1]. eapply acts_mono; [apply (mesh_keeps_query_search X t (_uuid s)); [etrans; [by eapply rel_depth|done]|done]|].
      intros [] w2 [Hr2 Hi2]. split; [by trans w1|done].
Qed.

Lemma mesh_keeps_initiateSearch X p t : keeps all (inv X) (initiateSearch close p t).
Proof using Hclose.
  unfold initiateSearch, isTimedOut. keeps_steps; first [apply mesh_keeps_queried|apply mesh_keeps_search].
Qed.

Lemma mesh_keeps_forEachServer X (v : nat -> act unit) : (forall t, keeps all (inv X) (v t)) -> keeps all (inv X) (forEachServer close v).
Proof using Hclose.
  intros Hv. unfold forEachServer. apply mesh_keeps_bind; [apply mesh_keeps_get|intros known]. apply mesh_keeps_bind; [apply mesh_keeps_ask|intros l]. apply mesh_keeps_bind; [by apply mesh_keeps_unseen|intros _].
  apply mesh_keeps_bind; [apply mesh_keeps_for_each; intros t _; apply Hv|intros _]. apply mesh_keeps_bind; [by apply mesh_keeps_unseen|intros _]. apply mesh_keeps_release_list.
Qed.

(** The new search is answered, or its timer runs. *)
Lemma hoare_performSearch p : hoare none (fun w => inv [p] w /\ forall s, searches w !! p = Some s -> _wasFound s = false) (performSearch close p) (fun _ => inv []).
Proof using Hclose.
  unfold performSearch. apply (hoare_bind none _ _ _ (fun _ w => inv [p] w /\ forall s, searches w !! p = Some s -> _wasFound s = false)).
  { intros w Hd [Hi Hf]. eapply acts_mono; [apply (mesh_keeps_forEachServer [p] (initiateSearch close p)); [intros t; apply mesh_keeps_initiateSearch|done|done]|]. intros [] w' [Hr Hi']. split; [by apply rel_weaken|].
    split; [done|]. intros s' Hs'. destruct (rel_searches _ _ _ Hr p s' Hs') as (s & Hs & _ & _ & _ & He). rewrite He by (by exists 0%nat, true). by apply Hf. }
  intros _. eapply hoare_bind; [apply (mesh_keeps_sfld none)|]. intros queried. case_bool_decide.
  - intros w Hd [Hi _]. eapply acts_mono; [by apply (negative_ends [p])|]. intros [] w' (Hr & Hi' & Hdead). split; [by apply rel_weaken|by apply (inv_dead [] p)].
  - intros w Hd [Hi Hf]. apply acts_put. split; [by apply rel_same|]. apply (inv_waiting [] _ p).
    + apply (inv_ops [p] w); [done|intros x q Hx _ _; by apply elem_of_app; left|]. intros b q [?|[= ]%list_elem_of_singleton]%elem_of_app; done.
    + intros s Hs. unfold waits. rewrite (Hf s Hs). exists true. left. cbn. apply elem_of_app. right. by apply list_elem_of_singleton.
Qed.

(** The timer of a search goes off: only a search that has been found waits for something else. *)
Lemma hoare_onTimeout p : hoare none (fun w => inv [p] w /\ forall s, searches w !! p = Some s -> _wasFound s = true -> waits w p s) (onTimeout close p false) (fun _ => inv []).
Proof using Hclose.
  unfold onTimeout. eapply hoare_bind; [apply hoare_sfld|]. intros []; cbn [negb].
  - intros w Hd ([Hi Hw] & s & Hs & Hf). split; [done|]. apply (inv_waiting [] _ p); [done|]. intros s' Hs'. apply Hw; [done|]. congruence.
  - apply (hoare_bind none _ _ _ (fun _ => inv [p])); [eapply hoare_mono; [apply hoare_weaken, (mesh_keeps_cancelRemainingServers [p])|by intros w [[? _] _]|done]|].
    intros _ w Hd Hi. eapply acts_mono; [by apply (negative_ends [p])|]. intros [] w' (Hr & Hi' & Hdead). split; [by apply rel_weaken|by apply (inv_dead [] p)].
Qed.

(** ** Completion of an operation *)

Lemma hoare_complete w n x ok d : (depth w <= k)%nat -> inv [] w -> ops w !! n = Some x -> can_complete x ok d = true ->
  (forall t u, x.2 = QueryReading t -> ok = true -> reports d = Some u -> u ∈ found) ->
  ends (complete close x.2 ok d) e (set_ops (delete n) w) (fun _ => inv []).
Proof using Hclose Htop.
  intros Hd Hi Hn Hc Hq. assert (Hd' : (depth (set_ops (delete n) w) <= k)%nat) by done.
  assert (Hkeeps : forall m : act unit, wakes x.2 = None -> keeps none (inv []) m -> ends m e (set_ops (delete n) w) (fun _ => inv [])).
  { intros m Hx Hm. eapply acts_mono; [apply Hm; [done|apply (mesh_inv_take [] w n x); [done|done|congruence]]|]. by intros [] w' [_ ?]. }
  destruct x as [b o]. destruct o as [t|t|t m|t|t m|t|t r|t r|t|t|t m|p|p|p|p]; cbn [snd complete] in *; try (apply Hkeeps; [done|]; apply mesh_keeps_login); try done.
  - apply Hkeeps; [done|]. apply mesh_keeps_onAfterWriteAssetRequest.
  - apply Hkeeps; [done|]. apply mesh_keeps_onReadResponseHeader.
  - apply Hkeeps; [done|]. apply mesh_keeps_onReadResponseData.
  - apply Hkeeps; [done|]. apply mesh_keeps_onHandleRequestErrorData.
  - apply Hkeeps; [done|]. apply mesh_keeps_onAfterMeshMessageReceived. intros Hok u. apply (Hq t u eq_refl). by destruct ok.
  - apply Hkeeps; [done|]. apply mesh_keeps_onAfterMeshMessageWritten.
  - eapply acts_mono; [apply (hoare_onTimeout p); [done|]|by intros [] w' [_ ?]]. split; [apply (mesh_inv_take _ w n _ Hi Hn); set_solver|].
    intros s Hs Hf. cbn in Hs. destruct (inv_searches _ _ Hi _ s Hs) as (_ & _ & Hw). specialize (Hw ltac:(set_solver)). unfold waits in *. rewrite Hf in *. destruct Hw as [?|[b' Hb]]; [by left|].
    right. exists b'. by apply (elem_of_delete_other _ _ _ _ Hn).
  - by apply Hkeeps; [|apply mesh_keeps_ret].
  - eapply acts_mono; [apply (onFullAssetRcvd_ends [p]); [done|apply (mesh_inv_take _ w n _ Hi Hn); set_solver|]|].
    + intros s Hs. destruct (inv_posted _ _ Hi b p) as [_ Hfull]; [by eapply list_elem_of_lookup_2|]. split; [by apply Hfull|done].
    + intros [] w' (_ & Hi' & Hdead). by apply (inv_dead [] p).
Qed.

End handlers.

(** [close] with enough fuel. *)
Lemma close_ends e n : forall X t w, (depth w <= n)%nat -> inv X w -> ends (close (S n) t) e w (fun _ w' => rel all w w' /\ inv X w' /\ emptied t w').
Proof using Type.
  induction n as [|n IH]; intros X t w Hd Hi.
  - apply (hoare_close_body e 0 (close 0)); [lia|done|done].
  - apply (hoare_close_body e (S n) (close (S n))); [intros; apply IH; [lia|done]|done|done].
Qed.

End invariant.


(** ** Steps *)

Section steps.
Context {CB : Type} `{BoostParse}.
Implicit Type w : world CB.

(** The requests of a run, and the ids that peers have reported as found. *)
Definition requested (x : world CB * label (CB := CB)) : option (CallBack CB * list Z) :=
  match x.2 with LGet u c => Some (FullCallBack c, u) | LExists u c => Some (TestCallBack c, u) | _ => None end.
Definition reported (x : world CB * label (CB := CB)) : option (list Z) :=
  match x.2 with LIo n true d => match ops x.1 !! n with Some (_, QueryReading _) => reports d | _ => None end | _ => None end.
Definition requests (tr : list (world CB * label (CB := CB))) : list (CallBack CB * list Z) := omap requested tr.
Definition founds (tr : list (world CB * label (CB := CB))) : list (list Z) := omap reported tr.

Lemma founds_cons x tr : founds tr ⊆ founds (x :: tr).
Proof using Type. unfold founds. change (omap reported (x :: tr)) with (match reported x with Some u => u :: omap reported tr | None => omap reported tr end). destruct (reported x); set_solver. Qed.

Lemma inv_found req found found' X w : found ⊆ found' -> inv req found X w -> inv req found' X w.
Proof using Type.
  intros Hf [H1 H2 H3 H4 H5]. split; try done. eapply Forall_impl; [exact H2|]. intros [c [[a|]|[]]]; try done. intros (u & Hu & Hin). exists u. split; [done|]. by apply Hf.
Qed.

Lemma inv_new_search req found w u c : inv req found [] w ->
  inv ((c, u) :: req) found [next_ptr w] (set_searches <[next_ptr w := mkSearch u c false [] None None]> (set_next S w)).
Proof using Type.
  intros [H1 H2 H3 H4 H5].
  assert (Hfresh : searches w !! next_ptr w = None) by (destruct (searches w !! next_ptr w) as [s|] eqn:E; [destruct (H3 _ s E); lia|done]).
  assert (Hlook : forall p r, (p < next_ptr w)%nat -> <[next_ptr w := mkSearch u c false [] None None]> (searches w) !! p = Some r -> searches w !! p = Some r).
  { intros p r Hp. rewrite lookup_insert_ne by lia. done. }
  split; cbn.
  - rewrite map_to_list_insert by done. cbn. rewrite <- H1. by rewrite <- Permutation_middle.
  - eapply Forall_impl; [exact H2|]. intros [c' [[a|]|[]]]; try done; intros (v & Hv & Hin); exists v; (split; [by right|done]).
  - intros p s Hs. destruct (decide (p = next_ptr w)) as [->|Hne].
    + rewrite lookup_insert_eq in Hs. injection Hs as <-. cbn. split_and!; [lia|left|set_solver].
    + rewrite lookup_insert_ne in Hs by done. destruct (H3 p s Hs) as (? & ? & Hw). split_and!; [lia|by right|]. intros _. apply Hw. set_solver.
  - intros t o Ho. destruct (H4 t o Ho) as (Ht & Htr & Hcur). split_and!; [lia| |].
    + eapply Forall_impl; [exact Htr|]. intros x [Hx Hok]. split; [cbn; lia|]. intros s Hs. by apply Hok, Hlook.
    + eapply Forall_impl; [exact Hcur|]. intros x Hx p Hp. destruct (Hx p Hp) as [Hlt Hok]. split; [cbn; lia|]. intros s Hs. by apply Hok, Hlook.
  - intros b p Hb. destruct (H5 b p Hb) as [Hp Hfull]. split; [lia|]. intros s Hs. by apply Hfull, Hlook.
Qed.

Lemma new_search_ends req found e w u c : inv req found [] w -> ends (new_search (close (close_fuel w)) u c) e w (fun _ => inv ((c, u) :: req) found []).
Proof using Type.
  intros Hi. unfold new_search. apply acts_bind, acts_get, acts_bind, acts_put, acts_bind, acts_put. set (w1 := set_searches _ _). pose proof (depth_size w) as Hsize. unfold close_fuel.
  assert (Hd : (depth w1 <= 2 * size (servers w))%nat) by done.
  eapply acts_mono; [apply (hoare_performSearch ((c, u) :: req) found e (2 * size (servers w)) (close (S (2 * size (servers w)))))|by intros [] w' [_ ?]].
  - intros X t w' Hw' Hi'. by apply close_ends; [lia|].
  - done.
  - split; [by apply inv_new_search|]. intros s Hs. cbn in Hs. rewrite lookup_insert_eq in Hs. by injection Hs as <-.
Qed.

(** The heartbeat connects to peers. *)
Lemma inv_new_server req found X w o : inv req found X w -> transfers o = [] -> _currentSearches o = [] -> inv req found X (set_servers <[next_ptr w := o]> (set_next S w)).
Proof using Type.
  intros [H1 H2 H3 H4 H5] Ho Hc. split; cbn; try done.
  - intros p s Hs. destruct (H3 p s Hs) as (? & ? & Hw). split_and!; [lia|done|]. intros HX. specialize (Hw HX). unfold waits in *. cbn. destruct (_wasFound s); [|done].
    destruct Hw as [(t & o1 & u & Ho1 & Hin)|?]; [|by right]. left. exists t, o1, u. split; [|done]. rewrite lookup_insert_ne; [done|]. destruct (H4 t o1 Ho1). lia.
  - intros t o1 Ho1. destruct (decide (t = next_ptr w)) as [->|Hne].
    + rewrite lookup_insert_eq in Ho1. injection Ho1 as <-. rewrite Ho, Hc. split_and!; [lia|constructor|constructor].
    + rewrite lookup_insert_ne in Ho1 by done. destruct (H4 t o1 Ho1) as (Ht & Htr & Hcur). split_and!; [lia| |].
      * eapply Forall_impl; [exact Htr|]. intros x [Hx Hok]. split; [cbn; lia|done].
      * eapply Forall_impl; [exact Hcur|]. intros x Hx p Hp. destruct (Hx p Hp) as [Hlt Hok]. split; [cbn; lia|done].
  - intros b p Hb. destruct (H5 b p Hb). split; [lia|done].
Qed.

Lemma connect_ends req found e w host ep fl : inv req found [] w -> ends (connectToMeshServer fl host ep) e w (fun _ => inv req found []).
Proof using Type.
  intros Hi. unfold connectToMeshServer, connectionIsPending. apply acts_bind, acts_get. destruct (negb _); [|by apply acts_ret].
  apply acts_bind, acts_ask, acts_bind, acts_get, acts_bind, acts_put, acts_bind, acts_put, acts_bind, acts_put. set (w1 := set_pending _ _).
  assert (Hi1 : inv req found [] w1) by (apply (inv_same _ _ _ _ _ (inv_new_server req found [] w (new_server (local_time e) host ep fl) Hi eq_refl eq_refl)); done).
  apply (acts_mono _ _ _ (fun _ w' => rel none w1 w' /\ inv req found [] w')); [|by intros [] w' [_ Hw']].
  assert (Hc : keeps e (depth w1) none (inv req found []) (connect (next_ptr w))); [|by apply Hc].
  unfold connect. apply mesh_keeps_bind; [by apply mesh_keeps_set_fld|intros _]. apply mesh_keeps_bind; [by apply mesh_keeps_async|intros _]. apply mesh_keeps_bind; [by apply mesh_keeps_set_fld|intros _]. by apply mesh_keeps_query_async.
Qed.

Lemma heartbeat_ends req found e w : inv req found [] w -> ends onHeartBeat e w (fun _ => inv req found []).
Proof using Type.
  intros Hi. unfold onHeartBeat. apply acts_bind, acts_ask. destruct (reload_ok e); [|by apply acts_ret]. unfold doHeartBeat. apply acts_bind. unfold ends at 1, on_clients.
  pose proof (total_heartbeats (query_env e) (clients w)) as Hfuel. destruct (heartbeat_clients (query_env e) (clients w)) as [[[] c]| | |]; try done.
  apply acts_bind, acts_ask. destruct (intraMeshPeers _) as [peers|]; [|by apply acts_ret, (inv_same _ _ _ w)]. assert (Hi1 : inv req found [] (set_query_clients c w)) by by apply (inv_same _ _ _ w).
  revert Hi1. generalize (set_query_clients c w). clear. induction peers as [|peer peers IH]; intros w Hi; [by apply acts_ret|]. cbn [connect_peers]. destruct (from_string (Host peer)) as [host|]; [|by apply acts_ret].
  apply acts_bind, acts_get, acts_bind. apply (acts_mono _ _ _ (fun _ => inv req found [])); [|intros [] w' Hw'; exact (IH w' Hw')]. destruct (negb _); [by apply connect_ends|by apply acts_ret].
Qed.

Lemma elem_of_insert_other {A} (l : list A) n x y z : l !! n = Some y -> x ∈ l -> x <> y -> x ∈ <[n := z]> l.
Proof using Type.
  intros Hn [i Hi]%list_elem_of_lookup Hne. apply list_elem_of_lookup. exists i. rewrite list_lookup_insert_ne; [done|]. intros ->. congruence.
Qed.

(** The timer of a search expires. *)
Lemma inv_expire req found w n b p : inv req found [] w -> ops w !! n = Some (b, TimerWait p) -> inv req found [] (set_ops <[n := (b, TimerReady p)]> w).
Proof using Type.
  intros Hi Hn. assert (Hready : (b, TimerReady p) ∈ <[n := (b, TimerReady p)]> (ops w)) by (apply list_elem_of_lookup; exists n; apply list_lookup_insert_eq; by eapply lookup_lt_Some).
  assert (Hi' : inv req found [p] (set_ops <[n := (b, TimerReady p)]> w)).
  { apply inv_ops; [apply (mesh_inv_weaken _ _ []); [set_solver|done]| |].
    - intros x q Hx Hq HX. apply (elem_of_insert_other _ _ _ (b, TimerWait p)); [done|done|]. intros ->. cbn in Hq. set_solver.
    - intros b' q [i Hl]%list_elem_of_lookup. destruct (decide (i = n)) as [->|Hne]; [|rewrite list_lookup_insert_ne in Hl by done; by eapply list_elem_of_lookup_2].
      rewrite list_lookup_insert_eq in Hl by (by eapply lookup_lt_Some). done. }
  apply (inv_waiting _ _ [] _ p Hi'). intros s Hs. destruct (inv_searches _ _ _ _ Hi p s Hs) as (_ & _ & Hw). specialize (Hw ltac:(set_solver)). unfold waits in *. destruct (_wasFound s).
  - destruct Hw as [?|[b' Hb]]; [by left|]. right. exists b'. by apply (elem_of_insert_other _ _ _ (b, TimerWait p)).
  - exists b. by right.
Qed.

Definition steps_to (tr : list (world CB * label (CB := CB))) (r : result (unit * world CB)) : Prop :=
  match r with Done (_, w') => inv (requests tr) (founds tr) [] w' | NoFuel => False | _ => True end.

Lemma mesh_step_inv e w l r tr : inv (requests tr) (founds tr) [] w -> step e w l = Some r -> steps_to ((w, l) :: tr) r.
Proof using Type.
  intros Hi Hs. assert (Hends : forall m : act env (world CB) unit, ends m e w (fun _ => inv (requests ((w, l) :: tr)) (founds ((w, l) :: tr)) []) -> steps_to ((w, l) :: tr) (m e w)).
  { intros m. unfold ends, steps_to. by destruct (m e w) as [[[] w']| | |]. }
  destruct l as [u c|u c|n ok d|n| |l]; cbn in Hs.
  - injection Hs as <-. by apply Hends, new_search_ends.
  - injection Hs as <-. by apply Hends, new_search_ends.
  - destruct (ops w !! n) as [x|] eqn:Hn; [|done]. cbn in Hs. destruct (can_complete x ok d) eqn:Hc; [|done]. injection Hs as <-. pose proof (depth_size w) as Hsize.
    set (found := founds ((w, LIo n ok d) :: tr)).
    assert (Hi' : inv (requests tr) found [] w).
    { apply (inv_found _ (founds tr)); [|done]. apply founds_cons. }
    assert (Htop : forall X t w', (depth w' <= 2 * size (servers w))%nat -> inv (requests tr) found X w' -> ends (close (close_fuel w) t) e w' (fun _ w'' => rel all w' w'' /\ inv (requests tr) found X w'' /\ emptied t w''))
      by (intros X t w' Hw' Hi''; by apply close_ends).
    pose proof (hoare_complete (requests tr) found e (2 * size (servers w)) (close (close_fuel w)) ltac:(intros; apply Htop; [lia|done]) Htop w n x ok d Hsize Hi' Hn Hc) as Hend.
    unfold ends in Hend. unfold steps_to, requests. cbn [omap list_omap requested snd]. fold (requests tr). fold found.
    destruct (complete _ _ _ _ _ _) as [[[] w']| | |]; try done; apply Hend.
    all: intros t u Ht -> Hu; unfold found, founds; cbn; unfold reported; cbn; rewrite Hn; destruct x as [b o]; cbn in Ht; subst o; rewrite Hu; left.
  - destruct (ops w !! n) as [[b []]|] eqn:Hn; try done. injection Hs as <-. by apply (inv_expire (requests tr) (founds tr)).
  - injection Hs as <-. by apply Hends, heartbeat_ends.
  - assert (Hc : match MeshQuery.step (query_env e) (clients w) l with
      | Some (Done (a, c)) => Some (Done (a, set_query_clients c w))
      | Some Undefined => Some Undefined | Some Uncaught => Some Uncaught | Some NoFuel => Some NoFuel
      | None => None
      end = Some r) by (by destruct l). clear Hs. pose proof (step_total (query_env e) (clients w) l) as Hfuel.
    destruct (MeshQuery.step _ _ l) as [[[[] c]| | |]|]; simplify_eq; try done. by apply (inv_same _ _ [] w).
Qed.

Lemma searching_inv tr w : searching tr w -> inv (requests tr) (founds tr) [] w.
Proof using Type.
  induction 1 as [|tr w e l w' Hr IH Hs]; [|exact (mesh_step_inv _ _ _ _ _ IH Hs)]. split; cbn; try done. intros b p Hb. by apply not_elem_of_nil in Hb.
Qed.

(** C9. Every request to the mesh is answered exactly once: the answered callbacks and those of the active searches are together the
    callbacks that were passed in.  An asset that is delivered has the id that was asked for; an asset is said to exist only if
    a peer has reported it.  An active search can always be woken up: its timer runs, or the asset has been found and is being
    transferred, or its failure is posted.  This holds in every state that is reached without undefined behaviour. *)
Theorem mesh_searches_answered tr w : searching tr w ->
  (answers w).*1 ++ (cb_of ∘ _callBack ∘ snd <$> map_to_list (searches w)) ≡ₚ cb_of <$> (requests tr).*1 /\
  (forall k a, (k, Full (Some a)) ∈ answers w -> exists u, (FullCallBack k, u) ∈ requests tr /\ Asset.getUUID a = Some u) /\
  (forall k, (k, Test true) ∈ answers w -> exists u, (TestCallBack k, u) ∈ requests tr /\ u ∈ founds tr) /\
  (forall p s, searches w !! p = Some s -> (_callBack s, _uuid s) ∈ requests tr /\ waits w p s).
Proof using Type.
  intros [H1 H2 H3 _ _]%searching_inv. rewrite Forall_forall in H2. split_and!; [done|intros k a; exact (H2 (k, Full (Some a)))|intros k; exact (H2 (k, Test true))|].
  intros p s Hs. destruct (H3 p s Hs) as (_ & Hreq & Hw). split; [done|]. apply Hw. set_solver.
Qed.

(** C10. No handler of the mesh runs forever: the loops of [close] end, and so do its calls of itself through the query connection, the
    searches it ends and the servers that are destroyed with them. *)
Theorem mesh_handlers_terminate tr w e l : searching tr w -> step e w l <> Some NoFuel.
Proof using Type. intros Hr Hs. exact (mesh_step_inv e w l NoFuel tr (searching_inv tr w Hr) Hs). Qed.

End steps.

(** ** Runs *)

(** Two peers with one letter for an address. *)
Definition mesh_parse : BoostParse := {| WhipSettings.split := fun c s => if decide (c = 58) then [s; [49]; [50]] else (fun x => [x]) <$> s;
  lexical_ushort := fun s => match s with [d] => Some (d - 48) | _ => None end; from_string := Some |}.
Definition mesh_env : env := mkEnv (MeshQuery.mkEnv ∅ [97; 98] false) [112] 0 true (fun l => l).

Fixpoint mesh_exec (w : world nat) (tr : list (world nat * label)) (ls : list label) : option (result (list (world nat * label) * world nat)) :=
  match ls with
  | [] => Some (Done (tr, w))
  | l :: ls =>
      match step (H := mesh_parse) mesh_env w l with
      | Some (Done (_, w')) => mesh_exec w' ((w, l) :: tr) ls
      | Some Undefined => Some Undefined | Some Uncaught => Some Uncaught | Some NoFuel => Some NoFuel
      | None => None
      end
  end.

Lemma mesh_exec_searching ls w tr w' tr' : searching (H := mesh_parse) tr w -> mesh_exec w tr ls = Some (Done (tr', w')) -> searching (H := mesh_parse) tr' w'.
Proof.
  revert w tr. induction ls as [|l ls IH]; intros w tr Hr Hx; cbn [mesh_exec] in Hx; [by injection Hx as <- <-|].
  destruct (step (H := mesh_parse) mesh_env w l) as [[[[] w1]| | |]|] eqn:Es; [|done..]. apply (IH w1 ((w, l) :: tr)); [by econstructor|done].
Qed.

Definition is_undefined {A} (r : option (result A)) : bool := match r with Some Undefined => true | _ => false end.
Lemma is_undefined_eq {A} (r : option (result A)) : is_undefined r = true -> r = Some Undefined.
Proof. by destruct r as [[| | |]|]. Qed.

Definition demo_id : list Z := replicate 32 48.
Definition demo_asset : list Z := demo_id ++ [0; 0; 1].
Definition demo_found : list Z := IntraMeshMsg.response demo_id IntraMeshMsg.QR_FOUND.
Definition demo_header : list Z := ServerResponseMsg.code ServerResponseMsg.RC_FOUND :: demo_id ++ htonl_bytes (Z.of_nat (length demo_asset)).

(** Both peers are connected, and asked for an asset. *)
Definition connect_labels : list (label (CB := nat)) :=
  [LIo 0 true []; LIo 0 true []; LIo 2 true (AuthChallengeMsg.outbound (replicate 7 1)); LIo 3 true []; LIo 3 true (AuthStatusMsg.outbound AuthStatusMsg.AS_AUTH_SUCCESS)].
Definition ask_labels : list (label (CB := nat)) := [LHeartbeat] ++ connect_labels ++ connect_labels ++ [LGet demo_id 7%nat; LIo 4 true []; LIo 4 true []].
(** The first peer has it and sends it. *)
Definition fetch_labels : list (label (CB := nat)) := ask_labels ++ [LIo 0 true demo_found; LIo 4 true []; LIo 0 true demo_header; LIo 4 true demo_asset].
(** The connections to the second peer fail, one before and one after the first peer reports the asset. *)
Definition lost_labels : list (label (CB := nat)) := ask_labels ++ [LIo 3 false []; LIo 0 true demo_found; LIo 1 false []; LIo 2 true []; LIo 0 true demo_header].

Lemma mesh_searches_answered_witness : exists tr w, mesh_exec started [] fetch_labels = Some (Done (tr, w)) /\
  answers w = [(7%nat, Full (Some demo_asset))] /\ exists u, (FullCallBack 7%nat, u) ∈ requests tr /\ Asset.getUUID demo_asset = Some u.
Proof.
  assert (Ha : match mesh_exec started [] fetch_labels with Some (Done (_, w)) => answers w | _ => [] end = [(7%nat, Full (Some demo_asset))]) by (vm_compute; reflexivity).
  destruct (mesh_exec started [] fetch_labels) as [[[tr w]| | |]|] eqn:E; [|discriminate Ha..]. exists tr, w. split; [reflexivity|]. split; [exact Ha|].
  pose proof (mesh_searches_answered (H := mesh_parse) tr w (mesh_exec_searching _ _ _ _ _ (searching_start (H := mesh_parse)) E)) as (_ & Hf & _). apply Hf. rewrite Ha. left.
Defined.

Lemma mesh_handlers_terminate_witness : exists tr w, mesh_exec started [] ask_labels = Some (Done (tr, w)) /\ step (H := mesh_parse) mesh_env w (LIo 3 false []) <> Some NoFuel.
Proof.
  assert (Ha : match mesh_exec started [] ask_labels with Some (Done _) => true | _ => false end = true) by (vm_compute; reflexivity).
  destruct (mesh_exec started [] ask_labels) as [[[tr w]| | |]|] eqn:E; [|discriminate Ha..]. exists tr, w. split; [reflexivity|].
  exact (mesh_handlers_terminate (H := mesh_parse) tr w mesh_env (LIo 3 false []) (mesh_exec_searching _ _ _ _ _ (searching_start (H := mesh_parse)) E)).
Defined.

(** A server that loses its connections closes more than once and keeps its searches: a search that another
    peer has answered positively is then ended as not found, and the asset that arrives meets a search that is gone. *)
Theorem mesh_close_repeats : exists tr w, searching (H := mesh_parse) tr w /\
  requests tr = [(FullCallBack 7%nat, demo_id)] /\ founds tr = [demo_id] /\ answers w = [(7%nat, Full None)] /\
  step (H := mesh_parse) mesh_env w (LIo 2 true demo_asset) = Some Undefined.
Proof.
  assert (Ha : match mesh_exec started [] lost_labels with
      | Some (Done (tr, w)) => Some (requests tr, founds tr, answers w, is_undefined (step (H := mesh_parse) mesh_env w (LIo 2 true demo_asset)))
      | _ => None end = Some ([(FullCallBack 7%nat, demo_id)], [demo_id], [(7%nat, Full None)], true)) by (vm_compute; reflexivity).
  destruct (mesh_exec started [] lost_labels) as [[[tr w]| | |]|] eqn:E; [|discriminate Ha..]. exists tr, w. split; [exact (mesh_exec_searching _ _ _ _ _ (searching_start (H := mesh_parse)) E)|].
  injection Ha as Hr Hf Hans Hs. split_and!; [exact Hr|exact Hf|exact Hans|]. exact (is_undefined_eq _ Hs).
Qed.
