(* ===== verification/WhipSession.v ===== *)
(** * WhipSession: a client connection of the WHIP server

    Models [src/whip-server/whip/CSUnauthenticated.cpp] and [CSAuthenticated.cpp]: the
    two states of a connection with all their handlers.  A handler is a function from the
    completed operation to the operations that it starts (writes and reads on the socket,
    calls of the storage and of the mesh) and the operation whose completion the
    connection waits for next; [None] is an access outside an array, or an
    exception that no handler catches.  The storage answers
    [assetExists] at once, everything else by a callback.  After [disconnect] the socket is
    closed and the pending callbacks find no client.  The texts of error messages, status
    reports and id lists are arguments of the events; statistics and logging are left out. *)
From S2P Require Import Prelude Sha1 WhipWire.
From stdpp Require Import list.
#[local] Open Scope Z_scope.

Definition SF_NONE : Z := 0.
Definition SF_DONTCACHE : Z := 1.

(** What a handler asks of the socket, the storage and the mesh. *)
Inductive effect :=
  | Write (b : list Z) | Read (n : Z) | Disconnect
  | StorageGet (uuid : list Z) (flags : Z) | StoragePut (asset : list Z) | StorageExists (uuid : list Z) | StoragePurge (uuid : list Z)
  | StoragePurgeLocals | StorageStatus | StorageIds (prefix : list Z) | MeshGet (uuid : list Z).

(** What the connection waits for.  [mesh] is [_isMeshConnection]; [req] is [_currentRequest]. *)
Inductive conn :=
  | WriteChallenge (challenge : list Z) | ReadResponse (challenge : list Z) | WriteAuthSuccess (mesh : bool) | WriteAuthFailure
  | WaitForRequest (mesh : bool) | ReadAssetData (mesh : bool) (req : ClientRequestMsg.t)
  | WaitStorageGet (mesh : bool) (req : ClientRequestMsg.t) | WaitMeshGet (mesh : bool) | WaitStoragePurge (mesh : bool) (req : ClientRequestMsg.t)
  | WaitStorageWrite (mesh : bool) (req : ClientRequestMsg.t) | WaitStatus (mesh : bool) | WaitIds (mesh : bool)
  | WriteResponseHeader (mesh : bool) (resp : ServerResponseMsg.t) | WriteResponseData (mesh : bool) (resp : ServerResponseMsg.t)
  | Closed.

(** Completions.  [err] is the error code of the operation (true: it failed). *)
Inductive event :=
  | WroteChallenge (err : bool) | GotResponse (err : bool) (data : list Z) | WroteStatus (err : bool)
  | GotHeader (err : bool) (header : list Z) | GotAssetData (err : bool) (data : list Z)
  | StorageGot (found : option (list Z)) | MeshGot (uuid : list Z) (found : option (list Z)) | StoragePurged (success : bool) | StorageWrote (success : bool)
  | StatusReady (text : list Z) | IdsReady (text : list Z) | WroteHeader (err : bool) | WroteData (err : bool).

#[local] Notation result := (option (conn * list effect)).

Definition disconnect : result := Some (Closed, [Disconnect]).

(** ** CSUnauthenticated *)

(** [start] and [sendAuthChallenge], with the random phrase. *)
Definition start (phrase : list Z) : conn * list effect :=
  let challenge := AuthChallengeMsg.outbound phrase in (WriteChallenge challenge, [Write challenge]).

Definition handleWriteChallenge (challenge : list Z) (err : bool) : result :=
  if err then disconnect else Some (ReadResponse challenge, [Read (Z.of_nat AuthResponseMsg.MESSAGE_SIZE)]).

Definition handleReadChallengeResponse (password challenge : list Z) (err : bool) (data : list Z) : result :=
  if err then disconnect
  else
    ok ← AuthResponseMsg.isValid data challenge password;
    if ok : bool then
      server ← AuthResponseMsg.isServerResponse data;
      Some (WriteAuthSuccess server, [Write (AuthStatusMsg.outbound AuthStatusMsg.AS_AUTH_SUCCESS)])
    else Some (WriteAuthFailure, [Write (AuthStatusMsg.outbound AuthStatusMsg.AS_AUTH_FAILURE)]).

Definition handleWriteAuthFailure (err : bool) : result := disconnect.

(** ** CSAuthenticated *)

Definition waitForRequest (mesh : bool) : result := Some (WaitForRequest mesh, [Read (Z.of_nat ClientRequestMsg.HEADER_SIZE)]).

(** The error code is not looked at: a broken connection shows in the read that follows. *)
Definition handleWriteAuthSuccess (mesh : bool) (err : bool) : result := waitForRequest mesh.

Definition sendResponse (mesh : bool) (resp : ServerResponseMsg.t) : result :=
  Some (WriteResponseHeader mesh resp, [Write (ServerResponseMsg.header resp)]).

(** [boost::numeric_cast<int>] of the size, for the statistics, throws for a size that is not an [int]; the
    exception leaves the handler and [io_service::run]. *)
Definition is_int_size (d : list Z) : bool := Z.of_nat (length d) <? 2 ^ 31.

Definition handleResponseHeaderWrite (mesh : bool) (resp : ServerResponseMsg.t) (err : bool) : result :=
  if err then disconnect
  else
    match ServerResponseMsg.data resp with
    | Some d => if is_int_size d then Some (WriteResponseData mesh resp, [Write d]) else None
    | None => waitForRequest mesh
    end.

Definition handleResponseDataWrite (mesh : bool) (err : bool) : result := if err then disconnect else waitForRequest mesh.

Definition sendError (mesh : bool) (req : ClientRequestMsg.t) (msg : list Z) : result :=
  uuid ← ClientRequestMsg.getUUID req;
  resp ← ServerResponseMsg.new_data ServerResponseMsg.RC_ERROR uuid msg;
  sendResponse mesh resp.

(** "Invalid asset UUID: " and the UUID. *)
Definition invalid_uuid_text (uuid : list Z) : list Z :=
  [73; 110; 118; 97; 108; 105; 100; 32; 97; 115; 115; 101; 116; 32; 85; 85; 73; 68; 58; 32] ++ uuid.

Definition handleGetRequest (mesh : bool) (req : ClientRequestMsg.t) (cacheResult : bool) : result :=
  uuid ← ClientRequestMsg.getUUID req;
  if negb (IsValidUUID uuid) then sendError mesh req (invalid_uuid_text uuid)
  else
    let flags := if cacheResult then SF_NONE else SF_DONTCACHE in
    Some (WaitStorageGet mesh req, [StorageGet uuid flags]).

Definition handlePurgeRequest (mesh : bool) (req : ClientRequestMsg.t) : result :=
  uuid ← ClientRequestMsg.getUUID req;
  if negb (IsValidUUID uuid) then sendError mesh req (invalid_uuid_text uuid)
  else Some (WaitStoragePurge mesh req, [StoragePurge uuid]).

Definition handlePutRequest (mesh : bool) (req : ClientRequestMsg.t) : result :=
  n ← ClientRequestMsg.getDataSize req;
  req ← ClientRequestMsg.initDataStorageFromHeader req;
  Some (ReadAssetData mesh req, [Read n]).

Definition handleTestRequest (assetExists : list Z -> bool) (mesh : bool) (req : ClientRequestMsg.t) : result :=
  uuid ← ClientRequestMsg.getUUID req;
  if negb (IsValidUUID uuid) then sendError mesh req (invalid_uuid_text uuid)
  else
    resp ← ServerResponseMsg.new_code (if assetExists uuid then ServerResponseMsg.RC_FOUND else ServerResponseMsg.RC_NOTFOUND) uuid;
    '(s, es) ← sendResponse mesh resp; Some (s, StorageExists uuid :: es).

Definition ZERO_UUID : list Z := replicate 32 48.

Definition handlePurgeLocals (mesh : bool) : result :=
  resp ← ServerResponseMsg.new_code ServerResponseMsg.RC_OK ZERO_UUID;
  '(s, es) ← sendResponse mesh resp; Some (s, StoragePurgeLocals :: es).

Definition handleStatusGet (mesh : bool) : result := Some (WaitStatus mesh, [StorageStatus]).

(** [statusGetCompleted] and [storedAssetIdsGetCompleted]. *)
Definition textCompleted (mesh : bool) (text : list Z) : result :=
  resp ← ServerResponseMsg.new_data ServerResponseMsg.RC_OK ZERO_UUID text; sendResponse mesh resp.

Definition handleStoredAssetIdsGet (mesh : bool) (req : ClientRequestMsg.t) : result :=
  uuid ← ClientRequestMsg.getUUID req; Some (WaitIds mesh, [StorageIds (take 3 uuid)]).

Definition handleClientRequestHeaderRead (assetExists : list Z -> bool) (mesh err : bool) (header : list Z) : result :=
  if err then disconnect
  else
    let req := ClientRequestMsg.mk header None in
    match ClientRequestMsg.getType req with
    | inl _ => disconnect
    | inr ClientRequestMsg.RT_GET => handleGetRequest mesh req true
    | inr ClientRequestMsg.RT_PURGE => handlePurgeRequest mesh req
    | inr ClientRequestMsg.RT_PUT => handlePutRequest mesh req
    | inr ClientRequestMsg.RT_TEST => handleTestRequest assetExists mesh req
    | inr ClientRequestMsg.RT_MAINT_PURGELOCALS => handlePurgeLocals mesh
    | inr ClientRequestMsg.RT_STATUS_GET => handleStatusGet mesh
    | inr ClientRequestMsg.RT_STORED_ASSET_IDS_GET => handleStoredAssetIdsGet mesh req
    | inr ClientRequestMsg.RT_GET_DONTCACHE => handleGetRequest mesh req false
    end.

Definition found_response (mesh : bool) (asset : list Z) : result :=
  uuid ← Asset.getUUID asset;
  resp ← ServerResponseMsg.new_data ServerResponseMsg.RC_FOUND uuid asset;
  sendResponse mesh resp.

(** [found] is the asset of a successful lookup. *)
Definition handleStorageGetResponse (mesh : bool) (req : ClientRequestMsg.t) (found : option (list Z)) : result :=
  match found with
  | Some asset => found_response mesh asset
  | None =>
      uuid ← ClientRequestMsg.getUUID req;
      if negb mesh then Some (WaitMeshGet mesh, [MeshGet uuid])
      else resp ← ServerResponseMsg.new_code ServerResponseMsg.RC_NOTFOUND uuid; sendResponse mesh resp
  end.

Definition handleIntrameshGetResponse (mesh : bool) (uuid : list Z) (found : option (list Z)) : result :=
  match found with
  | Some asset => found_response mesh asset
  | None => resp ← ServerResponseMsg.new_code ServerResponseMsg.RC_NOTFOUND uuid; sendResponse mesh resp
  end.

(** [handleStoragePurgeResponse] and [handleStorageWriteResponse]; [msg] is [error->what()]. *)
Definition handleStorageWriteResponse (msg : list Z) (mesh : bool) (req : ClientRequestMsg.t) (success : bool) : result :=
  if success then
    uuid ← ClientRequestMsg.getUUID req;
    resp ← ServerResponseMsg.new_code ServerResponseMsg.RC_OK uuid; sendResponse mesh resp
  else sendError mesh req msg.

Definition handleAssetDataRead (mesh : bool) (req : ClientRequestMsg.t) (err : bool) (data : list Z) : result :=
  if err then disconnect
  else
    uuid ← Asset.getUUID data;
    if negb (IsValidUUID uuid) then
      ruuid ← ClientRequestMsg.getUUID req; sendError mesh req (invalid_uuid_text ruuid)
    else Some (WaitStorageWrite mesh (ClientRequestMsg.mk (ClientRequestMsg.header req) (Some data)), [StoragePut data]).

(** ** A connection *)

Section session.
Context (password : list Z) (assetExists : list Z -> bool) (error_text : list Z).

(** The handler of a completion; an event that the connection does not wait for does not happen. *)
Definition handle (s : conn) (ev : event) : option result :=
  match s, ev with
  | WriteChallenge c, WroteChallenge err => Some (handleWriteChallenge c err)
  | ReadResponse c, GotResponse err data => Some (handleReadChallengeResponse password c err data)
  | WriteAuthSuccess mesh, WroteStatus err => Some (handleWriteAuthSuccess mesh err)
  | WriteAuthFailure, WroteStatus err => Some (handleWriteAuthFailure err)
  | WaitForRequest mesh, GotHeader err h => Some (handleClientRequestHeaderRead assetExists mesh err h)
  | ReadAssetData mesh req, GotAssetData err data => Some (handleAssetDataRead mesh req err data)
  | WaitStorageGet mesh req, StorageGot found => Some (handleStorageGetResponse mesh req found)
  | WaitMeshGet mesh, MeshGot uuid found => Some (handleIntrameshGetResponse mesh uuid found)
  | WaitStoragePurge mesh req, StoragePurged ok => Some (handleStorageWriteResponse error_text mesh req ok)
  | WaitStorageWrite mesh req, StorageWrote ok => Some (handleStorageWriteResponse error_text mesh req ok)
  | WaitStatus mesh, StatusReady text => Some (textCompleted mesh text)
  | WaitIds mesh, IdsReady text => Some (textCompleted mesh text)
  | WriteResponseHeader mesh resp, WroteHeader err => Some (handleResponseHeaderWrite mesh resp err)
  | WriteResponseData mesh resp, WroteData err => Some (handleResponseDataWrite mesh err)
  | _, _ => None
  end.

(** A run of a connection: the events so far, with the effects of their handlers, latest first. *)
Inductive session (phrase : list Z) : list (event * list effect) -> conn -> Prop :=
  | session_start : session phrase [] (start phrase).1
  | session_step tr s ev s' es : session phrase tr s -> handle s ev = Some (Some (s', es)) -> session phrase ((ev, es) :: tr) s'.
End session.

(** ** The password is required *)

(** The hexadecimal text of a digest. *)
Definition hex (digest : list Z) : list Z := concat (map (fun x => [hex_digit (x / 16); hex_digit (x mod 16)]) digest).

Lemma challenge_response phrase password : Forall is_u8 (password ++ phrase) -> Z.of_nat (length (password ++ phrase)) < 2 ^ 32 - 64 ->
  AuthResponseMsg.calculateChallengeResponse phrase password = Some (hex (Spec.sha1 (password ++ phrase))).
Proof.
  intros HF Hlen. unfold AuthResponseMsg.calculateChallengeResponse.
  destruct (Update_spec AuthResponseMsg.sha_object [] (password ++ phrase)) as (h1 & -> & Habs & _); [by apply Reset_absorbed|done|done|].
  cbn [mbind option_bind]. destruct (Final_spec h1 (password ++ phrase) Habs HF) as (h2 & -> & Hd); [lia|]. cbn [mbind option_bind].
  unfold ReportHashStl. by rewrite Hd.
Qed.

Lemma getPhrase_outbound phrase : length phrase = AuthChallengeMsg.PHRASE_SIZE ->
  AuthChallengeMsg.getPhrase (AuthChallengeMsg.outbound phrase) = Some phrase.
Proof.
  intros Hl. unfold AuthChallengeMsg.outbound. rewrite take_ge by (rewrite Hl; done). pose proof (bytes_at_app [AuthChallengeMsg.PACKET_IDENTIFIER] phrase []) as Hb.
  rewrite app_nil_r, Hl in Hb. exact Hb.
Qed.

(** What the operations on assets are. *)
Definition asset_effect (e : effect) : bool :=
  match e with Write _ | Read _ | Disconnect => false | _ => true end.

Definition proof_of_password (password phrase data : list Z) : Prop :=
  (data !! 0%nat = Some 0 \/ data !! 0%nat = Some 100) /\ bytes_at data 1 40 = Some (hex (Spec.sha1 (password ++ phrase))).

Section proofs.
Context (password : list Z) (assetExists : list Z -> bool) (error_text : list Z).
#[local] Notation session := (session password assetExists error_text).

Lemma isValid_spec phrase data : Forall is_u8 (password ++ phrase) -> Z.of_nat (length (password ++ phrase)) < 2 ^ 32 - 64 ->
  length phrase = AuthChallengeMsg.PHRASE_SIZE ->
  AuthResponseMsg.isValid data (AuthChallengeMsg.outbound phrase) password = Some true <-> proof_of_password password phrase data.
Proof using Type.
  intros HF Hlen Hl. unfold AuthResponseMsg.isValid, proof_of_password, AuthResponseMsg.getChallengeResponse.
  change AuthResponseMsg.RESPONSE_SIZE with 40%nat. change AuthResponseMsg.PACKET_IDENTIFIER with 0. change AuthResponseMsg.SERVER_IDENTIFIER with 100.
  destruct (data !! 0%nat) as [b|]; cbn [mbind option_bind]; [|split; [done|by intros [[|] _]]].
  destruct (negb (b =? 0) && negb (b =? 100)) eqn:Eb.
  - apply andb_prop in Eb as [E0 E100]. zbool. split; [done|]. intros [[[= ->]|[= ->]] _]; done.
  - rewrite getPhrase_outbound by done. cbn [mbind option_bind]. rewrite challenge_response by done. cbn [mbind option_bind].
    destruct (bytes_at data 1 40) as [r|]; cbn [mbind option_bind]; [|split; [done|by intros [_ ?]]].
    assert (Hb : b = 0 \/ b = 100) by (apply andb_false_iff in Eb as [E|E]; zbool; auto). split.
    + intros [= E]. apply bool_decide_eq_true in E. rewrite E. split; [|done]. destruct Hb as [-> | ->]; auto.
    + intros [_ [= ->]]. by rewrite bool_decide_true.
Qed.

(** Before the status message of a successful response the connection is not authenticated. *)
Definition authenticated (s : conn) : bool :=
  match s with WriteChallenge _ | ReadResponse _ | WriteAuthFailure | Closed => false | _ => true end.

Definition quiet (es : list effect) : Prop := Forall (fun e => asset_effect e = false) es.

(** The states of a connection that has not authenticated, and what its handlers do. *)
Definition before_auth (phrase : list Z) (s : conn) : Prop :=
  match s with
  | WriteChallenge c | ReadResponse c => c = AuthChallengeMsg.outbound phrase
  | WriteAuthFailure | Closed => True
  | _ => False
  end.

Lemma before_auth_step phrase s ev s' es : Forall is_u8 (password ++ phrase) -> Z.of_nat (length (password ++ phrase)) < 2 ^ 32 - 64 ->
  length phrase = AuthChallengeMsg.PHRASE_SIZE ->
  before_auth phrase s -> handle password assetExists error_text s ev = Some (Some (s', es)) ->
  quiet es /\ (before_auth phrase s' \/ exists data, ev = GotResponse false data /\ proof_of_password password phrase data).
Proof using Type.
  intros HF Hlen Hl Hs Hh. destruct s; cbn [before_auth] in Hs; try done; destruct ev; cbn [handle] in Hh; try done; apply (inj Some) in Hh.
  - unfold handleWriteChallenge, disconnect in Hh. destruct err; injection Hh as <- <-; (split; [by repeat constructor|by left]).
  - unfold handleReadChallengeResponse, disconnect in Hh. destruct err; [injection Hh as <- <-; split; [by repeat constructor|by left]|].
    destruct (AuthResponseMsg.isValid data challenge password) as [[]|] eqn:Ev; cbn [mbind option_bind] in Hh; [| |done].
    + destruct (AuthResponseMsg.isServerResponse data); cbn [mbind option_bind] in Hh; [|done]. injection Hh as <- <-.
      split; [by repeat constructor|]. right. exists data. split; [done|]. subst challenge. by apply isValid_spec.
    + injection Hh as <- <-. split; [by repeat constructor|by left].
  - unfold handleWriteAuthFailure, disconnect in Hh. injection Hh as <- <-. split; [by repeat constructor|by left].
Qed.

Lemma session_before_auth phrase tr s : Forall is_u8 (password ++ phrase) -> Z.of_nat (length (password ++ phrase)) < 2 ^ 32 - 64 ->
  length phrase = AuthChallengeMsg.PHRASE_SIZE -> session phrase tr s ->
  (before_auth phrase s /\ Forall (fun x => quiet x.2) tr) \/ (exists data es, (GotResponse false data, es) ∈ tr /\ proof_of_password password phrase data).
Proof using Type.
  intros HF Hlen Hl H. induction H as [|tr s ev s' es H IH Hh]; [left; split; [done|constructor]|].
  destruct IH as [[Hb Hq]|(data & es' & Hin & Hp)]; [|right; exists data, es'; split; [by right|done]].
  destruct (before_auth_step phrase s ev s' es HF Hlen Hl Hb Hh) as [Hqe [Hb'|(data & -> & Hp)]].
  - left. split; [done|by constructor].
  - right. exists data, es. split; [by left|done].
Qed.
End proofs.

(** C20. Nothing is asked of the storage or of the mesh for a client that has not proved to
    know the password.  In every run of a connection whose challenge carries the phrase
    [phrase], if some handler called the storage or the mesh, then the client had sent a
    response with one of the two packet identifiers whose 40 characters are the hexadecimal
    SHA-1 value of the password followed by the phrase of this connection. *)
Theorem session_needs_password password assetExists error_text phrase tr s ev es :
  Forall is_u8 (password ++ phrase) -> Z.of_nat (length (password ++ phrase)) < 2 ^ 32 - 64 -> length phrase = AuthChallengeMsg.PHRASE_SIZE ->
  session password assetExists error_text phrase tr s -> (ev, es) ∈ tr -> existsb asset_effect es = true ->
  exists data es', (GotResponse false data, es') ∈ tr /\ proof_of_password password phrase data.
Proof.
  intros HF Hlen Hl H Hin Hex. destruct (session_before_auth _ _ _ _ _ _ HF Hlen Hl H) as [[_ Hq]|?]; [|done]. exfalso.
  pose proof (proj1 (Forall_forall _ _) Hq _ Hin) as Hqe. apply existsb_exists in Hex as (e & He & Ha). apply list_elem_of_In in He.
  pose proof (proj1 (Forall_forall _ _) Hqe _ He) as Hf. cbn in Hf. congruence.
Qed.

Definition demo_phrase : list Z := replicate 7 48.
Definition demo_password : list Z := [112; 119].
Definition demo_response : list Z := 0 :: hex (Spec.sha1 (demo_password ++ demo_phrase)).
Definition demo_header : list Z := 10 :: replicate 32 97 ++ [0; 0; 0; 0].
Definition demo_trace : list (event * list effect) :=
  [(GotHeader false demo_header, [StorageGet (replicate 32 97) 0]); (WroteStatus false, [Read 37]);
   (GotResponse false demo_response, [Write [1; 0]]); (WroteChallenge false, [Read 41])].

Lemma demo_session : session demo_password (fun _ => false) [] demo_phrase demo_trace (WaitStorageGet false (ClientRequestMsg.mk demo_header None)).
Proof.
  unfold demo_trace. apply (session_step _ _ _ _ _ (WaitForRequest false)); [|vm_compute; reflexivity].
  apply (session_step _ _ _ _ _ (WriteAuthSuccess false)); [|vm_compute; reflexivity].
  apply (session_step _ _ _ _ _ (ReadResponse (AuthChallengeMsg.outbound demo_phrase))); [|vm_compute; reflexivity].
  apply (session_step _ _ _ _ _ (WriteChallenge (AuthChallengeMsg.outbound demo_phrase))); [apply session_start|vm_compute; reflexivity].
Qed.

Lemma session_needs_password_witness : existsb asset_effect [StorageGet (replicate 32 97) 0] = true /\
  exists data es', (GotResponse false data, es') ∈ demo_trace /\ proof_of_password demo_password demo_phrase data.
Proof.
  split; [reflexivity|].
  apply (session_needs_password demo_password (fun _ => false) [] demo_phrase demo_trace (WaitStorageGet false (ClientRequestMsg.mk demo_header None)) (GotHeader false demo_header) [StorageGet (replicate 32 97) 0]);
    [|vm_compute; reflexivity|reflexivity|exact demo_session|by left|reflexivity].
  repeat (constructor; [unfold is_u8; lia|]). constructor.
Defined.

(** ** Requests and responses *)

(** A response that a client can read: 37 bytes of header with a known code, and a length
    that is the length of the data that follows. *)
Definition resp_ok (resp : ServerResponseMsg.t) : Prop :=
  length (ServerResponseMsg.header resp) = 37%nat /\ ServerResponseMsg.validateHeader resp = Some true /\
  ServerResponseMsg.getDataSize resp = Some (match ServerResponseMsg.data resp with Some d => Z.of_nat (length d) | None => 0 end).

Lemma setupHeader_ok c uuid n : length uuid = 32%nat -> is_u32 n -> exists h, ServerResponseMsg.setupHeader c uuid n = Some h /\ length h = 37%nat /\
  h !! 0%nat = Some (ServerResponseMsg.code c) /\ bytes_at h 1 32 = Some uuid /\ ntohl_at h 33 = Some n.
Proof.
  intros Hu Hn. unfold ServerResponseMsg.setupHeader, store_htonl. change ServerResponseMsg.DATA_LEN_MARKER_LOC with 33%nat.
  rewrite (proj2 (Nat.leb_le _ _)) by (cbn [length]; rewrite length_app, Hu; cbn; lia). eexists. split; [done|].
  replace (take 33 (ServerResponseMsg.code c :: uuid ++ [0; 0; 0; 0])) with (ServerResponseMsg.code c :: uuid)
    by (cbn [take]; f_equal; by rewrite take_app_length' by lia).
  rewrite drop_ge by (cbn [length]; rewrite length_app, Hu; cbn; lia). split_and!.
  - rewrite !length_app. unfold htonl_bytes. cbn [length]. lia.
  - done.
  - pose proof (bytes_at_app [ServerResponseMsg.code c] uuid (htonl_bytes n ++ [])) as Hb. rewrite Hu in Hb. exact Hb.
  - pose proof (ntohl_htonl (ServerResponseMsg.code c :: uuid) n [] Hn) as Hh. cbn [length] in Hh. rewrite Hu in Hh. exact Hh.
Qed.

Lemma header_ok_valid c h d : length h = 37%nat -> h !! 0%nat = Some (ServerResponseMsg.code c) -> ServerResponseMsg.validateHeader (ServerResponseMsg.mk h d) = Some true.
Proof.
  intros Hl H0. unfold ServerResponseMsg.validateHeader, ServerResponseMsg.getResponseCode. cbn [ServerResponseMsg.header]. rewrite Hl. cbn [Nat.eqb negb ServerResponseMsg.HEADER_SIZE].
  change ServerResponseMsg.RESPONSE_CODE_MARKER_LOC with 0%nat. rewrite H0. by destruct c.
Qed.

Lemma new_code_ok c uuid : length uuid = 32%nat -> exists resp, ServerResponseMsg.new_code c uuid = Some resp /\ resp_ok resp.
Proof.
  intros Hu. unfold ServerResponseMsg.new_code. destruct (setupHeader_ok c uuid 0 Hu) as (h & -> & Hl & H0 & _ & Hn); [unfold is_u32; lia|].
  cbn [mbind option_bind]. eexists. split; [done|]. split_and!; [done|by apply (header_ok_valid c)|done].
Qed.

Lemma new_data_ok c uuid d : length uuid = 32%nat -> Z.of_nat (length d) < 2 ^ 32 -> exists resp, ServerResponseMsg.new_data c uuid d = Some resp /\ resp_ok resp.
Proof.
  intros Hu Hd. unfold ServerResponseMsg.new_data. rewrite (proj2 (Z.ltb_lt _ _)) by done.
  destruct (setupHeader_ok c uuid (Z.of_nat (length d)) Hu) as (h & -> & Hl & H0 & _ & Hn); [unfold is_u32; lia|].
  cbn [mbind option_bind]. eexists. split; [done|]. split_and!; [done|by apply (header_ok_valid c)|done].
Qed.

(** What the environment delivers: reads fill their buffer, stored assets have a UUID and fit
    in a message. *)
Definition text_ok (t : list Z) : Prop := Z.of_nat (length t) < 2 ^ 32.
(** The password is a string that [CSHA1::Update] can count. *)
Definition password_ok (password : list Z) : Prop := Forall is_u8 password /\ Z.of_nat (length password) < 2 ^ 32 - 71.
Definition asset_ok (a : list Z) : Prop := (32 <= length a)%nat /\ text_ok a.
Definition event_ok (ev : event) : Prop :=
  match ev with
  | GotResponse false data => length data = AuthResponseMsg.MESSAGE_SIZE
  | GotHeader false h => length h = ClientRequestMsg.HEADER_SIZE
  | StorageGot (Some a) => asset_ok a
  | MeshGot uuid found => length uuid = 32%nat /\ match found with Some a => asset_ok a | None => True end
  | StatusReady t | IdsReady t => text_ok t
  | _ => True
  end.

Definition is_request (ev : event) : bool := match ev with GotHeader false _ => true | _ => false end.
Definition is_answer (ev : event) : bool := match ev with WroteHeader false => true | _ => false end.
Definition count (p : event -> bool) (tr : list (event * list effect)) : nat := length (filter (fun x => p x.1 = true) tr).

(** A request is being processed and its response has not been sent. *)
Definition processing (s : conn) : bool :=
  match s with
  | ReadAssetData _ _ | WaitStorageGet _ _ | WaitMeshGet _ | WaitStoragePurge _ _ | WaitStorageWrite _ _ | WaitStatus _ | WaitIds _ | WriteResponseHeader _ _ => true
  | _ => false
  end.

(** The data of each state is well formed. *)
Definition conn_ok (s : conn) : Prop :=
  match s with
  | WriteChallenge c | ReadResponse c => length c = AuthChallengeMsg.MESSAGE_SIZE /\ Forall is_u8 c
  | ReadAssetData _ req | WaitStorageGet _ req | WaitStoragePurge _ req | WaitStorageWrite _ req => length (ClientRequestMsg.header req) = 37%nat
  | WriteResponseHeader _ resp | WriteResponseData _ resp => resp_ok resp
  | _ => True
  end.

Section responses.
Context (password : list Z) (assetExists : list Z -> bool) (error_text : list Z) (Herr : text_ok error_text).
Context (Hpw : password_ok password).

(** A handler that does not fault: the next state is well formed, and it is processing a request
    ([b]) or not, or the connection is closed. *)
Definition good (b : bool) (r : option (conn * list effect)) : Prop :=
  exists s' es, r = Some (s', es) /\ conn_ok s' /\ (s' = Closed \/ processing s' = b).

Lemma good_disconnect b : good b disconnect.
Proof using Type. eexists _, _. split; [done|]. split; [done|by left]. Qed.

Lemma good_wait mesh : good false (waitForRequest mesh).
Proof using Type. eexists _, _. split; [done|]. split; [done|by right]. Qed.

Lemma good_send mesh resp : resp_ok resp -> good true (sendResponse mesh resp).
Proof using Type. intros H. eexists _, _. split; [done|]. split; [done|by right]. Qed.

Lemma req_uuid req : length (ClientRequestMsg.header req) = 37%nat -> exists uuid, ClientRequestMsg.getUUID req = Some uuid /\ length uuid = 32%nat.
Proof using Type.
  intros Hl. unfold ClientRequestMsg.getUUID, bytes_at. rewrite Hl. cbn [Nat.leb Nat.add]. eexists. split; [done|]. rewrite length_take, length_drop. lia.
Qed.

Lemma good_code mesh c uuid : length uuid = 32%nat -> good true (resp ← ServerResponseMsg.new_code c uuid; sendResponse mesh resp).
Proof using Type. intros Hu. destruct (new_code_ok c uuid Hu) as (resp & -> & Hr). cbn [mbind option_bind]. by apply good_send. Qed.

Lemma good_data mesh c uuid d : length uuid = 32%nat -> text_ok d -> good true (resp ← ServerResponseMsg.new_data c uuid d; sendResponse mesh resp).
Proof using Type. intros Hu Hd. destruct (new_data_ok c uuid d Hu Hd) as (resp & -> & Hr). cbn [mbind option_bind]. by apply good_send. Qed.

Lemma good_error mesh req msg : length (ClientRequestMsg.header req) = 37%nat -> text_ok msg -> good true (sendError mesh req msg).
Proof using Type. intros Hl Hm. unfold sendError. destruct (req_uuid req Hl) as (uuid & -> & Hu). cbn [mbind option_bind]. by apply good_data. Qed.

Lemma invalid_uuid_text_ok uuid : length uuid = 32%nat -> text_ok (invalid_uuid_text uuid).
Proof using Type. intros Hu. unfold text_ok, invalid_uuid_text. rewrite length_app, Hu. cbn. lia. Qed.

Lemma good_effect b e r : good b r -> good b ('(s, es) ← r; Some (s, e :: es)).
Proof using Type. intros (s & es & -> & Hs). cbn [mbind option_bind]. eexists _, _. split; [done|exact Hs]. Qed.

(** The handlers that start with the UUID of the request. *)
Lemma good_uuid mesh req (k : list Z -> option (conn * list effect)) : length (ClientRequestMsg.header req) = 37%nat ->
  (forall uuid, length uuid = 32%nat -> good true (k uuid)) ->
  good true (uuid ← ClientRequestMsg.getUUID req; if negb (IsValidUUID uuid) then sendError mesh req (invalid_uuid_text uuid) else k uuid).
Proof using Type.
  intros Hl Hk. destruct (req_uuid req Hl) as (uuid & -> & Hu). cbn [mbind option_bind]. destruct (negb (IsValidUUID uuid)); [|by apply Hk].
  apply good_error; [done|]. by apply invalid_uuid_text_ok.
Qed.

Lemma req_size req : length (ClientRequestMsg.header req) = 37%nat -> exists n, ClientRequestMsg.getDataSize req = Some n.
Proof using Type.
  intros Hl. unfold ClientRequestMsg.getDataSize, ntohl_at. change ClientRequestMsg.DATA_SIZE_MARKER_LOC with 33%nat.
  destruct (lookup_lt_is_Some_2 (ClientRequestMsg.header req) 33) as [? ->]; [lia|].
  destruct (lookup_lt_is_Some_2 (ClientRequestMsg.header req) (33 + 1)) as [? ->]; [lia|].
  destruct (lookup_lt_is_Some_2 (ClientRequestMsg.header req) (33 + 2)) as [? ->]; [lia|].
  destruct (lookup_lt_is_Some_2 (ClientRequestMsg.header req) (33 + 3)) as [? ->]; [lia|]. by eexists.
Qed.

Lemma good_header mesh h : length h = 37%nat -> good true (handleClientRequestHeaderRead assetExists mesh false h).
Proof using Type.
  intros Hl. unfold handleClientRequestHeaderRead. set (req := ClientRequestMsg.mk h None). assert (Hr : length (ClientRequestMsg.header req) = 37%nat) by done.
  destruct (ClientRequestMsg.getType req) as [?|[]].
  - apply good_disconnect.
  - unfold handleGetRequest. apply good_uuid; [done|]. intros uuid Hu. eexists _, _. split; [done|]. split; [done|by right].
  - unfold handlePutRequest, ClientRequestMsg.initDataStorageFromHeader. destruct (req_size req Hr) as [n ->]. cbn [mbind option_bind].
    eexists _, _. split; [done|]. split; [done|by right].
  - unfold handlePurgeRequest. apply good_uuid; [done|]. intros uuid Hu. eexists _, _. split; [done|]. split; [done|by right].
  - unfold handleTestRequest. apply good_uuid; [done|]. intros uuid Hu.
    destruct (new_code_ok (if assetExists uuid then ServerResponseMsg.RC_FOUND else ServerResponseMsg.RC_NOTFOUND) uuid Hu) as (resp & -> & Hresp).
    cbn [mbind option_bind]. apply (good_effect true _ (sendResponse mesh resp)). by apply good_send.
  - unfold handlePurgeLocals. destruct (new_code_ok ServerResponseMsg.RC_OK ZERO_UUID eq_refl) as (resp & -> & Hresp).
    cbn [mbind option_bind]. apply (good_effect true _ (sendResponse mesh resp)). by apply good_send.
  - eexists _, _. split; [done|]. split; [done|by right].
  - unfold handleStoredAssetIdsGet. destruct (req_uuid req Hr) as (uuid & -> & Hu). eexists _, _. split; [done|]. split; [done|by right].
  - unfold handleGetRequest. apply good_uuid; [done|]. intros uuid Hu. eexists _, _. split; [done|]. split; [done|by right].
Qed.

Lemma good_found mesh a : asset_ok a -> good true (found_response mesh a).
Proof using Type.
  intros [Hl Ht]. unfold found_response, Asset.getUUID, bytes_at. rewrite (proj2 (Nat.leb_le _ _)) by lia. cbn [mbind option_bind].
  apply good_data; [|done]. rewrite length_take, length_drop. lia.
Qed.

Lemma good_write mesh req ok : length (ClientRequestMsg.header req) = 37%nat -> good true (handleStorageWriteResponse error_text mesh req ok).
Proof using Herr.
  intros Hl. unfold handleStorageWriteResponse. destruct ok; [|by apply good_error]. destruct (req_uuid req Hl) as (uuid & -> & Hu).
  cbn [mbind option_bind]. by apply good_code.
Qed.

Lemma good_auth c data : length c = AuthChallengeMsg.MESSAGE_SIZE -> Forall is_u8 c -> length data = AuthResponseMsg.MESSAGE_SIZE ->
  good false (handleReadChallengeResponse password c false data).
Proof using Hpw.
  destruct Hpw as [Hpu Hpl].
  intros Hc Hu Hd. unfold handleReadChallengeResponse, AuthResponseMsg.isServerResponse. change AuthChallengeMsg.MESSAGE_SIZE with 8%nat in Hc.
  change AuthResponseMsg.MESSAGE_SIZE with 41%nat in Hd. destruct data as [|b data]; [done|]. cbn [lookup list_lookup mbind option_bind].
  assert (Hv : is_Some (AuthResponseMsg.isValid (b :: data) c password)).
  { unfold AuthResponseMsg.isValid. cbn [lookup list_lookup mbind option_bind]. case_bool; [done|].
    unfold AuthChallengeMsg.getPhrase, bytes_at. change AuthChallengeMsg.PHRASE_SIZE with 7%nat. rewrite Hc.
    change (1 + 7 <=? 8)%nat with true. cbn [mbind option_bind].
    rewrite challenge_response; [|apply Forall_app; split; [done|by apply Forall_take, Forall_drop]|rewrite length_app, length_take, length_drop; lia].
    cbn [mbind option_bind].
    unfold AuthResponseMsg.getChallengeResponse, bytes_at. rewrite Hd. by eexists. }
  destruct Hv as [[] ->]; cbn [mbind option_bind]; (eexists _, _; split; [done|]; split; [done|by right]).
Qed.

(** Asset data that is shorter than the UUID it should start with. *)
Definition short_put (s : conn) (ev : event) : Prop :=
  exists mesh req data, s = ReadAssetData mesh req /\ ev = GotAssetData false data /\ (length data < 32)%nat.

(** The header of a response with 2^31 bytes of data or more has been sent. *)
Definition huge_response (s : conn) (ev : event) : Prop :=
  exists mesh resp d, s = WriteResponseHeader mesh resp /\ ev = WroteHeader false /\ ServerResponseMsg.data resp = Some d /\ 2 ^ 31 <= Z.of_nat (length d).

Definition balanced (s : conn) (ev : event) (s' : conn) : Prop :=
  (Nat.b2n (processing s) + Nat.b2n (is_request ev) = Nat.b2n (processing s') + Nat.b2n (is_answer ev))%nat \/
  (s' = Closed /\ Nat.b2n (is_answer ev) <= Nat.b2n (processing s) + Nat.b2n (is_request ev) <= 1)%nat.

Lemma good_balanced b s ev r : good b r -> (Nat.b2n (processing s) + Nat.b2n (is_request ev) = Nat.b2n b + Nat.b2n (is_answer ev))%nat ->
  (Nat.b2n (processing s) + Nat.b2n (is_request ev) <= 1)%nat -> exists s' es, r = Some (s', es) /\ conn_ok s' /\ balanced s ev s'.
Proof using Type.
  intros (s' & es & -> & Hok & Hs) Hb H1. exists s', es. split; [done|]. split; [done|]. unfold balanced. destruct Hs as [-> | ->]; [right; split; [done|lia]|by left].
Qed.

Lemma handle_step s ev r : conn_ok s -> event_ok ev -> handle password assetExists error_text s ev = Some r ->
  (r = None /\ (short_put s ev \/ huge_response s ev)) \/ (exists s' es, r = Some (s', es) /\ conn_ok s' /\ balanced s ev s').
Proof using Herr Hpw.
  intros Hs He Hh. destruct s, ev; cbn [handle] in Hh; try done; injection Hh as <-; cbn [conn_ok event_ok] in *.
  - right. apply (good_balanced false); [|done|simpl; lia]. unfold handleWriteChallenge. destruct err; [apply good_disconnect|]. eexists _, _. split; [done|]. split; [done|by right].
  - right. apply (good_balanced false); [|done|simpl; lia]. destruct Hs. destruct err; [apply good_disconnect|by apply good_auth].
  - right. apply (good_balanced false); [|done|simpl; lia]. apply good_wait.
  - right. apply (good_balanced false); [|done|simpl; lia]. apply good_disconnect.
  - right. destruct err.
    + apply (good_balanced false); [apply good_disconnect|done|simpl; lia].
    + apply (good_balanced true); [by apply good_header|done|simpl; lia].
  - destruct err; [right; apply (good_balanced true); [apply good_disconnect|done|simpl; lia]|].
    unfold handleAssetDataRead, Asset.getUUID, bytes_at. destruct (Nat.leb_spec (0 + 32) (length data)) as [Hl|Hl].
    + right. apply (good_balanced true); [|done|simpl; lia]. cbn [mbind option_bind]. destruct (negb _).
      * destruct (req_uuid req Hs) as (uuid & -> & Hu). cbn [mbind option_bind]. apply good_error; [done|by apply invalid_uuid_text_ok].
      * eexists _, _. split; [done|]. split; [done|by right].
    + left. split; [done|]. left. by exists mesh, req, data.
  - right. apply (good_balanced true); [|done|simpl; lia]. unfold handleStorageGetResponse. destruct found as [a|]; [by apply good_found|].
    destruct (req_uuid req Hs) as (uuid & -> & Hu). cbn [mbind option_bind]. destruct (negb mesh); [|by apply good_code]. eexists _, _. split; [done|]. split; [done|by right].
  - right. apply (good_balanced true); [|done|simpl; lia]. destruct He as [Hu Hf]. unfold handleIntrameshGetResponse. destruct found as [a|]; [by apply good_found|by apply good_code].
  - right. apply (good_balanced true); [|done|simpl; lia]. by apply good_write.
  - right. apply (good_balanced true); [|done|simpl; lia]. by apply good_write.
  - right. apply (good_balanced true); [|done|simpl; lia]. by apply good_data.
  - right. apply (good_balanced true); [|done|simpl; lia]. by apply good_data.
  - unfold handleResponseHeaderWrite. destruct err; [right; apply (good_balanced true); [apply good_disconnect|done|simpl; lia]|].
    destruct (ServerResponseMsg.data resp) as [d|] eqn:Ed; [|right; apply (good_balanced false); [apply good_wait|done|simpl; lia]].
    unfold is_int_size. destruct (Z.ltb_spec (Z.of_nat (length d)) (2 ^ 31)); [|left; split; [done|right; by exists mesh, resp, d]].
    right. apply (good_balanced false); [|done|simpl; lia]. eexists _, _. split; [done|]. split; [done|by right].
  - right. apply (good_balanced false); [|done|simpl; lia]. destruct err; [apply good_disconnect|apply good_wait].
Qed.

Lemma count_cons p ev es tr : count p ((ev, es) :: tr) = (Nat.b2n (p ev) + count p tr)%nat.
Proof using Type. unfold count. rewrite filter_cons. cbn [fst]. destruct (p ev); case_decide; done. Qed.

Lemma session_inv phrase tr s : length phrase = AuthChallengeMsg.PHRASE_SIZE -> Forall is_u8 phrase -> session password assetExists error_text phrase tr s -> Forall (fun x => event_ok x.1) tr ->
  conn_ok s /\ (count is_request tr = count is_answer tr + Nat.b2n (processing s) \/
               s = Closed /\ count is_answer tr <= count is_request tr <= count is_answer tr + 1)%nat.
Proof using Herr Hpw.
  intros Hl Hp H. induction H as [|tr s ev s' es H IH Hh]; intros HF.
  - split; [|by left]. cbn. rewrite length_take, Hl. split; [done|]. constructor; [unfold is_u8; done|]. by apply (Forall_take _ 7 phrase).
  - apply Forall_cons in HF as [He HF]. destruct (IH HF) as [Hok Hcnt].
    destruct (handle_step s ev _ Hok He Hh) as [[? _]|(s1 & es1 & [= <- <-] & Hok' & Hb)]; [done|]. split; [done|]. rewrite !count_cons.
    destruct Hcnt as [Hcnt|[-> _]]; [|by destruct ev].
    destruct Hb as [Hb|[-> Hb]]; [left; lia|right; split; [done|lia]].
Qed.
End responses.

(** C21. Each request gets one response, in order.  In every run of a connection whose reads
    deliver what was asked for, the number of requests received is the number of responses whose
    header has been sent, plus one while a request is being processed; a closed connection
    owes at most the response to its last request.  (A handler that faults
    ends the run: there is no state after it.)  A response that is being
    sent has a header of 37 bytes with a valid code and a length field that equals
    the length of the data sent after it. *)
Theorem session_answers_each_request password assetExists error_text phrase tr s :
  text_ok error_text -> password_ok password -> length phrase = AuthChallengeMsg.PHRASE_SIZE -> Forall is_u8 phrase ->
  session password assetExists error_text phrase tr s -> Forall (fun x => event_ok x.1) tr ->
  (count is_request tr = count is_answer tr + Nat.b2n (processing s) \/
   s = Closed /\ count is_answer tr <= count is_request tr <= count is_answer tr + 1)%nat /\
  (forall mesh resp, s = WriteResponseHeader mesh resp \/ s = WriteResponseData mesh resp -> resp_ok resp).
Proof.
  intros Herr Hpw Hl Hp Hs HF. destruct (session_inv password assetExists error_text Herr Hpw phrase tr s Hl Hp Hs HF) as [Hok Hcnt].
  split; [exact Hcnt|]. intros mesh resp [-> | ->]; exact Hok.
Qed.

Lemma session_answers_each_request_witness :
  (count is_request demo_trace = count is_answer demo_trace + Nat.b2n (processing (WaitStorageGet false (ClientRequestMsg.mk demo_header None))))%nat /\ count is_request demo_trace = 1%nat.
Proof.
  split; [|reflexivity].
  destruct (session_answers_each_request demo_password (fun _ => false) [] demo_phrase demo_trace (WaitStorageGet false (ClientRequestMsg.mk demo_header None))) as [[H|[H _]] _];
    [done|split; [repeat (constructor; [unfold is_u8; lia|]); constructor|done]|done|repeat (constructor; [unfold is_u8; lia|]); constructor|exact demo_session| |exact H|discriminate H].
  repeat (constructor; [done|]). constructor.
Defined.


Definition demo_put : list Z := 11 :: replicate 32 97 ++ [0; 0; 0; 4].
Definition demo_put_trace : list (event * list effect) :=
  [(GotHeader false demo_put, [Read 4]); (WroteStatus false, [Read 37]); (GotResponse false demo_response, [Write [1; 0]]); (WroteChallenge false, [Read 41])].
Definition demo_put_state : conn := ReadAssetData false (ClientRequestMsg.mk demo_put (Some (replicate 4 0))).

Lemma demo_put_session : session demo_password (fun _ => false) [] demo_phrase demo_put_trace demo_put_state.
Proof.
  unfold demo_put_trace. apply (session_step _ _ _ _ _ (WaitForRequest false)); [|vm_compute; reflexivity].
  apply (session_step _ _ _ _ _ (WriteAuthSuccess false)); [|vm_compute; reflexivity].
  apply (session_step _ _ _ _ _ (ReadResponse (AuthChallengeMsg.outbound demo_phrase))); [|vm_compute; reflexivity].
  apply (session_step _ _ _ _ _ (WriteChallenge (AuthChallengeMsg.outbound demo_phrase))); [apply session_start|vm_compute; reflexivity].
Qed.

