(* ===== verification/WhipClient.v ===== *)
(** * WhipClient: Aperture's client of the WHIP server

    Models [src/aperture/aperture/AssetServer.cpp] and [WhipURI.cpp]: one connection to a WHIP server that logs in,
    fetches assets, and reconnects when it is lost.  Aperture has copies of the message classes of WHIP; their layout is
    that of [WhipWire], except that a response to a challenge starts with the identifier of a client.

    The io service owes the completion of every operation in [ops]; the flag tells whether the socket was open when it
    was started, and without it the operation can only fail.  The reconnect timer is an operation that waits, is ready, or was cancelled.
    [answers] lists the calls of the callbacks of [getAsset], which are values of the type [CB]; they do not call the object again
    ([request_handler::asset_response_callback] starts asynchronous operations only).  [sent] lists the messages given to the socket.
    Log messages and the resolution of the host name are left out. *)
From S2P Require Import Prelude Sha1 WhipWire WhipSettings StdMap Act.
From stdpp Require Import list.
#[local] Open Scope Z_scope.

(** ** The URI of a server *)

Record WhipURI := mkURI { _password : list Z; _hostName : list Z; _port : Z }.

(** "whip://" *)
Definition whip_scheme : list Z := [119; 104; 105; 112; 58; 47; 47].

(** [whip://password@host:port]; [None] is an exception. *)
Definition new_uri `{BoostParse} (url : list Z) : option WhipURI :=
  if negb (bool_decide (take 7 url = whip_scheme)) then None
  else
    match WhipSettings.split 64 (drop 7 url) with
    | [pass; host] =>
        match WhipSettings.split 58 host with
        | [hostName; port] => p ← lexical_ushort port; Some (mkURI pass hostName p)
        | _ => None
        end
    | _ => None
    end.

(** ** State *)

Inductive ConnectionState := CSTATE_DISCONNECTED | CSTATE_CONNECTING | CSTATE_CONNECTED | CSTATE_SHUTDOWN | CSTATE_RECONNECT_WAIT.
#[export] Instance ConnectionState_eq_dec : EqDecision ConnectionState.
Proof. solve_decision. Defined.

Inductive op :=
  | Connecting
  | ReadChallenge
  | WriteChallengeResponse (message : list Z)
  | ReadAuthStatus
  | WriteRequest (message : list Z)
  | ReadHeader
  | ReadData (response : ServerResponseMsg.t)
  | ReadErrorData (response : ServerResponseMsg.t)
  | TimerWait
  | TimerReady
  | TimerAborted.

Record AssetServer (CB : Type) := mkServer {
  _serviceSocket : bool; _connectionState : ConnectionState; _pendingSends : list (list Z); _pendingTransfers : list (list Z * list CB);
  ops : list (bool * op); answers : list (CB * option (list Z)); sent : list (list Z) }.
Arguments mkServer {CB}.
Arguments _serviceSocket {CB}.
Arguments _connectionState {CB}.
Arguments _pendingSends {CB}.
Arguments _pendingTransfers {CB}.
Arguments ops {CB}.
Arguments answers {CB}.
Arguments sent {CB}.

Section client.
Context {CB : Type} (_serverURI : WhipURI).
Notation act := (act unit (AssetServer CB)).
Implicit Type w : AssetServer CB.

Definition set_socket b w := mkServer b (_connectionState w) (_pendingSends w) (_pendingTransfers w) (ops w) (answers w) (sent w).
Definition set_state s w := mkServer (_serviceSocket w) s (_pendingSends w) (_pendingTransfers w) (ops w) (answers w) (sent w).
Definition set_sends f w := mkServer (_serviceSocket w) (_connectionState w) (f (_pendingSends w)) (_pendingTransfers w) (ops w) (answers w) (sent w).
Definition set_transfers f w := mkServer (_serviceSocket w) (_connectionState w) (_pendingSends w) (f (_pendingTransfers w)) (ops w) (answers w) (sent w).
Definition set_ops f w := mkServer (_serviceSocket w) (_connectionState w) (_pendingSends w) (_pendingTransfers w) (f (ops w)) (answers w) (sent w).
Definition set_answers f w := mkServer (_serviceSocket w) (_connectionState w) (_pendingSends w) (_pendingTransfers w) (ops w) (f (answers w)) (sent w).
Definition set_sent f w := mkServer (_serviceSocket w) (_connectionState w) (_pendingSends w) (_pendingTransfers w) (ops w) (answers w) (f (sent w)).

Definition add_op (live : bool) (o : op) : act unit := put (set_ops (fun os => os ++ [(live, o)])).
(** An operation on the socket; a write has a message. *)
Definition async (o : op) : act unit := open ← get _serviceSocket; add_op open o.
Definition async_write (message : list Z) (o : op) : act unit := _ ← put (set_sent (fun l => l ++ [message])); async o.

Definition call (asset : option (list Z)) (callback : CB) : act unit := put (set_answers (fun l => l ++ [(callback, asset)])).

(** ** The connection *)

Definition cancelled (x : bool * op) : bool * op := match x with (b, TimerWait) => (b, TimerAborted) | _ => x end.
Definition cancel_timer : act unit := put (set_ops (map cancelled)).

(** [expires_from_now] cancels the wait that is under way. *)
Definition tryReconnect : act unit :=
  _ ← put (set_state CSTATE_RECONNECT_WAIT);
  _ ← cancel_timer;
  add_op true TimerWait.

Definition close (doShutdown : bool) : act unit :=
  state ← get _connectionState;
  if bool_decide (state <> CSTATE_DISCONNECTED) && bool_decide (state <> CSTATE_SHUTDOWN) then
    _ ← put (set_socket false);
    _ ← (if doShutdown then put (set_state CSTATE_SHUTDOWN) else mret tt);
    state ← get _connectionState;
    _ ← (if bool_decide (state <> CSTATE_SHUTDOWN) then put (set_state CSTATE_DISCONNECTED) else mret tt);
    transfers ← get _pendingTransfers;
    _ ← for_each transfers (fun i => for_each i.2 (call None));
    _ ← put (set_transfers (fun _ => []));
    _ ← put (set_sends (fun _ => []));
    state ← get _connectionState;
    if bool_decide (state = CSTATE_DISCONNECTED) then tryReconnect else mret tt
  else mret tt.

(** [async_connect] opens the socket. *)
Definition connect : act unit :=
  state ← get _connectionState;
  if bool_decide (state <> CSTATE_SHUTDOWN) then
    _ ← put (set_state CSTATE_CONNECTING);
    _ ← put (set_socket true);
    async Connecting
  else mret tt.

Definition onReconnect (error : bool) : act unit := if negb error then connect else mret tt.

Definition shutdown : act unit :=
  state ← get _connectionState;
  _ ← (if bool_decide (state = CSTATE_RECONNECT_WAIT) then cancel_timer else mret tt);
  close true.

Definition onConnect (error : bool) : act unit := if negb error then async ReadChallenge else close false.

(** The constructor of [AuthResponseMsg]. *)
Definition AuthResponseMsg_new (challenge password : list Z) : option (list Z) :=
  h ← AuthResponseMsg.calculateChallengeResponse challenge password; Some (AuthResponseMsg.PACKET_IDENTIFIER :: h).

Definition sendChallengeResponse (challenge : list Z) : act unit :=
  phrase ← checked (AuthChallengeMsg.getPhrase challenge);
  respMessage ← checked (AuthResponseMsg_new phrase (_password _serverURI));
  async_write respMessage (WriteChallengeResponse respMessage).

Definition onRecvChallenge (error : bool) (challenge : list Z) : act unit :=
  if negb error && negb (length challenge =? 0)%nat then sendChallengeResponse challenge else close false.

Definition onChallengeResponseWrite (error : bool) (bytesSent : nat) : act unit :=
  if negb error && negb (bytesSent =? 0)%nat then async ReadAuthStatus else close false.

Definition onAuthenticationStatus (error : bool) (authStatus : list Z) : act unit :=
  if negb error && (0 <? length authStatus)%nat then
    if negb (AuthStatusMsg.validate authStatus) then close false
    else
      status ← checked (AuthStatusMsg.getAuthStatus authStatus);
      if negb (status =? AuthStatusMsg.code AuthStatusMsg.AS_AUTH_SUCCESS) then close false
      else put (set_state CSTATE_CONNECTED)
  else close false.

Definition isConnected w : bool := bool_decide (_connectionState w = CSTATE_CONNECTED).

(** ** Requests *)

Definition processNextSendItem : act unit :=
  queue ← get _pendingSends;
  uuid ← checked (head queue);
  let request := ClientRequestMsg.header (ClientRequestMsg.new_get ClientRequestMsg.RT_GET uuid) in
  async_write request (WriteRequest request).

Definition tryProcessNextSendItem : act unit :=
  queue ← get _pendingSends;
  if (0 <? length queue)%nat then processNextSendItem else mret tt.

Definition beginResponseHeaderRead : act unit := async ReadHeader.

Definition getAsset (uuid : list Z) (callBack : CB) : act unit :=
  transfers ← get _pendingTransfers;
  match smap_find uuid transfers with
  | Some _ => put (set_transfers (smap_alter (fun callbacks => callbacks ++ [callBack]) uuid))
  | None =>
      _ ← put (set_sends (fun q => q ++ [uuid]));
      queue ← get _pendingSends;
      _ ← (if (length queue =? 1)%nat then processNextSendItem else mret tt);
      transfers ← get _pendingTransfers;
      if (length transfers =? 0)%nat then
        _ ← put (set_transfers (smap_insert uuid [callBack]));
        beginResponseHeaderRead
      else put (set_transfers (smap_insert uuid [callBack]))
  end.

Definition onWriteAssetRequest (error : bool) (bytesSent : nat) : act unit :=
  if negb error && (0 <? bytesSent)%nat then
    queue ← get _pendingSends;
    _ ← (match queue with [] => undefined | _ :: rest => put (set_sends (fun _ => rest)) end);
    tryProcessNextSendItem
  else close false.

Definition fireAssetRcvdCallbacks (assetUUID : list Z) (asset : option (list Z)) : act unit :=
  transfers ← get _pendingTransfers;
  match smap_find assetUUID transfers with
  | Some callbacks =>
      _ ← for_each callbacks (call asset);
      put (set_transfers (smap_erase assetUUID))
  | None => mret tt
  end.

Definition testContinueRecv : act unit :=
  transfers ← get _pendingTransfers;
  if (0 <? length transfers)%nat then beginResponseHeaderRead else mret tt.

Definition onReadResponseHeader (error : bool) (header : list Z) : act unit :=
  if negb error && (0 <? length header)%nat then
    let response := ServerResponseMsg.mk header None in
    valid ← checked (ServerResponseMsg.validateHeader response);
    code ← checked (ServerResponseMsg.getResponseCode response);
    if valid && (code =? ServerResponseMsg.code ServerResponseMsg.RC_FOUND) then
      response ← checked (ServerResponseMsg.initializeDataStorage response);
      async (ReadData response)
    else if negb valid then close false
    else
      size ← checked (ServerResponseMsg.getDataSize response);
      if 0 <? size then
        response ← checked (ServerResponseMsg.initializeDataStorage response);
        async (ReadErrorData response)
      else
        uuid ← checked (ServerResponseMsg.getUUID response);
        _ ← fireAssetRcvdCallbacks uuid None;
        testContinueRecv
  else close false.

Definition onHandleRequestErrorData (response : ServerResponseMsg.t) (error : bool) (data : list Z) : act unit :=
  if negb error && (0 <? length data)%nat then
    uuid ← checked (ServerResponseMsg.getUUID response);
    _ ← fireAssetRcvdCallbacks uuid None;
    testContinueRecv
  else close false.

Definition onReadResponseData (response : ServerResponseMsg.t) (error : bool) (data : list Z) : act unit :=
  if negb error && (0 <? length data)%nat then
    uuid ← checked (ServerResponseMsg.getUUID response);
    _ ← fireAssetRcvdCallbacks uuid (Some data);
    testContinueRecv
  else close false.

(** ** Steps *)

Definition complete (o : op) (ok : bool) (data : list Z) : act unit :=
  match o with
  | Connecting => onConnect (negb ok)
  | ReadChallenge => onRecvChallenge (negb ok) data
  | WriteChallengeResponse m => onChallengeResponseWrite (negb ok) (if ok then length m else 0)
  | ReadAuthStatus => onAuthenticationStatus (negb ok) data
  | WriteRequest m => onWriteAssetRequest (negb ok) (if ok then length m else 0)
  | ReadHeader => onReadResponseHeader (negb ok) data
  | ReadData r => onReadResponseData r (negb ok) data
  | ReadErrorData r => onHandleRequestErrorData r (negb ok) data
  | TimerWait => undefined
  | TimerReady => onReconnect false
  | TimerAborted => onReconnect true
  end.

(** How many bytes an operation reads. *)
Definition expected (o : op) : nat :=
  match o with
  | ReadChallenge => AuthChallengeMsg.MESSAGE_SIZE
  | ReadAuthStatus => AuthStatusMsg.MESSAGE_SIZE
  | ReadHeader => ServerResponseMsg.HEADER_SIZE
  | ReadData r | ReadErrorData r => length (default [] (ServerResponseMsg.data r))
  | _ => 0%nat
  end.

Definition on_socket (o : op) : bool := match o with TimerWait | TimerReady | TimerAborted => false | _ => true end.
(** What is read from a socket are bytes. *)
Definition is_byte (b : Z) : bool := (0 <=? b) && (b <? 256).
Definition can_complete (x : bool * op) (ok : bool) (data : list Z) : bool :=
  match x.2 with TimerWait => false | _ => if ok then x.1 && (length data =? expected x.2)%nat && forallb is_byte data else on_socket x.2 end.

Inductive label := LGet (uuid : list Z) (callBack : CB) | LIo (n : nat) (ok : bool) (data : list Z) | LExpire (n : nat) | LShutdown.

(** [None] is a step that is not possible.  The request handler asks only a server that is connected. *)
Definition step w (l : label) : option (result (unit * AssetServer CB)) :=
  match l with
  | LGet u k => if isConnected w then Some (getAsset u k tt w) else None
  | LIo n ok data =>
      x ← ops w !! n;
      if can_complete x ok data then Some (complete x.2 ok data tt (set_ops (delete n) w)) else None
  | LExpire n => match ops w !! n with Some (b, TimerWait) => Some (Done (tt, set_ops <[n := (b, TimerReady)]> w)) | _ => None end
  | LShutdown => Some (shutdown tt w)
  end.

(** The object after the first [connect]. *)
Definition started : AssetServer CB := mkServer true CSTATE_CONNECTING [] [] [(true, Connecting)] [] [].

(** Runs, with what happened, the latest first. *)
Inductive running : list (AssetServer CB * label) -> AssetServer CB -> Prop :=
  | running_start : running [] started
  | running_step tr w l w' : running tr w -> step w l = Some (Done (tt, w')) -> running ((w, l) :: tr) w'.

End client.
