(* ===== verification/WhipFetch.v ===== *)
(** * WhipFetch: what Aperture's client of WHIP guarantees

    The invariant of [WhipClient], and the client together with the server's side of the connection ([WhipSession]): what one side writes
    the other side accepts, from the login to the asset. *)
From S2P Require Import Prelude Sha1 WhipWire WhipSettings WhipSession StdMap Act WhipClient.
From stdpp Require Import list.
#[local] Open Scope Z_scope.

(** ** What the operations do *)

Section equations.
Context {CB : Type} (uri : WhipURI).
Implicit Type w : AssetServer CB.

Definition with_asset (asset : option (list Z)) (callbacks : list CB) : list (CB * option (list Z)) := (fun c => (c, asset)) <$> callbacks.

(** Evaluates an action. *)
Ltac act_run :=
  repeat first [rewrite act_bind_eq | rewrite bool_decide_true by (cbn; congruence) | rewrite bool_decide_false by (cbn; congruence) | progress cbn -[for_each call]].

Lemma call_all asset l w : for_each l (call asset) tt w = Done (tt, set_answers (fun x => x ++ with_asset asset l) w).
Proof using Type.
  revert w. induction l as [|c l IH]; intros w; [destruct w; unfold set_answers; cbn; by rewrite app_nil_r|]. cbn [for_each]. rewrite act_bind_eq. unfold call at 1, put. rewrite IH.
  unfold set_answers. cbn. by rewrite <- app_assoc.
Qed.

Lemma call_transfers (l : list (list Z * list CB)) w : for_each l (fun i => for_each i.2 (call None)) tt w = Done (tt, set_answers (fun x => x ++ with_asset None (concat l.*2)) w).
Proof using Type.
  revert w. induction l as [|i l IH]; intros w; [destruct w; unfold set_answers; cbn; by rewrite app_nil_r|]. cbn [for_each]. rewrite act_bind_eq, call_all, IH.
  unfold set_answers, with_asset. cbn. by rewrite fmap_app, <- app_assoc.
Qed.

(** The state after the connection was closed. *)
Definition closed (doShutdown : bool) w : AssetServer CB :=
  mkServer false (if doShutdown then CSTATE_SHUTDOWN else CSTATE_RECONNECT_WAIT) [] [] (if doShutdown then ops w else map cancelled (ops w) ++ [(true, TimerWait)])
    (answers w ++ with_asset None (concat (_pendingTransfers w).*2)) (sent w).

Lemma close_eq d w : close d tt w = Done (tt, if bool_decide (_connectionState w = CSTATE_DISCONNECTED) || bool_decide (_connectionState w = CSTATE_SHUTDOWN) then w else closed d w).
Proof using Type.
  unfold close. rewrite act_bind_eq. cbn. destruct (_connectionState w) eqn:Es; [by act_run| | |by act_run|].
  all: destruct d; act_run; rewrite call_transfers; act_run; unfold tryReconnect; act_run; done.
Qed.

Definition fired u asset w : AssetServer CB :=
  match smap_find u (_pendingTransfers w) with
  | Some l => set_transfers (smap_erase u) (set_answers (fun x => x ++ with_asset asset l) w)
  | None => w
  end.

Lemma fire_eq u asset w : fireAssetRcvdCallbacks u asset tt w = Done (tt, fired u asset w).
Proof using Type.
  unfold fireAssetRcvdCallbacks, fired. rewrite act_bind_eq. cbn. destruct (smap_find u (_pendingTransfers w)); [|done]. rewrite act_bind_eq, call_all. done.
Qed.

Definition continued w : AssetServer CB := match _pendingTransfers w with [] => w | _ => set_ops (fun os => os ++ [(_serviceSocket w, ReadHeader)]) w end.

Lemma continue_eq w : testContinueRecv tt w = Done (tt, continued w).
Proof using Type. unfold testContinueRecv, continued, beginResponseHeaderRead, async. rewrite act_bind_eq. cbn. by destruct (_pendingTransfers w). Qed.

End equations.

(** ** The invariant *)

Definition reading (o : op) : bool := match o with ReadHeader | ReadData _ | ReadErrorData _ => true | _ => false end.
(** The operations that bring a connection back. *)
Definition reviving (o : op) : bool := match o with Connecting | ReadChallenge | WriteChallengeResponse _ | ReadAuthStatus | TimerWait | TimerReady => true | _ => false end.
Definition op_ok (o : op) : Prop := match o with ReadData r | ReadErrorData r => length (ServerResponseMsg.header r) = ServerResponseMsg.HEADER_SIZE | WriteRequest m => m <> [] | _ => True end.

Section invariant.
Context {CB : Type} (uri : WhipURI).
Implicit Type w : AssetServer CB.

Definition reads w : Prop := _pendingTransfers w = [] \/ exists x, x ∈ ops w /\ reading x.2 = true.
Definition alive w : Prop := _connectionState w = CSTATE_CONNECTED \/ _connectionState w = CSTATE_SHUTDOWN \/ exists x, x ∈ ops w /\ reviving x.2 = true.

(** The requests that were made, and the assets that have arrived, with their ids. *)
Context (req : list (list Z * CB)) (arr : list (list Z * list Z)).

Record inv w : Prop := mkInv {
  inv_keys : NoDup (_pendingTransfers w).*1;
  inv_count : (answers w).*1 ++ concat (_pendingTransfers w).*2 ≡ₚ req.*2;
  inv_pending : forall u l c, (u, l) ∈ _pendingTransfers w -> c ∈ l -> (u, c) ∈ req;
  inv_delivered : forall c a, (c, Some a) ∈ answers w -> exists u, (u, c) ∈ req /\ (u, a) ∈ arr;
  inv_op : Forall (fun x => op_ok x.2) (ops w);
  inv_state : _connectionState w <> CSTATE_DISCONNECTED;
  inv_shut : _connectionState w = CSTATE_SHUTDOWN -> _pendingTransfers w = [] }.

Lemma client_inv_same w w' : inv w -> _pendingTransfers w' = _pendingTransfers w -> answers w' = answers w -> Forall (fun x => op_ok x.2) (ops w') ->
  (_connectionState w' = _connectionState w \/ _connectionState w' = CSTATE_CONNECTED \/ _connectionState w' = CSTATE_CONNECTING) -> inv w'.
Proof using Type.
  intros [H1 H2 H3 H4 H5 H6 H7] Ht Ha Ho Hs. split; rewrite ?Ht, ?Ha; try done.
  - destruct Hs as [-> | [-> | ->]]; done.
  - destruct Hs as [-> | [-> | ->]]; done.
Qed.

Lemma with_asset_fst asset (l : list CB) : (with_asset asset l).*1 = l.
Proof using Type. unfold with_asset. rewrite <- list_fmap_compose. by apply list_fmap_id. Qed.

Lemma elem_of_with_asset c b asset (l : list CB) : (c, b) ∈ with_asset asset l -> c ∈ l /\ b = asset.
Proof using Type. unfold with_asset. intros (c' & [= -> ->] & ?)%list_elem_of_fmap. done. Qed.

Lemma client_inv_closed d w : inv w -> inv (closed d w) /\ reads (closed d w) /\ alive (closed d w).
Proof using Type.
  intros [H1 H2 H3 H4 H5 H6 H7]. split; [split; cbn|split].
  - constructor.
  - rewrite fmap_app, with_asset_fst, app_nil_r. done.
  - intros u l c Hl. by apply not_elem_of_nil in Hl.
  - intros c a [?|[_ ?]%elem_of_with_asset]%elem_of_app; [by apply H4|done].
  - destruct d; [done|]. apply Forall_app. split; [|by repeat constructor]. apply Forall_map. eapply Forall_impl; [exact H5|]. by intros [b []].
  - by destruct d.
  - done.
  - by left.
  - destruct d; [by right; left|]. right. right. exists (true, TimerWait). split; [|done]. cbn. apply elem_of_app. right. by apply list_elem_of_singleton.
Qed.

Definition good (r : result (unit * AssetServer CB)) : Prop := exists w', r = Done (tt, w') /\ inv w' /\ reads w' /\ alive w'.

Lemma good_close d w : inv w -> good (close d tt w).
Proof using Type.
  intros Hi. rewrite close_eq. eexists. split; [done|]. rewrite bool_decide_false by apply Hi. cbn. case_bool_decide as Hs; [|by apply client_inv_closed].
  split; [done|]. split; [left; by apply Hi|by right; left].
Qed.

Lemma reads_app w b o : reads w -> reads (set_ops (fun os => os ++ [(b, o)]) w).
Proof using Type. intros [?|(x & Hx & ?)]; [by left|right]. exists x. split; [|done]. cbn. apply elem_of_app. by left. Qed.
Lemma alive_app w b o : alive w -> alive (set_ops (fun os => os ++ [(b, o)]) w).
Proof using Type. intros [?|[?|(x & Hx & ?)]]; [by left|by right; left|right; right]. exists x. split; [|done]. cbn. apply elem_of_app. by left. Qed.
Lemma inv_app w b o : inv w -> op_ok o -> inv (set_ops (fun os => os ++ [(b, o)]) w).
Proof using Type. intros Hi Ho. apply (client_inv_same w); try done; [|by left]. cbn. apply Forall_app. split; [apply Hi|by repeat constructor]. Qed.

(** The next operation of a login. *)
Lemma good_revive w o : inv w -> reads w -> reviving o = true -> good (async o tt w).
Proof using Type.
  intros Hi Hr Ho. eexists. split; [done|]. split; [apply inv_app; [done|by destruct o]|]. split; [by apply reads_app|]. right. right. exists (_serviceSocket w, o). split; [|done].
  cbn. apply elem_of_app. right. by apply list_elem_of_singleton.
Qed.
(** The next operation of a transfer. *)
Lemma good_read w o : inv w -> alive w -> reading o = true -> op_ok o -> good (async o tt w).
Proof using Type.
  intros Hi Ha Ho Hok. eexists. split; [done|]. split; [by apply inv_app|]. split; [|by apply alive_app]. right. exists (_serviceSocket w, o). split; [|done].
  cbn. apply elem_of_app. right. by apply list_elem_of_singleton.
Qed.

Lemma inv_sent w f : inv w -> inv (set_sent f w).
Proof using Type. intros Hi. apply (client_inv_same w); try done; [apply Hi|by left]. Qed.

(** Callbacks are called, and the waiting transfers are read. *)
Lemma inv_fired u asset w : inv w -> (forall a, asset = Some a -> (u, a) ∈ arr) -> inv (fired u asset w).
Proof using Type.
  intros Hi Ha. unfold fired. destruct (smap_find u (_pendingTransfers w)) as [l|] eqn:Ef; [|done]. destruct Hi as [H1 H2 H3 H4 H5 H6 H7]. split; cbn; try done.
  - by apply smap_erase_NoDup.
  - rewrite (smap_find_split _ _ _ H1 Ef) in H2. cbn in H2. by rewrite fmap_app, with_asset_fst, <- app_assoc.
  - intros v m c Hm. apply H3. unfold smap_erase in Hm. by apply list_elem_of_filter in Hm as [_ ?].
  - intros c a [?|[Hc Heq]%elem_of_with_asset]%elem_of_app; [by apply H4|]. exists u. split; [|by apply Ha]. apply (H3 u l); [by apply elem_of_smap_find|done].
  - intros Hs. by rewrite (H7 Hs).
Qed.

Lemma good_fire u asset w : inv w -> alive w -> (forall a, asset = Some a -> (u, a) ∈ arr) -> good ((_ ← fireAssetRcvdCallbacks u asset; testContinueRecv) tt w).
Proof using Type.
  intros Hi Ha Hasset. rewrite act_bind_eq, fire_eq. pose proof (inv_fired u asset w Hi Hasset) as Hf.
  assert (Hal : alive (fired u asset w)) by (unfold fired; by destruct (smap_find _ _)). rewrite continue_eq. unfold continued.
  destruct (_pendingTransfers (fired u asset w)) eqn:Et; [|by apply (good_read _ ReadHeader)]. eexists. split; [done|]. split; [done|]. split; [by left|done].
Qed.

(** ** The handlers *)

Lemma header_parts h d : length h = ServerResponseMsg.HEADER_SIZE -> let r := ServerResponseMsg.mk h d in
  exists v c n u, ServerResponseMsg.validateHeader r = Some v /\ ServerResponseMsg.getResponseCode r = Some c /\ ServerResponseMsg.getDataSize r = Some n /\ ServerResponseMsg.getUUID r = Some u.
Proof using Type.
  intros Hl r. change ServerResponseMsg.HEADER_SIZE with 37%nat in Hl.
  assert (Hat : forall i, (i < 37)%nat -> exists b, h !! i = Some b) by (intros i Hi; apply lookup_lt_is_Some; lia).
  destruct (Hat 0%nat) as [c Hc]; [lia|]. destruct (Hat 33%nat) as [b0 H0]; [lia|]. destruct (Hat 34%nat) as [b1 H1]; [lia|]. destruct (Hat 35%nat) as [b2 H2]; [lia|]. destruct (Hat 36%nat) as [b3 H3]; [lia|].
  assert (Hcode : ServerResponseMsg.getResponseCode r = Some c) by done. eexists _, c, _, _. split_and!; [|done| |].
  - unfold ServerResponseMsg.validateHeader. cbn [ServerResponseMsg.header r]. rewrite Hl, Hcode. cbn. done.
  - unfold ServerResponseMsg.getDataSize, ntohl_at. cbn [ServerResponseMsg.header r]. change (ServerResponseMsg.DATA_LEN_MARKER_LOC) with 33%nat. cbn [Nat.add]. rewrite H0, H1, H2, H3. cbn. done.
  - unfold ServerResponseMsg.getUUID, bytes_at. cbn [ServerResponseMsg.header r]. by rewrite Hl.
Qed.

#[local] Arguments ServerResponseMsg.getResponseCode : simpl never.
#[local] Arguments ServerResponseMsg.getDataSize : simpl never.
#[local] Arguments ServerResponseMsg.getUUID : simpl never.
#[local] Arguments ServerResponseMsg.initializeDataStorage : simpl never.
#[local] Arguments fireAssetRcvdCallbacks : simpl never.
#[local] Arguments testContinueRecv : simpl never.
#[local] Arguments close : simpl never.

Context (Hpw : password_ok (_password uri)).

Lemma is_byte_u8 l : forallb is_byte l = true -> Forall is_u8 l.
Proof using Type. intros Hl. apply Forall_forall. intros x Hx%list_elem_of_In. rewrite forallb_forall in Hl. specialize (Hl x Hx). unfold is_byte in Hl. zbool. unfold is_u8. lia. Qed.

(** A challenge of the right size is answered. *)
Lemma challenge_answered c : length c = AuthChallengeMsg.MESSAGE_SIZE -> Forall is_u8 c ->
  exists phrase m, AuthChallengeMsg.getPhrase c = Some phrase /\ AuthResponseMsg_new phrase (_password uri) = Some m.
Proof using Hpw.
  intros Hl Hc. change AuthChallengeMsg.MESSAGE_SIZE with 8%nat in Hl. destruct Hpw as [Hp Hpl].
  unfold AuthChallengeMsg.getPhrase, bytes_at. change AuthChallengeMsg.PHRASE_SIZE with 7%nat. rewrite Hl. cbn [Nat.add Nat.leb]. eexists _, _. split; [done|]. unfold AuthResponseMsg_new.
  rewrite challenge_response; [done|apply Forall_app; split; [done|by apply Forall_take, Forall_drop]|rewrite length_app, length_take, length_drop; lia].
Qed.

Lemma good_login w x ok d : inv w -> reads w -> reviving x.2 = true -> can_complete x ok d = true -> good (complete uri x.2 ok d tt w).
Proof using Hpw.
  intros Hi Hr Hx Hc. destruct x as [b o]. unfold can_complete in Hc. cbn [fst snd] in *. assert (Hfail : good (close false tt w)) by by apply good_close.
  destruct o as [| |m| |m| |r|r| | |]; try done; cbn [complete].
  - destruct ok; [by apply good_revive|done].
  - destruct ok; [|done]. zbool. unfold onRecvChallenge. case_bool; [|done]. unfold sendChallengeResponse.
    destruct (challenge_answered d) as (phrase & m & Hphrase & Hm); [by apply Nat.eqb_eq|by apply is_byte_u8|]. rewrite act_bind_eq, Hphrase. cbn. rewrite act_bind_eq, Hm. cbn.
    apply (good_revive (set_sent _ w)); [by apply inv_sent|done|done].
  - destruct ok; [|done]. unfold onChallengeResponseWrite. case_bool; [by apply good_revive|done].
  - destruct ok; [|done]. zbool. unfold onAuthenticationStatus. case_bool; [|done]. case_bool; [done|]. destruct (AuthStatusMsg.getAuthStatus d) as [s|] eqn:Es; [|].
    + rewrite act_bind_eq. cbn. case_bool; [done|]. eexists. split; [done|]. split; [apply (client_inv_same w); try done; [apply Hi|by right; left]|]. split; [done|by left].
    + apply Nat.eqb_eq in H1. destruct d as [|? [|]]; done.
  - unfold onReconnect, connect. cbn. rewrite act_bind_eq. cbn. case_bool_decide as Hs.
    + apply (good_revive (set_socket true (set_state CSTATE_CONNECTING w))); [|done|done]. apply (client_inv_same w); try done; [apply Hi|by right; right].
    + eexists. split; [done|]. split; [done|]. split; [done|]. right. left. destruct (_connectionState w); done.
Qed.

Lemma good_transfer w x ok d : inv w -> alive w -> reading x.2 = true -> op_ok x.2 -> can_complete x ok d = true ->
  (forall r u, x.2 = ReadData r -> ok = true -> ServerResponseMsg.getUUID r = Some u -> (u, d) ∈ arr) -> good (complete uri x.2 ok d tt w).
Proof using Type.
  intros Hi Ha Hx Hok Hc Harr. destruct x as [b o]. unfold can_complete in Hc. cbn [fst snd] in *. assert (Hfail : good (close false tt w)) by by apply good_close.
  destruct o as [| |m| |m| |r|r| | |]; try done; cbn [complete].
  - destruct ok; [|done]. zbool. unfold onReadResponseHeader. case_bool; [|done]. destruct (header_parts d None) as (v & c & n & u & Hv & Hcode & Hn & Hu); [by apply Nat.eqb_eq|].
    rewrite act_bind_eq, Hv. cbn. rewrite act_bind_eq, Hcode. cbn.
    unfold ServerResponseMsg.initializeDataStorage. rewrite Hn. case_bool; [|destruct v; [|done]].
    + rewrite act_bind_eq. cbn. apply (good_read w); [done|done|done|]. cbn. by apply Nat.eqb_eq.
    + cbn [negb]. rewrite act_bind_eq. cbn. case_bool.
      * rewrite act_bind_eq. cbn. apply (good_read w); [done|done|done|]. cbn. by apply Nat.eqb_eq.
      * rewrite act_bind_eq, Hu. cbn. by apply good_fire.
  - destruct ok; [|done]. unfold onReadResponseData. case_bool; [|done]. destruct r as [h d']. destruct (header_parts h d' Hok) as (_ & _ & _ & u & _ & _ & _ & Hu).
    rewrite act_bind_eq, Hu. cbn. apply good_fire; [done|done|]. intros a [= <-]. by apply (Harr (ServerResponseMsg.mk h d')).
  - destruct ok; [|done]. unfold onHandleRequestErrorData. case_bool; [|done]. destruct r as [h d']. destruct (header_parts h d' Hok) as (_ & _ & _ & u & _ & _ & _ & Hu).
    rewrite act_bind_eq, Hu. cbn. by apply good_fire.
Qed.

Lemma next_request q w : inv w -> reads w -> alive w -> good (tryProcessNextSendItem tt (set_sends (fun _ => q) w)).
Proof using Type.
  intros Hi Hr Ha. assert (Hi' : inv (set_sends (fun _ => q) w)) by (apply (client_inv_same w); try done; [apply Hi|by left]).
  unfold tryProcessNextSendItem, processNextSendItem. rewrite act_bind_eq. cbn. destruct q as [|u q]; cbn; [by eexists|]. eexists. split; [done|].
  split; [apply (inv_app (set_sent _ (set_sends _ w))); [by apply inv_sent|done]|]. split; [by apply (reads_app (set_sent _ (set_sends _ w)))|by apply (alive_app (set_sent _ (set_sends _ w)))].
Qed.

Lemma good_write_request w m ok d : inv w -> reads w -> alive w -> (ok = true -> _pendingSends w <> []) -> good (complete uri (WriteRequest m) ok d tt w).
Proof using Type.
  intros Hi Hr Ha Hq. cbn [complete]. unfold onWriteAssetRequest. destruct (_ && _) eqn:Eb; [|by apply good_close]. destruct ok; [|done]. specialize (Hq eq_refl).
  rewrite act_bind_eq. cbn. rewrite act_bind_eq. cbn. destruct (_pendingSends w) as [|u q]; [done|]. cbn. by apply next_request.
Qed.

Lemma client_take w n x : inv w -> ops w !! n = Some x -> inv (set_ops (delete n) w) /\ op_ok x.2 /\
  (reading x.2 = false -> reads w -> reads (set_ops (delete n) w)) /\ (reviving x.2 = false -> alive w -> alive (set_ops (delete n) w)).
Proof using Type.
  intros Hi Hn. pose proof (inv_op _ Hi) as Ho. rewrite Forall_forall in Ho.
  assert (Hother : forall y, y ∈ ops w -> y <> x -> y ∈ delete n (ops w)).
  { intros y [i Hy]%list_elem_of_lookup Hne. apply list_elem_of_lookup. destruct (decide (i < n)%nat); [exists i; by rewrite list_lookup_delete_lt|].
    assert (i <> n) by congruence. exists (i - 1)%nat. rewrite list_lookup_delete_ge by lia. by replace (S (i - 1)) with i by lia. }
  split_and!.
  - apply (client_inv_same w); try done; [|by left]. apply Forall_delete, Hi.
  - apply Ho. by eapply list_elem_of_lookup_2.
  - intros Hx [?|(y & Hy & Hyr)]; [by left|right]. exists y. split; [|done]. apply Hother; [done|]. congruence.
  - intros Hx [?|[?|(y & Hy & Hyr)]]; [by left|by right; left|right; right]. exists y. split; [|done]. apply Hother; [done|]. congruence.
Qed.

Lemma good_shutdown w : inv w -> good (shutdown tt w).
Proof using Type.
  intros Hi. unfold shutdown. rewrite act_bind_eq. cbn. case_bool_decide; rewrite act_bind_eq; cbn; apply good_close; [|done].
  apply (client_inv_same w); try done; [|by left]. cbn. apply Forall_map. eapply Forall_impl; [apply Hi|]. by intros [b []].
Qed.

End invariant.

(** ** Steps *)

Section steps.
Context {CB : Type} (uri : WhipURI) (Hpw : password_ok (_password uri)).
Implicit Types (w : AssetServer CB) (tr : list (AssetServer CB * label (CB := CB))).

Definition requested (x : AssetServer CB * label (CB := CB)) : option (list Z * CB) := match x.2 with LGet u c => Some (u, c) | _ => None end.
(** An asset has arrived: the id that the header of the response names, and the data. *)
Definition arrival (x : AssetServer CB * label (CB := CB)) : option (list Z * list Z) :=
  match x.2 with
  | LIo n true data => match ops x.1 !! n with Some (_, ReadData r) => u ← ServerResponseMsg.getUUID r; Some (u, data) | _ => None end
  | _ => None
  end.
Definition client_requests tr : list (list Z * CB) := omap requested tr.
Definition arrived tr : list (list Z * list Z) := omap arrival tr.

Lemma inv_arrived req arr arr' w : arr ⊆ arr' -> inv req arr w -> inv req arr' w.
Proof using Type. intros Ha [H1 H2 H3 H4 H5 H6 H7]. split; try done. intros c a Hc. destruct (H4 c a Hc) as (u & ? & ?). exists u. auto. Qed.

Lemma arrived_cons x tr : arrived tr ⊆ arrived (x :: tr).
Proof using Type. unfold arrived. change (omap arrival (x :: tr)) with (match arrival x with Some u => u :: omap arrival tr | None => omap arrival tr end). destruct (arrival x); intros y Hy; [by right|done]. Qed.

(** A request that joins a transfer, and one that starts a transfer. *)
Lemma inv_join req arr w u c l : inv req arr w -> smap_find u (_pendingTransfers w) = Some l -> inv ((u, c) :: req) arr (set_transfers (smap_alter (fun l => l ++ [c]) u) w).
Proof using Type.
  intros [H1 H2 H3 H4 H5 H6 H7] Hf. pose proof (smap_alter_split (fun l => l ++ [c]) u _ l H1 Hf) as Ha. pose proof (smap_find_split u _ l H1 Hf) as Hs. split; cbn; try done.
  - by rewrite smap_alter_keys.
  - rewrite Ha. rewrite Hs in H2. cbn in *. rewrite <- H2, <- (app_assoc l [c]). cbn. by rewrite <- !Permutation_middle.
  - intros v m d. rewrite Ha. intros [[= -> ->]|Hm]%elem_of_cons.
    + intros [Hd| ->%list_elem_of_singleton]%elem_of_app; [right; apply (H3 u l); [by apply elem_of_smap_find|done]|left].
    + intros Hd. right. apply (H3 v m); [|done]. rewrite Hs. by right.
  - intros d a Hd. destruct (H4 d a Hd) as (v & ? & ?). exists v. split; [by right|done].
  - intros Hst. by rewrite (H7 Hst).
Qed.

Lemma inv_start req arr w u c : inv req arr w -> smap_find u (_pendingTransfers w) = None -> _connectionState w <> CSTATE_SHUTDOWN -> inv ((u, c) :: req) arr (set_transfers (smap_insert u [c]) w).
Proof using Type.
  intros [H1 H2 H3 H4 H5 H6 H7] Hf%smap_find_None Hst. pose proof (smap_insert_new u [c] _ Hf) as Ha. split; cbn; try done.
  - rewrite Ha. by constructor.
  - rewrite Ha. cbn. rewrite <- H2. by rewrite <- Permutation_middle.
  - intros v m d. rewrite Ha. intros [[= -> ->]|Hm]%elem_of_cons; [intros ->%list_elem_of_singleton; left|]. intros Hd. right. by apply (H3 v m).
  - intros d a Hd. destruct (H4 d a Hd) as (v & ? & ?). exists v. split; [by right|done].
Qed.

Lemma good_getAsset req arr w u c : inv req arr w -> reads w -> alive w -> _connectionState w = CSTATE_CONNECTED -> good ((u, c) :: req) arr (getAsset u c tt w).
Proof using Type.
  intros Hi Hr Ha Hc. unfold getAsset. rewrite act_bind_eq. cbn. destruct (smap_find u (_pendingTransfers w)) as [l|] eqn:Ef.
  - eexists. split; [done|]. split; [by apply (inv_join _ _ _ _ _ l)|]. split; [|done]. destruct Hr as [Hr|Hr]; [by rewrite Hr in Ef|by right].
  - rewrite act_bind_eq. cbn. rewrite act_bind_eq. cbn. rewrite act_bind_eq. set (w1 := set_sends _ w).
    assert (Hnext : exists w2, (if (length (_pendingSends w ++ [u]) =? 1)%nat then processNextSendItem else mret tt) tt w1 = Done (tt, w2) /\
      inv req arr w2 /\ reads w2 /\ alive w2 /\ _pendingTransfers w2 = _pendingTransfers w /\ _connectionState w2 = CSTATE_CONNECTED).
    { assert (Hi1 : inv req arr w1) by (apply (client_inv_same _ _ w); try done; [apply Hi|by left]). case_bool; [|by exists w1].
      unfold processNextSendItem. rewrite act_bind_eq. cbn. rewrite act_bind_eq. cbn. destruct (_pendingSends w) as [|v q]; cbn; (eexists; split; [done|]).
      all: split; [apply (inv_app _ _ (set_sent _ w1)); [by apply inv_sent|done]|]; split_and!; [by apply (reads_app (set_sent _ w1))|by apply (alive_app (set_sent _ w1))|done|done]. }
    destruct Hnext as (w2 & -> & Hi2 & Hr2 & Ha2 & Ht2 & Hc2). rewrite act_bind_eq. cbn. rewrite Ht2.
    assert (Hi3 : inv ((u, c) :: req) arr (set_transfers (smap_insert u [c]) w2)) by (apply inv_start; [done|by rewrite Ht2|by rewrite Hc2]). case_bool.
    + rewrite act_bind_eq. cbn. by apply (good_read _ _ (set_transfers _ w2)).
    + eexists. split; [done|]. split; [done|]. split; [|done]. destruct Hr2 as [Hr2|Hr2]; [|by right]. rewrite <- Ht2, Hr2 in *. done.
Qed.

Definition popping w (l : label (CB := CB)) : Prop := exists n b m, l = LIo n true [] /\ ops w !! n = Some (b, WriteRequest m) /\ _pendingSends w = [].

Lemma client_step tr w l r : inv (client_requests tr) (arrived tr) w -> reads w -> alive w -> step uri w l = Some r ->
  good (client_requests ((w, l) :: tr)) (arrived ((w, l) :: tr)) r \/ popping w l.
Proof using Hpw.
  intros Hi Hr Ha Hs. destruct l as [u c|n ok d|n|]; cbn [step] in Hs.
  - left. destruct (isConnected w) eqn:Ec; [|done]. injection Hs as <-. apply good_getAsset; [done|done|done|]. by apply bool_decide_eq_true in Ec.
  - destruct (ops w !! n) as [x|] eqn:Hn; [|done]. cbn in Hs. destruct (can_complete x ok d) eqn:Hc; [|done]. injection Hs as <-.
    assert (Hi' : inv (client_requests tr) (arrived ((w, LIo n ok d) :: tr)) w) by (eapply inv_arrived; [apply arrived_cons|done]).
    destruct (client_take _ _ _ _ _ Hi' Hn) as (Ht & Hok & Hread & Hrev). change (client_requests ((w, LIo n ok d) :: tr)) with (client_requests tr).
    destruct (reviving x.2) eqn:Ev; [left; apply good_login; try done; apply Hread; [by destruct x as [b []]|done]|]. specialize (Hrev eq_refl Ha).
    destruct (reading x.2) eqn:Er.
    + left. apply good_transfer; try done. intros r u Hx -> Hu. unfold arrived. destruct x as [b o]. cbn in Hx. subst o.
      change (omap arrival ((w, LIo n true d) :: tr)) with (match arrival (w, LIo n true d) with Some u => u :: omap arrival tr | None => omap arrival tr end).
      unfold arrival at 1. cbn [fst snd]. rewrite Hn, Hu. left.
    + specialize (Hread eq_refl Hr). destruct x as [b o]. destruct o as [| |m| |m| |r|r| | |]; try done.
      * destruct ok; [|left; by apply good_write_request]. destruct (_pendingSends w) as [|v q] eqn:Eq; [|left; apply good_write_request; try done; cbn; by rewrite Eq].
        right. exists n, b, m. split_and!; [|done|done]. f_equal. unfold can_complete in Hc. cbn in Hc. zbool. apply length_zero_iff_nil. by apply Nat.eqb_eq.
      * left. eexists. by split_and!.
  - left. destruct (ops w !! n) as [[b []]|] eqn:Hn; try done. injection Hs as <-. eexists. split; [done|]. split; [|split].
    + apply (client_inv_same _ _ w); try done; [|by left]. cbn. apply Forall_insert; [apply Hi|done].
    + destruct Hr as [?|(y & [i Hy]%list_elem_of_lookup & Hyr)]; [by left|right]. exists y. split; [|done]. apply list_elem_of_lookup. exists i. cbn. rewrite list_lookup_insert_ne; [done|]. intros ->. rewrite Hn in Hy. injection Hy as <-. done.
    + right. right. exists (b, TimerReady). split; [|done]. apply list_elem_of_lookup. exists n. cbn. apply list_lookup_insert_eq. by eapply lookup_lt_Some.
  - left. injection Hs as <-. by apply good_shutdown.
Qed.

Lemma running_inv tr w : running uri tr w -> inv (client_requests tr) (arrived tr) w /\ reads w /\ alive w.
Proof using Hpw.
  induction 1 as [|tr w l w' Hrun IH Hs].
  - split; [split; cbn; try done; [constructor|intros u l c Hl; by apply not_elem_of_nil in Hl|intros c a Hc; by apply not_elem_of_nil in Hc|by repeat constructor]|]. split; [by left|].
    right. right. exists (true, Connecting). split; [left|done].
  - destruct IH as (Hi & Hr & Ha). destruct (client_step tr w l _ Hi Hr Ha Hs) as [(w1 & [= <-] & ?)|(n & b & m & -> & Hn & Hq)]; [done|]. exfalso. cbn [step] in Hs. rewrite Hn in Hs. cbn in Hs.
    destruct (b && true && true); [|done]. injection Hs as Hs. unfold onWriteAssetRequest in Hs. revert Hs. destruct (client_take _ _ _ _ _ Hi Hn) as (_ & Hm & _). destruct m as [|y m]; [done|]. cbn [negb andb length Nat.ltb Nat.leb]. rewrite act_bind_eq. cbn. rewrite act_bind_eq. cbn. by rewrite Hq.
Qed.

End steps.

(** C12. Aperture's client of WHIP calls the callback of every request exactly once: what was answered and what waits are together the callbacks
    that were passed in.  An asset is delivered only to a request for the id that its response names.  While requests wait a response
    is being read; a client that is neither connected nor shut down has an operation under way that leads to a connection.  The only
    undefined behaviour is the removal from an empty queue, by a write that succeeds after the connection was closed. *)
Theorem client_requests_answered {CB} uri (tr : list (AssetServer CB * label (CB := CB))) w : password_ok (_password uri) -> running uri tr w ->
  (answers w).*1 ++ concat (_pendingTransfers w).*2 ≡ₚ (client_requests tr).*2 /\
  (forall c a, (c, Some a) ∈ answers w -> exists u, (u, c) ∈ client_requests tr /\ (u, a) ∈ arrived tr) /\
  (_pendingTransfers w <> [] -> exists x, x ∈ ops w /\ reading x.2 = true) /\
  (_connectionState w = CSTATE_CONNECTED \/ _connectionState w = CSTATE_SHUTDOWN \/ exists x, x ∈ ops w /\ reviving x.2 = true) /\
  (forall l r, step uri w l = Some r -> (exists w', r = Done (tt, w')) \/ popping w l).
Proof.
  intros Hpw Hrun. destruct (running_inv uri Hpw tr w Hrun) as (Hi & Hr & Ha). split_and!; [apply Hi|apply Hi|intros Hne; by destruct Hr|done|].
  intros l r Hs. destruct (client_step uri Hpw tr w l r Hi Hr Ha Hs) as [(w' & -> & _)|?]; [left; by exists w'|by right].
Qed.

(** ** Client and server together *)

(** The server's side of a connection: the completions, one after the other, and what it does. *)
Fixpoint serve (password : list Z) (s : conn) (evs : list event) : option (conn * list effect) :=
  match evs with
  | [] => Some (s, [])
  | ev :: evs => r ← handle password (fun _ => false) [] s ev; x ← r; y ← serve password x.1 evs; Some (y.1, x.2 ++ y.2)
  end.
(** The client's side. *)
Fixpoint fetch {CB} (uri : WhipURI) (w : AssetServer CB) (ls : list label) : option (AssetServer CB) :=
  match ls with
  | [] => Some w
  | l :: ls => match step uri w l with Some (Done (_, w)) => fetch uri w ls | _ => None end
  end.
Lemma fetch_step {CB} uri (w : AssetServer CB) l ls w' : step uri w l = Some (Done (tt, w')) -> fetch uri w (l :: ls) = fetch uri w' ls.
Proof. intros Hs. cbn [fetch]. by rewrite Hs. Qed.

Lemma fetch_app {CB} uri (w : AssetServer CB) ls ls' w1 w2 : fetch uri w ls = Some w1 -> fetch uri w1 ls' = Some w2 -> fetch uri w (ls ++ ls') = Some w2.
Proof.
  revert w. induction ls as [|l ls IH]; intros w H1 H2; cbn in *; [by injection H1 as ->|]. destruct (step uri w l) as [[[[] w']| | |]|]; [|done..]. by apply IH.
Qed.
Lemma serve_app password s evs evs' s1 es1 s2 es2 : serve password s evs = Some (s1, es1) -> serve password s1 evs' = Some (s2, es2) -> serve password s (evs ++ evs') = Some (s2, es1 ++ es2).
Proof.
  revert s es1. induction evs as [|ev evs IH]; intros s es1 H1 H2; cbn in *; [by injection H1 as -> <-|]. destruct (handle password (fun _ => false) [] s ev) as [[[s' es']|]|]; [|done..]. cbn in *.
  destruct (serve password s' evs) as [[s3 es3]|] eqn:E; [|done]. cbn in H1. injection H1 as -> <-. rewrite (IH s' es3 E H2). cbn. by rewrite <- app_assoc.
Qed.

Definition writes (es : list effect) : list (list Z) := omap (fun e => match e with Write b => Some b | _ => None end) es.

Lemma length_concat_const {A B} (f : A -> list B) n l : (forall x, length (f x) = n) -> length (concat (map f l)) = (n * length l)%nat.
Proof. intros Hf. induction l as [|x l IH]; cbn; [lia|]. rewrite length_app, Hf, IH. lia. Qed.

Lemma hex_length digest : length (hex digest) = (2 * length digest)%nat.
Proof. by apply length_concat_const. Qed.

Lemma sha1_length m : length (Spec.sha1 m) = 20%nat.
Proof. unfold Spec.sha1. rewrite (length_concat_const _ 4) by done. by rewrite hash_blocks_length. Qed.

Lemma u8_byte l : Forall is_u8 l -> forallb is_byte l = true.
Proof. intros Hl. apply forallb_forall. intros x Hx%list_elem_of_In. rewrite Forall_forall in Hl. specialize (Hl x Hx). unfold is_u8 in Hl. unfold is_byte. apply andb_true_intro. split; [apply Z.leb_le|apply Z.ltb_lt]; lia. Qed.

(** The proof of the password: the client's answer to a challenge is the one that the server accepts. *)
Definition client_proof (uri : WhipURI) (phrase : list Z) : list Z := AuthResponseMsg.PACKET_IDENTIFIER :: hex (Spec.sha1 (_password uri ++ phrase)).

Section login.
Context (uri : WhipURI) (phrase : list Z).
Context (Hpw : password_ok (_password uri)) (Hlen : length phrase = AuthChallengeMsg.PHRASE_SIZE) (Hphrase : Forall is_u8 phrase).

Lemma phrase_fits : Forall is_u8 (_password uri ++ phrase) /\ Z.of_nat (length (_password uri ++ phrase)) < 2 ^ 32 - 64.
Proof using Hpw Hlen Hphrase.
  destruct Hpw as [Hp Hl]. change AuthChallengeMsg.PHRASE_SIZE with 7%nat in Hlen. split; [by apply Forall_app|]. rewrite length_app. lia.
Qed.

Lemma client_logs_in {CB} : fetch uri (started (CB := CB))
  [LIo 0 true []; LIo 0 true (AuthChallengeMsg.outbound phrase); LIo 0 true []; LIo 0 true (AuthStatusMsg.outbound AuthStatusMsg.AS_AUTH_SUCCESS)] =
  Some (mkServer true CSTATE_CONNECTED [] [] [] [] [client_proof uri phrase]).
Proof using Hpw Hlen Hphrase.
  destruct phrase_fits as [Hu Hl]. assert (Hc : length (AuthChallengeMsg.outbound phrase) = 8%nat).
  { unfold AuthChallengeMsg.outbound. cbn [length]. rewrite length_take, Hlen. done. }
  assert (Hb : forallb is_byte (AuthChallengeMsg.outbound phrase) = true) by (apply u8_byte; constructor; [unfold is_u8, AuthChallengeMsg.PACKET_IDENTIFIER; lia|by apply Forall_take]).
  assert (Hanswer : onRecvChallenge uri false (AuthChallengeMsg.outbound phrase) tt (mkServer (CB := CB) true CSTATE_CONNECTING [] [] [] [] []) =
    Done (tt, mkServer true CSTATE_CONNECTING [] [] [(true, WriteChallengeResponse (client_proof uri phrase))] [] [client_proof uri phrase])).
  { unfold onRecvChallenge. rewrite Hc. cbn [negb andb Nat.eqb]. unfold sendChallengeResponse. rewrite act_bind_eq, getPhrase_outbound by done. cbn -[AuthResponseMsg_new]. rewrite act_bind_eq.
    unfold AuthResponseMsg_new. rewrite challenge_response by done. done. }
  rewrite (fetch_step uri _ _ _ (mkServer true CSTATE_CONNECTING [] [] [(true, ReadChallenge)] [] [])) by done.
  erewrite fetch_step; [|unfold step; cbn -[AuthChallengeMsg.outbound onRecvChallenge]; rewrite Hc, Hb; cbn -[AuthChallengeMsg.outbound onRecvChallenge]; exact (f_equal Some Hanswer)].
  done.
Qed.

Lemma server_accepts : serve (_password uri) (start phrase).1 [WroteChallenge false; GotResponse false (client_proof uri phrase); WroteStatus false] =
  Some (WaitForRequest false, [Read (Z.of_nat AuthResponseMsg.MESSAGE_SIZE); Write (AuthStatusMsg.outbound AuthStatusMsg.AS_AUTH_SUCCESS); Read (Z.of_nat ClientRequestMsg.HEADER_SIZE)]).
Proof using Hpw Hlen Hphrase.
  destruct phrase_fits as [Hu Hl]. cbn [serve start fst handle handleWriteChallenge mbind option_bind]. unfold handleReadChallengeResponse.
  rewrite (proj2 (isValid_spec (_password uri) phrase (client_proof uri phrase) Hu Hl Hlen)).
  - done.
  - split; [by left|]. pose proof (bytes_at_app [AuthResponseMsg.PACKET_IDENTIFIER] (hex (Spec.sha1 (_password uri ++ phrase))) []) as Hb. rewrite app_nil_r, hex_length, sha1_length in Hb. exact Hb.
Qed.

End login.

Section transfer.
Context (u a : list Z) (Hid : IsValidUUID u = true) (Hau : Asset.getUUID a = Some u) (Hfits : Z.of_nat (length a) < 2 ^ 31) (Hbytes : Forall is_u8 a).

Definition get_request : list Z := ClientRequestMsg.header (ClientRequestMsg.new_get ClientRequestMsg.RT_GET u).

Lemma id_length : length u = 32%nat.
Proof using Hid. unfold IsValidUUID in Hid. by apply andb_prop in Hid as [?%Nat.eqb_eq _]. Qed.

Lemma id_bytes : Forall is_u8 u.
Proof using Hid.
  clear Hau Hfits Hbytes. unfold IsValidUUID in Hid. apply andb_prop in Hid as [_ Hc]. rewrite forallb_forall in Hc. apply Forall_forall. intros x Hx%list_elem_of_In. specialize (Hc x Hx). unfold uuid_char in Hc. unfold is_u8.
  apply negb_true_iff, andb_false_iff in Hc as [Hc|Hc]; zbool; lia.
Qed.

Lemma asset_length : (32 <= length a)%nat.
Proof using Hau. unfold Asset.getUUID, bytes_at in Hau. destruct (0 + 32 <=? length a)%nat eqn:E; [by apply Nat.leb_le in E|done]. Qed.

(** The header of the server's response. *)
Lemma response_header : exists h, ServerResponseMsg.new_data ServerResponseMsg.RC_FOUND u a = Some (ServerResponseMsg.mk h (Some a)) /\ length h = 37%nat /\
  h !! 0%nat = Some (ServerResponseMsg.code ServerResponseMsg.RC_FOUND) /\ bytes_at h 1 32 = Some u /\ ntohl_at h 33 = Some (Z.of_nat (length a)) /\ Forall is_u8 h.
Proof using Hid Hfits.
  destruct (setupHeader_ok ServerResponseMsg.RC_FOUND u (Z.of_nat (length a)) id_length) as (h & Hh & H1 & H2 & H3 & H4); [unfold is_u32; lia|]. exists h. split_and!; try done.
  - unfold ServerResponseMsg.new_data. rewrite (proj2 (Z.ltb_lt _ _)) by lia. by rewrite Hh.
  - unfold ServerResponseMsg.setupHeader, store_htonl in Hh. case_bool; [|done]. apply (inj Some) in Hh as <-.
    assert (Hz : Forall is_u8 (ServerResponseMsg.code ServerResponseMsg.RC_FOUND :: u ++ [0; 0; 0; 0])) by (constructor; [unfold is_u8; cbn; lia|]; apply Forall_app; split; [apply id_bytes|repeat constructor; unfold is_u8; lia]).
    apply Forall_app. split; [by apply Forall_take|]. apply Forall_app. split; [|by apply Forall_drop]. unfold htonl_bytes, is_u8, u8. repeat constructor; apply Z.mod_pos_bound; lia.
Qed.

Lemma server_delivers password h : ServerResponseMsg.new_data ServerResponseMsg.RC_FOUND u a = Some (ServerResponseMsg.mk h (Some a)) ->
  serve password (WaitForRequest false) [GotHeader false get_request; StorageGot (Some a); WroteHeader false; WroteData false] =
  Some (WaitForRequest false, [StorageGet u SF_NONE; Write h; Write a; Read (Z.of_nat ClientRequestMsg.HEADER_SIZE)]).
Proof using Hid Hau Hfits.
  intros Hh. pose proof (bytes_at_app [ClientRequestMsg.code ClientRequestMsg.RT_GET] u [0; 0; 0; 0]) as Hu. rewrite id_length in Hu.
  assert (Hget : ClientRequestMsg.getUUID (ClientRequestMsg.mk get_request None) = Some u) by exact Hu.
  cbn [serve handle]. unfold handleClientRequestHeaderRead. change (ClientRequestMsg.getType (ClientRequestMsg.mk get_request None)) with (@inr unit _ ClientRequestMsg.RT_GET).
  unfold handleGetRequest. rewrite Hget. cbn [mbind option_bind]. rewrite Hid. cbn [negb mbind option_bind fst handle]. unfold handleStorageGetResponse, found_response. rewrite Hau. cbn [mbind option_bind]. rewrite Hh. cbn. unfold is_int_size. by rewrite (proj2 (Z.ltb_lt _ _)).
Qed.

Lemma client_receives {CB} uri (k : CB) m h : length h = 37%nat -> h !! 0%nat = Some (ServerResponseMsg.code ServerResponseMsg.RC_FOUND) -> bytes_at h 1 32 = Some u ->
  ntohl_at h 33 = Some (Z.of_nat (length a)) -> Forall is_u8 h ->
  fetch uri (mkServer true CSTATE_CONNECTED [] [] [] [] m) [LGet u k; LIo 0 true []; LIo 0 true h; LIo 0 true a] =
  Some (mkServer true CSTATE_CONNECTED [] [] [] [(k, Some a)] (m ++ [get_request])).
Proof using Hau Hbytes.
  intros Hl H0 Hu Hn Hb. rewrite (fetch_step uri _ _ _ (mkServer true CSTATE_CONNECTED [u] [(u, [k])] [(true, WriteRequest get_request); (true, ReadHeader)] [] (m ++ [get_request]))) by done.
  rewrite (fetch_step uri _ _ _ (mkServer true CSTATE_CONNECTED [] [(u, [k])] [(true, ReadHeader)] [] (m ++ [get_request]))) by done.
  pose proof asset_length as Hal. set (response := ServerResponseMsg.mk h (Some (replicate (length a) 0))).
  assert (Hv : ServerResponseMsg.validateHeader (ServerResponseMsg.mk h None) = Some true) by by apply (header_ok_valid ServerResponseMsg.RC_FOUND).
  assert (Hi : ServerResponseMsg.initializeDataStorage (ServerResponseMsg.mk h None) = Some response) by (unfold ServerResponseMsg.initializeDataStorage, ServerResponseMsg.getDataSize; cbn [ServerResponseMsg.header]; change ServerResponseMsg.DATA_LEN_MARKER_LOC with 33%nat; rewrite Hn; cbn; by rewrite Nat2Z.id).
  rewrite (fetch_step uri _ _ _ (mkServer true CSTATE_CONNECTED [] [(u, [k])] [(true, ReadData response)] [] (m ++ [get_request]))).
  - rewrite (fetch_step uri _ _ _ (mkServer true CSTATE_CONNECTED [] [] [] [(k, Some a)] (m ++ [get_request]))); [done|]. unfold step. cbn -[onReadResponseData]. rewrite length_replicate, Nat.eqb_refl, (u8_byte a Hbytes). cbn -[onReadResponseData]. f_equal.
    unfold onReadResponseData. rewrite (proj2 (Nat.ltb_lt 0 (length a))) by lia. cbn [negb andb]. rewrite act_bind_eq.
    assert (Hru : ServerResponseMsg.getUUID response = Some u) by exact Hu. rewrite Hru. cbn -[fireAssetRcvdCallbacks]. rewrite act_bind_eq, fire_eq, continue_eq.
    unfold fired, smap_find, continued, smap_erase. cbn. rewrite decide_True by done. cbn. rewrite decide_False by auto. unfold set_transfers, set_answers, set_ops. cbn. by rewrite decide_False by auto.
  - unfold step. cbn -[onReadResponseHeader]. rewrite Hl, (u8_byte h Hb). cbn -[onReadResponseHeader]. f_equal. unfold onReadResponseHeader. rewrite Hl. cbn [Nat.ltb Nat.leb negb andb]. rewrite act_bind_eq, Hv. cbn. rewrite act_bind_eq.
    unfold ServerResponseMsg.getResponseCode. cbn [ServerResponseMsg.header]. change ServerResponseMsg.RESPONSE_CODE_MARKER_LOC with 0%nat. rewrite H0. cbn -[ServerResponseMsg.initializeDataStorage]. by rewrite act_bind_eq, Hi.
Qed.

End transfer.

(** C13. Aperture and WHIP understand each other: when both know the password the login succeeds, and the asset that the storage has for the id is what
    the callback of [getAsset] is called with, for an asset of less than 2^31 bytes.  The bytes that each side reads are the bytes that the other side wrote, and both sides
    are then ready for the next request. *)
Theorem fetch_roundtrip {CB} uri phrase u a (k : CB) :
  password_ok (_password uri) -> length phrase = AuthChallengeMsg.PHRASE_SIZE -> Forall is_u8 phrase ->
  IsValidUUID u = true -> Asset.getUUID a = Some u -> Z.of_nat (length a) < 2 ^ 31 -> Forall is_u8 a ->
  exists proof_msg request success header es w,
    serve (_password uri) (start phrase).1
      [WroteChallenge false; GotResponse false proof_msg; WroteStatus false; GotHeader false request; StorageGot (Some a); WroteHeader false; WroteData false] = Some (WaitForRequest false, es) /\
    writes ((start phrase).2 ++ es) = [AuthChallengeMsg.outbound phrase; success; header; a] /\ StorageGet u SF_NONE ∈ es /\
    fetch uri started
      [LIo 0 true []; LIo 0 true (AuthChallengeMsg.outbound phrase); LIo 0 true []; LIo 0 true success; LGet u k; LIo 0 true []; LIo 0 true header; LIo 0 true a] = Some w /\
    sent w = [proof_msg; request] /\ answers w = [(k, Some a)] /\ isConnected w = true /\ _pendingTransfers w = [] /\ _pendingSends w = [].
Proof.
  intros Hpw Hlen Hphrase Hid Hau Hfits Hbytes. destruct (response_header u a Hid Hfits) as (h & Hh & H1 & H2 & H3 & H4 & H5).
  pose proof (serve_app _ _ _ _ _ _ _ _ (server_accepts uri phrase Hpw Hlen Hphrase) (server_delivers u a Hid Hau Hfits (_password uri) h Hh)) as Hserve.
  pose proof (fetch_app uri _ _ _ _ _ (client_logs_in uri phrase Hpw Hlen Hphrase) (client_receives u a Hau Hbytes uri k _ h H1 H2 H3 H4 H5)) as Hfetch.
  eexists _, _, _, h, _, _. split; [exact Hserve|]. split; [done|]. split; [cbn; do 3 right; left|]. split; [exact Hfetch|]. done.
Qed.

(** ** Runs *)

Definition demo_uri : WhipURI := mkURI [112] [104] 32700.
Definition demo_uuid : list Z := replicate 32 97.
Definition demo_texture : list Z := demo_uuid ++ [0; 0; 1].

Lemma demo_uri_ok : password_ok (_password demo_uri).
Proof. split; [repeat constructor; unfold is_u8; lia|cbn; lia]. Qed.

Lemma fetch_running {CB} uri ls (w : AssetServer CB) tr w' : running uri tr w -> fetch uri w ls = Some w' -> exists tr', running uri tr' w'.
Proof.
  revert w tr. induction ls as [|l ls IH]; intros w tr Hr Hf; cbn in Hf; [injection Hf as <-; by exists tr|].
  destruct (step uri w l) as [[[[] w1]| | |]|] eqn:Es; [|done..]. apply (IH w1 ((w, l) :: tr)); [by econstructor|done].
Qed.

(** The login, and two requests for the same asset. *)
Definition asking : list (label (CB := nat)) :=
  [LIo 0 true []; LIo 0 true (AuthChallengeMsg.outbound (replicate 7 1)); LIo 0 true []; LIo 0 true (AuthStatusMsg.outbound AuthStatusMsg.AS_AUTH_SUCCESS); LGet demo_uuid 1%nat; LGet demo_uuid 2%nat].

Lemma client_requests_answered_witness : exists tr w, running demo_uri tr w /\ (_pendingTransfers w) = [(demo_uuid, [1%nat; 2%nat])] /\ exists x, x ∈ ops w /\ reading x.2 = true.
Proof.
  assert (Hf : _pendingTransfers <$> fetch demo_uri started asking = Some [(demo_uuid, [1%nat; 2%nat])]) by (vm_compute; reflexivity).
  destruct (fetch demo_uri started asking) as [w|] eqn:E; [|discriminate Hf]. destruct (fetch_running demo_uri asking started [] w (running_start demo_uri) E) as [tr Hr]. exists tr, w. split; [exact Hr|].
  injection Hf as Hf. split; [exact Hf|]. pose proof (client_requests_answered demo_uri tr w demo_uri_ok Hr) as (_ & _ & Hread & _). apply Hread. rewrite Hf. discriminate.
Defined.

Lemma fetch_roundtrip_witness : exists success header w, fetch demo_uri started
    [LIo 0 true []; LIo 0 true (AuthChallengeMsg.outbound (replicate 7 1)); LIo 0 true []; LIo 0 true success; LGet demo_uuid 1%nat; LIo 0 true []; LIo 0 true header; LIo 0 true demo_texture] = Some w /\
  answers w = [(1%nat, Some demo_texture)].
Proof.
  destruct (fetch_roundtrip demo_uri (replicate 7 1) demo_uuid demo_texture 1%nat) as (p & r & s & h & es & w & _ & _ & _ & Hf & _ & Ha & _);
    [exact demo_uri_ok|reflexivity|repeat constructor; unfold is_u8; lia|reflexivity|reflexivity|reflexivity|repeat constructor; unfold is_u8; lia|].
  exists s, h, w. split; [exact Hf|exact Ha].
Defined.

(** The undefined behaviour that [client_requests_answered] names is reachable: the response cannot be read, the connection is closed, and
    the completion of the write is still to come. *)
Lemma client_pops_empty_queue : exists (tr : list (AssetServer nat * label)) w, running demo_uri tr w /\ popping w (LIo 0 true []) /\ step demo_uri w (LIo 0 true []) = Some Undefined.
Proof.
  assert (Hf : (fun w => (ops w, _pendingSends w)) <$> fetch demo_uri started (asking ++ [LIo 1 false []]) = Some ([(true, WriteRequest (10 :: demo_uuid ++ [0; 0; 0; 0])); (true, TimerWait)], [])) by (vm_compute; reflexivity).
  destruct (fetch demo_uri started (asking ++ [LIo 1 false []])) as [w|] eqn:E; [|discriminate Hf]. destruct (fetch_running demo_uri _ started [] w (running_start demo_uri) E) as [tr Hr]. clear E. exists tr, w.
  split; [exact Hr|]. apply (inj Some) in Hf. pose proof (f_equal snd Hf) as Hq. apply (f_equal fst) in Hf as Ho. cbn [fst snd] in Ho, Hq. revert Ho. generalize (demo_uuid ++ [0; 0; 0; 0]). intros m Ho. split; [exists 0%nat, true, (10 :: m); split_and!; [done|by rewrite Ho|done]|].
  unfold step. rewrite Ho. cbn. f_equal. unfold onWriteAssetRequest. cbn. rewrite act_bind_eq. cbn. rewrite act_bind_eq. cbn. by rewrite Hq.
Qed.
