(* ===== verification/AssetCache.v ===== *)
(** * AssetCache: the memory cache in front of the storage

    Models [AssetCache] ([src/whip-server/whip/AssetCache.cpp]): the [LRUCache] of
    [LruCache] with the size calculator for assets, in front of the back end of
    [VfsStore].  A callback that the cache hands to the back end is a value that says how the cache
    completes it.  Other parts of the server use the back end directly ([CStorage]), with callbacks
    of their own.

    The io service runs handlers in the order of their posting; the model keeps the answers
    that the cache posts itself apart from those of the back end and lets them run in any order,
    which includes that one.  The status text is left out. *)
From S2P Require Import Prelude LruCache WhipWire Uuid VfsData VfsStore WhipSession.
From stdpp Require Import list gmap.
#[local] Open Scope Z_scope.

#[export] Instance asset_sized : Sized (list Z) := Asset.getSize.

(** The weight of an asset in the cache. *)
Definition asset_weight (a : list Z) : Z := u32 (getSize a + TOTAL_OVERHEAD).

#[export] Instance asset_weight_laws : CalculatorLaws AssetSizeCalculator (list Z) asset_weight := asset_size_laws (list Z).

(** Who called: a client of the cache through one of its completions, or another part of the server. *)
Inductive cache_cb (K : Type) := Direct (k : K) | CacheGet (flags : Z) (k : K) | CachePut (asset : list Z) (k : K).
Arguments Direct {K}.
Arguments CacheGet {K}.
Arguments CachePut {K}.

Definition asset_cache : Type := LRUCache (list Z) (list Z) AssetSizeCalculator.

Record state (T K : Type) := mkState {
  _persistentStorage : backend T (cache_cb K);
  _cache : asset_cache;
  _cacheHits : Z; _cacheMisses : Z;
  hits_posted : list (K * list Z); hits_delivered : list (K * list Z) }.
Arguments mkState {T K}.
Arguments _persistentStorage {T K}.
Arguments _cache {T K}.
Arguments _cacheHits {T K}.
Arguments _cacheMisses {T K}.
Arguments hits_posted {T K}.
Arguments hits_delivered {T K}.

Section cache.
Context {T K : Type} `{IndexTable T}.
#[local] Notation state := (state T K).
Implicit Types (s : state) (uuid asset : list Z) (k : K).

Definition set_storage s (b : backend T (cache_cb K)) : state :=
  mkState b (_cache s) (_cacheHits s) (_cacheMisses s) (hits_posted s) (hits_delivered s).
Definition set_cache s (c : asset_cache) : state :=
  mkState (_persistentStorage s) c (_cacheHits s) (_cacheMisses s) (hits_posted s) (hits_delivered s).

(** [_cache.insert(asset->getUUID(), asset)] *)
Definition remember s asset : option state := uuid ← Asset.getUUID asset; c ← LruCache.insert (_cache s) uuid asset; Some (set_cache s c).

Definition new_state (maxCacheSize : Z) (b : backend T (cache_cb K)) : state := mkState b (new_cache (mkAssetSize 0) maxCacheSize) 0 0 [] [].

Definition inform s (asset : option (list Z)) : option state := match asset with Some a => remember s a | None => Some s end.

(** Both overloads of [getAsset]; the one without flags passes SF_NONE. *)
Definition getAsset s uuid (flags : Z) k : option state :=
  '(asset, c) ← LruCache.fetch (_cache s) uuid true;
  let s := set_cache s c in
  match asset with
  | Some a => Some (mkState (_persistentStorage s) (_cache s) (u64 (_cacheHits s + 1)) (_cacheMisses s) (hits_posted s ++ [(k, a)]) (hits_delivered s))
  | None =>
      b ← VfsStore.getAsset (_persistentStorage s) uuid (CacheGet flags k);
      match VfsStore.assetExists (_existingAssets (_persistentStorage s)) uuid with
      | Throw _ => Some s
      | _ => Some (mkState b (_cache s) (_cacheHits s) (u64 (_cacheMisses s + 1)) (hits_posted s) (hits_delivered s))
      end
  end.

Definition asyncGetCompleted s (asset : option (list Z)) (flags : Z) : option state :=
  match asset with
  | Some a => if Z.land flags SF_DONTCACHE =? 0 then remember s a else Some s
  | None => Some s
  end.

Definition storeAsset s asset k : option state := b ← VfsStore.storeAsset (_persistentStorage s) asset (CachePut asset k); Some (set_storage s b).

Definition asyncPutCompleted s asset (success : bool) : option state := if success then remember s asset else Some s.

Definition purgeAsset s uuid k : option state := Some s.

Definition assetExists s uuid : res bool :=
  if LruCache.exists_ (_cache s) uuid then Ret true else VfsStore.assetExists (_existingAssets (_persistentStorage s)) uuid.

Definition beginPurgeLocals s : option state := b ← VfsStore.beginPurgeLocals (_persistentStorage s); Some (set_storage s b).
Definition getStatus s (cb : cache_cb K) : option state := b ← VfsStore.getStatus (_persistentStorage s) cb; Some (set_storage s b).
Definition getStoredAssetIDsWithPrefix s (prefix : list Z) (cb : cache_cb K) : option state :=
  b ← VfsStore.getStoredAssetIDsWithPrefix (_persistentStorage s) prefix cb; Some (set_storage s b).
Definition shutdown s : option state := Some (set_storage s (VfsStore.shutdown (_persistentStorage s))).

(** The io service runs the next handler of the back end; the completions of the cache run before the client's callback. *)
Definition run_storage_posted s : option state :=
  b ← run_posted (_persistentStorage s);
  match posted (_persistentStorage s) with
  | CallGet (CacheGet flags _) asset :: _ => asyncGetCompleted (set_storage s b) asset flags
  | CallStore (CachePut asset _) success :: _ => asyncPutCompleted (set_storage s b) asset success
  | _ => Some (set_storage s b)
  end.

Definition run_hit s : option state :=
  match hits_posted s with
  | [] => None
  | x :: l => Some (mkState (_persistentStorage s) (_cache s) (_cacheHits s) (_cacheMisses s) l (hits_delivered s ++ [x]))
  end.

(** ** Steps and runs *)

Inductive clabel :=
  | CGet (uuid : list Z) (flags : Z) (k : K) | CStore (asset : list Z) (k : K) | CPurge (uuid : list Z) (k : K) | CInform (asset : option (list Z))
  | CPurgeLocals | CHit | CStorage (l : label (cache_cb K)) | CRestart (faults : list outcome).

(** [max] is the size of the cache; a restart begins with an empty one. *)
Definition cstep (max : Z) s (l : clabel) : option state :=
  match l with
  | CGet uuid flags k => getAsset s uuid flags k
  | CStore asset k => storeAsset s asset k
  | CPurge uuid k => purgeAsset s uuid k
  | CInform asset => inform s asset
  | CPurgeLocals => beginPurgeLocals s
  | CHit => run_hit s
  | CStorage LPosted => run_storage_posted s
  | CStorage (LRestart _) => None
  | CStorage l => b ← step (_persistentStorage s) l; Some (set_storage s b)
  | CRestart faults => b ← boot (dsk_ (_persistentStorage s)) faults; Some (new_state max b)
  end.

Inductive crun (max : Z) (s0 : state) : list clabel -> state -> Prop :=
  | crun_nil : crun max s0 [] s0
  | crun_cons tr s l s' : crun max s0 tr s -> cstep max s l = Some s' -> crun max s0 (l :: tr) s'.
End cache.
Arguments clabel : clear implicits.

(** ** Correctness *)

Section correctness.
Context {T K : Type} `{IndexTableLaws T} (max : Z) (Hmax : 0 <= max) (Hbig : max + 2 ^ 32 <= 2 ^ 64).
#[local] Notation state := (state T K).
#[local] Notation clabel := (clabel K).
Implicit Types (s : state) (u a : list Z) (k : K) (tr : list clabel) (ts : list (label (cache_cb K))).

(** Where an asset may come from: a store through the cache, a store past it, or the mesh. *)
Definition known tr a : Prop := (exists k, CStore a k ∈ tr) \/ (exists k, CStorage (LStore a (Direct k)) ∈ tr) \/ CInform (Some a) ∈ tr.

(** Stores are of valid assets, and the other parts of the server use callbacks of their own. *)
Definition admissible (l : clabel) : Prop :=
  match l with
  | CStore a _ => valid_asset a
  | CStorage (LStore a cb) => valid_asset a /\ exists k, cb = Direct k
  | CStorage (LGet _ cb) => exists k, cb = Direct k
  | _ => True
  end.

(** The steps [ts] of the back end come from the steps [tr]. *)
Record tied tr ts : Prop := {
  tied_store a cb : LStore a cb ∈ ts -> match cb with CachePut a' k => a' = a /\ CStore a k ∈ tr | Direct k => CStorage (LStore a (Direct k)) ∈ tr | CacheGet _ _ => False end;
  tied_get u cb : LGet u cb ∈ ts -> match cb with CacheGet f k => CGet u f k ∈ tr | Direct k => CStorage (LGet u (Direct k)) ∈ tr | CachePut _ _ => False end;
}.

Definition cache_ok tr (c : asset_cache) : Prop :=
  exists es, rep (weight := asset_weight) c es /\ _max_size c = max /\ LruCache.total asset_weight es <= max /\
    forall u a, (u, a) ∈ es -> Asset.getUUID a = Some u /\ known tr a.

Definition hit_ok tr k a : Prop := exists u f, CGet u f k ∈ tr /\ Asset.getUUID a = Some u /\ known tr a.

Record cinv tr s : Prop := {
  cinv_storage : exists ts, history ts (_persistentStorage s) /\ tied tr ts;
  cinv_cache : cache_ok tr (_cache s);
  cinv_hits k a : (k, a) ∈ hits_posted s ++ hits_delivered s -> hit_ok tr k a;
}.

Lemma known_mono tr l a : known tr a -> known (l :: tr) a.
Proof using Type. intros [[k ?]|[[k ?]|?]]; [left; exists k|right; left; exists k|right; right]; by right. Qed.

Lemma cache_ok_mono tr l c : cache_ok tr c -> cache_ok (l :: tr) c.
Proof using Type. intros (es & Hr & Hm & Ht & He). exists es. split_and!; try done. intros u a [Hu Hk]%He. split; [done|by apply known_mono]. Qed.

Lemma tied_mono tr l ts : tied tr ts -> tied (l :: tr) ts.
Proof using Type.
  intros [K1 K2]. split.
  - intros a cb Hin. specialize (K1 a cb Hin). destruct cb; [by right|done|]. destruct K1. split; [done|by right].
  - intros u cb Hin. specialize (K2 u cb Hin). destruct cb; [by right|by right|done].
Qed.

Lemma hit_ok_mono tr l k a : hit_ok tr k a -> hit_ok (l :: tr) k a.
Proof using Type. intros (u & f & Hg & Hu & Hk). exists u, f. split; [by right|]. split; [done|by apply known_mono]. Qed.

Lemma cache_exec_ok tr c o : cache_ok tr c -> exists es, (forall u a, (u, a) ∈ es -> Asset.getUUID a = Some u /\ known tr a) /\
  let '(x, es') := spec_exec asset_weight max es o in
  exists c', cache_exec c o = Some (x, c') /\ ((forall u a, (u, a) ∈ es' -> Asset.getUUID a = Some u /\ known tr a) -> cache_ok tr c').
Proof using Hmax Hbig.
  intros (es & Hr & Hm & Ht & He). exists es. split; [done|]. pose proof (exec_rep c es o Hr) as Hx. rewrite Hm in Hx. specialize (Hx Hmax Hbig Ht).
  destruct (spec_exec _ max es o) as [x es']. destruct Hx as (c' & Hx & Hr' & Hm' & Ht'). exists c'. split; [done|]. intros He'. by exists es'.
Qed.

(** An asset that is known may be remembered. *)
Lemma remember_ok tr s u a s' : cache_ok tr (_cache s) -> Asset.getUUID a = Some u -> known tr a -> remember s a = Some s' ->
  cache_ok tr (_cache s') /\ s' = set_cache s (_cache s').
Proof using Hmax Hbig.
  intros Hc Hu Hk. unfold remember. rewrite Hu. cbn [mbind option_bind]. destruct (cache_exec_ok tr (_cache s) (OpInsert u a) Hc) as (es & He & Hx).
  cbn [spec_exec cache_exec] in Hx. destruct Hx as (c' & Hx & Hok). destruct (LruCache.insert (_cache s) u a) as [c|]; [|done]. cbn [mbind option_bind] in *.
  injection Hx as ->. intros [= <-]. cbn. split; [|done]. apply Hok. intros v b [[= -> ->]|Hin]%put_In; [done|by apply He].
Qed.

Lemma fetch_ok tr s u x c : cache_ok tr (_cache s) -> LruCache.fetch (_cache s) u true = Some (x, c) ->
  cache_ok tr c /\ match x with Some a => Asset.getUUID a = Some u /\ known tr a | None => True end.
Proof using Hmax Hbig.
  intros Hc Hf. destruct (cache_exec_ok tr (_cache s) (OpFetch u true) Hc) as (es & He & Hx). cbn [spec_exec cache_exec] in Hx. destruct Hx as (c' & Hx & Hok).
  rewrite Hf in Hx. cbn [mbind option_bind] in Hx. injection Hx as -> ->. split.
  - apply Hok. intros v b Hin%to_front_In. by apply He.
  - destruct (lookup_entry es u) eqn:E; [|done]. by apply He, lookup_entry_In.
Qed.

(** The back end under the cache takes one step or none. *)
Lemma cinv_step tr l s s' ts (l' : label (cache_cb K)) : cinv tr s -> history ts (_persistentStorage s) -> tied tr ts ->
  step (_persistentStorage s) l' = Some (_persistentStorage s') -> tied (l :: tr) (l' :: ts) ->
  cache_ok (l :: tr) (_cache s') -> hits_posted s' = hits_posted s -> hits_delivered s' = hits_delivered s -> cinv (l :: tr) s'.
Proof using Type.
  intros [_ Kc Kh] (s0 & f & Hb & Hr) Ht Hs Ht' Hc Hp Hd. split; [|done|].
  - exists (l' :: ts). split; [|done]. exists s0, f. split; [done|]. by eapply run_cons.
  - rewrite Hp, Hd. intros k a Hin. by apply hit_ok_mono, Kh.
Qed.

Lemma cinv_same tr l s s' : cinv tr s -> _persistentStorage s' = _persistentStorage s -> cache_ok (l :: tr) (_cache s') ->
  (forall k a, (k, a) ∈ hits_posted s' ++ hits_delivered s' -> (k, a) ∈ hits_posted s ++ hits_delivered s \/ hit_ok (l :: tr) k a) -> cinv (l :: tr) s'.
Proof using Type.
  intros [(ts & Hh & Ht) Kc Kh] Hs Hc Hx. split; [|done|].
  - exists ts. rewrite Hs. split; [done|by apply tied_mono].
  - intros k a [Hin|?]%Hx; [by apply hit_ok_mono, Kh|done].
Qed.

(** A step of the back end that brings no new get or store of a client. *)
Lemma tied_other tr l ts (l' : label (cache_cb K)) : tied tr ts ->
  (forall a cb, l' = LStore a cb -> match cb with CachePut a' k => a' = a /\ CStore a k ∈ l :: tr | Direct k => CStorage (LStore a (Direct k)) ∈ l :: tr | CacheGet _ _ => False end) ->
  (forall u cb, l' = LGet u cb -> match cb with CacheGet f k => CGet u f k ∈ l :: tr | Direct k => CStorage (LGet u (Direct k)) ∈ l :: tr | CachePut _ _ => False end) ->
  tied (l :: tr) (l' :: ts).
Proof using Type.
  intros [K1 K2]%(tied_mono _ l) H1 H2. split.
  - intros a cb [E|Hin]%elem_of_cons; [by apply H1|by apply K1].
  - intros u cb [E|Hin]%elem_of_cons; [by apply H2|by apply K2].
Qed.

Definition stores_valid tr : Prop := Forall admissible tr.

Lemma tied_valid tr ts : stores_valid tr -> tied tr ts -> valid_stores ts.
Proof using Type.
  intros HF Ht a cb Hin. apply (tied_store _ _ Ht) in Hin. destruct cb as [k|f k|a' k]; [|done|].
  - by apply (proj1 (Forall_forall _ _) HF) in Hin as [? _].
  - destruct Hin as [_ Hin]. by apply (proj1 (Forall_forall _ _) HF) in Hin.
Qed.

Lemma tied_known tr ts a cb : tied tr ts -> LStore a cb ∈ ts -> known tr a.
Proof using Type.
  intros Ht Hin. apply (tied_store _ _ Ht) in Hin. unfold known. destruct cb as [k|f k|a' k]; [|done|]; [eauto|]. destruct Hin. eauto.
Qed.

Lemma new_cache_ok tr : cache_ok tr (new_cache (mkAssetSize 0) max).
Proof using Hmax. exists []. split; [by apply new_cache_rep|]. split; [done|]. split; [done|]. intros u a Hin. by apply not_elem_of_nil in Hin. Qed.

Lemma cinv_get tr s u f k s' : cinv tr s -> getAsset s u f k = Some s' -> cinv (CGet u f k :: tr) s'.
Proof using Hmax Hbig.
  intros Hinv. unfold getAsset. destruct (LruCache.fetch (_cache s) u true) as [[x c]|] eqn:Ef; [|done]. cbn [mbind option_bind].
  destruct (fetch_ok tr s u x c (cinv_cache _ _ Hinv) Ef) as [Hc Hx]. apply (cache_ok_mono _ (CGet u f k)) in Hc. destruct x as [a|].
  - intros [= <-]. apply (cinv_same tr _ s); [done|done|done|]. cbn. intros k' b Hin. rewrite !elem_of_app in *.
    destruct Hin as [[Hin|Hin]|Hin]; [by left; left| |by left; right]. apply list_elem_of_singleton in Hin as [= -> ->]. right. exists u, f. split; [left|].
    destruct Hx as [Hu Hk]. split; [done|by apply known_mono].
  - cbn. destruct (VfsStore.getAsset _ u _) as [b|] eqn:Eg; [|done]. cbn [mbind option_bind]. destruct (cinv_storage _ _ Hinv) as (ts & Hh & Ht).
    destruct (VfsStore.assetExists _ u); intros [= <-].
    1, 3: eapply (cinv_step tr _ s _ ts (LGet u (CacheGet f k))); [done|done|done|exact Eg| |done|done|done]; apply tied_other; [done|done|]; intros ? ? [= <- <-]; left.
    apply (cinv_same tr _ s); [done|done|done|by left].
Qed.

Lemma cinv_posted tr s s' : stores_valid tr -> cinv tr s -> run_storage_posted s = Some s' -> cinv (CStorage LPosted :: tr) s'.
Proof using Hmax Hbig H0.
  intros Hv Hinv. unfold run_storage_posted. destruct (run_posted (_persistentStorage s)) as [b|] eqn:Er; [|done]. cbn [mbind option_bind].
  destruct (cinv_storage _ _ Hinv) as (ts & Hh & Ht). pose proof (history_inv _ _ Hh (tied_valid _ _ Hv Ht)) as Hsi.
  assert (Hgo : forall s1, cache_ok tr (_cache s1) -> s1 = set_cache (set_storage s b) (_cache s1) -> cinv (CStorage LPosted :: tr) s1).
  { intros s1 Hc E. eapply (cinv_step tr _ s _ ts LPosted); [done|done|done| |by apply tied_other|by apply cache_ok_mono|by rewrite E|by rewrite E]. rewrite E. exact Er. }
  assert (Hsame : forall s1, s1 = set_storage s b -> cinv (CStorage LPosted :: tr) s1) by (intros s1 ->; apply Hgo; [apply Hinv|done]).
  destruct (posted (_persistentStorage s)) as [|x l] eqn:Ep; [intros [= <-]; by apply Hsame|].
  assert (Hx : x ∈ posted (_persistentStorage s) ++ delivered (_persistentStorage s)) by (rewrite Ep; left).
  destruct x as [[k|f k|a k] y|[k|f k|a k] y| | | | |]; try (intros [= <-]; by apply Hsame).
  - unfold asyncGetCompleted. destruct y as [a|]; [|intros [= <-]; by apply Hsame]. destruct (_ =? 0); [|intros [= <-]; by apply Hsame].
    destruct (ok_posted _ _ (inv_messages _ _ Hsi) _ _ Hx) as (u & _ & Hu & cb & Hin). intros Hr.
    apply (remember_ok tr (set_storage s b) u) in Hr as [Hc E]; [by apply Hgo|apply Hinv|done|by eapply tied_known].
  - unfold asyncPutCompleted. destruct y; [|intros [= <-]; by apply Hsame]. destruct (ok_acked _ _ (inv_messages _ _ Hsi) _ _ Hx) as [a' Hin].
    pose proof (tied_store _ _ Ht _ _ Hin) as [-> Hk]. pose proof (tied_valid _ _ Hv Ht _ _ Hin) as (u & l' & Hu & _). intros Hr.
    apply (remember_ok tr (set_storage s b) u) in Hr as [Hc E]; [by apply Hgo|apply Hinv|done|left; by exists k].
Qed.

Lemma cstep_inv tr s l s' : stores_valid (l :: tr) -> cinv tr s -> cstep max s l = Some s' -> cinv (l :: tr) s'.
Proof using Hmax Hbig H0.
  intros HF Hinv Hs. inversion HF as [|? ? Hl Hv]; subst. destruct (cinv_storage _ _ Hinv) as (ts & Hh & Ht).
  assert (Hstep : forall b l', step (_persistentStorage s) l' = Some b -> tied (l :: tr) (l' :: ts) -> cinv (l :: tr) (set_storage s b)).
  { intros b l' Hb Ht'. eapply (cinv_step tr _ s _ ts l'); try done. apply cache_ok_mono, Hinv. }
  destruct l as [u f k|a k|u k|x| | |l|faults]; cbn [cstep] in Hs.
  - by apply (cinv_get tr s).
  - unfold storeAsset in Hs. destruct (VfsStore.storeAsset _ a _) as [b|] eqn:E; [|done]. injection Hs as <-.
    apply (Hstep b (LStore a (CachePut a k)) E). apply tied_other; [done| |done]. intros ? ? [= <- <-]. split; [done|left].
  - injection Hs as <-. apply (cinv_same tr _ s); [done|done|apply cache_ok_mono, Hinv|by left].
  - unfold inform in Hs. destruct x as [a|]; [|injection Hs as <-; apply (cinv_same tr _ s); [done|done|apply cache_ok_mono, Hinv|by left]].
    assert (Hu : exists u, Asset.getUUID a = Some u) by (unfold remember in Hs; destruct (Asset.getUUID a); [eauto|done]). destruct Hu as [u Hu].
    apply (remember_ok (CInform (Some a) :: tr) s u) in Hs as [Hc E]; [|apply cache_ok_mono, Hinv|done|right; right; left].
    rewrite E. apply (cinv_same tr _ s); [done|done|done|by left].
  - unfold beginPurgeLocals in Hs. destruct (VfsStore.beginPurgeLocals _) as [b|] eqn:E; [|done]. injection Hs as <-. apply (Hstep b LPurgeLocals E). by apply tied_other.
  - unfold run_hit in Hs. destruct (hits_posted s) as [|x l] eqn:E; [done|]. injection Hs as <-. apply (cinv_same tr _ s); [done|done|apply cache_ok_mono, Hinv|].
    cbn. intros k a Hin. left. rewrite E. apply elem_of_app in Hin as [Hin|Hin]; [right; apply elem_of_app; by left|].
    apply elem_of_app in Hin as [Hin|Hin]; [right; apply elem_of_app; by right|]. apply list_elem_of_singleton in Hin as ->. left.
  - destruct l as [u cb|a cb|u cb|cb|prefix cb| |n|faults| |err| |faults]; [..|done].
    9: { by apply (cinv_posted tr s). }
    all: destruct (step (_persistentStorage s) _) as [b|] eqn:E; [|done]; injection Hs as <-; apply (Hstep _ _ E); apply tied_other; try done.
    + intros ? ? [= <- <-]. destruct Hl as [k ->]. left.
    + intros ? ? [= <- <-]. destruct Hl as [_ [k ->]]. left.
  - destruct (boot _ faults) as [b|] eqn:E; [|done]. injection Hs as <-. split.
    + exists (LRestart faults :: ts). split; [|by apply tied_other]. destruct Hh as (s0 & f & Hb & Hr). exists s0, f. split; [done|]. by eapply run_cons.
    + apply new_cache_ok.
    + intros k a Hin. by apply not_elem_of_nil in Hin.
Qed.

(** The runs of a server with a cache of [max] bytes that began with an empty storage root. *)
Definition cache_history tr s : Prop := exists b faults, boot empty_disk faults = Some b /\ crun max (new_state max b) tr s.

Lemma cache_history_inv tr s : cache_history tr s -> stores_valid tr -> cinv tr s.
Proof using Hmax Hbig H0.
  intros (b & faults & Hb & Hr). induction Hr as [|tr s l s' Hr IH Hs]; intros HF.
  - split; [|apply new_cache_ok|intros k a Hin; by apply not_elem_of_nil in Hin]. exists []. split; [exists b, faults; split; [done|apply run_nil]|].
    split; intros ? ? Hin; by apply not_elem_of_nil in Hin.
  - eapply cstep_inv; [done| |done]. apply IH. by inversion HF.
Qed.

(** The asset that the client [k] of the cache gets, from the memory or from the disk. *)
Definition client_gets s k a : Prop :=
  (k, a) ∈ hits_posted s ++ hits_delivered s \/
  exists f, CallGet (CacheGet f k) (Some a) ∈ posted (_persistentStorage s) ++ delivered (_persistentStorage s).

(** C8. The cache and the store together never answer with the wrong asset.  In every
    history of a server with an asset cache, begun with an empty storage root (any
    interleaving, failures and restarts; a cache of any size), an asset that reaches a client
    of the cache, from the memory or from the disk, was asked for under the id in its first 32
    bytes, and is byte for byte one that was given to a store call or reported by the
    mesh before. *)
Theorem cached_gets_return_known tr s k a : cache_history tr s -> stores_valid tr -> client_gets s k a ->
  exists u f, CGet u f k ∈ tr /\ Asset.getUUID a = Some u /\ known tr a.
Proof using Hmax Hbig H0.
  intros Hh Hv Hg. pose proof (cache_history_inv _ _ Hh Hv) as Hinv. destruct Hg as [Hin|[f Hin]]; [by apply (cinv_hits _ _ Hinv)|].
  destruct (cinv_storage _ _ Hinv) as (ts & Hhs & Ht). pose proof (history_inv _ _ Hhs (tied_valid _ _ Hv Ht)) as Hsi.
  destruct (ok_posted _ _ (inv_messages _ _ Hsi) _ _ Hin) as (u & Hget & Hu & cb & Hst). exists u, f. split; [exact (tied_get _ _ Ht _ _ Hget)|].
  split; [done|by eapply tied_known].
Qed.
End correctness.

(** ** Example *)

Fixpoint cexec {T K : Type} `{IndexTable T} (max : Z) (s : state T K) (ls : list (clabel K)) : option (state T K) :=
  match ls with [] => Some s | l :: ls => s' ← cstep max s l; cexec max s' ls end.

Lemma cexec_run {T K : Type} `{IndexTable T} max ls : forall (s0 s : state T K) tr s', crun max s0 tr s -> cexec max s ls = Some s' -> crun max s0 (rev ls ++ tr) s'.
Proof.
  induction ls as [|l ls IH]; intros s0 s tr s' Hr He; cbn in He.
  - by injection He as <-.
  - destruct (cstep max s l) as [s1|] eqn:E; [|done]. cbn in He. cbn [rev]. rewrite <- app_assoc. eapply IH; [|done]. by eapply crun_cons.
Qed.

(** A store, its completion, and a get that the memory answers. *)
Definition demo_hit : list (clabel Z) :=
  [CStore (demo_asset id_a 0) 1; CStorage (LResume 0); CStorage (LResume 0); CStorage (LWork []); CStorage LPosted; CGet id_a SF_NONE 2].

Definition demo_cache_start : state (gmap (list Z) row) Z :=
  new_state 1000000 (default (mkBackend empty_disk new_pool ∅ [] [] [] [] false 0 false [] false) (boot empty_disk [])).

Lemma cached_gets_return_known_witness : exists s, cexec 1000000 demo_cache_start demo_hit = Some s /\ hits_posted s = [(2, demo_asset id_a 0)] /\
  exists u f, CGet u f 2 ∈ rev demo_hit /\ Asset.getUUID (demo_asset id_a 0) = Some u /\ known (rev demo_hit) (demo_asset id_a 0).
Proof.
  set (s := default demo_cache_start (cexec 1000000 demo_cache_start demo_hit)).
  assert (He : cexec 1000000 demo_cache_start demo_hit = Some s) by (apply returned_default; vm_compute; reflexivity).
  assert (Hp : hits_posted s = [(2, demo_asset id_a 0)]) by (vm_compute; reflexivity).
  exists s. split; [exact He|]. split; [exact Hp|]. apply (cached_gets_return_known 1000000 ltac:(lia) ltac:(lia) (rev demo_hit) s 2 (demo_asset id_a 0)).
  - eexists _, []. split; [apply returned_default; vm_compute; reflexivity|]. exact (cexec_run _ _ _ _ _ _ (crun_nil _ _) He).
  - repeat constructor. apply demo_valid. reflexivity.
  - left. rewrite Hp. left.
Defined.
