(* ===== verification/TokenBucket.v ===== *)
(** * TokenBucket: the bandwidth limit of Aperture

    Models [src/aperture/aperture/TokenBucket.cpp].  Clock readings of
    [boost::chrono::steady_clock] are nanoseconds; [drip] reads the clock twice, so each
    operation takes both readings.  The byte counters are [size_t] with their wrap-around,
    the product of the rate and the elapsed time is a 64-bit signed integer. *)
From S2P Require Import Prelude.
#[local] Open Scope Z_scope.

Record TokenBucket := mkBucket { _maxBurst : Z; _tokens : Z; _lastDrip : Z; _tokensPerMS : Z }.

(** Nanoseconds in a millisecond. *)
Definition MS : Z := 1000000.

Definition DRIP_PERIOD_PERIOD_MS : Z := 15.

(** The constructor; [maxBandwidth] is an [int]. *)
Definition new_bucket (maxBandwidth now : Z) : TokenBucket :=
  let maxBurst := u64 maxBandwidth in
  let tokensPerMS := Z.quot maxBandwidth 1000 in
  mkBucket maxBurst maxBurst now (if tokensPerMS <=? 0 then 1 else tokensPerMS).

Definition drip (b : TokenBucket) (now now' : Z) : bool * TokenBucket :=
  let deltaTime := Z.quot (now - _lastDrip b) MS in
  if deltaTime <=? 0 then (false, b)
  else
    let tokens := u64 (i64 (_tokensPerMS b * deltaTime)) in
    (true, mkBucket (_maxBurst b) (Z.min (u64 (_tokens b + tokens)) (_maxBurst b)) now' (_tokensPerMS b)).

Definition removeTokens (b : TokenBucket) (amount now now' : Z) : bool * TokenBucket :=
  let '(_, b) := drip b now now' in
  if amount <=? _tokens b then (true, mkBucket (_maxBurst b) (u64 (_tokens b - amount)) (_lastDrip b) (_tokensPerMS b))
  else (false, b).

Definition getMaxBurst (b : TokenBucket) : Z := _maxBurst b.

(** A sequence of calls of [removeTokens] with their clock readings, and the bytes granted. *)
Record call := mkCall { amount : Z; now1 : Z; now2 : Z }.

Fixpoint calls (b : TokenBucket) (cs : list call) : Z * TokenBucket :=
  match cs with
  | [] => (0, b)
  | c :: cs =>
      let '(ok, b) := removeTokens b (amount c) (now1 c) (now2 c) in
      let '(n, b) := calls b cs in
      ((if ok : bool then amount c else 0) + n, b)
  end.

(** The clock does not go back: all readings are at least [t], in order, and the last is [e]. *)
Fixpoint clocked (t : Z) (cs : list call) (e : Z) : Prop :=
  match cs with
  | [] => t = e
  | c :: cs => 0 <= amount c /\ t <= now1 c <= now2 c /\ clocked (now2 c) cs e
  end.

(** ** One operation *)

Definition bucket_ok (b : TokenBucket) : Prop := 0 <= _tokens b <= _maxBurst b /\ _maxBurst b < 2 ^ 64 /\ 1 <= _tokensPerMS b < 2 ^ 31.

Lemma new_bucket_ok maxBandwidth now : is_i32 maxBandwidth -> bucket_ok (new_bucket maxBandwidth now).
Proof.
  intros Hi. unfold bucket_ok, new_bucket, is_i32 in *. cbn [_maxBurst _tokens _tokensPerMS]. pose proof (u64_range maxBandwidth) as Hu. unfold is_u64 in Hu.
  split; [lia|]. split; [lia|]. case_bool; zbool; [lia|].
  destruct (Z.le_gt_cases 0 maxBandwidth).
  - rewrite Z.quot_div_nonneg in * by lia. dlia.
  - pose proof (Z.quot_opp_l maxBandwidth 1000 ltac:(lia)). rewrite (Z.quot_div_nonneg (- maxBandwidth)) in * by lia. dlia.
Qed.

Lemma u64_le x : 0 <= x -> u64 x <= x.
Proof. intros Hx. apply Z.mod_le; lia. Qed.

(** A signed product that wraps is still not larger, once it is a [size_t]. *)
Lemma u64_i64_le x : 0 <= x -> 0 <= u64 (i64 x) <= x.
Proof.
  intros Hx. unfold u64, i64. rewrite Zminus_mod_idemp_l. replace (x + 2 ^ 63 - 2 ^ 63) with x by lia.
  pose proof (Z.mod_pos_bound x (2 ^ 64) ltac:(lia)). pose proof (Z.mod_le x (2 ^ 64) Hx ltac:(lia)). lia.
Qed.

(** The tokens that [drip] adds, and where it leaves its clock. *)
Lemma drip_spec b now now' : bucket_ok b -> now <= now' ->
  let b' := (drip b now now').2 in
  bucket_ok b' /\ _maxBurst b' = _maxBurst b /\ _tokensPerMS b' = _tokensPerMS b /\
  (b' = b /\ now - _lastDrip b < MS \/
   _lastDrip b' = now' /\ MS <= now - _lastDrip b /\ (_tokens b' - _tokens b) * MS <= _tokensPerMS b * (now - _lastDrip b)).
Proof.
  intros Hok Hn. unfold drip. set (d := now - _lastDrip b). cbn zeta. unfold MS.
  destruct (Z.leb_spec (Z.quot d 1000000) 0) as [Hq|Hq]; cbn [snd].
  - split; [done|]. split; [done|]. split; [done|]. left. split; [done|].
    destruct (Z.le_gt_cases 0 d); [|lia]. rewrite Z.quot_div_nonneg in Hq by lia. dlia.
  - destruct (Z.le_gt_cases 0 d) as [Hd|Hd]; [|pose proof (Z.quot_opp_l d 1000000 ltac:(lia)); rewrite (Z.quot_div_nonneg (- d)) in * by lia; dlia].
    rewrite Z.quot_div_nonneg in * by lia. destruct Hok as (Ht & Hm & Hr).
    set (q := d / 1000000) in *. assert (Hqd : q * 1000000 <= d) by (unfold q; dlia).
    pose proof (u64_i64_le (_tokensPerMS b * q) ltac:(nia)) as Hp. set (p := u64 (i64 (_tokensPerMS b * q))) in *.
    pose proof (u64_le (_tokens b + p) ltac:(lia)) as Hs. pose proof (u64_range (_tokens b + p)) as Hrng. unfold is_u64 in Hrng.
    split; [unfold bucket_ok; cbn [_tokens _maxBurst _tokensPerMS]; lia|]. split; [done|]. split; [done|]. right. cbn [_lastDrip _tokens].
    split; [done|]. split; [lia|]. nia.
Qed.

(** [removeTokens] takes what it grants. *)
Lemma removeTokens_spec b n now now' : bucket_ok b -> 0 <= n -> now <= now' ->
  let '(ok, b') := removeTokens b n now now' in
  bucket_ok b' /\ _maxBurst b' = _maxBurst b /\ _tokensPerMS b' = _tokensPerMS b /\ _lastDrip b' = _lastDrip (drip b now now').2 /\
  _tokens b' = _tokens (drip b now now').2 - (if ok : bool then n else 0) /\ (ok = true <-> n <= _tokens (drip b now now').2).
Proof.
  intros Hok Hn Hle. unfold removeTokens. pose proof (drip_spec b now now' Hok Hle) as (Hok' & Hm & Hr & _). destruct (drip b now now') as [x b1]. cbn [snd] in *.
  destruct (Z.leb_spec n (_tokens b1)) as [Hle'|Hgt].
  - destruct Hok' as (Ht & Hmx & Hrt). rewrite u64_small by (unfold is_u64; lia). unfold bucket_ok. cbn [_maxBurst _tokens _lastDrip _tokensPerMS].
    repeat split; try done; lia.
  - repeat split; try done; try apply Hok'; lia.
Qed.

(** ** The rate *)

(** From the first call at [s] on: what was granted and what is left is covered by the burst and
    the rate.  The clock of the bucket is at most a millisecond behind [s]. *)
Definition covered (s granted : Z) (b : TokenBucket) : Prop :=
  bucket_ok b /\ s - MS <= _lastDrip b /\ (granted + _tokens b) * MS <= _maxBurst b * MS + _tokensPerMS b * (_lastDrip b + MS - s).

Lemma covered_first b c : bucket_ok b -> 0 <= amount c -> now1 c <= now2 c ->
  let '(ok, b') := removeTokens b (amount c) (now1 c) (now2 c) in covered (now1 c) (if ok : bool then amount c else 0) b'.
Proof.
  intros Hok Hn Hle. pose proof (removeTokens_spec b (amount c) _ _ Hok Hn Hle) as H. pose proof (drip_spec b _ _ Hok Hle) as (Hok1 & Hm1 & Hr1 & Hd).
  destruct (removeTokens b (amount c) (now1 c) (now2 c)) as [ok b']. destruct H as (Hok' & Hm & Hr & Hl & Ht & _). unfold covered, MS in *.
  split; [done|]. rewrite Hl. destruct Hok1 as (Ht1 & _). rewrite Hm1 in Ht1. destruct Hok as (_ & _ & Hrate). rewrite Hm, Hr, Ht.
  assert (Hlast : now1 c - 1000000 <= _lastDrip (drip b (now1 c) (now2 c)).2) by (destruct Hd as [[-> Hd]|(-> & _)]; lia).
  split; [done|]. destruct ok; nia.
Qed.

Lemma covered_step s g b c : covered s g b -> 0 <= amount c -> now1 c <= now2 c ->
  let '(ok, b') := removeTokens b (amount c) (now1 c) (now2 c) in covered s (g + if ok : bool then amount c else 0) b'.
Proof.
  intros (Hok & Hs & Hcov) Hn Hle. pose proof (removeTokens_spec b (amount c) _ _ Hok Hn Hle) as H. pose proof (drip_spec b _ _ Hok Hle) as (_ & _ & _ & Hd).
  destruct (removeTokens b (amount c) (now1 c) (now2 c)) as [ok b']. destruct H as (Hok' & Hm & Hr & Hl & Ht & _). unfold covered, MS in *.
  split; [done|]. rewrite Hl, Hm, Hr, Ht. destruct Hok as (_ & _ & Hrate).
  destruct Hd as [[-> _]|(-> & Hms & Hd)]; [split; [done|destruct ok; lia]|]. split; [lia|]. destruct ok; nia.
Qed.

(** The clock of the bucket is never ahead of the readings. *)
Lemma lastDrip_le b n now now' : bucket_ok b -> 0 <= n -> now <= now' -> _lastDrip b <= now' -> _lastDrip (removeTokens b n now now').2 <= now'.
Proof.
  intros Hok Hn Hle Hl. pose proof (removeTokens_spec b n _ _ Hok Hn Hle) as H. pose proof (drip_spec b _ _ Hok Hle) as (_ & _ & _ & Hd).
  destruct (removeTokens b n now now') as [ok b']. destruct H as (_ & _ & _ & Hl' & _). cbn [snd]. rewrite Hl'. destruct Hd as [[-> _]|(-> & _)]; lia.
Qed.

Lemma calls_covered s g b cs t e : covered s g b -> _lastDrip b <= t -> clocked t cs e ->
  let '(n, b') := calls b cs in covered s (g + n) b' /\ _lastDrip b' <= e /\ _maxBurst b' = _maxBurst b /\ _tokensPerMS b' = _tokensPerMS b.
Proof.
  revert g b t. induction cs as [|c cs IH]; intros g b t Hc Hl Hcl; cbn [calls].
  - cbn in Hcl. subst t. rewrite Z.add_0_r. done.
  - destruct Hcl as (Hn & [Ht Hle] & Hcl). pose proof (covered_step s g b c Hc Hn Hle) as Hc'. destruct Hc as (Hok & _).
    pose proof (removeTokens_spec b (amount c) _ _ Hok Hn Hle) as Hsp. pose proof (lastDrip_le b (amount c) _ _ Hok Hn Hle ltac:(lia)) as Hl'.
    destruct (removeTokens b (amount c) (now1 c) (now2 c)) as [ok b1]. destruct Hsp as (_ & Hm & Hr & _). specialize (IH _ _ _ Hc' Hl' Hcl).
    destruct (calls b1 cs) as [n b']. rewrite Z.add_assoc. rewrite <- Hm, <- Hr. exact IH.
Qed.

Lemma calls_ok b cs t e : bucket_ok b -> _lastDrip b <= t -> clocked t cs e ->
  let b' := (calls b cs).2 in bucket_ok b' /\ _lastDrip b' <= e /\ _maxBurst b' = _maxBurst b /\ _tokensPerMS b' = _tokensPerMS b.
Proof.
  intros Hok Hl Hcl. destruct cs as [|c cs]; [cbn in *; subst; done|]. cbn [calls]. destruct Hcl as (Hn & [Ht Hle] & Hcl).
  pose proof (covered_first b c Hok Hn Hle) as Hc. pose proof (removeTokens_spec b (amount c) _ _ Hok Hn Hle) as Hsp. pose proof (lastDrip_le b (amount c) _ _ Hok Hn Hle ltac:(lia)) as Hl'.
  destruct (removeTokens b (amount c) (now1 c) (now2 c)) as [ok b1]. destruct Hsp as (_ & Hm & Hr & _). pose proof (calls_covered _ _ _ _ _ _ Hc Hl' Hcl) as H.
  destruct (calls b1 cs) as [n b']. cbn [snd]. destruct H as ((Hok' & _) & Hl2 & Hm2 & Hr2). rewrite Hm2, Hr2. done.
Qed.

(** The clock of the bucket does not go back. *)
Lemma calls_lastDrip_ge b cs t e : bucket_ok b -> 0 <= _lastDrip b <= t -> clocked t cs e -> 0 <= _lastDrip (calls b cs).2.
Proof.
  revert b t. induction cs as [|c cs IH]; intros b t Hok Hl Hcl; cbn [calls]; [cbn; lia|]. destruct Hcl as (Hn & [Ht Hle] & Hcl).
  pose proof (removeTokens_spec b (amount c) _ _ Hok Hn Hle) as Hsp. pose proof (drip_spec b _ _ Hok Hle) as (_ & _ & _ & Hd). pose proof (lastDrip_le b (amount c) _ _ Hok Hn Hle ltac:(lia)) as Hl'.
  destruct (removeTokens b (amount c) (now1 c) (now2 c)) as [ok b1]. destruct Hsp as (Hok1 & _ & _ & Hl1 & _). cbn [snd] in Hl'.
  assert (0 <= _lastDrip b1) by (rewrite Hl1; destruct Hd as [[-> _]|(-> & _)]; lia). specialize (IH b1 (now2 c) Hok1 ltac:(lia) Hcl). by destruct (calls b1 cs).
Qed.

(** C28. The limit holds in every time window.  Take a bucket made with the bandwidth
    [maxBandwidth] (bytes per second) and any calls [before] of [removeTokens].  The bytes granted
    by the calls that follow, of which the first reads the clock at [s] and the last at [e], are at most
    the burst plus the rate times the length of the window and one millisecond.  The rate per millisecond is
    a thousandth of the bandwidth, and at least 1. *)
Theorem bucket_rate_limit maxBandwidth t0 before t c cs e :
  0 <= maxBandwidth < 2 ^ 31 -> clocked t0 before t -> clocked t (c :: cs) e ->
  let b := (calls (new_bucket maxBandwidth t0) before).2 in
  (calls b (c :: cs)).1 * MS <= maxBandwidth * MS + Z.max 1 (maxBandwidth / 1000) * (e - now1 c + MS).
Proof.
  intros Hb Hbef Hcl b. assert (Hok : bucket_ok (new_bucket maxBandwidth t0)) by (apply new_bucket_ok; unfold is_i32; lia).
  destruct (calls_ok _ before t0 t Hok (Z.le_refl t0) Hbef) as (Hok' & Hl & Hm & Hr). fold b in Hok', Hl, Hm, Hr.
  cbn [calls]. destruct Hcl as (Hn & [Ht Hle] & Hcl).
  pose proof (covered_first b c Hok' Hn Hle) as Hc. pose proof (removeTokens_spec b (amount c) _ _ Hok' Hn Hle) as Hsp. pose proof (lastDrip_le b (amount c) _ _ Hok' Hn Hle ltac:(lia)) as Hl'.
  destruct (removeTokens b (amount c) (now1 c) (now2 c)) as [ok b1]. destruct Hsp as (_ & Hm1 & Hr1 & _). pose proof (calls_covered _ _ _ _ _ _ Hc Hl' Hcl) as H.
  destruct (calls b1 cs) as [n b']. cbn [fst]. destruct H as ((Hok2 & Hs & Hcov) & Hl2 & Hm2 & Hr2).
  rewrite Hm2, Hm1, Hm, Hr2, Hr1, Hr in Hcov. destruct Hok2 as (Htk & _ & Hrt). unfold new_bucket in Hcov. cbn [_maxBurst _tokensPerMS] in Hcov.
  rewrite u64_small in Hcov by (unfold is_u64; lia). rewrite Z.quot_div_nonneg in Hcov by lia.
  replace (if maxBandwidth / 1000 <=? 0 then 1 else maxBandwidth / 1000) with (Z.max 1 (maxBandwidth / 1000)) in Hcov by (destruct (Z.leb_spec (maxBandwidth / 1000) 0); lia).
  set (r := Z.max 1 (maxBandwidth / 1000)) in *. assert (1 <= r) by lia. unfold MS in *. nia.
Qed.

Lemma bucket_rate_limit_witness :
  let b := (calls (new_bucket 5000 0) [mkCall 5000 10 20]).2 in
  (calls b [mkCall 4 1000020 1000030; mkCall 10 3000030 3000030]).1 = 14 /\ 14 * MS <= 5000 * MS + 5 * (2000010 + MS).
Proof.
  split; [reflexivity|].
  apply (bucket_rate_limit 5000 0 [mkCall 5000 10 20] 20 (mkCall 4 1000020 1000030) [mkCall 10 3000030 3000030] 3000030); cbn; lia.
Defined.
