(* ===== verification/HttpReply.v ===== *)
(** * HttpReply: replies of the Aperture HTTP server

    Models [src/aperture/aperture/reply.cpp], [reply.hpp] and [header.hpp].  Text is a list of
    bytes.  The token bucket of a reply is a shared pointer: [token_bucket] is the
    identity of the bucket object.  [stock_reply] leaves [bytes_sent] uninitialised: its value is
    an argument. *)
From S2P Require Import Prelude.
From Stdlib Require Import String Ascii.
From stdpp Require Import list.
#[local] Open Scope Z_scope.

Definition crlf : list Z := [13; 10].
Definition name_value_separator : list Z := [58; 32].

Inductive status_type :=
  | ok | created | accepted | no_content | partial_content | multiple_choices | moved_permanently | moved_temporarily | not_modified
  | bad_request | unauthorized | forbidden | not_found | range_error | internal_server_error | not_implemented | bad_gateway | service_unavailable.

#[export] Instance status_type_eq_dec : EqDecision status_type.
Proof. solve_decision. Defined.

(** [status_strings::to_buffer]. *)
Definition to_buffer (s : status_type) : list Z :=
  text (match s with
  | ok => "HTTP/1.1 200 OK" | created => "HTTP/1.1 201 Created" | accepted => "HTTP/1.1 202 Accepted" | no_content => "HTTP/1.1 204 No Content"
  | partial_content => "HTTP/1.1 206 Partial Content"
  | multiple_choices => "HTTP/1.1 300 Multiple Choices" | moved_permanently => "HTTP/1.1 301 Moved Permanently"
  | moved_temporarily => "HTTP/1.1 302 Moved Temporarily" | not_modified => "HTTP/1.1 304 Not Modified" | bad_request => "HTTP/1.1 400 Bad Request"
  | unauthorized => "HTTP/1.1 401 Unauthorized" | forbidden => "HTTP/1.1 403 Forbidden" | not_found => "HTTP/1.1 404 Not Found"
  | range_error => "HTTP/1.1 416 Requested Range Not Satisfiable"
  | internal_server_error => "HTTP/1.1 500 Internal Server Error" | not_implemented => "HTTP/1.1 501 Not Implemented" | bad_gateway => "HTTP/1.1 502 Bad Gateway"
  | service_unavailable => "HTTP/1.1 503 Service Unavailable"
  end%string) ++ crlf.

Record reply := mkReply {
  status : status_type; rheaders : list (list Z * list Z); content : list Z; token : list Z; bytes_sent : Z; token_bucket : option nat }.

Definition header_lines (hs : list (list Z * list Z)) : list Z :=
  concat (map (fun h => h.1 ++ name_value_separator ++ h.2 ++ crlf) hs).

Definition header_buffers (r : reply) : list Z := to_buffer (status r) ++ header_lines (rheaders r) ++ crlf.
Definition to_buffers (r : reply) : list Z := to_buffer (status r) ++ header_lines (rheaders r) ++ crlf ++ content r.

(** [reset] keeps the token. *)
Definition reset_reply (r : reply) : reply := mkReply ok [] [] (token r) 0 None.

Definition blen (l : list Z) : Z := Z.of_nat (length l).

Definition remaining_bytes (r : reply) : Z := u64 (blen (content r) - bytes_sent r).

(** [get_next_chunk]: the bytes of the buffer; [None] when they are not all in the content. *)
Definition get_next_chunk (r : reply) (maxSize : Z) : option (list Z) :=
  let n := Z.min maxSize (remaining_bytes r) in
  if (0 <=? bytes_sent r) && (bytes_sent r + n <=? blen (content r)) then Some (take (Z.to_nat n) (drop (Z.to_nat (bytes_sent r)) (content r))) else None.

Definition push_header (r : reply) (h : list Z * list Z) : reply :=
  mkReply (status r) (rheaders r ++ [h]) (content r) (token r) (bytes_sent r) (token_bucket r).
Definition set_bucket (r : reply) (b : option nat) : reply :=
  mkReply (status r) (rheaders r) (content r) (token r) (bytes_sent r) b.
Definition add_sent (r : reply) (n : Z) : reply :=
  mkReply (status r) (rheaders r) (content r) (token r) (u64 (bytes_sent r + n)) (token_bucket r).

(** ** Stock replies *)

Definition page (title body : string) : list Z :=
  text ("<html><head><title>" ++ title ++ "</title></head><body><h1>" ++ body ++ "</h1></body></html>")%string.

(** [stock_replies::to_string]: there is no case for [partial_content] and [range_error]. *)
Definition stock_content (s : status_type) : list Z :=
  match s with
  | ok => []
  | created => page "Created" "201 Created"
  | accepted => page "Accepted" "202 Accepted"
  | no_content => page "No Content" "204 Content"
  | multiple_choices => page "Multiple Choices" "300 Multiple Choices"
  | moved_permanently => page "Moved Permanently" "301 Moved Permanently"
  | moved_temporarily => page "Moved Temporarily" "302 Moved Temporarily"
  | not_modified => page "Not Modified" "304 Not Modified"
  | bad_request => page "Bad Request" "400 Bad Request"
  | unauthorized => page "Unauthorized" "401 Unauthorized"
  | forbidden => page "Forbidden" "403 Forbidden"
  | not_found => page "Not Found" "404 Not Found"
  | internal_server_error => page "Internal Server Error" "500 Internal Server Error"
  | not_implemented => page "Not Implemented" "501 Not Implemented"
  | bad_gateway => page "Bad Gateway" "502 Bad Gateway"
  | service_unavailable => page "Service Unavailable" "503 Service Unavailable"
  | _ => page "Internal Server Error" "500 Internal Server Error"
  end.

(** [boost::lexical_cast<std::string>] of an unsigned integer. *)
Fixpoint decimal_digits (fuel : nat) (n : Z) : list Z :=
  match fuel with
  | O => []
  | S fuel => if n <? 10 then [48 + n] else decimal_digits fuel (n / 10) ++ [48 + n mod 10]
  end.
Definition decimal (n : Z) : list Z := decimal_digits 20 n.

Definition CONTENT_LENGTH : list Z := text "Content-Length".
Definition CONTENT_TYPE : list Z := text "Content-Type".

(** [stock_reply]; [uninit] is the value that [bytes_sent] happens to have. *)
Definition stock_reply (uninit : Z) (s : status_type) (addnlHeader : list Z * list Z) : reply :=
  let c := stock_content s in
  mkReply s ([(CONTENT_LENGTH, decimal (blen c)); (CONTENT_TYPE, text "text/html")] ++ (if bool_decide (addnlHeader.1 = []) then [] else [addnlHeader]))
    c [] uninit None.

(** ** Decimal numbers *)

(** Reading digits back. *)
Definition read_decimal (l : list Z) : Z := fold_left (fun n c => n * 10 + (c - 48)) l 0.

Lemma read_decimal_snoc l c : read_decimal (l ++ [c]) = read_decimal l * 10 + (c - 48).
Proof. unfold read_decimal. by rewrite fold_left_app. Qed.

Lemma decimal_digits_read fuel : forall n, 0 <= n < 10 ^ Z.of_nat fuel -> (0 < fuel)%nat -> read_decimal (decimal_digits fuel n) = n /\
  Forall (fun c => 48 <= c <= 57) (decimal_digits fuel n).
Proof.
  induction fuel as [|fuel IH]; intros n Hn Hf; [lia|]. cbn [decimal_digits]. destruct (Z.ltb_spec n 10) as [Hlt|Hge].
  - split; [unfold read_decimal; cbn [fold_left]; lia|]. constructor; [lia|constructor].
  - destruct fuel as [|fuel]; [change (10 ^ Z.of_nat 1) with 10 in Hn; lia|].
    rewrite Nat2Z.inj_succ, Z.pow_succ_r in Hn by lia. destruct (IH (n / 10)) as [Hr HF]; [dlia|lia|].
    rewrite read_decimal_snoc, Hr. split; [dlia|]. apply Forall_app. split; [done|]. constructor; [dlia|constructor].
Qed.

(** A length as it is written in a header reads back as that length. *)
Lemma decimal_roundtrip n : is_u64 n -> read_decimal (decimal n) = n /\ Forall (fun c => 48 <= c <= 57) (decimal n).
Proof. intros Hn. apply decimal_digits_read; [|lia]. unfold is_u64 in Hn. change (10 ^ Z.of_nat 20) with 100000000000000000000. lia. Qed.

Lemma header_buffers_content r : to_buffers r = header_buffers r ++ content r.
Proof. unfold to_buffers, header_buffers. by rewrite <- !app_assoc. Qed.
