(* ===== verification/HttpConn.v ===== *)
(** * HttpConn: a connection of the Aperture HTTP server

    Models [src/aperture/aperture/connection.cpp]: reading and splitting the stream into
    requests, answering them one after the other, and sending a reply under a token bucket.
    A handler returns the connection and the asynchronous operations it starts, in
    order; [None] is a use of an empty queue or of a null pointer.  [handle_request] is an operation
    whose completion ([reply_ready]) brings the reply that the request handler wrote.  The idle timer
    ([on_timeout]) and the log are left out: closing the socket shows as an error of the pending read. *)
From S2P Require Import Prelude HttpParser HttpReply TokenBucket.
From Stdlib Require Import String.
From stdpp Require Import list gmap.
#[local] Open Scope Z_scope.

(** What a handler starts. *)
Inductive op :=
  | OpRead | OpWrite (b : list Z) | OpHandle (r : request) | OpTbHeader (b : list Z) | OpTbChunk (b : list Z) | OpTimer (ms : Z) | OpStop.

Record conn := mkConn {
  request_parser_ : parser_state; requests_ : list request; reply_ : reply; _closeAfterResponseWritten : bool; _requestInProgress : bool }.

Definition set_parse (c : conn) (s : parser_state) (rs : list request) : conn :=
  mkConn s rs (reply_ c) (_closeAfterResponseWritten c) (_requestInProgress c).
Definition set_reply (c : conn) (r : reply) : conn :=
  mkConn (request_parser_ c) (requests_ c) r (_closeAfterResponseWritten c) (_requestInProgress c).
Definition set_progress (c : conn) (b : bool) : conn :=
  mkConn (request_parser_ c) (requests_ c) (reply_ c) (_closeAfterResponseWritten c) b.
Definition set_close (c : conn) : conn :=
  mkConn (request_parser_ c) (requests_ c) (reply_ c) true (_requestInProgress c).

Section connection.
(** The values that uninitialised fields happen to have. *)
Context (uninit_major uninit_minor uninit_sent : Z).

#[local] Notation result := (option (conn * list op)).

Definition fresh_request : request := new_request uninit_major uninit_minor.

Definition init_new_request (c : conn) : conn := set_parse c (request_parser_ c) (requests_ c ++ [fresh_request]).

(** The constructor and [start]. *)
Definition start (rep : reply) : conn * list op := (init_new_request (mkConn reset [] rep false false), [OpRead]).

Definition CONNECTION : list Z := text "Connection".
Definition CLOSE : list Z := text "close".

(** [request::header_value]. *)
Fixpoint header_value_of (hs : list (list Z * list Z)) (name : list Z) : list Z :=
  match hs with
  | [] => []
  | h :: hs => if bool_decide (h.1 = name) then h.2 else header_value_of hs name
  end.

Definition process_next_request (c : conn) : result :=
  front ← head (requests_ c);
  if is_bad front then
    let rep := push_header (stock_reply uninit_sent bad_request ([], [])) (CONNECTION, CLOSE) in
    Some (set_close (set_reply (set_progress c true) rep), [OpWrite (to_buffers rep)])
  else if is_ready front then Some (set_reply (set_progress c true) (reset_reply (reply_ c)), [OpHandle front])
  else Some (set_progress c false, [OpRead]).

(** The loop of [handle_read] over the bytes received.  The last request of the queue is the one that
    is being parsed. *)
Fixpoint read_loop (fuel : nat) (c : conn) (buf : list Z) : result :=
  match fuel, buf with
  | _, [] => Some (c, [])
  | O, _ => None
  | S fuel, _ =>
      back ← last (requests_ c);
      '(result, s, r, rest) ← parse (request_parser_ c) back buf;
      let rs := removelast (requests_ c) ++ [r] in
      match result with
      | Some true => read_loop fuel (init_new_request (set_parse c reset rs)) rest
      | Some false => Some (set_parse c reset rs, [])
      | None =>
          let c := set_parse c s rs in
          front ← head (requests_ c);
          if negb (is_ready front) then Some (c, [OpRead]) else read_loop fuel c rest
      end
  end.

Definition handle_read (c : conn) (err : bool) (bytes : list Z) : result :=
  if err then Some (c, [OpStop])
  else
    '(c, ops) ← read_loop (length bytes) c bytes;
    front ← head (requests_ c);
    if is_ready front || is_bad front then '(c, ops') ← process_next_request c; Some (c, ops ++ ops') else Some (c, ops).

Definition pop (c : conn) : option conn :=
  match requests_ c with [] => None | _ :: rs => Some (set_parse c (request_parser_ c) rs) end.

Definition handle_write (c : conn) (err : bool) : result :=
  if err then Some (c, [OpStop])
  else if _closeAfterResponseWritten c then c ← pop c; Some (c, [OpStop])
  else c ← pop c; process_next_request c.

(** [reply_ready]; [bucket] is what [getBucket] finds for the token of the reply. *)
Definition reply_ready (c : conn) (bucket : option nat) : result :=
  front ← head (requests_ c);
  let c :=
    if bool_decide (header_value_of (headers front) CONNECTION = CLOSE) || _closeAfterResponseWritten c
    then set_close (set_reply c (push_header (reply_ c) (CONNECTION, CLOSE))) else c in
  match bucket with
  | Some b => let c := set_reply c (set_bucket (reply_ c) (Some b)) in Some (c, [OpTbHeader (header_buffers (reply_ c))])
  | None => Some (c, [OpWrite (to_buffers (reply_ c))])
  end.

(** [try_send_next_chunk], with the bucket objects and the readings of the clock. *)
Definition try_send_next_chunk (c : conn) (bs : gmap nat TokenBucket) (now now' : Z) : option (conn * list op * gmap nat TokenBucket) :=
  if bytes_sent (reply_ c) =? blen (content (reply_ c)) then '(c, ops) ← handle_write c false; Some (c, ops, bs)
  else
    id ← token_bucket (reply_ c);
    b ← bs !! id;
    let transmissionSize := Z.min (remaining_bytes (reply_ c)) (getMaxBurst b) in
    let '(granted, b) := removeTokens b transmissionSize now now' in
    let bs := <[id := b]> bs in
    if granted : bool then chunk ← get_next_chunk (reply_ c) transmissionSize; Some (c, [OpTbChunk chunk], bs)
    else Some (c, [OpTimer DRIP_PERIOD_PERIOD_MS], bs).

Definition handle_tb_header_write (c : conn) (bs : gmap nat TokenBucket) (now now' : Z) (err : bool) : option (conn * list op * gmap nat TokenBucket) :=
  if err then Some (c, [OpStop], bs) else try_send_next_chunk c bs now now'.

Definition on_tb_wait_timeout (c : conn) (bs : gmap nat TokenBucket) (now now' : Z) : option (conn * list op * gmap nat TokenBucket) :=
  try_send_next_chunk c bs now now'.

(** [handle_tb_write]; [n] is [bytes_transferred]. *)
Definition handle_tb_write (c : conn) (bs : gmap nat TokenBucket) (now now' : Z) (err : bool) (n : Z) : option (conn * list op * gmap nat TokenBucket) :=
  if err then '(c, ops) ← handle_write c true; Some (c, ops, bs)
  else try_send_next_chunk (set_reply c (add_sent (reply_ c) n)) bs now now'.

(** ** Runs *)

(** The connection, the operations under way, the bucket objects, and what has been seen from outside:
    the bytes received, the bytes sent, the requests answered with their replies, and the replies that the request handler
    has given, with the bucket found for their token. *)
Record world := mkWorld {
  w_conn : conn; pending : list op; buckets : gmap nat TokenBucket; input : list Z; output : list Z; answered : list (request * reply);
  handed : list (reply * option nat) }.

(** A reply that is sent under a bucket starts with its first byte. *)
Definition from_start (x : reply * option nat) : Prop := x.2 <> None -> bytes_sent x.1 = 0.

(** A request is answered when the last byte of its reply has been sent. *)
Definition note (c : conn) (a : list (request * reply)) : list (request * reply) :=
  match requests_ c with f :: _ => if is_ready f then a ++ [(f, reply_ c)] else a | [] => a end.

Definition sent_all (c : conn) : bool := bytes_sent (reply_ c) =? blen (content (reply_ c)).

(** Bytes that a failed write has sent. *)
Definition partial_write (b p : list Z) (err : bool) : Prop := if err then p `prefix_of` b else p = b.

(** Completions.  A read delivers at least one byte.  The request handler gives any reply; the bucket objects are shared
    with other connections, which may change and add buckets at any time. *)
Inductive step (w : world) : world -> Prop :=
  | step_read err bytes c ops p1 p2 : pending w = p1 ++ OpRead :: p2 -> (err = false -> bytes <> []) ->
      handle_read (w_conn w) err bytes = Some (c, ops) ->
      step w (mkWorld c (p1 ++ p2 ++ ops) (buckets w) (input w ++ if err then [] else bytes) (output w) (answered w) (handed w))
  | step_handled r rep bucket c ops p1 p2 : pending w = p1 ++ OpHandle r :: p2 ->
      blen (content rep) < 2 ^ 64 -> (forall b, bucket = Some b -> is_Some (buckets w !! b)) ->
      reply_ready (set_reply (w_conn w) rep) bucket = Some (c, ops) ->
      step w (mkWorld c (p1 ++ p2 ++ ops) (buckets w) (input w) (output w) (answered w) (handed w ++ [(rep, bucket)]))
  | step_write err b p c ops p1 p2 : pending w = p1 ++ OpWrite b :: p2 -> partial_write b p err ->
      handle_write (w_conn w) err = Some (c, ops) ->
      step w (mkWorld c (p1 ++ p2 ++ ops) (buckets w) (input w) (output w ++ p) (if err then answered w else note (w_conn w) (answered w)) (handed w))
  | step_tb_header err b p now now' c ops bs p1 p2 : pending w = p1 ++ OpTbHeader b :: p2 -> partial_write b p err ->
      handle_tb_header_write (w_conn w) (buckets w) now now' err = Some (c, ops, bs) ->
      step w (mkWorld c (p1 ++ p2 ++ ops) bs (input w) (output w ++ p) (if negb err && sent_all (w_conn w) then note (w_conn w) (answered w) else answered w) (handed w))
  | step_tb_chunk err b p now now' c ops bs p1 p2 : pending w = p1 ++ OpTbChunk b :: p2 -> partial_write b p err ->
      handle_tb_write (w_conn w) (buckets w) now now' err (blen p) = Some (c, ops, bs) ->
      step w (mkWorld c (p1 ++ p2 ++ ops) bs (input w) (output w ++ p)
        (if negb err && sent_all (set_reply (w_conn w) (add_sent (reply_ (w_conn w)) (blen p))) then note (set_reply (w_conn w) (add_sent (reply_ (w_conn w)) (blen p))) (answered w) else answered w) (handed w))
  | step_timer ms now now' c ops bs p1 p2 : pending w = p1 ++ OpTimer ms :: p2 ->
      on_tb_wait_timeout (w_conn w) (buckets w) now now' = Some (c, ops, bs) ->
      step w (mkWorld c (p1 ++ p2 ++ ops) bs (input w) (output w) (if sent_all (w_conn w) then note (w_conn w) (answered w) else answered w) (handed w))
  | step_others bs : (forall b, is_Some (buckets w !! b) -> is_Some (bs !! b)) ->
      step w (mkWorld (w_conn w) (pending w) bs (input w) (output w) (answered w) (handed w)).

Definition init (rep : reply) (bs : gmap nat TokenBucket) : world := mkWorld (start rep).1 (start rep).2 bs [] [] [] [].

Definition reachable (rep : reply) (bs : gmap nat TokenBucket) (w : world) : Prop := rtc step (init rep bs) w.

(** ** The stream of requests *)

Lemma consume_flags s r c s' r' : consume s r c = Some (None, s', r') -> is_ready r' = is_ready r /\ is_bad r' = is_bad r.
Proof using Type.
  assert (Hv : forall r1 r2 x, push_value r1 x = Some r2 -> is_ready r2 = is_ready r1 /\ is_bad r2 = is_bad r1).
  { intros r1 r2 x. unfold push_value. destruct (upd_back _ _); [|done]. by intros [= <-]. }
  assert (Hn : forall r1 r2 x, push_name r1 x = Some r2 -> is_ready r2 = is_ready r1 /\ is_bad r2 = is_bad r1).
  { intros r1 r2 x. unfold push_name. destruct (upd_back _ _); [|done]. by intros [= <-]. }
  destruct s; cbn [consume]; repeat case_bool; try (by intros [= <- <-]); try done.
  all: match goal with |- context [push_value ?a ?b] => destruct (push_value a b) eqn:E; [|done] | |- context [push_name ?a ?b] => destruct (push_name a b) eqn:E; [|done] end.
  all: cbn [mbind option_bind]; intros [= <- <-]; eauto.
Qed.

Lemma consume_false s r c s' r' : consume s r c = Some (Some false, s', r') -> is_ready r' = is_ready r /\ is_bad r' = true.
Proof using Type.
  destruct s; cbn [consume]; repeat case_bool; try (by intros [= <- <-]); try done.
  all: match goal with |- context [push_value ?a ?b] => destruct (push_value a b) eqn:E; [|done] | |- context [push_name ?a ?b] => destruct (push_name a b) eqn:E; [|done] end.
  all: cbn [mbind option_bind]; done.
Qed.

(** The flags of a request that is being parsed, what is left of the input, and progress. *)
Lemma parse_flags input : forall s r res s' r' rest, parse s r input = Some (res, s', r', rest) ->
  match res with
  | None => rest = [] /\ is_ready r' = is_ready r /\ is_bad r' = is_bad r
  | Some false => is_ready r' = is_ready r /\ is_bad r' = true
  | Some true => True
  end /\ (input <> [] -> (length rest < length input)%nat).
Proof using Type.
  induction input as [|c input IH]; intros s r res s' r' rest; cbn [parse].
  - by intros [= <- <- <- <-].
  - destruct (consume s r c) as [[[[x|] s1] r1]|] eqn:E; cbn [mbind option_bind]; [| |done].
    + intros [= <- <- <- <-]. split; [|cbn; lia]. destruct x; [done|]. by apply consume_false in E.
    + intros H. destruct (consume_flags _ _ _ _ _ E) as [E1 E2]. destruct (IH _ _ _ _ _ _ H) as [Hf Hl]. rewrite <- E1, <- E2. split; [done|].
      intros _. cbn [length]. destruct input; [|specialize (Hl ltac:(done)); lia]. cbn [parse] in H. injection H as _ _ _ <-. cbn. lia.
Qed.

(** No continuation of [rest] starts with a message. *)
Definition malformed (rest : list Z) : Prop := forall t msg rest', message_ok msg -> rest ++ t <> print msg ++ rest'.

(** Feeding the parser that has read [rest] of a request. *)
Lemma parse_feed rest s back bytes : runs reset fresh_request rest s back ->
  exists res s' r' rest', parse s back bytes = Some (res, s', r', rest') /\
  match res with
  | Some true => exists msg, message_ok msg /\ rest ++ bytes = print msg ++ rest' /\ r' = denote msg
  | Some false => malformed (rest ++ bytes) /\ is_ready r' = false /\ is_bad r' = true
  | None => rest' = [] /\ runs reset fresh_request (rest ++ bytes) s' r'
  end.
Proof using Type.
  intros Hr. destruct (parse_flags rest _ _ _ _ _ _ Hr) as [(_ & Hf1 & Hf2) _].
  destruct (parse_partial uninit_major uninit_minor (rest ++ bytes) reset fresh_request []) as (res & s' & r' & rest' & Hp & Hres); [done|]. cbn [app] in Hres.
  pose proof Hp as Hp'. rewrite (parse_runs _ _ _ _ _ bytes Hr) in Hp'. exists res, s', r', rest'. split; [done|]. destruct res as [[]|].
  - exact Hres.
  - destruct (parse_flags _ _ _ _ _ _ _ Hp') as [[-> ->] _]. split; [|by rewrite Hf1]. intros t msg rest'' Hok E.
    apply (parse_result_app _ _ _ t) in Hp. rewrite E in Hp. pose proof (parse_message uninit_major uninit_minor msg rest'' Hok) as Hm. unfold reset in Hp. unfold fresh_request in Hp. congruence.
  - destruct Hres as [-> _]. split; [done|]. exact Hp.
Qed.

(** [stream bad inp done todo rest rs p]: the bytes [inp] are the messages [done], whose requests have left the queue, the
    messages [todo], whose requests are in it, and [rest]; the last request of the queue is being parsed from
    [rest], or [rest] is not the start of a message and the request is marked as bad. *)
Definition stream (bad : bool) (inp : list Z) (done todo : list message) (rest : list Z) (c : conn) : Prop :=
  Forall message_ok (done ++ todo) /\ inp = concat (map print (done ++ todo)) ++ rest /\
  exists back, requests_ c = map denote todo ++ [back] /\
  if bad then malformed rest /\ is_ready back = false /\ is_bad back = true
  else runs reset fresh_request rest (request_parser_ c) back.

(** Only the queue and the parser matter. *)
Lemma stream_ext bad inp done todo rest c c' : requests_ c' = requests_ c -> request_parser_ c' = request_parser_ c ->
  stream bad inp done todo rest c -> stream bad inp done todo rest c'.
Proof using Type. intros E1 E2 H. unfold stream in *. by rewrite E1, E2. Qed.

Lemma stream_nil c : requests_ c = [fresh_request] -> request_parser_ c = reset -> stream false [] [] [] [] c.
Proof using Type. intros E1 E2. split_and!; [constructor|done|]. exists fresh_request. rewrite E1, E2. done. Qed.

(** The message at the front has been answered. *)
Lemma stream_pop bad inp done m todo rest c : stream bad inp done (m :: todo) rest c ->
  exists c', pop c = Some c' /\ stream bad inp (done ++ [m]) todo rest c' /\ reply_ c' = reply_ c /\ _closeAfterResponseWritten c' = _closeAfterResponseWritten c.
Proof using Type.
  intros (HF & E & back & Hq & H). unfold pop. rewrite Hq. cbn [map app]. eexists. split; [done|].
  split; [|done]. unfold stream. rewrite <- app_assoc. split_and!; [done|done|]. by exists back.
Qed.

Lemma back_flags rest s back : runs reset fresh_request rest s back -> is_ready back = false /\ is_bad back = false.
Proof using Type. intros Hr. by destruct (parse_flags rest _ _ _ _ _ _ Hr) as [(_ & -> & ->) _]. Qed.

(** The front of the queue. *)
Lemma stream_front bad inp done todo rest c : stream bad inp done todo rest c -> exists front, head (requests_ c) = Some front /\
  match todo with
  | m :: _ => front = denote m
  | [] => is_ready front = false /\ is_bad front = bad
  end.
Proof using Type.
  intros (_ & _ & back & Hq & H). rewrite Hq. destruct todo as [|m todo]; [|by eexists]. exists back. split; [done|].
  destruct bad; [by destruct H as (_ & ? & ?)|by apply back_flags in H].
Qed.

Definition not_empty {A} (l : list A) : bool := match l with [] => false | _ => true end.

Lemma split_tail (rest buf p rest' : list Z) : rest ++ buf = p ++ rest' -> (length rest' <= length buf)%nat -> exists pre, buf = pre ++ rest' /\ rest ++ pre = p.
Proof using Type.
  intros E Hl. exists (take (length buf - length rest') buf). rewrite <- (take_drop (length buf - length rest') buf), app_assoc in E.
  apply app_inj_2 in E as [E1 E2]; [|rewrite length_drop; lia]. split; [|done]. rewrite <- (take_drop (length buf - length rest') buf) at 1. by rewrite E2.
Qed.

Lemma conn_read_loop_spec fuel : forall c buf inp done todo rest, (length buf <= fuel)%nat -> stream false inp done todo rest c -> buf <> [] \/ todo <> [] ->
  exists c' ops bad todo' rest', read_loop fuel c buf = Some (c', ops) /\ reply_ c' = reply_ c /\ _closeAfterResponseWritten c' = _closeAfterResponseWritten c /\
  stream bad (inp ++ buf) done todo' rest' c' /\ ops = (if bad || not_empty todo' then [] else [OpRead]).
Proof using Type.
  induction fuel as [|fuel IH]; intros c buf inp done todo rest Hf Hst Hne.
  - destruct buf; [|cbn in Hf; lia]. destruct todo as [|m todo]; [by destruct Hne|]. exists c, [], false, (m :: todo), rest. by rewrite app_nil_r.
  - destruct buf as [|x buf0]; [destruct todo as [|m todo]; [by destruct Hne|]; exists c, [], false, (m :: todo), rest; by rewrite app_nil_r|].
    cbn [read_loop]. set (buf := x :: buf0) in *. destruct Hst as (HF & E & back & Hq & Hr). rewrite Hq, last_snoc. cbn [mbind option_bind].
    destruct (parse_feed rest _ _ buf Hr) as (res & s' & r' & rest' & Hp & Hres). rewrite Hp. cbn [mbind option_bind]. rewrite removelast_last.
    destruct (parse_flags _ _ _ _ _ _ _ Hp) as [_ Hlt]. specialize (Hlt ltac:(done)). destruct res as [[]|].
    + destruct Hres as (msg & Hok & Em & ->).
      destruct (split_tail _ _ _ _ Em ltac:(lia)) as (pre & Eb & Ep). rewrite Eb, (app_assoc inp).
      apply (IH (init_new_request (set_parse c reset (map denote todo ++ [denote msg]))) rest' (inp ++ pre) done (todo ++ [msg]) []); [lia| |right; by destruct todo].
      split_and!; [rewrite app_assoc; apply Forall_app_2; [done|by constructor]| |].
      * rewrite E, (app_assoc done), (map_app print (done ++ todo)), concat_app. cbn [map concat]. rewrite !app_nil_r, <- !app_assoc. rewrite Ep. done.
      * exists fresh_request. cbn [init_new_request set_parse requests_ request_parser_]. rewrite map_app. cbn [map]. done.
    + eexists _, [], true, todo, (rest ++ buf). split; [done|]. split; [done|]. split; [done|]. split; [|done].
      split_and!; [done|by rewrite E, <- app_assoc|]. exists r'. done.
    + destruct Hres as [-> Hr']. cbn [set_parse requests_].
      assert (Hst' : stream false (inp ++ buf) done todo (rest ++ buf) (set_parse c s' (map denote todo ++ [r'])))
        by (split_and!; [done|by rewrite E, <- app_assoc|by exists r']).
      destruct (stream_front _ _ _ _ _ _ Hst') as (front & Hfr & Hfront). cbn [set_parse requests_] in Hfr. rewrite Hfr. cbn [mbind option_bind].
      destruct todo as [|m todo].
      * destruct Hfront as [-> _]. eexists _, _, false, [], _. split; [done|]. split; [done|]. split; [done|]. by split; [exact Hst'|].
      * rewrite Hfront. cbn [denote is_ready negb]. eexists _, _, false, _, _. split; [by destruct fuel|]. split; [done|]. split; [done|]. by split; [exact Hst'|].
Qed.

(** ** Replies on the wire *)

Definition wire (a : list (request * reply)) : list Z := concat (map (fun x => to_buffers x.2) a).

Lemma wire_snoc a r rep : wire (a ++ [(r, rep)]) = wire a ++ to_buffers rep.
Proof using Type. unfold wire. rewrite map_app, concat_app. cbn. by rewrite app_nil_r. Qed.

(** The reply has been sent up to its header and [bytes_sent] bytes of content, under a bucket. *)
Definition throttled (r : reply) (bs : gmap nat TokenBucket) : Prop :=
  0 <= bytes_sent r <= blen (content r) /\ blen (content r) < 2 ^ 64 /\ exists b, token_bucket r = Some b /\ is_Some (bs !! b).

Definition sent_part (r : reply) : list Z := header_buffers r ++ take (Z.to_nat (bytes_sent r)) (content r).

(** What holds while an operation is under way. *)
Definition phase (c : conn) (o : op) (bs : gmap nat TokenBucket) (out : list Z) (a : list (request * reply)) (bad : bool) (todo : list message) : Prop :=
  match o with
  | OpRead => bad = false /\ todo = [] /\ out = wire a
  | OpHandle r => (exists m todo', todo = m :: todo' /\ r = denote m) /\ out = wire a
  | OpWrite b => b = to_buffers (reply_ c) /\ out = wire a /\ (todo = [] -> bad = true /\ _closeAfterResponseWritten c = true /\ status (reply_ c) = bad_request)
  | OpTbHeader b => todo <> [] /\ b = header_buffers (reply_ c) /\ bytes_sent (reply_ c) = 0 /\ throttled (reply_ c) bs /\ out = wire a
  | OpTbChunk b => todo <> [] /\ throttled (reply_ c) bs /\ out = wire a ++ sent_part (reply_ c) /\
      b `prefix_of` drop (Z.to_nat (bytes_sent (reply_ c))) (content (reply_ c))
  | OpTimer _ => todo <> [] /\ throttled (reply_ c) bs /\ out = wire a ++ sent_part (reply_ c)
  | OpStop => False
  end.

Lemma phase_prefix c o bs out a bad todo : phase c o bs out a bad todo -> out `prefix_of` wire a ++ to_buffers (reply_ c).
Proof using Type.
  assert (Hs : forall r, sent_part r `prefix_of` to_buffers r).
  { intros r. rewrite header_buffers_content. apply prefix_app. apply prefix_take. }
  destruct o; cbn [phase]; intros H; decompose [and] H; subst; try done; try (apply prefix_app_r; reflexivity); apply prefix_app, Hs.
Qed.

(** Other connections may use the buckets. *)
Lemma phase_buckets c o bs bs' out a bad todo : (forall b, is_Some (bs !! b) -> is_Some (bs' !! b)) -> phase c o bs out a bad todo -> phase c o bs' out a bad todo.
Proof using Type.
  intros Hb. assert (Ht : forall r, throttled r bs -> throttled r bs') by (intros r (? & ? & b & ? & ?); split; [done|]; split; [done|]; exists b; auto).
  destruct o; cbn [phase]; intros H; try done; decompose [and] H; repeat (split; eauto).
Qed.

(** ** Handlers *)

Lemma process_phase bad inp done todo rest c bs out a : stream bad inp done todo rest c -> out = wire a ->
  exists c' o, process_next_request c = Some (c', [o]) /\ stream bad inp done todo rest c' /\ phase c' o bs out a bad todo.
Proof using Type.
  intros Hst Ho. destruct (stream_front _ _ _ _ _ _ Hst) as (front & Hf & Hfront). unfold process_next_request. rewrite Hf. cbn [mbind option_bind].
  destruct todo as [|m todo].
  - destruct Hfront as [Hr ->]. rewrite Hr. destruct bad.
    + eexists _, _. split; [done|]. split; [by eapply stream_ext; [..|exact Hst]|]. done.
    + eexists _, _. split; [done|]. split; [by eapply stream_ext; [..|exact Hst]|]. done.
  - subst front. cbn [denote is_bad is_ready]. eexists _, _. split; [done|]. split; [by eapply stream_ext; [..|exact Hst]|]. split; [|done]. by exists m, todo.
Qed.

Lemma handle_read_phase inp done rest c bytes bs out a : stream false inp done [] rest c -> bytes <> [] -> out = wire a ->
  exists c' o bad todo rest', handle_read c false bytes = Some (c', [o]) /\ stream bad (inp ++ bytes) done todo rest' c' /\ phase c' o bs out a bad todo.
Proof using Type.
  intros Hst Hne Ho. unfold handle_read.
  destruct (conn_read_loop_spec (length bytes) c bytes inp done [] rest (Nat.le_refl _) Hst (or_introl Hne)) as (c' & ops & bad & todo & rest' & -> & _ & _ & Hst' & ->).
  cbn [mbind option_bind]. destruct (stream_front _ _ _ _ _ _ Hst') as (front & Hf & Hfront). rewrite Hf. cbn [mbind option_bind].
  destruct (process_phase bad _ done todo rest' c' bs out a Hst' Ho) as (c2 & o & Hp & Hst2 & Hph). destruct todo as [|m todo].
  - destruct Hfront as [-> ->]. destruct bad; cbn [orb not_empty].
    + rewrite Hp. cbn [mbind option_bind app]. by exists c2, o, true, [], rest'.
    + eexists _, _, false, [], rest'. split; [done|]. split; [done|]. done.
  - subst front. cbn [denote is_ready orb]. rewrite Hp. cbn [mbind option_bind]. replace (bad || not_empty (m :: todo)) with true by (by destruct bad).
    cbn [app]. by exists c2, o, bad, (m :: todo), rest'.
Qed.

(** A reply has been written: the next request, or the end. *)
Lemma handle_write_phase bad inp done m todo rest c bs out a : stream bad inp done (m :: todo) rest c -> out = wire a ->
  exists c' o, handle_write c false = Some (c', [o]) /\
  (o = OpStop \/ stream bad inp (done ++ [m]) todo rest c' /\ phase c' o bs out a bad todo).
Proof using Type.
  intros Hst Ho. unfold handle_write. destruct (stream_pop _ _ _ _ _ _ _ Hst) as (c1 & -> & Hst1 & _ & Hcl). cbn [mbind option_bind].
  destruct (_closeAfterResponseWritten c); [by exists c1, OpStop; auto|].
  destruct (process_phase bad inp _ todo rest c1 bs out a Hst1 Ho) as (c2 & o & -> & Hst2 & Hph). exists c2, o. auto.
Qed.

Lemma note_stream bad inp done m todo rest c a : stream bad inp done (m :: todo) rest c -> note c a = a ++ [(denote m, reply_ c)].
Proof using Type. intros (_ & _ & back & Hq & _). unfold note. by rewrite Hq. Qed.

Lemma reply_ready_phase bad inp done m todo rest c bucket bs out a : stream bad inp done (m :: todo) rest c -> out = wire a ->
  blen (content (reply_ c)) < 2 ^ 64 -> (forall b, bucket = Some b -> bytes_sent (reply_ c) = 0 /\ is_Some (bs !! b)) ->
  exists c' o, reply_ready c bucket = Some (c', [o]) /\ stream bad inp done (m :: todo) rest c' /\ phase c' o bs out a bad (m :: todo).
Proof using Type.
  intros Hst Ho Hl Hb. destruct (stream_front _ _ _ _ _ _ Hst) as (front & Hf & _). unfold reply_ready. rewrite Hf. cbn [mbind option_bind].
  set (c1 := if _ || _ then _ else c).
  assert (Hc1 : requests_ c1 = requests_ c /\ request_parser_ c1 = request_parser_ c /\ content (reply_ c1) = content (reply_ c) /\ bytes_sent (reply_ c1) = bytes_sent (reply_ c))
    by (unfold c1; by case_bool). destruct Hc1 as (H1 & H2 & H3 & H4).
  destruct bucket as [b|]; (eexists _, _; split; [done|]; split; [by eapply stream_ext; [..|exact Hst]|]); [|done].
  destruct (Hb b eq_refl) as [Hz Hs]. cbn [phase set_reply reply_ set_bucket bytes_sent]. split; [done|]. split; [done|]. split; [by rewrite H4|]. split; [|done].
  unfold throttled. cbn [bytes_sent content set_bucket token_bucket]. rewrite H3, H4, Hz. split; [unfold blen; lia|]. split; [done|]. by exists b.
Qed.

Lemma sent_part_all r : bytes_sent r = blen (content r) -> sent_part r = to_buffers r.
Proof using Type.
  intros E. unfold sent_part. rewrite E, header_buffers_content. unfold blen. by rewrite Nat2Z.id, firstn_all.
Qed.

Lemma try_send_phase bad inp done m todo rest c bs now now' out a : stream bad inp done (m :: todo) rest c -> throttled (reply_ c) bs -> out = wire a ++ sent_part (reply_ c) ->
  exists c' o bs', try_send_next_chunk c bs now now' = Some (c', [o], bs') /\ (forall b, is_Some (bs !! b) -> is_Some (bs' !! b)) /\
  if sent_all c then o = OpStop \/ stream bad inp (done ++ [m]) todo rest c' /\ phase c' o bs' out (a ++ [(denote m, reply_ c)]) bad todo
  else stream bad inp done (m :: todo) rest c' /\ phase c' o bs' out a bad (m :: todo).
Proof using Type.
  intros Hst Hth Ho. unfold try_send_next_chunk, sent_all. destruct (Z.eqb_spec (bytes_sent (reply_ c)) (blen (content (reply_ c)))) as [E|E].
  - rewrite (sent_part_all _ E) in Ho.
    destruct (handle_write_phase bad inp done m todo rest c bs out (a ++ [(denote m, reply_ c)]) Hst) as (c' & o & -> & H); [by rewrite wire_snoc|].
    cbn [mbind option_bind]. exists c', o, bs. auto.
  - pose proof Hth as ([H0 H1] & H64 & id & Hid & Hb). rewrite Hid. cbn [mbind option_bind]. destruct Hb as [b Hb]. rewrite Hb. cbn [mbind option_bind].
    destruct (removeTokens b _ now now') as [granted b']. set (bs' := <[id := b']> bs).
    assert (Hbs : forall x, is_Some (bs !! x) -> is_Some (bs' !! x)) by (intros x Hx; unfold bs'; destruct (decide (id = x)) as [->|]; [rewrite lookup_insert_eq; eauto|by rewrite lookup_insert_ne]).
    assert (Hth' : throttled (reply_ c) bs') by (split; [done|]; split; [done|]; exists id; split; [done|]; unfold bs'; rewrite lookup_insert_eq; eauto).
    destruct granted.
    + unfold get_next_chunk, remaining_bytes. rewrite u64_small by (unfold is_u64; lia). set (n := Z.min _ _).
      rewrite (proj2 (Z.leb_le 0 _)) by done. rewrite (proj2 (Z.leb_le (_ + n) _)) by (unfold n; lia). cbn [andb mbind option_bind].
      eexists _, _, bs'. split; [done|]. split; [done|]. split; [done|]. split; [done|]. split; [done|]. split; [done|]. apply prefix_take.
    + eexists _, _, bs'. split; [done|]. split; [done|]. done.
Qed.

(** After a chunk has been sent. *)
Lemma add_sent_phase c bs b out a : throttled (reply_ c) bs -> out = wire a ++ sent_part (reply_ c) ->
  b `prefix_of` drop (Z.to_nat (bytes_sent (reply_ c))) (content (reply_ c)) ->
  let c' := set_reply c (add_sent (reply_ c) (blen b)) in throttled (reply_ c') bs /\ out ++ b = wire a ++ sent_part (reply_ c').
Proof using Type.
  intros ([H0 H1] & H64 & id & Hid & Hb) -> [k Hk] c'. assert (Hl : blen b <= blen (content (reply_ c)) - bytes_sent (reply_ c)).
  { apply (f_equal length) in Hk. rewrite length_drop, length_app in Hk. unfold blen in *. lia. }
  assert (Hs : bytes_sent (reply_ c') = bytes_sent (reply_ c) + blen b) by (cbn; apply u64_small; unfold is_u64, blen in *; lia).
  split.
  - split; [rewrite Hs; cbn [c' set_reply reply_ add_sent content]; unfold blen in *; lia|]. split; [done|]. by exists id.
  - rewrite <- app_assoc. f_equal. unfold sent_part. rewrite Hs. cbn [c' set_reply reply_ add_sent content]. unfold header_buffers. cbn [status rheaders add_sent].
    rewrite <- !app_assoc. do 3 f_equal. rewrite Z2Nat.inj_add by (unfold blen; lia). unfold blen. rewrite Nat2Z.id.
    rewrite <- (take_drop (Z.to_nat (bytes_sent (reply_ c))) (content (reply_ c))) at 2. rewrite Hk.
    rewrite take_app_ge by (rewrite length_take; lia). rewrite length_take. f_equal. unfold blen in *.
    replace (Z.to_nat (bytes_sent (reply_ c)) + length b - Z.to_nat (bytes_sent (reply_ c)) `min` length (content (reply_ c)))%nat with (length b) by lia.
    by rewrite take_app_length.
Qed.

(** ** The invariant *)

Definition messages_in (inp : list Z) (done todo : list message) (rest : list Z) : Prop :=
  Forall message_ok (done ++ todo) /\ inp = concat (map print (done ++ todo)) ++ rest.

Definition inv (w : world) : Prop := exists bad done todo rest o,
  pending w = [o] /\ messages_in (input w) done todo rest /\ map fst (answered w) = map denote done /\
  output w `prefix_of` wire (answered w) ++ to_buffers (reply_ (w_conn w)) /\
  (o = OpStop \/ stream bad (input w) done todo rest (w_conn w) /\ phase (w_conn w) o (buckets w) (output w) (answered w) bad todo).

Lemma inv_go bad done todo rest o w : pending w = [o] -> map fst (answered w) = map denote done ->
  stream bad (input w) done todo rest (w_conn w) -> phase (w_conn w) o (buckets w) (output w) (answered w) bad todo -> inv w.
Proof using Type.
  intros Hp Ha Hst Hph. exists bad, done, todo, rest, o. pose proof Hst as (HF & E & _). split; [done|]. split; [done|]. split; [done|].
  split; [by eapply phase_prefix|]. auto.
Qed.

Lemma inv_stop done todo rest w : pending w = [OpStop] -> messages_in (input w) done todo rest -> map fst (answered w) = map denote done ->
  output w `prefix_of` wire (answered w) ++ to_buffers (reply_ (w_conn w)) -> inv w.
Proof using Type. intros. exists false, done, todo, rest, OpStop. auto 10. Qed.

Lemma one_pending {A} (p1 p2 : list A) x o : [o] = p1 ++ x :: p2 -> p1 = [] /\ p2 = [] /\ o = x.
Proof using Type. destruct p1 as [|y p1]; cbn; [by intros [= -> <-]|]. intros [= -> E]. by destruct p1. Qed.

(** A reply has been sent completely: the world after [handle_write]. *)
Lemma inv_written bad done m todo rest c c' o bs w : stream bad (input w) done (m :: todo) rest c -> map fst (answered w) = map denote (done ++ [m]) ->
  pending w = [o] -> output w = wire (answered w) -> buckets w = bs -> w_conn w = c' ->
  (o = OpStop \/ stream bad (input w) (done ++ [m]) todo rest c' /\ phase c' o bs (output w) (answered w) bad todo) -> inv w.
Proof using Type.
  intros Hst Ha Hp Ho <- <- [-> | [Hst' Hph]]; [|by eapply inv_go].
  destruct Hst as (HF & E & _). apply (inv_stop (done ++ [m]) todo rest); [done| |done|rewrite Ho; by apply prefix_app_r].
  unfold messages_in. by rewrite <- app_assoc.
Qed.

Lemma answered_snoc (a : list (request * reply)) done m rep : map fst a = map denote done -> map fst (a ++ [(denote m, rep)]) = map denote (done ++ [m]).
Proof using Type. intros E. by rewrite !map_app, E. Qed.

(** A failed write ends the connection: only a part of the reply was sent. *)
Lemma inv_failed bad done todo rest w c p b out a : stream bad (input w) done todo rest c -> map fst a = map denote done ->
  w_conn w = c -> pending w = [OpStop] -> answered w = a -> output w = out ++ p -> p `prefix_of` b -> out ++ b `prefix_of` wire a ++ to_buffers (reply_ c) -> inv w.
Proof using Type.
  intros (HF & E & _) Ha Hc Hp Ea Eo Hpb Hout. apply (inv_stop done todo rest); [done|done|by rewrite Ea|].
  rewrite Ea, Eo, Hc. transitivity (out ++ b); [by apply prefix_app|done].
Qed.

(** Sending under a bucket, after the header or a chunk or when the timer fires. *)
Lemma inv_try_send bad done m todo rest c c' ops bs bs' now now' w : stream bad (input w) done (m :: todo) rest c -> throttled (reply_ c) bs ->
  output w = wire (answered w) ++ sent_part (reply_ c) -> map fst (answered w) = map denote done ->
  try_send_next_chunk c bs now now' = Some (c', ops, bs') ->
  inv (mkWorld c' ops bs' (input w) (output w) (if sent_all c then note c (answered w) else answered w) (handed w)).
Proof using Type.
  intros Hst Hth Ho Ha Ht. destruct (try_send_phase bad _ done m todo rest c bs now now' _ (answered w) Hst Hth Ho) as (c1 & o & bs1 & Ht1 & _ & H).
  rewrite Ht1 in Ht. injection Ht as <- <- <-. destruct (sent_all c) eqn:Es.
  - rewrite (note_stream _ _ _ _ _ _ _ _ Hst). eapply inv_written; cbn [input answered pending output buckets w_conn]; try done; [by apply answered_snoc|].
    rewrite wire_snoc, <- (sent_part_all (reply_ c)); [done|]. by apply Z.eqb_eq.
  - destruct H as [Hst' Hph]. by eapply inv_go.
Qed.

Lemma conn_inv_step w w' : inv w -> step w w' -> Forall from_start (handed w') -> inv w'.
Proof using Type.
  intros (bad & done & todo & rest & o & Hp & Hm & Ha & Hpre & Hcase) Hstep Hfresh.
  destruct Hstep as [err bytes c ops p1 p2 Hp' Hne Hh|r rep bucket c ops p1 p2 Hp' Hl Hb Hh|err b p c ops p1 p2 Hp' Hw Hh|err b p now now' c ops bs p1 p2 Hp' Hw Hh
    |err b p now now' c ops bs p1 p2 Hp' Hw Hh|ms now now' c ops bs p1 p2 Hp' Hh|bs Hbs]; [..|];
    [rewrite Hp in Hp'; apply one_pending in Hp' as (-> & -> & ->); destruct Hcase as [?|[Hst Hph]]; [done|]; cbn [app]; cbn [phase] in Hph..|].
  - destruct Hph as (-> & -> & Ho). destruct err.
    + injection Hh as <- <-. rewrite app_nil_r. by eapply (inv_stop done [] rest).
    + destruct (handle_read_phase _ done rest _ bytes (buckets w) _ _ Hst (Hne eq_refl) Ho) as (c' & o & bad & todo & rest' & Hh' & Hst' & Hph).
      rewrite Hh' in Hh. injection Hh as <- <-. by eapply inv_go.
  - destruct Hph as ((m & todo' & -> & ->) & Ho). cbn [handed] in Hfresh. apply Forall_app in Hfresh as [_ Hfresh]. apply Forall_cons in Hfresh as [Hfresh _].
    assert (Hb' : forall b, bucket = Some b -> bytes_sent rep = 0 /\ is_Some (buckets w !! b)) by (intros b ->; split; [by apply Hfresh|by apply Hb]).
    destruct (reply_ready_phase bad _ done m todo' rest (set_reply (w_conn w) rep) bucket (buckets w) _ _ (stream_ext _ _ _ _ _ _ (set_reply (w_conn w) rep) eq_refl eq_refl Hst) Ho Hl Hb')
      as (c' & o & Hh' & Hst' & Hph). rewrite Hh' in Hh. injection Hh as <- <-. by eapply inv_go.
  - destruct Hph as (-> & Ho & Hbad). destruct err.
    + injection Hh as <- <-. eapply (inv_failed bad done todo rest); try done. by rewrite Ho.
    + cbn in Hw. subst p. destruct todo as [|m todo].
      * destruct (Hbad eq_refl) as (-> & Hc & _). destruct (stream_front _ _ _ _ _ _ Hst) as (front & Hf & Hr & _). unfold handle_write in Hh. rewrite Hc in Hh. unfold pop, note in *.
        destruct (requests_ (w_conn w)) as [|f rs]; [done|]. injection Hf as ->. injection Hh as <- <-. rewrite Hr. eapply (inv_stop done [] rest); try done. cbn. by rewrite Ho.
      * destruct (handle_write_phase bad _ done m todo rest (w_conn w) (buckets w) (output w ++ to_buffers (reply_ (w_conn w))) (answered w ++ [(denote m, reply_ (w_conn w))]) Hst) as (c' & o & Hh' & H);
          [by rewrite wire_snoc, Ho|]. rewrite Hh' in Hh. injection Hh as <- <-. rewrite (note_stream _ _ _ _ _ _ _ _ Hst).
        eapply inv_written; cbn [input answered pending output buckets w_conn]; try done; [by apply answered_snoc|by rewrite wire_snoc, Ho].
  - destruct Hph as (Hne & -> & Hz & Hth & Ho). destruct err; cbn [negb andb].
    + injection Hh as <- <- <-. eapply (inv_failed bad done todo rest); try done. rewrite Ho, header_buffers_content. apply prefix_app. by apply prefix_app_r.
    + cbn in Hw. subst p. destruct todo as [|m todo]; [done|].
      apply (inv_try_send bad done m todo rest (w_conn w) c ops (buckets w) bs now now' (mkWorld c ops bs (input w) (output w ++ header_buffers (reply_ (w_conn w))) (answered w) (handed w))); try done.
      cbn. unfold sent_part. by rewrite Hz, Ho, app_nil_r.
  - destruct Hph as (Hne & Hth & Ho & Hb). destruct err; cbn [negb andb].
    + injection Hh as <- <- <-. eapply (inv_failed bad done todo rest); try done. rewrite Ho, <- app_assoc. apply prefix_app. unfold sent_part.
      rewrite header_buffers_content, <- app_assoc. apply prefix_app. destruct Hb as [k Hk]. exists k. rewrite <- app_assoc, <- Hk. by rewrite take_drop.
    + cbn in Hw. subst p. destruct todo as [|m todo]; [done|]. destruct (add_sent_phase _ _ _ _ _ Hth Ho Hb) as [Hth' Ho'].
      apply (inv_try_send bad done m todo rest (set_reply (w_conn w) (add_sent (reply_ (w_conn w)) (blen b))) c ops (buckets w) bs now now' (mkWorld c ops bs (input w) (output w ++ b) (answered w) (handed w))); try done.
  - destruct Hph as (Hne & Hth & Ho). destruct todo as [|m todo]; [done|]. by apply (inv_try_send bad done m todo rest (w_conn w) c ops (buckets w) bs now now' w).
  - destruct Hcase as [-> | [Hst Hph]]; [by eapply inv_stop|]. eapply inv_go; try done. by eapply phase_buckets.
Qed.

Lemma step_handed w w' : step w w' -> handed w `prefix_of` handed w'.
Proof using Type. destruct 1; cbn [handed]; first [done | by apply prefix_app_r]. Qed.

Lemma conn_reachable_inv rep bs w : reachable rep bs w -> Forall from_start (handed w) -> inv w.
Proof using Type.
  intros H. assert (H0 : inv (init rep bs)) by (apply (inv_go false [] [] [] OpRead); try done; by apply stream_nil).
  intros Hf. unfold reachable in H. induction H as [|x y z Hxy Hyz IH]; [done|]. apply IH; [|done]. eapply conn_inv_step; [done|done|].
  assert (Hpre : handed y `prefix_of` handed z) by (clear - Hyz; induction Hyz as [|x1 y1 z1 Hs _ IH]; [done|]; etransitivity; [by eapply step_handed|done]).
  destruct Hpre as [l Hl]. rewrite Hl in Hf. by apply Forall_app in Hf as [? _].
Qed.

(** The completion of an operation is handled without a fault. *)
Definition handled (c : conn) (bs : gmap nat TokenBucket) (o : op) : Prop :=
  match o with
  | OpRead => forall bytes, bytes <> [] -> is_Some (handle_read c false bytes)
  | OpHandle _ => forall rep bucket, is_Some (reply_ready (set_reply c rep) bucket)
  | OpWrite _ => is_Some (handle_write c false)
  | OpTbHeader _ => forall now now', is_Some (handle_tb_header_write c bs now now' false)
  | OpTbChunk b => forall now now', is_Some (handle_tb_write c bs now now' false (blen b))
  | OpTimer _ => forall now now', is_Some (on_tb_wait_timeout c bs now now')
  | OpStop => True
  end.

Lemma phase_handled bad inp done todo rest c o bs out a : stream bad inp done todo rest c -> phase c o bs out a bad todo -> handled c bs o.
Proof using Type.
  intros Hst Hph.
  assert (Hsend : forall m todo' c' now now', todo = m :: todo' -> stream bad inp done todo rest c' -> throttled (reply_ c') bs -> is_Some (try_send_next_chunk c' bs now now')).
  { intros m todo' c' now now' -> Hst' Hth. by destruct (try_send_phase bad inp done m todo' rest c' bs now now' _ [] Hst' Hth eq_refl) as (c1 & o1 & bs1 & -> & _). }
  destruct o; cbn [phase handled] in *; try done.
  - intros bytes Hne. destruct Hph as (-> & -> & Ho). by destruct (handle_read_phase _ done rest c bytes bs _ _ Hst Hne Ho) as (c' & o & bad & todo & rest' & -> & _).
  - destruct Hph as (_ & Ho & Hbad). destruct todo as [|m todo].
    + destruct (Hbad eq_refl) as (_ & Hc & _). unfold handle_write, pop. rewrite Hc. destruct Hst as (_ & _ & back & -> & _). by eexists.
    + by destruct (handle_write_phase bad inp done m todo rest c bs (wire []) [] Hst eq_refl) as (c' & o & -> & _).
  - intros rep bucket. unfold reply_ready. destruct (stream_front _ _ _ _ _ _ Hst) as (front & Hf & _). cbn [set_reply requests_]. rewrite Hf. cbn [mbind option_bind]. destruct bucket; by eexists.
  - intros now now'. destruct Hph as (Hne & _ & _ & Hth & _). destruct todo as [|m todo]; [done|]. by eapply Hsend.
  - intros now now'. destruct Hph as (Hne & Hth & Ho & Hb). destruct todo as [|m todo]; [done|]. destruct (add_sent_phase _ _ _ _ _ Hth Ho Hb) as [Hth' _].
    unfold handle_tb_write. eapply (Hsend m todo); [done| |done]. by eapply stream_ext; [..|exact Hst].
  - intros now now'. destruct Hph as (Hne & Hth & _). destruct todo as [|m todo]; [done|]. by eapply Hsend.
Qed.
End connection.

(** C23. A connection answers the requests of its input, all of them and in order, however the
    stream is cut into reads, as long as every reply that the request handler has given to be sent under a bucket had
    [bytes_sent] 0 ([from_start]; a stock reply leaves that field uninitialised, and a bucket for its empty token
    makes the connection read outside the reply, see below).  Replies that are sent without a bucket may be anything, and other
    connections may use and change the buckets.  In every reachable state then exactly one operation is under way (the last
    is the end of the connection), and its completion is handled without a fault.  The input is a sequence of messages of
    the grammar, [done] and [todo], and a rest; the requests answered so far are those of [done], and what has been
    sent is the replies to them, in order, and possibly a part of the next one.  The handler is called with the
    first request of [todo].  When the connection reads again, every message of the input has been
    answered in full, and the rest is the start of a message.  When it sends a reply of its own, the rest is
    not the start of any message, and the reply is "400 Bad Request". *)
Theorem connection_answers_in_order major minor sent rep bs w : reachable major minor sent rep bs w -> Forall from_start (handed w) ->
  exists done todo rest o, pending w = [o] /\ handled major minor sent (w_conn w) (buckets w) o /\
  Forall message_ok (done ++ todo) /\ input w = concat (map print (done ++ todo)) ++ rest /\
  map fst (answered w) = map denote done /\ output w `prefix_of` wire (answered w) ++ to_buffers (reply_ (w_conn w)) /\
  match o with
  | OpRead => todo = [] /\ completable rest /\ output w = wire (answered w)
  | OpHandle r => exists m todo', todo = m :: todo' /\ r = denote m
  | OpWrite _ => todo = [] -> malformed rest /\ status (reply_ (w_conn w)) = bad_request
  | _ => True
  end.
Proof.
  intros H Hfresh. destruct (conn_reachable_inv _ _ _ _ _ _ H Hfresh) as (bad & done & todo & rest & o & Hp & [HF E] & Ha & Hpre & Hcase). exists done, todo, rest, o.
  split; [done|]. split; [destruct Hcase as [-> | [Hst Hph]]; [done|by eapply phase_handled]|]. split; [done|]. split; [done|]. split; [done|]. split; [done|].
  destruct Hcase as [-> | [Hst Hph]]; [done|]. destruct Hst as (_ & _ & back & _ & Hb). destruct o; cbn [phase] in Hph; try done.
  - destruct Hph as (-> & -> & Ho). split; [done|]. split; [|done].
    destruct (parse_partial major minor rest reset (new_request major minor) []) as (res & s' & r' & rest' & Hpp & Hres); [done|]. unfold runs, fresh_request in Hb. rewrite Hb in Hpp.
    injection Hpp as <- <- <- <-. destruct Hres as [_ Hpart]. by apply (partial_completable major minor) in Hpart.
  - destruct Hph as (_ & _ & Hbad). intros ->. destruct (Hbad eq_refl) as (-> & _ & Hs). by destruct Hb as [Hm _].
  - by destruct Hph as [? _].
Qed.

Definition demo_reply : reply := mkReply ok [] [] [] 0 None.
Definition demo_message : message := mkMessage (text "GET") (text "/") [49] [49] [mkHdr (text "Host") (text "a") []].
Definition demo_world : world :=
  mkWorld (mkConn reset [denote demo_message; new_request 0 0] demo_reply false true) [OpHandle (denote demo_message)] ∅ (print demo_message) [] [] [].

Definition demo_world1 : world :=
  mkWorld (mkConn uri [mkRequest (text "GET") [] 0 0 [] false false] demo_reply false false) [OpRead] ∅ (take 4 (print demo_message)) [] [] [].

(** The message arrives in two reads. *)
Lemma connection_answers_in_order_witness : exists done todo rest, print demo_message = concat (map print (done ++ todo)) ++ rest /\
  exists m todo', todo = m :: todo' /\ denote demo_message = denote m.
Proof.
  assert (H1 : step 0 0 0 (init 0 0 demo_reply ∅) demo_world1).
  { apply (step_read 0 0 0 (init 0 0 demo_reply ∅) false (take 4 (print demo_message)) (w_conn demo_world1) [OpRead] [] []); [done|done|vm_compute; reflexivity]. }
  assert (H2 : step 0 0 0 demo_world1 demo_world).
  { apply (step_read 0 0 0 demo_world1 false (drop 4 (print demo_message)) (w_conn demo_world) (pending demo_world) [] []); [done|done|vm_compute; reflexivity]. }
  destruct (connection_answers_in_order 0 0 0 demo_reply ∅ demo_world) as (d & todo & rest & o & Hp & _ & _ & Hin & _ & _ & H);
    [exact (rtc_l _ _ _ _ H1 (rtc_once _ _ H2))|constructor|].
  injection Hp as <-. exists d, todo, rest. split; [exact Hin|exact H].
Defined.

(** Without the condition on the replies the connection reads outside a reply: the handler answers with a stock reply, whose
    [bytes_sent] happens to be 5, and there is a bucket for the empty token. *)
Definition stale_reply : reply := stock_reply 5 ok ([], []).
Definition stale_buckets : gmap nat TokenBucket := {[0%nat := new_bucket 1000 0]}.
Definition stale_world0 : world :=
  mkWorld (mkConn reset [denote demo_message; new_request 0 0] demo_reply false true) [OpHandle (denote demo_message)] stale_buckets (print demo_message) [] [] [].
Definition stale_world : world :=
  mkWorld (mkConn reset [denote demo_message; new_request 0 0] (set_bucket stale_reply (Some 0%nat)) false true) [OpTbHeader (header_buffers stale_reply)]
    stale_buckets (print demo_message) [] [] [(stale_reply, Some 0%nat)].

Lemma stale_reply_out_of_bounds : reachable 0 0 0 demo_reply stale_buckets stale_world /\
  handle_tb_header_write 0 (w_conn stale_world) (buckets stale_world) 1 1 false = None.
Proof.
  split; [|vm_compute; reflexivity]. apply (rtc_l _ _ stale_world0).
  - apply (step_read 0 0 0 (init 0 0 demo_reply stale_buckets) false (print demo_message) (w_conn stale_world0) (pending stale_world0) [] []); [done|done|vm_compute; reflexivity].
  - apply rtc_once. apply (step_handled 0 0 0 stale_world0 (denote demo_message) stale_reply (Some 0%nat) (w_conn stale_world) (pending stale_world) [] []); [done|done| |reflexivity].
    intros b [= <-]. by eexists.
Qed.
