(* ===== verification/HttpThrottle.v ===== *)
(** * HttpThrottle: sending a reply under a token bucket ends

    The handlers of [HttpConn] that send a reply in chunks ([try_send_next_chunk],
    [handle_tb_header_write], [handle_tb_write], [on_tb_wait_timeout] of
    [src/aperture/aperture/connection.cpp]) with the bucket of [TokenBucket], for a client
    that takes what is sent.  The bucket of a capability is shared by all connections that send replies under it: between two
    handlers of the connection the others may call [removeTokens] any number of times. *)
From S2P Require Import Prelude HttpParser HttpReply TokenBucket HttpConn.
From stdpp Require Import list gmap.
#[local] Open Scope Z_scope.

(** ** What the bucket gains *)

(** The largest rate of a bucket: an [int] bandwidth divided by 1000. *)
Definition MAX_RATE : Z := 2147483.
(** Clock readings stay below 2^60 nanoseconds (36 years). *)
Definition CLOCK_END : Z := 2 ^ 60.

Lemma drip_gain b now now' : bucket_ok b -> _maxBurst b < 2 ^ 31 -> _tokensPerMS b <= MAX_RATE -> 0 <= _lastDrip b <= now -> now < CLOCK_END ->
  _tokens b <= _tokens (drip b now now').2 /\
  (_tokens b < _maxBurst b -> MS <= now - _lastDrip b -> _tokens b < _tokens (drip b now now').2).
Proof.
  intros (Ht & _ & Hr) Hm Hmr Hl Hn. unfold drip, MAX_RATE, CLOCK_END, MS in *. set (d := now - _lastDrip b). rewrite Z.quot_div_nonneg by lia.
  assert (Hq : 0 <= d / 1000000 <= 1152921504606) by (unfold d; dlia).
  destruct (Z.leb_spec (d / 1000000) 0) as [Hz|Hz]; cbn [snd]; [split; [lia|intros _ Hd; unfold d in *; dlia]|].
  cbn [_tokens]. assert (Hp : 1 <= _tokensPerMS b * (d / 1000000) <= 2147483 * 1152921504606) by nia.
  rewrite i64_small by (unfold is_i64; lia). rewrite (u64_small (_ * _)) by (unfold is_u64; lia). rewrite u64_small by (unfold is_u64; lia). lia.
Qed.

(** Calls by others: what they were granted is missing, and when enough time passes either one of them or the next [drip]
    adds a token. *)
Lemma calls_gain cs : forall b t e, bucket_ok b -> _maxBurst b < 2 ^ 31 -> _tokensPerMS b <= MAX_RATE -> 0 <= _lastDrip b <= t -> clocked t cs e -> e < CLOCK_END ->
  let '(g, b') := calls b cs in
  _tokens b - g <= _tokens b' /\ 0 <= g /\
  (_tokens b < _maxBurst b -> _tokens b - g < _tokens b' \/ _lastDrip b' = _lastDrip b /\ _tokens b' < _maxBurst b).
Proof.
  induction cs as [|c cs IH]; intros b t e Hok Hm Hr Hl Hcl He; cbn [calls]; [lia|]. destruct Hcl as (Hn & [Ht Hle] & Hcl).
  assert (Hce : now2 c <= e) by (clear - Hcl; revert Hcl; generalize (now2 c); induction cs as [|d cs IH]; cbn; intros x; [lia|]; intros (_ & ? & H%IH); lia).
  destruct (drip_gain b (now1 c) (now2 c) Hok Hm Hr ltac:(lia) ltac:(lia)) as [Hg _]. pose proof (drip_spec b _ _ Hok Hle) as (_ & _ & _ & Hd).
  pose proof (removeTokens_spec b (amount c) _ _ Hok Hn Hle) as Hsp. pose proof (lastDrip_le b (amount c) _ _ Hok Hn Hle ltac:(lia)) as Hl'.
  assert (Hst : (drip b (now1 c) (now2 c)).2 = b \/ (_tokens b < _maxBurst b -> _tokens b < _tokens (drip b (now1 c) (now2 c)).2)).
  { destruct Hd as [[-> _]|(_ & Hms & _)]; [by left|right]. intros Hlt. by apply drip_gain; try lia. }
  assert (Hld : 0 <= _lastDrip (drip b (now1 c) (now2 c)).2) by (destruct Hd as [[-> _]|(-> & _)]; lia).
  destruct (removeTokens b (amount c) (now1 c) (now2 c)) as [ok b1]. destruct Hsp as (Hok1 & Hm1 & Hr1 & Hl1 & Ht1 & _). cbn [snd] in Hl'.
  specialize (IH b1 (now2 c) e Hok1 ltac:(lia) ltac:(lia) ltac:(lia) Hcl He). destruct (calls b1 cs) as [g b']. destruct IH as (H1 & H2 & H3).
  set (x := if ok : bool then amount c else 0) in *. assert (0 <= x) by (unfold x; destruct ok; lia). split; [lia|]. split; [lia|]. intros Hlt.
  destruct Hst as [Hst|Hst]; [|specialize (Hst Hlt); left; lia]. rewrite Hst in Ht1, Hl1. rewrite Hm1 in H3. destruct (H3 ltac:(lia)) as [H3'|[H3' H4]]; [left; lia|].
  right. split; [congruence|lia].
Qed.

(** ** Runs *)

Section throttle.
Context (sent0 : Z).
#[local] Notation try_send := (try_send_next_chunk sent0).

Definition throttle_op (o : op) : bool := match o with OpTbHeader _ | OpTbChunk _ | OpTimer _ => true | _ => false end.

(** The bytes an operation sends, and how long it takes at least. *)
Definition sent_by (o : op) : list Z := match o with OpTbHeader b | OpTbChunk b => b | _ => [] end.
Definition wait (o : op) : Z := match o with OpTimer ms => ms * MS | _ => 0 end.

Definition complete (o : op) (c : conn) (bs : gmap nat TokenBucket) (now now' : Z) : option (conn * list op * gmap nat TokenBucket) :=
  match o with
  | OpTbHeader _ => handle_tb_header_write sent0 c bs now now' false
  | OpTbChunk b => handle_tb_write sent0 c bs now now' false (blen b)
  | OpTimer _ => on_tb_wait_timeout sent0 c bs now now'
  | _ => None
  end.

(** Between [t] and [e] other connections call [removeTokens] of the bucket of the reply, and are granted [taken] tokens; they may
    change the other buckets. *)
Definition interfere (c : conn) (bs bs' : gmap nat TokenBucket) (t e taken : Z) : Prop :=
  exists id b cs, token_bucket (reply_ c) = Some id /\ bs !! id = Some b /\ clocked t cs e /\ calls b cs = (taken, default b (bs' !! id)) /\ is_Some (bs' !! id).

(** [n] completions, from the operation [o] started at time [t]; the tokens that others were granted meanwhile; the bytes that the completions sent. *)
Inductive transfer : nat -> Z -> op -> conn -> gmap nat TokenBucket -> Z -> list Z -> op -> conn -> gmap nat TokenBucket -> Z -> Prop :=
  | transfer_0 o c bs t : transfer 0 0 o c bs t [] o c bs t
  | transfer_S n o c bs t bs0 e g now now' c1 o1 bs1 taken out o2 c2 bs2 t2 : throttle_op o = true ->
      interfere c bs bs0 t e g -> e <= now -> t + wait o <= now <= now' -> now' < CLOCK_END -> complete o c bs0 now now' = Some (c1, [o1], bs1) ->
      transfer n taken o1 c1 bs1 now' out o2 c2 bs2 t2 -> transfer (S n) (g + taken) o c bs t (sent_by o ++ out) o2 c2 bs2 t2.

Context (content0 : list Z) (id : nat) (M : Z).
#[local] Notation len := (blen content0).

(** The bytes of content sent or being sent. *)
Definition underway (o : op) (r : reply) : Z := match o with OpTbChunk b => bytes_sent r + blen b | _ => bytes_sent r end.

(** The state during a transfer: [b] is the bucket. *)
Definition sending (o : op) (c : conn) (bs : gmap nat TokenBucket) (t : Z) (b : TokenBucket) : Prop :=
  throttle_op o = true /\ content (reply_ c) = content0 /\ token_bucket (reply_ c) = Some id /\ bs !! id = Some b /\
  bucket_ok b /\ _maxBurst b = M /\ 1 <= M < 2 ^ 31 /\ _tokensPerMS b <= MAX_RATE /\ 0 <= _lastDrip b <= t /\ len < 2 ^ 63 /\
  (2 <= length (requests_ c))%nat /\ 0 <= bytes_sent (reply_ c) <= len /\
  match o with
  | OpTbHeader _ => bytes_sent (reply_ c) = 0
  | OpTbChunk ch => ch `prefix_of` drop (Z.to_nat (bytes_sent (reply_ c))) content0
  | OpTimer ms => ms = DRIP_PERIOD_PERIOD_MS /\ bytes_sent (reply_ c) < len /\ _tokens b < M
  | _ => False
  end.

(** The measure: the bytes that are not yet under way, and the tokens that are missing. *)
Definition measure (o : op) (c : conn) (b : TokenBucket) : Z :=
  3 * (len - underway o (reply_ c)) + (M - _tokens b) + match o with OpTimer _ => 0 | _ => 1 end.

Lemma underway_le o c bs t b : sending o c bs t b -> 0 <= underway o (reply_ c) <= len.
Proof using Type.
  intros (Hop & _ & _ & _ & _ & _ & _ & _ & _ & _ & _ & Hs & Ho). destruct o; try done; cbn [underway]; [].
  destruct Ho as [k Hk]. apply (f_equal length) in Hk. rewrite length_drop, length_app in Hk. unfold blen in *. lia.
Qed.

Lemma handle_write_throttle c : (2 <= length (requests_ c))%nat -> forall c' ops, handle_write sent0 c false = Some (c', ops) -> exists o, ops = [o] /\ throttle_op o = false.
Proof using Type.
  intros Hne c' ops. unfold handle_write, pop. destruct (requests_ c) as [|f rs]; [cbn in Hne; lia|].
  destruct (_closeAfterResponseWritten c); cbn [mbind option_bind]; [intros [= <- <-]; by exists OpStop|].
  unfold process_next_request. destruct (head _); cbn [mbind option_bind]; [|done]. repeat case_bool; intros [= <- <-]; by eexists.
Qed.

(** One attempt to send, from a connection whose reply has been sent up to [bytes_sent]. *)
Lemma try_send_measure c bs b now now' c1 o1 bs1 :
  content (reply_ c) = content0 -> token_bucket (reply_ c) = Some id -> bs !! id = Some b -> bucket_ok b -> _maxBurst b = M -> 1 <= M < 2 ^ 31 ->
  _tokensPerMS b <= MAX_RATE -> 0 <= _lastDrip b <= now -> now <= now' < CLOCK_END -> len < 2 ^ 63 -> (2 <= length (requests_ c))%nat -> 0 <= bytes_sent (reply_ c) <= len ->
  try_send c bs now now' = Some (c1, [o1], bs1) ->
  throttle_op o1 = false /\ bytes_sent (reply_ c) = len \/
  bytes_sent (reply_ c) < len /\ exists b1, sending o1 c1 bs1 now' b1 /\ reply_ c1 = reply_ c /\
  (_tokens b <= _tokens (drip b now now').2) /\
  measure o1 c1 b1 = 3 * (len - underway o1 (reply_ c1)) + (M - _tokens (drip b now now').2) + (underway o1 (reply_ c1) - bytes_sent (reply_ c)) + match o1 with OpTimer _ => 0 | _ => 1 end /\
  match o1 with OpTimer _ => underway o1 (reply_ c1) = bytes_sent (reply_ c) | OpTbChunk _ => bytes_sent (reply_ c) < underway o1 (reply_ c1) | _ => False end.
Proof using Type.
  intros Hc Hid Hb Hok HM HM1 Hr Hl Hn Hlen Hrq Hs. unfold try_send_next_chunk. rewrite Hc.
  destruct (Z.eqb_spec (bytes_sent (reply_ c)) len) as [E|E].
  - intros H. left. split; [|done]. destruct (handle_write sent0 c false) as [[c' ops]|] eqn:Eh; cbn [mbind option_bind] in H; [|done]. injection H as <- -> <-.
    destruct (handle_write_throttle c Hrq _ _ Eh) as (o & [= ->] & Ho). done.
  - rewrite Hid. cbn [mbind option_bind]. rewrite Hb. cbn [mbind option_bind]. unfold remaining_bytes, getMaxBurst. rewrite Hc, HM.
    rewrite u64_small by (unfold is_u64; lia). set (n := Z.min (len - bytes_sent (reply_ c)) M).
    destruct (drip_gain b now now' Hok ltac:(lia) Hr Hl ltac:(lia)) as [Hg _].
    destruct (drip_spec b now now' Hok ltac:(lia)) as (Hdok & Hdm & Hdr & Hdl).
    pose proof (removeTokens_spec b n now now' Hok ltac:(lia) ltac:(lia)) as Hsp. pose proof (lastDrip_le b n now now' Hok ltac:(lia) ltac:(lia) ltac:(lia)) as Hld.
    destruct (removeTokens b n now now') as [granted b1]. destruct Hsp as (Hok1 & Hm1 & Hr1 & Hl1 & Ht1 & Hgr). cbn [snd] in Hld.
    assert (Hl0 : 0 <= _lastDrip b1) by (rewrite Hl1; destruct Hdl as [[-> _]|(-> & _)]; lia).
    intros H. right. split; [lia|]. exists b1. destruct granted.
    + unfold get_next_chunk, remaining_bytes in H. rewrite Hc, u64_small in H by (unfold is_u64; lia). replace (Z.min n (len - bytes_sent (reply_ c))) with n in H by lia.
      rewrite (proj2 (Z.leb_le 0 _)) in H by lia. rewrite (proj2 (Z.leb_le (_ + n) _)) in H by lia. cbn [andb mbind option_bind] in H. injection H as <- <- <-.
      assert (Hn' : blen (take (Z.to_nat n) (drop (Z.to_nat (bytes_sent (reply_ c))) content0)) = n).
      { unfold blen in *. rewrite length_take, length_drop. lia. }
      unfold sending, measure. cbn [underway throttle_op]. rewrite Hn', lookup_insert_eq. split.
      { repeat (split; [done || (unfold blen in *; lia)|]). apply prefix_take. }
      repeat (split; [done || lia|]). lia.
    + injection H as <- <- <-. assert (~ n <= _tokens (drip b now now').2) by (intros Hc'; apply Hgr in Hc'; done).
      unfold sending, measure. cbn [underway throttle_op]. rewrite lookup_insert_eq. split.
      { repeat (split; [done || (unfold blen in *; lia)|]). lia. }
      repeat (split; [done || lia|]). lia.
Qed.

Definition header_of (o : op) : list Z := match o with OpTbHeader h => h | _ => [] end.

(** The bucket that the connection finds. *)
Lemma interfere_sending o c bs t b bs0 e g now now' : sending o c bs t b -> interfere c bs bs0 t e g -> e <= now -> t + wait o <= now -> now <= now' < CLOCK_END ->
  exists b0, bs0 !! id = Some b0 /\ bucket_ok b0 /\ _maxBurst b0 = M /\ _tokensPerMS b0 <= MAX_RATE /\ 0 <= _lastDrip b0 <= now /\ 0 <= g /\
  _tokens b - g <= _tokens (drip b0 now now').2 /\ (0 < wait o -> _tokens b - g < _tokens (drip b0 now now').2).
Proof using Type.
  intros (Hop & _ & Hid & Hb & Hok & HM & HM1 & Hr & Hl & _ & _ & _ & Ho) (id' & b' & cs & Hid' & Hb' & Hcl & Hcs & [b0 Hb0]) He Hw Hn.
  rewrite Hid in Hid'. injection Hid' as <-. rewrite Hb in Hb'. injection Hb' as <-. rewrite Hb0 in Hcs. change (default b (Some b0)) with b0 in Hcs.
  pose proof (calls_ok b cs t e Hok ltac:(lia) Hcl) as (Hok0 & Hl0 & Hm0 & Hr0). pose proof (calls_lastDrip_ge b cs t e Hok ltac:(lia) Hcl) as Hge.
  pose proof (calls_gain cs b t e Hok ltac:(lia) Hr Hl Hcl ltac:(lia)) as Hg. rewrite Hcs in *. cbn [snd] in *. destruct Hg as (Hg1 & Hg2 & Hg3).
  destruct (drip_gain b0 now now' Hok0 ltac:(lia) ltac:(lia) ltac:(lia) ltac:(lia)) as [Hd1 Hd2].
  exists b0. repeat (split; [done || lia|]). intros Hpos. destruct o as [|?|?|h|ch|ms|]; cbn [wait] in *; try lia. destruct Ho as (-> & _ & Htk).
  destruct (Hg3 ltac:(lia)) as [?|[E ?]]; [lia|]. specialize (Hd2 ltac:(lia) ltac:(unfold MS, DRIP_PERIOD_PERIOD_MS in *; lia)). unfold DRIP_PERIOD_PERIOD_MS in *. lia.
Qed.

(** Each completion lowers the measure, but for the tokens that others took, until the reply has been sent. *)
Lemma complete_measure o c bs t b bs0 e g now now' c1 o1 bs1 : sending o c bs t b -> interfere c bs bs0 t e g -> e <= now -> t + wait o <= now <= now' -> now' < CLOCK_END ->
  complete o c bs0 now now' = Some (c1, [o1], bs1) ->
  throttle_op o1 = false /\ underway o (reply_ c) = len \/
  exists b1, sending o1 c1 bs1 now' b1 /\ header_of o1 = [] /\ bytes_sent (reply_ c1) = underway o (reply_ c) /\ measure o1 c1 b1 < measure o c b + g.
Proof using Type.
  intros Hsd Hint He Hn Hend Hc. pose proof (underway_le _ _ _ _ _ Hsd) as Hu.
  destruct (interfere_sending _ _ _ _ _ _ _ _ now now' Hsd Hint He ltac:(lia) ltac:(lia)) as (b0 & Hb0 & Hok0 & HM0 & Hr0 & Hl0 & Hg0 & Hg & Hgt).
  destruct Hsd as (Hop & Hct & Hid & Hb & Hok & HM & HM1 & Hr & Hl & Hlen & Hrq & Hs & Ho).
  destruct o as [|?|?|h|ch|ms|]; try done; cbn [complete wait underway] in *.
  - destruct (try_send_measure c bs0 b0 now now' c1 o1 bs1 Hct Hid Hb0 Hok0 HM0 HM1 Hr0 ltac:(lia) ltac:(lia) Hlen Hrq Hs Hc) as [?|(Hlt & b1 & Hsd & Hrep & _ & Hm & Hu1)]; [by left|right].
    exists b1. split; [done|]. split; [by destruct o1|]. split; [by rewrite Hrep|]. rewrite Hm. unfold measure. cbn [underway]. rewrite Hrep in *. destruct o1; lia.
  - set (c0 := set_reply c (add_sent (reply_ c) (blen ch))) in *. assert (Hs0 : bytes_sent (reply_ c0) = bytes_sent (reply_ c) + blen ch) by (cbn; apply u64_small; unfold is_u64, blen in *; lia).
    destruct (try_send_measure c0 bs0 b0 now now' c1 o1 bs1 Hct Hid Hb0 Hok0 HM0 HM1 Hr0 ltac:(lia) ltac:(lia) Hlen Hrq ltac:(lia) Hc) as [[? ?]|(Hlt & b1 & Hsd & Hrep & _ & Hm & Hu1)]; [left; split; [done|lia]|right].
    exists b1. split; [done|]. split; [by destruct o1|]. split; [by rewrite Hrep|]. rewrite Hm. unfold measure. cbn [underway]. rewrite Hrep in *. destruct o1; lia.
  - destruct Ho as (-> & Hlt0 & Htk). specialize (Hgt ltac:(unfold MS, DRIP_PERIOD_PERIOD_MS; lia)).
    destruct (try_send_measure c bs0 b0 now now' c1 o1 bs1 Hct Hid Hb0 Hok0 HM0 HM1 Hr0 ltac:(lia) ltac:(lia) Hlen Hrq Hs Hc) as [[? ?]|(Hlt & b1 & Hsd & Hrep & _ & Hm & Hu1)]; [lia|right].
    exists b1. split; [done|]. split; [by destruct o1|]. split; [by rewrite Hrep|]. rewrite Hm. unfold measure. cbn [underway]. rewrite Hrep in *. destruct o1; lia.
Qed.

(** What a completion sends: the header, and the content up to [underway]. *)
Lemma sent_by_drop o c bs t b : sending o c bs t b ->
  header_of o ++ drop (Z.to_nat (bytes_sent (reply_ c))) content0 = sent_by o ++ drop (Z.to_nat (underway o (reply_ c))) content0.
Proof using Type.
  intros (Hop & _ & _ & _ & _ & _ & _ & _ & _ & _ & _ & Hs & Ho). destruct o as [|?|?|h|ch|ms|]; try done; cbn [underway header_of sent_by app].
  destruct Ho as [k Hk]. rewrite Z2Nat.inj_add by (unfold blen; lia). unfold blen in *. rewrite Nat2Z.id, <- drop_drop, Hk, drop_app_length. done.
Qed.

(** A transfer: how many completions there can be, and what has been sent when it ends. *)
Lemma transfer_spec n taken o c bs t out o2 c2 bs2 t2 : transfer n taken o c bs t out o2 c2 bs2 t2 -> forall b, sending o c bs t b ->
  (throttle_op o2 = true -> Z.of_nat n <= measure o c b + taken /\ exists b2, sending o2 c2 bs2 t2 b2) /\ out `prefix_of` header_of o ++ drop (Z.to_nat (bytes_sent (reply_ c))) content0 /\
  (throttle_op o2 = false -> out = header_of o ++ drop (Z.to_nat (bytes_sent (reply_ c))) content0).
Proof using Type.
  induction 1 as [o c bs t|n o c bs t bs0 e g now now' c1 o1 bs1 taken out o2 c2 bs2 t2 Hop Hint He Hn Hend Hc Htr IH]; intros b Hsd.
  - pose proof (underway_le _ _ _ _ _ Hsd). pose proof Hsd as (Hop & _ & _ & _ & (Hok & _) & HM & _). split; [|split; [apply prefix_nil|congruence]].
    intros _. split; [|by exists b]. unfold measure. destruct o; lia.
  - rewrite (sent_by_drop _ _ _ _ _ Hsd). pose proof (underway_le _ _ _ _ _ Hsd) as Hu.
    destruct (complete_measure _ _ _ _ _ _ _ _ _ _ _ _ _ Hsd Hint He Hn Hend Hc) as [[Hf Hl]|(b1 & Hsd1 & Hh & Hs1 & Hm)].
    + inversion Htr; subst; [|congruence]. rewrite Hl, (drop_ge content0) by (unfold blen; lia). split; [congruence|]. done.
    + destruct (IH b1 Hsd1) as (H1 & H2 & H3). rewrite Hh, Hs1 in H2, H3. split; [intros E; destruct (H1 E); split; [lia|done]|].
      split; [by apply prefix_app|]. intros E. by rewrite (H3 E).
Qed.

(** While the transfer goes on, its next completion is handled. *)
Lemma try_send_total c bs b now now' : content (reply_ c) = content0 -> token_bucket (reply_ c) = Some id -> bs !! id = Some b -> len < 2 ^ 63 ->
  (2 <= length (requests_ c))%nat -> 0 <= bytes_sent (reply_ c) <= len -> exists c1 o1 bs1, try_send c bs now now' = Some (c1, [o1], bs1).
Proof using Type.
  intros Hc Hid Hb Hlen Hrq Hs. unfold try_send_next_chunk. rewrite Hc. destruct (Z.eqb_spec (bytes_sent (reply_ c)) len) as [E|E].
  - unfold handle_write, pop. destruct (requests_ c) as [|f [|f2 rs]] eqn:Eq; cbn [length] in Hrq; [lia|lia|]. destruct (_closeAfterResponseWritten c); cbn [mbind option_bind]; [by eexists _, _, _|].
    unfold process_next_request. cbn [set_parse requests_ head mbind option_bind]. repeat case_bool; by eexists _, _, _.
  - rewrite Hid. cbn [mbind option_bind]. rewrite Hb. cbn [mbind option_bind]. destruct (removeTokens b _ now now') as [[] b1]; [|by eexists _, _, _].
    unfold get_next_chunk, remaining_bytes. rewrite Hc, u64_small by (unfold is_u64; lia). set (n := Z.min _ _). rewrite (proj2 (Z.leb_le 0 _)) by lia.
    rewrite (proj2 (Z.leb_le (_ + n) _)) by lia. by eexists _, _, _.
Qed.

Lemma complete_total o c bs t b bs' now now' : sending o c bs t b -> is_Some (bs' !! id) -> exists c1 o1 bs1, complete o c bs' now now' = Some (c1, [o1], bs1).
Proof using Type.
  intros Hsd [b' Hb]. pose proof (underway_le _ _ _ _ _ Hsd) as Hu. destruct Hsd as (Hop & Hct & Hid & _ & _ & _ & _ & _ & _ & Hlen & Hrq & Hs & _).
  destruct o as [|?|?|h|ch|ms|]; try done; cbn [complete underway] in *; [by eapply try_send_total| |by eapply try_send_total].
  eapply try_send_total; try done. cbn. rewrite u64_small; [lia|]. unfold is_u64, blen in *. lia.
Qed.
End throttle.

(** C27. A throttled reply is sent completely, in a number of steps that is bounded by its length, the burst and what other
    connections take from the bucket.  Take a bucket made with the
    positive bandwidth [bandwidth] and used before in any way, and a connection that has begun to send the header of a reply under
    it.  Other connections share the bucket: between any two handlers of this one they may call [removeTokens] any number of times,
    and [taken] is the number of tokens they have been granted during the transfer.  If every write succeeds and every retry comes
    at least 15 ms after its timer was set, then after any number
    [n] of completions: either the reply has been sent, and the bytes sent are its header and its
    content; or the next completion is handled whatever the others do to the bucket, [n] is at most three times the length of the content plus the burst plus
    one plus [taken], and what has been sent is a prefix of the reply.  So a transfer that is alone on its bucket ends within
    3 * length + burst + 1 completions, and each further one is paid for by a token that another connection was granted. *)
Theorem throttled_reply_completes sent0 bandwidth t0 before t c bs id h n taken out o2 c2 bs2 t2 :
  1 <= bandwidth < 2 ^ 31 -> 0 <= t0 -> clocked t0 before t ->
  token_bucket (reply_ c) = Some id -> bs !! id = Some (calls (new_bucket bandwidth t0) before).2 ->
  bytes_sent (reply_ c) = 0 -> blen (content (reply_ c)) < 2 ^ 63 -> (2 <= length (requests_ c))%nat -> h = header_buffers (reply_ c) ->
  transfer sent0 n taken (OpTbHeader h) c bs t out o2 c2 bs2 t2 ->
  throttle_op o2 = false /\ out = to_buffers (reply_ c) \/
  throttle_op o2 = true /\ Z.of_nat n <= 3 * blen (content (reply_ c)) + bandwidth + 1 + taken /\ out `prefix_of` to_buffers (reply_ c) /\
  forall bs' now now', is_Some (bs' !! id) -> is_Some (complete sent0 o2 c2 bs' now now').
Proof.
  intros Hbw Ht0 Hbef Hid Hb Hs Hlen Hrq -> Htr.
  assert (Hok : bucket_ok (new_bucket bandwidth t0)) by (apply new_bucket_ok; unfold is_i32; lia).
  destruct (calls_ok _ before t0 t Hok (Z.le_refl t0) Hbef) as (Hok' & Hl & Hm & Hr).
  assert (Hl0 : 0 <= _lastDrip (calls (new_bucket bandwidth t0) before).2) by (apply calls_lastDrip_ge with t0 t; [done|cbn; lia|done]).
  set (b := (calls (new_bucket bandwidth t0) before).2) in *. unfold new_bucket in Hm, Hr. cbn [_maxBurst _tokensPerMS] in Hm, Hr.
  rewrite u64_small in Hm by (unfold is_u64; lia). rewrite Z.quot_div_nonneg in Hr by lia.
  assert (Hsd : sending (content (reply_ c)) id bandwidth (OpTbHeader (header_buffers (reply_ c))) c bs t b).
  { assert (Hrt : _tokensPerMS b <= MAX_RATE) by (rewrite Hr; unfold MAX_RATE; case_bool; zbool; [lia|dlia]).
    unfold sending. repeat (split; [done || (unfold blen in *; lia)|]). done. }
  destruct (transfer_spec sent0 _ id bandwidth _ _ _ _ _ _ _ _ _ _ _ Htr b Hsd) as (H1 & H2 & H3). cbn [header_of] in H2, H3. rewrite Hs in H2, H3. rewrite header_buffers_content.
  destruct (throttle_op o2).
  - right. destruct (H1 eq_refl) as [Hn (b2 & Hsd2)]. split; [done|]. split; [|split; [done|]].
    + unfold measure in Hn. cbn [underway] in Hn. destruct Hok' as [Hok' _]. lia.
    + intros bs' now now' Hbs'. destruct (complete_total sent0 _ id bandwidth _ _ _ _ _ bs' now now' Hsd2 Hbs') as (c1 & o1 & bs1 & ->). done.
  - left. split; [done|]. by apply H3.
Qed.

(** A reply of three bytes under a bandwidth of two: a chunk; another connection takes the token that the first retry needs; a
    second retry, the rest, and the next read. *)
Definition demo_sent (n : Z) : conn :=
  mkConn reset [denote demo_message; new_request 0 0] (mkReply ok [] [1; 2; 3] [] n (Some 0%nat)) false true.
Definition demo_throttled : conn := demo_sent 0.
Definition demo_next : conn := mkConn reset [new_request 0 0] (mkReply ok [] [1; 2; 3] [] 3 (Some 0%nat)) false false.
Definition demo_buckets (tokens last : Z) : gmap nat TokenBucket := {[0%nat := mkBucket 2 tokens last 1]}.

Lemma interfere_none n bs t b : bs !! 0%nat = Some b -> interfere (demo_sent n) bs bs t t 0.
Proof. intros Hb. exists 0%nat, b, []. rewrite Hb. split; [done|]. split; [done|]. split; [done|]. split; [done|by eexists]. Qed.

Lemma demo_transfer : transfer 0 5 2 (OpTbHeader (header_buffers (reply_ demo_throttled))) demo_throttled {[0%nat := new_bucket 2 0]} 0
  (to_buffers (reply_ demo_throttled)) OpRead demo_next (demo_buckets 1 30000003) 30000003.
Proof.
  replace (to_buffers (reply_ demo_throttled)) with (header_buffers (reply_ demo_throttled) ++ [1; 2] ++ [] ++ [] ++ [3] ++ []) by reflexivity.
  apply (transfer_S 0 4 (OpTbHeader (header_buffers (reply_ demo_throttled))) demo_throttled _ 0 {[0%nat := new_bucket 2 0]} 0 0 1 1 demo_throttled (OpTbChunk [1; 2]) (demo_buckets 0 0) 2); [done|by eapply interfere_none|lia|cbn; lia|done|vm_compute; reflexivity|].
  apply (transfer_S 0 3 (OpTbChunk [1; 2]) demo_throttled _ 1 (demo_buckets 0 0) 1 0 2 2 (demo_sent 2) (OpTimer 15) (demo_buckets 0 0) 2); [done|by eapply interfere_none|lia|cbn; lia|done|vm_compute; reflexivity|].
  apply (transfer_S 0 2 (OpTimer 15) (demo_sent 2) _ 2 (demo_buckets 0 15000002) 15000002 2 15000003 15000003 (demo_sent 2) (OpTimer 15) (demo_buckets 0 15000002) 0);
    [done|exists 0%nat, (mkBucket 2 0 0 1), [mkCall 2 15000002 15000002]|lia|unfold wait, MS; lia|done|vm_compute; reflexivity|].
  { split; [done|]. split; [done|]. split; [cbn; lia|]. split; [vm_compute; reflexivity|by eexists]. }
  apply (transfer_S 0 1 (OpTimer 15) (demo_sent 2) _ 15000003 (demo_buckets 0 15000002) 15000003 0 30000003 30000003 (demo_sent 2) (OpTbChunk [3]) (demo_buckets 1 30000003) 0); [done|by eapply interfere_none|lia|unfold wait, MS; lia|done|vm_compute; reflexivity|].
  apply (transfer_S 0 0 (OpTbChunk [3]) (demo_sent 2) _ 30000003 (demo_buckets 1 30000003) 30000003 0 30000003 30000003 demo_next OpRead (demo_buckets 1 30000003) 0); [done|by eapply interfere_none|lia|cbn; lia|done|vm_compute; reflexivity|].
  apply transfer_0.
Qed.

Lemma throttled_reply_completes_witness : throttle_op OpRead = false /\ to_buffers (reply_ demo_throttled) = header_buffers (reply_ demo_throttled) ++ [1; 2; 3].
Proof.
  destruct (throttled_reply_completes 0 2 0 [] 0 demo_throttled {[0%nat := new_bucket 2 0]} 0 (header_buffers (reply_ demo_throttled)) 5 2
    (to_buffers (reply_ demo_throttled)) OpRead demo_next (demo_buckets 1 30000003) 30000003) as [[H _]|[H _]];
    [lia|lia|reflexivity|reflexivity|reflexivity|reflexivity|reflexivity|cbn; lia|reflexivity|exact demo_transfer|split; [exact H|reflexivity]|discriminate H].
Defined.

(** ** A bandwidth of zero *)

Section zero.
Context (sent0 : Z) (id : nat) (h : list Z) (content0 : list Z) (Hne : content0 <> []) (Hlen : blen content0 < 2 ^ 63).

(** Nothing of the content has been sent, and the bucket is empty for good. *)
Definition stuck (o : op) (c : conn) (bs : gmap nat TokenBucket) : Prop :=
  (o = OpTbHeader h \/ o = OpTbChunk []) /\ content (reply_ c) = content0 /\ bytes_sent (reply_ c) = 0 /\ token_bucket (reply_ c) = Some id /\
  exists b, bs !! id = Some b /\ _maxBurst b = 0 /\ _tokens b = 0 /\ bucket_ok b.

Lemma stuck_try_send c bs now now' : now <= now' -> stuck (OpTbChunk []) c bs ->
  exists bs1, try_send_next_chunk sent0 c bs now now' = Some (c, [OpTbChunk []], bs1) /\ stuck (OpTbChunk []) c bs1.
Proof using Hne Hlen.
  intros Hn (_ & Hc & Hs & Hid & b & Hb & Hm & Ht & Hok). unfold try_send_next_chunk. rewrite Hc, Hs, Hid.
  destruct (Z.eqb_spec 0 (blen content0)) as [E|_]; [destruct content0; [done|unfold blen in E; cbn in E; lia]|]. cbn [mbind option_bind]. rewrite Hb. cbn [mbind option_bind].
  unfold remaining_bytes, getMaxBurst. rewrite Hc, Hs, Hm, u64_small by (unfold is_u64, blen in *; lia). replace (Z.min (blen content0 - 0) 0) with 0 by (unfold blen; lia).
  destruct (drip_spec b now now' Hok Hn) as (Hdok & Hdm & _). pose proof (removeTokens_spec b 0 now now' Hok ltac:(lia) Hn) as Hsp.
  destruct (removeTokens b 0 now now') as [granted b1]. destruct Hsp as (Hok1 & Hm1 & _ & _ & Ht1 & Hg). destruct Hdok as [Hdt _]. rewrite Hdm, Hm in Hdt.
  destruct granted; [|exfalso; assert (false = true) by (apply Hg; lia); done].
  unfold get_next_chunk, remaining_bytes. rewrite Hc, Hs, u64_small by (unfold is_u64, blen in *; lia). replace (Z.min 0 (blen content0 - 0)) with 0 by (unfold blen; lia).
  rewrite (proj2 (Z.leb_le _ (blen content0))) by (unfold blen; lia). cbn [Z.leb Z.compare andb mbind option_bind Z.to_nat take]. eexists. split; [done|].
  split; [by right|]. split; [done|]. split; [done|]. split; [done|]. exists b1. rewrite lookup_insert_eq. destruct Hok1 as (Hk1 & ?). split; [done|]. split; [lia|]. split; [lia|done].
Qed.

Lemma calls_keep cs : forall b t e, bucket_ok b -> clocked t cs e -> bucket_ok (calls b cs).2 /\ _maxBurst (calls b cs).2 = _maxBurst b.
Proof using Type.
  induction cs as [|x cs IH]; intros b t e Hok Hcl; cbn [calls]; [done|]. destruct Hcl as (Hn & [_ Hle] & Hcl). pose proof (removeTokens_spec b (amount x) _ _ Hok Hn Hle) as Hsp.
  destruct (removeTokens b (amount x) (now1 x) (now2 x)) as [k b1]. destruct Hsp as (Hok1 & Hm1 & _). destruct (IH b1 _ _ Hok1 Hcl) as [H1 H2]. destruct (calls b1 cs) as [m b2]. cbn [snd] in *. split; [done|congruence].
Qed.

Lemma stuck_interfere o c bs bs0 t e g : stuck o c bs -> interfere c bs bs0 t e g -> stuck o c bs0.
Proof using Type.
  intros (Ho & Hc & Hs & Hid & b & Hb & Hm & Ht & Hok) (id' & b' & cs & Hid' & Hb' & Hcl & Hcs & [b0 Hb0]). rewrite Hid in Hid'. injection Hid' as <-. rewrite Hb in Hb'. injection Hb' as <-.
  rewrite Hb0 in Hcs. change (default b (Some b0)) with b0 in Hcs. destruct (calls_keep cs b t e Hok Hcl) as [H1 H2]. rewrite Hcs in H1, H2. cbn [snd] in H1, H2.
  repeat (split; [done|]). exists b0. split; [done|]. pose proof H1 as (? & _). split; [congruence|]. split; [lia|done].
Qed.

Lemma stuck_complete o c bs now now' : now <= now' -> stuck o c bs -> exists c1 bs1, complete sent0 o c bs now now' = Some (c1, [OpTbChunk []], bs1) /\ stuck (OpTbChunk []) c1 bs1.
Proof using Hne Hlen.
  intros Hn Hst. destruct Hst as ([-> | ->] & Hst).
  - destruct (stuck_try_send c bs now now' Hn) as (bs1 & E & Hst1); [split; [by right|done]|]. exists c, bs1. split; [exact E|done].
  - destruct (stuck_try_send (set_reply c (add_sent (reply_ c) (blen []))) bs now now' Hn) as (bs1 & E & Hst1).
    + destruct Hst as (Hc & Hs & Hid & Hb). split; [by right|]. split; [done|]. split; [cbn; by rewrite Hs|]. by split.
    + eexists _, bs1. split; [exact E|done].
Qed.
End zero.

(** With a bandwidth of zero a reply is never sent: every completion after the header is that of an empty chunk, which starts
    the next one at once, for as long as the connection lives. *)
Theorem zero_bandwidth_never_completes sent0 t0 t c bs id h n taken out o2 c2 bs2 t2 :
  token_bucket (reply_ c) = Some id -> bs !! id = Some (new_bucket 0 t0) -> bytes_sent (reply_ c) = 0 ->
  content (reply_ c) <> [] -> blen (content (reply_ c)) < 2 ^ 63 ->
  transfer sent0 n taken (OpTbHeader h) c bs t out o2 c2 bs2 t2 ->
  (o2 = OpTbHeader h \/ o2 = OpTbChunk []) /\ out `prefix_of` h /\ forall now now', now <= now' -> is_Some (complete sent0 o2 c2 bs2 now now').
Proof.
  intros Hid Hb Hs Hne Hlen Htr.
  assert (Hst : stuck id h (content (reply_ c)) (OpTbHeader h) c bs).
  { split; [by left|]. split; [done|]. split; [done|]. split; [done|]. eexists. split; [done|]. split; [done|]. split; [done|]. apply new_bucket_ok. unfold is_i32. lia. }
  assert (Hgen : forall n taken o c' bs t out o2 c2 bs2 t2, transfer sent0 n taken o c' bs t out o2 c2 bs2 t2 -> stuck id h (content (reply_ c)) o c' bs ->
    stuck id h (content (reply_ c)) o2 c2 bs2 /\ out `prefix_of` sent_by o).
  { clear - Hne Hlen. intros n taken o c' bs t out o2 c2 bs2 t2 Htr. induction Htr as [|n o c' bs t bs0 e g now now' c1 o1 bs1 taken out o2 c2 bs2 t2 Hop Hint He Hn Hend Hc Htr IH]; intros Hst; [split; [done|apply prefix_nil]|].
    apply (stuck_interfere _ _ _ _ _ _ _ _ _ _ Hst) in Hint as Hst0.
    destruct (stuck_complete sent0 id h _ Hne Hlen o c' bs0 now now' ltac:(lia) Hst0) as (c1' & bs1' & E & Hst1). rewrite E in Hc. injection Hc as <- <- <-.
    destruct (IH Hst1) as [Hst2 Hp]. split; [done|]. cbn [sent_by] in Hp. apply prefix_nil_inv in Hp as ->. by rewrite app_nil_r. }
  destruct (Hgen _ _ _ _ _ _ _ _ _ _ _ Htr Hst) as [Hst2 Hp]. split; [apply Hst2|]. split; [done|]. intros now now' Hn.
  destruct (stuck_complete sent0 id h _ Hne Hlen o2 c2 bs2 now now' Hn Hst2) as (c1 & bs1 & -> & _). done.
Qed.
