(* ===== verification/HttpQuery.v ===== *)
(** * HttpQuery: the query string of a request to Aperture

    Models [url_decode] and [decode_query_string] of
    [src/aperture/aperture/request_handler.cpp].  Text is a list of bytes;
    [boost::to_lower] is a parameter. *)
From S2P Require Import Prelude.
From stdpp Require Import list gmap.
#[local] Open Scope Z_scope.

(** ** Decoding a text *)

(** The digits of [std::hex]. *)
Definition hex_value (c : Z) : option Z :=
  if (48 <=? c) && (c <=? 57) then Some (c - 48)
  else if (97 <=? c) && (c <=? 102) then Some (c - 87)
  else if (65 <=? c) && (c <=? 70) then Some (c - 55)
  else None.

Definition is_space (c : Z) : bool := (c =? 32) || ((9 <=? c) && (c <=? 13)).

(** Reading an [int] in base 16 from a stream of at most two characters: leading
    white space is skipped, a sign and the prefix "0x" are accepted, reading stops at the first character
    that is not a digit. *)
Definition read_hex (s : list Z) : option Z :=
  match s with
  | [x; y] =>
      if is_space x then hex_value y
      else if x =? 43 then hex_value y
      else if x =? 45 then v ← hex_value y; Some (- v)
      else
        v ← hex_value x;
        if (x =? 48) && ((y =? 120) || (y =? 88)) then None
        else match hex_value y with Some w => Some (16 * v + w) | None => Some v end
  | _ => None
  end.

(** [url_decode]: [None] when it returns false. *)
Fixpoint url_decode (s : list Z) : option (list Z) :=
  match s with
  | [] => Some []
  | c :: s1 =>
      if c =? 37 then
        match s1 with
        | x :: y :: s2 => value ← read_hex [x; y]; out ← url_decode s2; Some (u8 value :: out)
        | _ => None
        end
      else if c =? 43 then out ← url_decode s1; Some (32 :: out)
      else out ← url_decode s1; Some (c :: out)
  end.

(** ** Encoding *)

Definition hex_upper (v : Z) : Z := if v <? 10 then 48 + v else 55 + v.

(** Characters with a meaning in a query string. *)
Definition reserved (c : Z) : bool := existsb (Z.eqb c) [37; 43; 63; 38; 59; 61].

Definition encode_char (safe : Z -> bool) (c : Z) : list Z := if safe c then [c] else [37; hex_upper (c / 16); hex_upper (c mod 16)].
Definition url_encode (safe : Z -> bool) (s : list Z) : list Z := concat (map (encode_char safe) s).

Lemma hex_upper_value v : 0 <= v < 16 -> hex_value (hex_upper v) = Some v /\ is_space (hex_upper v) = false /\ hex_upper v <> 43 /\ hex_upper v <> 45 /\ 48 <= hex_upper v <= 70.
Proof.
  intros Hv. assert (Hall : forallb (fun v => bool_decide (hex_value (hex_upper v) = Some v) && negb (is_space (hex_upper v)) && negb (hex_upper v =? 43) && negb (hex_upper v =? 45) &&
    (48 <=? hex_upper v) && (hex_upper v <=? 70)) (map Z.of_nat (seq 0 16)) = true) by reflexivity.
  rewrite forallb_forall in Hall. specialize (Hall v). destruct (andb_prop _ _ (Hall ltac:(rewrite <- (Z2Nat.id v) by lia; apply in_map, in_seq; lia))) as [H1 H2].
  zbool. match goal with H : bool_decide _ = true |- _ => apply bool_decide_eq_true in H end. done.
Qed.

Lemma read_hex_encoded c : is_u8 c -> read_hex [hex_upper (c / 16); hex_upper (c mod 16)] = Some c.
Proof.
  unfold is_u8. intros Hc. destruct (hex_upper_value (c / 16)) as (Hh & Hs & Hp & Hm & Hr); [dlia|]. destruct (hex_upper_value (c mod 16)) as (Hh' & _ & _ & _ & Hr'); [dlia|].
  unfold read_hex. rewrite Hs. rewrite (proj2 (Z.eqb_neq _ _) Hp), (proj2 (Z.eqb_neq _ _) Hm), Hh, Hh'. cbn [mbind option_bind].
  rewrite (proj2 (Z.eqb_neq (hex_upper (c mod 16)) 120)), (proj2 (Z.eqb_neq (hex_upper (c mod 16)) 88)) by lia. rewrite andb_false_r. f_equal. dlia.
Qed.

(** Decoding undoes encoding. *)
Lemma url_decode_encode safe s : Forall is_u8 s -> (forall c, reserved c = true -> safe c = false) -> url_decode (url_encode safe s) = Some s.
Proof.
  intros HF Hsafe. induction HF as [|c s Hc HF IH]; [done|]. unfold url_encode. cbn [map concat]. fold (url_encode safe s). unfold encode_char. destruct (safe c) eqn:E.
  - cbn [app url_decode]. destruct (Z.eqb_spec c 37) as [->|_]; [by rewrite Hsafe in E|]. destruct (Z.eqb_spec c 43) as [->|_]; [by rewrite Hsafe in E|]. by rewrite IH.
  - cbn [app url_decode]. change (37 =? 37) with true. cbn iota. rewrite read_hex_encoded by done. cbn [mbind option_bind]. rewrite IH. cbn [mbind option_bind]. by rewrite u8_small.
Qed.

(** No character of the text is a delimiter. *)
Definition plain (s : list Z) : Prop := Forall (fun c => existsb (Z.eqb c) [63; 38; 59; 61] = false) s.

Lemma plain_encode safe s : Forall is_u8 s -> (forall c, reserved c = true -> safe c = false) -> plain (url_encode safe s).
Proof.
  intros HF Hsafe. unfold plain, url_encode. induction HF as [|c s Hc HF IH]; [constructor|]. cbn [map concat]. apply Forall_app. split; [|done]. unfold encode_char. destruct (safe c) eqn:E.
  - constructor; [|constructor]. apply not_true_iff_false. intros Hex. rewrite Hsafe in E; [done|]. unfold reserved. cbn [existsb] in *. rewrite !orb_true_iff in *. tauto.
  - unfold is_u8 in Hc. destruct (hex_upper_value (c / 16)) as (_ & _ & _ & _ & H1); [dlia|]. destruct (hex_upper_value (c mod 16)) as (_ & _ & _ & _ & H2); [dlia|].
    assert (Hn : forall x, 48 <= x <= 57 \/ 65 <= x <= 70 -> existsb (Z.eqb x) [63; 38; 59; 61] = false) by (intros x Hx; cbn [existsb]; rewrite !(proj2 (Z.eqb_neq _ _)) by lia; done).
    assert (Hu : forall v, 0 <= v < 16 -> 48 <= hex_upper v <= 57 \/ 65 <= hex_upper v <= 70) by (intros v Hv; unfold hex_upper; case_bool; zbool; lia).
    repeat constructor; [by apply Hn, Hu; dlia..].
Qed.

(** ** The parameters *)

Inductive DecodeState := DS_BEGIN | DS_IN_PARAM_NAME | DS_IN_PARAM_VAL | DS_INVALID.

Section query.
Context (to_lower : list Z -> list Z).

#[local] Notation QueryString := (gmap (list Z) (list Z)).

Record decoder := mkDecoder { d_state : DecodeState; currParamName : list Z; currParamVal : list Z; retQuery : QueryString }.

(** One character; [false] is a break. *)
Definition decode_step (d : decoder) (c : Z) : bool * decoder :=
  let invalid := (false, mkDecoder DS_INVALID (currParamName d) (currParamVal d) (retQuery d)) in
  if c =? 63 then (true, mkDecoder DS_IN_PARAM_NAME (currParamName d) (currParamVal d) (retQuery d))
  else if (c =? 38) || (c =? 59) then
    match d_state d with
    | DS_BEGIN | DS_IN_PARAM_NAME => invalid
    | _ =>
        match url_decode (currParamName d), url_decode (currParamVal d) with
        | Some name, Some val => (true, mkDecoder DS_BEGIN [] [] (<[to_lower name := val]> (retQuery d)))
        | _, _ => invalid
        end
    end
  else if c =? 61 then
    match d_state d with
    | DS_BEGIN | DS_IN_PARAM_VAL => invalid
    | _ => (true, mkDecoder DS_IN_PARAM_VAL (currParamName d) (currParamVal d) (retQuery d))
    end
  else
    match d_state d with
    | DS_IN_PARAM_NAME => (true, mkDecoder DS_IN_PARAM_NAME (currParamName d ++ [c]) (currParamVal d) (retQuery d))
    | DS_IN_PARAM_VAL => (true, mkDecoder DS_IN_PARAM_VAL (currParamName d) (currParamVal d ++ [c]) (retQuery d))
    | _ => (true, d)
    end.

Fixpoint decode_loop (d : decoder) (url : list Z) : decoder :=
  match url with
  | [] => d
  | c :: url => let '(go, d) := decode_step d c in if go : bool then decode_loop d url else d
  end.

Definition decode_query_string (url : list Z) : QueryString :=
  let d := decode_loop (mkDecoder DS_BEGIN [] [] ∅) url in
  match d_state d with
  | DS_IN_PARAM_VAL =>
      match url_decode (currParamName d), url_decode (currParamVal d) with
      | Some name, Some val => <[to_lower name := val]> (retQuery d)
      | _, _ => retQuery d
      end
  | _ => retQuery d
  end.

(** ** The loop on plain text *)

(** How the loop reads plain text in each state. *)
Definition absorb (d : decoder) (s : list Z) : decoder :=
  match d_state d with
  | DS_IN_PARAM_NAME => mkDecoder DS_IN_PARAM_NAME (currParamName d ++ s) (currParamVal d) (retQuery d)
  | DS_IN_PARAM_VAL => mkDecoder DS_IN_PARAM_VAL (currParamName d) (currParamVal d ++ s) (retQuery d)
  | _ => d
  end.

Lemma decode_plain s : forall d rest, plain s -> decode_loop d (s ++ rest) = decode_loop (absorb d s) rest.
Proof using Type.
  induction s as [|c s IH]; intros d rest Hs; [cbn [app]; destruct d as [[] ? ? ?]; cbn [absorb d_state currParamName currParamVal retQuery]; rewrite ?app_nil_r; done|].
  apply Forall_cons in Hs as [Hc Hs]. cbn [existsb] in Hc. rewrite !orb_false_iff in Hc. destruct Hc as (H1 & H2 & H3 & H4 & _). cbn [app decode_loop].
  unfold decode_step. rewrite H1, H2, H3, H4. cbn [orb]. destruct d as [[] n v q]; cbn [d_state currParamName currParamVal retQuery]; rewrite IH by done; unfold absorb; cbn [d_state currParamName currParamVal retQuery];
    rewrite <- ?app_assoc; done.
Qed.
Lemma loop_question d rest : decode_loop d (63 :: rest) = decode_loop (mkDecoder DS_IN_PARAM_NAME (currParamName d) (currParamVal d) (retQuery d)) rest.
Proof using Type. done. Qed.

Lemma loop_equals n v q rest : decode_loop (mkDecoder DS_IN_PARAM_NAME n v q) (61 :: rest) = decode_loop (mkDecoder DS_IN_PARAM_VAL n v q) rest.
Proof using Type. done. Qed.

(** A separator after a parameter stores it. *)
Lemma loop_separator n v q c rest name val : c = 38 \/ c = 59 -> url_decode n = Some name -> url_decode v = Some val ->
  decode_loop (mkDecoder DS_IN_PARAM_VAL n v q) (c :: rest) = decode_loop (mkDecoder DS_BEGIN [] [] (<[to_lower name := val]> q)) rest.
Proof using Type. intros [-> | ->] Hn Hv; cbn [decode_loop]; unfold decode_step; cbn [Z.eqb Pos.eqb orb d_state currParamName currParamVal retQuery]; by rewrite Hn, Hv. Qed.

(** After a separator nothing is stored. *)
Lemma loop_begin q rest : ~ In 63 rest -> let d := decode_loop (mkDecoder DS_BEGIN [] [] q) rest in retQuery d = q /\ d_state d <> DS_IN_PARAM_VAL.
Proof using Type.
  induction rest as [|c rest IH]; intros Hq; cbn [decode_loop]; [done|]. unfold decode_step. cbn [d_state currParamName currParamVal retQuery].
  destruct (Z.eqb_spec c 63) as [->|_]; [destruct Hq; by left|]. destruct ((c =? 38) || (c =? 59)); [done|]. destruct (c =? 61); [done|]. apply IH. intros Hin. apply Hq. by right.
Qed.
End query.

(** A request carries one parameter.  The query string of an address that ends in the encoded name and value of a parameter
    decodes to that parameter alone, with its name in lower case; [safe] says which characters
    the encoding leaves as they are.  Whatever follows a further "&" or ";" is
    dropped, up to another question mark. *)
Theorem query_keeps_first_parameter to_lower safe path name val rest :
  plain path -> Forall is_u8 name -> Forall is_u8 val -> (forall c, reserved c = true -> safe c = false) ->
  rest = [] \/ (exists c more, rest = c :: more /\ (c = 38 \/ c = 59) /\ ~ In 63 more) ->
  decode_query_string to_lower (path ++ [63] ++ url_encode safe name ++ [61] ++ url_encode safe val ++ rest) = {[to_lower name := val]}.
Proof.
  intros Hp Hn Hv Hsafe Hrest. unfold decode_query_string. rewrite decode_plain by done. cbn [absorb d_state app]. rewrite loop_question. cbn [currParamName currParamVal retQuery].
  rewrite decode_plain by by apply plain_encode. cbn [absorb d_state currParamName currParamVal retQuery app]. rewrite loop_equals.
  rewrite decode_plain by by apply plain_encode. cbn [absorb d_state currParamName currParamVal retQuery app].
  pose proof (url_decode_encode safe name Hn Hsafe) as En. pose proof (url_decode_encode safe val Hv Hsafe) as Ev.
  destruct Hrest as [-> | (c & more & -> & Hc & Hq)].
  - cbn [decode_loop d_state currParamName currParamVal retQuery]. by rewrite En, Ev, insert_empty.
  - rewrite (loop_separator to_lower _ _ _ _ _ name val Hc En Ev). destruct (loop_begin to_lower (<[to_lower name := val]> ∅) more Hq) as [Hr Hs]. cbn zeta in *.
    destruct (d_state _); [by rewrite Hr, insert_empty..|done|by rewrite Hr, insert_empty].
Qed.

Definition demo_safe (c : Z) : bool := (97 <=? c) && (c <=? 122).

Lemma query_keeps_first_parameter_witness :
  decode_query_string (fun s => s) ([47] ++ [63] ++ url_encode demo_safe [116; 95] ++ [61] ++ url_encode demo_safe [37; 97] ++ [38; 98; 61; 99]) = {[ [116; 95] := [37; 97] ]}.
Proof.
  apply (query_keeps_first_parameter (fun s => s) demo_safe [47] [116; 95] [37; 97] [38; 98; 61; 99]);
    [repeat constructor|repeat (constructor; [unfold is_u8; lia|]); constructor|repeat (constructor; [unfold is_u8; lia|]); constructor| |].
  - intros c Hc. unfold reserved in Hc. cbn [existsb] in Hc. rewrite !orb_true_iff, !Z.eqb_eq in Hc. destruct Hc as [-> |[-> |[-> |[-> |[-> |[-> |?]]]]]]; [reflexivity..|discriminate].
  - right. exists 38, [98; 61; 99]. split; [reflexivity|]. split; [by left|]. cbn. lia.
Defined.
