(* ===== verification/HttpRange.v ===== *)
(** * HttpRange: assets and ranges of the Aperture HTTP server

    Models the assets of Aperture ([src/aperture/aperture/Asset.cpp], [CloudFilesAsset.cpp]) and the
    part of [request_handler.cpp] that turns an asset into a reply: [parse_range], [sendResponse] and
    the exception handlers of [asset_response_callback].  [boost::split] and
    [boost::lexical_cast<unsigned int>] are parameters.  A result [None] is a read outside the asset; an exception is
    the left side of a sum. *)
From S2P Require Import Prelude WhipWire HttpReply.
From Stdlib Require Import String.
From stdpp Require Import list.
#[local] Open Scope Z_scope.

(** [std::range_error], or another [std::exception]. *)
Inductive exn := range_exn | other_exn.

(** ** Assets *)

(** An asset from a WHIP server is its wire format; one from the cloud store is a type and the data. *)
Inductive asset := WhipAsset (data : list Z) | CfAsset (type : Z) (data : list Z).

Definition NAME_FIELD_SZ_LOC : nat := 39.

(** [findDataLocationAndSize]. *)
Definition findDataLocationAndSize (data : list Z) : option (Z * Z) :=
  nameFieldSz ← data !! NAME_FIELD_SZ_LOC;
  let currLoc := Z.of_nat NAME_FIELD_SZ_LOC + (nameFieldSz + 1) in
  descFieldSz ← rd data currLoc;
  let currLoc := currLoc + (descFieldSz + 1) in
  dataSz ← ntohl_at data (Z.to_nat currLoc);
  Some (currLoc + 4, dataSz).

Definition getBinaryDataSize (a : asset) : option Z :=
  match a with
  | WhipAsset data => '(_, size) ← findDataLocationAndSize data; Some size
  | CfAsset _ data => Some (blen data)
  end.

Definition getType (a : asset) : option Z :=
  match a with WhipAsset data => data !! 32%nat | CfAsset type _ => Some (u8 type) end.

(** The bytes [from, from + n) of an array; [None] when they are not all inside. *)
Definition sub_bytes (data : list Z) (from n : Z) : option (list Z) :=
  if (0 <=? from) && (from + n <=? blen data) then Some (take (Z.to_nat n) (drop (Z.to_nat from) data)) else None.

(** [copyAssetData] without a range: the new storage and the size.  The sum of the bounds check is a 32-bit one. *)
Definition copyAssetData (a : asset) (storage : list Z) : option (exn + list Z * Z) :=
  match a with
  | WhipAsset data =>
      '(dataLoc, dataSz) ← findDataLocationAndSize data;
      if blen data <? u32 (dataLoc + dataSz) then Some (inl other_exn)
      else part ← sub_bytes data dataLoc dataSz; Some (inr (storage ++ part, dataSz))
  | CfAsset _ data => Some (inr (data, blen data))
  end.

(** The corrections of a range for [dataSz] bytes, which are not zero. *)
Definition fix_range (dataSz rngStart rngEnd : Z) : Z * Z :=
  let rngEnd := if dataSz - 1 <? rngEnd then dataSz - 1 else rngEnd in
  let '(rngStart, rngEnd) := if dataSz - 1 <? rngStart then (0, dataSz - 1) else (rngStart, rngEnd) in
  if rngEnd <? rngStart then (0, dataSz - 1) else (rngStart, rngEnd).

Definition copyAssetRange (a : asset) (storage : list Z) (rngStart rngEnd : Z) : option (exn + list Z * Z) :=
  match a with
  | WhipAsset data =>
      '(dataLoc, dataSz) ← findDataLocationAndSize data;
      if dataSz =? 0 then Some (inr (storage, 0))
      else
        let '(s, e) := fix_range dataSz rngStart rngEnd in
        if blen data <=? dataLoc + e then Some (inl range_exn)
        else part ← sub_bytes data (dataLoc + s) (e - s + 1); Some (inr (storage ++ part, dataSz))
  | CfAsset _ data =>
      let dataSz := blen data in
      if dataSz =? 0 then Some (inr (storage, 0))
      else
        let '(s, e) := fix_range dataSz rngStart rngEnd in
        part ← sub_bytes data s (e - s + 1); Some (inr (storage ++ part, dataSz))
  end.

(** ** Requests for a range *)

Section range.
Context (split : Z -> list Z -> list (list Z)) (lexical_uint : list Z -> option Z).

Definition cast (s : list Z) : exn + Z := match lexical_uint s with Some n => inr n | None => inl other_exn end.

(** [std::numeric_limits<unsigned int>::max()]. *)
Definition UINT_MAX : Z := 2 ^ 32 - 1.

Definition parse_range (rangeStr : list Z) : exn + Z * Z :=
  if negb (bool_decide (take 6 rangeStr = text "bytes=")) then inl range_exn
  else
    match split 45 (drop 6 rangeStr) with
    | [[]; []] => inl range_exn
    | [[]; last] => match cast last with inr e => inr (0, e) | inl x => inl x end
    | [first; []] => match cast first with inr b => inr (b, UINT_MAX) | inl x => inl x end
    | [first; last] => match cast first, cast last with inr b, inr e => inr (b, e) | inl x, _ => inl x | _, inl x => inl x end
    | _ => inl range_exn
    end.

Definition RANGE : list Z := text "Range".
Definition CONTENT_RANGE : list Z := text "Content-Range".

(** The loop over the headers: the last range counts. *)
Fixpoint find_range (hs : list (list Z * list Z)) (found : option (Z * Z)) : exn + option (Z * Z) :=
  match hs with
  | [] => inr found
  | h :: hs =>
      if bool_decide (h.1 = RANGE) then match parse_range h.2 with inr r => find_range hs (Some r) | inl x => inl x end
      else find_range hs found
  end.

Definition range_text (b e n : Z) : list Z := text "bytes " ++ decimal b ++ [45] ++ decimal e ++ [47] ++ decimal n.

Definition sendResponse (hs : list (list Z * list Z)) (rep : reply) (a : asset) (contentType : list Z) : option (exn + reply) :=
  match find_range hs None with
  | inl x => Some (inl x)
  | inr found =>
      copied ← match found with Some (b, e) => copyAssetRange a (content rep) b e | None => copyAssetData a (content rep) end;
      match copied with
      | inl x => Some (inl x)
      | inr (c, fullSz) =>
          let hs := [(CONTENT_LENGTH, decimal (blen c)); (CONTENT_TYPE, contentType)] in
          match found with
          | Some (rngBegin, rngEnd) =>
              let rngEnd := if u64 (fullSz - 1) <? rngEnd then u64 (fullSz - 1) else rngEnd in
              if negb (fullSz =? blen c) then
                Some (inr (mkReply partial_content (hs ++ [(CONTENT_RANGE, range_text rngBegin rngEnd fullSz)]) c (token rep) (bytes_sent rep) (token_bucket rep)))
              else Some (inr (mkReply ok hs c (token rep) (bytes_sent rep) (token_bucket rep)))
          | None => Some (inr (mkReply ok hs c (token rep) (bytes_sent rep) (token_bucket rep)))
          end
      end
  end.

Definition AT_TEXTURE : Z := 0.
Definition AT_MESH : Z := 49.

Definition content_type (type : Z) : list Z := if type =? AT_TEXTURE then text "image/x-j2c" else text "application/vnd.ll.mesh".

(** The end of [asset_response_callback]: the reply for an asset, exceptions included. *)
Definition respond (uninit : Z) (hs : list (list Z * list Z)) (rep : reply) (a : asset) : option reply :=
  errorReportingFullSz ← getBinaryDataSize a;
  type ← getType a;
  sent ← sendResponse hs rep a (content_type type);
  match sent with
  | inr rep => Some rep
  | inl range_exn =>
      let rangeHeader := (CONTENT_RANGE, range_text 0 (u64 (errorReportingFullSz - 1)) errorReportingFullSz) in
      Some (stock_reply uninit range_error rangeHeader)
  | inl other_exn => Some (stock_reply uninit bad_request ([], []))
  end.

(** ** What the reply is *)

(** The data of an asset: the bytes [d] are where the asset says. *)
Definition asset_data (a : asset) (d : list Z) : Prop :=
  match a with
  | WhipAsset data => exists loc, findDataLocationAndSize data = Some (loc, blen d) /\ 0 <= loc /\ sub_bytes data loc (blen d) = Some d
  | CfAsset _ data => data = d
  end /\ blen d < 2 ^ 31 /\ is_Some (getType a) /\ match a with WhipAsset data => blen data < 2 ^ 32 | _ => True end.

Lemma sub_bytes_Some data from n d : sub_bytes data from n = Some d -> 0 <= n -> 0 <= from /\ from + n <= blen data /\ blen d = n.
Proof using Type.
  unfold sub_bytes. intros H Hn. case_bool; [|done]. injection H as <-. zbool. unfold blen in *. rewrite length_take, length_drop. lia.
Qed.

(** A part of the data of an asset. *)
Lemma sub_bytes_sub data loc d s n : sub_bytes data loc (blen d) = Some d -> 0 <= s -> 0 <= n -> s + n <= blen d ->
  sub_bytes data (loc + s) n = sub_bytes d s n /\ sub_bytes d s n = Some (take (Z.to_nat n) (drop (Z.to_nat s) d)).
Proof using Type.
  intros H Hs Hn Hle. destruct (sub_bytes_Some _ _ _ _ H) as (Hl & Hd & _); [unfold blen; lia|]. unfold sub_bytes in *.
  rewrite (proj2 (Z.leb_le 0 loc)), (proj2 (Z.leb_le _ (blen data))) in H by lia. cbn [andb] in H. injection H as H.
  rewrite (proj2 (Z.leb_le 0 (loc + s))), (proj2 (Z.leb_le 0 s)), (proj2 (Z.leb_le (loc + s + n) _)), (proj2 (Z.leb_le (s + n) _)) by lia. cbn [andb].
  split; [|done]. f_equal. rewrite <- H at 1. unfold blen in *. rewrite Nat2Z.id in *. rewrite skipn_firstn_comm, firstn_firstn, drop_drop.
  rewrite Z2Nat.inj_add by lia. f_equal. lia.
Qed.

(** The range that a request gets: the bytes from [s] to [e], of [n]. *)
Definition served (n : Z) (found : option (Z * Z)) : Z * Z :=
  match found with None => (0, n - 1) | Some (b, e) => if n =? 0 then (0, -1) else fix_range n b e end.

Definition slice (d : list Z) (r : Z * Z) : list Z := take (Z.to_nat (r.2 - r.1 + 1)) (drop (Z.to_nat r.1) d).

Lemma fix_range_ok n b e : 0 < n -> 0 <= b -> 0 <= e -> let '(s, e') := fix_range n b e in 0 <= s <= e' /\ e' < n /\
  (s = b /\ e' = Z.min e (n - 1) \/ s = 0 /\ e' = n - 1).
Proof using Type. intros Hn Hb He. unfold fix_range. repeat case_bool; zbool; lia. Qed.

Lemma slice_all d n : blen d = n -> slice d (0, n - 1) = d.
Proof using Type. intros <-. unfold slice. cbn [fst snd Z.to_nat drop]. apply take_ge. unfold blen. lia. Qed.

(** Copying, with an empty storage. *)
Lemma copy_served a d found : asset_data a d -> match found with Some (b, e) => 0 <= b /\ 0 <= e | None => True end ->
  match found with Some (b, e) => copyAssetRange a [] b e | None => copyAssetData a [] end = Some (inr (slice d (served (blen d) found), blen d)).
Proof using Type.
  intros (Ha & Hlen & _ & Hdl) Hf. assert (Hn : 0 <= blen d) by (unfold blen; lia). destruct found as [[b e]|]; cbn [served].
  - destruct Hf as [Hb He]. destruct (Z.eqb_spec (blen d) 0) as [E|E].
    + assert (d = []) as -> by (destruct d; [done|unfold blen in E; cbn in E; lia]). destruct a as [data|ty data]; cbn [copyAssetRange].
      * destruct Ha as (loc & -> & _). done.
      * by subst data.
    + pose proof (fix_range_ok (blen d) b e ltac:(lia) Hb He) as Hfix. unfold slice. destruct (fix_range (blen d) b e) as [s e'] eqn:Ef. cbn [fst snd]. destruct a as [data|ty data]; cbn [copyAssetRange].
      * destruct Ha as (loc & Hloc & Hl0 & Hsub). rewrite Hloc. cbn [mbind option_bind]. rewrite (proj2 (Z.eqb_neq _ _) E), Ef.
        destruct (sub_bytes_Some _ _ _ _ Hsub Hn) as (_ & Hle & _). rewrite (proj2 (Z.leb_gt _ _)) by lia.
        destruct (sub_bytes_sub data loc d s (e' - s + 1) Hsub) as [-> ->]; [lia..|]. done.
      * subst data. rewrite (proj2 (Z.eqb_neq _ _) E), Ef. unfold sub_bytes. rewrite (proj2 (Z.leb_le _ _)), (proj2 (Z.leb_le _ _)) by lia. done.
  - rewrite slice_all by done. destruct a as [data|ty data]; cbn [copyAssetData].
    + destruct Ha as (loc & Hloc & Hl0 & Hsub). rewrite Hloc. cbn [mbind option_bind]. destruct (sub_bytes_Some _ _ _ _ Hsub Hn) as (_ & Hle & _).
      rewrite u32_small by (unfold is_u32; lia). rewrite (proj2 (Z.ltb_ge _ _)) by lia. by rewrite Hsub.
    + by subst data.
Qed.
End range.

Lemma find_range_u32 split lexical_uint hs : (forall s n, lexical_uint s = Some n -> is_u32 n) -> forall found r,
  match found with Some (b, e) => 0 <= b /\ 0 <= e | None => True end -> find_range split lexical_uint hs found = inr r -> match r with Some (b, e) => 0 <= b /\ 0 <= e | None => True end.
Proof.
  intros Hlex. assert (Hp : forall s b e, parse_range split lexical_uint s = inr (b, e) -> 0 <= b /\ 0 <= e).
  { intros s b e. unfold parse_range, cast, UINT_MAX. case_bool; [done|]. destruct (split 45 (drop 6 s)) as [|[|f0 f] [|[|l0 l] [|? ?]]]; try done;
      repeat match goal with |- context [lexical_uint ?x] => destruct (lexical_uint x) eqn:? end; try done; intros [= <- <-];
      repeat match goal with H : lexical_uint _ = Some _ |- _ => apply Hlex in H; unfold is_u32 in H end; lia. }
  induction hs as [|h hs IH]; intros found r Hf; cbn [find_range]; [by intros [= <-]|]. case_bool; [|by apply IH].
  destruct (parse_range split lexical_uint h.2) as [?|[b e]] eqn:E; [done|]. apply IH. by apply Hp in E.
Qed.

(** The reply is a stock page or has the token of the request. *)
Lemma respond_token split lexical_uint uninit hs rep a d : (forall s n, lexical_uint s = Some n -> is_u32 n) -> asset_data a d -> content rep = [] ->
  exists rep', respond split lexical_uint uninit hs rep a = Some rep' /\ ((exists s hdr, rep' = stock_reply uninit s hdr) \/ token rep' = token rep).
Proof.
  intros Hlex Ha Hrep. pose proof Ha as (Hd & _ & [ty Hty] & _). unfold respond.
  assert (Hsz : getBinaryDataSize a = Some (blen d)) by (destruct a; cbn [getBinaryDataSize]; [destruct Hd as (loc & -> & _); done|by subst]).
  rewrite Hsz, Hty. cbn [mbind option_bind]. unfold sendResponse. destruct (find_range split lexical_uint hs None) as [x|found] eqn:Ef; [destruct x; (eexists; split; [done|]; left; by eexists _, _)|].
  pose proof (find_range_u32 split lexical_uint hs Hlex None found I Ef) as Hf. rewrite Hrep, (copy_served a d found Ha Hf). cbn [mbind option_bind].
  destruct found as [[b e]|]; [case_bool|]; eexists; (split; [done|by right]).
Qed.


Fixpoint demo_split (c : Z) (s : list Z) : list (list Z) :=
  match s with
  | [] => [[]]
  | x :: s => if x =? c then [] :: demo_split c s else match demo_split c s with p :: ps => (x :: p) :: ps | [] => [[x]] end
  end.
Definition demo_uint (s : list Z) : option Z := match s with [c] => if (48 <=? c) && (c <=? 57) then Some (c - 48) else None | _ => None end.


(** The bounds check of a copy without a range can wrap: an asset of 46 bytes that claims 2^32-1 bytes of data passes
    it, and the copy reads past the end of the asset. *)
Theorem full_copy_wraps : let data := replicate 41 0 ++ [255; 255; 255; 255; 7] in
  findDataLocationAndSize data = Some (45, 2 ^ 32 - 1) /\ copyAssetData (WhipAsset data) [] = None.
Proof. vm_compute. done. Qed.
