(* ===== verification/HttpCaps.v ===== *)
(** * HttpCaps: the request handler of Aperture

    Models [src/aperture/aperture/request_handler.cpp]: capabilities, pausing, queues and limits, the choice between
    the cache, the WHIP server and the cloud store, and the callback that brings an
    asset.  A handler is a function of the state to the state and the effects, in order: replies handed to a connection
    ([*Reply] and the completion callback), requests to the two asset servers, new token buckets, and an exception that leaves the
    handler.  The Boost string functions are parameters; the cache is used through an interface that [LruCache] implements.
    The log is left out. *)
From S2P Require Import Prelude WhipWire HttpParser HttpReply HttpQuery HttpRange LruCache.
From Stdlib Require Import String.
From stdpp Require Import list gmap.
#[local] Open Scope Z_scope.

(** ** Interfaces *)

(** The functions of Boost that the handler calls. *)
Class BoostStrings := {
  split : Z -> list Z -> list (list Z);
  to_lower : list Z -> list Z;
  erase_all : Z -> list Z -> list Z;
  lexical_int : list Z -> option Z;
  lexical_uint : list Z -> option Z;
}.

(** What the handler asks of a cache of assets. *)
Class AssetCache (T : Type) := {
  cache_fetch : T -> list Z -> option asset * T;
  cache_insert : T -> list Z -> asset -> T;
}.

(** The entries of an [LRUCache], most recently used first, with the weights of Aperture's [AssetSizeCalculator]. *)
Record lru_entries := mkEntries { entries : list (list Z * asset); max_size : Z }.

Definition asset_weight (a : asset) : Z := u64 (default 0 (getBinaryDataSize a) + TOTAL_OVERHEAD).

#[export] Instance lru_asset_cache : AssetCache lru_entries := {
  cache_fetch c k := (lookup_entry (entries c) k, mkEntries (to_front k (entries c)) (max_size c));
  cache_insert c k a := mkEntries (put asset_weight (max_size c) k a (entries c)) (max_size c);
}.

(** ** The code *)

(** [PackedRequestInfo]; [Conn] stands for the callback and the address of the reply. *)
Record PackedRequestInfo := mkInfo {
  AssetId : list Z; Conn : nat; Reply : reply; QueryString : gmap (list Z) (list Z); Request : request;
  ServedFromCache : bool; ServedFromWhip : bool; ServedFromCF : bool }.

Inductive effect := Complete (conn : nat) (rep : reply) | WhipGet (i : PackedRequestInfo) | CfGet (i : PackedRequestInfo) | NewBucket (id : nat) (bandwidth : Z) | Throw.

Definition MAX_QUEUED_REQUESTS : nat := 50.
Definition VIEWER_BW_MAX : Z := 319000.
Definition REPLACEMENT_BW : Z := 625000.

Definition TEXTURE_ID : list Z := text "texture_id".
Definition MESH_ID : list Z := text "mesh_id".

Section handler.
Context `{BoostStrings} {T : Type} `{AssetCache T}.
(** The configuration, and the values of uninitialised fields. *)
Context (_capsToken : list Z) (has_cf : bool) (uninit : Z).

Record handler := mkHandler {
  _validCapIds : gset (list Z); _queuedRequests : gmap (list Z) (list PackedRequestInfo); _capsBuckets : gmap (list Z) nat; next_bucket : nat;
  _assetCache : option T }.

#[local] Notation result := (option (handler * list effect)).

Definition stock (s : status_type) : reply := stock_reply uninit s ([], []).
Definition done_with (h : handler) (conn : nat) (s : status_type) : result := Some (h, [Complete conn (stock s)]).

Definition set_queues (h : handler) (q : gmap (list Z) (list PackedRequestInfo)) : handler :=
  mkHandler (_validCapIds h) q (_capsBuckets h) (next_bucket h) (_assetCache h).
Definition set_cache (h : handler) (c : option T) : handler :=
  mkHandler (_validCapIds h) (_queuedRequests h) (_capsBuckets h) (next_bucket h) c.

(** [_capsBuckets[cap] = make_shared<TokenBucket>(bandwidth)]. *)
Definition set_limit (h : handler) (cap : list Z) : handler :=
  mkHandler (_validCapIds h) (_queuedRequests h) (<[cap := next_bucket h]> (_capsBuckets h)) (S (next_bucket h)) (_assetCache h).

(** [asset_response_callback]. *)
Definition asset_response_callback (h : handler) (i : PackedRequestInfo) (found : option asset) : result :=
  match found with
  | None =>
      if ServedFromWhip i && has_cf then
        Some (h, [CfGet (mkInfo (AssetId i) (Conn i) (Reply i) (QueryString i) (Request i) (ServedFromCache i) false true)])
      else done_with h (Conn i) not_found
  | Some a =>
      type ← getType a;
      if negb (type =? AT_TEXTURE) && negb (type =? AT_MESH) then
        match a with WhipAsset _ => if ServedFromCF i then None else done_with h (Conn i) not_found | CfAsset _ _ => done_with h (Conn i) not_found end
      else
        size ← getBinaryDataSize a;
        let h := match _assetCache h with Some c => if negb (ServedFromCache i) then set_cache h (Some (cache_insert c (AssetId i) a)) else h | None => h end in
        rep ← respond split lexical_uint uninit (headers (Request i)) (Reply i) a;
        Some (h, [Complete (Conn i) rep])
  end.

(** [processRequest]; [whip_up] says that there is a WHIP server and it is connected. *)
Definition processRequest (h : handler) (whip_up : bool) (i : PackedRequestInfo) : result :=
  let '(hit, h) := match _assetCache h with Some c => let '(a, c) := cache_fetch c (AssetId i) in (a, set_cache h (Some c)) | None => (None, h) end in
  match hit with
  | Some a => asset_response_callback h (mkInfo (AssetId i) (Conn i) (Reply i) (QueryString i) (Request i) true (ServedFromWhip i) (ServedFromCF i)) (Some a)
  | None =>
      if whip_up then Some (h, [WhipGet (mkInfo (AssetId i) (Conn i) (Reply i) (QueryString i) (Request i) (ServedFromCache i) true (ServedFromCF i))])
      else if has_cf then Some (h, [CfGet (mkInfo (AssetId i) (Conn i) (Reply i) (QueryString i) (Request i) (ServedFromCache i) (ServedFromWhip i) true)])
      else done_with h (Conn i) internal_server_error
  end.

Definition handle_asset_request (h : handler) (whip_up : bool) (conn : nat) (req : request) (rep : reply) (urlParts : list (list Z)) : result :=
  if (length urlParts <? 5)%nat then done_with h conn bad_request
  else
    let queryString := decode_query_string to_lower (r_uri req) in
    match match queryString !! TEXTURE_ID with Some id => Some id | None => queryString !! MESH_ID end with
    | None => done_with h conn bad_request
    | Some assetId =>
        let assetId := erase_all 45 assetId in
        if negb (IsValidUUID assetId) then done_with h conn bad_request
        else
          cap ← urlParts !! 3%nat;
          if negb (bool_decide (cap ∈ _validCapIds h)) then done_with h conn not_found
          else
            let rep := mkReply (status rep) (rheaders rep) (content rep) cap (bytes_sent rep) (token_bucket rep) in
            let reqInfo := mkInfo assetId conn rep queryString req false false false in
            match _queuedRequests h !! cap with
            | Some queue =>
                let queue := queue ++ [reqInfo] in
                if (MAX_QUEUED_REQUESTS <? length queue)%nat then
                  match queue with
                  | front :: queue => Some (set_queues h (<[cap := queue]> (_queuedRequests h)), [Complete (Conn front) (stock service_unavailable)])
                  | [] => None
                  end
                else Some (set_queues h (<[cap := queue]> (_queuedRequests h)), [])
            | None => processRequest h whip_up reqInfo
            end
    end.

(** The checks that the five administrative requests share. *)
Definition authorised (n : nat) (urlParts : list (list Z)) : bool :=
  negb (length urlParts <? n)%nat && bool_decide (urlParts !! 4%nat = Some _capsToken).

Definition handle_add_cap (h : handler) (conn : nat) (urlParts : list (list Z)) : result :=
  if negb (authorised 6 urlParts) then done_with h conn bad_request
  else
    cap ← urlParts !! 5%nat;
    let h := mkHandler ({[cap]} ∪ _validCapIds h) (_queuedRequests h) (_capsBuckets h) (next_bucket h) (_assetCache h) in
    if (length urlParts =? 7)%nat then
      limit ← urlParts !! 6%nat;
      match lexical_int limit with
      | None => Some (h, [Throw])
      | Some bandwidth => Some (set_limit h cap, [NewBucket (next_bucket h) bandwidth; Complete conn (stock ok)])
      end
    else done_with h conn ok.

Definition handle_rem_cap (h : handler) (conn : nat) (urlParts : list (list Z)) : result :=
  if negb (authorised 6 urlParts) then done_with h conn bad_request
  else
    cap ← urlParts !! 5%nat;
    done_with (mkHandler (_validCapIds h ∖ {[cap]}) (delete cap (_queuedRequests h)) (delete cap (_capsBuckets h)) (next_bucket h) (_assetCache h)) conn ok.

Definition handle_pause_cap (h : handler) (conn : nat) (urlParts : list (list Z)) : result :=
  if negb (authorised 6 urlParts) then done_with h conn bad_request
  else
    cap ← urlParts !! 5%nat;
    done_with (match _queuedRequests h !! cap with None => set_queues h (<[cap := []]> (_queuedRequests h)) | Some _ => h end) conn ok.

(** The loop of [handle_resume_cap] over a copy of the queue. *)
Fixpoint process_all (h : handler) (whip_up : bool) (queue : list PackedRequestInfo) : result :=
  match queue with
  | [] => Some (h, [])
  | i :: queue =>
      '(h, es) ← processRequest h whip_up i;
      '(h, es') ← process_all h whip_up queue;
      Some (h, es ++ es')
  end.

Definition handle_resume_cap (h : handler) (whip_up : bool) (conn : nat) (urlParts : list (list Z)) : result :=
  if negb (authorised 6 urlParts) then done_with h conn bad_request
  else
    cap ← urlParts !! 5%nat;
    match _queuedRequests h !! cap with
    | None => done_with h conn ok
    | Some queue =>
        '(h, es) ← process_all h whip_up queue;
        Some (set_queues h (delete cap (_queuedRequests h)), es ++ [Complete conn (stock ok)])
    end.

Definition handle_limit_cap (h : handler) (conn : nat) (urlParts : list (list Z)) : result :=
  if negb (authorised 7 urlParts) then done_with h conn bad_request
  else
    cap ← urlParts !! 5%nat;
    limit ← urlParts !! 6%nat;
    match lexical_int limit with
    | None => done_with h conn bad_request
    | Some bwLimit =>
        let bwLimit := if VIEWER_BW_MAX <=? bwLimit then Z.max REPLACEMENT_BW bwLimit else bwLimit in
        if negb (bool_decide (cap ∈ _validCapIds h)) then done_with h conn bad_request
        else Some (set_limit h cap, [NewBucket (next_bucket h) bwLimit; Complete conn (stock ok)])
    end.

Definition handle_request (h : handler) (whip_up : bool) (conn : nat) (req : request) (rep : reply) : result :=
  let reqParts := split 47 (r_uri req) in
  if (length reqParts <? 5)%nat then done_with h conn bad_request
  else
    p1 ← reqParts !! 1%nat; p2 ← reqParts !! 2%nat; p3 ← reqParts !! 3%nat;
    if negb (bool_decide (p1 = text "CAPS")) || negb (bool_decide (p2 = text "HTT")) then done_with h conn bad_request
    else if bool_decide (p3 = text "ADDCAP") then handle_add_cap h conn reqParts
    else if bool_decide (p3 = text "REMCAP") then handle_rem_cap h conn reqParts
    else if bool_decide (p3 = text "PAUSE") then handle_pause_cap h conn reqParts
    else if bool_decide (p3 = text "RESUME") then handle_resume_cap h whip_up conn reqParts
    else if bool_decide (p3 = text "LIMIT") then handle_limit_cap h conn reqParts
    else handle_asset_request h whip_up conn req rep reqParts.

Definition getBucket (h : handler) (caps : list Z) : option nat := _capsBuckets h !! caps.

Definition initAssetCache (h : handler) (c : T) : handler := set_cache h (Some c).

Definition new_handler : handler := mkHandler ∅ ∅ ∅ 0 None.
End handler.

(** ** What a cache promises *)

Class AssetCacheLaws (T : Type) `{AssetCache T} := {
  holds : T -> list Z -> asset -> Prop;
  fetch_holds c k a : (cache_fetch c k).1 = Some a -> holds c k a;
  fetch_keeps c k k' a' : holds (cache_fetch c k).2 k' a' -> holds c k' a';
  insert_holds c k a k' a' : holds (cache_insert c k a) k' a' -> holds c k' a' \/ a' = a;
}.

#[export] Instance lru_asset_cache_laws : AssetCacheLaws lru_entries.
Proof.
  refine {| holds c k a := (k, a) ∈ entries c |}.
  - intros c k a. apply lookup_entry_In.
  - intros c k k' a'. cbn [cache_fetch lru_asset_cache snd entries]. apply to_front_In.
  - intros c k a k' a' Hin. cbn [cache_insert lru_asset_cache entries] in Hin. apply put_In in Hin as [[= -> ->]|Hin]; [by right|by left].
Defined.

(** ** Runs *)

Section runs.
Context `{BoostStrings} {T : Type} `{AssetCacheLaws T}.
Context (_capsToken : list Z) (has_cf : bool) (uninit : Z).
#[local] Notation handler := (handler (T := T)).

(** The parts of the address of an administrative request with the right token: its capability. *)
Definition admin_cap (verb : string) (req : request) : option (list Z) :=
  let parts := split 47 (r_uri req) in
  if bool_decide (parts !! 1%nat = Some (text "CAPS")) && bool_decide (parts !! 2%nat = Some (text "HTT")) && bool_decide (parts !! 3%nat = Some (text verb)) && authorised _capsToken 6 parts
  then parts !! 5%nat else None.

(** The state, the requests under way at the asset servers, the replies handed out, the connections whose request has been started, those whose
    request has been dropped, and the capabilities that have been added. *)
Record world := mkWorld {
  w_handler : handler; inflight : list PackedRequestInfo; completed : list (nat * reply); started : list nat; lost : list nat; added : gset (list Z) }.

Definition gets (es : list effect) : list PackedRequestInfo := concat (map (fun e => match e with WhipGet i | CfGet i => [i] | _ => [] end) es).
Definition completes (es : list effect) : list (nat * reply) := concat (map (fun e => match e with Complete c r => [(c, r)] | _ => [] end) es).
Definition throws (es : list effect) : bool := existsb (fun e => match e with Throw => true | _ => false end) es.

(** The connections that wait in queues. *)
Definition waiting (q : gmap (list Z) (list PackedRequestInfo)) : list nat := concat (map (fun x => map Conn x.2) (map_to_list q)).

(** The connections whose requests a REMCAP request drops. *)
Definition dropped (h : handler) (req : request) : list nat :=
  match admin_cap "REMCAP" req with Some cap => map Conn (default [] (_queuedRequests h !! cap)) | None => [] end.

Definition well_formed (a : asset) : Prop := exists d, asset_data a d.

(** What the asset servers answer: a well-formed asset; the cloud store brings assets of its own kind. *)
Definition answer_ok (i : PackedRequestInfo) (found : option asset) : Prop :=
  match found with Some a => well_formed a /\ (ServedFromCF i = true -> match a with CfAsset _ _ => True | _ => False end) | None => True end.

Inductive step (w : world) : world -> Prop :=
  | step_request whip_up conn req rep h es : content rep = [] ->
      handle_request _capsToken has_cf uninit (w_handler w) whip_up conn req rep = Some (h, es) ->
      step w (mkWorld h (inflight w ++ gets es) (completed w ++ completes es) (started w ++ [conn])
        (lost w ++ dropped (w_handler w) req ++ if throws es then [conn] else [])
        (match admin_cap "ADDCAP" req with Some cap => {[cap]} ∪ added w | None => added w end))
  | step_asset i found h es p1 p2 : inflight w = p1 ++ i :: p2 -> answer_ok i found ->
      asset_response_callback has_cf uninit (w_handler w) i found = Some (h, es) ->
      step w (mkWorld h ((p1 ++ p2) ++ gets es) (completed w ++ completes es) (started w) (lost w) (added w)).

Definition init (cache : option T) : world := mkWorld (mkHandler ∅ ∅ ∅ 0 cache) [] [] [] [] ∅.

Definition reachable (cache : option T) (w : world) : Prop := rtc step (init cache) w.

(** ** The queues *)

Lemma waiting_delete q cap l : q !! cap = Some l -> waiting q ≡ₚ map Conn l ++ waiting (delete cap q).
Proof using Type. intros Hl. unfold waiting. rewrite <- (map_to_list_delete q cap l Hl). done. Qed.

Lemma waiting_insert q cap l : waiting (<[cap := l]> q) ≡ₚ map Conn l ++ waiting (delete cap q).
Proof using Type. rewrite (waiting_delete (<[cap := l]> q) cap l) by apply lookup_insert_eq. by rewrite delete_insert_eq. Qed.

(** The invariant of a state. *)
Definition info_ok (caps : gset (list Z)) (i : PackedRequestInfo) : Prop := content (Reply i) = [] /\ token (Reply i) ∈ caps.
Definition unserved (i : PackedRequestInfo) : Prop := ServedFromCache i = false /\ ServedFromWhip i = false /\ ServedFromCF i = false.

Definition handler_ok (caps : gset (list Z)) (h : handler) : Prop :=
  _validCapIds h ⊆ caps /\ map_Forall (fun _ l => Forall (fun i => info_ok caps i /\ unserved i) l) (_queuedRequests h) /\
  match _assetCache h with Some c => forall k a, holds c k a -> well_formed a | None => True end.

(** What a reply to a request may be: a stock page, or one made for a capability that was added. *)
Definition reply_ok (caps : gset (list Z)) (x : nat * reply) : Prop := (exists s hdr, x.2 = stock_reply uninit s hdr) \/ token x.2 ∈ caps.

(** A handler's result: the state and the effects are fine, and the connections in [before] are those in the effects, in the queues and in [gone]. *)
Definition fine (caps : gset (list Z)) (before gone : list nat) (thr : bool) (r : option (handler * list effect)) : Prop :=
  exists h es, r = Some (h, es) /\ handler_ok caps h /\ Forall (info_ok caps) (gets es) /\ Forall (reply_ok caps) (completes es) /\ throws es = thr /\
  before ≡ₚ map fst (completes es) ++ map Conn (gets es) ++ waiting (_queuedRequests h) ++ gone.

#[local] Instance fine_proper caps : Proper ((≡ₚ) ==> (≡ₚ) ==> eq ==> eq ==> iff) (fine caps).
Proof using Type. intros b b' Hb g g' Hg thr ? <- r ? <-. unfold fine. by setoid_rewrite Hb; setoid_rewrite Hg. Qed.

Lemma fine_complete caps h conn rep : handler_ok caps h -> reply_ok caps (conn, rep) -> fine caps (conn :: waiting (_queuedRequests h)) [] false (Some (h, [Complete conn rep])).
Proof using Type.
  intros Hh Hr. eexists _, _. split; [done|]. split; [done|]. split; [constructor|]. split; [constructor; [done|constructor]|]. split; [done|].
  cbn. by rewrite app_nil_r.
Qed.

Lemma fine_done caps h conn s : handler_ok caps h -> fine caps (conn :: waiting (_queuedRequests h)) [] false (done_with uninit h conn s).
Proof using Type. intros Hh. apply fine_complete; [done|]. left. by eexists _, _. Qed.

Lemma fine_get caps h i e : handler_ok caps h -> info_ok caps i -> e = WhipGet i \/ e = CfGet i -> fine caps (Conn i :: waiting (_queuedRequests h)) [] false (Some (h, [e])).
Proof using Type.
  intros Hh Hi He. eexists _, _. split; [done|]. split; [done|]. destruct He as [-> | ->]; (split; [constructor; [done|constructor]|]; split; [constructor|]; split; [done|]; cbn; by rewrite app_nil_r).
Qed.

Context (Hlex : forall s n, lexical_uint s = Some n -> is_u32 n).

Lemma callback_fine caps h i found : handler_ok caps h -> info_ok caps i -> answer_ok i found ->
  fine caps (Conn i :: waiting (_queuedRequests h)) [] false (asset_response_callback has_cf uninit h i found).
Proof using Hlex.
  intros Hh Hi Hf. unfold asset_response_callback. destruct found as [a|].
  - destruct Hf as [[d Hd] Hcf]. pose proof Hd as (Hdat & _ & [ty Hty] & _). rewrite Hty. cbn [mbind option_bind]. case_bool.
    + destruct a; [|by apply fine_done]. destruct (ServedFromCF i) eqn:E; [by specialize (Hcf eq_refl)|by apply fine_done].
    + assert (Hsz : getBinaryDataSize a = Some (blen d)) by (destruct a; cbn [getBinaryDataSize]; [destruct Hdat as (loc & -> & _); done|by subst]). rewrite Hsz. cbn [mbind option_bind].
      destruct (respond_token split lexical_uint uninit (headers (Request i)) (Reply i) a d Hlex Hd (proj1 Hi)) as (rep' & -> & Hr). cbn [mbind option_bind].
      set (h' := match _assetCache h with Some c => _ | None => h end).
      assert (Hh' : handler_ok caps h' /\ _queuedRequests h' = _queuedRequests h).
      { unfold h'. destruct Hh as (Hv & Hq & Hc). destruct (_assetCache h) as [c|] eqn:Ec; [|split; [split_and!; try done; by rewrite Ec|done]].
        destruct (negb (ServedFromCache i)); [|split; [split_and!; try done; by rewrite Ec|done]]. split; [|done]. split_and!; try done.
        cbn [set_cache _assetCache]. intros k a' Hk. apply insert_holds in Hk as [Hk| ->]; [by eapply Hc|by exists d]. }
      destruct Hh' as [Hh' Hq]. rewrite <- Hq. apply fine_complete; [done|]. destruct Hr as [?|Ht]; [by left|]. right. cbn [snd]. rewrite Ht. apply Hi.
  - case_bool; [|by apply fine_done]. apply (fine_get caps h (mkInfo (AssetId i) (Conn i) (Reply i) (QueryString i) (Request i) (ServedFromCache i) false true)); auto.
Qed.

Lemma process_fine caps h up i : handler_ok caps h -> info_ok caps i -> unserved i ->
  fine caps (Conn i :: waiting (_queuedRequests h)) [] false (processRequest has_cf uninit h up i).
Proof using Hlex.
  intros Hh Hi (Hu1 & Hu2 & Hu3). unfold processRequest.
  assert (Hgo : forall h', handler_ok caps h' -> _queuedRequests h' = _queuedRequests h -> fine caps (Conn i :: waiting (_queuedRequests h)) [] false
    (if up then Some (h', [WhipGet (mkInfo (AssetId i) (Conn i) (Reply i) (QueryString i) (Request i) (ServedFromCache i) true (ServedFromCF i))])
     else if has_cf then Some (h', [CfGet (mkInfo (AssetId i) (Conn i) (Reply i) (QueryString i) (Request i) (ServedFromCache i) (ServedFromWhip i) true)])
     else done_with uninit h' (Conn i) internal_server_error)).
  { intros h' Hh' Hq. rewrite <- Hq. destruct up; [|destruct has_cf]; [..|by apply fine_done].
    - apply (fine_get caps h' (mkInfo (AssetId i) (Conn i) (Reply i) (QueryString i) (Request i) (ServedFromCache i) true (ServedFromCF i))); auto.
    - apply (fine_get caps h' (mkInfo (AssetId i) (Conn i) (Reply i) (QueryString i) (Request i) (ServedFromCache i) (ServedFromWhip i) true)); auto. }
  destruct (_assetCache h) as [c|] eqn:Ec; [|by apply Hgo]. pose proof Hh as (Hv & Hq & Hc). rewrite Ec in Hc.
  pose proof (fetch_holds c (AssetId i)) as Hhit. pose proof (fetch_keeps c (AssetId i)) as Hkeep. destruct (cache_fetch c (AssetId i)) as [[a|] c']; cbn [fst snd] in *.
  - apply (callback_fine caps (set_cache h (Some c')) (mkInfo (AssetId i) (Conn i) (Reply i) (QueryString i) (Request i) true (ServedFromWhip i) (ServedFromCF i)) (Some a)); [|done|].
    + split_and!; [done|done|]. cbn [set_cache _assetCache]. intros k a' Hk. by eapply Hc, Hkeep.
    + split; [by eapply Hc, Hhit|]. cbn. congruence.
  - apply Hgo; [|done]. split_and!; [done|done|]. cbn [set_cache _assetCache]. intros k a' Hk. by eapply Hc, Hkeep.
Qed.

Lemma callback_queues (h h' : handler) i found es : asset_response_callback has_cf uninit h i found = Some (h', es) -> _queuedRequests h' = _queuedRequests h.
Proof using Type.
  unfold asset_response_callback, done_with. destruct found as [a|]; [|case_bool; by intros [= <- <-]]. destruct (getType a); cbn [mbind option_bind]; [|done].
  case_bool; [destruct a; [case_bool; [done|]|]; by intros [= <- <-]|]. destruct (getBinaryDataSize a); cbn [mbind option_bind]; [|done].
  destruct (respond _ _ _ _ _ _); cbn [mbind option_bind]; [|done]. intros [= <- <-]. destruct (_assetCache h); [|done]. by case_bool.
Qed.

Lemma process_queues (h h' : handler) up i es : processRequest has_cf uninit h up i = Some (h', es) -> _queuedRequests h' = _queuedRequests h.
Proof using Type.
  unfold processRequest, done_with. destruct (_assetCache h) as [c|]; [destruct (cache_fetch c (AssetId i)) as [[a|] c']|].
  - intros Hc. by apply callback_queues in Hc.
  - repeat case_bool; by intros [= <- <-].
  - repeat case_bool; by intros [= <- <-].
Qed.

Lemma gets_app es es' : gets (es ++ es') = gets es ++ gets es'.
Proof using Type. unfold gets. by rewrite map_app, concat_app. Qed.

Lemma completes_app es es' : completes (es ++ es') = completes es ++ completes es'.
Proof using Type. unfold completes. by rewrite map_app, concat_app. Qed.

Lemma throws_app es es' : throws (es ++ es') = throws es || throws es'.
Proof using Type. unfold throws. apply existsb_app. Qed.

(** Resuming a capability: every request of its queue is answered or on its way. *)
Lemma process_all_fine caps up l : forall h, handler_ok caps h -> Forall (fun i => info_ok caps i /\ unserved i) l ->
  exists h' es, process_all has_cf uninit h up l = Some (h', es) /\ handler_ok caps h' /\ _queuedRequests h' = _queuedRequests h /\
  Forall (info_ok caps) (gets es) /\ Forall (reply_ok caps) (completes es) /\ throws es = false /\ map Conn l ≡ₚ map fst (completes es) ++ map Conn (gets es).
Proof using Hlex.
  induction l as [|i l IH]; intros h Hh HF; cbn [process_all].
  - exists h, []. repeat (split; [done || constructor|]). constructor.
  - apply Forall_cons in HF as [[Hi Hu] HF]. destruct (process_fine caps h up i Hh Hi Hu) as (h1 & es1 & E1 & Hh1 & Hg1 & Hc1 & Ht1 & Hp1). rewrite E1. cbn [mbind option_bind].
    apply process_queues in E1. destruct (IH h1 Hh1 HF) as (h2 & es2 & -> & Hh2 & Hq2 & Hg2 & Hc2 & Ht2 & Hp2). cbn [mbind option_bind].
    exists h2, (es1 ++ es2). split; [done|]. split; [done|]. split; [by rewrite Hq2|]. rewrite gets_app, completes_app, throws_app, !map_app, Ht1, Ht2.
    split; [by apply Forall_app|]. split; [by apply Forall_app|]. split; [done|]. cbn [map]. rewrite E1, app_nil_r in Hp1.
    change (Conn i :: waiting (_queuedRequests h)) with ([Conn i] ++ waiting (_queuedRequests h)) in Hp1. rewrite app_assoc in Hp1. apply Permutation_app_inv_r in Hp1.
    change (Conn i :: map Conn l) with ([Conn i] ++ map Conn l). rewrite Hp1, Hp2. solve_Permutation.
Qed.

Lemma handler_ok_mono caps caps' h : caps ⊆ caps' -> handler_ok caps h -> handler_ok caps' h.
Proof using H Hlex.
  intros Hs (Hv & Hq & Hc). split; [set_solver|]. split; [|done]. intros k l Hl. specialize (Hq k l Hl). cbn in Hq. eapply Forall_impl; [exact Hq|].
  intros i [[Hi Ht] Hu]. split; [split; [done|set_solver]|done].
Qed.

(** A request for an asset. *)
Lemma asset_request_fine caps h up conn req rep parts : handler_ok caps h -> content rep = [] -> (5 <= length parts)%nat ->
  fine caps (conn :: waiting (_queuedRequests h)) [] false (handle_asset_request has_cf uninit h up conn req rep parts).
Proof using H Hlex.
  intros Hh Hrep Hlen. unfold handle_asset_request. rewrite (proj2 (Nat.ltb_ge _ _)) by lia. destruct (match _ !! TEXTURE_ID with Some _ => _ | None => _ end) as [assetId|]; [|by apply fine_done].
  case_bool; [by apply fine_done|]. destruct (lookup_lt_is_Some_2 parts 3) as [cap ->]; [lia|]. cbn [mbind option_bind]. case_bool; [by apply fine_done|].
  apply negb_false_iff, bool_decide_eq_true in Heqb0. set (info := mkInfo _ _ _ _ _ _ _ _). pose proof Hh as (Hv & Hq & Hc).
  assert (Hi : info_ok caps info) by (split; [done|]; cbn; set_solver). assert (Hu : unserved info) by done.
  destruct (_queuedRequests h !! cap) as [queue|] eqn:Eq; [|by apply (process_fine caps h up info)].
  assert (HF : Forall (fun i => info_ok caps i /\ unserved i) (queue ++ [info])) by (apply Forall_app_2; [exact (Hq cap queue Eq)|constructor; [done|constructor]]).
  assert (Hw : conn :: waiting (_queuedRequests h) ≡ₚ map Conn (queue ++ [info]) ++ waiting (delete cap (_queuedRequests h))).
  { rewrite (waiting_delete _ _ _ Eq), map_app. cbn [map Conn info]. solve_Permutation. }
  assert (Hset : forall l, Forall (fun i => info_ok caps i /\ unserved i) l -> handler_ok caps (set_queues h (<[cap := l]> (_queuedRequests h)))).
  { intros l Hl. split_and!; [done| |done]. cbn [set_queues _queuedRequests]. by apply map_Forall_insert_2. }
  rewrite Hw. case_bool.
  - destruct (queue ++ [info]) as [|front tail] eqn:Et; [by destruct queue|]. apply Forall_cons in HF as [_ HF]. eexists _, _. split; [done|]. split; [by apply Hset|]. split; [constructor|].
    split; [constructor; [left; by eexists _, _|constructor]|]. split; [done|]. cbn [completes map concat app fst gets]. cbn [set_queues _queuedRequests]. rewrite waiting_insert, app_nil_r. done.
  - eexists _, _. split; [done|]. split; [by apply Hset|]. split; [constructor|]. split; [constructor|]. split; [done|]. cbn. rewrite waiting_insert, app_nil_r. done.
Qed.

(** The administrative requests. *)
Lemma admin_cap_not verb req : (forall cap, split 47 (r_uri req) !! 3%nat = Some (text verb) -> authorised _capsToken 6 (split 47 (r_uri req)) = true -> split 47 (r_uri req) !! 5%nat = Some cap ->
    split 47 (r_uri req) !! 1%nat = Some (text "CAPS") -> split 47 (r_uri req) !! 2%nat = Some (text "HTT") -> False) -> admin_cap verb req = None.
Proof using H Hlex.
  intros Hn. unfold admin_cap. case_bool; [|done]. zbool. repeat match goal with Hb : bool_decide _ = true |- _ => apply bool_decide_eq_true in Hb end.
  destruct (split 47 (r_uri req) !! 5%nat) as [cap|]; [|done]. exfalso. by eapply Hn.
Qed.

Lemma admin_cap_yes verb req cap : split 47 (r_uri req) !! 3%nat = Some (text verb) -> authorised _capsToken 6 (split 47 (r_uri req)) = true -> split 47 (r_uri req) !! 5%nat = Some cap ->
  split 47 (r_uri req) !! 1%nat = Some (text "CAPS") -> split 47 (r_uri req) !! 2%nat = Some (text "HTT") -> admin_cap verb req = Some cap.
Proof using H Hlex. intros E3 Ea E5 E1 E2. unfold admin_cap. by rewrite E3, E1, E2, Ea, !bool_decide_true. Qed.

Lemma authorised_5 parts : authorised _capsToken 6 parts = true -> exists cap, parts !! 5%nat = Some cap.
Proof using H Hlex. unfold authorised. intros Ha. apply andb_prop in Ha as [Hn _]. apply negb_true_iff, Nat.ltb_ge in Hn. apply lookup_lt_is_Some_2. lia. Qed.

Lemma add_cap_fine caps h conn parts cap : handler_ok caps h -> authorised _capsToken 6 parts = true -> parts !! 5%nat = Some cap ->
  exists thr : bool, fine ({[cap]} ∪ caps) (conn :: waiting (_queuedRequests h)) (if thr then [conn] else []) thr (handle_add_cap _capsToken uninit h conn parts).
Proof using H Hlex.
  intros Hh Ha Hcap. unfold handle_add_cap. rewrite Ha, Hcap. cbn [negb mbind option_bind]. set (h1 := mkHandler _ _ _ _ _).
  assert (Hh1 : handler_ok ({[cap]} ∪ caps) h1) by (apply (handler_ok_mono _ ({[cap]} ∪ caps)) in Hh as (Hv & Hq & Hc); [split_and!; [set_solver|done|done]|set_solver]).
  case_bool; [|exists false; by apply (fine_done _ h1)]. apply Nat.eqb_eq in Heqb. destruct (lookup_lt_is_Some_2 parts 6) as [limit ->]; [lia|]. cbn [mbind option_bind].
  destruct (lexical_int limit) as [bw|].
  - exists false. eexists _, _. split; [done|]. split; [done|]. split; [constructor|]. split; [constructor; [left; by eexists _, _|constructor]|]. split; [done|]. cbn. by rewrite app_nil_r.
  - exists true. eexists _, _. split; [done|]. split; [done|]. split; [constructor|]. split; [constructor|]. split; [done|]. cbn. solve_Permutation.
Qed.

Lemma rem_cap_fine caps h conn parts cap : handler_ok caps h -> authorised _capsToken 6 parts = true -> parts !! 5%nat = Some cap ->
  fine caps (conn :: waiting (_queuedRequests h)) (map Conn (default [] (_queuedRequests h !! cap))) false (handle_rem_cap _capsToken uninit h conn parts).
Proof using H Hlex.
  intros (Hv & Hq & Hc) Ha Hcap. unfold handle_rem_cap. rewrite Ha, Hcap. cbn [negb mbind option_bind]. eexists _, _. split; [done|]. split; [split_and!; [cbn; set_solver|by apply map_Forall_delete|done]|].
  split; [constructor|]. split; [constructor; [left; by eexists _, _|constructor]|]. split; [done|]. cbn [completes map concat app fst gets _queuedRequests].
  destruct (_queuedRequests h !! cap) as [l|] eqn:E; cbn [default map]; [rewrite (waiting_delete _ _ _ E); solve_Permutation|]. by rewrite delete_id, app_nil_r.
Qed.

Lemma resume_cap_fine caps h up conn parts : handler_ok caps h ->
  fine caps (conn :: waiting (_queuedRequests h)) [] false (handle_resume_cap _capsToken has_cf uninit h up conn parts).
Proof using H Hlex.
  intros Hh. unfold handle_resume_cap. destruct (authorised _capsToken 6 parts) eqn:Ha; cbn [negb]; [|by apply fine_done]. destruct (authorised_5 _ Ha) as [cap ->]. cbn [mbind option_bind].
  destruct (_queuedRequests h !! cap) as [l|] eqn:E; [|by apply fine_done]. pose proof Hh as (_ & Hq & _).
  destruct (process_all_fine caps up l h Hh (Hq cap l E)) as (h' & es & -> & (Hv' & Hq' & Hc') & Eq & Hg & Hcp & Ht & Hp). cbn [mbind option_bind].
  eexists _, _. split; [done|]. split; [split_and!; [done|by apply map_Forall_delete|done]|]. rewrite gets_app, completes_app, throws_app, Ht, !map_app. cbn [gets completes map concat app fst throws existsb orb].
  split; [by rewrite app_nil_r|]. split; [apply Forall_app_2; [done|constructor; [left; by eexists _, _|constructor]]|]. split; [done|]. cbn [set_queues _queuedRequests]. rewrite Eq, (waiting_delete _ _ _ E), Hp, !app_nil_r. solve_Permutation.
Qed.

Lemma pause_cap_fine caps h conn parts : handler_ok caps h -> fine caps (conn :: waiting (_queuedRequests h)) [] false (handle_pause_cap _capsToken uninit h conn parts).
Proof using H Hlex.
  intros Hh. unfold handle_pause_cap. destruct (authorised _capsToken 6 parts) eqn:Ha; cbn [negb]; [|by apply fine_done]. destruct (authorised_5 _ Ha) as [cap ->]. cbn [mbind option_bind].
  destruct (_queuedRequests h !! cap) as [l|] eqn:E; [by apply fine_done|].
  assert (Hw : waiting (<[cap := []]> (_queuedRequests h)) ≡ₚ waiting (_queuedRequests h)) by (rewrite waiting_insert; cbn; by rewrite delete_id).
  unfold done_with. destruct (fine_done caps (set_queues h (<[cap := []]> (_queuedRequests h))) conn ok) as (h' & es & Er & Hh' & Hg & Hcp & Ht & Hp).
  - destruct Hh as (Hv & Hq & Hc). split_and!; [done|by apply map_Forall_insert_2|done].
  - exists h', es. split; [exact Er|]. split; [done|]. split; [done|]. split; [done|]. split; [done|]. cbn [set_queues _queuedRequests] in Hp. by rewrite <- Hp, Hw.
Qed.

Lemma limit_cap_fine caps h conn parts : handler_ok caps h -> fine caps (conn :: waiting (_queuedRequests h)) [] false (handle_limit_cap _capsToken uninit h conn parts).
Proof using H Hlex.
  intros Hh. unfold handle_limit_cap. destruct (authorised _capsToken 7 parts) eqn:Ha; cbn [negb]; [|by apply fine_done]. unfold authorised in Ha. apply andb_prop in Ha as [Hn _]. apply negb_true_iff, Nat.ltb_ge in Hn.
  destruct (lookup_lt_is_Some_2 parts 5) as [cap ->]; [lia|]. destruct (lookup_lt_is_Some_2 parts 6) as [limit ->]; [lia|]. cbn [mbind option_bind].
  destruct (lexical_int limit) as [bw|]; [|by apply fine_done]. case_bool; [by apply fine_done|].
  eexists _, _. split; [done|]. split; [done|]. split; [constructor|]. split; [constructor; [left; by eexists _, _|constructor]|]. split; [done|]. cbn. by rewrite app_nil_r.
Qed.

Definition caps_after (caps : gset (list Z)) (req : request) : gset (list Z) :=
  match admin_cap "ADDCAP" req with Some cap => {[cap]} ∪ caps | None => caps end.

(** Every request is handled, and its connection is accounted for. *)
Lemma request_fine caps h up conn req rep : handler_ok caps h -> content rep = [] ->
  exists thr : bool, fine (caps_after caps req) (conn :: waiting (_queuedRequests h)) (dropped h req ++ if thr then [conn] else []) thr
    (handle_request _capsToken has_cf uninit h up conn req rep).
Proof using H Hlex.
  intros Hh Hrep. unfold handle_request, dropped, caps_after.
  assert (Hnone : forall verb, (length (split 47 (r_uri req)) < 5)%nat -> admin_cap verb req = None).
  { intros verb Hlt. apply admin_cap_not. intros cap _ _ H5%lookup_lt_Some. lia. }
  destruct (Nat.ltb_spec (length (split 47 (r_uri req))) 5) as [Hlt|Hge]; [rewrite !Hnone by done; exists false; by apply fine_done|].
  destruct (lookup_lt_is_Some_2 (split 47 (r_uri req)) 1) as [p1 E1]; [lia|]. destruct (lookup_lt_is_Some_2 (split 47 (r_uri req)) 2) as [p2 E2]; [lia|].
  destruct (lookup_lt_is_Some_2 (split 47 (r_uri req)) 3) as [p3 E3]; [lia|]. rewrite E1, E2, E3. cbn [mbind option_bind].
  case_bool.
  { assert (Hno : forall verb, admin_cap verb req = None).
    { intros verb. apply admin_cap_not. intros cap _ _ _ F1 F2. rewrite E1 in F1. rewrite E2 in F2. injection F1 as ->. injection F2 as ->. rewrite !bool_decide_true in Heqb by done. done. }
    rewrite !Hno. exists false. by apply fine_done. }
  apply orb_false_elim in Heqb as [F1 F2]. apply negb_false_iff, bool_decide_eq_true in F1, F2. subst p1 p2.
  assert (Hother : forall verb, p3 <> text verb -> admin_cap verb req = None).
  { intros verb Hne. apply admin_cap_not. intros cap F3 _ _ _ _. rewrite E3 in F3. by injection F3. }
  destruct (authorised _capsToken 6 (split 47 (r_uri req))) eqn:Ha.
  - destruct (authorised_5 _ Ha) as [cap E5].
    case_bool; [|case_bool]; repeat match goal with Hb : bool_decide _ = true |- _ => apply bool_decide_eq_true in Hb end.
    + subst p3. rewrite (Hother "REMCAP"%string) by done. rewrite (admin_cap_yes "ADDCAP" req cap) by done. by apply add_cap_fine.
    + subst p3. rewrite (Hother "ADDCAP"%string) by done. rewrite (admin_cap_yes "REMCAP" req cap) by done. exists false. rewrite app_nil_r. by apply rem_cap_fine.
    + apply bool_decide_eq_false in Heqb, Heqb0. rewrite (Hother "REMCAP"%string), (Hother "ADDCAP"%string) by done. exists false. cbn [app].
      repeat case_bool; [by apply pause_cap_fine|by apply resume_cap_fine|by apply limit_cap_fine|by apply asset_request_fine].
  - assert (Hno : forall verb, admin_cap verb req = None) by (intros verb; apply admin_cap_not; congruence). rewrite !Hno. exists false. cbn [app]. unfold handle_add_cap, handle_rem_cap. rewrite Ha. cbn [negb].
    repeat case_bool; [by apply fine_done|by apply fine_done|by apply pause_cap_fine|by apply resume_cap_fine|by apply limit_cap_fine|by apply asset_request_fine].
Qed.

(** ** The invariant *)

Definition inv (w : world) : Prop :=
  handler_ok (added w) (w_handler w) /\ Forall (info_ok (added w)) (inflight w) /\ Forall (reply_ok (added w)) (completed w) /\
  started w ≡ₚ map fst (completed w) ++ map Conn (inflight w) ++ waiting (_queuedRequests (w_handler w)) ++ lost w.

Lemma info_ok_mono caps caps' i : caps ⊆ caps' -> info_ok caps i -> info_ok caps' i.
Proof using Type. clear Hlex. intros Hs [Hc Ht]. split; [done|set_solver]. Qed.

Lemma reply_ok_mono caps caps' x : caps ⊆ caps' -> reply_ok caps x -> reply_ok caps' x.
Proof using Type. clear Hlex. intros Hs [?|Ht]; [by left|right; set_solver]. Qed.

Lemma handler_inv_step w w' : inv w -> step w w' -> inv w'.
Proof using H Hlex.
  intros (Hh & Hi & Hc & Hp) Hstep. destruct Hstep as [up conn req rep h es Hrep Hr|i found h es p1 p2 Hin Hans Hr].
  - destruct (request_fine (added w) (w_handler w) up conn req rep Hh Hrep) as (thr & h1 & es1 & E & Hh1 & Hg & Hcp & Ht & Hper). rewrite E in Hr. injection Hr as <- <-. unfold caps_after in *.
    set (caps' := match admin_cap "ADDCAP" req with Some cap => {[cap]} ∪ added w | None => added w end) in *.
    assert (Hs : added w ⊆ caps') by (unfold caps'; destruct (admin_cap "ADDCAP" req); set_solver). unfold inv. cbn [w_handler inflight completed started lost added].
    split; [done|]. split; [apply Forall_app_2; [|done]; eapply Forall_impl; [exact Hi|intros; by eapply info_ok_mono]|].
    split; [apply Forall_app_2; [|done]; eapply Forall_impl; [exact Hc|intros; by eapply reply_ok_mono]|].
    rewrite !map_app, Hp, Ht. clear Hp. set (W := waiting (_queuedRequests (w_handler w))) in *. set (W1 := waiting (_queuedRequests h1)) in *. set (G := dropped (w_handler w) req ++ if thr then [conn] else []) in *.
    transitivity (map fst (completed w) ++ map Conn (inflight w) ++ lost w ++ (conn :: W)); [solve_Permutation|]. rewrite Hper. solve_Permutation.
  - rewrite Hin in Hi. apply Forall_app in Hi as [Hi1 Hi2]. apply Forall_cons in Hi2 as [Hi0 Hi2].
    destruct (callback_fine (added w) (w_handler w) i found Hh Hi0 Hans) as (h1 & es1 & E & Hh1 & Hg & Hcp & Ht & Hper). rewrite E in Hr. injection Hr as <- <-.
    unfold inv. cbn [w_handler inflight completed started lost added]. split; [done|]. split; [by repeat apply Forall_app_2|]. split; [by apply Forall_app_2|].
    rewrite Hp, Hin, !map_app. cbn [map]. clear Hp. rewrite app_nil_r in Hper. set (W := waiting (_queuedRequests (w_handler w))) in *. set (W1 := waiting (_queuedRequests h1)) in *.
    transitivity (map fst (completed w) ++ map Conn p1 ++ map Conn p2 ++ lost w ++ (Conn i :: W)); [solve_Permutation|]. rewrite Hper. solve_Permutation.
Qed.

Lemma handler_reachable_inv cache w : match cache with Some c => forall k a, ~ holds c k a | None => True end -> reachable cache w -> inv w.
Proof using H Hlex.
  intros Hc Hr. assert (H00 : inv (init cache)).
  { unfold inv, init. cbn [w_handler inflight completed started lost added]. split; [|split; [constructor|split; [constructor|done]]].
    split; [done|]. split; [apply map_Forall_empty|]. cbn [_assetCache]. destruct cache; [|done]. intros k a Hk. by destruct (Hc k a). }
  unfold reachable in Hr. induction Hr as [|x y z Hxy _ IH]; [done|]. apply IH. by eapply handler_inv_step.
Qed.
End runs.



(** ** A run: a capability is added, and an asset is asked for under it *)

#[local] Instance demo_boost : BoostStrings := {
  split := demo_split; to_lower s := s; erase_all c s := List.filter (fun x => negb (x =? c)) s; lexical_int := demo_uint; lexical_uint := demo_uint }.

Definition demo_get (uri : string) : request := mkRequest (text "GET") (text uri) 1 1 [] true false.
Definition demo_add : request := demo_get "/CAPS/HTT/ADDCAP/t/c".
Definition demo_asset : request := demo_get "/CAPS/HTT/c/?texture_id=00000000000000000000000000000001".
Definition demo_rep : reply := mkReply ok [] [] [] 0 None.
Definition demo_info : PackedRequestInfo :=
  mkInfo (text "00000000000000000000000000000001") 8 (mkReply ok [] [] (text "c") 0 None) {[TEXTURE_ID := text "00000000000000000000000000000001"]} demo_asset false true false.
Definition demo_cache : lru_entries := mkEntries [] 1000.
Definition demo_world1 : world (T := lru_entries) :=
  mkWorld (mkHandler {[text "c"]} ∅ ∅ 0 (Some demo_cache)) [] [(7%nat, stock_reply 0 ok ([], []))] [7%nat] [] {[text "c"]}.
Definition demo_world2 : world (T := lru_entries) :=
  mkWorld (mkHandler {[text "c"]} ∅ ∅ 0 (Some demo_cache)) [demo_info] [(7%nat, stock_reply 0 ok ([], []))] [7%nat; 8%nat] [] {[text "c"]}.

Lemma demo_uint_u32 s n : demo_uint s = Some n -> is_u32 n.
Proof. unfold demo_uint. destruct s as [|c [|? ?]]; [done| |done]. case_bool; [|done]. intros [= <-]. zbool. unfold is_u32. lia. Qed.

Lemma demo_reachable : reachable (text "t") false 0 (Some demo_cache) demo_world2.
Proof.
  assert (H1 : exists w, w = demo_world1 /\ step (text "t") false 0 (init (Some demo_cache)) w).
  { eexists. split; [|apply (step_request (text "t") false 0 (init (Some demo_cache)) true 7 demo_add demo_rep (w_handler demo_world1) [Complete 7 (stock_reply 0 ok ([], []))]); [done|vm_compute; reflexivity]].
    vm_compute. reflexivity. }
  assert (H2 : exists w, w = demo_world2 /\ step (text "t") false 0 demo_world1 w).
  { eexists. split; [|apply (step_request (text "t") false 0 demo_world1 true 8 demo_asset demo_rep (w_handler demo_world2) [WhipGet demo_info]); [done|vm_compute; reflexivity]].
    vm_compute. reflexivity. }
  destruct H1 as (w1 & -> & H1). destruct H2 as (w2 & -> & H2). exact (rtc_l _ _ _ _ H1 (rtc_once _ _ H2)).
Qed.


